(* ===== verification/_CoqProject ===== *)
-Q . S2P
Prelude.v
Checked.v
SimpleArray.v
Memory.v
Blob.v
Streams.v
Encoding.v
InputBuffer.v
OutputBuffer.v
OutputCounter.v
DataType.v
Metadata.v
Json.v
Protocol.v
Serializer.v
SimpleJson.v
SimpleJsonCorrect.v
Skipping.v
FastBinary.v
CompactBinary.v
CompactBinaryReader.v
SimpleBinary.v
RandomProtocol.v
Counters.v
CappedAllocator.v
WaitCallback.v
Nullable.v
Schema.v
RuntimeSchema.v
Validate.v
Parser.v
SimpleJsonReader.v
ParserCorrect.v
Deserialization.v
ValidateSound.v
Transcode.v
TranscodeCorrect.v
BondedVoid.v
Merge.v
MergeSpec.v
MergeCorrect.v
SimpleJsonReaderCorrect.v
StaticRoundTrip.v
SimpleJsonRoundTrip.v
ParserSafety.v
ParserErrors.v
SimpleJsonErrors.v
EndToEnd.v
MergeObject.v
RuntimeParse.v
RuntimeParseCorrect.v
RuntimeParseErrors.v
MapTo.v
MapToCorrect.v
Maybe.v
CmdArgs.v
CmdArgsCorrect.v
CmdArgsSafety.v
CmdUsage.v
CmdUsageCorrect.v
SelectProtocol.v
