(* ===== verification/Prelude.v ===== *)
(** Bond, the C++ library (src/cpp/inc/bond): a verification of its serialization core.

    * The program

    Bond turns an object of a schema into bytes and back.  The pieces, bottom up:
    memory blobs and the streams made of them (stream/, core/blob.h), encodings of
    integers and strings (protocol/encoding.h), three binary protocols and
    JSON over any stream (protocol/), the serializing transform that drives a protocol writer
    (core/transforms.h), the parsers and the deserializing transform that drive a
    protocol reader (core/parser.h, core/value.h), schemas as data, made from a class
    or received with a payload (core/schema.h), their validation (core/validate.h),
    payloads without a class, copied from one protocol to another (core/bonded_void.h),
    payloads merged with an object (core/merge.h),
    and the choice of the protocol by the number at the front of a payload
    (core/select_protocol.h).  Beside them stand nullable members and members that
    may be nothing (core/nullable.h, core/maybe.h), a
    generator of random objects, an allocator with a cap, the callback a gRPC client
    waits on (ext/), and the command line arguments of tools, read into an object by its
    schema (core/cmdargs.h).

    * How it is modelled

    The code is translated to functions in the state and error monad [M] below.
    The state is the object the methods belong to, with the memory it shares;
    an outcome is a value, a C++ exception, or [Undefined] where the language gives
    no meaning (a byte outside its block or never written, an index out of
    range, a [bool] made of another byte).  Machine integers are [Z] with [wrap w]
    wherever the code's type has [w] bits.  [OutOfFuel] marks an exhausted recursion
    budget; a budget is one turn per unread byte (and per field), and each
    correctness or safety theorem shows it is never exhausted; the loop of [FormatHelp]
    takes its budget as an argument, a turn per word being enough.
    C++ templates over a buffer or protocol become definitions over a class
    ([OutputStream], [InputStream]) or a record of operations ([ProtocolWriter],
    [ProtocolReader]) whose laws the theorems are proved from and each
    implementation discharges.

    * Files

    - Prelude: outcomes, the monad, machine integers, bytes, shared lemmas.
    - Checked: core/detail/checked.h.        - SimpleArray: detail/simple_array.h.
    - Memory, Blob: the store of shared byte blocks; core/blob.h.
    - Streams: the stream classes, the calculi [emits], [reads], [safely].
    - Encoding: protocol/encoding.h.
    - InputBuffer, OutputBuffer, OutputCounter: stream/*.h, discharging the laws.
    - DataType, Metadata: type tags, basic values as bit patterns, defaults and the
      omission of fields (core/detail/metadata.h, omit_default.h).
    - Protocol: objects ([value]), the writer's operations and laws, [wire_format] and
      [encode], the reference encoding of an object.
    - Serializer: [Serializer] and the object parser; for any lawful writer the bytes
      are [encode].    - Skipping: what the [SkipType] families have in common.
    - FastBinary, CompactBinary (writer, two passes), CompactBinaryReader,
      SimpleBinary: the protocols, each as writer, reader, format and laws.
    - RandomProtocol: protocol/random_protocol.h.
    - Counters, CappedAllocator: ext/*_counter.h, ext/capped_allocator.h; the
      concurrent counter is a step relation over its atomic operations, in which a
      thread may compare and exchange with a value loaded long before.
    - WaitCallback: ext/grpc/wait_callback.h, threads over a mutex and a condition
      variable.
    - Nullable: core/nullable.h for classes, over a heap of allocated blocks.
    - Maybe: core/maybe.h over [boost::optional], with references into the objects.
    - Json: the JSON grammar as a relation and a parser that decides it, for reference.
    - SimpleJson, SimpleJsonCorrect: protocol/simple_json_writer.h; what it writes.
    - SimpleJsonReader: protocol/simple_json_reader*.h, detail/rapidjson_helper.h and the DOM
      parser; the document library it works on is a record of functions.
    - SimpleJsonReaderCorrect, SimpleJsonRoundTrip: a document of the tree of an object is
      read as the object; the stream adapter; a library that keeps the assumed laws.
    - SimpleJsonErrors: documents that do not fit the class.
    - CmdArgs, CmdArgsCorrect, CmdArgsSafety: core/cmdargs.h and the options and transform
      of core/detail/cmdargs.h; command lines that give options in any order; any command line.
    - CmdUsage, CmdUsageCorrect: the usage text of core/detail/cmdargs.h.
    - Schema: compile-time schemas as data, type promotion, and [read_as], the
      specification of what a payload means to a reader's schema, which may have
      fewer levels of inheritance than the payload.
    - RuntimeSchema: [SchemaDef] (idl/bond/core/bond.bond), [RuntimeSchema] and the
      schema made from a class (core/schema.h, core/runtime_schema.h).
    - Validate: core/detail/validate.h, and [compatible], what it decides.
    - Parser: [DynamicParser], [StaticParser], [To<T>], values and containers.
    - ParserCorrect: a dynamic parser with a lawful reader implements [read_as].
    - Deserialization: the tagged readers are lawful; evolution.
    - ValidateSound: payloads of a validated schema deserialize.
    - Transcode: [DynamicParser] with a runtime schema driving [Serializer]
      (core/parser.h, transforms.h, value.h, detail/inheritance.h).
    - TranscodeCorrect: it copies the object a payload encodes.
    - BondedVoid: [bonded<void>::Serialize], with the copy of bytes between equal
      protocols (core/detail/protocol_visitors.h, pass_through.h).
    - Merge: [Merger] and the parser that drives it (core/merge.h, parser.h, value.h).
    - MergeSpec: [merged], what merging is to write; commands that run with every writer.
    - MergeCorrect: it writes that.     - MergeObject: [Merge] and [bonded<T>::Merge].
    - RuntimeParse: [DynamicParser] with a runtime schema and any transform, [To<T>] over
      [bonded<void>] and [value<void>].     - RuntimeParseCorrect: it is [Deserialize].
    - RuntimeParseErrors: the same of a payload without a required field.
    - MapTo, MapToCorrect: [MapTo] (core/transforms.h); what it does to the object.
    - StaticRoundTrip: the static parser with Simple Binary.
    - ParserSafety: parsing arbitrary bytes.     - ParserErrors: required fields.
    - EndToEnd: from an object to memory and back.
    - SelectProtocol: [Marshal], [Unmarshal] and [Serialize] over the three protocols
      (core/select_protocol.h, core/bond.h), where the others meet.

    * What the theorems show

    - JSON: the text is a JSON text of the object's tree (C23) and is read back as the
      object (C22), never without a required member (C26).
    - Writing: with each protocol exactly [encode] of the object is written, on any
      stream with room; the two passes of Compact Binary version 2 agree (C2, C12).
      Output buffers hold what was written however they grow and chain (C9), the counter
      counts it (counter_counts_varint).
    - Reading: deserialization implements [read_as] for every pair of payload and
      reader's schema in which the payload has the reader's levels of inheritance or
      more (C5); a missing required field is an exception (C28); with the writer's
      schema the object comes back (C13); and from memory, joined with the streams and
      the choice of a protocol (C3; serialize_by_magic). The objects of the round trips
      are those of the class's type ([typed]) without an optional zero of the sign
      opposite to its default ([exact_zeros]): such a field is omitted by the writer,
      whose comparison is the code's, and comes back as the default.
    - Merging an object into a payload writes the encoding of the merged object (C7),
      which keeps the fields the class does not have (C25); in place it is read back
      (C24).
    - The schema of the payload instead of the class's gives the same object, or the
      same exception when a required field is missing (C6); a mapping puts the payload's
      fields where it says (C8).
    - Payloads without a class: a [bonded<void>] is rewritten in another protocol as the
      encoding of the same object (C1).
    - Schemas: the schema made from a class describes it and is well formed (C16, C30);
      validation decides compatibility (C14), and a payload of a schema it accepts
      deserializes (C4).
    - Hostile input: nothing read from an input buffer leaves the buffer (C10), skipping
      and deserialization of arbitrary bytes end with a result or an exception
      (skip_total, C15), an unknown protocol or version is an exception (C31); skipping
      a valid value is exact (C11).
    - Below: round trips of integers and defaults (input_buffer_reads_varint,
      default_value_roundtrip), blobs (merge_concatenates), exact arithmetic (C33).
    - Beside: the counters keep their invariant under every interleaving and the
      allocator its under every exception, over either counter (C29,
      multi_threaded_try_add_refines, C32).
    - A nullable is an optional value and its memory is accounted for, in programs that
      do not move a block to an unequal allocator, which leaks it (C17, C38); a [maybe]
      is an optional value with an allocator (C18). A wait callback accepts one result
      and every wait ends (wait_callback_once, C27).
    - A command line means, to the options of an object, what a reading of the options
      by name gives (C19); any command line gives a typed object or an exception and
      none of its arguments is passed over (C20). The usage text is the greedy division
      of the help texts into lines (C21).
    - Deviations the code allows, stated exactly (C34, C36, C37, C35, C39, C40; as
      lemmas, bool_byte_unchecked and json_mapped_value_unchecked).

    * Choices

    - Integers are little-endian and [size_t] has 64 bits, as on the targets the
      code is built for.  [std::wstring] is the build with a [wchar_t] wider than
      the 16-bit wire unit.  Release builds: [BOOST_ASSERT] has no effect.
    - [float] and [double] are bit patterns with IEEE equality; conversion of [float] to
      [double] is on bit patterns too.
    - A class's type is a finite tree in the theorems about deserialization, so a
      recursive schema stands for its unfolding to the depth of the payload; runtime
      schemas refer to structs by index, as in the code, and may be recursive.  An
      object's set and map elements are listed in the order of insertion; the
      containers' own order is not modelled.
    - The template arguments and SFINAE tests that choose an overload are
      arguments (a protocol's [version], [may_omit_fields]).
    - [Deserialize] receives the reader by value, so the position of the reader after an
      exception is not observable, and the destructors that move it during
      unwinding are modelled only where the exception is swallowed
      ([Skip_nothrow]).
    - Objects of up to 2^32 - 1 bytes (2^31 - 1 in an output buffer, whose growth
      doubles a 32-bit size) are in range of the theorems.

    * Not modelled

    lazy [bonded<T>] fields, [MapTo] with a compile-time schema, serialization of [nullable], [maybe] and [blob]
    members, transcoding from or into Simple Binary, [SchemaValidator], transcoding from or into
    JSON and the library that parses JSON, text of exception messages, I/O and gRPC
    glue, the schema compiler and the other languages.  A payload whose class has
    fewer levels than the reader's is an exception in [To] and is read on past its
    end by [Serializer] (BondedVoid); no theorem describes the rest.  Memory
    exhaustion is modelled for the capped allocator only.  The order in which these
    would be added: [maybe] and nullable members, lazy bonded values. *)

From Stdlib Require Import ZArith Lia List Strings.Byte.
From coqutil Require Import Byte Word.LittleEndianList.
From stdpp Require Export base list numbers.

Export Stdlib.ZArith.BinInt.

#[global] Open Scope Z_scope.

(** * Outcomes: values, C++ exceptions, undefined behaviour *)

(** The exception classes the modelled code throws. *)
Inductive exn : Set :=
| StreamException
| CoreException
| OverflowError
| UnderflowError
| InvalidArgument
| BadAlloc
| SchemaValidateException
| UnknownProtocolException
| RuntimeError
| LengthError
| OutOfRange.

(** Why a computation has no value: a C++ exception, a step the language
    leaves undefined (an access outside an object, an over-long shift, a
    boolean object holding neither 0 nor 1), or the recursion budget of the
    definition ran out (theorems show that it never does). *)
Inductive error : Set :=
| Thrown (e : exn)
| Undefined
| OutOfFuel.

Inductive outcome (A : Type) : Type :=
| Ok (a : A)
| Err (e : error).
Arguments Ok {A} a.
Arguments Err {A} e.

#[export] Instance exn_eq_dec : EqDecision exn.
Proof. solve_decision. Defined.
#[export] Instance error_eq_dec : EqDecision error.
Proof. solve_decision. Defined.
#[export] Instance outcome_eq_dec {A} `{EqDecision A} : EqDecision (outcome A).
Proof. solve_decision. Defined.

(** [M S A]: code that reads and writes a state of type [S] and may throw;
    the state reached so far survives the exception, as in C++. *)
Definition M (S A : Type) : Type := S -> outcome A * S.

Definition ret {S A} (a : A) : M S A := fun s => (Ok a, s).
Definition fail {S A} (e : error) : M S A := fun s => (Err e, s).
Definition throw {S A} (e : exn) : M S A := fail (Thrown e).

Definition bind {S A B} (m : M S A) (k : A -> M S B) : M S B :=
  fun s => match m s with
           | (Ok a, s') => k a s'
           | (Err e, s') => (Err e, s')
           end.

Definition get {S} : M S S := fun s => (Ok s, s).
Definition put {S} (s' : S) : M S unit := fun _ => (Ok tt, s').
Definition gets {S A} (f : S -> A) : M S A := fun s => (Ok (f s), s).
Definition modify {S} (f : S -> S) : M S unit := fun s => (Ok tt, f s).
Definition of_outcome {S A} (o : outcome A) : M S A := fun s => (o, s).
Definition of_option {S A} (o : option A) : M S A :=
  match o with Some a => ret a | None => fail Undefined end.

(** Run a computation on a component of a larger state. *)
Definition zoom {S T A} (prj : S -> T) (upd : T -> S -> S) (m : M T A) : M S A :=
  fun s => let '(o, t') := m (prj s) in (o, upd t' s).

Declare Scope bond_scope.
Delimit Scope bond_scope with bond.
Notation "'let!' x := m 'in' k" := (bind m (fun x => k))
  (at level 10, x name, m at level 100, k at level 200,
   format "'[v' 'let!'  x  :=  m  'in' '//' k ']'") : bond_scope.
Notation "'let!' ' p := m 'in' k" := (bind m (fun p => k))
  (at level 10, p strict pattern, m at level 100, k at level 200) : bond_scope.
Notation "m ;;; k" := (bind m (fun _ => k))
  (at level 100, k at level 200, right associativity) : bond_scope.
#[global] Open Scope bond_scope.

(** The pure outcome monad, for code with no state. *)
Definition obind {A B} (m : outcome A) (k : A -> outcome B) : outcome B :=
  match m with Ok a => k a | Err e => Err e end.
Notation "'olet' x := m 'in' k" := (obind m (fun x => k))
  (at level 10, x name, m at level 100, k at level 200) : bond_scope.

(** [n] runs of [m] one after the other. *)
Fixpoint repeatM {S} (n : nat) (m : M S unit) : M S unit :=
  match n with
  | O => ret tt
  | S n' => m ;;; repeatM n' m
  end.

(** [for x in l: f x]. *)
Fixpoint forM {S A} (l : list A) (f : A -> M S unit) : M S unit :=
  match l with
  | [] => ret tt
  | x :: l' => f x ;;; forM l' f
  end.

(** A list of commands one after the other. *)
Fixpoint seqM {S} (l : list (M S unit)) : M S unit :=
  match l with
  | [] => ret tt
  | m :: l' => m ;;; seqM l'
  end.

(** [n] results of [m], in order. *)
Fixpoint collectM {S A} (n : nat) (m : M S A) : M S (list A) :=
  match n with
  | O => ret []
  | S n' => let! x := m in let! xs := collectM n' m in ret (x :: xs)
  end.

Lemma bind_ok {S A B} (m : M S A) (k : A -> M S B) s a s' :
  m s = (Ok a, s') -> bind m k s = k a s'.
Proof. intros H. unfold bind. by rewrite H. Qed.

Lemma bind_err {S A B} (m : M S A) (k : A -> M S B) s e s' :
  m s = (Err e, s') -> bind m k s = (Err e, s').
Proof. intros H. unfold bind. by rewrite H. Qed.

Lemma bind_inv_ok {S A B} (m : M S A) (k : A -> M S B) s b s' :
  bind m k s = (Ok b, s') ->
  exists a s1, m s = (Ok a, s1) /\ k a s1 = (Ok b, s').
Proof. unfold bind. destruct (m s) as [[a|e] s1]; naive_solver. Qed.

Lemma bind_assoc {S A B C} (m : M S A) (f : A -> M S B) (g : B -> M S C) s :
  bind (bind m f) g s = bind m (fun a => bind (f a) g) s.
Proof. unfold bind. by destruct (m s) as [[a|e] s1]. Qed.

Lemma bind_ret {S A B} (a : A) (k : A -> M S B) s : bind (ret a) k s = k a s.
Proof. done. Qed.

Lemma bind_get {S B} (k : S -> M S B) s : bind get k s = k s s.
Proof. done. Qed.

Lemma bind_gets {S A B} (f : S -> A) (k : A -> M S B) s : bind (gets f) k s = k (f s) s.
Proof. done. Qed.

Lemma bind_put {S B} s' (k : unit -> M S B) s : bind (put s') k s = k tt s'.
Proof. done. Qed.

Lemma bind_modify {S B} f (k : unit -> M S B) s : bind (modify f) k s = k tt (f s).
Proof. done. Qed.

Lemma bind_throw {S A B} e (k : A -> M S B) s : bind (throw e) k s = (Err (Thrown e), s).
Proof. done. Qed.

Lemma bind_of_outcome_ok {S A B} (o : outcome A) a (k : A -> M S B) s :
  o = Ok a -> bind (of_outcome o) k s = k a s.
Proof. by intros ->. Qed.

Lemma zoom_ok {S T A} prj upd (m : M T A) (s : S) a t' :
  m (prj s) = (Ok a, t') -> zoom prj upd m s = (Ok a, upd t' s).
Proof. unfold zoom. by intros ->. Qed.

(** * Machine integers *)

(** Unsigned [w]-bit wrap-around and the two's complement reading of the low
    [w] bits (the conversion to a signed type). *)
Definition wrap (w z : Z) : Z := z mod 2 ^ w.
Definition to_signed (w z : Z) : Z :=
  let u := wrap w z in if u <? 2 ^ (w - 1) then u else u - 2 ^ w.

Definition fits (w z : Z) : Prop := 0 <= z < 2 ^ w.
Definition sfits (w z : Z) : Prop := - 2 ^ (w - 1) <= z < 2 ^ (w - 1).

Definition umax (w : Z) : Z := 2 ^ w - 1.

Lemma wrap_fits w z : 0 <= w -> fits w (wrap w z).
Proof. intros. unfold fits, wrap. apply Z.mod_pos_bound. lia. Qed.

Lemma wrap_id w z : fits w z -> wrap w z = z.
Proof. apply Z.mod_small. Qed.

Lemma wrap_wrap w z : wrap w (wrap w z) = wrap w z.
Proof. unfold wrap. apply Zmod_mod. Qed.

Lemma wrap_add w a b : wrap w (wrap w a + b) = wrap w (a + b).
Proof. unfold wrap. by rewrite Zplus_mod_idemp_l. Qed.

Lemma to_signed_sfits w z : 0 < w -> sfits w (to_signed w z).
Proof.
  intros Hw. unfold sfits, to_signed.
  pose proof (wrap_fits w z ltac:(lia)) as Hf. unfold fits in Hf.
  replace (2 ^ w) with (2 * 2 ^ (w - 1)) in *
    by (rewrite <-Z.pow_succ_r by lia; f_equal; lia).
  case_match; lia.
Qed.

Lemma to_signed_wrap w z : 0 < w -> sfits w z -> to_signed w (wrap w z) = z.
Proof.
  intros Hw Hs. unfold to_signed. rewrite wrap_wrap. unfold sfits, wrap in *.
  assert (Hp : 2 ^ w = 2 * 2 ^ (w - 1))
    by (rewrite <-Z.pow_succ_r by lia; f_equal; lia).
  assert (0 < 2 ^ (w - 1)) by lia. rewrite Hp.
  destruct (decide (0 <= z)).
  - rewrite Z.mod_small by lia. case_match; lia.
  - rewrite <-(Z.mod_unique_pos z (2 * 2 ^ (w - 1)) (-1) (z + 2 * 2 ^ (w - 1))) by lia.
    case_match; lia.
Qed.

Lemma to_signed_id w z : 0 < w -> sfits w z -> to_signed w z = z.
Proof.
  intros Hw Hz. rewrite <-(to_signed_wrap w z) at 2 by done.
  unfold to_signed. by rewrite wrap_wrap.
Qed.

Lemma wrap_to_signed w z : 0 < w -> wrap w (to_signed w z) = wrap w z.
Proof.
  intros Hw. unfold to_signed. case_match; rewrite ?wrap_wrap; [done|].
  unfold wrap. rewrite <-(Z.mod_add _ 1) by lia.
  rewrite Z.mul_1_l, Z.sub_add. apply Zmod_mod.
Qed.

(** * Bytes *)

Abbreviation byte := Init.Byte.byte.
Abbreviation b2z := byte.unsigned.
Abbreviation z2b := byte.of_Z.
(** The object representation of an [n]-byte integer on the little-endian
    targets the code is built for, and back. *)
Abbreviation le_bytes := LittleEndianList.le_split.
Abbreviation of_le := LittleEndianList.le_combine.

#[export] Instance byte_eq_decision : EqDecision byte := Stdlib.Strings.Byte.byte_eq_dec.

Lemma b2z_range b : 0 <= b2z b < 256.
Proof. apply byte.unsigned_range. Qed.

Lemma b2z_z2b z : b2z (z2b z) = wrap 8 z.
Proof. apply byte.unsigned_of_Z. Qed.

Lemma z2b_b2z b : z2b (b2z b) = b.
Proof. apply byte.of_Z_unsigned. Qed.

Lemma b2z_z2b_small z : 0 <= z < 256 -> b2z (z2b z) = z.
Proof. intros. rewrite b2z_z2b. by apply wrap_id. Qed.

Lemma length_le_bytes n z : length (le_bytes n z) = n.
Proof. apply LittleEndianList.length_le_split. Qed.

Lemma of_le_bytes n z : of_le (le_bytes n z) = wrap (Z.of_nat n * 8) z.
Proof. apply LittleEndianList.le_combine_split. Qed.

Lemma le_bytes_of_le bs : le_bytes (length bs) (of_le bs) = bs.
Proof. apply LittleEndianList.split_le_combine. Qed.

Lemma of_le_fits bs : fits (8 * Z.of_nat (length bs)) (of_le bs).
Proof. apply LittleEndianList.le_combine_bound. Qed.

Create Rewrite HintDb blen.
#[export] Hint Rewrite length_le_bytes @length_app @length_replicate : blen.

(** Length of a byte string as the integer the code computes with. *)
Abbreviation zlen l := (Z.of_nat (length l)).

Lemma zlen_nonneg {A} (l : list A) : 0 <= zlen l.
Proof. lia. Qed.

(** * Automation *)

(** Step through a monadic run: rewrite with a known run of the first
    command, or unfold one of the primitive commands. *)
Ltac mstep :=
  match goal with
  | H : ?m ?s = (Ok _, _) |- context [bind ?m _ ?s] => rewrite (bind_ok _ _ _ _ _ H)
  | H : ?m ?s = (Err _, _) |- context [bind ?m _ ?s] => rewrite (bind_err _ _ _ _ _ H)
  | |- context [bind (bind _ _) _ _] => rewrite bind_assoc
  | |- context [bind (ret _) _ _] => rewrite bind_ret
  | |- context [bind get _ _] => rewrite bind_get
  | |- context [bind (gets _) _ _] => rewrite bind_gets
  | |- context [bind (put _) _ _] => rewrite bind_put
  | |- context [bind (modify _) _ _] => rewrite bind_modify
  | |- context [bind (throw _) _ _] => rewrite bind_throw
  end.
Ltac mrun := repeat mstep.

Ltac minv H :=
  let a := fresh "a" in let s := fresh "s" in let H1 := fresh "Hm" in
  apply bind_inv_ok in H as (a & s & H1 & H).

(** Powers of two as literals, so that [lia] sees them. *)
Ltac pow2 :=
  repeat match goal with
  | H : context [2 ^ ?n] |- _ =>
      let v := eval vm_compute in (2 ^ n) in
      match v with Z.pos _ => change (2 ^ n) with v in H end
  | |- context [2 ^ ?n] =>
      let v := eval vm_compute in (2 ^ n) in
      match v with Z.pos _ => change (2 ^ n) with v end
  end.

(** Decide the boolean comparisons of the goal by linear arithmetic. *)
Ltac zbool :=
  repeat match goal with
  | |- context [?a <? ?b] =>
      first [rewrite (proj2 (Z.ltb_lt a b)) by lia | rewrite (proj2 (Z.ltb_ge a b)) by lia]
  | |- context [?a <=? ?b] =>
      first [rewrite (proj2 (Z.leb_le a b)) by lia | rewrite (proj2 (Z.leb_gt a b)) by lia]
  | |- context [?a =? ?b] =>
      first [rewrite (proj2 (Z.eqb_eq a b)) by lia | rewrite (proj2 (Z.eqb_neq a b)) by lia]
  end.
