(* ===== verification/Checked.v ===== *)
(** Overflow-checked arithmetic (cpp/inc/bond/core/detail/checked.h).

    The three helpers every size computation on untrusted lengths goes
    through: pointer plus offset, unsigned addition, and multiplication of a
    narrow unsigned integer by an 8-bit constant.  Each either returns the exact
    mathematical result or throws [std::overflow_error]; it never wraps. *)

From S2P Require Import Prelude.

(** [checked_add(const char* ptr, uint32_t offset)]: the pointer is its
    [uintptr_t] value, the targets have 64-bit pointers. *)
Definition checked_add_ptr (ptr offset : Z) : outcome Z :=
  if wrap 64 (umax 64 - offset) <? ptr then Err (Thrown OverflowError)
  else Ok (ptr + offset).

(** [checked_add(T lhs, U rhs)] for unsigned [T] of [w] bits, and [U] of no more: both are
    converted to [T] (or, when they are narrower than [int], to [int], which holds every
    value of the computation). *)
Definition checked_add (w lhs rhs : Z) : outcome Z :=
  if wrap w (umax w - lhs) <? rhs then Err (Thrown OverflowError)
  else Ok (wrap w (lhs + rhs)).

(** [checked_multiply(T lhs, uint8_t rhs)] for unsigned [T] of [w] < 64 bits:
    the product is formed in [uint64_t]. *)
Definition checked_multiply (w lhs rhs : Z) : outcome Z :=
  let result := wrap 64 (wrap 64 lhs * wrap 64 rhs) in
  if umax w <? result then Err (Thrown OverflowError)
  else Ok (wrap w result).

Lemma checked_add_ptr_ok ptr offset :
  fits 64 ptr -> fits 32 offset ->
  checked_add_ptr ptr offset =
    if decide (ptr + offset < 2 ^ 64) then Ok (ptr + offset)
    else Err (Thrown OverflowError).
Proof.
  unfold checked_add_ptr, fits, umax. intros. pow2.
  rewrite wrap_id by (unfold fits; pow2; lia).
  case_match; case_decide; try done; lia.
Qed.

Lemma checked_add_ok w lhs rhs :
  0 <= w -> fits w lhs -> fits w rhs ->
  checked_add w lhs rhs =
    if decide (lhs + rhs < 2 ^ w) then Ok (lhs + rhs)
    else Err (Thrown OverflowError).
Proof.
  unfold checked_add, fits, umax. intros.
  rewrite (wrap_id w (2 ^ w - 1 - lhs)) by (unfold fits; lia).
  case_match; case_decide; try lia; [done|].
  rewrite wrap_id by (unfold fits; lia). done.
Qed.

Lemma checked_multiply_ok w lhs rhs :
  0 <= w <= 56 -> fits w lhs -> fits 8 rhs ->
  checked_multiply w lhs rhs =
    if decide (lhs * rhs < 2 ^ w) then Ok (lhs * rhs)
    else Err (Thrown OverflowError).
Proof.
  unfold checked_multiply, fits, umax. intros Hw Hl Hr.
  assert (2 ^ w <= 2 ^ 56) by (apply Z.pow_le_mono_r; lia). change (2 ^ 56) with 72057594037927936 in *.
  pow2. assert (lhs * rhs <= 72057594037927936 * 255) by (apply Z.mul_le_mono_nonneg; lia).
  rewrite !(wrap_id 64) by (rewrite ?wrap_id; unfold fits; pow2; lia).
  case_match; case_decide; try lia; [done|].
  rewrite wrap_id by (unfold fits; lia). done.
Qed.

(** C33: the three checked operations return the mathematical result when it fits the type
    and throw [overflow_error] otherwise: the addition of a 32-bit offset to a pointer of 64
    bits; the addition of two unsigned integers of any widths [v <= w], 64 bits as in
    output_buffer.h included; and the product of an unsigned integer of up to 56 bits, which
    covers every type narrower than [uint64_t] that the overload accepts, with an 8-bit one. *)
Theorem checked_arithmetic_exact w v u ptr offset lhs rhs size k :
  0 <= v <= w -> 0 <= u <= 56 ->
  fits 64 ptr -> fits 32 offset -> fits w lhs -> fits v rhs -> fits u size -> fits 8 k ->
  (checked_add_ptr ptr offset =
     if decide (ptr + offset < 2 ^ 64) then Ok (ptr + offset) else Err (Thrown OverflowError)) /\
  (checked_add w lhs rhs =
     if decide (lhs + rhs < 2 ^ w) then Ok (lhs + rhs) else Err (Thrown OverflowError)) /\
  (checked_multiply u size k =
     if decide (size * k < 2 ^ u) then Ok (size * k) else Err (Thrown OverflowError)).
Proof.
  intros Hw Hu Hp Ho Hl Hr Hs Hk. split_and!.
  - by apply checked_add_ptr_ok.
  - apply checked_add_ok; [lia|done|]. unfold fits in *.
    assert (2 ^ v <= 2 ^ w) by (apply Z.pow_le_mono_r; lia). lia.
  - apply checked_multiply_ok; [lia|done..].
Qed.

Lemma checked_arithmetic_exact_witness :
  checked_add 32 4294967295 1 = Err (Thrown OverflowError) /\
  checked_add 64 4294967295 1 = Ok 4294967296 /\
  checked_add 64 (2 ^ 64 - 1) 1 = Err (Thrown OverflowError) /\
  checked_multiply 32 1000 8 = Ok 8000.
Proof.
  destruct (checked_arithmetic_exact 32 32 32 4096 8 4294967295 1 1000 8) as (_ & Ha & Hm);
    [lia|lia|by vm_compute..|].
  destruct (checked_arithmetic_exact 64 32 32 4096 8 4294967295 1 1000 8) as (_ & Hb & _);
    [lia|lia|by vm_compute..|].
  destruct (checked_arithmetic_exact 64 32 32 4096 8 (2 ^ 64 - 1) 1 1000 8) as (_ & Hc & _);
    [lia|lia|by vm_compute..|].
  rewrite Ha, Hb, Hc, Hm. split_and!; reflexivity.
Defined.
