(* ===== verification/SimpleArray.v ===== *)
(** Growable array of PODs (cpp/inc/bond/protocol/detail/simple_array.h).

    [SimpleArray<T, N>] keeps its first [N] elements in place and moves to a
    heap block of doubled capacity when full.  The model keeps the raw storage,
    slots that were never written included, so that reading one is undefined.
    The abstract specification is a stack, a list growing at its end. *)

From S2P Require Import Prelude.

Section SimpleArray.
Context {T : Type}.

(** The members; [sa_insitu] says whether [_data] still points to [_insitu]. *)
Record SimpleArray : Type := mkSA {
  sa_size : Z;
  sa_capacity : Z;
  sa_insitu : bool;
  sa_data : list (option T)
}.

(** [SimpleArray()]. *)
Definition SimpleArray_new (N : Z) : SimpleArray :=
  mkSA 0 N true (replicate (Z.to_nat N) None).

Definition size (a : SimpleArray) : Z := sa_size a.

(** [_data[i] = x]: outside the storage the access is undefined. *)
Definition sa_store (i : Z) (x : T) : M SimpleArray unit := fun a =>
  if decide (0 <= i < zlen (sa_data a))
  then (Ok tt, mkSA (sa_size a) (sa_capacity a) (sa_insitu a)
                 (<[Z.to_nat i := Some x]> (sa_data a)))
  else (Err Undefined, a).

(** [_data[i]] as a value. *)
Definition sa_load (i : Z) : M SimpleArray T := fun a =>
  if decide (0 <= i) then
    match sa_data a !! Z.to_nat i with
    | Some (Some x) => (Ok x, a)
    | _ => (Err Undefined, a)
    end
  else (Err Undefined, a).

Definition set_size (n : Z) : M SimpleArray unit :=
  modify (fun a => mkSA n (sa_capacity a) (sa_insitu a) (sa_data a)).

(** [pop()]: the slot keeps its value, only the size changes. *)
Definition pop : M SimpleArray T :=
  let! a := get in
  if sa_size a =? 0 then throw UnderflowError
  else set_size (wrap 32 (sa_size a - 1)) ;;; sa_load (wrap 32 (sa_size a - 1)).

(** [grow(x)]: a fresh block of twice the capacity holds a copy of the first
    [_size] slots; [memfree] then releases the old block if it was on the heap. *)
Definition grow (x : T) : M SimpleArray unit :=
  let! a := get in
  if Z.shiftr (umax 32) 1 <=? sa_capacity a then throw BadAlloc
  else
    let cap := wrap 32 (Z.shiftl (sa_capacity a) 1) in
    let n := Z.to_nat (sa_size a) in
    put (mkSA (sa_size a) cap false
           (take n (sa_data a) ++ replicate (Z.to_nat cap - n) None)) ;;;
    sa_store (sa_size a) x ;;;
    set_size (wrap 32 (sa_size a + 1)).

Definition push (x : T) : M SimpleArray unit :=
  let! a := get in
  if sa_size a <? sa_capacity a
  then sa_store (sa_size a) x ;;; set_size (wrap 32 (sa_size a + 1))
  else grow x.

(** [operator[]] used as an assignable reference. *)
Definition set_at (i : Z) (x : T) : M SimpleArray unit := sa_store i x.
Definition get_at (i : Z) : M SimpleArray T := sa_load i.

(** ** The stack it implements *)

(** The array holds exactly the elements [l]. *)
Definition holds (a : SimpleArray) (l : list T) : Prop :=
  sa_size a = zlen l /\
  0 < sa_capacity a < 2 ^ 32 /\
  zlen (sa_data a) = sa_capacity a /\
  take (length l) (sa_data a) = Some <$> l.

Lemma holds_size_le a l : holds a l -> zlen l <= sa_capacity a.
Proof.
  intros (Hs & Hc & Hd & Ht). apply (f_equal length) in Ht.
  rewrite length_take, length_fmap in Ht. lia.
Qed.

Lemma holds_new N : 0 < N < 2 ^ 32 -> holds (SimpleArray_new N) [].
Proof.
  intros HN. split_and!; simpl; try lia; [|done].
  rewrite length_replicate. lia.
Qed.

Lemma holds_lookup a l i : holds a l -> (i < length l)%nat ->
  sa_data a !! i = Some <$> (l !! i).
Proof.
  intros (_ & _ & _ & Ht) Hi.
  rewrite <-(lookup_take_lt (sa_data a) (length l) i) by done.
  rewrite Ht, list_lookup_fmap. by destruct (l !! i).
Qed.

Lemma store_end a l x : holds a l -> zlen l < sa_capacity a ->
  exists a', sa_store (sa_size a) x a = (Ok tt, a') /\
    sa_size a' = sa_size a /\ sa_capacity a' = sa_capacity a /\
    zlen (sa_data a') = sa_capacity a /\
    take (S (length l)) (sa_data a') = Some <$> (l ++ [x]).
Proof.
  intros (Hs & Hc & Hd & Ht) Hlt. unfold sa_store. rewrite decide_True by lia.
  eexists; split_and!; [reflexivity|done..|simpl; rewrite length_insert; lia|].
  simpl. rewrite Hs, Nat2Z.id, take_S_r with (x := Some x)
    by (apply list_lookup_insert_eq; lia).
  rewrite take_insert_ge by lia. by rewrite Ht, fmap_app.
Qed.

Lemma double_capacity c : 0 < c < 2 ^ 31 - 1 -> wrap 32 (Z.shiftl c 1) = c * 2.
Proof.
  intros. rewrite Z.shiftl_mul_pow2 by lia. change (2 ^ 1) with 2.
  apply wrap_id. unfold fits. change (2 ^ 32) with (2 * 2 ^ 31). lia.
Qed.

Lemma grow_spec a l x : holds a l -> zlen l = sa_capacity a -> zlen l < 2 ^ 31 - 1 ->
  exists a', grow x a = (Ok tt, a') /\ holds a' (l ++ [x]).
Proof.
  intros Hh Hfull Hl. pose proof Hh as (Hs & Hc & Hd & Ht).
  unfold grow. mrun.
  replace (Z.shiftr (umax 32) 1) with (2 ^ 31 - 1) by reflexivity.
  rewrite (proj2 (Z.leb_gt _ _)) by lia. cbv zeta. mrun.
  rewrite double_capacity by lia.
  set (a1 := mkSA _ _ _ _).
  assert (Hh1 : holds a1 l).
  { split_and!; simpl; [done|lia|lia| |].
    - rewrite length_app, length_take, length_replicate. lia.
    - rewrite take_app_le, take_take by (rewrite length_take; lia).
      rewrite <-Ht. f_equal. lia. }
  destruct (store_end a1 l x Hh1) as (a' & Hst & H1 & H2 & H3 & H4);
    [simpl; lia|].
  change (sa_size a) with (sa_size a1). mrun.
  eexists; split; [reflexivity|]. simpl in *.
  split_and!; simpl; rewrite ?length_app; simpl; try lia.
  - rewrite wrap_id; unfold fits; lia.
  - by rewrite Nat.add_1_r.
Qed.

Lemma push_spec a l x : holds a l -> zlen l < 2 ^ 31 - 1 ->
  exists a', push x a = (Ok tt, a') /\ holds a' (l ++ [x]).
Proof.
  intros Hh Hl. pose proof (holds_size_le _ _ Hh).
  pose proof Hh as (Hs & Hc & Hd & Ht).
  unfold push. mrun. case_match eqn:Hlt; [|by apply grow_spec; [| lia |]].
  destruct (store_end a l x Hh ltac:(lia)) as (a' & Hst & H1 & H2 & H3 & H4).
  mrun. eexists; split; [reflexivity|].
  split_and!; simpl; rewrite ?length_app; simpl; try lia.
  - rewrite wrap_id; unfold fits; lia.
  - by rewrite Nat.add_1_r.
Qed.

Lemma pop_spec a l x : holds a (l ++ [x]) ->
  exists a', pop a = (Ok x, a') /\ holds a' l.
Proof.
  intros Hh. pose proof (holds_size_le _ _ Hh) as Hle.
  pose proof (holds_lookup _ _ (length l) Hh) as Hlk.
  destruct Hh as (Hs & Hc & Hd & Ht).
  rewrite length_app in *. simpl in *.
  rewrite lookup_app_r, Nat.sub_diag in Hlk by lia. specialize (Hlk ltac:(lia)).
  unfold pop. mrun. rewrite (proj2 (Z.eqb_neq _ _)) by lia.
  rewrite wrap_id by (unfold fits; lia).
  unfold bind, set_size, modify, sa_load. simpl. rewrite decide_True by lia.
  replace (Z.to_nat (sa_size a - 1)) with (length l) by lia. rewrite Hlk. simpl.
  eexists; split; [reflexivity|]. split_and!; simpl; try lia.
  replace (length l) with (length l `min` (length l + 1))%nat by lia.
  rewrite <-take_take, Ht, fmap_app, take_app_le by (rewrite length_fmap; lia).
  by rewrite take_ge by (rewrite length_fmap; lia).
Qed.

Lemma pop_empty a : holds a [] -> pop a = (Err (Thrown UnderflowError), a).
Proof.
  intros (Hs & _). unfold pop, bind, get. simpl in Hs. by rewrite Hs.
Qed.

Lemma get_at_spec a l i x : holds a l -> l !! i = Some x ->
  get_at (Z.of_nat i) a = (Ok x, a).
Proof.
  intros Hh Hi. unfold get_at, sa_load. rewrite decide_True, Nat2Z.id by lia.
  rewrite (holds_lookup _ _ _ Hh) by (by eapply lookup_lt_Some). by rewrite Hi.
Qed.

Lemma set_at_spec a l i x : holds a l -> (i < length l)%nat ->
  exists a', set_at (Z.of_nat i) x a = (Ok tt, a') /\ holds a' (<[i := x]> l).
Proof.
  intros Hh Hi. pose proof (holds_size_le _ _ Hh).
  destruct Hh as (Hs & Hc & Hd & Ht).
  unfold set_at, sa_store. rewrite decide_True, Nat2Z.id by lia.
  eexists; split; [reflexivity|]. split_and!; simpl; rewrite ?length_insert; [done|lia|lia|done|].
  rewrite take_insert_lt, Ht by done. by rewrite list_fmap_insert.
Qed.

(** The array is a stack: elements pushed come back in reverse order, an
    element below the size can be read and overwritten, and popping an empty
    array throws; growth to the heap is invisible. *)
Lemma simple_array_stack a l x :
  holds a l -> zlen l < 2 ^ 31 - 1 ->
  exists a', push x a = (Ok tt, a') /\ holds a' (l ++ [x]) /\
    (exists a'', pop a' = (Ok x, a'') /\ holds a'' l) /\
    (forall i y, l !! i = Some y -> get_at (Z.of_nat i) a' = (Ok y, a')).
Proof.
  intros Hh Hl. destruct (push_spec a l x Hh Hl) as (a' & Hp & Hh').
  exists a'. split_and!; [done..|by apply pop_spec|].
  intros i y Hi. eapply get_at_spec; [done|].
  by apply lookup_app_l_Some.
Qed.

End SimpleArray.

Arguments SimpleArray : clear implicits.

