(* ===== verification/Memory.v ===== *)
(** The byte store behind reference-counted buffers.

    [boost::shared_ptr<char[]>] blocks are never freed while a blob refers to
    them, so the store only grows: a list of blocks, each with the address the
    allocator chose and its bytes.  A byte that was never written
    ([allocate_shared_noinit]) is [None] and reading it is undefined. *)

From S2P Require Import Prelude.

Record block : Type := mkBlock { bl_base : Z; bl_data : list (option byte) }.

Abbreviation mem := (list block).

(** A pointer into a block, possibly one past its end. *)
Inductive ptr : Set := Null | At (blk : nat) (off : Z).

#[export] Instance ptr_eq_dec : EqDecision ptr.
Proof. solve_decision. Defined.

Definition ptr_add (p : ptr) (k : Z) : ptr :=
  match p with Null => Null | At b o => At b (o + k) end.

(** [reinterpret_cast<uintptr_t>(p)]. *)
Definition addr (m : mem) (p : ptr) : Z :=
  match p with
  | Null => 0
  | At b o => match m !! b with Some bl => bl_base bl + o | None => 0 end
  end.

(** [memcpy] out of the store; a zero-length copy touches nothing. *)
Definition load (m : mem) (p : ptr) (n : Z) : option (list byte) :=
  if decide (n = 0) then Some [] else
  match p with
  | Null => None
  | At b o =>
      match m !! b with
      | Some bl =>
          if decide (0 <= o /\ 0 <= n /\ o + n <= zlen (bl_data bl))
          then mapM id (take (Z.to_nat n) (drop (Z.to_nat o) (bl_data bl)))
          else None
      | None => None
      end
  end.

(** [memcpy] into the store. *)
Definition splice {A} (l : list A) (o : nat) (k : list A) : list A :=
  take o l ++ k ++ drop (o + length k) l.

Definition store (m : mem) (p : ptr) (bs : list byte) : option mem :=
  if decide (bs = []) then Some m else
  match p with
  | Null => None
  | At b o =>
      match m !! b with
      | Some bl =>
          if decide (0 <= o /\ o + zlen bs <= zlen (bl_data bl))
          then Some (<[b := mkBlock (bl_base bl)
                      (splice (bl_data bl) (Z.to_nat o) (Some <$> bs))]> m)
          else None
      | None => None
      end
  end.

(** Where the allocator puts a block.  A block of [n] bytes lies inside the
    address space: [base + n] does not wrap. *)
Class Allocator := {
  place : mem -> Z -> Z;
  place_range : forall m n, 0 <= n < 2 ^ 32 ->
    0 < place m n /\ place m n + n < 2 ^ 64
}.

Definition allocate `{Allocator} (n : Z) : M mem ptr := fun m =>
  (Ok (At (length m) 0), m ++ [mkBlock (place m n) (replicate (Z.to_nat n) None)]).

(** A concrete allocator, used to evaluate the model. *)
Definition flat_allocator : Allocator.
Proof.
  refine {| place := fun _ _ => 4096 |}.
  abstract (intros m n Hn; change (2 ^ 64) with (2 ^ 32 * 4294967296); nia).
Defined.

(** Every block of a well-formed store lies inside the address space. *)
Definition mem_wf (m : mem) : Prop :=
  Forall (fun bl => 0 < bl_base bl /\ bl_base bl + zlen (bl_data bl) < 2 ^ 64) m.

(** ** Lemmas *)

Lemma ptr_add_0 p : ptr_add p 0 = p.
Proof. destruct p; simpl; [done|]. f_equal. lia. Qed.

Lemma ptr_add_add p i j : ptr_add (ptr_add p i) j = ptr_add p (i + j).
Proof. destruct p; simpl; [done|]. f_equal. lia. Qed.

Lemma load_zero m p : load m p 0 = Some [].
Proof. done. Qed.

Lemma length_load m p n bs : 0 <= n -> load m p n = Some bs -> zlen bs = n.
Proof.
  unfold load. intros Hn. case_decide; [naive_solver|].
  destruct p as [|b o]; [done|]. destruct (m !! b) as [bl|]; [|done].
  case_decide; [|done]. intros Hm%length_mapM. rewrite <-Hm.
  rewrite length_take, length_drop. lia.
Qed.

(** Loading [n] bytes is loading [i] of them and then the other [n - i]. *)
Lemma load_split m p n i bs :
  0 <= i <= n -> load m p n = Some bs ->
  load m p i = Some (take (Z.to_nat i) bs) /\
  load m (ptr_add p i) (n - i) = Some (drop (Z.to_nat i) bs).
Proof.
  intros Hi Hl. assert (Hlen : zlen bs = n) by (eapply length_load; [lia|done]).
  unfold load in Hl |- *.
  destruct (decide (n = 0)) as [->|Hn].
  { injection Hl as <-. assert (i = 0) as -> by lia. done. }
  destruct p as [|b o]; [done|]. simpl.
  destruct (m !! b) as [bl|]; [|done].
  destruct (decide (0 <= o /\ 0 <= n /\ o + n <= zlen (bl_data bl))) as [Hr|]; [|done].
  set (d := drop (Z.to_nat o) (bl_data bl)) in *.
  assert (Hsplit : take (Z.to_nat n) d =
    take (Z.to_nat i) d ++ take (Z.to_nat (n - i)) (drop (Z.to_nat i) d)).
  { rewrite take_take_drop. f_equal. lia. }
  rewrite Hsplit in Hl. clear Hsplit.
  apply mapM_Some_1, Forall2_app_inv_l in Hl as (l1 & l2 & H1 & H2 & ->).
  assert (Hl1 : length l1 = Z.to_nat i).
  { rewrite <-(Forall2_length H1), length_take. unfold d.
    rewrite length_drop. lia. }
  rewrite (take_app_length' l1), (drop_app_length' l1) by done.
  apply mapM_Some_2 in H1. apply mapM_Some_2 in H2. split.
  - case_decide; [|by rewrite decide_True by lia].
    subst i. by destruct l1.
  - case_decide.
    + f_equal. destruct l2 as [|? l2]; [done|]. exfalso.
      assert (length (l1 ++ b0 :: l2) = length l1) by lia.
      rewrite length_app in *. simpl in *. lia.
    + rewrite decide_True by lia. rewrite <-H2. unfold d.
      rewrite drop_drop. do 3 f_equal. lia.
Qed.

Lemma load_range m p n i k bs :
  0 <= i -> 0 <= k -> i + k <= n -> load m p n = Some bs ->
  load m (ptr_add p i) k = Some (take (Z.to_nat k) (drop (Z.to_nat i) bs)).
Proof.
  intros. destruct (load_split m p n i bs) as [_ H3]; [lia|done|].
  by destruct (load_split m (ptr_add p i) (n - i) k _ ltac:(lia) H3).
Qed.

(** Two adjacent loads make one. *)
Lemma load_join m p i n bs1 bs2 :
  0 <= i -> 0 <= n -> load m p i = Some bs1 -> load m (ptr_add p i) n = Some bs2 ->
  load m p (i + n) = Some (bs1 ++ bs2).
Proof.
  intros Hi Hn H1 H2.
  destruct (decide (i = 0)) as [->|]; [injection H1 as <-; by rewrite ptr_add_0 in H2|].
  destruct (decide (n = 0)) as [->|].
  { injection H2 as <-. by rewrite Z.add_0_r, app_nil_r. }
  destruct p as [|b o]; unfold load in *; simpl in *;
    repeat (case_decide; try done; try lia); destruct (m !! b) as [bl|]; try done;
    repeat (case_decide; try done; try lia).
  replace (Z.to_nat (i + n)) with (Z.to_nat i + Z.to_nat n)%nat by lia.
  rewrite <-take_take_drop. apply mapM_Some_2, Forall2_app.
  - by apply mapM_Some_1.
  - apply mapM_Some_1 in H2. rewrite drop_drop.
    by replace (Z.to_nat o + Z.to_nat i)%nat with (Z.to_nat (o + i)) by lia.
Qed.

Lemma length_splice {A} (l : list A) o k :
  (o + length k <= length l)%nat -> length (splice l o k) = length l.
Proof. intros. unfold splice. rewrite !length_app, length_take, length_drop. lia. Qed.

Lemma store_lookup_ne m p bs m' b :
  store m p bs = Some m' ->
  match p with At b' _ => b <> b' | Null => True end -> m' !! b = m !! b.
Proof.
  unfold store. case_decide; [naive_solver|].
  destruct p as [|b' o]; [done|]. destruct (m !! b'); [|done].
  case_decide; [|done]. intros [= <-] ?. by rewrite list_lookup_insert_ne.
Qed.

(** A store leaves every region outside the bytes it writes unchanged. *)
Lemma load_store_disjoint m b o bs m' p n :
  store m (At b o) bs = Some m' ->
  match p with
  | Null => True
  | At b' o' => b <> b' \/ o' + n <= o \/ o + zlen bs <= o'
  end ->
  load m' p n = load m p n.
Proof.
  intros Hst Hd. unfold load. case_decide; [done|].
  destruct p as [|b' o']; [done|].
  destruct (decide (b = b')) as [<-|Hne].
  2:{ by rewrite (store_lookup_ne _ _ _ _ b' Hst) by congruence. }
  unfold store in Hst. case_decide as Hnil; [naive_solver|].
  destruct (m !! b) as [bl|] eqn:Hb; [|done]. case_decide as Hr; [|done].
  injection Hst as <-.
  rewrite list_lookup_insert_eq by (by eapply lookup_lt_Some). simpl.
  rewrite length_splice by (rewrite length_fmap; lia).
  case_decide as Hr'; [|done]. f_equal. unfold splice.
  rewrite length_fmap. destruct Hd as [|[Hd|Hd]]; [done| |].
  - rewrite !skipn_app, !take_app. rewrite take_drop_commute.
    replace (Z.to_nat o' + Z.to_nat n)%nat with (Z.to_nat (o' + n)) by lia.
    rewrite take_take, Nat.min_l by lia.
    replace (Z.to_nat n - length (drop (Z.to_nat o') (take (Z.to_nat o) (bl_data bl))))%nat
      with 0%nat by (rewrite length_drop, length_take; lia).
    rewrite !take_0, app_nil_r. rewrite take_drop_commute.
    do 2 f_equal. lia.
  - rewrite app_assoc, skipn_app.
    rewrite (drop_ge (take _ _ ++ _))
      by (rewrite length_app, length_take, length_fmap; lia).
    rewrite length_app, length_take, length_fmap, drop_drop. simpl.
    do 2 f_equal. lia.
Qed.

(** What was stored can be loaded back. *)
Lemma load_store_same m b o bs m' :
  store m (At b o) bs = Some m' -> load m' (At b o) (zlen bs) = Some bs.
Proof.
  unfold store, load. case_decide as Hnil; [by intros; subst|].
  destruct (m !! b) as [bl|] eqn:Hb; [|done]. case_decide as Hr; [|done].
  intros [= <-].
  rewrite decide_False by (destruct bs; [done|simpl; lia]).
  rewrite list_lookup_insert_eq by (by eapply lookup_lt_Some). simpl bl_data.
  rewrite length_splice by (rewrite length_fmap; lia).
  rewrite decide_True by lia. unfold splice.
  rewrite drop_app_length' by (rewrite length_take; lia).
  rewrite Nat2Z.id, take_app_length' by (rewrite length_fmap; lia).
  apply mapM_Some_2, Forall2_fmap_l, Forall_Forall2_diag.
  by apply Forall_forall.
Qed.

Lemma store_some m b o bl bs :
  m !! b = Some bl -> 0 <= o -> o + zlen bs <= zlen (bl_data bl) ->
  exists m', store m (At b o) bs = Some m' /\
    exists bl', m' !! b = Some bl' /\ length (bl_data bl') = length (bl_data bl) /\
                length m' = length m.
Proof.
  intros Hb Ho Hn. unfold store. case_decide; [by eauto 10|].
  rewrite Hb, decide_True by lia. eexists; split; [done|].
  rewrite list_lookup_insert_eq by (by eapply lookup_lt_Some).
  eexists; split_and!; [done|..|by rewrite length_insert].
  simpl. apply length_splice. rewrite length_fmap. lia.
Qed.

Lemma store_length m p bs m' : store m p bs = Some m' -> length m' = length m.
Proof.
  unfold store. case_decide; [naive_solver|]. destruct p; [done|].
  case_match; [|done]. case_decide; [|done]. intros [= <-]. by rewrite length_insert.
Qed.

Lemma store_wf m p bs m' : store m p bs = Some m' -> mem_wf m -> mem_wf m'.
Proof.
  unfold store, mem_wf. case_decide; [naive_solver|]. destruct p as [|b o]; [done|].
  destruct (m !! b) as [bl|] eqn:Hb; [|done]. case_decide; [|done].
  intros [= <-] Hwf. apply Forall_insert; [done|]. simpl.
  rewrite length_splice by (rewrite length_fmap; lia).
  by eapply (Forall_lookup_1 _ _ _ _ Hwf).
Qed.

(** Allocation keeps every region and hands out a fresh block. *)
Lemma load_allocated m bl p n :
  match p with Null => True | At b _ => (b < length m)%nat end ->
  load (m ++ [bl]) p n = load m p n.
Proof.
  intros Hp. unfold load. case_decide; [done|].
  destruct p as [|b o]; [done|]. by rewrite lookup_app_l.
Qed.

Lemma load_inv m b o n bs : 0 < n -> load m (At b o) n = Some bs ->
  exists bl, m !! b = Some bl /\ 0 <= o /\ 0 <= n /\ o + n <= zlen (bl_data bl).
Proof.
  intros Hn. unfold load. rewrite decide_False by lia.
  destruct (m !! b) as [bl|]; [|done]. case_decide as Hr; [|done]. intros _. by exists bl.
Qed.

Lemma load_extend m bl p n bs :
  load m p n = Some bs -> load (m ++ [bl]) p n = Some bs.
Proof.
  intros Hl. destruct (decide (n = 0)) as [->|Hn]; [done|].
  rewrite load_allocated; [done|]. destruct p as [|b o]; [done|].
  unfold load in Hl. rewrite decide_False in Hl by done.
  destruct (m !! b) eqn:Hb; [|done]. by eapply lookup_lt_Some.
Qed.

Lemma allocate_wf `{Allocator} n m p m' :
  0 <= n < 2 ^ 32 -> allocate n m = (Ok p, m') -> mem_wf m -> mem_wf m'.
Proof.
  intros Hn [= <- <-] Hwf. apply Forall_app. split; [done|].
  apply Forall_singleton. simpl. rewrite length_replicate.
  pose proof (place_range m n Hn). lia.
Qed.
