(* ===== verification/Blob.v ===== *)
(** Memory blobs (cpp/inc/bond/core/blob.h).

    A blob is a view of a region of the store together with a share of the
    buffer's ownership.  The abstract specification of a blob is the byte string
    it denotes in a given store ([blob_bytes]); every operation is related to
    the list operation it implements. *)

From S2P Require Import Prelude Checked Memory.

(** The members: the owning [shared_ptr], the content pointer, the length. *)
Record blob : Type := mkBlob {
  _buffer : ptr;
  _content : ptr;
  _length : Z
}.

#[export] Instance blob_eq_dec : EqDecision blob.
Proof. solve_decision. Defined.

(** [blob()]. *)
Definition blob_default : blob := mkBlob Null Null 0.

(** [bond::detail::checked_add(ptr, offset)] on a pointer of the store. *)
Definition checked_ptr_add (m : mem) (p : ptr) (offset : Z) : outcome ptr :=
  olet _ := checked_add_ptr (addr m p) offset in Ok (ptr_add p offset).

(** [blob(const void* content, uint32_t length)]. *)
Definition blob_raw (m : mem) (content : ptr) (length : Z) : outcome blob :=
  olet _ := checked_ptr_add m content length in Ok (mkBlob Null content length).

(** [blob(const boost::shared_ptr<char[]>&, uint32_t length)]. *)
Definition blob_shared (m : mem) (buffer : ptr) (length : Z) : outcome blob :=
  olet _ := checked_ptr_add m buffer length in Ok (mkBlob buffer buffer length).

(** [blob(const boost::shared_ptr<char[]>&, uint32_t offset, uint32_t length)]. *)
Definition blob_shared_at (m : mem) (buffer : ptr) (offset length : Z) : outcome blob :=
  olet content := checked_ptr_add m buffer offset in
  olet _ := checked_ptr_add m content length in
  Ok (mkBlob buffer content length).

(** [blob(blob&& that)]: the new object and what is left in [that]. *)
Definition blob_move (that : blob) : blob * blob :=
  (mkBlob (_buffer that) (_content that) (_length that), mkBlob Null Null 0).

(** [operator=(blob&& that)] on two distinct objects. *)
Definition blob_move_assign (this that : blob) : blob * blob :=
  (mkBlob (_buffer that) (_content that) (_length that), mkBlob Null Null 0).

(** [assign(const blob& from, uint32_t offset, uint32_t length)]: the new value
    of the object. *)
Definition blob_assign (from : blob) (offset length : Z) : outcome blob :=
  olet total := checked_add 32 offset length in
  if _length from <? total then Err (Thrown InvalidArgument)
  else Ok (mkBlob (_buffer from) (ptr_add (_content from) offset) length).

(** [range(uint32_t offset, uint32_t length)]. *)
Definition blob_range (this : blob) (offset length : Z) : outcome blob :=
  olet total := checked_add 32 offset length in
  if _length this <? total then Err (Thrown InvalidArgument)
  else Ok (mkBlob (_buffer this) (ptr_add (_content this) offset) length).

(** [range(uint32_t offset)]. *)
Definition blob_range_from (this : blob) (offset : Z) : outcome blob :=
  if _length this <? offset then Err (Thrown InvalidArgument)
  else Ok (mkBlob (_buffer this) (ptr_add (_content this) offset)
             (wrap 32 (_length this - offset))).

(** [swap(blob& src)]: both objects after the call. *)
Definition blob_swap (this src : blob) : blob * blob :=
  (mkBlob (_buffer src) (_content src) (_length src),
   mkBlob (_buffer this) (_content this) (_length this)).

(** [assign(const T& buffer, uint32_t offset, uint32_t length)] and the overload
    without offset: construct, then swap. *)
Definition blob_assign_shared_at (m : mem) (this : blob) (buffer : ptr)
    (offset length : Z) : outcome blob :=
  olet temp := blob_shared_at m buffer offset length in
  Ok (fst (blob_swap this temp)).

Definition blob_assign_shared (m : mem) (this : blob) (buffer : ptr) (length : Z)
    : outcome blob :=
  olet temp := blob_shared m buffer length in Ok (fst (blob_swap this temp)).

(** [clear()]. *)
Definition blob_clear (this : blob) : blob := fst (blob_swap this blob_default).

Definition blob_content (this : blob) : ptr := _content this.
Definition blob_length (this : blob) : Z := _length this.
Definition blob_empty (this : blob) : bool := 0 =? blob_length this.
Definition blob_begin (this : blob) : ptr := _content this.
Definition blob_end (this : blob) : ptr := ptr_add (_content this) (_length this).

(** The byte string a blob denotes. *)
Definition blob_bytes (m : mem) (b : blob) : option (list byte) :=
  load m (_content b) (_length b).

(** [operator==]: equal lengths and [memcmp] zero. *)
Definition blob_eqb (m : mem) (this src : blob) : outcome bool :=
  if decide (_length this = _length src) then
    match blob_bytes m this, blob_bytes m src with
    | Some x, Some y => Ok (bool_decide (x = y))
    | _, _ => Err Undefined
    end
  else Ok false.

Definition load_m (p : ptr) (n : Z) : M mem (list byte) := fun m =>
  match load m p n with Some bs => (Ok bs, m) | None => (Err Undefined, m) end.
Definition store_m (p : ptr) (bs : list byte) : M mem unit := fun m =>
  match store m p bs with Some m' => (Ok tt, m') | None => (Err Undefined, m) end.

(** [memcpy(dst, src, n)]. *)
Definition memcpy (dst src : ptr) (n : Z) : M mem unit :=
  let! bs := load_m src n in store_m dst bs.

Section WithAllocator.
Context `{Allocator}.

(** [merge(allocator, x, y)] on two blobs. *)
Definition merge2 (x y : blob) : M mem blob :=
  if blob_empty x || blob_empty y then ret (if blob_empty x then y else x)
  else
    let! length := of_outcome (checked_add 32 (_length x) (_length y)) in
    let! buffer := allocate length in
    memcpy buffer (_content x) (_length x) ;;;
    memcpy (ptr_add buffer (_length x)) (_content y) (_length y) ;;;
    let! m := get in of_outcome (blob_shared m buffer length).

(** The length loop and the copy loop of [merge(allocator, begin, end)]. *)
Fixpoint total_length (acc : Z) (l : list blob) : outcome Z :=
  match l with
  | [] => Ok acc
  | b :: l' => olet acc' := checked_add 32 acc (_length b) in total_length acc' l'
  end.

Fixpoint copy_all (buffer : ptr) (offset : Z) (l : list blob) : M mem unit :=
  match l with
  | [] => ret tt
  | b :: l' =>
      memcpy (ptr_add buffer offset) (_content b) (_length b) ;;;
      copy_all buffer (wrap 32 (offset + _length b)) l'
  end.

(** [merge(allocator, begin, end)] on a sequence.  [begin->length()] is read
    only when the total length is not zero, so the sequence is not empty. *)
Definition merge_range (l : list blob) : M mem blob :=
  let! length := of_outcome (total_length 0 l) in
  if 0 =? length then ret blob_default
  else match l with
       | [] => fail Undefined
       | first :: _ =>
           if length =? _length first then ret first
           else
             let! buffer := allocate length in
             copy_all buffer 0 l ;;;
             let! m := get in of_outcome (blob_shared m buffer length)
       end.

(** [blob_prolong(src, allocator)]. *)
Definition blob_prolong (src : blob) : M mem blob :=
  match _buffer src with
  | At _ _ => ret src
  | Null =>
      let! buffer := allocate (_length src) in
      memcpy buffer (_content src) (_length src) ;;;
      let! m := get in of_outcome (blob_shared m buffer (_length src))
  end.

(** ** Correctness *)

(** A blob that denotes a byte string, inside 32-bit bounds. *)
Definition blob_ok (m : mem) (b : blob) (bs : list byte) : Prop :=
  fits 32 (_length b) /\ blob_bytes m b = Some bs.

Lemma blob_ok_length m b bs : blob_ok m b bs -> zlen bs = _length b.
Proof. intros [Hf Hb]. unfold fits in Hf. eapply length_load; [lia|done]. Qed.

Lemma blob_ok_extend m bl b bs : blob_ok m b bs -> blob_ok (m ++ [bl]) b bs.
Proof. intros [Hf Hb]. split; [done|]. by apply load_extend. Qed.

Lemma blob_range_spec m b bs offset length :
  blob_ok m b bs -> fits 32 offset -> fits 32 length ->
  if decide (offset + length <= zlen bs) then
    exists r, blob_range b offset length = Ok r /\
      blob_ok m r (take (Z.to_nat length) (drop (Z.to_nat offset) bs))
  else blob_range b offset length =
    Err (Thrown (if decide (offset + length < 2 ^ 32) then InvalidArgument
                 else OverflowError)).
Proof.
  intros Hb Ho Hl. pose proof (blob_ok_length _ _ _ Hb) as Hlen.
  destruct Hb as [Hf Hb]. unfold blob_range.
  rewrite checked_add_ok by (done || lia). unfold fits in *.
  case_decide as Hin; case_decide; simpl; try lia; [| |done]; zbool; [|done].
  eexists; split; [done|]. split; [done|].
  apply (load_range _ _ (_length b)); [lia..|done].
Qed.

Lemma blob_range_from_spec m b bs offset :
  blob_ok m b bs -> fits 32 offset ->
  if decide (offset <= zlen bs) then
    exists r, blob_range_from b offset = Ok r /\
      blob_ok m r (drop (Z.to_nat offset) bs)
  else blob_range_from b offset = Err (Thrown InvalidArgument).
Proof.
  intros Hb Ho. pose proof (blob_ok_length _ _ _ Hb) as Hlen.
  destruct Hb as [Hf Hb]. unfold blob_range_from, fits in *.
  case_decide as Hin.
  - zbool. rewrite wrap_id by (unfold fits; lia).
    eexists; split; [done|]. split; [unfold fits; simpl; lia|].
    destruct (load_split m (_content b) (_length b) offset bs) as [_ ?]; [lia|done..].
  - by zbool.
Qed.

(** Copying from old blocks into the newest block changes only that block. *)
Lemma memcpy_into m0 base data src n bs off :
  0 <= n -> load m0 src n = Some bs -> 0 <= off -> off + n <= zlen data ->
  memcpy (At (length m0) off) src n (m0 ++ [mkBlock base data]) =
    (Ok tt, m0 ++ [mkBlock base (splice data (Z.to_nat off) (Some <$> bs))]).
Proof.
  intros Hn Hl Ho Hr. pose proof (length_load _ _ _ _ Hn Hl).
  unfold memcpy, bind, load_m. rewrite (load_extend _ _ _ _ _ Hl).
  unfold store_m, store. case_decide as Hnil.
  { subst bs. unfold splice. simpl. rewrite Nat.add_0_r, take_drop. done. }
  rewrite list_lookup_middle by done. simpl. rewrite decide_True by lia.
  by rewrite insert_app_r_alt, Nat.sub_diag by done.
Qed.

Lemma splice_fill (done bs : list byte) n :
  splice ((Some <$> done) ++ replicate (length bs + n) None) (length done) (Some <$> bs)
  = (Some <$> (done ++ bs)) ++ replicate n None.
Proof.
  unfold splice. rewrite take_app_length' by (by rewrite length_fmap).
  rewrite length_fmap, <-drop_drop, drop_app_length' by (by rewrite length_fmap).
  by rewrite drop_replicate, Nat.add_comm, Nat.add_sub, fmap_app, <-app_assoc.
Qed.

Lemma fill_step m0 base b bs done n :
  blob_ok m0 b bs ->
  memcpy (At (length m0) (zlen done)) (_content b) (_length b)
    (m0 ++ [mkBlock base ((Some <$> done) ++ replicate (length bs + n) None)]) =
  (Ok tt, m0 ++ [mkBlock base ((Some <$> (done ++ bs)) ++ replicate n None)]).
Proof.
  intros Hb. pose proof (blob_ok_length _ _ _ Hb). destruct Hb as [Hf Hb].
  unfold fits in Hf. rewrite (memcpy_into _ _ _ _ _ bs);
    [by rewrite Nat2Z.id, splice_fill|lia|done|lia|].
  rewrite length_app, length_fmap, length_replicate. lia.
Qed.

Lemma load_whole m0 base bs :
  load (m0 ++ [mkBlock base (Some <$> bs)]) (At (length m0) 0) (zlen bs) = Some bs.
Proof.
  unfold load. case_decide; [by destruct bs|].
  rewrite list_lookup_middle by done. simpl.
  rewrite length_fmap, decide_True, Nat2Z.id by lia.
  rewrite drop_0, firstn_all2 by (by rewrite length_fmap).
  apply mapM_Some_2, Forall2_fmap_l, Forall_Forall2_diag. by apply Forall_forall.
Qed.

Lemma blob_shared_fresh m0 n data :
  fits 32 n ->
  blob_shared (m0 ++ [mkBlock (place m0 n) data]) (At (length m0) 0) n =
    Ok (mkBlob (At (length m0) 0) (At (length m0) 0) n).
Proof.
  intros Hn. unfold blob_shared, checked_ptr_add. simpl.
  rewrite list_lookup_middle by done. simpl.
  pose proof (place_range m0 n Hn). unfold fits in Hn.
  rewrite checked_add_ptr_ok by (unfold fits; lia).
  rewrite decide_True by lia. done.
Qed.

Lemma copy_all_spec m0 base l bss done :
  Forall2 (blob_ok m0) l bss -> zlen done + zlen (concat bss) < 2 ^ 32 ->
  copy_all (At (length m0) 0) (zlen done) l
    (m0 ++ [mkBlock base ((Some <$> done) ++ replicate (length (concat bss)) None)]) =
  (Ok tt, m0 ++ [mkBlock base (Some <$> (done ++ concat bss))]).
Proof.
  intros Hl. revert done. induction Hl as [|b bs l bss Hb Hl IH]; intros done Hlen.
  { simpl. by rewrite !app_nil_r. }
  simpl in *. pose proof (blob_ok_length _ _ _ Hb) as Hbs.
  rewrite !length_app in *. destruct Hb as [Hf Hb].
  rewrite Z.add_0_l. erewrite bind_ok; [|by apply fill_step; split].
  unfold fits in Hf. rewrite wrap_id by (unfold fits; lia).
  rewrite <-Hbs, <-Nat2Z.inj_add, <-length_app.
  rewrite IH by (rewrite length_app; lia). by rewrite app_assoc.
Qed.

Lemma total_length_spec m l bss acc :
  Forall2 (blob_ok m) l bss -> fits 32 acc ->
  total_length acc l =
    if decide (acc + zlen (concat bss) < 2 ^ 32) then Ok (acc + zlen (concat bss))
    else Err (Thrown OverflowError).
Proof.
  intros Hl. revert acc. induction Hl as [|b bs l bss Hb Hl IH]; intros acc Ha; simpl.
  { unfold fits in Ha. rewrite decide_True by lia. f_equal. lia. }
  pose proof (blob_ok_length _ _ _ Hb) as Hbs. destruct Hb as [Hf Hb].
  rewrite checked_add_ok, length_app by (done || lia). unfold fits in *.
  case_decide; simpl.
  - rewrite IH by lia. repeat case_decide; try lia; [f_equal; lia|done].
  - rewrite decide_False by lia. done.
Qed.

(** What [allocate]; copy; [blob_shared] achieves: a fresh blob with the given
    bytes, every other blob untouched. *)
Definition fresh_copy (m m' : mem) (r : blob) (bs : list byte) : Prop :=
  blob_ok m' r bs /\ (forall b' bs', blob_ok m b' bs' -> blob_ok m' b' bs').

Lemma fresh_copy_refl m r bs : blob_ok m r bs -> fresh_copy m m r bs.
Proof. by split. Qed.

Lemma fresh_copy_intro m bs : fits 32 (zlen bs) ->
  fresh_copy m (m ++ [mkBlock (place m (zlen bs)) (Some <$> bs)])
    (mkBlob (At (length m) 0) (At (length m) 0) (zlen bs)) bs.
Proof.
  intros Hf. split; [|intros; by apply blob_ok_extend].
  split; [done|]. apply load_whole.
Qed.

Lemma empty_blob_spec m b bs : blob_ok m b bs -> blob_empty b = bool_decide (bs = []).
Proof.
  intros Hb. apply blob_ok_length in Hb. unfold blob_empty, blob_length.
  destruct bs as [|c bs]; simpl in Hb.
  - rewrite bool_decide_eq_true_2 by done. by zbool.
  - rewrite bool_decide_eq_false_2 by done. by zbool.
Qed.

Lemma merge2_spec m x y bx by_ :
  blob_ok m x bx -> blob_ok m y by_ -> zlen bx + zlen by_ < 2 ^ 32 ->
  exists r m', merge2 x y m = (Ok r, m') /\ fresh_copy m m' r (bx ++ by_).
Proof.
  intros Hx Hy Hlen. unfold merge2.
  rewrite (empty_blob_spec _ _ _ Hx), (empty_blob_spec _ _ _ Hy).
  case_bool_decide; [|case_bool_decide]; simpl; subst; rewrite ?app_nil_r;
    [by eexists _, _; split; [done|apply fresh_copy_refl]..|].
  pose proof (blob_ok_length _ _ _ Hx) as Lx. pose proof (blob_ok_length _ _ _ Hy) as Ly.
  assert (Hxy : fits 32 (zlen (bx ++ by_))) by (unfold fits; rewrite length_app; lia).
  assert (Hadd : checked_add 32 (_length x) (_length y) = Ok (zlen (bx ++ by_))).
  { rewrite checked_add_ok by (unfold fits in *; lia). rewrite length_app, decide_True by lia.
    f_equal. lia. }
  rewrite (bind_of_outcome_ok _ _ _ _ Hadd).
  eexists _, _; split; [|by apply fresh_copy_intro].
  erewrite bind_ok by reflexivity.
  replace (replicate (Z.to_nat (zlen (bx ++ by_))) None)
    with ((Some <$> []) ++ replicate (length bx + (length by_ + 0)) (@None byte))
    by (simpl; f_equal; rewrite length_app; lia).
  erewrite bind_ok; [|apply (fill_step m _ x bx []); done].
  simpl ptr_add. rewrite <-Lx, Z.add_0_l.
  erewrite bind_ok; [|apply (fill_step m _ y by_ bx); done].
  rewrite bind_get, app_nil_r. unfold of_outcome.
  by rewrite blob_shared_fresh.
Qed.

Lemma concat_first_only m b bs l bss :
  blob_ok m b bs -> zlen (concat (bs :: bss)) = _length b -> Forall2 (blob_ok m) l bss ->
  concat (bs :: bss) = bs.
Proof.
  intros Hb Hlen _. apply blob_ok_length in Hb. simpl in *. rewrite length_app in Hlen.
  destruct (concat bss); [apply app_nil_r|simpl in *; lia].
Qed.

Lemma merge_range_spec m l bss :
  Forall2 (blob_ok m) l bss -> zlen (concat bss) < 2 ^ 32 ->
  exists r m', merge_range l m = (Ok r, m') /\ fresh_copy m m' r (concat bss).
Proof.
  intros Hl Hlen. unfold merge_range.
  assert (Ht : total_length 0 l = Ok (zlen (concat bss))).
  { rewrite (total_length_spec m _ bss) by (done || by vm_compute).
    by rewrite decide_True by lia. }
  rewrite (bind_of_outcome_ok _ _ _ _ Ht).
  case_match eqn:Hz.
  { apply Z.eqb_eq in Hz. destruct (concat bss); [|simpl in *; lia].
    eexists _, _; split; [done|]. apply fresh_copy_refl. by split. }
  destruct Hl as [|b bs l bss Hb Hl]; [done|]. case_match eqn:Hf.
  { apply Z.eqb_eq in Hf. erewrite concat_first_only by done.
    eexists _, _; split; [done|]. by apply fresh_copy_refl. }
  assert (Hfit : fits 32 (zlen (concat (bs :: bss)))) by (unfold fits; lia).
  eexists _, _; split; [|by apply fresh_copy_intro].
  erewrite bind_ok by reflexivity. rewrite Nat2Z.id.
  erewrite bind_ok; [|apply (copy_all_spec m _ _ (bs :: bss) []); [by constructor|done]].
  rewrite bind_get. unfold of_outcome. by rewrite blob_shared_fresh.
Qed.

Lemma merge_range_overflow m l bss :
  Forall2 (blob_ok m) l bss -> 2 ^ 32 <= zlen (concat bss) ->
  merge_range l m = (Err (Thrown OverflowError), m).
Proof.
  intros Hl Hlen. unfold merge_range, bind, of_outcome.
  rewrite (total_length_spec m _ bss) by (done || by vm_compute).
  by rewrite decide_False by lia.
Qed.

Lemma blob_prolong_spec m src bs :
  blob_ok m src bs ->
  exists r m', blob_prolong src m = (Ok r, m') /\ fresh_copy m m' r bs /\
    (_buffer src <> Null -> r = src) /\ _buffer r <> Null.
Proof.
  intros Hb. unfold blob_prolong. destruct (_buffer src) as [|o k] eqn:Ho.
  2:{ eexists _, _; split_and!; [done|by apply fresh_copy_refl|done|by rewrite Ho]. }
  pose proof (blob_ok_length _ _ _ Hb) as Hlen. pose proof Hb as [Hf _].
  destruct src as [ob oc ol]; simpl in *; subst ob ol.
  eexists _, _; split_and!; [|by apply fresh_copy_intro|done|done].
  erewrite bind_ok by reflexivity. rewrite Nat2Z.id.
  replace (replicate (length bs) None)
    with ((Some <$> []) ++ replicate (length bs + 0) (@None byte))
    by (by rewrite Nat.add_0_r).
  erewrite bind_ok; [|by apply (fill_step m _ (mkBlob Null oc (zlen bs)) bs [])].
  rewrite bind_get, app_nil_r. unfold of_outcome. by rewrite blob_shared_fresh.
Qed.

(** Merging a chain of blobs yields one blob denoting the concatenation of
    their bytes in order, leaves every existing blob as it was, and throws
    [overflow_error] exactly when the total length exceeds 32 bits. *)
Lemma merge_concatenates m l bss :
  Forall2 (blob_ok m) l bss ->
  if decide (zlen (concat bss) < 2 ^ 32) then
    exists r m', merge_range l m = (Ok r, m') /\ blob_ok m' r (concat bss) /\
      (forall b' bs', blob_ok m b' bs' -> blob_ok m' b' bs')
  else merge_range l m = (Err (Thrown OverflowError), m).
Proof.
  intros Hl. case_decide.
  - destruct (merge_range_spec m l bss) as (r & m' & Hr & Hf & Ho); [done..|by eauto].
  - apply (merge_range_overflow m l bss); [done|lia].
Qed.

(** [range] selects the requested bytes without copying, and rejects every
    request that is not inside the blob. *)
Lemma range_selects m b bs offset length :
  blob_ok m b bs -> fits 32 offset -> fits 32 length ->
  if decide (offset + length <= zlen bs) then
    exists r, blob_range b offset length = Ok r /\ _buffer r = _buffer b /\
      blob_ok m r (take (Z.to_nat length) (drop (Z.to_nat offset) bs))
  else blob_range b offset length =
    Err (Thrown (if decide (offset + length < 2 ^ 32) then InvalidArgument
                 else OverflowError)).
Proof.
  intros Hb Ho Hl. pose proof (blob_range_spec m b bs offset length Hb Ho Hl) as H1.
  case_decide; [|done]. destruct H1 as (r & Hr & Hok). exists r. split_and!; [done| |done].
  unfold blob_range, obind in Hr. repeat case_match; by simplify_eq.
Qed.

End WithAllocator.

(** ** Witnesses *)

Definition two_blocks : mem :=
  [mkBlock 4096 (Some <$> [Byte.x61; Byte.x62; Byte.x63]); mkBlock 8192 [Some Byte.x64]].
Definition blob_abc : blob := mkBlob (At 0 0) (At 0 0) 3.
Definition blob_d : blob := mkBlob (At 1 0) (At 1 0) 1.

Lemma merge_concatenates_witness :
  exists r m', @merge_range flat_allocator [blob_abc; blob_d] two_blocks = (Ok r, m') /\
    blob_ok m' r [Byte.x61; Byte.x62; Byte.x63; Byte.x64].
Proof.
  destruct (@merge_concatenates flat_allocator two_blocks [blob_abc; blob_d]
    [[Byte.x61; Byte.x62; Byte.x63]; [Byte.x64]]) as (r & m' & H1 & H2 & _).
  - repeat constructor; by vm_compute.
  - by exists r, m'.
Defined.

