(* ===== verification/Streams.v ===== *)
(** Stream interfaces.

    The protocols are templates over an input or output buffer class.  This file
    states, as type classes, the operations they use and what the buffers
    promise: an output stream appends the bytes it is given as long as it has
    room, an input stream hands out the bytes of its unread suffix in order.
    [InputBuffer], [OutputBuffer] and [OutputCounter] discharge the laws; the
    protocol theorems are proved against the classes. *)

From S2P Require Import Prelude.

(** * Output *)

(** What one observes of an output: [appends s bs s']: [s'] is [s] after the
    bytes [bs]; [room s n]: [n] more bytes are accepted without an exception. *)
Class Writable (S : Type) := {
  appends : S -> list byte -> S -> Prop;
  room : S -> Z -> Prop;
  appends_nil s : appends s [] s;
  appends_app s bs1 s1 bs2 s2 :
    appends s bs1 s1 -> appends s1 bs2 s2 -> appends s (bs1 ++ bs2) s2;
  room_weaken s n m : room s n -> 0 <= m <= n -> room s m
}.

(** [emits m bs]: with room for [bs] the command [m] succeeds and appends exactly
    [bs], giving up only that much room. *)
Definition emits {S} `{Writable S} (m : M S unit) (bs : list byte) : Prop :=
  forall s n, room s n -> zlen bs <= n ->
  exists s', m s = (Ok tt, s') /\ appends s bs s' /\ room s' (n - zlen bs).

Class OutputStream (S : Type) `{Writable S} := {
  (** [Write(const void* value, uint32_t size)] *)
  os_Write_bytes : list byte -> M S unit;
  (** [Write(const T& value)] for a [T] of [n] bytes, given as an integer. *)
  os_Write : nat -> Z -> M S unit;
  (** [WriteVariableUnsigned(T value)] for unsigned [T] of [w] bits. *)
  os_WriteVariableUnsigned : Z -> Z -> M S unit
}.

(** * Input *)

Class Readable (S : Type) := {
  view : S -> list byte;
  readable : S -> Prop
}.

(** [reads m bs a]: on any input that starts with [bs] the command [m] consumes
    exactly [bs] and returns [a]. *)
Definition reads {S A} `{Readable S} (m : M S A) (bs : list byte) (a : A) : Prop :=
  forall s rest, readable s -> view s = bs ++ rest ->
  exists s', m s = (Ok a, s') /\ view s' = rest /\ readable s'.

(** [advances m k]: whatever the input, [m] leaves a suffix of the unread bytes,
    and at least [k] bytes are gone when it succeeds. *)
Definition advances {S A} `{Readable S} (m : M S A) (k : Z) : Prop :=
  forall s, readable s ->
  exists j, readable (snd (m s)) /\ view (snd (m s)) = drop j (view s) /\
    (forall a, fst (m s) = Ok a -> k <= Z.of_nat j /\ (j <= length (view s))%nat).

Class InputStream (S : Type) `{Readable S} := {
  (** [Read(void* buffer, uint32_t size)] *)
  is_Read_bytes : Z -> M S (list byte);
  (** [Read(T& value)] for a [T] of [n] bytes, as an integer. *)
  is_Read : nat -> M S Z;
  (** [Skip(uint32_t size)] *)
  is_Skip : Z -> M S unit;
  (** [ReadVariableUnsigned(T& value)] for unsigned [T] of [w] bits. *)
  is_ReadVariableUnsigned : Z -> M S Z
}.

(** The widths the variable-length encoding is used at. *)
Definition var_width (w : Z) : Prop := w = 16 \/ w = 32 \/ w = 64.

(** [safely n k m]: on any input with at most [n] unread bytes, whatever they are,
    [m] leaves a suffix of them; it returns having consumed at least [k] bytes, or
    throws.  No undefined step is made and no recursion budget runs out. *)
Definition safely {S A} `{Readable S} (n k : Z) (m : M S A) : Prop :=
  forall s, readable s -> zlen (view s) <= n ->
  exists j, readable (snd (m s)) /\ view (snd (m s)) = drop j (view s) /\
    match fst (m s) with
    | Ok _ => k <= Z.of_nat j /\ (j <= length (view s))%nat
    | Err e => exists x, e = Thrown x
    end.

(** * The calculi *)

Section Emits.
Context {S : Type} `{Writable S}.

Lemma emits_nil : emits (S := S) (ret tt) [].
Proof.
  intros s n Hr Hn. exists s. split_and!; [done|apply appends_nil|].
  eapply room_weaken; [done|simpl in *; lia].
Qed.

Lemma emits_bind (m1 m2 : M S unit) bs1 bs2 :
  emits m1 bs1 -> emits m2 bs2 -> emits (m1 ;;; m2) (bs1 ++ bs2).
Proof.
  intros H1 H2 s n Hr Hn. rewrite length_app in Hn.
  destruct (H1 s n Hr ltac:(lia)) as (s1 & E1 & A1 & R1).
  destruct (H2 s1 _ R1 ltac:(lia)) as (s2 & E2 & A2 & R2).
  exists s2. mrun. split_and!; [done|by eapply appends_app|].
  by rewrite length_app, Nat2Z.inj_add, Z.sub_add_distr.
Qed.

Lemma emits_ext (m1 m2 : M S unit) bs :
  (forall s, m1 s = m2 s) -> emits m1 bs -> emits m2 bs.
Proof. intros He H1 s n. rewrite <-He. apply H1. Qed.

Lemma emits_refine (m1 m2 : M S unit) bs :
  (forall s s', m1 s = (Ok tt, s') -> m2 s = (Ok tt, s')) -> emits m1 bs -> emits m2 bs.
Proof.
  intros He H1 s n Hr Hn. destruct (H1 s n Hr Hn) as (s' & E & H'). exists s'.
  split; [by apply He|done].
Qed.

Lemma emits_forM {A} (f : A -> M S unit) (g : A -> list byte) l :
  (forall x, x ∈ l -> emits (f x) (g x)) -> emits (forM l f) (concat (g <$> l)).
Proof.
  induction l as [|x l IH]; intros Hf; simpl; [apply emits_nil|].
  apply emits_bind; [apply Hf; left|apply IH; intros; apply Hf; by right].
Qed.
End Emits.

Section Reads.
Context {S : Type} `{Readable S}.

Lemma reads_ret {A} (a : A) : reads (S := S) (ret a) [] a.
Proof. intros s rest Hok Hv. by exists s. Qed.

Lemma reads_bind {A B} (m : M S A) (k : A -> M S B) bs1 bs2 a b :
  reads m bs1 a -> reads (k a) bs2 b -> reads (bind m k) (bs1 ++ bs2) b.
Proof.
  intros H1 H2 s rest Hok Hv. rewrite <-app_assoc in Hv.
  destruct (H1 s _ Hok Hv) as (s1 & E1 & V1 & O1).
  destruct (H2 s1 _ O1 V1) as (s2 & E2 & V2 & O2).
  exists s2. mrun. done.
Qed.

Lemma reads_bind_nil {A B} (m : M S A) (k : A -> M S B) bs a b :
  reads m [] a -> reads (k a) bs b -> reads (bind m k) bs b.
Proof. apply (reads_bind m k [] bs). Qed.

(** A last pure step. *)
Lemma reads_map {A B} (m : M S A) (f : A -> B) bs a :
  reads m bs a -> reads (let! x := m in ret (f x)) bs (f a).
Proof.
  intros H1. rewrite <-(app_nil_r bs). eapply reads_bind; [done|apply reads_ret].
Qed.

Lemma reads_ext {A} (m1 m2 : M S A) bs a :
  (forall s, m1 s = m2 s) -> reads m1 bs a -> reads m2 bs a.
Proof. intros He H1 s rest. rewrite <-He. apply H1. Qed.

Lemma reads_repeatM (m : M S unit) bss :
  (forall bs, bs ∈ bss -> reads m bs tt) ->
  reads (repeatM (length bss) m) (concat bss) tt.
Proof.
  induction bss as [|bs bss IH]; intros Hm; simpl; [apply reads_ret|].
  eapply reads_bind; [apply Hm; left|apply IH; intros; apply Hm; by right].
Qed.

Lemma advances_ret {A} (a : A) : advances (S := S) (ret a) 0.
Proof.
  intros s Hok. exists 0%nat. simpl. split_and!; [done|done|]. intros. lia.
Qed.

Lemma advances_fail {A} e k : advances (S := S) (A := A) (fail e) k.
Proof. intros s Hok. exists 0%nat. simpl. done. Qed.

Lemma advances_bind {A B} (m : M S A) (f : A -> M S B) k1 k2 :
  advances m k1 -> (forall a, advances (f a) k2) -> advances (bind m f) (k1 + k2).
Proof.
  intros H1 H2 s Hok. destruct (H1 s Hok) as (j1 & O1 & V1 & P1). unfold bind.
  destruct (m s) as [[a|e] s1]; simpl in *; [|by exists j1].
  destruct (H2 a s1 O1) as (j2 & O2 & V2 & P2). exists (j1 + j2)%nat.
  destruct (P1 a eq_refl) as [P11 P12].
  split_and!; [done|by rewrite V2, V1, drop_drop|].
  intros b Hb. destruct (P2 b Hb) as [P21 P22].
  rewrite V1, length_drop in P22. lia.
Qed.

Lemma advances_weaken {A} (m : M S A) k k' : k' <= k -> advances m k -> advances m k'.
Proof.
  intros Hk H1 s Hok. destruct (H1 s Hok) as (j & O & V & P). exists j.
  split_and!; [done..|]. intros a Ha. specialize (P a Ha). lia.
Qed.

Lemma advances_repeatM (m : M S unit) n : advances m 0 -> advances (repeatM n m) 0.
Proof.
  intros Hm. induction n as [|n IH]; simpl; [apply advances_ret|].
  apply (advances_bind m _ 0 0); [done|]. by intros _.
Qed.

Lemma safely_ret {A} n (a : A) : safely (S := S) n 0 (ret a).
Proof. intros s Hok _. exists 0%nat. simpl. split_and!; [done|done|lia..]. Qed.

Lemma safely_throw {A} n k e : safely (S := S) (A := A) n k (throw e).
Proof. intros s Hok _. exists 0%nat. simpl. split_and!; [done|done|by exists e]. Qed.

Lemma safely_bind {A B} (m : M S A) (f : A -> M S B) n k1 k2 :
  safely n k1 m -> (forall a, safely (n - k1) k2 (f a)) -> safely n (k1 + k2) (bind m f).
Proof.
  intros H1 H2 s Hok Hn. destruct (H1 s Hok Hn) as (j1 & O1 & V1 & P1). unfold bind.
  destruct (m s) as [[a|e] s1]; simpl in *; [|by exists j1].
  destruct P1 as [P11 P12].
  destruct (H2 a s1 O1) as (j2 & O2 & V2 & P2); [rewrite V1, length_drop; lia|].
  exists (j1 + j2)%nat. split_and!; [done|by rewrite V2, V1, drop_drop|].
  rewrite V1, length_drop in P2. case_match; [lia|done].
Qed.

Lemma safely_weaken {A} (m : M S A) n n' k k' :
  k' <= k -> n' <= n -> safely n k m -> safely n' k' m.
Proof.
  intros Hk Hn H1 s Hok Hs. destruct (H1 s Hok ltac:(lia)) as (j & O & V & P). exists j.
  split_and!; [done..|]. case_match; [lia|done].
Qed.

Lemma safely_bind_0 {A B} (m : M S A) (f : A -> M S B) n :
  safely n 0 m -> (forall a, safely n 0 (f a)) -> safely n 0 (bind m f).
Proof.
  intros H1 H2. apply (safely_bind m f n 0 0); [done|]. intros a. by rewrite Z.sub_0_r.
Qed.

Lemma safely_of_outcome {A} n (o : outcome A) :
  (forall e, o = Err e -> exists x, e = Thrown x) -> safely (S := S) n 0 (of_outcome o).
Proof.
  intros Ho s Hok _. exists 0%nat. simpl. split_and!; [done|done|].
  destruct o; [lia|by apply Ho].
Qed.

Lemma safely_repeatM (m : M S unit) n c : safely n 0 m -> safely n 0 (repeatM c m).
Proof.
  intros Hm. induction c as [|c IH]; simpl; [apply safely_ret|].
  by apply safely_bind_0.
Qed.
End Reads.

Create HintDb streams discriminated.
#[export] Hint Resolve emits_nil emits_bind reads_ret advances_ret advances_fail : streams.
