(* ===== verification/Encoding.v ===== *)
(** Integer encodings (cpp/inc/bond/protocol/encoding.h).

    The variable-length unsigned encoding (the templates of the header are
    parametrised by the buffer, here by the buffer's operations), the ZigZag
    mapping of signed integers, hexadecimal digits and string data. *)

From S2P Require Import Prelude Streams.

(** * Variable-length unsigned integers: specification *)

(** Seven bits a byte, least significant group first, the high bit of a byte set
    when another one follows. *)
Fixpoint varint_enc (n : nat) (z : Z) : list byte :=
  match n with
  | O => []
  | S n' =>
      if z <? 128 then [z2b z]
      else z2b (z mod 128 + 128) :: varint_enc n' (z / 128)
  end.

(** Ten groups hold any 64-bit value. *)
Definition varint (z : Z) : list byte := varint_enc 10 z.

(** * The generic reader and writer *)

Section Generic.
Context {St : Type}.

(** Integral promotion: a shift of an operand narrower than [int] is a shift of
    an [int]. *)
Definition promoted (w : Z) : Z := Z.max 32 w.

(** The loop of [GenericReadVariableUnsigned].  The shift count grows by 7 each
    turn; once it reaches the width of the promoted operand the shift is
    undefined, so eleven turns are always enough. *)
Fixpoint generic_read_loop (Read_u8 : M St Z) (fuel : nat) (w value shift : Z) : M St Z :=
  match fuel with
  | O => fail OutOfFuel
  | S fuel' =>
      let! byte := Read_u8 in
      let part := wrap w (Z.land byte 0x7f) in
      if promoted w <=? shift then fail Undefined
      else
        let value' := wrap w (value + wrap (promoted w) (Z.shiftl part shift)) in
        if 0x80 <=? byte
        then generic_read_loop Read_u8 fuel' w value' (shift + 7)
        else ret value'
  end.

Definition GenericReadVariableUnsigned (Read_u8 : M St Z) (w : Z) : M St Z :=
  generic_read_loop Read_u8 11 w 0 0.

(** [GenericWriteVariableUnsigned(output, value)]: the remaining value goes
    through the overloaded [WriteVariableUnsigned], which is a buffer's own
    method when it has one. *)
Definition GenericWriteVariableUnsigned (Write_u8 : Z -> M St unit)
    (WriteVariableUnsigned : Z -> Z -> M St unit) (w value : Z) : M St unit :=
  let x := value in
  let value := Z.shiftr value 7 in
  if value =? 0 then Write_u8 (wrap 8 x)
  else Write_u8 (wrap 8 (Z.lor x 0x80)) ;;; WriteVariableUnsigned w value.

(** [WriteVariableUnsigned(output, value)] for a buffer without a method of that
    name. *)
Fixpoint plain_WriteVariableUnsigned (Write_u8 : Z -> M St unit) (fuel : nat)
    (w value : Z) : M St unit :=
  match fuel with
  | O => fail OutOfFuel
  | S fuel' =>
      GenericWriteVariableUnsigned Write_u8
        (plain_WriteVariableUnsigned Write_u8 fuel') w value
  end.
End Generic.

(** * ZigZag *)

(** [EncodeZigZag(T value)], [T] signed of [w] bits, result unsigned. *)
Definition EncodeZigZag (w value : Z) : Z :=
  wrap w (Z.lxor (Z.shiftl value 1) (Z.shiftr value (w - 1))).

(** [DecodeZigZag(T value)], [T] unsigned of [w] bits, result signed. *)
Definition DecodeZigZag (w value : Z) : Z :=
  to_signed w (Z.lxor (Z.shiftr value 1) (- to_signed w (Z.land value 1))).

(** * Hexadecimal digits *)

(** [HexDigit(int n)] and [HexDigit(char c)] on ASCII codes. *)
Definition HexDigit_of_int (n : Z) : Z :=
  let d := Z.land n 0xf in if d <? 10 then 48 + d else 97 + d - 10.

Definition HexDigit_of_char (c : Z) : Z :=
  if (97 <=? c) && (c <=? 102) then c - 97 + 10
  else if (65 <=? c) && (c <=? 70) then c - 65 + 10
  else c - 48.

(** * String data *)

Section StringData.
Context {W : Type} `{Writable W} `{!OutputStream W}.
Context {R : Type} `{Readable R} `{!InputStream R}.

(** [ReadStringData] and [WriteStringData] when the element and the wire unit have
    the same size ([std::string]; [std::wstring] with 16-bit [wchar_t]): one block
    copy of [length * sizeof(element)] bytes. *)
Definition WriteStringData_same (size : nat) (value : list Z) (length : Z) : M W unit :=
  os_Write_bytes (take (Z.to_nat (wrap 32 (length * Z.of_nat size)))
                    (concat (le_bytes size <$> value))).

Fixpoint chunks (size n : nat) (bs : list byte) : list Z :=
  match n with
  | O => []
  | S n' => of_le (take size bs) :: chunks size n' (drop size bs)
  end.

Definition ReadStringData_same (size : nat) (length : Z) : M R (list Z) :=
  let! bs := is_Read_bytes (wrap 32 (length * Z.of_nat size)) in
  ret (chunks size (Z.to_nat length) bs).

(** The overloads for a [wchar_t] wider than the 16-bit wire unit: unit by unit,
    truncating on write and widening on read. *)
Definition WriteStringData_wide (value : list Z) (length : Z) : M W unit :=
  forM (take (Z.to_nat length) value) (fun ch => os_Write 2 (wrap 16 ch)).

Definition ReadStringData_wide (length : Z) : M R (list Z) :=
  collectM (Z.to_nat length) (is_Read 2).
End StringData.

(** * Correctness *)

Lemma shiftr7 z : Z.shiftr z 7 = z / 128.
Proof. by rewrite Z.shiftr_div_pow2 by lia. Qed.

Lemma varint_enc_S n z :
  varint_enc (S n) z =
    if z <? 128 then [z2b z] else z2b (z mod 128 + 128) :: varint_enc n (z / 128).
Proof. done. Qed.

Lemma div128_lt z n : 0 <= z < 2 ^ (7 * (1 + Z.of_nat n)) -> 0 <= z / 128 < 2 ^ (7 * Z.of_nat n).
Proof.
  replace (7 * (1 + Z.of_nat n)) with (7 * Z.of_nat n + 7) by lia.
  rewrite Z.pow_add_r by lia. change (2 ^ 7) with 128. intros.
  split; [apply Z.div_pos; lia|]. apply Z.div_lt_upper_bound; lia.
Qed.

Lemma varint_enc_stable n m z :
  0 <= z < 2 ^ (7 * Z.of_nat n) -> (0 < n <= m)%nat -> varint_enc m z = varint_enc n z.
Proof.
  revert m z. induction n as [|n IH]; intros [|m] z Hz Hm; try lia.
  rewrite !varint_enc_S. case_match eqn:Hlt; [done|]. f_equal.
  rewrite Nat2Z.inj_succ in Hz. pose proof (div128_lt z n ltac:(rewrite Z.add_1_l; lia)).
  apply IH; [done|]. apply Z.ltb_ge in Hlt.
  destruct n; [|lia]. simpl in *. assert (0 < z / 128) by (apply Z.div_str_pos; lia). lia.
Qed.

Lemma varint_step z : fits 64 z ->
  varint z = if z <? 128 then [z2b z] else z2b (z mod 128 + 128) :: varint (z / 128).
Proof.
  intros Hz. unfold varint. rewrite varint_enc_S. case_match; [done|]. f_equal.
  symmetry. apply varint_enc_stable; [|lia].
  apply div128_lt. unfold fits in Hz. split; [lia|]. etrans; [apply Hz|]. by vm_compute.
Qed.

Lemma div128_fits w z : 0 <= w -> fits w z -> fits w (z / 128).
Proof.
  unfold fits. intros Hw Hz. split; [apply Z.div_pos; lia|].
  apply Z.div_lt_upper_bound; lia.
Qed.

Lemma fits_weaken w w' z : 0 <= w <= w' -> fits w z -> fits w' z.
Proof.
  unfold fits. intros. assert (2 ^ w <= 2 ^ w') by (apply Z.pow_le_mono_r; lia). lia.
Qed.

Lemma varint_length_pos z : (0 < length (varint z))%nat.
Proof. unfold varint. rewrite varint_enc_S. case_match; simpl; lia. Qed.

Lemma varint_enc_length n z :
  0 <= z < 2 ^ (7 * Z.of_nat n) -> (length (varint_enc n z) <= n)%nat.
Proof.
  revert z. induction n as [|n IH]; intros z Hz; [simpl; lia|].
  rewrite varint_enc_S. case_match; simpl; [lia|].
  rewrite Nat2Z.inj_succ, <-Z.add_1_l in Hz.
  specialize (IH (z / 128) (div128_lt _ _ Hz)). lia.
Qed.

(** A [w]-bit value takes at most [ceil(w / 7)] bytes. *)
Lemma varint_length_le w z :
  var_width w -> fits w z -> zlen (varint z) <= w / 7 + 1.
Proof.
  intros Hw Hz. unfold varint, fits in *.
  assert (Hle : forall n : nat, 0 <= z < 2 ^ (7 * Z.of_nat n) -> (0 < n <= 10)%nat ->
    zlen (varint_enc 10 z) <= Z.of_nat n).
  { intros n Hzn Hn. rewrite (varint_enc_stable n 10) by done.
    pose proof (varint_enc_length n z Hzn). lia. }
  destruct Hw as [->|[->| ->]].
  - apply (Hle 3%nat); [change (2 ^ (7 * Z.of_nat 3)) with (2 ^ 16 * 32); lia|lia].
  - apply (Hle 5%nat); [change (2 ^ (7 * Z.of_nat 5)) with (2 ^ 32 * 8); lia|lia].
  - apply (Hle 10%nat); [change (2 ^ (7 * Z.of_nat 10)) with (2 ^ 64 * 64); lia|lia].
Qed.

(** The byte the writers produce for a group that is not the last. *)
Lemma continuation_byte z : 0 <= z -> wrap 8 (Z.lor z 0x80) = z mod 128 + 128.
Proof.
  intros Hz. unfold wrap. rewrite <-Z.land_ones by lia.
  replace (z mod 128) with (Z.land z (Z.ones 7)) by (by rewrite Z.land_ones).
  change 0x80 with (2 ^ 7). rewrite Z.land_lor_distr_l.
  change (Z.land (2 ^ 7) (Z.ones 8)) with (2 ^ 7).
  replace (Z.land z (Z.ones 7) + 2 ^ 7) with (Z.lor (Z.land z (Z.ones 7)) (2 ^ 7)).
  - apply Z.bits_inj'. intros i Hi. rewrite !Z.lor_spec, !Z.land_spec.
    rewrite !Z.testbit_ones_nonneg, Z.pow2_bits_eqb by lia.
    destruct (Z.testbit z i), (decide (i < 7)), (decide (i = 7)); zbool; try done; try lia.
  - symmetry. apply Z.add_nocarry_lor.
    apply Z.bits_inj'. intros i Hi.
    rewrite !Z.land_spec, Z.testbit_ones_nonneg, Z.pow2_bits_eqb, Z.bits_0 by lia.
    destruct (decide (i = 7)); subst; [by rewrite !andb_false_r|]. zbool. by rewrite andb_false_r.
Qed.

Lemma high_bit_byte z : 0 <= z ->
  b2z (z2b (z mod 128 + 128)) = z mod 128 + 128 /\
  Z.land (z mod 128 + 128) 0x7f = z mod 128.
Proof.
  intros Hz. pose proof (Z.mod_pos_bound z 128 ltac:(lia)). split.
  - apply b2z_z2b_small. lia.
  - change 0x7f with (Z.ones 7). rewrite Z.land_ones by lia. change (2 ^ 7) with 128.
    rewrite <-(Z.mul_1_l 128) at 2. rewrite Z.mod_add by lia. by apply Z.mod_mod.
Qed.

Lemma low_byte z : 0 <= z < 128 -> b2z (z2b z) = z /\ Z.land z 0x7f = z.
Proof.
  intros Hz. split; [apply b2z_z2b_small; lia|].
  change 0x7f with (Z.ones 7). rewrite Z.land_ones by lia. by apply Z.mod_small.
Qed.

Section GenericCorrect.
Context {St : Type} `{Readable St} (Read_u8 : M St Z).
Context (Read_u8_reads : forall b, reads Read_u8 [b] (b2z b)).

(** Adding one shifted group. *)
Lemma group_sum w value part shift :
  0 < w -> 0 <= shift -> 0 <= part < 128 -> 0 <= value ->
  value + part * 2 ^ shift < 2 ^ w ->
  wrap w (value + wrap (promoted w) (Z.shiftl (wrap w part) shift)) =
    value + part * 2 ^ shift.
Proof.
  intros Hw Hs Hp Hv Hlt. assert (Hpos : 0 < 2 ^ shift) by (apply Z.pow_pos_nonneg; lia).
  assert (Hpw : 2 ^ w <= 2 ^ promoted w) by (apply Z.pow_le_mono_r; unfold promoted; lia).
  assert (part <= part * 2 ^ shift) by nia.
  rewrite (wrap_id w part), Z.shiftl_mul_pow2 by (unfold fits; lia).
  rewrite (wrap_id (promoted w)) by (unfold fits; nia).
  apply wrap_id. unfold fits. nia.
Qed.

Lemma shift_in_range w shift part :
  0 < w -> 0 <= shift -> 0 < part -> part * 2 ^ shift < 2 ^ w -> shift < w.
Proof.
  intros Hw Hs Hp Hlt. destruct (Z.lt_ge_cases shift w) as [|Hge]; [done|].
  assert (2 ^ w <= 2 ^ shift) by (apply Z.pow_le_mono_r; lia). nia.
Qed.

Lemma generic_read_loop_reads n fuel w z value shift :
  0 < w -> 0 <= shift -> 0 <= value -> 0 <= z < 2 ^ (7 * Z.of_nat n) ->
  (0 < n <= fuel)%nat -> shift < promoted w ->
  value + z * 2 ^ shift < 2 ^ w ->
  reads (generic_read_loop Read_u8 fuel w value shift) (varint_enc n z)
    (value + z * 2 ^ shift).
Proof.
  intros Hw. revert fuel z value shift.
  induction n as [|n IH]; intros [|fuel] z value shift Hs Hv Hz Hn Hsw Hlt; try lia.
  assert (Hpos : 0 < 2 ^ shift) by (apply Z.pow_pos_nonneg; lia).
  rewrite varint_enc_S. simpl generic_read_loop. destruct (z <? 128) eqn:Hz128.
  - apply Z.ltb_lt in Hz128. destruct (low_byte z ltac:(lia)) as [E1 E2].
    rewrite <-(app_nil_r [z2b z]). eapply reads_bind; [apply Read_u8_reads|].
    cbv zeta. rewrite E1, E2, group_sum by lia. zbool. apply reads_ret.
  - apply Z.ltb_ge in Hz128. destruct (high_bit_byte z ltac:(lia)) as [E1 E2].
    pose proof (Z.mod_pos_bound z 128 ltac:(lia)).
    pose proof (Z.div_mod z 128 ltac:(lia)) as Hdm.
    assert (0 < z / 128) by (apply Z.div_str_pos; lia).
    assert (Hp7 : 2 ^ (shift + 7) = 2 ^ shift * 128) by (rewrite Z.pow_add_r by lia; done).
    rewrite Nat2Z.inj_succ, <-Z.add_1_l in Hz. pose proof (div128_lt _ _ Hz) as Hdiv.
    change (?b :: ?l) with ([b] ++ l). eapply reads_bind; [apply Read_u8_reads|].
    cbv zeta. rewrite E1, E2, group_sum by nia. zbool.
    replace (value + z * 2 ^ shift)
      with ((value + z mod 128 * 2 ^ shift) + z / 128 * 2 ^ (shift + 7)) by nia.
    apply IH; try lia; try nia.
    + destruct n; simpl in *; lia.
    + assert (z / 128 * 2 ^ (shift + 7) < 2 ^ w) by (rewrite Hp7; nia).
      assert (shift + 7 < w) by (by apply (shift_in_range w (shift + 7) (z / 128)); [lia..|]).
      unfold promoted. lia.
Qed.

(** The generic reader reads back every encoded value, with any continuation. *)
Lemma generic_read_reads w z : var_width w -> fits w z ->
  reads (GenericReadVariableUnsigned Read_u8 w) (varint z) z.
Proof.
  intros Hw Hz. unfold GenericReadVariableUnsigned, varint.
  assert (Hwb : 0 < w <= 64) by (unfold var_width in Hw; lia).
  pose proof (fits_weaken w 64 z ltac:(lia) Hz) as Hz64. unfold fits in *.
  replace z with (0 + z * 2 ^ 0) at 2 by lia.
  apply generic_read_loop_reads; try lia.
  unfold promoted. lia.
Qed.
End GenericCorrect.

(** With every byte written the generic writer emits the encoding. *)
Section GenericWriteCorrect.
Context {St : Type} `{Writable St} (Write_u8 : Z -> M St unit).
Context (Write_u8_emits : forall b, fits 8 b -> emits (Write_u8 b) [z2b b]).

Lemma generic_write_emits (wr : Z -> Z -> M St unit) w z :
  0 < w <= 64 -> fits w z ->
  (128 <= z -> emits (wr w (z / 128)) (varint (z / 128))) ->
  emits (GenericWriteVariableUnsigned Write_u8 wr w z) (varint z).
Proof.
  intros Hw Hz Hwr. assert (Hz64 : fits 64 z) by (eapply fits_weaken; [|done]; lia).
  rewrite varint_step by done. unfold GenericWriteVariableUnsigned.
  rewrite shiftr7. cbv zeta. unfold fits in Hz. case_match eqn:Hlt.
  - apply Z.eqb_eq in Hlt. assert (z < 128) by (apply Z.div_small_iff in Hlt; lia).
    zbool. rewrite wrap_id by (unfold fits; lia). apply Write_u8_emits. unfold fits. lia.
  - apply Z.eqb_neq in Hlt. assert (128 <= z) by (destruct (Z.lt_ge_cases z 128);
      [rewrite Z.div_small in Hlt|]; lia).
    zbool. rewrite continuation_byte by lia. change (?b :: ?l) with ([b] ++ l).
    pose proof (Z.mod_pos_bound z 128 ltac:(lia)).
    apply emits_bind; [apply Write_u8_emits; unfold fits; lia|by apply Hwr].
Qed.

Lemma plain_write_emits n fuel w z :
  0 < w <= 64 -> fits w z -> z < 2 ^ (7 * Z.of_nat n) -> (0 < n <= fuel)%nat ->
  emits (plain_WriteVariableUnsigned Write_u8 fuel w z) (varint z).
Proof.
  intros Hw. revert fuel z.
  induction n as [|n IH]; intros [|fuel] z Hz Hlt Hn; try lia.
  simpl. apply generic_write_emits; [done..|]. intros Hge.
  rewrite Nat2Z.inj_succ, <-Z.add_1_l in Hlt. unfold fits in Hz.
  pose proof (div128_lt z n ltac:(lia)).
  assert (0 < z / 128) by (apply Z.div_str_pos; lia).
  apply IH; [apply div128_fits; unfold fits; lia|lia|].
  destruct n; simpl in *; lia.
Qed.
End GenericWriteCorrect.

(** * ZigZag correctness *)

Lemma lxor_m1 a : Z.lxor a (-1) = - a - 1.
Proof. rewrite Z.lxor_m1_r. unfold Z.lnot. lia. Qed.

Lemma encode_zigzag_closed w v : 1 < w -> sfits w v ->
  EncodeZigZag w v = if decide (0 <= v) then 2 * v else - 2 * v - 1.
Proof.
  intros Hw Hv. unfold EncodeZigZag, sfits in *.
  assert (Hp : 2 ^ w = 2 * 2 ^ (w - 1))
    by (rewrite <-Z.pow_succ_r by lia; f_equal; lia).
  rewrite Z.shiftl_mul_pow2, Z.shiftr_div_pow2 by lia. change (2 ^ 1) with 2.
  case_decide.
  - rewrite (Z.div_small v) by lia. rewrite Z.lxor_0_r, wrap_id by (unfold fits; lia). lia.
  - replace (v / 2 ^ (w - 1)) with (-1) by (apply Z.div_unique with (v + 2 ^ (w - 1)); lia).
    rewrite lxor_m1, wrap_id by (unfold fits; lia). lia.
Qed.

Lemma decode_zigzag_closed w u : 1 < w -> fits w u ->
  DecodeZigZag w u = if decide (u mod 2 = 0) then u / 2 else - (u / 2) - 1.
Proof.
  intros Hw Hu. unfold DecodeZigZag, fits in *.
  assert (Hp : 2 ^ w = 2 * 2 ^ (w - 1))
    by (rewrite <-Z.pow_succ_r by lia; f_equal; lia).
  assert (2 <= 2 ^ (w - 1)).
  { change 2 with (2 ^ 1) at 1. apply Z.pow_le_mono_r; lia. }
  replace (Z.land u 1) with (u mod 2) by (symmetry; apply (Z.land_ones u 1); lia).
  rewrite Z.shiftr_div_pow2 by lia. change (2 ^ 1) with 2.
  pose proof (Z.mod_pos_bound u 2 ltac:(lia)). pose proof (Z.div_mod u 2 ltac:(lia)).
  case_decide as Hm.
  - rewrite Hm. rewrite (to_signed_id w 0) by (unfold sfits; lia).
    rewrite Z.lxor_0_r. apply to_signed_id; unfold sfits; lia.
  - replace (u mod 2) with 1 by lia. rewrite (to_signed_id w 1) by (unfold sfits; lia).
    rewrite lxor_m1. apply to_signed_id; unfold sfits; lia.
Qed.

Lemma encode_zigzag_fits w v : 1 < w -> sfits w v -> fits w (EncodeZigZag w v).
Proof. intros. apply wrap_fits. lia. Qed.

Lemma zigzag_decode_encode w v : 1 < w -> sfits w v ->
  DecodeZigZag w (EncodeZigZag w v) = v.
Proof.
  intros Hw Hv. rewrite decode_zigzag_closed by (done || by apply encode_zigzag_fits).
  rewrite encode_zigzag_closed by done. destruct (decide (0 <= v)).
  - rewrite (Z.mul_comm 2 v), Z.mod_mul, Z.div_mul by lia. done.
  - replace (- 2 * v - 1) with (1 + (- v - 1) * 2) by lia.
    rewrite Z.mod_add, Z.div_add by lia.
    rewrite decide_False by done. change (1 / 2) with 0. lia.
Qed.

Lemma zigzag_encode_decode w u : 1 < w -> fits w u ->
  EncodeZigZag w (DecodeZigZag w u) = u.
Proof.
  intros Hw Hu. pose proof (Z.mod_pos_bound u 2 ltac:(lia)).
  pose proof (Z.div_mod u 2 ltac:(lia)).
  rewrite encode_zigzag_closed; [|done|by apply to_signed_sfits; lia].
  rewrite decode_zigzag_closed by done. unfold fits in Hu.
  repeat case_decide; lia.
Qed.

(** ZigZag is a bijection between the signed and the unsigned [w]-bit integers
    that maps small magnitudes to small codes: 0, -1, 1, -2, ... to 0, 1, 2, 3. *)
Lemma zigzag_bijection w : 1 < w ->
  (forall v, sfits w v -> fits w (EncodeZigZag w v) /\
     DecodeZigZag w (EncodeZigZag w v) = v /\
     EncodeZigZag w v = (if decide (0 <= v) then 2 * v else - 2 * v - 1)) /\
  (forall u, fits w u -> sfits w (DecodeZigZag w u) /\
     EncodeZigZag w (DecodeZigZag w u) = u).
Proof.
  intros Hw. split.
  - intros v Hv. split_and!; [by apply encode_zigzag_fits|by apply zigzag_decode_encode|].
    by apply encode_zigzag_closed.
  - intros u Hu. split; [apply to_signed_sfits; lia|by apply zigzag_encode_decode].
Qed.

(** * String data correctness *)

Lemma chunks_concat size l : (0 < size)%nat ->
  Forall (fits (8 * Z.of_nat size)) l ->
  chunks size (length l) (concat (le_bytes size <$> l)) = l.
Proof.
  intros Hs Hl. induction Hl as [|z l Hz Hl IH]; [done|].
  rewrite fmap_cons. cbn [length chunks concat].
  rewrite take_app_length', drop_app_length' by (by rewrite length_le_bytes).
  rewrite IH, of_le_bytes. f_equal. apply wrap_id. by rewrite Z.mul_comm.
Qed.

Lemma length_concat_le_bytes size l :
  length (concat (le_bytes size <$> l)) = (size * length l)%nat.
Proof.
  induction l as [|z l IH]; [simpl; lia|].
  rewrite fmap_cons. cbn [concat length].
  rewrite length_app, length_le_bytes, IH. lia.
Qed.

(** Hexadecimal digits are read back. *)
Lemma hex_digit_roundtrip n : 0 <= n < 16 ->
  HexDigit_of_char (HexDigit_of_int n) = n.
Proof.
  intros Hn. destruct n as [|p|p]; [done| |lia].
  do 4 (destruct p as [p|p|]; try done; try lia).
Qed.

(** * What the protocols rely on *)

Class OutputStreamLaws (S : Type) `{OutputStream S} := {
  os_Write_bytes_emits bs : zlen bs < 2 ^ 32 -> emits (os_Write_bytes (S := S) bs) bs;
  os_Write_emits n z : (0 < n <= 8)%nat -> emits (os_Write (S := S) n z) (le_bytes n z);
  os_Var_emits w z : var_width w -> fits w z ->
    emits (os_WriteVariableUnsigned (S := S) w z) (varint z)
}.

Class InputStreamLaws (S : Type) `{InputStream S} := {
  is_Read_reads n bs : length bs = n -> (0 < n <= 8)%nat ->
    reads (is_Read (S := S) n) bs (of_le bs);
  is_Read_bytes_reads bs : zlen bs < 2 ^ 32 ->
    reads (is_Read_bytes (S := S) (zlen bs)) bs bs;
  is_Skip_reads bs : zlen bs < 2 ^ 32 -> reads (is_Skip (S := S) (zlen bs)) bs tt;
  is_Var_reads w z : var_width w -> fits w z ->
    reads (is_ReadVariableUnsigned (S := S) w) (varint z) z;
  is_Read_safely n k : (0 < n <= 8)%nat -> safely k (Z.of_nat n) (is_Read (S := S) n);
  is_Read_bytes_safely n k : fits 32 n -> safely k n (is_Read_bytes (S := S) n);
  is_Skip_safely n k : fits 32 n -> safely k 0 (is_Skip (S := S) n);
  is_Var_safely w k : var_width w -> safely k 1 (is_ReadVariableUnsigned (S := S) w);
  is_Var_fits w s z s' : var_width w -> readable s ->
    is_ReadVariableUnsigned (S := S) w s = (Ok z, s') -> fits w z;
  is_Read_eof n s : (0 < n <= 8)%nat -> readable s -> zlen (view s) < Z.of_nat n ->
    is_Read (S := S) n s = (Err (Thrown StreamException), s);
  is_Skip_past n s : fits 32 n -> readable s -> zlen (view s) < n ->
    is_Skip (S := S) n s = (Ok tt, s)
}.
