(* ===== verification/InputBuffer.v ===== *)
(** Memory-backed input stream (cpp/inc/bond/stream/input_buffer.h).

    [InputBuffer] is a blob and a read position.  Its operations are modelled on
    the store, pointer arithmetic included; an access outside the blob would be
    undefined, and the laws show that the guards exclude it. *)

From S2P Require Import Prelude Checked Memory Blob Streams Encoding.

(** The members, and the store the blob points into. *)
Record InputBuffer : Type := mkIB {
  ib_mem : mem;
  ib_blob : blob;
  ib_pointer : Z
}.

(** [InputBuffer(const blob&)] and [InputBuffer(const void*, uint32_t)]. *)
Definition InputBuffer_of_blob (m : mem) (b : blob) : InputBuffer := mkIB m b 0.

Definition InputBuffer_raw (m : mem) (buffer : ptr) (length : Z) : outcome InputBuffer :=
  olet b := blob_raw m buffer length in Ok (mkIB m b 0).

(** [operator==]. *)
Definition InputBuffer_eqb (x y : InputBuffer) : outcome bool :=
  olet same := blob_eqb (ib_mem x) (ib_blob x) (ib_blob y) in
  Ok (same && (ib_pointer x =? ib_pointer y)).

Definition set_pointer (p : Z) : M InputBuffer unit :=
  modify (fun s => mkIB (ib_mem s) (ib_blob s) p).

(** [_blob.content() + _pointer], and a copy from there. *)
Definition current_ptr (s : InputBuffer) : ptr :=
  ptr_add (blob_content (ib_blob s)) (ib_pointer s).

Definition load_at_pointer (n : Z) : M InputBuffer (list byte) :=
  let! s := get in of_option (load (ib_mem s) (current_ptr s) n).

Definition EofException {A} : M InputBuffer A := throw StreamException.

(** [Read(uint8_t& value)]. *)
Definition ib_Read_u8 : M InputBuffer Z :=
  let! s := get in
  if blob_length (ib_blob s) =? ib_pointer s then EofException
  else
    let! bs := load_at_pointer 1 in
    set_pointer (wrap 32 (ib_pointer s + 1)) ;;;
    ret (of_le bs).

(** An arithmetic or enum type, by its size.  Every representation is a value, but for
    [bool], whose values are 0 and 1. *)
Inductive arithmetic : Set := Boolean | Sized (n : nat).

Definition sizeof (T : arithmetic) : nat := match T with Boolean => 1 | Sized n => n end.

Definition is_value (T : arithmetic) (bs : list byte) : bool :=
  match T with Boolean => of_le bs <=? 1 | Sized _ => true end.

(** [*reinterpret_cast<const T*>(_blob.content() + _pointer)]: a load of a [T], which is
    undefined where there is none.  The branch is for platforms on which the address need
    not be aligned. *)
Definition typed_load (T : arithmetic) : M InputBuffer (list byte) :=
  let! bs := load_at_pointer (Z.of_nat (sizeof T)) in
  if is_value T bs then ret bs else fail Undefined.

(** [Read(T& value)] for an arithmetic or enum [T]: the object representation of the
    value, by a typed load on x86 and by [memcpy] elsewhere. *)
Definition ib_Read (x86 : bool) (T : arithmetic) : M InputBuffer Z :=
  let! s := get in
  if wrap 32 (blob_length (ib_blob s) - ib_pointer s) <? Z.of_nat (sizeof T) then EofException
  else
    let! bs := (if x86 then typed_load T else load_at_pointer (Z.of_nat (sizeof T))) in
    set_pointer (wrap 32 (ib_pointer s + Z.of_nat (sizeof T))) ;;;
    ret (of_le bs).

(** [Read(void* buffer, uint32_t size)]. *)
Definition ib_Read_bytes (size : Z) : M InputBuffer (list byte) :=
  let! s := get in
  if wrap 32 (blob_length (ib_blob s) - ib_pointer s) <? size then EofException
  else
    let! bs := load_at_pointer size in
    set_pointer (wrap 32 (ib_pointer s + size)) ;;;
    ret bs.

(** [Read(blob& blob, uint32_t size)]: the result aliases the input. *)
Definition ib_Read_blob (size : Z) : M InputBuffer blob :=
  let! s := get in
  if wrap 32 (blob_length (ib_blob s) - ib_pointer s) <? size then EofException
  else
    let! b := of_outcome (blob_assign (ib_blob s) (ib_pointer s) size) in
    set_pointer (wrap 32 (ib_pointer s + size)) ;;;
    ret b.

(** [Skip(uint32_t size)]: skipping past the end does nothing. *)
Definition ib_Skip (size : Z) : M InputBuffer unit :=
  let! s := get in
  if wrap 32 (blob_length (ib_blob s) - ib_pointer s) <? size then ret tt
  else set_pointer (wrap 32 (ib_pointer s + size)).

Definition IsEof (s : InputBuffer) : bool := ib_pointer s =? blob_length (ib_blob s).

(** [T byte = *p++] where [p] is a [const char*] and [char] is signed: the byte
    is sign-extended before the conversion to the unsigned [T]. *)
Definition load_char (m : mem) (w : Z) (p : ptr) : outcome Z :=
  match load m p 1 with
  | Some [b] => Ok (wrap w (to_signed 8 (b2z b)))
  | _ => Err Undefined
  end.

(** The [Shift] of the specialisation that ends the template recursion. *)
Definition last_shift (w : Z) : Z := 7 * (w / 7) - (if w =? 64 then 7 else 0).

(** [VariableUnsignedUnchecked<T, Shift>::Read(p, value)]: the value and the
    advanced pointer.  The template recursion has at most ten instances. *)
Fixpoint VariableUnsignedUnchecked_Read (fuel : nat) (m : mem) (w shift : Z)
    (p : ptr) (value : Z) : outcome (Z * ptr) :=
  match fuel with
  | O => Err OutOfFuel
  | S fuel' =>
      olet byte := load_char m w p in
      let p := ptr_add p 1 in
      if shift =? last_shift w then
        let value := wrap w (Z.lor value (Z.shiftl byte shift)) in
        Ok (value, if (w =? 64) && (0x80 <=? byte) then ptr_add p 1 else p)
      else
        let value :=
          if shift =? 0 then Z.land byte 0x7f
          else wrap w (Z.lor value (Z.shiftl (Z.land byte 0x7f) shift)) in
        if 0x80 <=? byte
        then VariableUnsignedUnchecked_Read fuel' m w (shift + 7) p value
        else Ok (value, p)
  end.

(** [static_cast<uint32_t>(ptr - content)]. *)
Definition ptr_diff (p q : ptr) : outcome Z :=
  match p, q with
  | At b o, At b' o' => if decide (b = b') then Ok (o - o') else Err Undefined
  | _, _ => Err Undefined
  end.

(** [ReadVariableUnsigned(T& value)], [T] of [w] bits. *)
Definition ib_ReadVariableUnsigned (w : Z) : M InputBuffer Z :=
  let! s := get in
  if ib_pointer s + w / 8 * 8 / 7 <? blob_length (ib_blob s) then
    let! vp := of_outcome
      (VariableUnsignedUnchecked_Read 10 (ib_mem s) w 0 (current_ptr s) 0) in
    let! d := of_outcome (ptr_diff (snd vp) (blob_content (ib_blob s))) in
    set_pointer (wrap 32 d) ;;;
    ret (fst vp)
  else GenericReadVariableUnsigned ib_Read_u8 w.

(** [GetCurrentBuffer], [CreateInputBuffer], [GetBufferRange]. *)
Definition GetCurrentBuffer (s : InputBuffer) : outcome blob :=
  blob_range_from (ib_blob s) (ib_pointer s).
Definition CreateInputBuffer (other : InputBuffer) (b : blob) : InputBuffer :=
  InputBuffer_of_blob (ib_mem other) b.
Definition GetBufferRange (b e : blob) : outcome blob :=
  blob_range b 0 (wrap 32 (blob_length b - blob_length e)).

(** * The stream it implements *)

(** The bytes not read yet. *)
Definition ib_view (s : InputBuffer) : list byte :=
  match blob_bytes (ib_mem s) (ib_blob s) with
  | Some bs => drop (Z.to_nat (ib_pointer s)) bs
  | None => []
  end.

Definition ib_readable (s : InputBuffer) : Prop :=
  exists bs, blob_ok (ib_mem s) (ib_blob s) bs /\ 0 <= ib_pointer s <= zlen bs.

#[export] Instance InputBuffer_readable : Readable InputBuffer :=
  {| view := ib_view; readable := ib_readable |}.

(** Readers get the representation of a number; it is the same with both branches of
    [Read].  What becomes of a byte read for a [bool] is the reader's part. *)
#[export] Instance InputBuffer_stream : InputStream InputBuffer := {|
  is_Read_bytes := ib_Read_bytes;
  is_Read n := ib_Read true (Sized n);
  is_Skip := ib_Skip;
  is_ReadVariableUnsigned := ib_ReadVariableUnsigned
|}.

Lemma readable_facts s : ib_readable s ->
  fits 32 (blob_length (ib_blob s)) /\ 0 <= ib_pointer s <= blob_length (ib_blob s) /\
  zlen (ib_view s) = blob_length (ib_blob s) - ib_pointer s /\
  wrap 32 (blob_length (ib_blob s) - ib_pointer s) = zlen (ib_view s).
Proof.
  intros (bs & Hb & Hp). pose proof (blob_ok_length _ _ _ Hb) as Hl.
  destruct Hb as [Hf Hb]. unfold ib_view. rewrite Hb, length_drop.
  unfold blob_length, fits in *. rewrite wrap_id by (unfold fits; lia). lia.
Qed.

Lemma view_load s k : ib_readable s -> 0 <= k <= zlen (ib_view s) ->
  load (ib_mem s) (current_ptr s) k = Some (take (Z.to_nat k) (ib_view s)).
Proof.
  intros Hr Hk. pose proof (readable_facts s Hr) as (_ & Hp & Hv & _).
  destruct Hr as (bs & Hb & _). destruct Hb as [Hf Hb].
  unfold ib_view in *. rewrite Hb in *.
  apply (load_range _ _ (_length (ib_blob s))); unfold blob_length in *; try lia.
  exact Hb.
Qed.

(** Moving the position by [k] drops [k] unread bytes. *)
Lemma advance_pointer s k : ib_readable s -> 0 <= k <= zlen (ib_view s) ->
  let s' := mkIB (ib_mem s) (ib_blob s) (wrap 32 (ib_pointer s + k)) in
  ib_readable s' /\ ib_view s' = drop (Z.to_nat k) (ib_view s).
Proof.
  intros Hr Hk. pose proof (readable_facts s Hr) as (Hf & Hp & Hv & _). unfold fits in Hf.
  simpl. rewrite wrap_id by (unfold fits; lia).
  destruct Hr as (bs & Hb & Hpb). pose proof (blob_ok_length _ _ _ Hb) as Hl.
  split.
  - exists bs. simpl. split; [done|]. unfold blob_length in *. lia.
  - destruct Hb as [_ Hb]. unfold ib_view. simpl. rewrite Hb, drop_drop.
    f_equal. lia.
Qed.

(** All fixed-size reads share this shape: check, copy, advance. *)
Lemma guarded_read {A} (n : Z) (f : list byte -> A) s :
  ib_readable s -> fits 32 n ->
  (let! s := get in
   if wrap 32 (blob_length (ib_blob s) - ib_pointer s) <? n then EofException
   else
     let! bs := load_at_pointer n in
     set_pointer (wrap 32 (ib_pointer s + n)) ;;;
     ret (f bs)) s =
  if decide (n <= zlen (ib_view s)) then
    (Ok (f (take (Z.to_nat n) (ib_view s))),
     mkIB (ib_mem s) (ib_blob s) (wrap 32 (ib_pointer s + n)))
  else (Err (Thrown StreamException), s).
Proof.
  intros Hr Hn. pose proof (readable_facts s Hr) as (_ & _ & _ & Hw). unfold fits in Hn.
  rewrite bind_get, Hw. case_decide; zbool; [|done].
  unfold load_at_pointer, set_pointer. rewrite bind_assoc, bind_get.
  rewrite view_load by (done || lia). simpl. mrun. done.
Qed.

Lemma ib_Read_run x86 n s : ib_readable s -> (0 < n <= 8)%nat ->
  ib_Read x86 (Sized n) s =
  if decide (Z.of_nat n <= zlen (ib_view s)) then
    (Ok (of_le (take n (ib_view s))),
     mkIB (ib_mem s) (ib_blob s) (wrap 32 (ib_pointer s + Z.of_nat n)))
  else (Err (Thrown StreamException), s).
Proof.
  intros Hr Hn. assert (Hf : fits 32 (Z.of_nat n)) by (unfold fits; lia).
  pose proof (guarded_read (Z.of_nat n) of_le s Hr Hf) as Hrun. rewrite Nat2Z.id in Hrun.
  rewrite <-Hrun. unfold ib_Read. rewrite !bind_get. cbn [sizeof]. destruct (_ <? _); [done|].
  destruct x86; [|done]. unfold typed_load. rewrite bind_assoc. done.
Qed.

(** [Read(bool&)]: the two branches differ in a byte that is not a [bool]. *)
Lemma ib_Read_bool_run x86 s : ib_readable s ->
  ib_Read x86 Boolean s =
  match ib_view s with
  | [] => (Err (Thrown StreamException), s)
  | b :: _ => if x86 && (1 <? b2z b) then (Err Undefined, s)
              else (Ok (b2z b), mkIB (ib_mem s) (ib_blob s) (wrap 32 (ib_pointer s + 1)))
  end.
Proof.
  intros Hr. pose proof (readable_facts s Hr) as (_ & _ & _ & Hw).
  unfold ib_Read. rewrite bind_get, Hw. cbn [sizeof].
  destruct (ib_view s) as [|b bs] eqn:E; [done|].
  replace (zlen (b :: bs) <? Z.of_nat 1) with false by (symmetry; apply Z.ltb_ge; simpl; lia).
  assert (Hload : load (ib_mem s) (current_ptr s) 1 = Some [b]).
  { rewrite view_load by (done || rewrite E; simpl; lia). by rewrite E. }
  assert (Hle : of_le [b] = b2z b) by apply Z.lor_0_r.
  assert (Hval : is_value Boolean [b] = negb (1 <? b2z b)).
  { unfold is_value. rewrite Hle. apply Z.leb_antisym. }
  destruct x86; cbn [andb]; cbv iota; unfold typed_load, load_at_pointer, set_pointer.
  - rewrite !bind_assoc, bind_get. change (Z.of_nat (sizeof Boolean)) with 1. rewrite Hload. cbn [of_option].
    rewrite bind_ret, Hval. destruct (1 <? b2z b); [done|]. cbn [negb]. mrun. by rewrite Hle.
  - unfold bind, get. cbn [sizeof]. change (Z.of_nat 1) with 1. rewrite Hload. cbn.
    by rewrite Hle.
Qed.

Lemma ib_Read_bytes_run n s : ib_readable s -> fits 32 n ->
  ib_Read_bytes n s =
  if decide (n <= zlen (ib_view s)) then
    (Ok (take (Z.to_nat n) (ib_view s)),
     mkIB (ib_mem s) (ib_blob s) (wrap 32 (ib_pointer s + n)))
  else (Err (Thrown StreamException), s).
Proof. intros Hr Hn. apply (guarded_read n (fun bs => bs)); done. Qed.

Lemma ib_Read_u8_run s : ib_readable s -> ib_Read_u8 s = ib_Read true (Sized 1) s.
Proof.
  intros Hr. pose proof (readable_facts s Hr) as (_ & Hp & Hv & Hw).
  rewrite ib_Read_run by (done || lia). unfold ib_Read_u8. rewrite bind_get.
  case_decide; zbool; [|done].
  unfold load_at_pointer, set_pointer. rewrite bind_assoc, bind_get.
  rewrite view_load by (done || lia). simpl. mrun. done.
Qed.

Lemma ib_Skip_run n s : ib_readable s -> fits 32 n ->
  ib_Skip n s =
  if decide (n <= zlen (ib_view s)) then
    (Ok tt, mkIB (ib_mem s) (ib_blob s) (wrap 32 (ib_pointer s + n)))
  else (Ok tt, s).
Proof.
  intros Hr Hn. pose proof (readable_facts s Hr) as (_ & _ & _ & Hw).
  unfold ib_Skip. rewrite bind_get, Hw. case_decide; zbool; done.
Qed.

(** ** The unchecked variable-length reader *)

(** Sign extension of the byte is harmless: the continuation test and the seven
    value bits are those of the byte itself. *)
Lemma char_facts w b : 8 <= w ->
  let c := wrap w (to_signed 8 (b2z b)) in
  (0x80 <=? c) = (0x80 <=? b2z b) /\ Z.land c 0x7f = b2z b mod 128 /\
  (forall k, 0 <= k <= 8 -> c mod 2 ^ k = b2z b mod 2 ^ k) /\ 0 <= c.
Proof.
  intros Hw. pose proof (b2z_range b) as Hb. cbv zeta.
  assert (Hp : 2 ^ 8 <= 2 ^ w) by (apply Z.pow_le_mono_r; lia). change (2 ^ 8) with 256 in Hp.
  assert (Hc : wrap w (to_signed 8 (b2z b)) =
    if b2z b <? 128 then b2z b else 2 ^ w - 256 + b2z b).
  { unfold to_signed. rewrite (wrap_id 8) by (unfold fits; lia).
    change (2 ^ (8 - 1)) with 128. change (2 ^ 8) with 256.
    case_match eqn:E; [apply Z.ltb_lt in E; apply wrap_id; unfold fits; lia|].
    apply Z.ltb_ge in E. unfold wrap. symmetry.
    apply (Z.mod_unique_pos _ _ (-1)); lia. }
  assert (Hmod : forall k, 0 <= k <= 8 ->
    wrap w (to_signed 8 (b2z b)) mod 2 ^ k = b2z b mod 2 ^ k).
  { intros k Hk. rewrite Hc. case_match; [done|].
    assert (Hd : exists q, 2 ^ w - 256 = q * 2 ^ k).
    { exists (2 ^ (w - k) - 2 ^ (8 - k)). rewrite Z.mul_sub_distr_r, <-!Z.pow_add_r by lia.
      f_equal; [f_equal; lia|]. replace (8 - k + k) with 8 by lia. done. }
    destruct Hd as [q ->]. rewrite Z.add_comm, Z.mod_add by lia. done. }
  split_and!; [|change 0x7f with (Z.ones 7); rewrite Z.land_ones by lia; apply (Hmod 7); lia
    |done|rewrite Hc; case_match; lia].
  rewrite Hc. case_match eqn:E.
  - by apply Z.ltb_lt in E.
  - apply Z.ltb_ge in E. by zbool.
Qed.

Lemma lor_group v x s : 0 <= s -> 0 <= v < 2 ^ s ->
  Z.lor v (Z.shiftl x s) = v + x * 2 ^ s.
Proof.
  intros Hs Hv. rewrite <-Z.shiftl_mul_pow2 by done. symmetry.
  apply Z.add_nocarry_lor. apply Z.bits_inj'. intros i Hi.
  rewrite Z.land_spec, Z.bits_0, Z.shiftl_spec by lia.
  destruct (Z.lt_ge_cases i s).
  - rewrite (Z.testbit_neg_r x) by lia. apply andb_false_r.
  - rewrite <-(Z.mod_small v (2 ^ s)) by lia. by rewrite Z.mod_pow2_bits_high by lia.
Qed.

Lemma wrap_group w s v x : 0 <= s <= w -> 0 <= v < 2 ^ s ->
  wrap w (v + x * 2 ^ s) = v + (x mod 2 ^ (w - s)) * 2 ^ s.
Proof.
  intros Hs Hv. unfold wrap.
  assert (Hp : 2 ^ w = 2 ^ (w - s) * 2 ^ s) by (rewrite <-Z.pow_add_r by lia; f_equal; lia).
  pose proof (Z.div_mod x (2 ^ (w - s)) ltac:(lia)) as Hdm.
  pose proof (Z.mod_pos_bound x (2 ^ (w - s)) ltac:(lia)).
  symmetry. apply (Z.mod_unique_pos _ _ (x / 2 ^ (w - s))); nia.
Qed.

(** One step of the reader on a byte [b]. *)
Lemma unchecked_step fuel m w shift p value b :
  8 <= w -> load m p 1 = Some [b] ->
  0 <= shift <= w -> 0 <= value < 2 ^ shift ->
  (shift <> last_shift w -> shift + 7 <= w) ->
  (shift = last_shift w -> w - shift <= 8) ->
  VariableUnsignedUnchecked_Read (S fuel) m w shift p value =
    if shift =? last_shift w then
      Ok (value + (b2z b mod 2 ^ (w - shift)) * 2 ^ shift,
          if (w =? 64) && (0x80 <=? b2z b) then ptr_add p 2 else ptr_add p 1)
    else
      let value' := value + (b2z b mod 128) * 2 ^ shift in
      if 0x80 <=? b2z b
      then VariableUnsignedUnchecked_Read fuel m w (shift + 7) (ptr_add p 1) value'
      else Ok (value', ptr_add p 1).
Proof.
  intros Hw Hl Hs Hv H7 Hlast. simpl. unfold load_char. rewrite Hl. simpl.
  destruct (char_facts w b Hw) as (-> & -> & Hmod & Hpos).
  rewrite ptr_add_add. case_match eqn:E.
  - apply Z.eqb_eq in E. rewrite lor_group, wrap_group, Hmod by (done || lia).
    change (1 + 1) with 2. done.
  - apply Z.eqb_neq in E. specialize (H7 E).
    assert (Hval : (if shift =? 0 then b2z b mod 128
      else wrap w (Z.lor value (Z.shiftl (b2z b mod 128) shift))) =
      value + (b2z b mod 128) * 2 ^ shift).
    { pose proof (Z.mod_pos_bound (b2z b) 128 ltac:(lia)).
      case_match eqn:E0.
      - apply Z.eqb_eq in E0 as ->. change (2 ^ 0) with 1 in *. lia.
      - rewrite lor_group, wrap_group by lia.
        rewrite (Z.mod_small (b2z b mod 128)); [done|].
        assert (2 ^ 7 <= 2 ^ (w - shift)) by (apply Z.pow_le_mono_r; lia).
        change (2 ^ 7) with 128 in *. lia. }
    rewrite Hval. done.
Qed.

(** The geometry of the template recursion: shifts are multiples of 7 up to
    [last_shift]. *)
Lemma last_shift_facts w : var_width w ->
  last_shift w mod 7 = 0 /\ last_shift w < w /\ w - last_shift w <= 8 /\
  (w = 64 -> w - last_shift w = 8) /\ 0 <= last_shift w.
Proof. by intros [->|[->| ->]]. Qed.

Lemma load_cons m p b bs :
  load m p (zlen (b :: bs)) = Some (b :: bs) ->
  load m p 1 = Some [b] /\ load m (ptr_add p 1) (zlen bs) = Some bs.
Proof.
  intros Hl. simpl in Hl.
  destruct (load_split m p (Z.of_nat (S (length bs))) 1 (b :: bs)) as [H1 H2]; [lia|done|].
  split; [done|]. replace (Z.of_nat (S (length bs)) - 1) with (zlen bs) in H2 by lia. done.
Qed.

Lemma unchecked_reads n fuel w m z shift p value :
  var_width w -> shift mod 7 = 0 -> 0 <= shift <= last_shift w -> 0 <= value < 2 ^ shift ->
  0 <= z < 2 ^ (7 * Z.of_nat n) -> value + z * 2 ^ shift < 2 ^ w -> (0 < n <= fuel)%nat ->
  load m p (zlen (varint_enc n z)) = Some (varint_enc n z) ->
  VariableUnsignedUnchecked_Read fuel m w shift p value =
    Ok (value + z * 2 ^ shift, ptr_add p (zlen (varint_enc n z))).
Proof.
  intros Hw. destruct (last_shift_facts w Hw) as (L7 & Llt & L8 & L64 & L0).
  revert fuel z shift p value.
  induction n as [|n IH]; intros [|fuel] z shift p value Hs7 Hs Hv Hz Hlt Hn Hl; try lia.
  assert (H7 : shift <> last_shift w -> shift + 7 <= last_shift w).
  { intros. pose proof (Z.div_mod shift 7 ltac:(lia)).
    pose proof (Z.div_mod (last_shift w) 7 ltac:(lia)). lia. }
  assert (Hpw : 2 ^ w = 2 ^ (w - shift) * 2 ^ shift)
    by (rewrite <-Z.pow_add_r by lia; f_equal; lia).
  assert (Hzs : z < 2 ^ (w - shift)) by nia.
  rewrite varint_enc_S in *. case_match eqn:E128.
  - apply Z.ltb_lt in E128. destruct (low_byte z ltac:(lia)) as [Eb _].
    rewrite (unchecked_step _ _ _ _ _ _ (z2b z)) by (unfold var_width in *; done || lia).
    rewrite Eb. rewrite (Z.mod_small z (2 ^ (w - shift))) by lia.
    rewrite (Z.mod_small z 128) by lia. zbool. rewrite andb_false_r.
    simpl length. change (Z.of_nat 1) with 1. by case_match.
  - apply Z.ltb_ge in E128. destruct (high_bit_byte z ltac:(lia)) as [Eb _].
    pose proof (Z.mod_pos_bound z 128 ltac:(lia)) as Hm.
    pose proof (Z.div_mod z 128 ltac:(lia)) as Hdm.
    assert (0 < z / 128) by (apply Z.div_str_pos; lia).
    destruct (load_cons _ _ _ _ Hl) as [Hl1 Hl2].
    rewrite (unchecked_step _ _ _ _ _ _ (z2b (z mod 128 + 128)))
      by (unfold var_width in *; done || lia).
    rewrite Eb. zbool.
    replace ((z mod 128 + 128) mod 128) with (z mod 128)
      by (rewrite <-(Z.mul_1_l 128) at 3; rewrite Z.mod_add, Z.mod_mod by lia; done).
    case_match eqn:El.
    + (* only a 64-bit value reaches the last shift with a continuation bit *)
      apply Z.eqb_eq in El.
      assert (w = 64) as ->.
      { destruct Hw as [->|[->| ->]]; [| |done]; rewrite El in Hzs.
        - change (2 ^ (16 - last_shift 16)) with 4 in Hzs. lia.
        - change (2 ^ (32 - last_shift 32)) with 16 in Hzs. lia. }
      rewrite El in Hzs |- *. rewrite L64 in Hzs |- * by done. change (2 ^ 8) with 256 in *.
      assert (z / 128 = 1) as Hq by lia.
      rewrite (Z.mod_small (_ + 128)) by lia. simpl andb. cbv iota.
      f_equal. f_equal; [f_equal; lia|]. f_equal. rewrite Hq.
      destruct n as [|n]; [simpl in *; lia|]. by rewrite varint_enc_S.
    + apply Z.eqb_neq in El. specialize (H7 El).
      rewrite Nat2Z.inj_succ, <-Z.add_1_l in Hz. pose proof (div128_lt _ _ Hz).
      assert (Hp7 : 2 ^ (shift + 7) = 2 ^ shift * 128) by (rewrite Z.pow_add_r by lia; done).
      cbv zeta. rewrite (IH fuel (z / 128)); [|try done..].
      * rewrite Hp7, ptr_add_add. f_equal. f_equal; [nia|]. f_equal. simpl length. lia.
      * rewrite <-Z.add_mod_idemp_r by lia. change (7 mod 7) with 0. by rewrite Z.add_0_r.
      * lia.
      * rewrite Hp7. nia.
      * rewrite Hp7. nia.
      * destruct n; simpl in *; lia.
Qed.

(** On arbitrary bytes the unchecked reader stays within [w / 7 + 1] of them. *)
Lemma unchecked_total fuel w m shift p value bs :
  var_width w -> shift mod 7 = 0 -> 0 <= shift <= last_shift w -> 0 <= value < 2 ^ shift ->
  last_shift w - shift < 7 * Z.of_nat fuel ->
  load m p ((w - shift) / 7 + 1) = Some bs ->
  exists v k, VariableUnsignedUnchecked_Read fuel m w shift p value = Ok (v, ptr_add p k) /\
    fits w v /\ 1 <= k <= (w - shift) / 7 + 1.
Proof.
  intros Hw. destruct (last_shift_facts w Hw) as (L7 & Llt & L8 & L64 & L0).
  revert shift p value bs.
  induction fuel as [|fuel IH]; intros shift p value bs Hs7 Hs Hv Hf Hl; [simpl in Hf; lia|].
  assert (Hq : 0 <= (w - shift) / 7) by (apply Z.div_pos; lia).
  assert (H7 : shift <> last_shift w -> shift + 7 <= last_shift w).
  { intros. pose proof (Z.div_mod shift 7 ltac:(lia)).
    pose proof (Z.div_mod (last_shift w) 7 ltac:(lia)). lia. }
  destruct (load_split m p ((w - shift) / 7 + 1) 1 bs ltac:(lia) Hl) as [H1 H2].
  assert (Hlen : zlen (take (Z.to_nat 1) bs) = 1) by (eapply length_load; [lia|done]).
  destruct (take (Z.to_nat 1) bs) as [|b [|]]; simpl in Hlen; try lia.
  rewrite (unchecked_step _ _ _ _ _ _ b) by (unfold var_width in *; done || lia).
  pose proof (Z.mod_pos_bound (b2z b) 128 ltac:(lia)).
  case_match eqn:El.
  - apply Z.eqb_eq in El.
    exists (value + b2z b mod 2 ^ (w - shift) * 2 ^ shift),
      (if (w =? 64) && (0x80 <=? b2z b) then 2 else 1).
    assert (Hpw : 2 ^ w = 2 ^ (w - shift) * 2 ^ shift)
      by (rewrite <-Z.pow_add_r by lia; f_equal; lia).
    pose proof (Z.mod_pos_bound (b2z b) (2 ^ (w - shift)) ltac:(lia)).
    split_and!; [by case_match|unfold fits; nia|by case_match|].
    case_match eqn:E64; [|lia]. apply andb_true_iff in E64 as [E64%Z.eqb_eq _].
    rewrite El, L64 by done. change (8 / 7) with 1. lia.
  - apply Z.eqb_neq in El. specialize (H7 El). cbv zeta.
    assert (Hp7 : 2 ^ (shift + 7) = 2 ^ shift * 128) by (rewrite Z.pow_add_r by lia; done).
    assert (Hv' : 0 <= value + b2z b mod 128 * 2 ^ shift < 2 ^ (shift + 7)) by (rewrite Hp7; nia).
    case_match.
    + replace ((w - shift) / 7) with ((w - (shift + 7)) / 7 + 1) in *
        by (rewrite <-Z.div_add by lia; f_equal; lia).
      rewrite Z.add_simpl_r in H2.
      destruct (IH (shift + 7) (ptr_add p 1) _ _ ltac:(rewrite <-Z.add_mod_idemp_r, Z.add_0_r;
        lia) ltac:(lia) Hv' ltac:(lia) H2) as (v & k & E & Hfv & Hk).
      exists v, (1 + k). rewrite E, ptr_add_add. split_and!; [done|done|lia|lia].
    + exists (value + b2z b mod 128 * 2 ^ shift), 1. split_and!; [done| |lia|lia].
      assert (2 ^ (shift + 7) <= 2 ^ w) by (apply Z.pow_le_mono_r; lia). unfold fits. lia.
Qed.

(** ** Laws *)

Lemma take_app_view s bs rest : ib_view s = bs ++ rest ->
  take (length bs) (ib_view s) = bs /\ drop (length bs) (ib_view s) = rest.
Proof. intros ->. by rewrite take_app_length, drop_app_length. Qed.

Lemma ib_Read_reads x86 n bs : length bs = n -> (0 < n <= 8)%nat ->
  reads (ib_Read x86 (Sized n)) bs (of_le bs).
Proof.
  intros Hn Hr s rest Hok Hv. rewrite ib_Read_run by done.
  change (view s) with (ib_view s) in Hv.
  destruct (take_app_view _ _ _ Hv) as [Ht Hd].
  assert (Hle : Z.of_nat n <= zlen (ib_view s)) by (rewrite Hv, length_app; lia).
  rewrite decide_True by done.
  destruct (advance_pointer s (Z.of_nat n) Hok ltac:(lia)) as [Ho Hv'].
  rewrite Nat2Z.id in Hv'. subst n. rewrite Ht.
  eexists; split; [done|]. split; [by rewrite <-Hd|done].
Qed.

Lemma ib_Read_bytes_reads bs : zlen bs < 2 ^ 32 -> reads (ib_Read_bytes (zlen bs)) bs bs.
Proof.
  intros Hn s rest Hok Hv. rewrite ib_Read_bytes_run by (unfold fits; done || lia).
  change (view s) with (ib_view s) in Hv.
  destruct (take_app_view _ _ _ Hv) as [Ht Hd].
  assert (Hle : zlen bs <= zlen (ib_view s)) by (rewrite Hv, length_app; lia).
  rewrite decide_True by done.
  destruct (advance_pointer s (zlen bs) Hok ltac:(lia)) as [Ho Hv'].
  rewrite Nat2Z.id in *. rewrite Ht.
  eexists; split; [done|]. split; [by rewrite <-Hd|done].
Qed.

Lemma ib_Skip_reads bs : zlen bs < 2 ^ 32 -> reads (ib_Skip (zlen bs)) bs tt.
Proof.
  intros Hn s rest Hok Hv. rewrite ib_Skip_run by (unfold fits; done || lia).
  change (view s) with (ib_view s) in Hv.
  destruct (take_app_view _ _ _ Hv) as [_ Hd].
  assert (Hle : zlen bs <= zlen (ib_view s)) by (rewrite Hv, length_app; lia).
  rewrite decide_True by done.
  destruct (advance_pointer s (zlen bs) Hok ltac:(lia)) as [Ho Hv'].
  rewrite Nat2Z.id in *. eexists; split; [done|]. split; [by rewrite <-Hd|done].
Qed.

Lemma advances_run {A} (m : M InputBuffer A) n :
  0 <= n ->
  (forall s, ib_readable s ->
     (exists a, m s = (Ok a, mkIB (ib_mem s) (ib_blob s) (wrap 32 (ib_pointer s + n))) /\
        n <= zlen (ib_view s)) \/ (exists e, m s = (Err e, s))) ->
  advances m n.
Proof.
  intros Hn Hm s Hok. destruct (Hm s Hok) as [(a & -> & Hle)|[e ->]].
  - destruct (advance_pointer s n Hok ltac:(lia)) as [Ho Hv].
    exists (Z.to_nat n). simpl. split_and!; [done|done|]. intros _ _. simpl. lia.
  - exists 0%nat. simpl. by rewrite drop_0.
Qed.

Lemma ib_Read_advances x86 n : (0 < n <= 8)%nat -> advances (ib_Read x86 (Sized n)) (Z.of_nat n).
Proof.
  intros Hn. apply advances_run; [lia|]. intros s Hok. rewrite ib_Read_run by done.
  case_decide; eauto.
Qed.

Lemma ib_Read_bytes_advances n : fits 32 n -> advances (ib_Read_bytes n) n.
Proof.
  intros Hn. apply advances_run; [unfold fits in Hn; lia|]. intros s Hok.
  rewrite ib_Read_bytes_run by done. case_decide; eauto.
Qed.

Lemma ib_Skip_advances n : fits 32 n -> advances (ib_Skip n) 0.
Proof.
  intros Hn s Hok. rewrite ib_Skip_run by done. unfold fits in Hn. case_decide.
  - destruct (advance_pointer s n Hok ltac:(lia)) as [Ho Hv].
    exists (Z.to_nat n). simpl. split_and!; [done|done|]. intros _ _. simpl. lia.
  - exists 0%nat. simpl. rewrite drop_0. split_and!; [done|done|lia].
Qed.

Lemma ib_Read_u8_reads b : reads ib_Read_u8 [b] (b2z b).
Proof.
  intros s rest Hok Hv. rewrite ib_Read_u8_run by done.
  replace (b2z b) with (of_le [b]) by apply LittleEndianList.le_combine_1.
  by apply (ib_Read_reads true 1 [b]); [|lia|..].
Qed.

Lemma ib_Read_u8_advances : advances ib_Read_u8 1.
Proof.
  intros s Hok. destruct (ib_Read_advances true 1 ltac:(lia) s Hok) as (j & H1 & H2 & H3).
  exists j. by rewrite ib_Read_u8_run by done.
Qed.

Lemma generic_loop_advances fuel w value shift :
  advances (generic_read_loop ib_Read_u8 fuel w value shift) 1.
Proof.
  revert value shift. induction fuel as [|fuel IH]; intros value shift; simpl.
  { apply advances_fail. }
  apply (advances_bind _ _ 1 0); [apply ib_Read_u8_advances|]. intros b. cbv zeta.
  case_match; [apply advances_fail|]. case_match; [|apply advances_ret].
  eapply advances_weaken; [|apply IH]. lia.
Qed.

Lemma generic_loop_fits fuel w value shift s z s' :
  0 < w -> generic_read_loop ib_Read_u8 fuel w value shift s = (Ok z, s') -> fits w z.
Proof.
  intros Hw. revert value shift s. induction fuel as [|fuel IH]; intros value shift s; [done|].
  simpl. intros Hr. minv Hr. cbv zeta in Hr. case_match; [done|]. case_match; [by eapply IH|].
  injection Hr as <- <-. apply wrap_fits. lia.
Qed.

(** With [w / 7 + 1] unread bytes the fast path runs, and it is the generic
    code's result on every well-formed encoding. *)
Lemma ib_Var_fast s w bs v k : ib_readable s -> var_width w ->
  ib_pointer s + w / 8 * 8 / 7 < blob_length (ib_blob s) ->
  load (ib_mem s) (current_ptr s) (w / 7 + 1) = Some bs ->
  VariableUnsignedUnchecked_Read 10 (ib_mem s) w 0 (current_ptr s) 0 =
    Ok (v, ptr_add (current_ptr s) k) ->
  ib_ReadVariableUnsigned w s =
    (Ok v, mkIB (ib_mem s) (ib_blob s) (wrap 32 (ib_pointer s + k))).
Proof.
  intros Hok Hw Hlt Hl Hr. unfold ib_ReadVariableUnsigned. rewrite bind_get. zbool.
  rewrite (bind_of_outcome_ok _ _ _ _ Hr). unfold current_ptr, blob_content in *.
  destruct (_content (ib_blob s)) as [|b o] eqn:Hc.
  - unfold load in Hl. simpl in Hl. case_decide as Hz; [|done].
    unfold var_width in Hw. destruct Hw as [->|[->| ->]]; vm_compute in Hz; done.
  - simpl. rewrite decide_True by done.
    rewrite (bind_of_outcome_ok _ _ _ _ eq_refl). unfold set_pointer. mrun.
    unfold ret. repeat f_equal. lia.
Qed.

Lemma fast_guard s w : ib_readable s -> var_width w ->
  ib_pointer s + w / 8 * 8 / 7 < blob_length (ib_blob s) ->
  w / 7 + 1 <= zlen (ib_view s).
Proof.
  intros Hok Hw Hlt. pose proof (readable_facts s Hok) as (_ & _ & -> & _).
  replace (w / 8 * 8 / 7) with (w / 7) in Hlt; [lia|].
  by destruct Hw as [->|[->| ->]].
Qed.

Lemma ib_Var_reads w z : var_width w -> fits w z ->
  reads (ib_ReadVariableUnsigned w) (varint z) z.
Proof.
  intros Hw Hz s rest Hok Hv.
  destruct (decide (ib_pointer s + w / 8 * 8 / 7 < blob_length (ib_blob s))) as [Hlt|Hge].
  - pose proof (fast_guard s w Hok Hw Hlt) as Hroom.
    change (view s) with (ib_view s) in Hv.
    destruct (take_app_view _ _ _ Hv) as [Ht Hd].
    assert (Hw0 : 0 < w <= 64) by (unfold var_width in Hw; lia).
    assert (0 <= w / 7) by (apply Z.div_pos; lia).
    pose proof (varint_length_le w z Hw Hz) as Hvl.
    pose proof (fits_weaken w 64 z ltac:(lia) Hz) as Hz64. unfold fits in *.
    assert (Hr : VariableUnsignedUnchecked_Read 10 (ib_mem s) w 0 (current_ptr s) 0 =
      Ok (0 + z * 2 ^ 0, ptr_add (current_ptr s) (zlen (varint_enc 10 z)))).
    { destruct (last_shift_facts w Hw) as (_ & _ & _ & _ & L0).
      apply (unchecked_reads 10); try done; try lia.
      fold (varint z). rewrite view_load, Nat2Z.id by (done || lia). by rewrite Ht. }
    fold (varint z) in Hr. change (2 ^ 0) with 1 in Hr. rewrite Z.mul_1_r, Z.add_0_l in Hr.
    rewrite (ib_Var_fast s w _ _ _ Hok Hw Hlt (view_load s (w / 7 + 1) Hok ltac:(lia)) Hr).
    destruct (advance_pointer s (zlen (varint z)) Hok ltac:(lia)) as [Ho Hv'].
    rewrite Nat2Z.id in Hv'. eexists; split; [done|]. split; [by rewrite <-Hd|done].
  - unfold ib_ReadVariableUnsigned. rewrite bind_get. zbool.
    by apply (generic_read_reads ib_Read_u8 ib_Read_u8_reads w z Hw Hz).
Qed.

Lemma ib_Var_cases w s : var_width w -> ib_readable s ->
  (exists v k, ib_ReadVariableUnsigned w s =
      (Ok v, mkIB (ib_mem s) (ib_blob s) (wrap 32 (ib_pointer s + k))) /\
      fits w v /\ 1 <= k <= zlen (ib_view s)) \/
  ib_ReadVariableUnsigned w s = GenericReadVariableUnsigned ib_Read_u8 w s /\
  zlen (ib_view s) <= w / 7.
Proof.
  intros Hw Hok.
  destruct (decide (ib_pointer s + w / 8 * 8 / 7 < blob_length (ib_blob s))) as [Hlt|Hge].
  - left. pose proof (fast_guard s w Hok Hw Hlt) as Hroom.
    assert (Hw0 : 0 < w <= 64) by (unfold var_width in Hw; lia).
    assert (0 <= w / 7) by (apply Z.div_pos; lia).
    pose proof (view_load s (w / 7 + 1) Hok ltac:(lia)) as Hl.
    destruct (last_shift_facts w Hw) as (_ & _ & _ & _ & L0).
    destruct (unchecked_total 10 w (ib_mem s) 0 (current_ptr s) 0 _ Hw eq_refl
      ltac:(lia) ltac:(done) ltac:(by destruct Hw as [->|[->| ->]])
      ltac:(rewrite Z.sub_0_r; exact Hl)) as (v & k & Hr & Hf & Hk).
    rewrite Z.sub_0_r in Hk. exists v, k. split_and!; [|done|lia|lia].
    by eapply ib_Var_fast.
  - right. unfold ib_ReadVariableUnsigned. rewrite bind_get.
    pose proof (readable_facts s Hok) as (_ & _ & -> & _).
    replace (w / 8 * 8 / 7) with (w / 7) in * by (by destruct Hw as [->|[->| ->]]).
    zbool. split; [done|lia].
Qed.

Lemma ib_Var_advances w : var_width w -> advances (ib_ReadVariableUnsigned w) 1.
Proof.
  intros Hw s Hok. destruct (ib_Var_cases w s Hw Hok) as [(v & k & -> & Hf & Hk)|[E _]].
  - destruct (advance_pointer s k Hok ltac:(lia)) as [Ho Hv].
    exists (Z.to_nat k). simpl. split_and!; [done|done|]. intros _ _. simpl. lia.
  - rewrite E. by apply generic_loop_advances.
Qed.

Lemma ib_Var_fits w s z s' : var_width w -> ib_readable s ->
  ib_ReadVariableUnsigned w s = (Ok z, s') -> fits w z.
Proof.
  intros Hw Hok Hr. destruct (ib_Var_cases w s Hw Hok) as [(v & k & E & Hf & _)|[E _]].
  - rewrite E in Hr. by injection Hr as <- <-.
  - rewrite E in Hr. eapply generic_loop_fits; [|done]. unfold var_width in Hw. lia.
Qed.

(** ** Safety *)

(** The command ends normally or with the end-of-stream exception; the buffer
    stays readable either way. *)
Definition safe {A} (m : M InputBuffer A) (s : InputBuffer) : Prop :=
  ib_readable (snd (m s)) /\
  match fst (m s) with Ok _ => True | Err e => e = Thrown StreamException end.

(** The generic loop is entered only with at most [w / 7] unread bytes, so it
    meets the end of the stream before its shift count leaves the operand. *)
Lemma generic_loop_safe fuel w value shift s :
  0 < w -> ib_readable s -> 0 <= shift ->
  shift + 7 * zlen (ib_view s) <= 7 * (w / 7) -> zlen (ib_view s) < Z.of_nat fuel ->
  safe (generic_read_loop ib_Read_u8 fuel w value shift) s.
Proof.
  intros Hw. revert value shift s.
  induction fuel as [|fuel IH]; intros value shift s Hok Hs Hv Hf; [lia|].
  unfold safe. simpl. unfold bind.
  destruct (ib_Read_u8_advances s Hok) as (j & Ho & Hvw & Hj).
  rewrite ib_Read_u8_run, ib_Read_run in * by (done || lia).
  case_decide as Hlen; [|done]. simpl in *.
  destruct (Hj _ eq_refl) as [Hj1 Hj2].
  pose proof (Z.mul_div_le w 7 ltac:(lia)).
  assert (Hsh : shift < promoted w) by (unfold promoted; lia). zbool.
  case_match; [|done].
  set (s1 := mkIB _ _ _) in *. change (view s1) with (ib_view s1) in Hvw.
  assert (Hview : zlen (ib_view s1) < zlen (ib_view s))
    by (rewrite Hvw, length_drop; simpl; lia).
  apply IH; [done|lia|lia|lia].
Qed.

Lemma ib_Var_safe w s : var_width w -> ib_readable s -> safe (ib_ReadVariableUnsigned w) s.
Proof.
  intros Hw Hok.
  split; [by destruct (ib_Var_advances w Hw s Hok) as (j & ? & _)|].
  destruct (ib_Var_cases w s Hw Hok) as [(v & k & -> & _)|[-> Hlen]]; [done|].
  assert (w / 7 < 11) by (by destruct Hw as [->|[->| ->]]).
  apply (generic_loop_safe 11 w 0 0 s); [unfold var_width in Hw; lia|done|lia..].
Qed.

Lemma advances_safely {A} (m : M InputBuffer A) n k :
  advances m k ->
  (forall s, ib_readable s ->
     match fst (m s) with Ok _ => True | Err e => e = Thrown StreamException end) ->
  safely n k m.
Proof.
  intros Ha He s Hok _. destruct (Ha s Hok) as (j & Ho & Hv & Hj). exists j.
  split_and!; [done..|]. specialize (He s Hok).
  destruct (fst (m s)) as [a|e]; [by apply (Hj a)|by exists StreamException].
Qed.

#[export] Instance InputBuffer_laws : InputStreamLaws InputBuffer.
Proof.
  split; simpl.
  - apply ib_Read_reads.
  - apply ib_Read_bytes_reads.
  - apply ib_Skip_reads.
  - apply ib_Var_reads.
  - intros n k Hn. eapply advances_safely; [by apply ib_Read_advances|].
    intros s Hok. rewrite ib_Read_run by done. by case_decide.
  - intros n k Hn. eapply advances_safely; [by apply ib_Read_bytes_advances|].
    intros s Hok. rewrite ib_Read_bytes_run by done. by case_decide.
  - intros n k Hn. eapply advances_safely; [by apply ib_Skip_advances|].
    intros s Hok. rewrite ib_Skip_run by done. by case_decide.
  - intros w k Hw. eapply advances_safely; [by apply ib_Var_advances|].
    intros s Hok. by apply (ib_Var_safe w s Hw Hok).
  - apply ib_Var_fits.
  - intros n s Hn Hok Hlt. rewrite ib_Read_run by done. by rewrite decide_False by lia.
  - intros n s Hn Hok Hlt. rewrite ib_Skip_run by done. by rewrite decide_False by lia.
Qed.

(** C10: the memory safety of the input buffer.  On a readable buffer, whatever the bytes, each read of
    a number (with the typed load as with [memcpy]), of a block, of a blob, each skip and each
    variable-length read (fast path included) ends normally or throws the end-of-stream
    exception, and the buffer can be used further.  The exception is [Read(bool&)] with the
    typed load of x86: it is undefined exactly when the next byte is neither 0 nor 1, and
    with [memcpy] the variable gets that byte. *)
Theorem input_buffer_safe s x86 n size w :
  ib_readable s -> (0 < n <= 8)%nat -> fits 32 size -> var_width w ->
  safe ib_Read_u8 s /\ safe (ib_Read x86 (Sized n)) s /\ safe (ib_Read_bytes size) s /\
  safe (ib_Read_blob size) s /\ safe (ib_Skip size) s /\ safe (ib_ReadVariableUnsigned w) s /\
  match ib_view s with
  | b :: _ => if x86 && (1 <? b2z b) then fst (ib_Read x86 Boolean s) = Err Undefined
              else safe (ib_Read x86 Boolean) s /\ fst (ib_Read x86 Boolean s) = Ok (b2z b)
  | [] => safe (ib_Read x86 Boolean) s
  end.
Proof.
  intros Hok Hn Hsz Hw. pose proof (readable_facts s Hok) as (Hf & Hp & Hv & Hwr).
  assert (Hread : forall x86 n, (0 < n <= 8)%nat -> safe (ib_Read x86 (Sized n)) s).
  { intros y k Hk. split; [|rewrite ib_Read_run by done; by case_decide].
    by destruct (ib_Read_advances y k Hk s Hok) as (j & ? & _). }
  split_and!.
  - unfold safe. rewrite ib_Read_u8_run by done. apply Hread. lia.
  - by apply Hread.
  - split; [|rewrite ib_Read_bytes_run by done; by case_decide].
    by destruct (ib_Read_bytes_advances size Hsz s Hok) as (j & ? & _).
  - unfold safe, ib_Read_blob. rewrite bind_get, Hwr. case_match eqn:E; [done|].
    apply Z.ltb_ge in E. unfold blob_length, fits in *.
    assert (Hb : blob_assign (ib_blob s) (ib_pointer s) size =
      Ok (mkBlob (_buffer (ib_blob s)) (ptr_add (_content (ib_blob s)) (ib_pointer s)) size)).
    { unfold blob_assign. rewrite checked_add_ok, decide_True by (unfold fits; lia).
      simpl. by zbool. }
    rewrite (bind_of_outcome_ok _ _ _ _ Hb). unfold set_pointer. mrun. simpl.
    by destruct (advance_pointer s size Hok ltac:(lia)).
  - split; [|rewrite ib_Skip_run by done; by case_decide].
    by destruct (ib_Skip_advances size Hsz s Hok) as (j & ? & _).
  - by apply ib_Var_safe.
  - pose proof (ib_Read_bool_run x86 s Hok) as Hb. unfold safe. rewrite Hb.
    destruct (ib_view s) as [|b bs] eqn:E; [done|]. destruct (x86 && _); [done|]. cbn [fst snd].
    split_and!; [|done..]. apply (advance_pointer s 1 Hok). rewrite E. simpl. lia.
Qed.

Definition three_bytes : InputBuffer :=
  mkIB [mkBlock 4096 (Some <$> [Byte.xff; Byte.xff; Byte.xff])]
    (mkBlob (At 0 0) (At 0 0) 3) 0.

Lemma three_bytes_readable : ib_readable three_bytes.
Proof. exists [Byte.xff; Byte.xff; Byte.xff]. by repeat split; vm_compute. Qed.

Lemma input_buffer_safe_witness :
  ib_ReadVariableUnsigned 64 three_bytes =
    (Err (Thrown StreamException), mkIB (ib_mem three_bytes) (ib_blob three_bytes) 3) /\
  safe (ib_ReadVariableUnsigned 64) three_bytes.
Proof.
  split; [by vm_compute|].
  apply (input_buffer_safe three_bytes true 1 0 64 three_bytes_readable); [lia|by vm_compute|].
  by right; right.
Defined.

(** A variable-length integer written by any of the writers is read back by
    [InputBuffer], on the unchecked fast path or byte by byte near the end of the
    buffer, and exactly its bytes are consumed. *)
Lemma input_buffer_reads_varint s w z rest :
  ib_readable s -> var_width w -> fits w z -> ib_view s = varint z ++ rest ->
  exists s', ib_ReadVariableUnsigned w s = (Ok z, s') /\ ib_view s' = rest /\
    ib_readable s'.
Proof. intros Hok Hw Hz Hv. by apply (ib_Var_reads w z Hw Hz s rest). Qed.

Definition buffer_of (bs : list byte) : InputBuffer :=
  mkIB [mkBlock 4096 (Some <$> bs)] (mkBlob (At 0 0) (At 0 0) (zlen bs)) 0.

Lemma buffer_of_readable bs : zlen bs < 2 ^ 32 ->
  ib_readable (buffer_of bs) /\ ib_view (buffer_of bs) = bs.
Proof.
  intros Hl. pose proof (load_whole [] 4096 bs) as Hw. simpl in Hw.
  split.
  - exists bs. simpl. split; [split; [unfold fits; simpl; lia|done]|]. lia.
  - unfold ib_view, blob_bytes. simpl. by rewrite Hw.
Qed.

Lemma input_buffer_reads_varint_witness :
  exists s', ib_ReadVariableUnsigned 32 (buffer_of (varint 624485 ++ [Byte.x07])) =
    (Ok 624485, s') /\ ib_view s' = [Byte.x07].
Proof.
  destruct (buffer_of_readable (varint 624485 ++ [Byte.x07])) as [H1 H2]; [by vm_compute|].
  destruct (input_buffer_reads_varint _ 32 624485 [Byte.x07] H1) as (s' & E & V & _);
    [by right; left|by vm_compute|done|].
  by exists s'.
Defined.
