(* ===== verification/OutputBuffer.v ===== *)
(** Memory-backed output stream (cpp/inc/bond/stream/output_buffer.h).

    [OutputMemoryStream] fills a buffer through a movable range, chains finished
    ranges and large user blobs without copying them, and grows by half.  The
    chained blobs alias the buffer that is still being written and memory the
    caller owns, so the model works on the shared store.  The abstract
    specification is a byte string that every write extends. *)

From S2P Require Import Prelude Checked Memory Blob Streams Encoding.

(** The members (the allocator is a parameter), and the store. *)
Record OutputBuffer : Type := mkOB {
  ob_mem : mem;
  ob_buffer : ptr;
  ob_bufferSize : Z;
  ob_rangeSize : Z;
  ob_rangeOffset : Z;
  ob_minChainningSize : Z;
  ob_maxChainLength : Z;
  ob_rangePtr : ptr;
  ob_blobs : list blob
}.

Section OutputBuffer.
Context `{Allocator}.

(** The three constructors. *)
Definition OutputBuffer_default (m : mem) : OutputBuffer :=
  mkOB m Null 0 0 0 32 (umax 32) Null [].

Definition OutputBuffer_on (m : mem) (buffer : ptr) (size minChain maxChain : Z)
    : OutputBuffer :=
  mkOB m buffer size 0 0 minChain maxChain buffer [].

Definition OutputBuffer_reserve (m : mem) (reserveSize minChain maxChain : Z)
    : outcome OutputBuffer :=
  match allocate reserveSize m with
  | (Ok buffer, m') => Ok (mkOB m' buffer reserveSize 0 0 minChain maxChain buffer [])
  | (Err e, _) => Err e
  end.

(** [GetBuffers(buffers)]. *)
Definition GetBuffers (s : OutputBuffer) : outcome (list blob) :=
  if 0 <? ob_rangeSize s then
    olet last := blob_shared_at (ob_mem s) (ob_buffer s) (ob_rangeOffset s) (ob_rangeSize s) in
    Ok (ob_blobs s ++ [last])
  else Ok (ob_blobs s).

(** [GetBuffer()]: the store it may extend is part of the result. *)
Definition GetBuffer (s : OutputBuffer) : outcome blob * mem :=
  match blob_shared_at (ob_mem s) (ob_buffer s) (ob_rangeOffset s) (ob_rangeSize s) with
  | Err e => (Err e, ob_mem s)
  | Ok current =>
      (let! merged := merge_range (ob_blobs s) in merge2 merged current) (ob_mem s)
  end.

Definition on_mem {A} (m : M mem A) : M OutputBuffer A :=
  zoom ob_mem (fun m s => mkOB m (ob_buffer s) (ob_bufferSize s) (ob_rangeSize s)
    (ob_rangeOffset s) (ob_minChainningSize s) (ob_maxChainLength s) (ob_rangePtr s)
    (ob_blobs s)) m.

Definition set_rangeSize (n : Z) : M OutputBuffer unit :=
  modify (fun s => mkOB (ob_mem s) (ob_buffer s) (ob_bufferSize s) n (ob_rangeOffset s)
    (ob_minChainningSize s) (ob_maxChainLength s) (ob_rangePtr s) (ob_blobs s)).

(** [_blobs.emplace_back(_buffer, _rangeOffset, _rangeSize)]. *)
Definition snap_range : M OutputBuffer unit :=
  let! s := get in
  let! b := of_outcome
    (blob_shared_at (ob_mem s) (ob_buffer s) (ob_rangeOffset s) (ob_rangeSize s)) in
  put (mkOB (ob_mem s) (ob_buffer s) (ob_bufferSize s) (ob_rangeSize s) (ob_rangeOffset s)
    (ob_minChainningSize s) (ob_maxChainLength s) (ob_rangePtr s) (ob_blobs s ++ [b])).

(** The growth step of [Write(const void*, uint32_t)]: a new buffer for the
    [rest] that did not fit. *)
Definition grow_and_store (rest : list byte) : M OutputBuffer unit :=
  let! s := get in
  if Z.shiftr (umax 32) 1 <? ob_bufferSize s then throw BadAlloc
  else
    let size := zlen rest in
    let grown := wrap 32 (ob_bufferSize s +
      (if ob_bufferSize s =? 0 then 4096 else ob_bufferSize s / 2)) in
    let bufferSize := Z.max grown size in
    let! buffer := on_mem (allocate bufferSize) in
    let! s := get in
    put (mkOB (ob_mem s) buffer bufferSize size 0 (ob_minChainningSize s)
           (ob_maxChainLength s) buffer (ob_blobs s)) ;;;
    on_mem (store_m buffer rest).

(** [Write(const void* value, uint32_t size)]. *)
Definition ob_Write_bytes (value : list byte) : M OutputBuffer unit :=
  let! s := get in
  let size := zlen value in
  let free := wrap 32 (ob_bufferSize s - ob_rangeSize s - ob_rangeOffset s) in
  let sizePart := if size <? free then size else free in
  on_mem (store_m (ptr_add (ob_rangePtr s) (ob_rangeSize s)) (take (Z.to_nat sizePart) value)) ;;;
  set_rangeSize (wrap 32 (ob_rangeSize s + sizePart)) ;;;
  if size =? sizePart then ret tt
  else
    let! s := get in
    (if 0 <? ob_rangeSize s then snap_range else ret tt) ;;;
    grow_and_store (drop (Z.to_nat sizePart) value).

(** [Write(const T& value)] for a [T] of [n] bytes. *)
Definition ob_Write (n : nat) (value : Z) : M OutputBuffer unit :=
  let! s := get in
  if Z.of_nat n + ob_rangeSize s + ob_rangeOffset s <=? ob_bufferSize s then
    on_mem (store_m (ptr_add (ob_rangePtr s) (ob_rangeSize s)) (le_bytes n value)) ;;;
    set_rangeSize (wrap 32 (ob_rangeSize s + Z.of_nat n))
  else ob_Write_bytes (le_bytes n value).

(** Move the range past the bytes just chained, and append a blob to the chain. *)
Definition advance_range : M OutputBuffer unit :=
  modify (fun s => mkOB (ob_mem s) (ob_buffer s) (ob_bufferSize s) 0
    (wrap 32 (ob_rangeOffset s + ob_rangeSize s)) (ob_minChainningSize s)
    (ob_maxChainLength s) (ptr_add (ob_rangePtr s) (ob_rangeSize s)) (ob_blobs s)).

Definition push_blob (b : blob) : M OutputBuffer unit :=
  modify (fun s => mkOB (ob_mem s) (ob_buffer s) (ob_bufferSize s) (ob_rangeSize s)
    (ob_rangeOffset s) (ob_minChainningSize s) (ob_maxChainLength s) (ob_rangePtr s)
    (ob_blobs s ++ [b])).

(** [Write(const blob& buffer)]. *)
Definition ob_Write_blob (buffer : blob) : M OutputBuffer unit :=
  let! s := get in
  if (blob_length buffer <? ob_minChainningSize s)
     || (ob_maxChainLength s <=? zlen (ob_blobs s)) then
    let! bs := on_mem (load_m (blob_content buffer) (blob_length buffer)) in
    ob_Write_bytes bs
  else
    (if 0 <? ob_rangeSize s then snap_range ;;; advance_range else ret tt) ;;;
    push_blob buffer.

(** The instance of [VariableUnsignedUnchecked<T, N>] that ends the recursion. *)
Definition last_index (w : Z) : Z := if w =? 64 then 10 else w / 7 + 1.

(** [VariableUnsignedUnchecked<T, N>::Write(p, value)]. *)
Fixpoint VariableUnsignedUnchecked_Write (fuel : nat) (w N : Z) (p : ptr) (value : Z)
    : M mem Z :=
  match fuel with
  | O => fail OutOfFuel
  | S fuel' =>
      if N =? last_index w then
        let byte := if w =? 64 then 1 else wrap 8 value in
        store_m (ptr_add p (N - 1)) [z2b byte] ;;; ret N
      else
        let byte := wrap 8 value in
        let value := Z.shiftr value 7 in
        if value =? 0 then store_m (ptr_add p (N - 1)) [z2b byte] ;;; ret N
        else
          store_m (ptr_add p (N - 1)) [z2b (Z.lor byte 0x80)] ;;;
          VariableUnsignedUnchecked_Write fuel' w (N + 1) p value
  end.

Definition ob_Write_u8 (byte : Z) : M OutputBuffer unit := ob_Write 1 byte.

(** [WriteVariableUnsigned(T value)]: the fast path when the longest encoding
    fits, otherwise the generic writer, which comes back here with the remaining
    value (ten groups at most). *)
Fixpoint ob_WriteVariableUnsigned_loop (fuel : nat) (w value : Z) : M OutputBuffer unit :=
  match fuel with
  | O => fail OutOfFuel
  | S fuel' =>
      let! s := get in
      if w / 8 * 8 / 7 + ob_rangeSize s + ob_rangeOffset s <? ob_bufferSize s then
        let! n := on_mem (VariableUnsignedUnchecked_Write 10 w 1
          (ptr_add (ob_rangePtr s) (ob_rangeSize s)) value) in
        set_rangeSize (wrap 32 (ob_rangeSize s + n))
      else
        GenericWriteVariableUnsigned ob_Write_u8 (ob_WriteVariableUnsigned_loop fuel') w value
  end.

Definition ob_WriteVariableUnsigned (w value : Z) : M OutputBuffer unit :=
  ob_WriteVariableUnsigned_loop 10 w value.

(** [CreateOutputBuffer(other)]. *)
Definition CreateOutputBuffer (other : OutputBuffer) : outcome OutputBuffer :=
  OutputBuffer_reserve (ob_mem other) (ob_bufferSize other) (ob_minChainningSize other)
    (ob_maxChainLength other).

(** ** The byte string it implements *)

(** Where the writable tail of the current block starts, and the regions that do
    not reach into it: writing never changes those. *)
Definition tail_free (s : OutputBuffer) (p : ptr) (n : Z) : Prop :=
  n = 0 \/
  match p, ob_buffer s with
  | At k o, At blk o0 =>
      k <> blk \/ o + n <= o0 + ob_rangeOffset s + ob_rangeSize s
  | _, _ => True
  end.

Record ob_ok (s : OutputBuffer) (c : list byte) : Prop := {
  ok_size : fits 32 (ob_bufferSize s);
  ok_range : 0 <= ob_rangeOffset s /\ 0 <= ob_rangeSize s /\
    ob_rangeOffset s + ob_rangeSize s <= ob_bufferSize s;
  ok_written : ob_rangeOffset s + ob_rangeSize s <= zlen c;
  ok_wf : mem_wf (ob_mem s);
  ok_ptr : ob_rangePtr s = ptr_add (ob_buffer s) (ob_rangeOffset s);
  ok_block : match ob_buffer s with
    | Null => ob_bufferSize s = 0
    | At blk o0 => 0 <= o0 /\ exists bl, ob_mem s !! blk = Some bl /\
        o0 + ob_bufferSize s <= zlen (bl_data bl)
    end;
  ok_content : exists bss rng, c = concat bss ++ rng /\
    Forall2 (blob_ok (ob_mem s)) (ob_blobs s) bss /\
    load (ob_mem s) (ob_rangePtr s) (ob_rangeSize s) = Some rng;
  ok_free : Forall (fun b => tail_free s (_content b) (_length b)) (ob_blobs s)
}.

(** Extending the stream keeps what any stable region holds. *)
Definition keeps (s s' : OutputBuffer) : Prop :=
  forall p n bs, tail_free s p n -> load (ob_mem s) p n = Some bs ->
    load (ob_mem s') p n = Some bs /\ tail_free s' p n.

Lemma keeps_refl s : keeps s s.
Proof. by intros p n bs. Qed.

Lemma keeps_trans s1 s2 s3 : keeps s1 s2 -> keeps s2 s3 -> keeps s1 s3.
Proof. intros H1 H2 p n bs Hf Hl. destruct (H1 p n bs Hf Hl). by apply H2. Qed.

(** The state after [k] more bytes of the current range were filled in [m]. *)
Definition fill (s : OutputBuffer) (m : mem) (k : Z) : OutputBuffer :=
  mkOB m (ob_buffer s) (ob_bufferSize s) (ob_rangeSize s + k) (ob_rangeOffset s)
    (ob_minChainningSize s) (ob_maxChainLength s) (ob_rangePtr s) (ob_blobs s).

Lemma blobs_kept s s' l bss :
  keeps s s' -> Forall (fun b => tail_free s (_content b) (_length b)) l ->
  Forall2 (blob_ok (ob_mem s)) l bss ->
  Forall2 (blob_ok (ob_mem s')) l bss /\
  Forall (fun b => tail_free s' (_content b) (_length b)) l.
Proof.
  intros Hk Hf Hb. induction Hb as [|b bs l bss [Hfit Hb] Hl IH]; [done|].
  apply Forall_cons_1 in Hf as [Hfb Hfl]. destruct (IH Hfl) as [IH1 IH2].
  destruct (Hk _ _ _ Hfb Hb) as [H1 H2].
  split; constructor; done.
Qed.

Lemma fill_keeps s c m' bs :
  ob_ok s c -> store (ob_mem s) (ptr_add (ob_rangePtr s) (ob_rangeSize s)) bs = Some m' ->
  keeps s (fill s m' (zlen bs)).
Proof.
  intros Hok Hst p n x Hfree Hl. destruct Hok as [_ [Hr1 [Hr2 _]] _ _ Hptr _ _ _].
  destruct Hfree as [->|Hfree]; [split; [done|by left]|].
  rewrite Hptr in Hst. destruct (ob_buffer s) as [|blk o0] eqn:Hbuf; simpl in *.
  { unfold store in Hst. case_decide; [|done]. simplify_eq/=.
    split; [done|]. right. simpl. rewrite Hbuf. by destruct p. }
  split.
  - erewrite load_store_disjoint; [done|done|]. destruct p as [|k o]; [done|].
    destruct Hfree; [by left|right; left]. lia.
  - right. destruct p as [|k o]; [done|]. simpl. rewrite Hbuf. destruct Hfree as [?|?]; [by left|right; lia].
Qed.

(** Appending inside the current buffer. *)
Lemma fill_ok s c bs :
  ob_ok s c -> ob_rangeOffset s + ob_rangeSize s + zlen bs <= ob_bufferSize s ->
  exists m', store (ob_mem s) (ptr_add (ob_rangePtr s) (ob_rangeSize s)) bs = Some m' /\
    ob_ok (fill s m' (zlen bs)) (c ++ bs) /\ keeps s (fill s m' (zlen bs)).
Proof.
  intros Hok Hroom. pose proof Hok as [Hsz Hr Hw Hwf Hptr Hblk Hc Hfree].
  assert (Hm : exists m', store (ob_mem s) (ptr_add (ob_rangePtr s) (ob_rangeSize s)) bs
      = Some m' /\
    load m' (ptr_add (ob_rangePtr s) (ob_rangeSize s)) (zlen bs) = Some bs /\
    match ob_buffer s with
    | Null => ob_bufferSize s = 0
    | At blk o0 => 0 <= o0 /\ exists bl, m' !! blk = Some bl /\
        o0 + ob_bufferSize s <= zlen (bl_data bl)
    end).
  { rewrite Hptr. destruct (ob_buffer s) as [|blk o0]; simpl in *.
    - assert (bs = []) as -> by (destruct bs; [done|simpl in *; lia]). by exists (ob_mem s).
    - destruct Hblk as (Ho & bl & Hbl & Hle).
      destruct (store_some (ob_mem s) blk (o0 + ob_rangeOffset s + ob_rangeSize s) bl bs Hbl)
        as (m' & Hst & bl' & Hbl' & Hlen & _); [lia..|].
      exists m'. split_and!; [done|by eapply load_store_same|lia|].
      exists bl'. split; [done|lia]. }
  destruct Hm as (m' & Hst & Hld & Hblk'). exists m'. split; [done|].
  pose proof (fill_keeps s c m' bs Hok Hst) as Hkeep. split; [|done].
  destruct Hc as (bss & rng & -> & Hb & Hrng).
  destruct (blobs_kept _ _ _ _ Hkeep Hfree Hb) as [Hb' Hfree'].
  assert (Hrng' : load m' (ob_rangePtr s) (ob_rangeSize s) = Some rng).
  { refine (proj1 (Hkeep (ob_rangePtr s) (ob_rangeSize s) rng _ Hrng)).
    right. rewrite Hptr. destruct (ob_buffer s); simpl; [done|]. right. lia. }
  split; simpl; try done; try lia.
  - rewrite !length_app in *. lia.
  - by eapply store_wf.
  - exists bss, (rng ++ bs). split_and!; [by rewrite app_assoc|done|].
    apply load_join; [lia|lia|done..].
Qed.

(** [on_mem (store_m p bs); set_rangeSize(...)] is [fill]. *)
Lemma store_fill_run s c bs k :
  ob_ok s c -> ob_rangeOffset s + ob_rangeSize s + zlen bs <= ob_bufferSize s ->
  k = zlen bs ->
  exists m', ob_ok (fill s m' k) (c ++ bs) /\ keeps s (fill s m' k) /\
    (on_mem (store_m (ptr_add (ob_rangePtr s) (ob_rangeSize s)) bs) ;;;
     set_rangeSize (wrap 32 (ob_rangeSize s + k))) s = (Ok tt, fill s m' k).
Proof.
  intros Hok Hroom ->. pose proof Hok as [Hsz Hr _ _ _ _ _ _]. unfold fits in Hsz.
  destruct (fill_ok s c bs Hok Hroom) as (m' & Hst & Hok' & Hk).
  exists m'. split_and!; [done..|].
  unfold on_mem, set_rangeSize. erewrite bind_ok;
    [|apply zoom_ok; unfold store_m; by rewrite Hst].
  rewrite wrap_id by (unfold fits; lia). done.
Qed.

(** The blob of the current range is built without an overflow. *)
Lemma current_blob s c : ob_ok s c ->
  blob_shared_at (ob_mem s) (ob_buffer s) (ob_rangeOffset s) (ob_rangeSize s) =
    Ok (mkBlob (ob_buffer s) (ob_rangePtr s) (ob_rangeSize s)).
Proof.
  intros [Hsz Hr Hw Hwf Hptr Hblk _ _]. rewrite Hptr. unfold fits in Hsz.
  unfold blob_shared_at, checked_ptr_add.
  assert (Haddr : exists a, addr (ob_mem s) (ob_buffer s) = a /\ 0 <= a /\
    addr (ob_mem s) (ptr_add (ob_buffer s) (ob_rangeOffset s)) = a + ob_rangeOffset s /\
    a + ob_bufferSize s < 2 ^ 64).
  { destruct (ob_buffer s) as [|blk o0]; simpl; [exists 0; split_and!; lia|].
    destruct Hblk as (Ho & bl & Hbl & Hle). rewrite Hbl.
    apply (Forall_lookup_1 _ _ _ _ Hwf) in Hbl as [Hb0 Hb].
    exists (bl_base bl + o0). split_and!; lia. }
  destruct Haddr as (a & Ha & Ha0 & Haoff & Hlt).
  rewrite Ha, (checked_add_ptr_ok a) by (unfold fits; lia). rewrite decide_True by lia.
  simpl. rewrite Haoff, checked_add_ptr_ok by (unfold fits; lia).
  by rewrite decide_True by lia.
Qed.

(** Pushing the current range to the chain; nothing of the content changes while
    the range is still counted, so the invariant is that of the snapped state. *)
Definition snapped (s : OutputBuffer) : list blob :=
  if 0 <? ob_rangeSize s
  then ob_blobs s ++ [mkBlob (ob_buffer s) (ob_rangePtr s) (ob_rangeSize s)]
  else ob_blobs s.

Definition with_blobs (s : OutputBuffer) (l : list blob) : OutputBuffer :=
  mkOB (ob_mem s) (ob_buffer s) (ob_bufferSize s) (ob_rangeSize s) (ob_rangeOffset s)
    (ob_minChainningSize s) (ob_maxChainLength s) (ob_rangePtr s) l.

Lemma snap_range_run s c : ob_ok s c ->
  (if 0 <? ob_rangeSize s then snap_range else ret tt) s =
    (Ok tt, with_blobs s (snapped s)).
Proof.
  intros Hok. unfold snapped. destruct (0 <? ob_rangeSize s) eqn:E.
  - unfold snap_range. mrun. by rewrite (bind_of_outcome_ok _ _ _ _ (current_blob s c Hok)).
  - by destruct s.
Qed.

Lemma snapped_content s c : ob_ok s c ->
  exists bss, c = concat bss /\ Forall2 (blob_ok (ob_mem s)) (snapped s) bss /\
    Forall (fun b => tail_free s (_content b) (_length b)) (snapped s).
Proof.
  intros [Hsz Hr Hw Hwf Hptr Hblk (bss & rng & -> & Hb & Hrng) Hfree].
  unfold snapped, fits in *. destruct (0 <? ob_rangeSize s) eqn:E.
  - exists (bss ++ [rng]). split_and!.
    + rewrite concat_app. simpl. by rewrite app_nil_r.
    + apply Forall2_app; [done|]. constructor; [|done]. split; [unfold fits; simpl; lia|done].
    + apply Forall_app; split; [done|]. apply Forall_singleton. right. simpl. rewrite Hptr.
      destruct (ob_buffer s); simpl; [done|]. right. lia.
  - apply Z.ltb_ge in E. replace (ob_rangeSize s) with 0 in Hrng by lia.
    injection Hrng as <-. exists bss. by rewrite app_nil_r.
Qed.

Lemma grown_size b n : 0 <= b < 2 ^ 31 -> 0 < n < 2 ^ 31 ->
  let g := Z.max (wrap 32 (b + (if b =? 0 then 4096 else b / 2))) n in
  n <= g /\ 0 < g < 2 ^ 32.
Proof.
  intros Hb Hn. cbv zeta. pose proof (Z.div_pos b 2 ltac:(lia) ltac:(lia)).
  pose proof (Z.mul_div_le b 2 ltac:(lia)).
  rewrite wrap_id; [|unfold fits]; change (2 ^ 32) with (2 * 2 ^ 31);
    change (2 ^ 31) with 2147483648 in *; case_match; lia.
Qed.

(** Growing: the content so far moves to the chain, the rest starts a new block. *)
Lemma grow_ok s c rest :
  ob_ok s c -> ob_rangeOffset s + ob_rangeSize s = ob_bufferSize s ->
  0 < zlen rest -> zlen c + zlen rest < 2 ^ 31 ->
  exists s', ((if 0 <? ob_rangeSize s then snap_range else ret tt) ;;;
              grow_and_store rest) s = (Ok tt, s') /\
    ob_ok s' (c ++ rest) /\ keeps s s'.
Proof.
  intros Hok Hfull Hrest Hlen.
  pose proof (snapped_content s c Hok) as (bss & Hc & Hb & Hfree).
  rewrite (bind_ok _ _ _ _ _ (snap_range_run s c Hok)).
  destruct Hok as [Hsz Hr Hw Hwf Hptr Hblk _ _].
  unfold grow_and_store. rewrite bind_get. cbn [ob_bufferSize with_blobs].
  replace (Z.shiftr (umax 32) 1) with (2 ^ 31 - 1) by done. zbool. cbv zeta iota.
  destruct (grown_size (ob_bufferSize s) (zlen rest)) as [Hg1 Hg2]; [lia|lia|].
  set (g := Z.max _ _) in *. set (m1 := ob_mem s ++ [mkBlock (place (ob_mem s) g)
    (replicate (Z.to_nat g) None)]).
  unfold on_mem at 1. erewrite bind_ok by (by apply zoom_ok). simpl. fold m1. rewrite bind_get, bind_put. simpl.
  destruct (store_some m1 (length (ob_mem s)) 0 (mkBlock (place (ob_mem s) g)
    (replicate (Z.to_nat g) None)) rest) as (m' & Hst & bl' & Hbl' & Hlen' & Hm').
  { apply list_lookup_middle. done. }
  { lia. }
  { simpl. rewrite length_replicate. lia. }
  simpl in Hlen'. rewrite length_replicate in Hlen'.
  set (s' := mkOB m' (At (length (ob_mem s)) 0) g (zlen rest) 0 (ob_minChainningSize s)
    (ob_maxChainLength s) (At (length (ob_mem s)) 0) (snapped s)).
  assert (Hkeep : keeps s s').
  { intros p n x _ Hl. assert (Hl1 : load m1 p n = Some x) by (by apply load_extend).
    destruct (decide (n = 0)) as [->|Hn]; [split; [done|by left]|].
    assert (Hk : match p with At k _ => (k < length (ob_mem s))%nat | Null => True end).
    { destruct p as [|k o]; [done|]. unfold load in Hl. rewrite decide_False in Hl by done.
      destruct (ob_mem s !! k) eqn:E; [|done]. by eapply lookup_lt_Some. }
    split.
    - simpl. erewrite load_store_disjoint; [done|done|]. destruct p; [done|left; lia].
    - right. destruct p; simpl; [done|]. left. lia. }
  exists s'. split; [unfold on_mem, zoom, store_m; simpl; by rewrite Hst|]. split; [|done].
  destruct (blobs_kept s s' _ _ Hkeep Hfree Hb) as [Hb' Hfree'].
  split; simpl; try done; try lia; rewrite ?length_app; try lia.
  - unfold fits. lia.
  - eapply store_wf; [done|]. apply Forall_app; split; [done|]. apply Forall_singleton.
    simpl. rewrite length_replicate. pose proof (place_range (ob_mem s) g ltac:(lia)). lia.
  - split; [lia|]. exists bl'. split; [done|lia].
  - exists bss, rest. split_and!; [by subst c|done|by eapply load_store_same].
Qed.

(** ** Each write extends the byte string *)

Definition extends (m : M OutputBuffer unit) (bs : list byte) : Prop :=
  forall s c, ob_ok s c -> zlen c + zlen bs < 2 ^ 31 ->
  exists s', m s = (Ok tt, s') /\ ob_ok s' (c ++ bs) /\ keeps s s'.

Lemma free_space s c : ob_ok s c ->
  wrap 32 (ob_bufferSize s - ob_rangeSize s - ob_rangeOffset s) =
    ob_bufferSize s - ob_rangeSize s - ob_rangeOffset s /\
  0 <= ob_bufferSize s - ob_rangeSize s - ob_rangeOffset s.
Proof.
  intros [Hsz Hr _ _ _ _ _ _]. unfold fits in Hsz.
  split; [apply wrap_id; unfold fits; lia|lia].
Qed.

Lemma ob_Write_bytes_extends bs : extends (ob_Write_bytes bs) bs.
Proof.
  intros s c Hok Hlen. destruct (free_space s c Hok) as [Hfr Hpos].
  pose proof Hok as [Hsz Hr _ _ _ _ _ _]. unfold fits in Hsz.
  unfold ob_Write_bytes. rewrite bind_get, Hfr. cbv zeta.
  set (part := if _ <? _ then _ else _).
  assert (Hpart : 0 <= part <= zlen bs /\
    part <= ob_bufferSize s - ob_rangeSize s - ob_rangeOffset s /\
    (part = zlen bs \/ part = ob_bufferSize s - ob_rangeSize s - ob_rangeOffset s)).
  { unfold part. destruct (zlen bs <? _) eqn:E;
      [apply Z.ltb_lt in E|apply Z.ltb_ge in E]; lia. }
  set (head := take (Z.to_nat part) bs). set (rest := drop (Z.to_nat part) bs).
  assert (Hbs : bs = head ++ rest) by (symmetry; apply take_drop).
  assert (Hhead : part = zlen head) by (unfold head; rewrite length_take; lia).
  destruct (store_fill_run s c head part Hok ltac:(lia) Hhead) as (m' & Hok1 & Hk1 & Hrun).
  rewrite <-bind_assoc, (bind_ok _ _ _ _ _ Hrun). case_match eqn:Epart.
  - apply Z.eqb_eq in Epart. assert (rest = []) as Hnil.
    { unfold rest. apply drop_ge. lia. }
    rewrite Hbs, Hnil, app_nil_r. eauto.
  - apply Z.eqb_neq in Epart. rewrite bind_get.
    assert (Hrest : 0 < zlen rest) by (unfold rest; rewrite length_drop; lia).
    destruct (grow_ok _ _ rest Hok1) as (s' & Hg & Hok' & Hk'); [simpl; lia|done| |].
    { rewrite Hbs, !length_app in *. lia. }
    exists s'. split; [exact Hg|]. split; [|by eapply keeps_trans].
    by rewrite Hbs, app_assoc.
Qed.

Lemma ob_Write_extends n z : (0 < n <= 8)%nat -> extends (ob_Write n z) (le_bytes n z).
Proof.
  intros Hn s c Hok Hlen. unfold ob_Write. rewrite bind_get. case_match eqn:E.
  - apply Z.leb_le in E.
    destruct (store_fill_run s c (le_bytes n z) (Z.of_nat n) Hok) as (m' & H1 & H2 & H3);
      [rewrite length_le_bytes; lia|by rewrite length_le_bytes|eauto].
  - by apply ob_Write_bytes_extends.
Qed.

(** Moving the snapped range behind the chain keeps the content. *)
Lemma advance_range_ok s c : ob_ok s c ->
  exists s1, (if 0 <? ob_rangeSize s then snap_range ;;; advance_range else ret tt) s
      = (Ok tt, s1) /\
    ob_ok s1 c /\ ob_rangeSize s1 = 0 /\ ob_mem s1 = ob_mem s /\
    (forall p n, tail_free s p n -> tail_free s1 p n).
Proof.
  intros Hok. pose proof (snap_range_run s c Hok) as Hrun.
  destruct (snapped_content s c Hok) as (bss & Hc & Hbs & Hfr).
  pose proof Hok as [Hsz Hr Hw Hwf Hptr Hblk _ _]. unfold fits in Hsz.
  destruct (0 <? ob_rangeSize s) eqn:Er.
  2:{ apply Z.ltb_ge in Er. exists s. split_and!; [done|done|lia|done|done]. }
  rewrite (bind_ok _ _ _ _ _ Hrun). unfold advance_range, modify.
  eexists; split; [done|]. set (s1 := mkOB _ _ _ _ _ _ _ _ _). simpl in s1.
  assert (Htf : forall p n, tail_free s p n -> tail_free s1 p n).
  { intros p n [?|Hp]; [by left|right]. simpl. destruct p; [done|].
    destruct (ob_buffer s); [done|].
    rewrite wrap_id by (unfold fits; lia). destruct Hp; [by left|right; lia]. }
  split_and!; [|done|done|exact Htf].
  split; simpl; rewrite ?(wrap_id 32) by (unfold fits; lia); try done; try lia.
  - by rewrite Hptr, ptr_add_add.
  - exists bss, []. split_and!; [by rewrite app_nil_r|done|by rewrite load_zero].
  - eapply Forall_impl; [|exact Hfr]. intros b' Hb'. by apply Htf.
Qed.

(** The chained blob is not copied: it must denote its bytes and must not reach
    into the part of the buffer that is still to be written. *)
Lemma ob_Write_blob_extends s c b bs :
  ob_ok s c -> blob_ok (ob_mem s) b bs -> tail_free s (_content b) (_length b) ->
  zlen c + zlen bs < 2 ^ 31 ->
  exists s', ob_Write_blob b s = (Ok tt, s') /\ ob_ok s' (c ++ bs) /\ keeps s s'.
Proof.
  intros Hok Hb Hfree Hlen. unfold ob_Write_blob. rewrite bind_get. case_match eqn:E.
  { unfold on_mem, blob_content, blob_length, load_m. destruct Hb as [_ Hb].
    erewrite bind_ok; [|apply zoom_ok; unfold blob_bytes in Hb; by rewrite Hb].
    assert (Hs : mkOB (ob_mem s) (ob_buffer s) (ob_bufferSize s) (ob_rangeSize s)
      (ob_rangeOffset s) (ob_minChainningSize s) (ob_maxChainLength s) (ob_rangePtr s)
      (ob_blobs s) = s) by (by destruct s).
    rewrite Hs. by apply ob_Write_bytes_extends. }
  destruct (advance_range_ok s c Hok) as (s1 & Hrun & Hok1 & Hrs & Hm & Htf).
  rewrite (bind_ok _ _ _ _ _ Hrun). unfold push_blob, modify.
  eexists; split; [done|]. split.
  - destruct Hok1 as [Hsz Hr Hw Hwf Hptr Hblk (bss & rng & Hc & Hbs & Hrng) Hfr].
    rewrite Hrs in Hrng. injection Hrng as <-. rewrite app_nil_r in Hc.
    split; simpl; try done; try lia; rewrite ?length_app; try lia.
    + exists (bss ++ [bs]), []. split_and!; [|apply Forall2_app; [done|]|by rewrite Hrs].
      * rewrite concat_app, Hc. simpl. by rewrite !app_nil_r.
      * constructor; [by rewrite Hm|done].
    + apply Forall_app; split; [done|]. apply Forall_singleton.
      exact (Htf _ _ Hfree).
  - intros p n x Hp Hl. simpl. rewrite Hm. split; [done|]. by apply Htf.
Qed.

(** ** The unchecked variable-length writer *)

Lemma splice_cons {A} (l : list A) o x k :
  (o + 1 + length k <= length l)%nat ->
  splice (splice l o [x]) (o + 1) k = splice l o (x :: k).
Proof.
  intros Hl. unfold splice at 1 3.
  assert (H1 : take (o + 1) (splice l o [x]) = take o l ++ [x]).
  { unfold splice. rewrite app_assoc.
    rewrite take_app_length'; [done|]. rewrite length_app, length_take. simpl. lia. }
  assert (H2 : drop (o + 1 + length k) (splice l o [x]) = drop (o + length (x :: k)) l).
  { unfold splice. rewrite app_assoc, drop_app_ge; rewrite length_app, length_take; simpl;
      [|lia]. rewrite drop_drop. f_equal. lia. }
  by rewrite H1, H2, <-app_assoc.
Qed.

Lemma store_cons m p x bs m' :
  store m p (x :: bs) = Some m' ->
  exists m1, store m p [x] = Some m1 /\ store m1 (ptr_add p 1) bs = Some m'.
Proof.
  unfold store. simpl. destruct p as [|b o]; [done|].
  destruct (m !! b) as [bl|] eqn:Hb; [|done]. simpl. case_decide as Hr; [|done].
  intros [= <-]. rewrite decide_True by lia. eexists; split; [done|].
  rewrite list_lookup_insert_eq by (by eapply lookup_lt_Some). simpl.
  case_decide as Hnil; [subst; done|].
  rewrite length_splice by (simpl; lia). rewrite decide_True by lia.
  rewrite list_insert_insert_eq. do 3 f_equal.
  replace (Z.to_nat (o + 1)) with (Z.to_nat o + 1)%nat by lia.
  apply splice_cons. rewrite length_fmap. lia.
Qed.

Lemma lor_wrap8 z : 0 <= z -> Z.lor (wrap 8 z) 0x80 = z mod 128 + 128.
Proof.
  intros Hz. rewrite <-continuation_byte by done. unfold wrap.
  rewrite <-!Z.land_ones by lia. by rewrite Z.land_lor_distr_l.
Qed.

Lemma z2b_wrap8 z : z2b (wrap 8 z) = z2b z.
Proof.
  rewrite <-(z2b_b2z (z2b (wrap 8 z))), b2z_z2b, wrap_wrap, <-b2z_z2b. apply z2b_b2z.
Qed.

Lemma last_index_facts w : var_width w ->
  1 <= last_index w <= 10 /\ w - 7 * (last_index w - 1) <= 4 /\
  (w = 64 -> w - 7 * (last_index w - 1) = 1) /\ 0 < w - 7 * (last_index w - 1).
Proof. by intros [->|[->| ->]]. Qed.

Lemma unchecked_writes n fuel w N p z m m' :
  var_width w -> 1 <= N <= last_index w -> 0 <= z < 2 ^ (w - 7 * (N - 1)) ->
  (1 < N -> 0 < z) -> z < 2 ^ (7 * Z.of_nat n) -> (0 < n <= fuel)%nat ->
  store m (ptr_add p (N - 1)) (varint_enc n z) = Some m' ->
  VariableUnsignedUnchecked_Write fuel w N p z m =
    (Ok (N - 1 + zlen (varint_enc n z)), m').
Proof.
  intros Hw. destruct (last_index_facts w Hw) as (L1 & L2 & L3 & L4).
  revert fuel N z m. induction n as [|n IH]; intros [|fuel] N z m HN Hz Hz0 Hzn Hn Hst; try lia.
  simpl VariableUnsignedUnchecked_Write. rewrite varint_enc_S in *.
  destruct (N =? last_index w) eqn:EN.
  - apply Z.eqb_eq in EN. subst N.
    assert (Hz16 : z < 16).
    { eapply Z.lt_le_trans; [apply Hz|]. change 16 with (2 ^ 4).
      apply Z.pow_le_mono_r; lia. }
    destruct (z <? 128) eqn:E; [|apply Z.ltb_ge in E; lia].
    assert (Hb : z2b (if w =? 64 then 1 else wrap 8 z) = z2b z).
    { case_match eqn:E64; [|apply z2b_wrap8]. apply Z.eqb_eq in E64.
      rewrite L3 in Hz by done. change (2 ^ 1) with 2 in Hz.
      assert (1 < last_index w) by (by subst w). f_equal. specialize (Hz0 ltac:(done)). lia. }
    rewrite Hb. unfold bind, store_m. rewrite Hst. simpl. unfold ret. do 2 f_equal. lia.
  - apply Z.eqb_neq in EN. rewrite shiftr7. cbv zeta. destruct (z <? 128) eqn:E.
    + apply Z.ltb_lt in E. rewrite Z.div_small by lia. simpl.
      rewrite z2b_wrap8. unfold bind, store_m. rewrite Hst. simpl. unfold ret.
      do 2 f_equal. lia.
    + apply Z.ltb_ge in E. assert (0 < z / 128) by (apply Z.div_str_pos; lia). zbool.
      rewrite lor_wrap8 by lia. apply store_cons in Hst as (m1 & Hs1 & Hs2).
      erewrite bind_ok; [|unfold store_m; by rewrite Hs1].
      rewrite Nat2Z.inj_succ, <-Z.add_1_l in Hzn. pose proof (div128_lt z n ltac:(lia)).
      assert (Hp : 2 ^ (w - 7 * (N - 1)) = 2 ^ (w - 7 * N) * 128).
      { change 128 with (2 ^ 7). rewrite <-Z.pow_add_r by lia. f_equal. lia. }
      rewrite (IH fuel (N + 1) (z / 128) m1); try lia.
      * simpl length. do 2 f_equal. lia.
      * replace (N + 1 - 1) with N by lia. split; [lia|].
        apply Z.div_lt_upper_bound; lia.
      * destruct n; simpl in *; lia.
      * rewrite ptr_add_add in Hs2. by replace (N + 1 - 1) with (N - 1 + 1) by lia.
Qed.

(** Whichever path is taken, the variable-length writer appends the encoding. *)
Lemma ob_Var_extends n fuel w z :
  var_width w -> fits w z -> z < 2 ^ (7 * Z.of_nat n) -> (0 < n <= fuel)%nat ->
  extends (ob_WriteVariableUnsigned_loop fuel w z) (varint z).
Proof.
  intros Hw. assert (Hw0 : 0 < w <= 64) by (unfold var_width in Hw; lia).
  revert fuel z. induction n as [|n IH]; intros [|fuel] z Hz Hzn Hn; try lia.
  pose proof (fits_weaken w 64 z ltac:(lia) Hz) as Hz64.
  intros s c Hok Hlen. cbn [ob_WriteVariableUnsigned_loop]. rewrite bind_get.
  destruct (_ <? ob_bufferSize s) eqn:E.
  - apply Z.ltb_lt in E. pose proof (varint_length_le w z Hw Hz) as Hvl.
    replace (w / 8 * 8 / 7) with (w / 7) in E by (by destruct Hw as [->|[->| ->]]).
    destruct (fill_ok s c (varint z) Hok ltac:(lia)) as (m' & Hst & Hok' & Hk).
    pose proof Hok as [Hsz Hr _ _ _ _ _ _]. unfold fits in Hsz, Hz, Hz64.
    destruct (last_index_facts w Hw) as (L1 & _ & _ & _).
    assert (Hrun : VariableUnsignedUnchecked_Write 10 w 1
      (ptr_add (ob_rangePtr s) (ob_rangeSize s)) z (ob_mem s) =
      (Ok (1 - 1 + zlen (varint_enc 10 z)), m')).
    { apply unchecked_writes; try done; try lia.
      - change (7 * (1 - 1)) with 0. by rewrite Z.sub_0_r.
      - change (1 - 1) with 0. by rewrite ptr_add_0. }
    fold (varint z) in Hrun. unfold on_mem.
    erewrite bind_ok; [|by apply zoom_ok].
    replace (1 - 1 + zlen (varint z)) with (zlen (varint z)) by lia.
    unfold set_rangeSize, modify. simpl.
    rewrite wrap_id by (unfold fits; lia). by exists (fill s m' (zlen (varint z))).
  - unfold GenericWriteVariableUnsigned. rewrite shiftr7, varint_step in * by done. cbv zeta.
    unfold fits in Hz. destruct (z <? 128) eqn:E128.
    + apply Z.ltb_lt in E128. rewrite Z.div_small by lia. simpl Z.eqb. cbv iota.
      rewrite wrap_id by (unfold fits; lia).
      apply (ob_Write_extends 1 z); [lia|done|done].
    + apply Z.ltb_ge in E128. assert (0 < z / 128) by (apply Z.div_str_pos; lia). zbool.
      rewrite continuation_byte by lia.
      pose proof (Z.mod_pos_bound z 128 ltac:(lia)).
      rewrite Nat2Z.inj_succ, <-Z.add_1_l in Hzn. pose proof (div128_lt z n ltac:(lia)).
      simpl length in Hlen.
      destruct (ob_Write_extends 1 (z mod 128 + 128) ltac:(lia) s c Hok) as
        (s1 & E1 & Hok1 & Hk1); [simpl; lia|].
      unfold ob_Write_u8. rewrite (bind_ok _ _ _ _ _ E1).
      destruct (IH fuel (z / 128)) with (s := s1) (c := c ++ le_bytes 1 (z mod 128 + 128))
        as (s2 & E2 & Hok2 & Hk2); [apply div128_fits; unfold fits; lia|lia| |done| |].
      * destruct n; simpl in *; lia.
      * rewrite length_app. simpl. lia.
      * exists s2. split; [exact E2|]. split; [|by eapply keeps_trans].
        by rewrite <-app_assoc in Hok2.
Qed.

(** ** Laws *)

Lemma blobs_unique m l bss1 bss2 :
  Forall2 (blob_ok m) l bss1 -> Forall2 (blob_ok m) l bss2 -> bss1 = bss2.
Proof.
  intros H1. revert bss2. induction H1 as [|b x l bss [_ Hx] Hl IH]; intros bss2 H2;
    inversion H2 as [|? y ? ? [_ Hy] ? ]; subst; [done|].
  f_equal; [congruence|by apply IH].
Qed.

Lemma content_unique s c1 c2 : ob_ok s c1 -> ob_ok s c2 -> c1 = c2.
Proof.
  intros [_ _ _ _ _ _ (b1 & r1 & -> & Hb1 & Hr1) _] [_ _ _ _ _ _ (b2 & r2 & -> & Hb2 & Hr2) _].
  f_equal; [by f_equal; eapply blobs_unique|congruence].
Qed.

Definition ob_appends (s : OutputBuffer) (bs : list byte) (s' : OutputBuffer) : Prop :=
  forall c, ob_ok s c -> ob_ok s' (c ++ bs) /\ keeps s s'.

(** Up to 2^31 - 1 bytes in total are accepted. *)
Definition ob_room (s : OutputBuffer) (n : Z) : Prop :=
  exists c, ob_ok s c /\ zlen c + n < 2 ^ 31.

#[export] Instance OutputBuffer_writable : Writable OutputBuffer.
Proof.
  refine {| appends := ob_appends; room := ob_room |}.
  - intros s c Hok. rewrite app_nil_r. split; [done|apply keeps_refl].
  - intros s bs1 s1 bs2 s2 H1 H2 c Hok. destruct (H1 c Hok) as [Hok1 Hk1].
    destruct (H2 _ Hok1) as [Hok2 Hk2]. rewrite app_assoc.
    split; [done|by eapply keeps_trans].
  - intros s n m (c & Hok & Hlt) Hm. exists c. split; [done|lia].
Defined.

#[export] Instance OutputBuffer_stream : OutputStream OutputBuffer := {|
  os_Write_bytes := ob_Write_bytes;
  os_Write := ob_Write;
  os_WriteVariableUnsigned := ob_WriteVariableUnsigned
|}.

Lemma extends_emits m bs : extends m bs -> emits m bs.
Proof.
  intros He s n (c & Hok & Hlt) Hn.
  destruct (He s c Hok ltac:(lia)) as (s' & Hr & Hok' & Hk).
  exists s'. split_and!; [done| |].
  - intros c' Hok2. by rewrite (content_unique s c' c Hok2 Hok).
  - exists (c ++ bs). split; [done|]. rewrite length_app. lia.
Qed.

Lemma ob_Var_full_extends w z : var_width w -> fits w z ->
  extends (ob_WriteVariableUnsigned w z) (varint z).
Proof.
  intros Hw Hz. apply (ob_Var_extends 10); [done|done| |lia].
  assert (Hw0 : 0 <= w <= 64) by (unfold var_width in Hw; lia).
  destruct (fits_weaken w 64 z Hw0 Hz) as [_ Hz64].
  eapply Z.lt_trans; [exact Hz64|by vm_compute].
Qed.

#[export] Instance OutputBuffer_laws : OutputStreamLaws OutputBuffer.
Proof.
  split; simpl.
  - intros bs _. apply extends_emits, ob_Write_bytes_extends.
  - intros n z Hn. by apply extends_emits, ob_Write_extends.
  - intros w z Hw Hz. by apply extends_emits, ob_Var_full_extends.
Qed.

(** ** The stream as a whole *)

Lemma OutputBuffer_default_ok m : mem_wf m -> ob_ok (OutputBuffer_default m) [].
Proof.
  intros Hwf. split; simpl; try done; try lia.
  by exists [], [].
Qed.

Lemma OutputBuffer_reserve_ok m size minChain maxChain : mem_wf m -> fits 32 size ->
  exists s, OutputBuffer_reserve m size minChain maxChain = Ok s /\ ob_ok s [] /\
    (forall p n bs, load m p n = Some bs -> load (ob_mem s) p n = Some bs /\ tail_free s p n).
Proof.
  intros Hwf Hsz. eexists; split; [done|]. unfold fits in Hsz. split.
  - split; simpl; try done; try lia.
    + apply Forall_app; split; [done|]. apply Forall_singleton. simpl.
      rewrite length_replicate. pose proof (place_range m size Hsz). lia.
    + split; [done|]. eexists; split; [by apply list_lookup_middle|].
      simpl. rewrite length_replicate. lia.
    + by exists [], [].
  - intros p n bs Hl. split; [by apply load_extend|].
    destruct (decide (n = 0)) as [->|Hn]; [by left|right].
    destruct p as [|k o]; [done|]. simpl. left. unfold load in Hl.
    rewrite decide_False in Hl by done.
    destruct (m !! k) eqn:E; [|done]. apply lookup_lt_Some in E. lia.
Qed.

Lemma GetBuffer_spec s c : ob_ok s c -> zlen c < 2 ^ 32 ->
  exists r m', GetBuffer s = (Ok r, m') /\ blob_ok m' r c.
Proof.
  intros Hok Hlen. unfold GetBuffer. rewrite (current_blob s c Hok).
  destruct Hok as [Hsz Hr Hw Hwf Hptr Hblk (bss & rng & -> & Hb & Hrng) Hfree].
  rewrite length_app in Hlen. unfold fits in Hsz.
  destruct (merge_range_spec (ob_mem s) (ob_blobs s) bss Hb ltac:(lia))
    as (r1 & m1 & Hr1 & Hf1 & Hold1).
  rewrite (bind_ok _ _ _ _ _ Hr1).
  destruct (merge2_spec m1 r1 (mkBlob (ob_buffer s) (ob_rangePtr s) (ob_rangeSize s))
    (concat bss) rng Hf1) as (r2 & m2 & Hr2 & Hf2 & _); [|lia|by eauto].
  apply Hold1. split; [unfold fits; simpl; lia|done].
Qed.

Lemma GetBuffers_spec s c : ob_ok s c ->
  exists l bss, GetBuffers s = Ok l /\ Forall2 (blob_ok (ob_mem s)) l bss /\ concat bss = c.
Proof.
  intros Hok. destruct (snapped_content s c Hok) as (bss & -> & Hb & _).
  exists (snapped s), bss. split_and!; [|done|done].
  unfold GetBuffers, snapped. case_match; [|done]. by rewrite (current_blob s _ Hok).
Qed.

(** The client's view: a program of writes, and the bytes each one stands for. *)
Inductive write_op : Type :=
| WBytes (bs : list byte)
| WFixed (n : nat) (z : Z)
| WVar (w z : Z)
| WBlob (b : blob) (bs : list byte).

Definition run_op (op : write_op) : M OutputBuffer unit :=
  match op with
  | WBytes bs => ob_Write_bytes bs
  | WFixed n z => ob_Write n z
  | WVar w z => ob_WriteVariableUnsigned w z
  | WBlob b _ => ob_Write_blob b
  end.

Definition op_bytes (op : write_op) : list byte :=
  match op with
  | WBytes bs => bs
  | WFixed n z => le_bytes n z
  | WVar _ z => varint z
  | WBlob _ bs => bs
  end.

Definition op_valid (s : OutputBuffer) (op : write_op) : Prop :=
  match op with
  | WBytes bs => True
  | WFixed n _ => (0 < n <= 8)%nat
  | WVar w z => var_width w /\ fits w z
  | WBlob b bs => blob_ok (ob_mem s) b bs /\ tail_free s (_content b) (_length b)
  end.

Lemma op_valid_keeps s s' op : keeps s s' -> op_valid s op -> op_valid s' op.
Proof.
  intros Hk. destruct op as [| | |b bs]; try done. intros [[Hf Hb] Htf].
  destruct (Hk _ _ _ Htf Hb). done.
Qed.

Lemma run_op_extends s c op : ob_ok s c -> op_valid s op -> zlen c + zlen (op_bytes op) < 2 ^ 31 ->
  exists s', run_op op s = (Ok tt, s') /\ ob_ok s' (c ++ op_bytes op) /\ keeps s s'.
Proof.
  intros Hok Hv Hlen. destruct op as [bs|n z|w z|b bs]; simpl in *.
  - by apply ob_Write_bytes_extends.
  - by apply ob_Write_extends.
  - destruct Hv. by apply ob_Var_full_extends.
  - destruct Hv. by apply ob_Write_blob_extends.
Qed.

Lemma run_ops_extends s c ops : ob_ok s c -> Forall (op_valid s) ops ->
  zlen c + zlen (concat (op_bytes <$> ops)) < 2 ^ 31 ->
  exists s', forM ops run_op s = (Ok tt, s') /\ ob_ok s' (c ++ concat (op_bytes <$> ops)) /\
    keeps s s'.
Proof.
  revert s c. induction ops as [|op ops IH]; intros s c Hok Hv Hlen.
  { exists s. simpl. rewrite app_nil_r. split_and!; [done|done|apply keeps_refl]. }
  rewrite fmap_cons in *. cbn [concat forM] in *. rewrite length_app in Hlen.
  apply Forall_cons_1 in Hv as [Hv Hvs].
  destruct (run_op_extends s c op Hok Hv ltac:(lia)) as (s1 & E1 & Hok1 & Hk1).
  destruct (IH s1 (c ++ op_bytes op) Hok1) as (s2 & E2 & Hok2 & Hk2).
  - eapply Forall_impl; [|exact Hvs]. intros op' Hop. by eapply op_valid_keeps.
  - rewrite length_app. lia.
  - exists s2. rewrite (bind_ok _ _ _ _ _ E1), app_assoc.
    split_and!; [done|done|by eapply keeps_trans].
Qed.

(** C9: any sequence of writes (raw bytes, fixed-size values, variable-length
    integers, chained blobs) of fewer than 2^31 bytes in total runs without an
    exception or an out-of-bounds access, however the buffer is split, grown and
    chained, and both [GetBuffer] and [GetBuffers] then return exactly the bytes
    written, in order. *)
Theorem output_buffer_refines s c ops :
  ob_ok s c -> Forall (op_valid s) ops ->
  zlen c + zlen (concat (op_bytes <$> ops)) < 2 ^ 31 ->
  exists s' r m' l bss,
    forM ops run_op s = (Ok tt, s') /\
    GetBuffer s' = (Ok r, m') /\ blob_ok m' r (c ++ concat (op_bytes <$> ops)) /\
    GetBuffers s' = Ok l /\ Forall2 (blob_ok (ob_mem s')) l bss /\
    concat bss = c ++ concat (op_bytes <$> ops).
Proof.
  intros Hok Hv Hlen.
  destruct (run_ops_extends s c ops Hok Hv Hlen) as (s' & E & Hok' & _).
  destruct (GetBuffer_spec s' _ Hok') as (r & m' & Hr & Hb).
  { rewrite length_app. change (2 ^ 32) with (2 * 2 ^ 31). lia. }
  destruct (GetBuffers_spec s' _ Hok') as (l & bss & Hl & Hbs & Hc).
  by exists s', r, m', l, bss.
Qed.

End OutputBuffer.

(** A buffer of four bytes, a chained blob and a growth step. *)
Definition blob_mem : mem := [mkBlock 8192 (replicate 40 (Some Byte.x2a))].
Definition big_blob : blob := mkBlob (At 0 0) (At 0 0) 40.

Lemma output_buffer_refines_witness :
  exists s s' r m',
    @OutputBuffer_reserve flat_allocator blob_mem 4 32 (umax 32) = Ok s /\
    forM [WVar 32 300; WBlob big_blob (replicate 40 Byte.x2a); WFixed 4 1]
      (@run_op flat_allocator) s = (Ok tt, s') /\
    @GetBuffer flat_allocator s' = (Ok r, m') /\
    blob_ok m' r (varint 300 ++ replicate 40 Byte.x2a ++ le_bytes 4 1).
Proof.
  destruct (@OutputBuffer_reserve_ok flat_allocator blob_mem 4 32 (umax 32))
    as (s & Hs & Hok & Hfree); [by repeat constructor; vm_compute|by vm_compute|].
  destruct (Hfree (At 0 0) 40 (replicate 40 Byte.x2a)) as [Hl Ht]; [by vm_compute|].
  destruct (@output_buffer_refines flat_allocator s []
    [WVar 32 300; WBlob big_blob (replicate 40 Byte.x2a); WFixed 4 1] Hok)
    as (s' & r & m' & l & bss & E & Hr & Hb & _).
  - apply Forall_cons_2; [split; [by right; left|by vm_compute]|].
    apply Forall_cons_2; [|apply Forall_cons_2; [simpl; lia|done]].
    split; [|exact Ht]. split; [by vm_compute|exact Hl].
  - by vm_compute.
  - exists s, s', r, m'. done.
Defined.
