(* ===== verification/OutputCounter.v ===== *)
(** OutputCounter (cpp/inc/bond/stream/output_counter.h): the output of the first
    pass of a two-pass serialization, which only counts bytes.  It discharges the
    output-stream laws: what it adds up is the length of what a buffer would
    hold. *)

From S2P Require Import Prelude Streams Encoding Blob.

(** [struct OutputCounter { uint32_t _count; }] *)
Record OutputCounter : Type := mkOC { _count : Z }.

Definition OutputCounter_new : OutputCounter := mkOC 0.

Definition GetCount (s : OutputCounter) : Z := _count s.

(** [_count += n], an unsigned 32-bit addition. *)
Definition count_add (n : Z) : M OutputCounter unit :=
  modify (fun s => mkOC (wrap 32 (_count s + n))).

(** [VariableUnsigned<T, N>::Write(count, value)]: the recursion over [N] ends in
    the specialisation for the type's largest encoding. *)
Definition last_N (w : Z) : nat :=
  if w =? 64 then 10%nat else if w =? 32 then 5%nat else 3%nat.

Fixpoint VariableUnsigned_Write (fuel : nat) (w : Z) (N : nat) (value : Z) :
    M OutputCounter unit :=
  match fuel with
  | O => fail OutOfFuel
  | S fuel' =>
      if Nat.eqb N (last_N w) then count_add (Z.of_nat N)
      else if value =? 0 then count_add (Z.of_nat N)
      else VariableUnsigned_Write fuel' w (S N) (Z.shiftr value 7)
  end.

(** [Write(const T&)], [Write(const void*, uint32_t)], [Write(const blob&)],
    [Write(const Buffer&)], [WriteVariableUnsigned(T)]. *)
Definition oc_Write (n : nat) (value : Z) : M OutputCounter unit := count_add (Z.of_nat n).
Definition oc_Write_bytes (bs : list byte) : M OutputCounter unit := count_add (zlen bs).
Definition oc_Write_blob (b : blob) : M OutputCounter unit := count_add (blob_length b).

(** [struct Buffer { uint32_t _size; }], what [GetBuffer()] returns. *)
Record CountBuffer : Type := mkCB { _size : Z }.
Definition oc_GetBuffer (s : OutputCounter) : CountBuffer := mkCB (GetCount s).
Definition oc_Write_Buffer (b : CountBuffer) : M OutputCounter unit := count_add (_size b).

Definition oc_WriteVariableUnsigned (w value : Z) : M OutputCounter unit :=
  VariableUnsigned_Write 10 w 1 (Z.shiftr value 7).

Definition oc_CreateOutputBuffer (other : OutputCounter) : OutputCounter := OutputCounter_new.

(** * Correctness *)

#[export] Instance OutputCounter_writable : Writable OutputCounter.
Proof.
  refine {| appends s bs s' := _count s' = _count s + zlen bs;
            room s n := 0 <= _count s /\ 0 <= n /\ _count s + n < 2 ^ 32 |}.
  - intros. simpl. lia.
  - intros. rewrite length_app. lia.
  - intros. lia.
Defined.

#[export] Instance OutputCounter_stream : OutputStream OutputCounter := {
  os_Write_bytes := oc_Write_bytes;
  os_Write := oc_Write;
  os_WriteVariableUnsigned := oc_WriteVariableUnsigned
}.

Lemma count_add_emits n bs : zlen bs = n -> emits (count_add n) bs.
Proof.
  intros <- s k [H0 [H1 H2]] Hk. eexists. split; [done|]. simpl.
  rewrite wrap_id by (unfold fits; lia). lia.
Qed.

(** The length of an encoding, one byte at a time. *)
Lemma varint_enc_length_S n z :
  zlen (varint_enc (S n) z) = if z / 128 =? 0 then 1 else
    if z <? 128 then 1 else 1 + zlen (varint_enc n (z / 128)).
Proof.
  rewrite varint_enc_S. destruct (z <? 128) eqn:E; [by case_match|].
  apply Z.ltb_ge in E. assert (0 < z / 128) by (apply Z.div_str_pos; lia).
  zbool. simpl length. lia.
Qed.

(** [N] groups are counted already and [z] is what is left of the value. *)
Lemma VariableUnsigned_counts w m fuel N z :
  (N + m = last_N w)%nat -> (m < fuel)%nat -> 0 <= z < 2 ^ (7 * Z.of_nat (S m)) ->
  forall bs, zlen bs = Z.of_nat N - 1 + zlen (varint_enc (S m) z) ->
  emits (VariableUnsigned_Write fuel w N (Z.shiftr z 7)) bs.
Proof.
  revert fuel N z. induction m as [|m IH]; intros [|fuel] N z HN Hf Hz bs Hbs; try lia.
  - cbn [VariableUnsigned_Write]. replace N with (last_N w) by lia. rewrite Nat.eqb_refl.
    apply count_add_emits. rewrite varint_enc_S in Hbs. change (2 ^ (7 * Z.of_nat 1)) with 128 in Hz.
    replace (z <? 128) with true in Hbs by (symmetry; apply Z.ltb_lt; lia). simpl in Hbs. lia.
  - cbn [VariableUnsigned_Write]. rewrite (proj2 (Nat.eqb_neq N (last_N w))) by lia.
    rewrite shiftr7. rewrite varint_enc_length_S in Hbs.
    destruct (z / 128 =? 0) eqn:E; [apply count_add_emits; lia|]. apply Z.eqb_neq in E.
    assert (128 <= z) by (destruct (Z.lt_ge_cases z 128);
      [rewrite Z.div_small in E|]; lia).
    replace (z <? 128) with false in Hbs by (symmetry; apply Z.ltb_ge; lia).
    replace (Z.of_nat (S (S m))) with (1 + Z.of_nat (S m)) in Hz by lia.
    apply IH; [lia|lia|by apply div128_lt|]. rewrite Hbs. lia.
Qed.

Lemma oc_Var_emits w z : var_width w -> fits w z ->
  emits (oc_WriteVariableUnsigned w z) (varint z).
Proof.
  intros Hw Hz. unfold oc_WriteVariableUnsigned, varint, fits in *.
  destruct Hw as [->|[->| ->]].
  - apply (VariableUnsigned_counts 16 2); [done|lia| |].
    + change (2 ^ (7 * Z.of_nat 3)) with (2 ^ 16 * 32). lia.
    + rewrite (varint_enc_stable 3 10); [lia| |lia].
      change (2 ^ (7 * Z.of_nat 3)) with (2 ^ 16 * 32). lia.
  - apply (VariableUnsigned_counts 32 4); [done|lia| |].
    + change (2 ^ (7 * Z.of_nat 5)) with (2 ^ 32 * 8). lia.
    + rewrite (varint_enc_stable 5 10); [lia| |lia].
      change (2 ^ (7 * Z.of_nat 5)) with (2 ^ 32 * 8). lia.
  - apply (VariableUnsigned_counts 64 9); [done|lia| |lia].
    change (2 ^ (7 * Z.of_nat 10)) with (2 ^ 64 * 64). lia.
Qed.

#[export] Instance OutputCounter_laws : OutputStreamLaws OutputCounter.
Proof.
  split; simpl.
  - intros bs _. by apply count_add_emits.
  - intros n z _. apply count_add_emits. by rewrite length_le_bytes.
  - apply oc_Var_emits.
Qed.

(** The template recursion that counts the bytes of a variable-length integer
    adds exactly the length of its encoding, for each of the three widths, and
    the counter holds no other effect. *)
Lemma counter_counts_varint w z s :
  var_width w -> fits w z -> 0 <= GetCount s -> GetCount s + 10 < 2 ^ 32 ->
  oc_WriteVariableUnsigned w z s = (Ok tt, mkOC (GetCount s + zlen (varint z))).
Proof.
  intros Hw Hz H0 H1. unfold GetCount in *.
  assert (Hl : zlen (varint z) <= 10).
  { pose proof (varint_length_le w z Hw Hz). destruct Hw as [->|[->| ->]]; etrans; try done. }
  destruct (oc_Var_emits w z Hw Hz s 10) as ([c] & E & A & _); [simpl; lia|done|].
  simpl in A. rewrite E. by rewrite A.
Qed.

Lemma counter_counts_varint_witness :
  oc_WriteVariableUnsigned 64 (2 ^ 64 - 1) (mkOC 7) = (Ok tt, mkOC 17).
Proof.
  rewrite (counter_counts_varint 64 (2 ^ 64 - 1) (mkOC 7)); [done|by right; right|done|done|done].
Defined.
