(* ===== verification/DataType.v ===== *)
(** Data types and basic values (idl/bond/core/bond_const.bond and the template
    arguments of the C++ headers).

    The type tags that travel on the wire, the C++ types the basic ones stand
    for, their values, and the object representation [InputBuffer::Read] and
    [OutputBuffer::Write] copy. *)

From S2P Require Import Prelude Streams Encoding.

(** * [enum BondDataType], an integer that is read from the wire unchecked *)

Abbreviation BondDataType := Z (only parsing).
Definition BT_STOP : BondDataType := 0.
Definition BT_STOP_BASE : BondDataType := 1.
Definition BT_BOOL : BondDataType := 2.
Definition BT_UINT8 : BondDataType := 3.
Definition BT_UINT16 : BondDataType := 4.
Definition BT_UINT32 : BondDataType := 5.
Definition BT_UINT64 : BondDataType := 6.
Definition BT_FLOAT : BondDataType := 7.
Definition BT_DOUBLE : BondDataType := 8.
Definition BT_STRING : BondDataType := 9.
Definition BT_STRUCT : BondDataType := 10.
Definition BT_LIST : BondDataType := 11.
Definition BT_SET : BondDataType := 12.
Definition BT_MAP : BondDataType := 13.
Definition BT_INT8 : BondDataType := 14.
Definition BT_INT16 : BondDataType := 15.
Definition BT_INT32 : BondDataType := 16.
Definition BT_INT64 : BondDataType := 17.
Definition BT_WSTRING : BondDataType := 18.

(** Protocol magic numbers and versions. *)
Definition FAST_PROTOCOL : Z := 0x464d.
Definition COMPACT_PROTOCOL : Z := 0x4243.
Definition SIMPLE_PROTOCOL : Z := 0x5053.
Definition v1 : Z := 1.
Definition v2 : Z := 2.

(** * The basic C++ types and their values *)

Inductive width : Set := W8 | W16 | W32 | W64.

Inductive btype : Set :=
| TBool
| TUInt (w : width)
| TInt (w : width)
| TFloat
| TDouble
| TString
| TWString.

#[export] Instance width_eq_dec : EqDecision width.
Proof. solve_decision. Defined.
#[export] Instance btype_eq_dec : EqDecision btype.
Proof. solve_decision. Defined.

(** Floating point values are their IEEE bit patterns; strings are sequences of
    code units, 8-bit for [std::string], 16-bit on the wire for
    [std::wstring]. *)
Inductive scalar : Type :=
| SBool (b : bool)
| SUInt (w : width) (z : Z)
| SInt (w : width) (z : Z)
| SFloat (bits : Z)
| SDouble (bits : Z)
| SString (units : list Z)
| SWString (units : list Z).

#[export] Instance scalar_eq_dec : EqDecision scalar.
Proof. solve_decision. Defined.

Definition bytes_of (w : width) : nat :=
  match w with W8 => 1 | W16 => 2 | W32 => 4 | W64 => 8 end.
Definition bits_of (w : width) : Z :=
  match w with W8 => 8 | W16 => 16 | W32 => 32 | W64 => 64 end.

Definition btype_of (s : scalar) : btype :=
  match s with
  | SBool _ => TBool
  | SUInt w _ => TUInt w
  | SInt w _ => TInt w
  | SFloat _ => TFloat
  | SDouble _ => TDouble
  | SString _ => TString
  | SWString _ => TWString
  end.

(** [get_type_id<T>::value]. *)
Definition get_type_id (t : btype) : BondDataType :=
  match t with
  | TBool => BT_BOOL
  | TUInt W8 => BT_UINT8
  | TUInt W16 => BT_UINT16
  | TUInt W32 => BT_UINT32
  | TUInt W64 => BT_UINT64
  | TInt W8 => BT_INT8
  | TInt W16 => BT_INT16
  | TInt W32 => BT_INT32
  | TInt W64 => BT_INT64
  | TFloat => BT_FLOAT
  | TDouble => BT_DOUBLE
  | TString => BT_STRING
  | TWString => BT_WSTRING
  end.

(** The switch over a type tag that selects the C++ type, [None] in its default
    branch. *)
Definition basic_type_of_id (t : BondDataType) : option btype :=
  if t =? BT_BOOL then Some TBool
  else if t =? BT_UINT8 then Some (TUInt W8)
  else if t =? BT_UINT16 then Some (TUInt W16)
  else if t =? BT_UINT32 then Some (TUInt W32)
  else if t =? BT_UINT64 then Some (TUInt W64)
  else if t =? BT_FLOAT then Some TFloat
  else if t =? BT_DOUBLE then Some TDouble
  else if t =? BT_STRING then Some TString
  else if t =? BT_INT8 then Some (TInt W8)
  else if t =? BT_INT16 then Some (TInt W16)
  else if t =? BT_INT32 then Some (TInt W32)
  else if t =? BT_INT64 then Some (TInt W64)
  else if t =? BT_WSTRING then Some TWString
  else None.

(** The values a variable of the type can hold; lengths are what a [uint32_t]
    can count. *)
Definition scalar_ok (s : scalar) : Prop :=
  match s with
  | SBool _ => True
  | SUInt w z => fits (bits_of w) z
  | SInt w z => sfits (bits_of w) z
  | SFloat z => fits 32 z
  | SDouble z => fits 64 z
  | SString l => Forall (fits 8) l /\ zlen l < 2 ^ 32
  | SWString l => Forall (fits 16) l /\ zlen l < 2 ^ 32
  end.

(** * Object representations *)

(** The bytes of a fixed-size object ([sizeof] many); strings have none. *)
Definition raw_size (t : btype) : nat :=
  match t with
  | TBool => 1
  | TUInt w | TInt w => bytes_of w
  | TFloat => 4
  | TDouble => 8
  | TString | TWString => 0
  end.

Definition raw_value (s : scalar) : Z :=
  match s with
  | SBool b => if b then 1 else 0
  | SUInt _ z | SInt _ z | SFloat z | SDouble z => z
  | SString _ | SWString _ => 0
  end.

Definition raw_bytes (s : scalar) : list byte := le_bytes (raw_size (btype_of s)) (raw_value s).

(** What a variable of type [t] holds after the bytes of the integer [z] were
    copied over it.  A [bool] whose byte is neither 0 nor 1 has no value, using
    it is undefined. *)
Definition raw_decode (t : btype) (z : Z) : outcome scalar :=
  match t with
  | TBool => if z =? 0 then Ok (SBool false) else if z =? 1 then Ok (SBool true)
             else Err Undefined
  | TUInt w => Ok (SUInt w (wrap (bits_of w) z))
  | TInt w => Ok (SInt w (to_signed (bits_of w) z))
  | TFloat => Ok (SFloat z)
  | TDouble => Ok (SDouble z)
  | TString | TWString => Err Undefined
  end.

Section Raw.
Context {S : Type}.

(** [_input.Read(value)] and [_output.Write(value)] for the fixed-size types. *)
Definition Read_raw `{InputStream S} (t : btype) : M S scalar :=
  let! z := is_Read (raw_size t) in of_outcome (raw_decode t z).

Definition Write_raw `{OutputStream S} (s : scalar) : M S unit :=
  os_Write (raw_size (btype_of s)) (raw_value s).

(** [string_length(value)], a [uint32_t]. *)
Definition string_length (l : list Z) : Z := wrap 32 (zlen l).

(** [detail::ReadStringData] and [detail::WriteStringData], selected by the string
    type: block copies for [std::string], unit by unit for a [std::wstring] whose
    [wchar_t] is wider than the wire's unit. *)
Definition WriteStringData `{OutputStream S} (s : scalar) (length : Z) : M S unit :=
  match s with
  | SString l => WriteStringData_same 1 l length
  | SWString l => WriteStringData_wide l length
  | _ => fail Undefined
  end.

Definition ReadStringData `{InputStream S} (t : btype) (length : Z) : M S scalar :=
  match t with
  | TString => let! l := ReadStringData_same 1 length in ret (SString l)
  | TWString => let! l := ReadStringData_wide length in ret (SWString l)
  | _ => fail Undefined
  end.
End Raw.

Definition is_string_type (t : btype) : bool :=
  match t with TString | TWString => true | _ => false end.

(** The units of a string as bytes. *)
Definition string_bytes (s : scalar) : list byte :=
  match s with
  | SString l => concat (le_bytes 1 <$> l)
  | SWString l => concat (le_bytes 2 <$> l)
  | _ => []
  end.
Definition string_units (s : scalar) : list Z :=
  match s with SString l | SWString l => l | _ => [] end.

(** * Properties *)

Lemma bits_bytes w : bits_of w = Z.of_nat (bytes_of w) * 8.
Proof. by destruct w. Qed.

Lemma type_id_roundtrip t : basic_type_of_id (get_type_id t) = Some t.
Proof. by destruct t as [|[]|[]| | | |]. Qed.

Lemma basic_type_of_id_inv t b : basic_type_of_id t = Some b -> t = get_type_id b.
Proof.
  unfold basic_type_of_id. intros Hb.
  repeat (case_match eqn:E; [apply Z.eqb_eq in E; subst; by simplify_eq|clear E]). done.
Qed.

Lemma raw_roundtrip s : scalar_ok s -> is_string_type (btype_of s) = false ->
  raw_decode (btype_of s) (of_le (raw_bytes s)) = Ok s.
Proof.
  unfold raw_bytes. rewrite of_le_bytes.
  destruct s as [b|w z|w z|z|z|l|l]; simpl; intros Hok Hs; try done.
  - by destruct b.
  - rewrite <-bits_bytes, wrap_wrap. by rewrite wrap_id.
  - rewrite <-bits_bytes, to_signed_wrap; [done| |done]. by destruct w.
  - by rewrite wrap_id.
  - by rewrite wrap_id.
Qed.

Lemma raw_size_pos t : is_string_type t = false -> (0 < raw_size t <= 8)%nat.
Proof. destruct t as [|[]|[]| | | |]; simpl; intros; try done; lia. Qed.

Section RawLaws.
Context {S : Type}.

Lemma Read_raw_reads `{InputStreamLaws S} s :
  scalar_ok s -> is_string_type (btype_of s) = false ->
  reads (S := S) (Read_raw (btype_of s)) (raw_bytes s) s.
Proof.
  intros Hok Hs. rewrite <-(app_nil_r (raw_bytes s)). unfold Read_raw.
  eapply reads_bind.
  - apply is_Read_reads; [by apply length_le_bytes|by apply raw_size_pos].
  - rewrite raw_roundtrip by done. apply reads_ret.
Qed.

Lemma Write_raw_emits `{OutputStreamLaws S} s : is_string_type (btype_of s) = false ->
  emits (S := S) (Write_raw s) (raw_bytes s).
Proof. intros Hs. apply os_Write_emits. by apply raw_size_pos. Qed.

Lemma string_length_id l : zlen l < 2 ^ 32 -> string_length l = zlen l.
Proof. intros. apply wrap_id. unfold fits. lia. Qed.

Lemma concat_le_bytes_wrap n l : Forall (fits (8 * Z.of_nat n)) l ->
  concat ((fun z => le_bytes n (wrap (8 * Z.of_nat n) z)) <$> l) = concat (le_bytes n <$> l).
Proof.
  induction 1 as [|z l Hz _ IH]; [done|]. rewrite !fmap_cons. cbn [concat].
  by rewrite IH, wrap_id.
Qed.

Lemma WriteStringData_emits `{OutputStreamLaws S} s :
  scalar_ok s -> is_string_type (btype_of s) = true ->
  emits (S := S) (WriteStringData s (zlen (string_units s))) (string_bytes s).
Proof.
  intros Hok Hs. destruct s as [| | | | |l|l]; try done; destruct Hok as [Hf Hl]; simpl.
  - unfold WriteStringData_same. change (Z.of_nat 1) with 1.
    rewrite Z.mul_1_r, wrap_id by (unfold fits; lia).
    assert (Hc : length (concat (le_bytes 1 <$> l)) = length l)
      by (rewrite length_concat_le_bytes; lia).
    rewrite take_ge by lia. apply os_Write_bytes_emits. lia.
  - unfold WriteStringData_wide. rewrite take_ge by lia.
    rewrite <-(concat_le_bytes_wrap 2 l) by done.
    apply (emits_forM _ (fun z => le_bytes 2 (wrap 16 z))). intros z _.
    apply os_Write_emits. lia.
Qed.

Lemma collectM_reads `{Readable S} {A} (m : M S A) (g : A -> list byte) l :
  (forall x, x ∈ l -> reads m (g x) x) -> reads (collectM (length l) m) (concat (g <$> l)) l.
Proof.
  induction l as [|x l IH]; intros Hm; [apply reads_ret|].
  rewrite fmap_cons. cbn [length collectM concat].
  eapply reads_bind; [apply Hm; left|]. apply (reads_map _ (cons x)).
  apply IH. intros. apply Hm. by right.
Qed.

Lemma ReadStringData_reads `{InputStreamLaws S} s :
  scalar_ok s -> is_string_type (btype_of s) = true ->
  reads (S := S) (ReadStringData (btype_of s) (zlen (string_units s))) (string_bytes s) s.
Proof.
  intros Hok Hs. destruct s as [| | | | |l|l]; try done; destruct Hok as [Hf Hl]; simpl.
  - apply (reads_map _ SString). unfold ReadStringData_same. change (Z.of_nat 1) with 1.
    rewrite Z.mul_1_r, wrap_id by (unfold fits; lia).
    assert (Hc : length (concat (le_bytes 1 <$> l)) = length l)
      by (rewrite length_concat_le_bytes; lia).
    rewrite Nat2Z.id.
    assert (Hr : reads (S := S) (is_Read_bytes (zlen (concat (le_bytes 1 <$> l))))
      (concat (le_bytes 1 <$> l)) (concat (le_bytes 1 <$> l)))
      by (apply is_Read_bytes_reads; lia).
    apply (reads_map _ (chunks 1 (length l))) in Hr.
    rewrite chunks_concat in Hr by (done || lia). by rewrite Hc in Hr.
  - apply (reads_map _ SWString). unfold ReadStringData_wide. rewrite Nat2Z.id.
    apply collectM_reads. intros z Hz. rewrite Forall_forall in Hf.
    rewrite <-(wrap_id 16 z) at 2 by (apply Hf; by apply list_elem_of_In in Hz || done).
    change (wrap 16 z) with (wrap (Z.of_nat 2 * 8) z). rewrite <-of_le_bytes.
    apply is_Read_reads; [by apply length_le_bytes|lia].
Qed.
End RawLaws.
