(* ===== verification/Metadata.v ===== *)
(** Default values and field omission (cpp/inc/bond/core/detail/metadata.h,
    cpp/inc/bond/core/detail/omit_default.h).

    A field's default value is kept in a [Variant] that has one slot per kind of
    value; an optional field whose value compares equal to it is left out of the
    payload. *)

From S2P Require Import Prelude DataType.

(** * Floating point values as bit patterns *)

Definition float_sign (bits : Z) : Z := bits / 2 ^ 31.
Definition float_exp (bits : Z) : Z := bits / 2 ^ 23 mod 2 ^ 8.
Definition float_man (bits : Z) : Z := bits mod 2 ^ 23.
Definition double_sign (bits : Z) : Z := bits / 2 ^ 63.
Definition double_exp (bits : Z) : Z := bits / 2 ^ 52 mod 2 ^ 11.
Definition double_man (bits : Z) : Z := bits mod 2 ^ 52.

Definition float_nan (bits : Z) : bool := (float_exp bits =? 255) && negb (float_man bits =? 0).
Definition double_nan (bits : Z) : bool :=
  (double_exp bits =? 2047) && negb (double_man bits =? 0).

(** [operator==] on [double]: a NaN differs from everything, the zeros are
    equal. *)
Definition double_eq (a b : Z) : bool :=
  negb (double_nan a) && negb (double_nan b) &&
  ((a =? b) || ((a mod 2 ^ 63 =? 0) && (b mod 2 ^ 63 =? 0))).

(** The conversion of a [float] to [double], which is exact; a NaN is made quiet. *)
Definition float_to_double (f : Z) : Z :=
  let s := float_sign f * 2 ^ 63 in
  let e := float_exp f in
  let m := float_man f in
  if e =? 255 then
    s + 2047 * 2 ^ 52 + (if m =? 0 then 0 else Z.lor (m * 2 ^ 29) (2 ^ 51))
  else if e =? 0 then
    if m =? 0 then s
    else let k := Z.log2 m in s + (k + 874) * 2 ^ 52 + (m - 2 ^ k) * 2 ^ (52 - k)
  else s + (e + 896) * 2 ^ 52 + m * 2 ^ 29.

(** [n / 2 ^ k] rounded to nearest, ties to even. *)
Definition round_shift (n k : Z) : Z :=
  let q := n / 2 ^ k in
  let r := n mod 2 ^ k in
  if (2 ^ k <? 2 * r) || ((2 ^ k =? 2 * r) && Z.odd q) then q + 1 else q.

(** [static_cast<float>(double)] in the default rounding mode; beyond the range
    of [float] the result is an infinity. *)
Definition double_to_float (d : Z) : Z :=
  let s := double_sign d * 2 ^ 31 in
  let e := double_exp d in
  let m := double_man d in
  if e =? 2047 then
    s + 255 * 2 ^ 23 + (if m =? 0 then 0 else Z.lor (m / 2 ^ 29) (2 ^ 22))
  else if e =? 0 then s
  else if 1150 <? e then s + 255 * 2 ^ 23
  else if 897 <=? e then s + (e - 897) * 2 ^ 23 + round_shift (2 ^ 52 + m) 29
  else s + round_shift (2 ^ 52 + m) (926 - e).

(** * Variant *)

(** [struct Variant]. *)
Record Variant : Type := mkVariant {
  uint_value : Z;
  int_value : Z;
  double_value : Z;
  string_value : list Z;
  wstring_value : list Z;
  nothing : bool
}.

Definition Variant_new : Variant := mkVariant 0 0 0 [] [] false.

(** [VariantSet(variant, value)]; a [float] argument converts to [double]. *)
Definition VariantSet (v : Variant) (s : scalar) : Variant :=
  let '(mkVariant u i d str wstr n) := v in
  match s with
  | SBool b => mkVariant (if b then 1 else 0) i d str wstr n
  | SUInt _ z => mkVariant z i d str wstr n
  | SInt _ z => mkVariant u z d str wstr n
  | SFloat z => mkVariant u i (float_to_double z) str wstr n
  | SDouble z => mkVariant u i z str wstr n
  | SString l => mkVariant u i d l wstr n
  | SWString l => mkVariant u i d str l n
  end.

(** [VariantGet(variant, var)]. *)
Definition VariantGet (v : Variant) (t : btype) : scalar :=
  match t with
  | TBool => SBool (negb (uint_value v =? 0))
  | TUInt w => SUInt w (wrap (bits_of w) (uint_value v))
  | TInt w => SInt w (to_signed (bits_of w) (int_value v))
  | TFloat => SFloat (double_to_float (double_value v))
  | TDouble => SDouble (double_value v)
  | TString => SString (string_value v)
  | TWString => SWString (wstring_value v)
  end.

(** [operator==(variant, value)]; a [float] is compared as a [double]. *)
Definition variant_eq (v : Variant) (s : scalar) : bool :=
  match s with
  | SBool b => eqb b (negb (uint_value v =? 0))
  | SUInt w z => z =? wrap (bits_of w) (uint_value v)
  | SInt w z => z =? to_signed (bits_of w) (int_value v)
  | SFloat z => double_eq (float_to_double z) (double_value v)
  | SDouble z => double_eq z (double_value v)
  | SString l => bool_decide (l = string_value v)
  | SWString l => bool_decide (l = wstring_value v)
  end.

(** * Field metadata and omission *)

Inductive Modifier : Set := Optional | Required | RequiredOptional.

#[export] Instance modifier_eq_dec : EqDecision Modifier.
Proof. solve_decision. Defined.

(** [struct Metadata]: the members the serializers look at, the name and the attributes for
    the JSON writer only. *)
Record Metadata : Type := mkMetadata {
  modifier : Modifier;
  default_value : Variant;
  md_name : list Z;
  md_attributes : list (list Z * list Z)
}.

(** The overloads of [is_default]: basic fields and strings against the metadata,
    containers when empty, structs never. *)
Definition is_default_basic (s : scalar) (m : Metadata) : bool := variant_eq (default_value m) s.
Definition is_default_container (container_size : Z) (m : Metadata) : bool := container_size =? 0.
Definition is_default_struct (m : Metadata) : bool := false.

(** [omit_field<Writer>]: only writers that may omit fields look at the value. *)
Definition omit_field (may_omit_fields : bool) (m : Metadata) (is_default : bool) : bool :=
  if may_omit_fields then bool_decide (modifier m = Optional) && is_default else false.

(** [operator==] does not see the sign of a zero.  [zero_kept v s]: [s] and the stored
    default [v] are not zeros of opposite signs. *)
Definition zero_kept (v : Variant) (s : scalar) : Prop :=
  let d := double_value v in
  match s with
  | SFloat z => z mod 2 ^ 31 = 0 -> d mod 2 ^ 63 = 0 -> float_sign z = double_sign d
  | SDouble z => z mod 2 ^ 63 = 0 -> d mod 2 ^ 63 = 0 -> double_sign z = double_sign d
  | _ => True
  end.

(** * Properties *)

Lemma eq_bool_refl b : eqb b b = true.
Proof. by destruct b. Qed.

Definition not_nan (s : scalar) : Prop :=
  match s with
  | SFloat z => float_nan z = false
  | SDouble z => double_nan z = false
  | _ => True
  end.

Lemma float_parts f : fits 32 f ->
  f = float_sign f * 2 ^ 31 + float_exp f * 2 ^ 23 + float_man f /\
  0 <= float_sign f <= 1 /\ 0 <= float_exp f <= 255 /\ 0 <= float_man f < 2 ^ 23.
Proof.
  unfold fits, float_sign, float_exp, float_man. intros Hf.
  change (2 ^ 31) with (2 ^ 23 * 2 ^ 8). rewrite <-Z.div_div by lia.
  pose proof (Z.div_mod f (2 ^ 23) ltac:(lia)).
  pose proof (Z.mod_pos_bound f (2 ^ 23) ltac:(lia)).
  pose proof (Z.div_mod (f / 2 ^ 23) (2 ^ 8) ltac:(lia)).
  pose proof (Z.mod_pos_bound (f / 2 ^ 23) (2 ^ 8) ltac:(lia)).
  change (2 ^ 32) with (2 ^ 23 * 2 ^ 8 * 2) in Hf. change (2 ^ 23) with 8388608 in *.
  change (2 ^ 8) with 256 in *. lia.
Qed.

(** The parts of a double that is put together from parts. *)
Lemma double_of_parts s e m : 0 <= s <= 1 -> 0 <= e < 2048 -> 0 <= m < 2 ^ 52 ->
  double_sign (s * 2 ^ 63 + e * 2 ^ 52 + m) = s /\
  double_exp (s * 2 ^ 63 + e * 2 ^ 52 + m) = e /\
  double_man (s * 2 ^ 63 + e * 2 ^ 52 + m) = m.
Proof.
  intros Hs He Hm. unfold double_sign, double_exp, double_man.
  assert (E : (s * 2 ^ 63 + e * 2 ^ 52 + m) / 2 ^ 52 = s * 2048 + e).
  { symmetry. apply Z.div_unique with m; [lia|]. change (2 ^ 63) with (2 ^ 52 * 2048). lia. }
  split_and!.
  - symmetry. apply Z.div_unique with (e * 2 ^ 52 + m); [|lia].
    change (2 ^ 63) with (2 ^ 52 * 2048). change (2 ^ 52) with 4503599627370496 in *. lia.
  - rewrite E. change (2 ^ 11) with 2048. rewrite Z.add_comm, Z.mod_add by lia.
    apply Z.mod_small. lia.
  - symmetry. apply Z.mod_unique_pos with (s * 2048 + e); [lia|].
    change (2 ^ 63) with (2 ^ 52 * 2048). lia.
Qed.

Lemma round_shift_exact q k : 0 <= k -> round_shift (q * 2 ^ k) k = q.
Proof.
  intros Hk. unfold round_shift. rewrite Z.mod_mul, Z.div_mul by lia.
  assert (0 < 2 ^ k) by (apply Z.pow_pos_nonneg; lia). by zbool.
Qed.

(** The widened float, part by part. *)
Lemma widen_parts f : fits 32 f -> float_nan f = false ->
  exists e m, float_to_double f = float_sign f * 2 ^ 63 + e * 2 ^ 52 + m /\
    0 <= e < 2048 /\ 0 <= m < 2 ^ 52 /\
    ((float_exp f = 255 /\ float_man f = 0 /\ e = 2047 /\ m = 0) \/
     (float_exp f = 0 /\ float_man f = 0 /\ e = 0 /\ m = 0) \/
     (float_exp f = 0 /\ 0 < float_man f /\ exists k, 0 <= k < 23 /\ e = k + 874 /\
        2 ^ 52 + m = float_man f * 2 ^ (52 - k)) \/
     (0 < float_exp f < 255 /\ e = float_exp f + 896 /\ m = float_man f * 2 ^ 29)).
Proof.
  intros Hf Hn. destruct (float_parts f Hf) as (_ & Hs & He & Hm).
  unfold float_nan in Hn. unfold float_to_double. change (2 ^ 52) with (2 ^ 23 * 2 ^ 29) in *.
  assert (0 < 2 ^ 29) by done. cbv zeta.
  destruct (float_exp f =? 255) eqn:E1.
  { simpl in Hn. apply negb_false_iff in Hn. rewrite Hn. apply Z.eqb_eq in E1, Hn.
    exists 2047, 0. split_and!; [lia..|by left]. }
  apply Z.eqb_neq in E1. destruct (float_exp f =? 0) eqn:E2.
  - apply Z.eqb_eq in E2. destruct (float_man f =? 0) eqn:E3.
    + apply Z.eqb_eq in E3. exists 0, 0. split_and!; [lia..|by right; left].
    + apply Z.eqb_neq in E3. set (k := Z.log2 (float_man f)).
      destruct (Z.log2_spec (float_man f) ltac:(lia)) as [Hk1 Hk2]. fold k in Hk1, Hk2.
      assert (Hk : 0 <= k < 23).
      { split; [apply Z.log2_nonneg|]. apply Z.log2_lt_pow2; lia. }
      assert (Hp : 2 ^ k * 2 ^ (52 - k) = 2 ^ 23 * 2 ^ 29).
      { rewrite <-!Z.pow_add_r by lia. f_equal. lia. }
      assert (0 < 2 ^ (52 - k)) by (apply Z.pow_pos_nonneg; lia).
      rewrite Z.pow_succ_r in Hk2 by lia.
      exists (k + 874), ((float_man f - 2 ^ k) * 2 ^ (52 - k)).
      split_and!; [lia..|nia|nia|]. right; right; left. split_and!; [lia..|].
      exists k. split_and!; [lia..|]. nia.
  - apply Z.eqb_neq in E2. exists (float_exp f + 896), (float_man f * 2 ^ 29).
    split_and!; [lia..|]. right; right; right. lia.
Qed.

(** Narrowing undoes widening. *)
Lemma narrow_widen f : fits 32 f -> float_nan f = false ->
  double_to_float (float_to_double f) = f.
Proof.
  intros Hf Hn. destruct (float_parts f Hf) as (Hdec & Hs & He & Hm).
  destruct (widen_parts f Hf Hn) as (e & m & -> & Hre & Hrm & Hc).
  destruct (double_of_parts _ e m Hs Hre Hrm) as (E1 & E2 & E3).
  unfold double_to_float. rewrite E1, E2, E3. cbv zeta.
  destruct Hc as [(H1 & H2 & -> & ->)|[(H1 & H2 & -> & ->)|[(H1 & H2 & k & Hk & -> & Hq)|
    (H1 & -> & ->)]]].
  - change (2047 =? 2047) with true. change (0 =? 0) with true. cbv iota. lia.
  - change (0 =? 2047) with false. change (0 =? 0) with true. cbv iota. lia.
  - zbool. cbv iota. rewrite Hq. replace (926 - (k + 874)) with (52 - k) by lia.
    rewrite round_shift_exact by lia. lia.
  - zbool. cbv iota. replace (2 ^ 52 + float_man f * 2 ^ 29)
      with ((2 ^ 23 + float_man f) * 2 ^ 29) by (change (2 ^ 52) with (2 ^ 23 * 2 ^ 29); lia).
    rewrite round_shift_exact by lia. lia.
Qed.

(** [float] values compare as [double]s the way they would compare themselves. *)
Definition float_eq (a b : Z) : bool :=
  negb (float_nan a) && negb (float_nan b) &&
  ((a =? b) || ((a mod 2 ^ 31 =? 0) && (b mod 2 ^ 31 =? 0))).

Lemma widen_nan f : fits 32 f -> double_nan (float_to_double f) = float_nan f.
Proof.
  intros Hf. destruct (float_nan f) eqn:Hn.
  - destruct (float_parts f Hf) as (_ & Hs & _ & Hm). unfold float_nan in Hn.
    apply andb_true_iff in Hn as [He Hn]. apply negb_true_iff in Hn.
    unfold float_to_double. rewrite He, Hn. cbv zeta.
    apply Z.eqb_neq in Hn.
    set (q := Z.lor _ _). assert (Hq : 0 < q < 2 ^ 52).
    { assert (0 <= q) by (apply Z.lor_nonneg; lia).
      assert (q <> 0) by (intros Hq; apply Z.lor_eq_0_iff in Hq as [_ ?]; done).
      split; [lia|]. apply Z.log2_lt_pow2; [lia|].
      unfold q. rewrite Z.log2_lor by lia. apply Z.max_lub_lt; [|done].
      apply Z.log2_lt_pow2; [lia|]. change (2 ^ 52) with (2 ^ 23 * 2 ^ 29). nia. }
    destruct (double_of_parts (float_sign f) 2047 q Hs ltac:(lia) ltac:(lia)) as (_ & E2 & E3).
    unfold double_nan. rewrite E2, E3. by zbool.
  - destruct (float_parts f Hf) as (_ & Hs & He & Hm).
    destruct (widen_parts f Hf Hn) as (e & m & -> & Hre & Hrm & Hc).
    destruct (double_of_parts _ e m Hs Hre Hrm) as (_ & E2 & E3).
    unfold double_nan. rewrite E2, E3.
    destruct Hc as [(_ & _ & -> & ->)|[(_ & _ & -> & ->)|[(_ & _ & k & Hk & -> & _)|
      (H1 & -> & _)]]]; [done|done| |]; by zbool.
Qed.

(** The zeros are the patterns without a magnitude. *)
Lemma widen_zero f : fits 32 f -> float_nan f = false ->
  (float_to_double f mod 2 ^ 63 =? 0) = (f mod 2 ^ 31 =? 0).
Proof.
  intros Hf Hn. destruct (float_parts f Hf) as (Hdec & Hs & He & Hm).
  destruct (widen_parts f Hf Hn) as (e & m & -> & Hre & Hrm & Hc).
  change (2 ^ 63) with (2 ^ 52 * 2048). change (2 ^ 31) with (2 ^ 23 * 256) in *.
  assert (E1 : (float_sign f * (2 ^ 52 * 2048) + e * 2 ^ 52 + m) mod (2 ^ 52 * 2048) =
    e * 2 ^ 52 + m).
  { symmetry. apply Z.mod_unique_pos with (float_sign f); nia. }
  assert (E2 : f mod (2 ^ 23 * 256) = float_exp f * 2 ^ 23 + float_man f).
  { symmetry. apply Z.mod_unique_pos with (float_sign f); nia. }
  rewrite E1, E2. apply eq_true_iff_eq. rewrite !Z.eqb_eq.
  destruct Hc as [Hc|[Hc|[(H1 & H2 & k & Hk & -> & _)|Hc]]]; try lia.
Qed.

Lemma float_eq_double a b : fits 32 a -> fits 32 b ->
  double_eq (float_to_double a) (float_to_double b) = float_eq a b.
Proof.
  intros Ha Hb. unfold double_eq, float_eq. rewrite !widen_nan by done.
  destruct (float_nan a) eqn:Na, (float_nan b) eqn:Nb; try done.
  rewrite !widen_zero by done. f_equal. f_equal. apply eq_true_iff_eq. rewrite !Z.eqb_eq.
  split; [|congruence]. intros He. rewrite <-(narrow_widen a Ha Na), <-(narrow_widen b Hb Nb).
  by rewrite He.
Qed.

(** [==] on values of one type. *)
Definition cpp_eq (a b : scalar) : bool :=
  match a, b with
  | SFloat x, SFloat y => float_eq x y
  | SDouble x, SDouble y => double_eq x y
  | _, _ => bool_decide (a = b)
  end.

(** A default value of any basic type survives the [Variant] that stores it,
    through the widening and narrowing of [float] included, and a field value
    compares equal to the metadata exactly when it is [==] to the default; so an
    optional field that is left out can be restored from the metadata. *)
Lemma default_value_roundtrip (v : Variant) (d s : scalar) :
  scalar_ok d -> not_nan d -> scalar_ok s -> btype_of s = btype_of d ->
  VariantGet (VariantSet v d) (btype_of d) = d /\
  is_default_basic s (mkMetadata Optional (VariantSet v d) [] []) = cpp_eq s d.
Proof.
  intros Hd Hn Hs Ht. unfold is_default_basic. destruct v as [u i dv str wstr n].
  destruct d as [b|w z|w z|z|z|l|l], s as [b'|w' z'|w' z'|z'|z'|l'|l'];
    try done; simplify_eq/=; (split; [f_equal|]).
  - by destruct b.
  - by destruct b, b'.
  - by apply wrap_id.
  - rewrite wrap_id by done. apply eq_true_iff_eq. rewrite Z.eqb_eq, bool_decide_eq_true.
    split; congruence.
  - apply to_signed_id; [by destruct w|done].
  - rewrite to_signed_id by (done || by destruct w). apply eq_true_iff_eq.
    rewrite Z.eqb_eq, bool_decide_eq_true. split; congruence.
  - by apply narrow_widen.
  - by apply float_eq_double.
  - apply bool_decide_ext. split; congruence.
  - apply bool_decide_ext. split; congruence.
Qed.

Lemma default_value_roundtrip_witness :
  VariantGet (VariantSet Variant_new (SFloat 0x3dcccccd)) TFloat = SFloat 0x3dcccccd /\
  is_default_basic (SFloat 0x3dcccccd)
    (mkMetadata Optional (VariantSet Variant_new (SFloat 0x3dcccccd)) [] []) = true.
Proof.
  destruct (default_value_roundtrip Variant_new (SFloat 0x3dcccccd) (SFloat 0x3dcccccd))
    as [H1 H2]; [by vm_compute|done|by vm_compute|done|].
  rewrite H2. split; [exact H1|reflexivity].
Defined.

(** Zeros with the sign of the default are the default. *)
Lemma zeros_equal x d : x mod 2 ^ 63 = 0 -> d mod 2 ^ 63 = 0 -> double_sign x = double_sign d ->
  x = d.
Proof.
  unfold double_sign. intros Hx Hd Hs.
  rewrite (Z.div_mod x (2 ^ 63)), (Z.div_mod d (2 ^ 63)) by lia. by rewrite Hx, Hd, Hs.
Qed.

Lemma widen_sign f : fits 32 f -> float_nan f = false ->
  double_sign (float_to_double f) = float_sign f.
Proof.
  intros Hf Hn. destruct (float_parts f Hf) as (_ & Hs & _).
  destruct (widen_parts f Hf Hn) as (e & m & -> & Hre & Hrm & _).
  by destruct (double_of_parts _ e m Hs Hre Hrm) as (-> & _).
Qed.

(** A value that is [==] to the stored default is the one the constructor takes from the
    metadata, but for the sign of a zero. *)
Lemma default_restored v s : scalar_ok s -> zero_kept v s -> variant_eq v s = true ->
  VariantGet v (btype_of s) = s.
Proof.
  intros Hs Hz He. destruct s as [b|w z|w z|z|z|l|l]; cbn [VariantGet btype_of variant_eq zero_kept] in *.
  - by apply eqb_prop in He as ->.
  - by apply Z.eqb_eq in He as <-.
  - by apply Z.eqb_eq in He as <-.
  - apply andb_true_iff in He as [[Hn _]%andb_true_iff He]. apply negb_true_iff in Hn.
    rewrite widen_nan in Hn by done. f_equal. rewrite <-(narrow_widen z Hs Hn). f_equal.
    symmetry. apply orb_true_iff in He as [He|[H1 H2]%andb_true_iff]; [by apply Z.eqb_eq|].
    apply Z.eqb_eq in H2. pose proof H1 as H1'. rewrite widen_zero in H1 by done.
    apply Z.eqb_eq in H1, H1'. apply zeros_equal; [done..|]. rewrite widen_sign by done.
    by apply Hz.
  - apply andb_true_iff in He as [_ He]. f_equal. symmetry.
    apply orb_true_iff in He as [He|[H1 H2]%andb_true_iff]; [by apply Z.eqb_eq|].
    apply Z.eqb_eq in H1, H2. apply zeros_equal; [done..|]. by apply Hz.
  - by apply bool_decide_eq_true in He as <-.
  - by apply bool_decide_eq_true in He as <-.
Qed.

(** Comparison with [==] is coarser than the value: an optional [double] field
    holding negative zero is taken for its default of positive zero and left
    out. *)
Lemma negative_zero_omitted v :
  omit_field true (mkMetadata Optional (VariantSet v (SDouble 0)) [] [])
    (is_default_basic (SDouble (2 ^ 63)) (mkMetadata Optional (VariantSet v (SDouble 0)) [] [])) = true.
Proof. by destruct v. Qed.
