(* ===== verification/Json.v ===== *)
(** JSON texts (RFC 8259), the reference for the JSON writer: the trees, the grammar as a
    relation between a tree and its texts, and a parser that reads every text the
    grammar allows.  Strings and numbers are kept as they are spelled. *)

From S2P Require Import Prelude.
From Stdlib Require Import Strings.Byte.

#[local] Open Scope byte_scope.

(** * Trees *)

#[local] Unset Elimination Schemes.
Inductive json : Type :=
| JNull
| JBool (b : bool)
| JNumber (spelling : list byte)
| JString (spelling : list byte)
| JArray (items : list json)
| JObject (members : list (list byte * json)).
#[local] Set Elimination Schemes.

(** * Tokens *)

Definition is_ws (b : byte) : bool :=
  Byte.eqb b x20 || Byte.eqb b x09 || Byte.eqb b x0a || Byte.eqb b x0d.
Definition is_digit (b : byte) : bool := (48 <=? b2z b)%Z && (b2z b <=? 57)%Z.
Definition is_hex (b : byte) : bool :=
  is_digit b || (97 <=? b2z b)%Z && (b2z b <=? 102)%Z || (65 <=? b2z b)%Z && (b2z b <=? 70)%Z.
Definition is_number_char (b : byte) : bool :=
  is_digit b || Byte.eqb b "-" || Byte.eqb b "+" || Byte.eqb b "." || Byte.eqb b "e" || Byte.eqb b "E".

Fixpoint skip_while (p : byte -> bool) (bs : list byte) : list byte :=
  match bs with b :: bs' => if p b then skip_while p bs' else bs | [] => [] end.
Fixpoint take_while_ (p : byte -> bool) (bs : list byte) : list byte :=
  match bs with b :: bs' => if p b then b :: take_while_ p bs' else [] | [] => [] end.

(** [number = [ "-" ] int [ "." 1*DIGIT ] [ ("e" / "E") [ "+" / "-" ] 1*DIGIT ]]. *)
Definition digits_ok (bs : list byte) : bool :=
  match bs with d :: bs' => is_digit d && forallb is_digit bs' | [] => false end.
Definition exponent_ok (bs : list byte) : bool :=
  match bs with
  | [] => true
  | e :: bs' =>
      (Byte.eqb e "e" || Byte.eqb e "E") &&
      match bs' with
      | s :: ds => if Byte.eqb s "-" || Byte.eqb s "+" then digits_ok ds else digits_ok bs'
      | [] => false
      end
  end.
Definition fraction_ok (bs : list byte) : bool :=
  match bs with
  | d :: bs' =>
      if Byte.eqb d "." then
        match bs' with
        | d' :: bs'' => is_digit d' && exponent_ok (skip_while is_digit bs'')
        | [] => false
        end
      else exponent_ok bs
  | [] => true
  end.
Definition integer_ok (bs : list byte) : bool :=
  match bs with
  | d :: bs' =>
      if Byte.eqb d "0" then fraction_ok bs'
      else is_digit d && fraction_ok (skip_while is_digit bs')
  | [] => false
  end.
Definition number_ok (bs : list byte) : bool :=
  match bs with
  | s :: bs' => if Byte.eqb s "-" then integer_ok bs' else integer_ok bs
  | [] => false
  end.

(** The characters between the quotes of a string: none below a space, no quote, and a
    backslash only before one of a few letters, or [u] and four hexadecimal digits. *)
Definition is_escape (b : byte) : bool :=
  Byte.eqb b x22 || Byte.eqb b "\" || Byte.eqb b "/" || Byte.eqb b "b" || Byte.eqb b "f" ||
  Byte.eqb b "n" || Byte.eqb b "r" || Byte.eqb b "t".
Definition is_plain (b : byte) : bool :=
  (32 <=? b2z b)%Z && negb (Byte.eqb b x22) && negb (Byte.eqb b "\").

Inductive string_ok : list byte -> Prop :=
| string_end : string_ok []
| string_plain b bs : is_plain b = true -> string_ok bs -> string_ok (b :: bs)
| string_escape b bs : is_escape b = true -> string_ok bs -> string_ok ("\" :: b :: bs)
| string_unicode a b c d bs : forallb is_hex [a; b; c; d] = true -> string_ok bs ->
    string_ok ("\" :: "u" :: a :: b :: c :: d :: bs).

(** The UTF-16 units a string of ASCII characters stands for; other bytes are kept. *)
Definition is_ascii (bs : list byte) : bool := forallb (fun b => b2z b <? 128)%Z bs.
Definition hex_value (b : byte) : Z :=
  if is_digit b then (b2z b - 48)%Z else if (97 <=? b2z b)%Z then (b2z b - 87)%Z else (b2z b - 55)%Z.
Definition letter_value (b : byte) : option Z :=
  if Byte.eqb b "b" then Some 8%Z else if Byte.eqb b "f" then Some 12%Z
  else if Byte.eqb b "n" then Some 10%Z else if Byte.eqb b "r" then Some 13%Z
  else if Byte.eqb b "t" then Some 9%Z
  else if is_escape b then Some (b2z b) else None.
Fixpoint string_value (bs : list byte) : option (list Z) :=
  match bs with
  | [] => Some []
  | b :: r =>
      if Byte.eqb b "\" then
        match r with
        | e :: r' =>
            if Byte.eqb e "u" then
              match r' with
              | h1 :: h2 :: h3 :: h4 :: r'' =>
                  us ← string_value r'';
                  Some ((hex_value h1 * 4096 + hex_value h2 * 256 +
                         hex_value h3 * 16 + hex_value h4)%Z :: us)
              | _ => None
              end
            else u ← letter_value e; us ← string_value r'; Some (u :: us)
        | [] => None
        end
      else if is_plain b then us ← string_value r; Some (b2z b :: us)
      else None
  end.

(** In well-formed UTF-16 a high surrogate is before a low one and a low one after a high
    one; a document parser converts to UTF-8 what is escaped, and refuses other strings. *)
Fixpoint paired (units : list Z) : bool :=
  match units with
  | [] => true
  | u :: units' =>
      if (0xd800 <=? u)%Z && (u <? 0xdc00)%Z then
        match units' with
        | u' :: units'' => (0xdc00 <=? u')%Z && (u' <? 0xe000)%Z && paired units''
        | [] => false
        end
      else negb ((0xdc00 <=? u)%Z && (u <? 0xe000)%Z) && paired units'
  end.
Definition convertible (t : list byte) : bool :=
  match string_value t with Some units => paired units | None => false end.
Fixpoint all_convertible (j : json) : bool :=
  match j with
  | JString t => convertible t
  | JArray js => forallb all_convertible js
  | JObject ms => forallb (fun m => convertible (fst m) && all_convertible (snd m)) ms
  | _ => true
  end.

(** * The grammar *)

Definition ws (bs : list byte) : Prop := forallb is_ws bs = true.

(** Texts with commas between them and white space around them. *)
Inductive joined : list (list byte) -> list byte -> Prop :=
| joined_none w : ws w -> joined [] w
| joined_one w t w' : ws w -> ws w' -> joined [t] (w ++ t ++ w')
| joined_more w t w' t' ts bs : ws w -> ws w' -> joined (t' :: ts) bs ->
    joined (t :: t' :: ts) (w ++ t ++ w' ++ "," :: bs).

#[warnings="-register-all"] Inductive renders : json -> list byte -> Prop :=
| renders_null : renders JNull ["n"; "u"; "l"; "l"]
| renders_true : renders (JBool true) ["t"; "r"; "u"; "e"]
| renders_false : renders (JBool false) ["f"; "a"; "l"; "s"; "e"]
| renders_number t : number_ok t = true -> renders (JNumber t) t
| renders_string t : string_ok t -> renders (JString t) (x22 :: t ++ [x22])
| renders_array items ts bs : Forall2 renders items ts -> joined ts bs ->
    renders (JArray items) ("[" :: bs ++ ["]"])
| renders_object members ts bs :
    Forall2 (fun m t => renders_member (fst m) (snd m) t) members ts -> joined ts bs ->
    renders (JObject members) ("{" :: bs ++ ["}"])
with renders_member : list byte -> json -> list byte -> Prop :=
| renders_pair name j t w w' : string_ok name -> ws w -> ws w' -> renders j t ->
    renders_member name j (x22 :: name ++ [x22] ++ w ++ ":" :: w' ++ t).

(** * The parser *)

Fixpoint scan_string (fuel : nat) (bs : list byte) : option (list byte * list byte) :=
  match fuel with
  | O => None
  | S fuel' =>
      match bs with
      | [] => None
      | b :: bs' =>
          if Byte.eqb b x22 then Some ([], bs')
          else if Byte.eqb b "\" then
            match bs' with
            | e :: r =>
                if is_escape e then
                  '(s, r') ← scan_string fuel' r; Some (b :: e :: s, r')
                else if Byte.eqb e "u" && forallb is_hex (take 4 r) && (4 <=? length r)%nat then
                  '(s, r') ← scan_string fuel' (drop 4 r); Some (b :: e :: take 4 r ++ s, r')
                else None
            | [] => None
            end
          else if is_plain b then '(s, r) ← scan_string fuel' bs'; Some (b :: s, r)
          else None
      end
  end.

(** After the opening quote. *)
Definition parse_string (bs : list byte) : option (list byte * list byte) :=
  scan_string (S (length bs)) bs.

Definition expect (c : byte) (bs : list byte) : option (list byte) :=
  match bs with b :: bs' => if Byte.eqb b c then Some bs' else None | [] => None end.

Fixpoint strip (word bs : list byte) : option (list byte) :=
  match word with [] => Some bs | c :: word' => r ← expect c bs; strip word' r end.

Definition skip_ws : list byte -> list byte := skip_while is_ws.

(** What follows the opening bracket: nothing and the closing one, or items with commas
    between them. *)
Section Items.
Context {X : Type} (item : list byte -> option (X * list byte)) (close : byte).

Fixpoint parse_items (fuel : nat) (bs : list byte) : option (list X * list byte) :=
  match fuel with
  | O => None
  | S fuel' =>
      '(x, r) ← item (skip_ws bs);
      match skip_ws r with
      | b :: r' =>
          if Byte.eqb b "," then '(xs, r'') ← parse_items fuel' r'; Some (x :: xs, r'')
          else if Byte.eqb b close then Some ([x], r')
          else None
      | [] => None
      end
  end.

Definition parse_group (fuel : nat) (bs : list byte) : option (list X * list byte) :=
  match expect close (skip_ws bs) with
  | Some r => Some ([], r)
  | None => parse_items fuel bs
  end.
End Items.

Definition parse_member (value : list byte -> option (json * list byte)) (bs : list byte) :
    option (list byte * json * list byte) :=
  r ← expect x22 bs;
  '(name, r) ← parse_string r;
  r ← expect ":" (skip_ws r);
  '(j, r) ← value (skip_ws r);
  Some (name, j, r).

Fixpoint parse_value (fuel : nat) (bs : list byte) : option (json * list byte) :=
  match fuel with
  | O => None
  | S fuel' =>
      match bs with
      | [] => None
      | b :: bs' =>
          if Byte.eqb b x22 then '(s, r) ← parse_string bs'; Some (JString s, r)
          else if Byte.eqb b "[" then
            '(js, r) ← parse_group (parse_value fuel') "]" fuel' bs'; Some (JArray js, r)
          else if Byte.eqb b "{" then
            '(ms, r) ← parse_group (parse_member (parse_value fuel')) "}" fuel' bs';
            Some (JObject ms, r)
          else if Byte.eqb b "n" then r ← strip ["n"; "u"; "l"; "l"] bs; Some (JNull, r)
          else if Byte.eqb b "t" then r ← strip ["t"; "r"; "u"; "e"] bs; Some (JBool true, r)
          else if Byte.eqb b "f" then
            r ← strip ["f"; "a"; "l"; "s"; "e"] bs; Some (JBool false, r)
          else
            let t := take_while_ is_number_char bs in
            if number_ok t then Some (JNumber t, skip_while is_number_char bs) else None
      end
  end.

Definition parse_json (bs : list byte) : option json :=
  '(j, r) ← parse_value (S (length bs)) (skip_ws bs);
  match skip_ws r with [] => Some j | _ => None end.

(** * Every text of the grammar is read *)

Lemma eqb_spec_true b c : Byte.eqb b c = true <-> b = c.
Proof. split; [apply Byte.byte_dec_bl|apply Byte.byte_dec_lb]. Qed.

Lemma eqb_refl b : Byte.eqb b b = true.
Proof. by apply eqb_spec_true. Qed.

Lemma ws_skip w bs : ws w -> skip_ws (w ++ bs) = skip_ws bs.
Proof.
  unfold ws, skip_ws. induction w as [|b w IH]; [done|]. cbn. intros [-> H]%andb_true_iff. auto.
Qed.

(** The first character of a value. *)
Definition is_start (b : byte) : bool :=
  is_number_char b || Byte.eqb b x22 || Byte.eqb b "[" || Byte.eqb b "{" ||
  Byte.eqb b "n" || Byte.eqb b "t" || Byte.eqb b "f".
Definition starts (t : list byte) : Prop := exists b t', t = b :: t' /\ is_start b = true.

Lemma start_facts b : is_start b = true ->
  is_ws b = false /\ Byte.eqb b "]" = false /\ Byte.eqb b "}" = false.
Proof. destruct b; vm_compute; intros; split_and!; congruence. Qed.

Lemma number_char_facts b : is_number_char b = true ->
  Byte.eqb b x22 = false /\ Byte.eqb b "[" = false /\ Byte.eqb b "{" = false /\
  Byte.eqb b "n" = false /\ Byte.eqb b "t" = false /\ Byte.eqb b "f" = false.
Proof. destruct b; vm_compute; intros; split_and!; congruence. Qed.

Lemma start_skip t r : starts t -> skip_ws (t ++ r) = t ++ r.
Proof. intros (b & t' & -> & Hb). cbn. by destruct (start_facts b Hb) as [-> _]. Qed.

(** What may follow a value: no character of a number. *)
Definition ends (r : list byte) : Prop :=
  match r with [] => True | b :: _ => is_number_char b = false end.

Lemma ws_ends w b r : ws w -> is_number_char b = false -> ends (w ++ b :: r).
Proof.
  destruct w as [|c w]; [done|]. unfold ws. cbn. intros [Hc _]%andb_true_iff _.
  by destruct c.
Qed.

(** ** Numbers *)

Lemma digit_char b : is_digit b = true -> is_number_char b = true.
Proof. intros H. unfold is_number_char. by rewrite H. Qed.

Definition number_chars (bs : list byte) : Prop := Forall (fun b => is_number_char b = true) bs.

Lemma digits_number bs : forallb is_digit bs = true -> number_chars bs.
Proof.
  induction bs as [|b bs IH]; cbn; [by constructor|]. intros [Hb Hbs]%andb_true_iff.
  constructor; [by apply digit_char|by apply IH].
Qed.

Lemma skip_digits_number bs : number_chars (skip_while is_digit bs) -> number_chars bs.
Proof.
  induction bs as [|b bs IH]; [done|]. cbn. destruct (is_digit b) eqn:Eb; [|done].
  intros H. constructor; [by apply digit_char|by apply IH].
Qed.

Lemma exponent_number bs : exponent_ok bs = true -> number_chars bs.
Proof.
  destruct bs as [|e [|s ds]]; cbn [exponent_ok]; [constructor|by intros [_ ?]%andb_true_iff|].
  intros [He H]%andb_true_iff. constructor; [by destruct e|].
  destruct (Byte.eqb s "-" || Byte.eqb s "+") eqn:Es.
  - constructor; [by destruct s|]. destruct ds as [|d ds]; [done|]. by apply digits_number.
  - by apply (digits_number (s :: ds)).
Qed.

Lemma fraction_number bs : fraction_ok bs = true -> number_chars bs.
Proof.
  destruct bs as [|d bs]; cbn [fraction_ok]; [constructor|]. destruct (Byte.eqb d ".") eqn:Ed.
  - apply eqb_spec_true in Ed as ->. destruct bs as [|d' bs]; [done|].
    intros [Hd H]%andb_true_iff. constructor; [done|]. constructor; [by apply digit_char|].
    by apply skip_digits_number, exponent_number.
  - apply exponent_number.
Qed.

Lemma integer_number bs : integer_ok bs = true -> number_chars bs /\ bs <> [].
Proof.
  destruct bs as [|d bs]; [done|]. cbn [integer_ok]. destruct (Byte.eqb d "0") eqn:Ed.
  - apply eqb_spec_true in Ed as ->. intros H. split; [|done].
    constructor; [done|by apply fraction_number].
  - intros [Hd H]%andb_true_iff. split; [|done].
    constructor; [by apply digit_char|by apply skip_digits_number, fraction_number].
Qed.

Lemma number_number bs : number_ok bs = true -> number_chars bs /\ bs <> [].
Proof.
  destruct bs as [|s bs]; [done|]. cbn [number_ok]. destruct (Byte.eqb s "-") eqn:Es.
  - apply eqb_spec_true in Es as ->. intros [H _]%integer_number. by split; [constructor|].
  - apply integer_number.
Qed.

Lemma take_number t r : number_chars t -> ends r -> take_while_ is_number_char (t ++ r) = t.
Proof.
  induction 1 as [|b t Hb _ IH]; intros Hr; cbn.
  - destruct r as [|b r]; [done|]. cbn in *. by rewrite Hr.
  - by rewrite Hb, IH.
Qed.

Lemma skip_number t r : number_chars t -> ends r -> skip_while is_number_char (t ++ r) = r.
Proof.
  induction 1 as [|b t Hb _ IH]; intros Hr; cbn.
  - destruct r as [|b r]; [done|]. cbn in *. by rewrite Hr.
  - by rewrite Hb, IH.
Qed.

(** ** Strings *)

Lemma plain_facts b : is_plain b = true -> Byte.eqb b x22 = false /\ Byte.eqb b "\" = false.
Proof. destruct b; vm_compute; intros; split; congruence. Qed.

Lemma scan_ok s r fuel : string_ok s -> (length s < fuel)%nat ->
  scan_string fuel (s ++ x22 :: r) = Some (s, r).
Proof.
  intros Hs. revert fuel. induction Hs as [|b s Hb _ IH|b s Hb _ IH|a b c d s Hx _ IH];
    intros [|fuel] Hl; cbn [length] in Hl; try lia; [done|..].
  - cbn [scan_string app]. destruct (plain_facts b Hb) as [-> ->]. rewrite Hb.
    rewrite (IH fuel) by lia. done.
  - cbn [scan_string app]. cbn [Byte.eqb]. rewrite Hb. change (Byte.eqb "\" x22) with false.
    change (Byte.eqb "\" "\") with true. cbv iota. rewrite (IH fuel) by lia. done.
  - cbn [scan_string app]. change (Byte.eqb "\" x22) with false.
    change (Byte.eqb "\" "\") with true. change (is_escape "u") with false.
    change (Byte.eqb "u" "u") with true. cbv iota.
    change (take 4 (a :: b :: c :: d :: s ++ x22 :: r)) with [a; b; c; d].
    change (drop 4 (a :: b :: c :: d :: s ++ x22 :: r)) with (s ++ x22 :: r).
    rewrite Hx, (IH fuel) by lia. done.
Qed.

Lemma parse_string_ok s r : string_ok s -> parse_string (s ++ x22 :: r) = Some (s, r).
Proof. intros Hs. apply scan_ok; [done|]. rewrite length_app. lia. Qed.

(** ** Values *)

(** [item] reads [x] from [t], in front of anything that may follow a value. *)
Definition reads_item {X} (item : list byte -> option (X * list byte)) (x : X) (t : list byte) : Prop :=
  starts t /\ forall r, ends r -> item (t ++ r) = Some (x, r).

Lemma closing_ends c r : c = "]" \/ c = "}" -> ends (c :: r).
Proof. by intros [-> | ->]. Qed.

Section ItemsOk.
Context {X : Type} (item : list byte -> option (X * list byte)) (close : byte).
Context (Hclose : close = "]" \/ close = "}").

Lemma close_facts : is_number_char close = false /\ is_ws close = false /\
  Byte.eqb close "," = false.
Proof. destruct Hclose as [-> | ->]; vm_compute; done. Qed.

Lemma item_in_place w t w' b r x : ws w -> ws w' -> is_number_char b = false -> is_ws b = false ->
  reads_item item x t ->
  exists r', item (skip_ws (w ++ t ++ w' ++ b :: r)) = Some (x, r') /\ skip_ws r' = b :: r.
Proof.
  intros Hw Hw' Hb Hb' [Hs Ht]. exists (w' ++ b :: r). rewrite ws_skip, start_skip by done. split.
  - apply Ht. by apply ws_ends.
  - rewrite ws_skip by done. unfold skip_ws. cbn. by rewrite Hb'.
Qed.

Lemma items_read xs ts bs r fuel : joined ts bs -> Forall2 (reads_item item) xs ts -> ts <> [] ->
  (length ts <= fuel)%nat -> parse_items item close fuel (bs ++ close :: r) = Some (xs, r).
Proof.
  intros Hj. revert xs fuel. induction Hj as [w Hw|w t w' Hw Hw'|w t w' t' ts bs Hw Hw' _ IH];
    intros xs [|fuel] Hx Hne Hl; cbn [length] in Hl; try done; try lia.
  - apply Forall2_cons_inv_r in Hx as (x & xs' & Ht & Hx & ->).
    apply Forall2_nil_inv_r in Hx as ->. cbn [parse_items]. rewrite <-!app_assoc.
    destruct close_facts as (F1 & F2 & F3). cbn [app].
    destruct (item_in_place w t w' close r x Hw Hw' F1 F2 Ht) as (r' & -> & Er).
    cbn. rewrite Er, F3. cbv iota. by rewrite eqb_refl.
  - apply Forall2_cons_inv_r in Hx as (x & xs' & Ht & Hx & ->). cbn [parse_items].
    rewrite <-!app_assoc. cbn [app].
    destruct (item_in_place w t w' "," (bs ++ close :: r) x Hw Hw' eq_refl eq_refl Ht)
      as (r' & -> & Er).
    cbn. rewrite Er. change (Byte.eqb "," ",") with true. cbv iota.
    rewrite (IH xs' fuel) by (done || (cbn; lia)). done.
Qed.

Lemma group_read xs ts bs r fuel : joined ts bs -> Forall2 (reads_item item) xs ts ->
  (length ts <= fuel)%nat -> parse_group item close fuel (bs ++ close :: r) = Some (xs, r).
Proof.
  intros Hj Hx Hl. unfold parse_group. destruct ts as [|t ts].
  - inversion Hj; subst. apply Forall2_nil_inv_r in Hx as ->. rewrite ws_skip by done.
    destruct close_facts as (_ & F2 & _). cbn. rewrite F2. cbn. by rewrite eqb_refl.
  - assert (He : expect close (skip_ws (bs ++ close :: r)) = None).
    { apply Forall2_cons_inv_r in Hx as (x & xs' & [(b & t' & -> & Hb) _] & _ & ->).
      assert (Hw : exists w r', ws w /\ bs ++ close :: r = w ++ (b :: t') ++ r').
      { inversion Hj as [|w t w' Hw ? E|w t w' t'' ts' bs' Hw ? ? E]; subst.
        - exists w, (w' ++ close :: r). split; [done|by rewrite <-!app_assoc].
        - exists w, (w' ++ "," :: bs' ++ close :: r). split; [done|].
          by rewrite <-!app_assoc. }
      destruct Hw as (w & r' & Hw & ->). rewrite ws_skip, start_skip by (done || by exists b, t').
      cbn [app expect]. destruct (start_facts b Hb) as (_ & H1 & H2).
      destruct Hclose as [-> | ->]; [by rewrite H1|by rewrite H2]. }
    rewrite He. by eapply items_read.
Qed.
End ItemsOk.

Lemma joined_length ts bs : joined ts bs -> Forall starts ts -> (length ts <= length bs)%nat /\
  Forall (fun t => length t <= length bs)%nat ts.
Proof.
  induction 1 as [w Hw|w t w' Hw Hw'|w t w' t' ts bs Hw Hw' _ IH]; intros Hs.
  - split; [simpl; lia|done].
  - apply Forall_cons_iff in Hs as [(b & t' & -> & _) _]. rewrite !length_app. cbn.
    split; [lia|]. constructor; [cbn; lia|done].
  - apply Forall_cons_iff in Hs as [_ Hs]. destruct (IH Hs) as [H1 H2].
    rewrite !length_app. cbn [length] in *. split; [lia|].
    constructor; [lia|]. eapply Forall_impl; [|exact H2]. cbn. intros; lia.
Qed.

Lemma renders_starts j t : renders j t -> starts t.
Proof.
  destruct 1 as [| | |t Ht|t Ht|items ts bs _ _|ms ts bs _ _];
    try by (eexists _, _; split; [reflexivity|reflexivity]).
  destruct (number_number t Ht) as [Hc Hne]. destruct t as [|b t]; [done|].
  apply Forall_cons_iff in Hc as [Hb _]. exists b, t. split; [done|]. unfold is_start. by rewrite Hb.
Qed.

Lemma member_starts name j t : renders_member name j t -> starts t.
Proof. destruct 1. eexists _, _. by split. Qed.

Lemma member_read value name j t : renders_member name j t ->
  (forall u, renders j u -> (length u < length t)%nat -> reads_item value j u) ->
  reads_item (parse_member value) (name, j) t.
Proof.
  intros Hm Hv. split; [by eapply member_starts|]. destruct Hm as [name j t w w' Hn Hw Hw' Ht].
  intros r Hr. unfold parse_member. cbn [app expect]. rewrite eqb_refl. cbn [mbind option_bind].
  rewrite <-!app_assoc. cbn [app]. rewrite parse_string_ok by done. cbn [mbind option_bind].
  rewrite <-!app_assoc. cbn [app]. rewrite ws_skip by done.
  change (expect ":" (skip_ws (":" :: (w' ++ t) ++ r))) with (Some ((w' ++ t) ++ r)).
  rewrite <-app_assoc.
  cbn [mbind option_bind]. rewrite ws_skip by done.
  rewrite start_skip by by eapply renders_starts.
  destruct (Hv t Ht) as [_ ->]; [|done|done].
  rewrite length_cons, !length_app. cbn. rewrite length_app. lia.
Qed.

Lemma texts_readable {X} (P : X -> list byte -> Prop) item xs ts (m : nat) : Forall2 P xs ts ->
  Forall (fun t => length t <= m)%nat ts ->
  (forall x t, P x t -> (length t <= m)%nat -> reads_item item x t) ->
  Forall2 (reads_item item) xs ts.
Proof.
  intros H Hl Hp. induction H as [|x t xs ts Hx _ IH]; [done|].
  apply Forall_cons_iff in Hl as [Ht Hl]. constructor; eauto.
Qed.

Lemma all_start {X} (P : X -> list byte -> Prop) xs ts : (forall x t, P x t -> starts t) ->
  Forall2 P xs ts -> Forall starts ts.
Proof. intros Hp. induction 1; constructor; eauto. Qed.

(** Arrays and objects end with a bracket, whatever is after them. *)
Definition bracketed (j : json) : Prop := match j with JArray _ | JObject _ => True | _ => False end.

Lemma bracketed_read n j t r : (forall m, (m < n)%nat -> forall j t, renders j t ->
    (length t <= m)%nat -> reads_item (parse_value (S m)) j t) ->
  bracketed j -> renders j t -> (length t <= n)%nat -> parse_value (S n) (t ++ r) = Some (j, r).
Proof.
  intros IH Hg Hj Hl. destruct Hj as [| | |t Ht|t Ht|items ts bs Hi Hj|ms ts bs Hm Hj]; try done.
  - cbn [length] in Hl. rewrite length_app in Hl. cbn [length] in Hl.
    destruct (joined_length ts bs Hj (all_start _ _ _ renders_starts Hi)) as [Hn Hb].
    destruct n as [|n]; [lia|].
    change (parse_value (S (S n)) (("[" :: bs ++ ["]"]) ++ r)) with
      ('(js, r) ← parse_group (parse_value (S n)) "]" (S n) ((bs ++ ["]"]) ++ r); Some (JArray js, r)).
    rewrite <-app_assoc. cbn [app].
    erewrite (group_read _ "]" (or_introl eq_refl) items ts bs); [done|done| |lia].
    eapply texts_readable; [exact Hi|exact Hb|]. intros x t Hx Hlt. apply IH; [lia|done|lia].
  - cbn [length] in Hl. rewrite length_app in Hl. cbn [length] in Hl.
    destruct (joined_length ts bs Hj (all_start _ _ _ (fun m => member_starts (fst m) (snd m)) Hm))
      as [Hn Hb].
    destruct n as [|n]; [lia|].
    change (parse_value (S (S n)) (("{" :: bs ++ ["}"]) ++ r)) with
      ('(ms, r) ← parse_group (parse_member (parse_value (S n))) "}" (S n) ((bs ++ ["}"]) ++ r);
       Some (JObject ms, r)).
    rewrite <-app_assoc. cbn [app].
    erewrite (group_read _ "}" (or_intror eq_refl) ms ts bs); [done|done| |lia].
    eapply texts_readable; [exact Hm|exact Hb|]. intros [name j] t Hx Hlt. cbn in Hx.
    apply member_read; [done|]. intros u Hu Hlu. apply IH; [lia|done|lia].
Qed.

Lemma parse_value_ok n j t : renders j t -> (length t <= n)%nat ->
  reads_item (parse_value (S n)) j t.
Proof.
  revert j t. induction n as [n IH] using lt_wf_ind. intros j t Hj Hl.
  split; [by eapply renders_starts|]. intros r Hr. pose proof Hj as Hj'.
  destruct Hj as [| | |t Ht|t Ht|items ts bs Hi Hj|ms ts bs Hm Hj]; try done.
  - destruct (number_number t Ht) as [Hc Hne]. destruct t as [|b t]; [done|].
    pose proof Hc as Hc'. apply Forall_cons_iff in Hc' as [Hb _].
    destruct (number_char_facts b Hb) as (F1 & F2 & F3 & F4 & F5 & F6).
    cbn [app parse_value]. rewrite F1, F2, F3, F4, F5, F6.
    change (b :: t ++ r) with ((b :: t) ++ r). rewrite take_number, skip_number by done.
    cbv zeta. by rewrite Ht.
  - cbn [app parse_value]. rewrite eqb_refl, <-app_assoc. cbn [app].
    by rewrite parse_string_ok.
  - by apply bracketed_read.
  - by apply bracketed_read.
Qed.

Lemma parse_renders j t w w' : renders j t -> ws w -> ws w' -> parse_json (w ++ t ++ w') = Some j.
Proof.
  intros Hj Hw Hw'. unfold parse_json. rewrite ws_skip, start_skip by (done || by eapply renders_starts).
  set (n := length (w ++ t ++ w')).
  destruct (parse_value_ok n j t Hj) as [_ Hr]; [unfold n; rewrite !length_app; lia|].
  rewrite Hr.
  - cbn. rewrite <-(app_nil_r w'), ws_skip by done. done.
  - destruct w' as [|b w']; [done|]. unfold ws in Hw'. cbn in Hw'.
    apply andb_true_iff in Hw' as [Hb _]. cbn. by destruct b.
Qed.
