(* ===== verification/Protocol.v ===== *)
(** Objects, protocols and wire formats.

    The values a Bond object is made of, the operations every protocol writer
    offers to the serializer (the members the transforms call), the description
    of a wire format the protocol files instantiate, and the loops the tagged
    readers share to skip a struct. *)

From S2P Require Import Prelude Checked Streams Encoding DataType Metadata.

(** * Objects *)

(** A value with its compile-time type tags.  A struct has at most one base, its
    own fields come in increasing order of id with the metadata of the schema;
    [list], [vector] and the like are one kind of container, sets another. *)
#[local] Unset Elimination Schemes.
Inductive value : Type :=
| VBasic (s : scalar)
| VStruct (base : option value) (fields : list (Z * Metadata * value))
| VList (is_set : bool) (element : BondDataType) (items : list value)
| VMap (key mapped : BondDataType) (items : list (value * value)).
#[local] Set Elimination Schemes.

(** [GetTypeId(value)]. *)
Definition type_of (v : value) : BondDataType :=
  match v with
  | VBasic s => get_type_id (btype_of s)
  | VStruct _ _ => BT_STRUCT
  | VList is_set _ _ => if is_set then BT_SET else BT_LIST
  | VMap _ _ _ => BT_MAP
  end.

(** [container_size(value)], a [uint32_t]. *)
Definition container_size {A} (items : list A) : Z := wrap 32 (zlen items).

(** [is_default(value, metadata)], by the kind of value. *)
Definition is_default (v : value) (m : Metadata) : bool :=
  match v with
  | VBasic s => is_default_basic s m
  | VStruct _ _ => is_default_struct m
  | VList _ _ items => is_default_container (container_size items) m
  | VMap _ _ items => is_default_container (container_size items) m
  end.

(** Induction over an object, with the hypothesis for every part. *)
Section ValueInd.
Context (P : value -> Prop).
Context (Hbasic : forall s, P (VBasic s)).
Context (Hstruct : forall base fields, (forall b, base = Some b -> P b) ->
  Forall (fun f => P (snd f)) fields -> P (VStruct base fields)).
Context (Hlist : forall k t items, Forall P items -> P (VList k t items)).
Context (Hmap : forall kt vt items, Forall (fun kv => P (fst kv) /\ P (snd kv)) items ->
  P (VMap kt vt items)).

Fixpoint value_ind_nested (v : value) : P v.
Proof.
  destruct v as [s|base fields|k t items|kt vt items].
  - apply Hbasic.
  - apply Hstruct.
    + intros b Hb. destruct base as [b'|]; [|discriminate Hb].
      injection Hb as <-. apply value_ind_nested.
    + induction fields as [|f fields IH]; constructor; [apply value_ind_nested|exact IH].
  - apply Hlist. induction items as [|x items IH]; constructor; [apply value_ind_nested|exact IH].
  - apply Hmap. induction items as [|x items IH]; constructor; [|exact IH].
    split; apply value_ind_nested.
Qed.
End ValueInd.

(** The objects a schema allows: values in range, homogeneous containers that a
    32-bit size can count, field ids of 16 bits, a base that is a struct. *)
Definition all (l : list Prop) : Prop := foldr and True l.

Fixpoint value_ok (v : value) : Prop :=
  match v with
  | VBasic s => scalar_ok s
  | VStruct base fields =>
      match base with
      | None => True
      | Some b => type_of b = BT_STRUCT /\ value_ok b
      end /\
      all ((fun f => fits 16 (fst (fst f)) /\ value_ok (snd f)) <$> fields)
  | VList _ t items =>
      fits 5 t /\ zlen items < 2 ^ 32 /\
      all ((fun x => type_of x = t /\ value_ok x) <$> items)
  | VMap kt vt items =>
      fits 5 kt /\ fits 5 vt /\ zlen items < 2 ^ 32 /\
      all ((fun kv => (type_of (fst kv) = kt /\ value_ok (fst kv)) /\
                      (type_of (snd kv) = vt /\ value_ok (snd kv))) <$> items)
  end.

(** In no optional field a zero hides behind a default of zero with the other sign. *)
Fixpoint exact_zeros (v : value) : Prop :=
  match v with
  | VBasic _ => True
  | VStruct base fields =>
      match base with None => True | Some b => exact_zeros b end /\
      all ((fun f =>
              match modifier (snd (fst f)), snd f with
              | Optional, VBasic s => zero_kept (default_value (snd (fst f))) s
              | _, _ => True
              end /\ exact_zeros (snd f)) <$> fields)
  | VList _ _ items => all (exact_zeros <$> items)
  | VMap _ _ items => all ((fun kv => exact_zeros (snd kv)) <$> items)
  end.

Lemma all_Forall {A} (P : A -> Prop) l : all (P <$> l) <-> Forall P l.
Proof.
  induction l as [|x l IH]; simpl; [by split; [constructor|]|].
  rewrite Forall_cons_iff. fold (P <$> l). by rewrite <-IH.
Qed.

Lemma type_of_range v : 2 <= type_of v <= 18.
Proof. destruct v as [[b|[]|[]| | | |]| |[]|]; vm_compute; split; congruence. Qed.

(** * Wire formats *)

(** The bytes of the pieces a payload is made of.  [wf_prefix] is what precedes the
    body of a struct that is not a base, a function of the body's length;
    [wf_counted] says that the writer has to know that length in advance. *)
Record wire_format : Type := mkWF {
  wf_scalar : scalar -> list byte;
  wf_field : BondDataType -> Z -> list byte;
  wf_stop : bool -> list byte;
  wf_list : Z -> BondDataType -> list byte;
  wf_map : Z -> BondDataType * BondDataType -> list byte;
  wf_prefix : Z -> list byte;
  wf_counted : bool;
  wf_may_omit : bool
}.

Section Encode.
Context (F : wire_format).

Definition omitted (f : Z * Metadata * value) : bool :=
  omit_field (wf_may_omit F) (snd (fst f)) (is_default (snd f) (snd (fst f))).

(** The payload of a value.  [base] says that a struct is written as the base part
    of another. *)
Fixpoint encode (base : bool) (v : value) : list byte :=
  match v with
  | VBasic s => wf_scalar F s
  | VStruct b fields =>
      let body :=
        match b with None => [] | Some bv => encode true bv end ++
        concat ((fun f => if omitted f then []
                          else wf_field F (type_of (snd f)) (fst (fst f)) ++
                               encode false (snd f)) <$> fields) ++
        wf_stop F base in
      if base then body else wf_prefix F (zlen body) ++ body
  | VList _ t items => wf_list F (zlen items) t ++ concat (encode false <$> items)
  | VMap kt vt items =>
      wf_map F (zlen items) (kt, vt) ++
      concat ((fun kv => encode false (fst kv) ++ encode false (snd kv)) <$> items)
  end.

(** The bytes of one field, of the fields of one level, of a whole struct. *)
Definition field_bytes (f : Z * Metadata * value) : list byte :=
  if omitted f then []
  else wf_field F (type_of (snd f)) (fst (fst f)) ++ encode false (snd f).
Definition fields_bytes (fields : list (Z * Metadata * value)) : list byte :=
  concat (field_bytes <$> fields).
Definition body_of (base : bool) (b : option value) (fields : list (Z * Metadata * value)) :
    list byte :=
  match b with None => [] | Some bv => encode true bv end ++
  fields_bytes fields ++ wf_stop F base.

(** The struct lengths the payload contains, in the order they are written. *)
Fixpoint lens (base : bool) (v : value) : list Z :=
  match v with
  | VBasic _ => []
  | VStruct b fields =>
      (if base then [] else if wf_counted F then [zlen (body_of base b fields)] else []) ++
      match b with None => [] | Some bv => lens true bv end ++
      concat ((fun f => if omitted f then [] else lens false (snd f)) <$> fields)
  | VList _ _ items => concat (lens false <$> items)
  | VMap _ _ items => concat ((fun kv => lens false (fst kv) ++ lens false (snd kv)) <$> items)
  end.

Lemma encode_struct base b fields :
  encode base (VStruct b fields) =
    if base then body_of base b fields
    else wf_prefix F (zlen (body_of base b fields)) ++ body_of base b fields.
Proof. done. Qed.

(** Without length prefixes no length is needed in advance. *)
Lemma uncounted_lens base v : wf_counted F = false -> lens base v = [].
Proof.
  intros Hc. revert base.
  induction v as [s|b fields Hb Hf|k t items Hi|kt vt items Hi] using value_ind_nested;
    intros base; cbn [lens]; [done| | |].
  - rewrite Hc. replace (match b with None => [] | Some bv => lens true bv end) with (@nil Z)
      by (destruct b; [by rewrite Hb|done]).
    assert (Hfs : concat ((fun f => if omitted f then [] else lens false (snd f)) <$> fields)
      = []).
    { induction Hf as [|f fields Hx _ IH]; [done|]. rewrite fmap_cons. cbn [concat].
      rewrite IH, Hx. by case_match. }
    rewrite Hfs. by destruct base.
  - induction Hi as [|x items Hx _ IH]; [done|]. rewrite fmap_cons. cbn [concat].
    by rewrite IH, Hx.
  - induction Hi as [|x items [Hx Hy] _ IH]; [done|]. rewrite fmap_cons. cbn [concat].
    by rewrite IH, Hx, Hy.
Qed.
End Encode.

(** * Protocol writers *)

(** The members of a protocol writer, as functions of its state; the metadata
    arguments no protocol here looks at are left out. *)
Record ProtocolWriter (W : Type) : Type := mkPW {
  may_omit_fields : bool;
  WriteVersion : M W unit;
  WriteStructBegin : bool -> M W unit;
  WriteStructEnd : bool -> M W unit;
  WriteField : Z -> scalar -> M W unit;
  WriteFieldBegin : BondDataType -> Z -> M W unit;
  WriteFieldEnd : M W unit;
  WriteFieldOmitted : BondDataType -> Z -> Metadata -> M W unit;
  WriteContainerBegin : Z -> BondDataType -> M W unit;
  WriteMapBegin : Z -> BondDataType * BondDataType -> M W unit;
  WriteContainerEnd : M W unit;
  Write : scalar -> M W unit
}.
Arguments mkPW {W}.
Arguments may_omit_fields {W}.
Arguments WriteVersion {W}.
Arguments WriteStructBegin {W}.
Arguments WriteStructEnd {W}.
Arguments WriteField {W}.
Arguments WriteFieldBegin {W}.
Arguments WriteFieldEnd {W}.
Arguments WriteFieldOmitted {W}.
Arguments WriteContainerBegin {W}.
Arguments WriteMapBegin {W}.
Arguments WriteContainerEnd {W}.
Arguments Write {W}.

(** ** What a writer promises about a wire format *)

(** A way to state what a command does: it accounts for the bytes [bs], struct
    lengths [ls] being used up (or found out) on the way.  It is closed under
    sequencing. *)
Record trace_logic (W : Type) : Type := mkTL {
  does : list Z -> M W unit -> list byte -> Prop;
  does_nil : does [] (ret tt) [];
  does_bind m1 m2 ls1 ls2 bs1 bs2 :
    does ls1 m1 bs1 -> does ls2 m2 bs2 -> does (ls1 ++ ls2) (m1 ;;; m2) (bs1 ++ bs2);
  does_refine m1 m2 ls bs : (forall s s', m1 s = (Ok tt, s') -> m2 s = (Ok tt, s')) ->
    does ls m1 bs -> does ls m2 bs
}.
Arguments does {W}.
Arguments does_nil {W}.
Arguments does_bind {W}.
Arguments does_refine {W}.

Section TraceLogic.
Context {W : Type} (T : trace_logic W).

Lemma does_ext m1 m2 ls bs : (forall s, m1 s = m2 s) -> does T ls m1 bs -> does T ls m2 bs.
Proof. intros He. apply does_refine. intros s s'. by rewrite He. Qed.

(** With no lengths in the first command; with a last command of no bytes. *)
Lemma does_bind0 m1 m2 ls bs1 bs2 :
  does T [] m1 bs1 -> does T ls m2 bs2 -> does T ls (m1 ;;; m2) (bs1 ++ bs2).
Proof. apply (does_bind T m1 m2 [] ls). Qed.

Lemma does_then m1 m2 ls bs :
  does T ls m1 bs -> does T [] m2 [] -> does T ls (m1 ;;; m2) bs.
Proof.
  intros H1 H2. rewrite <-(app_nil_r ls), <-(app_nil_r bs). by apply does_bind.
Qed.

Lemma does_seqM {A} (f : A -> M W unit) (g : A -> list byte) (h : A -> list Z) l :
  Forall (fun x => does T (h x) (f x) (g x)) l ->
  does T (concat (h <$> l)) (seqM (f <$> l)) (concat (g <$> l)).
Proof.
  induction 1 as [|x l Hx _ IH]; [apply does_nil|].
  rewrite !fmap_cons. cbn [concat seqM]. by apply does_bind.
Qed.
End TraceLogic.

Record writer_laws {W} (T : trace_logic W) (P : ProtocolWriter W) (F : wire_format) : Prop :=
  mkWL {
  wl_may_omit : may_omit_fields P = wf_may_omit F;
  wl_base m ls bs : does T ls m bs ->
    does T ls (WriteStructBegin P true ;;; m ;;; WriteStructEnd P true) (bs ++ wf_stop F true);
  wl_unknown_end : does T [] (WriteStructEnd P true) (wf_stop F true);
  wl_struct m ls bs : does T ls m bs -> fits 32 (zlen (bs ++ wf_stop F false)) ->
    does T ((if wf_counted F then [zlen (bs ++ wf_stop F false)] else []) ++ ls)
      (WriteStructBegin P false ;;; m ;;; WriteStructEnd P false)
      (wf_prefix F (zlen (bs ++ wf_stop F false)) ++ bs ++ wf_stop F false);
  wl_field id s : fits 16 id -> scalar_ok s ->
    does T [] (WriteField P id s)
      (wf_field F (get_type_id (btype_of s)) id ++ wf_scalar F s);
  wl_field_begin t id : fits 5 t -> fits 16 id ->
    does T [] (WriteFieldBegin P t id) (wf_field F t id);
  wl_field_end : does T [] (WriteFieldEnd P) [];
  wl_omitted t id m : wf_may_omit F = true -> does T [] (WriteFieldOmitted P t id m) [];
  wl_list n t : fits 32 n -> fits 5 t ->
    does T [] (WriteContainerBegin P n t) (wf_list F n t);
  wl_map n kt vt : fits 32 n -> fits 5 kt -> fits 5 vt ->
    does T [] (WriteMapBegin P n (kt, vt)) (wf_map F n (kt, vt));
  wl_container_end : does T [] (WriteContainerEnd P) [];
  wl_write s : scalar_ok s -> does T [] (Write P s) (wf_scalar F s)
}.

(** ** Two logics: plain streams, and streams that wait for lengths *)

(** [emits_lens pending ls m bs]: like [emits], for a writer that has struct lengths
    waiting to be written: [m] uses up exactly [ls]. *)
Definition emits_lens {W} `{Writable W} (pending : W -> list Z) (ls : list Z)
    (m : M W unit) (bs : list byte) : Prop :=
  forall s n rest, room s n -> zlen bs <= n -> pending s = ls ++ rest ->
  exists s', m s = (Ok tt, s') /\ appends s bs s' /\ room s' (n - zlen bs) /\
    pending s' = rest.

Program Definition lens_logic {W} `{Writable W} (pending : W -> list Z) : trace_logic W := {|
  does := emits_lens pending
|}.
Next Obligation.
  intros W HW pending s n rest Hr Hn Hp. exists s.
  split_and!; [done|apply appends_nil| |done].
  eapply room_weaken; [done|simpl in *; lia].
Qed.
Next Obligation.
  intros W HW pending m1 m2 ls1 ls2 bs1 bs2 H1 H2 s n rest Hr Hn Hp.
  rewrite length_app in Hn. rewrite <-app_assoc in Hp.
  destruct (H1 s n _ Hr ltac:(lia) Hp) as (s1 & E1 & A1 & R1 & P1).
  destruct (H2 s1 _ _ R1 ltac:(lia) P1) as (s2 & E2 & A2 & R2 & P2).
  exists s2. mrun. split_and!; [done|by eapply appends_app| |done].
  by rewrite length_app, Nat2Z.inj_add, Z.sub_add_distr.
Qed.
Next Obligation.
  intros W HW pending m1 m2 ls bs He H1 s n rest Hr Hn Hp.
  destruct (H1 s n rest Hr Hn Hp) as (s' & E & H'). exists s'. split; [by apply He|done].
Qed.

(** For a writer of uncounted structs: a stream has no lengths pending. *)
Program Definition stream_logic {W} `{Writable W} : trace_logic W := {|
  does ls m bs := ls = [] /\ emits m bs
|}.
Next Obligation. intros W HW. split; [done|apply emits_nil]. Qed.
Next Obligation.
  intros W HW m1 m2 ls1 ls2 bs1 bs2 [-> H1] [-> H2]. split; [done|by apply emits_bind].
Qed.
Next Obligation.
  intros W HW m1 m2 ls bs He [-> H1]. split; [done|by eapply emits_refine].
Qed.

(** * Skipping structs in tagged formats *)

Section SkipStruct.
Context {R : Type} `{Readable R}.
Context (ReadFieldBegin : M R (BondDataType * Z)).

Definition is_stop (type : BondDataType) : bool := (type =? BT_STOP) || (type =? BT_STOP_BASE).

(** The inner loop: fields up to a stop tag, which is returned. *)
Fixpoint skip_fields (SkipType : BondDataType -> M R unit) (fuel : nat) : M R BondDataType :=
  match fuel with
  | O => fail OutOfFuel
  | S fuel' =>
      let! f := ReadFieldBegin in
      if is_stop (fst f) then ret (fst f)
      else SkipType (fst f) ;;; skip_fields SkipType fuel'
  end.

(** The outer loop, over the levels of the hierarchy. *)
Fixpoint skip_struct (ReadStructBegin : M R unit) (SkipType : BondDataType -> M R unit)
    (fuel : nat) : M R unit :=
  match fuel with
  | O => fail OutOfFuel
  | S fuel' =>
      ReadStructBegin ;;;
      let! field_type := skip_fields SkipType fuel' in
      if field_type =? BT_STOP then ret tt
      else skip_struct ReadStructBegin SkipType fuel'
  end.

Context (ReadStructBegin : M R unit) (SkipType : BondDataType -> M R unit).

(** Whatever the bytes, the loops end: each turn consumes a byte. *)
Lemma skip_fields_safely n fuel :
  0 <= n < Z.of_nat fuel ->
  (forall k, safely k 1 ReadFieldBegin) ->
  (forall t, safely (n - 1) 0 (SkipType t)) ->
  safely n 1 (skip_fields SkipType fuel).
Proof.
  intros Hn Hr Hs. assert (Hs' : forall k t, k <= n - 1 -> safely k 0 (SkipType t)).
  { intros k t Hk. eapply safely_weaken; [reflexivity|exact Hk|apply Hs]. }
  clear Hs. revert n Hn Hs'. induction fuel as [|fuel IH]; intros n Hn Hs; [lia|].
  cbn [skip_fields]. apply (safely_bind _ _ n 1 0); [apply Hr|]. intros f.
  case_match; [apply safely_ret|].
  destruct (decide (n - 1 < 0)) as [Hneg|Hpos].
  - intros s Hok Hlen. lia.
  - apply safely_bind_0; [apply Hs; lia|]. intros _.
    eapply (safely_weaken _ (n - 1) _ 1); [lia|reflexivity|].
    apply IH; [lia|]. intros k t Hk. apply Hs. lia.
Qed.

Lemma skip_struct_safely n fuel :
  0 <= n -> n + 1 < Z.of_nat fuel ->
  (forall k, safely k 1 ReadFieldBegin) -> (forall k, safely k 0 ReadStructBegin) ->
  (forall t, safely (n - 1) 0 (SkipType t)) ->
  safely n 1 (skip_struct ReadStructBegin SkipType fuel).
Proof.
  intros Hn0 Hn Hr Hb Hs.
  assert (Hs' : forall k t, k <= n - 1 -> safely k 0 (SkipType t)).
  { intros k t Hk. eapply safely_weaken; [reflexivity|exact Hk|apply Hs]. }
  clear Hs. revert n Hn0 Hn Hs'. induction fuel as [|fuel IH]; intros n Hn0 Hn Hs; [lia|].
  cbn [skip_struct]. apply (safely_bind _ _ n 0 1); [apply Hb|]. intros _.
  rewrite Z.sub_0_r. apply (safely_bind _ _ n 1 0).
  { apply skip_fields_safely; [lia|done|]. intros t. apply Hs. lia. }
  intros t. case_match; [apply safely_ret|].
  destruct (decide (n - 1 < 0)); [intros s Hok Hlen; lia|].
  eapply (safely_weaken _ (n - 1) _ 1); [lia|reflexivity|].
  apply IH; [lia|lia|]. intros k t' Hk. apply Hs. lia.
Qed.

(** ** On a payload the loops consume exactly the struct *)

Context (F : wire_format).
Context (begin_reads : reads ReadStructBegin [] tt).
Context (field_reads : forall t id, 2 <= t <= 18 -> fits 16 id ->
  reads ReadFieldBegin (wf_field F t id) (t, id)).
Context (stop_reads : forall base, exists id,
  reads ReadFieldBegin (wf_stop F base) (if base then BT_STOP_BASE else BT_STOP, id)).
Context (field_pos : forall t id, (0 < length (wf_field F t id))%nat).
Context (stop_pos : forall base, (0 < length (wf_stop F base))%nat).

(** The value of a field that is present is skipped. *)
Definition field_skips (f : Z * Metadata * value) : Prop :=
  omitted F f = false ->
  fits 16 (fst (fst f)) /\ reads (SkipType (type_of (snd f))) (encode F false (snd f)) tt.

Lemma is_stop_value v : is_stop (type_of v) = false.
Proof.
  pose proof (type_of_range v). unfold is_stop, BT_STOP, BT_STOP_BASE. by zbool.
Qed.

Lemma skip_fields_reads fields base fuel :
  Forall field_skips fields -> zlen (fields_bytes F fields) < Z.of_nat fuel ->
  reads (skip_fields SkipType fuel) (fields_bytes F fields ++ wf_stop F base)
    (if base then BT_STOP_BASE else BT_STOP).
Proof.
  intros Hf. revert fuel. induction Hf as [|[[id m] v] fields Hfv Hf IH]; intros fuel Hl.
  - destruct fuel as [|fuel]; [simpl in Hl; lia|].
    destruct (stop_reads base) as [id Hr]. cbn [skip_fields fields_bytes fmap list_fmap concat app].
    rewrite <-(app_nil_r (wf_stop F base)). eapply reads_bind; [exact Hr|]. cbn [fst].
    destruct base; apply reads_ret.
  - unfold fields_bytes in *. rewrite fmap_cons in *. cbn [concat] in *.
    unfold field_bytes at 1. unfold field_bytes at 1 in Hl. cbn [snd fst] in *.
    unfold field_skips in Hfv. cbn [snd fst] in Hfv.
    destruct (omitted F (id, m, v)); [by apply IH|]. destruct (Hfv eq_refl) as [Hid Hv].
    pose proof (field_pos (type_of v) id). rewrite !length_app in Hl.
    destruct fuel as [|fuel]; [lia|]. cbn [skip_fields].
    rewrite <-!app_assoc. eapply reads_bind; [by apply field_reads, Hid; apply type_of_range|].
    cbn [fst]. rewrite is_stop_value.
    eapply reads_bind; [exact Hv|]. apply IH. lia.
Qed.

(** [struct_ends l]: with enough turns the outer loop consumes exactly [l]. *)
Definition struct_ends (l : list byte) : Prop :=
  forall fuel, zlen l < Z.of_nat fuel ->
  reads (skip_struct ReadStructBegin SkipType fuel) l tt.

Lemma level_ends fields : Forall field_skips fields ->
  struct_ends (fields_bytes F fields ++ wf_stop F false).
Proof.
  intros Hf [|fuel] Hl; [lia|]. rewrite length_app in Hl. pose proof (stop_pos false).
  cbn [skip_struct]. eapply reads_bind_nil; [done|].
  rewrite <-(app_nil_r (_ ++ _)).
  eapply reads_bind; [by apply (skip_fields_reads _ false); [|lia]|]. apply reads_ret.
Qed.

Lemma base_level_ends fields tail : Forall field_skips fields -> struct_ends tail ->
  struct_ends (fields_bytes F fields ++ wf_stop F true ++ tail).
Proof.
  intros Hf Ht [|fuel] Hl; [lia|]. rewrite !length_app in Hl. pose proof (stop_pos true).
  cbn [skip_struct]. eapply reads_bind_nil; [done|]. rewrite app_assoc.
  eapply reads_bind; [by apply (skip_fields_reads _ true); [|lia]|]. apply Ht. lia.
Qed.

(** A base part followed by what ends the struct. *)
Definition base_continues (v : value) : Prop :=
  forall tail, struct_ends tail -> struct_ends (encode F true v ++ tail).

Lemma body_continues b fields :
  (forall bv, b = Some bv -> base_continues bv) -> Forall field_skips fields ->
  base_continues (VStruct b fields).
Proof.
  intros Hb Hf tail Ht. rewrite encode_struct. cbv iota. unfold body_of.
  rewrite <-!app_assoc.
  pose proof (base_level_ends fields tail Hf Ht) as Hl.
  destruct b as [bv|]; [by apply Hb|done].
Qed.

Lemma body_ends b fields :
  (forall bv, b = Some bv -> base_continues bv) -> Forall field_skips fields ->
  struct_ends (body_of F false b fields).
Proof.
  intros Hb Hf. unfold body_of. pose proof (level_ends fields Hf) as Hl.
  destruct b as [bv|]; [by apply Hb|done].
Qed.
End SkipStruct.

(** * What the readers share *)

Lemma z2b_wrap t : z2b (wrap 8 t) = z2b t.
Proof. rewrite <-b2z_z2b. apply z2b_b2z. Qed.

Lemma le_bytes_1 z : le_bytes 1 z = [z2b z].
Proof. done. Qed.

Section SharedReads.
Context {R : Type} `{InputStreamLaws R}.

Lemma read_byte_reads z : 0 <= z < 256 -> reads (is_Read (S := R) 1) [z2b z] z.
Proof.
  intros Hz. rewrite <-(b2z_z2b_small z) at 2 by lia.
  replace (b2z (z2b z)) with (of_le [z2b z]) by apply LittleEndianList.le_combine_1.
  apply is_Read_reads; [done|lia].
Qed.

Lemma multiply_thrown a b e : checked_multiply 32 a b = Err e -> exists x, e = Thrown x.
Proof. unfold checked_multiply. intros Hm. case_match; [by simplify_eq; eexists|done]. Qed.

Lemma multiply_fits a b r : checked_multiply 32 a b = Ok r -> fits 32 r.
Proof.
  unfold checked_multiply. intros Hm. case_match; [done|]. simplify_eq. by apply wrap_fits.
Qed.

Lemma skip_multiplied_safely n a b :
  safely n 0 (let! r := of_outcome (checked_multiply 32 a b) in is_Skip (S := R) r).
Proof.
  intros s Hok Hn. destruct (checked_multiply 32 a b) as [r|e] eqn:E.
  - rewrite (bind_of_outcome_ok (Ok r) r) by done.
    apply (is_Skip_safely r n (multiply_fits a b r E) s Hok Hn).
  - exists 0%nat. split_and!; [done|done|]. by eapply multiply_thrown.
Qed.

Lemma read_size_safely n : safely n 1 (is_ReadVariableUnsigned (S := R) 32).
Proof. apply is_Var_safely. by right; left. Qed.

Lemma safely_neg {A} n (m : M R A) k : n < 0 -> safely n k m.
Proof. intros Hn s _ Hs. lia. Qed.

Lemma skip_size_safely n :
  safely n 0 (let! size := is_ReadVariableUnsigned (S := R) 32 in is_Skip size).
Proof.
  intros s Hok Hn.
  destruct (read_size_safely n s Hok Hn) as (j & Ho & Hv & Hj). unfold bind.
  destruct (is_ReadVariableUnsigned 32 s) as [[z|e] s1] eqn:E; simpl in *; [|by exists j].
  assert (Hf : fits 32 z) by (eapply is_Var_fits; [|exact Hok|exact E]; by right; left).
  destruct (is_Skip_safely z n Hf s1 Ho) as (j2 & Ho2 & Hv2 & Hj2).
  { rewrite Hv, length_drop. lia. }
  exists (j + j2)%nat. split_and!; [done|by rewrite Hv2, Hv, drop_drop|].
  rewrite Hv, length_drop in Hj2. case_match; [lia|done].
Qed.

Lemma times_safely n (size : option Z) (m : M R unit) : safely n 0 m ->
  safely n 0 (match size with None => m | Some c => repeatM (Z.to_nat c) m end).
Proof. intros Hm. destruct size; [by apply safely_repeatM|done]. Qed.

End SharedReads.

(** Case analysis on the type tag of a value. *)
Ltac type_cases Ht :=
  match type of Ht with
  | 2 <= ?t <= 18 =>
      let Hc := fresh in
      assert (Hc : t = 2 \/ t = 3 \/ t = 4 \/ t = 5 \/ t = 6 \/ t = 7 \/ t = 8 \/ t = 9 \/
        t = 10 \/ t = 11 \/ t = 12 \/ t = 13 \/ t = 14 \/ t = 15 \/ t = 16 \/ t = 17 \/ t = 18)
        by lia;
      repeat (destruct Hc as [Hc|Hc]; [subst t|]); [..|subst t]
  end.


(** * A sample object for the examples *)

Definition no_default : Metadata := mkMetadata Required Variant_new [] [].
Definition optional_zero : Metadata := 
  mkMetadata Optional (VariantSet Variant_new (SUInt W16 0)) [] [].

(** A derived struct with a base; an omitted optional field, ids of the three
    sizes of the compact encoding, nested containers and a nested struct. *)
Definition sample : value :=
  VStruct (Some (VStruct None [(0, no_default, VBasic (SInt W32 (-5)));
                               (7, no_default, VBasic (SBool true))]))
    [(1, optional_zero, VBasic (SUInt W16 0));
     (2, optional_zero, VBasic (SUInt W16 300));
     (200, no_default, VList false BT_STRING [VBasic (SString [104; 105]); VBasic (SString [])]);
     (300, no_default, VMap BT_UINT8 BT_STRUCT
        [(VBasic (SUInt W8 9), VStruct None [(3, no_default, VBasic (SWString [937]))])])].

Lemma sample_ok : value_ok sample.
Proof. repeat first [apply conj | apply Forall_cons_2 | apply Forall_nil_2 | by vm_compute]. Qed.
