(* ===== verification/Serializer.v ===== *)
(** The serializing transform (cpp/inc/bond/core/transforms.h, [Serializer],
    [Marshaler]) applied to an object (cpp/inc/bond/core/parser.h,
    [StaticParser<const T&>], and detail/inheritance.h).

    The parser visits a struct as begin, base, fields in schema order, end; the
    transform turns each visit into calls of the protocol writer.  The main
    theorem: for any writer that keeps its laws, the bytes written are the
    payload of the wire format. *)

From S2P Require Import Prelude Streams DataType Metadata Protocol.

Section Serializer.
Context {W : Type} (P : ProtocolWriter W).

(** [Serializer::Field], by [omit_field]; [value] has been written as
    [Write(value)] by the caller's recursion.  A basic field goes through the
    writer's [WriteField], other fields between [WriteFieldBegin] and
    [WriteFieldEnd]. *)
Definition Field (id : Z) (metadata : Metadata) (v : value) (write : M W unit) : M W unit :=
  if omit_field (may_omit_fields P) metadata (is_default v metadata)
  then WriteFieldOmitted P (type_of v) id metadata
  else
    match v with
    | VBasic s => WriteField P id s
    | _ => WriteFieldBegin P (type_of v) id ;;; write ;;; WriteFieldEnd P
    end.

(** [Serializer(_output, base)] applied to a value: [Write(value)] for the kinds
    of values; for a struct [Begin], [Base] of the base class part, [Field] for
    each field, [End]. *)
Fixpoint Apply (base : bool) (v : value) : M W unit :=
  match v with
  | VBasic s => Write P s
  | VStruct b fields =>
      WriteStructBegin P base ;;;
      match b with None => ret tt | Some bv => Apply true bv end ;;;
      seqM ((fun f => Field (fst (fst f)) (snd (fst f)) (snd f) (Apply false (snd f)))
              <$> fields) ;;;
      WriteStructEnd P base
  | VList _ t items =>
      WriteContainerBegin P (container_size items) t ;;;
      seqM (Apply false <$> items) ;;;
      WriteContainerEnd P
  | VMap kt vt items =>
      WriteMapBegin P (container_size items) (kt, vt) ;;;
      seqM ((fun kv => Apply false (fst kv) ;;; Apply false (snd kv)) <$> items) ;;;
      WriteContainerEnd P
  end.

(** [Marshaler::Marshal]. *)
Definition Marshal (v : value) : M W unit := WriteVersion P ;;; Apply false v.

(** * Correctness *)

Context (T : trace_logic W) (F : wire_format) (laws : writer_laws T P F).

(** The part of a struct between begin and end fits what the length says. *)
Lemma sub_fits base b fields : zlen (encode F base (VStruct b fields)) < 2 ^ 32 ->
  zlen (body_of F base b fields) < 2 ^ 32.
Proof. rewrite encode_struct. destruct base; [done|]. rewrite length_app. lia. Qed.

Lemma fields_fit {A} (g : A -> list byte) l n x :
  zlen (concat (g <$> l)) < n -> x ∈ l -> zlen (g x) < n.
Proof.
  intros Hl Hx. apply list_elem_of_split in Hx as (l1 & l2 & ->).
  rewrite fmap_app, concat_app, length_app, fmap_cons in Hl. cbn [concat] in Hl.
  rewrite length_app in Hl. lia.
Qed.

Lemma container_size_id {A} (l : list A) : zlen l < 2 ^ 32 -> container_size l = zlen l.
Proof. intros. apply wrap_id. unfold fits. lia. Qed.

Lemma zlen_fits {A} (l : list A) : zlen l < 2 ^ 32 -> fits 32 (zlen l).
Proof. unfold fits. lia. Qed.

(** [v] is written as its payload. *)
Definition written (base : bool) (v : value) : Prop :=
  zlen (encode F base v) < 2 ^ 32 ->
  does T (lens F base v) (Apply base v) (encode F base v).

Lemma field_written f :
  fits 16 (fst (fst f)) -> value_ok (snd f) -> written false (snd f) ->
  zlen (field_bytes F f) < 2 ^ 32 ->
  does T (if omitted F f then [] else lens F false (snd f))
    (Field (fst (fst f)) (snd (fst f)) (snd f) (Apply false (snd f))) (field_bytes F f).
Proof.
  destruct f as [[id m] v]. unfold field_bytes, Field, omitted. cbn [fst snd].
  intros Hid Hok Hv Hl. rewrite (wl_may_omit _ _ _ laws).
  destruct (omit_field (wf_may_omit F) m (is_default v m)) eqn:E.
  { apply (wl_omitted _ _ _ laws). by destruct (wf_may_omit F). }
  rewrite length_app in Hl.
  assert (Hf : does T (lens F false v)
    (WriteFieldBegin P (type_of v) id ;;; Apply false v ;;; WriteFieldEnd P)
    (wf_field F (type_of v) id ++ encode F false v)).
  { pose proof (type_of_range v). apply does_bind0.
    - apply (wl_field_begin _ _ _ laws); [|done]. unfold fits. change (2 ^ 5) with 32. lia.
    - apply does_then; [apply Hv; lia|apply (wl_field_end _ _ _ laws)]. }
  destruct v as [s| | |]; [|exact Hf..]. by apply (wl_field _ _ _ laws).
Qed.

Lemma struct_written base b fields :
  (forall bv, b = Some bv -> written true bv) ->
  Forall (fun f => fits 16 (fst (fst f)) /\ value_ok (snd f) /\ written false (snd f)) fields ->
  written base (VStruct b fields).
Proof.
  intros Hb Hf Hl. pose proof (sub_fits base b fields Hl) as Hbody.
  unfold body_of in Hbody. rewrite !length_app in Hbody.
  assert (Hin : does T
    (match b with None => [] | Some bv => lens F true bv end ++
     concat ((fun f => if omitted F f then [] else lens F false (snd f)) <$> fields))
    (match b with None => ret tt | Some bv => Apply true bv end ;;;
     seqM ((fun f => Field (fst (fst f)) (snd (fst f)) (snd f) (Apply false (snd f)))
             <$> fields))
    (match b with None => [] | Some bv => encode F true bv end ++ fields_bytes F fields)).
  { apply does_bind.
    - destruct b as [bv|]; [|apply does_nil]. apply Hb; [done|lia].
    - apply (does_seqM T _ (field_bytes F)). rewrite Forall_forall in *.
      intros f Hin. destruct (Hf _ Hin) as (Hid & Hok & Hw).
      apply field_written; [done..|]. apply list_elem_of_In in Hin.
      apply (fields_fit (field_bytes F) fields); [|done]. fold (fields_bytes F fields). lia. }
  assert (Hbody_eq : body_of F base b fields =
    (match b with None => [] | Some bv => encode F true bv end ++ fields_bytes F fields) ++
    wf_stop F base) by (unfold body_of; by rewrite app_assoc).
  cbn [Apply lens]. rewrite encode_struct, !Hbody_eq.
  assert (Hassoc : forall s,
    (WriteStructBegin P base ;;;
     (match b with None => ret tt | Some bv => Apply true bv end ;;;
      seqM ((fun f => Field (fst (fst f)) (snd (fst f)) (snd f) (Apply false (snd f)))
              <$> fields)) ;;; WriteStructEnd P base) s =
    (WriteStructBegin P base ;;;
     match b with None => ret tt | Some bv => Apply true bv end ;;;
     seqM ((fun f => Field (fst (fst f)) (snd (fst f)) (snd f) (Apply false (snd f)))
             <$> fields) ;;; WriteStructEnd P base) s).
  { intros s. unfold bind at 1. unfold bind at 3.
    destruct (WriteStructBegin P base s) as [[[]|e] s1]; [|done]. by rewrite bind_assoc. }
  eapply (does_ext T); [exact Hassoc|]. destruct base.
  - by apply (wl_base _ _ _ laws).
  - apply (wl_struct _ _ _ laws); [done|]. apply zlen_fits. rewrite !length_app. lia.
Qed.

(** The serializer writes the payload of its argument. *)
Lemma Apply_written v : value_ok v -> forall base, written base v.
Proof.
  induction v as [s|b fields Hb Hf|k t items Hi|kt vt items Hi] using value_ind_nested;
    cbn [value_ok]; intros Hok base.
  - intros _. by apply (wl_write _ _ _ laws).
  - destruct Hok as [Hbok Hfok]. apply all_Forall in Hfok. apply struct_written.
    + intros bv ->. apply (Hb bv); [done|]. by destruct Hbok.
    + rewrite Forall_forall in *. intros f Hin. destruct (Hfok _ Hin).
      split_and!; [done|done|]. by apply Hf.
  - destruct Hok as (Ht & Hn & Hall). apply all_Forall in Hall. intros Hl.
    cbn [Apply lens encode] in *. rewrite length_app in Hl. rewrite container_size_id by done.
    apply does_bind0; [by apply (wl_list _ _ _ laws); [apply zlen_fits|]|].
    apply does_then; [|apply (wl_container_end _ _ _ laws)].
    apply does_seqM. rewrite Forall_forall in *. intros x Hin.
    destruct (Hall _ Hin) as [_ Hx]. apply (Hi _ Hin Hx false).
    apply list_elem_of_In in Hin.
    apply (fields_fit (encode F false) items (2 ^ 32) x); [lia|done].
  - destruct Hok as (Hkt & Hvt & Hn & Hall). apply all_Forall in Hall. intros Hl.
    cbn [Apply lens encode] in *. rewrite length_app in Hl. rewrite container_size_id by done.
    apply does_bind0; [by apply (wl_map _ _ _ laws); [apply zlen_fits|..]|].
    apply does_then; [|apply (wl_container_end _ _ _ laws)].
    apply does_seqM. rewrite Forall_forall in *. intros [x y] Hin.
    destruct (Hall _ Hin) as [[_ Hx] [_ Hy]]. destruct (Hi _ Hin) as [Wx Wy].
    cbn [fst snd] in *. apply list_elem_of_In in Hin.
    pose proof (fields_fit (fun kv => encode F false (fst kv) ++ encode F false (snd kv)) items
      (2 ^ 32) (x, y) ltac:(lia) Hin) as Hlen. cbn [fst snd] in Hlen. rewrite length_app in Hlen.
    apply does_bind; [apply (Wx Hx false)|apply (Wy Hy false)]; lia.
Qed.
End Serializer.
