(* ===== verification/SimpleJson.v ===== *)
(** [SimpleJsonWriter] and the serializer for it (cpp/inc/bond/protocol/simple_json_writer.h).

    The writer spells numbers and narrow strings with a library outside the repository,
    whose functions are arguments here; brackets, separators, names, line breaks and wide
    strings are its own.  The main theorem: what it writes for an object is a JSON text of
    the tree of the object. *)

From S2P Require Import Prelude Streams Encoding DataType Metadata Protocol Json.
From Stdlib Require Import Strings.Byte.

#[local] Open Scope byte_scope.
#[local] Open Scope Z_scope.

(** [detail::FieldName]: the attribute [JsonName], or the name. *)
Definition JsonName : list Z := [74; 115; 111; 110; 78; 97; 109; 101].
Definition FieldName (metadata : Metadata) : list Z :=
  match list_find (fun a => fst a = JsonName) (md_attributes metadata) with
  | Some (_, a) => snd a
  | None => md_name metadata
  end.

(** What rapidjson's [Writer] spells: [WriteInt64], [WriteUint64], [WriteDouble] (of a bit
    pattern), and the characters [WriteString] puts between its quotes. *)
Record rapidjson : Type := mkRJ {
  rj_int64 : Z -> list byte;
  rj_uint64 : Z -> list byte;
  rj_double : Z -> list byte;
  rj_chars : list Z -> list byte
}.

(** A printer gives a text and the count of the writer after it from the count before
    it; it is what a part of the writer means. *)
Definition printer : Type := Z -> list byte * Z.

(** * The writer *)

Section Writer.
Context {W : Type} `{Writable W} `{!OutputStream W}.
Context (rj : rapidjson) (pretty : bool) (indent : Z) (all_fields : bool).

(** The members that change; [_indent], [_pretty] and [_all_fields] do not. *)
Record SimpleJsonWriter : Type := mkSJW { sj_output : W; sj_count : Z; sj_level : Z }.

Definition SimpleJsonWriter_new (output : W) : SimpleJsonWriter := mkSJW output 0 0.

Definition on_output {A} (m : M W A) : M SimpleJsonWriter A :=
  zoom sj_output (fun w s => mkSJW w (sj_count s) (sj_level s)) m.

(** [_output.Write(char)] and [_output.Write(text, size)]. *)
Definition put_char (b : byte) : M SimpleJsonWriter unit := on_output (os_Write 1 (b2z b)).
Definition put_text (bs : list byte) : M SimpleJsonWriter unit := on_output (os_Write_bytes bs).

(** rapidjson writes to its stream a character at a time. *)
Definition put_chars (bs : list byte) : M SimpleJsonWriter unit := forM bs put_char.

(** Increments of [int] members; the overflow is undefined. *)
Definition int_add (x y : Z) : M SimpleJsonWriter Z :=
  if (- 2 ^ 31 <=? x + y) && (x + y <? 2 ^ 31) then ret (x + y) else fail Undefined.
Definition set_count (c : Z) : M SimpleJsonWriter unit :=
  modify (fun s => mkSJW (sj_output s) c (sj_level s)).
Definition set_level (l : Z) : M SimpleJsonWriter unit :=
  modify (fun s => mkSJW (sj_output s) (sj_count s) l).

(** [NewLine]: [_indent], at most 8 and given as an [int], is a size in a text of eight
    spaces. *)
Definition _indent : Z := Z.min indent 8.
Definition NewLine : M SimpleJsonWriter unit :=
  if pretty then
    put_char x0a ;;;
    let! s := get in
    repeatM (Z.to_nat (sj_level s))
      (if 0 <=? _indent then put_text (replicate (Z.to_nat _indent) " "%byte) else fail Undefined)
  else ret tt.

Definition WriteOpen (bracket : byte) : M SimpleJsonWriter unit :=
  put_char bracket ;;;
  let! s := get in
  let! l := int_add (sj_level s) 1 in set_level l ;;; set_count 0.

Definition WriteClose (bracket : byte) : M SimpleJsonWriter unit :=
  let! s := get in
  let! l := int_add (sj_level s) (-1) in set_level l ;;;
  let! c := int_add (sj_count s) 1 in set_count c ;;;
  NewLine ;;; put_char bracket.

(** [Writer::WriteString]: a quote, the characters, a quote. *)
Definition WriteString (units : list Z) : M SimpleJsonWriter unit :=
  put_chars (x22 :: rj_chars rj units ++ [x22]).

Definition WriteName (name : list Z) : M SimpleJsonWriter unit :=
  WriteString name ;;; put_text (take (if pretty then 2 else 1) [":"; " "]%byte).

(** [WriteUnicode]. *)
Definition WriteUnicode (c : Z) : M SimpleJsonWriter unit :=
  put_text (["\"; "u"]%byte ++ ((fun i => z2b (HexDigit_of_int (Z.shiftr c i))) <$> [12; 8; 4; 0])).

(** [WriteString] of a wide string. *)
Definition escape_letter (c : Z) : Z :=
  if c =? 8 then 98 else if c =? 12 then 102 else if c =? 10 then 110
  else if c =? 13 then 114 else if c =? 9 then 116 else c.
Definition WriteWide (c : Z) : M SimpleJsonWriter unit :=
  let special := (c <? 32) || (c =? 34) || (c =? 92) || (c =? 47) in
  let c := if special then escape_letter c else c in
  (if special && (32 <=? c) then put_char "\"%byte else ret tt) ;;;
  if (32 <=? c) && (c <? 128) then put_char (z2b c) else WriteUnicode c.
Definition WriteWString (units : list Z) : M SimpleJsonWriter unit :=
  put_char x22 ;;; forM units WriteWide ;;; put_char x22.

(** [Write] of the basic types; a [float] is converted to [double]. *)
Definition Write (s : scalar) : M SimpleJsonWriter unit :=
  match s with
  | SBool true => put_text ["t"; "r"; "u"; "e"]%byte
  | SBool false => put_text ["f"; "a"; "l"; "s"; "e"]%byte
  | SUInt _ z => put_chars (rj_uint64 rj z)
  | SInt _ z => put_chars (rj_int64 rj z)
  | SFloat bits => put_chars (rj_double rj (float_to_double bits))
  | SDouble bits => put_chars (rj_double rj bits)
  | SString units => WriteString units
  | SWString units => WriteWString units
  end.

Definition WriteSeparator (per_line : Z) : M SimpleJsonWriter unit :=
  let! s := get in
  (if sj_count s =? 0 then ret tt else put_text (take (if pretty then 2 else 1) [","; " "]%byte)) ;;;
  let! c := int_add (sj_count s) 1 in set_count c ;;;
  if sj_count s mod per_line =? 0 then NewLine else ret tt.

(** * [Serializer<SimpleJsonWriter>] *)

(** [is_basic_type<T2>], [T2] the type of the mapped values. *)
Definition is_basic_type (t : BondDataType) : bool :=
  match basic_type_of_id t with Some _ => true | None => false end.

(** The serializer applied to a value.  For a struct: [Begin], [Base] with the same
    serializer, [Field] for each field, [End]; [level] is the serializer's [_level], zero
    for the one a nested struct is written with. *)
Fixpoint Apply (level : Z) (v : value) : M SimpleJsonWriter Z :=
  match v with
  | VBasic s => Write s ;;; ret level
  | VStruct base fields =>
      (if level =? 0 then WriteOpen "{"%byte else ret tt) ;;;
      let level := wrap 32 (level + 1) in
      let! level := match base with None => ret level | Some b => Apply level b end in
      seqM ((fun f =>
        if all_fields || negb (omit_field true (snd (fst f)) (is_default (snd f) (snd (fst f))))
        then
          WriteSeparator 1 ;;; WriteName (FieldName (snd (fst f))) ;;;
          let! _ := Apply 0 (snd f) in ret tt
        else ret tt) <$> fields) ;;;
      let level := wrap 32 (level - 1) in
      (if level =? 0 then WriteClose "}"%byte else ret tt) ;;; ret level
  | VList _ _ items =>
      WriteOpen "["%byte ;;;
      seqM ((fun x => WriteSeparator 1 ;;; let! _ := Apply 0 x in ret tt) <$> items) ;;;
      WriteClose "]"%byte ;;; ret level
  | VMap _ mapped items =>
      WriteOpen "["%byte ;;;
      seqM ((fun kv =>
        WriteSeparator 1 ;;; let! _ := Apply 0 (fst kv) in
        WriteSeparator (if is_basic_type mapped then 2 else 1) ;;;
        let! _ := Apply 0 (snd kv) in ret tt) <$> items) ;;;
      WriteClose "]"%byte ;;; ret level
  end.

(** [Serialize(obj, writer)]. *)
Definition Serialize (v : value) : M SimpleJsonWriter unit := let! _ := Apply 0 v in ret tt.

(** * What is written, as a function *)


Fixpoint run_printers (ps : list printer) (c : Z) : list byte * Z :=
  match ps with
  | [] => ([], c)
  | p :: ps' =>
      let '(b1, c1) := p c in let '(b2, c2) := run_printers ps' c1 in (b1 ++ b2, c2)
  end.

Definition line (l : Z) : list byte :=
  if pretty then x0a :: concat (replicate (Z.to_nat l) (replicate (Z.to_nat _indent) " "%byte))
  else [].
Definition separator (l per_line c : Z) : list byte :=
  (if c =? 0 then [] else take (if pretty then 2 else 1) [","; " "]%byte) ++
  (if c mod per_line =? 0 then line l else []).
Definition item (l per_line : Z) (g : printer) : printer :=
  fun c => let '(bs, c') := g (c + 1) in (separator l per_line c ++ bs, c').
Definition named (name : list byte) (g : printer) : printer :=
  fun c => let '(bs, c') := g c in
  (x22 :: name ++ [x22] ++ take (if pretty then 2 else 1) [":"; " "]%byte ++ bs, c').
Definition group (opening closing : byte) (l : Z) (ps : list printer) : printer :=
  fun _ => let '(bs, c) := run_printers ps 0 in (opening :: bs ++ line l ++ [closing], c + 1).

Definition unicode (c : Z) : list byte :=
  ["\"; "u"]%byte ++ ((fun i => z2b (HexDigit_of_int (Z.shiftr c i))) <$> [12; 8; 4; 0]).
Definition wide_char (c : Z) : list byte :=
  let special := (c <? 32) || (c =? 34) || (c =? 92) || (c =? 47) in
  let c := if special then escape_letter c else c in
  (if special && (32 <=? c) then ["\"%byte] else []) ++
  (if (32 <=? c) && (c <? 128) then [z2b c] else unicode c).
Definition wide_chars (units : list Z) : list byte := concat (wide_char <$> units).

Definition scalar_json (s : scalar) : json :=
  match s with
  | SBool b => JBool b
  | SUInt _ z => JNumber (rj_uint64 rj z)
  | SInt _ z => JNumber (rj_int64 rj z)
  | SFloat bits => JNumber (rj_double rj (float_to_double bits))
  | SDouble bits => JNumber (rj_double rj bits)
  | SString units => JString (rj_chars rj units)
  | SWString units => JString (wide_chars units)
  end.
Definition scalar_text (s : scalar) : list byte :=
  match scalar_json s with
  | JBool true => ["t"; "r"; "u"; "e"]%byte
  | JBool false => ["f"; "a"; "l"; "s"; "e"]%byte
  | JNumber t => t
  | JString t => x22 :: t ++ [x22]
  | _ => []
  end.

(** The fields that are written. *)
Definition written (f : Z * Metadata * value) : bool :=
  all_fields || negb (omit_field true (snd (fst f)) (is_default (snd f) (snd (fst f)))).
Definition name_of (f : Z * Metadata * value) : list byte := rj_chars rj (FieldName (snd (fst f))).

(** The text of a value between brackets at level [l]; its parts, one level deeper. *)
Definition enclose (v : value) (l : Z) (parts : list printer) : printer :=
  match v with
  | VBasic s => fun c => (scalar_text s, c)
  | VStruct _ _ => group "{"%byte "}"%byte l parts
  | _ => group "["%byte "]"%byte l parts
  end.
Fixpoint parts (v : value) (l : Z) : list printer :=
  match v with
  | VBasic _ => []
  | VStruct base fields =>
      match base with None => [] | Some b => parts b l end ++
      concat ((fun f =>
        if written f
        then [item l 1 (named (name_of f) (enclose (snd f) l (parts (snd f) (l + 1))))]
        else []) <$> fields)
  | VList _ _ items => concat ((fun x => [item l 1 (enclose x l (parts x (l + 1)))]) <$> items)
  | VMap _ mapped items =>
      concat ((fun kv =>
        [item l 1 (enclose (fst kv) l (parts (fst kv) (l + 1)));
         item l (if is_basic_type mapped then 2 else 1)
           (enclose (snd kv) l (parts (snd kv) (l + 1)))]) <$> items)
  end.
Definition text (v : value) (l : Z) : printer := enclose v l (parts v (l + 1)).

(** * The tree of an object *)

Definition members_of (j : json) : list (list byte * json) :=
  match j with JObject ms => ms | _ => [] end.

(** The fields of the bases come first; a map is an array of keys and values in turn. *)
Fixpoint json_of (v : value) : json :=
  match v with
  | VBasic s => scalar_json s
  | VStruct base fields =>
      JObject (match base with None => [] | Some b => members_of (json_of b) end ++
        concat ((fun f => if written f then [(name_of f, json_of (snd f))] else []) <$> fields))
  | VList _ _ items => JArray (concat ((fun x => [json_of x]) <$> items))
  | VMap _ _ items => JArray (concat ((fun kv => [json_of (fst kv); json_of (snd kv)]) <$> items))
  end.

(** What the theorem needs of an object: the library spells its numbers as JSON numbers
    (which it cannot for an infinity or NaN) and escapes its strings and names; wide
    strings have 16-bit units; hierarchies have fewer than 2^32 levels. *)
Definition scalar_spelled (s : scalar) : Prop :=
  match s with
  | SBool _ => True
  | SUInt _ z => number_ok (rj_uint64 rj z) = true
  | SInt _ z => number_ok (rj_int64 rj z) = true
  | SFloat bits => number_ok (rj_double rj (float_to_double bits)) = true
  | SDouble bits => number_ok (rj_double rj bits) = true
  | SString units => string_ok (rj_chars rj units)
  | SWString units => Forall (fits 16) units
  end.
Fixpoint levels (v : value) : Z :=
  match v with VStruct (Some b) _ => 1 + levels b | _ => 1 end.
Fixpoint spelled (v : value) : Prop :=
  match v with
  | VBasic s => scalar_spelled s
  | VStruct base fields =>
      levels v < 2 ^ 32 /\
      match base with None => True | Some b => type_of b = BT_STRUCT /\ spelled b end /\
      all ((fun f => written f = true -> string_ok (name_of f) /\ spelled (snd f)) <$> fields)
  | VList _ _ items => all (spelled <$> items)
  | VMap _ _ items => all ((fun kv => spelled (fst kv) /\ spelled (snd kv)) <$> items)
  end.
End Writer.
