(* ===== verification/SimpleJsonCorrect.v ===== *)
(** What [SimpleJsonWriter] writes for an object: the text [text], and that it is a JSON
    text of the tree [json_of]. *)

From S2P Require Import Prelude Streams Encoding DataType Metadata Protocol Json.
From S2P Require Import SimpleJson OutputCounter.
From Stdlib Require Import Strings.Byte.

#[local] Open Scope byte_scope.
#[local] Open Scope Z_scope.

Section Correct.
Context {W : Type} `{OutputStreamLaws W}.
Context (rj : rapidjson) (pretty : bool) (indent : Z) (all_fields : bool).
Context (Hindent : 0 <= indent).

#[local] Abbreviation run := run_printers.
#[local] Abbreviation textv := (text rj pretty indent all_fields).
#[local] Abbreviation partsv := (parts rj pretty indent all_fields).
#[local] Abbreviation apply := (Apply (W := W) rj pretty indent all_fields).
#[local] Abbreviation spelledv := (spelled rj all_fields).

(** * The count stays below the length of the text *)

Definition good (g : printer) : Prop :=
  forall c, 0 <= c -> 0 <= snd (g c) <= c + zlen (fst (g c)).
Definition valuelike (g : printer) : Prop :=
  forall c, 0 <= c -> 1 <= zlen (fst (g c)) /\ 0 <= snd (g c) <= Z.max c (zlen (fst (g c))).

Lemma valuelike_good g : valuelike g -> good g.
Proof. intros Hg c Hc. destruct (Hg c Hc). lia. Qed.

Lemma run_cons p ps c :
  run (p :: ps) c = (fst (p c) ++ fst (run ps (snd (p c))), snd (run ps (snd (p c)))).
Proof. cbn. destruct (p c) as [b1 c1]. cbn. by destruct (run ps c1). Qed.

Lemma run_app ps qs c :
  run (ps ++ qs) c = (fst (run ps c) ++ fst (run qs (snd (run ps c))), snd (run qs (snd (run ps c)))).
Proof.
  revert c. induction ps as [|p ps IH]; intros c; [cbn; by destruct (run qs c)|].
  cbn [app]. rewrite !run_cons, IH. cbn [fst snd]. by rewrite app_assoc.
Qed.

Lemma run_good ps : Forall good ps -> good (run ps).
Proof.
  induction 1 as [|p ps Hp _ IH]; intros c Hc; [cbn; lia|]. rewrite run_cons. cbn [fst snd].
  destruct (Hp c Hc) as [Hp1 Hp2]. destruct (IH (snd (p c)) Hp1). rewrite length_app. lia.
Qed.

Lemma item_eq l per g c : item pretty indent l per g c =
  (separator pretty indent l per c ++ fst (g (c + 1)), snd (g (c + 1))).
Proof. unfold item. by destruct (g (c + 1)). Qed.

Lemma item_good l per g : valuelike g -> good (item pretty indent l per g).
Proof.
  intros Hg c Hc. rewrite item_eq. cbn [fst snd]. destruct (Hg (c + 1) ltac:(lia)).
  rewrite length_app. lia.
Qed.

Lemma named_eq name g c : named pretty name g c =
  (x22 :: name ++ [x22] ++ take (if pretty then 2 else 1) [":"; " "]%byte ++ fst (g c), snd (g c)).
Proof. unfold named. by destruct (g c). Qed.

Lemma named_valuelike name g : valuelike g -> valuelike (named pretty name g).
Proof.
  intros Hg c Hc. rewrite named_eq. cbn [fst snd]. destruct (Hg c Hc).
  cbn [length]. rewrite !length_app. lia.
Qed.

Lemma group_eq o cl l ps c : group pretty indent o cl l ps c =
  (o :: fst (run ps 0) ++ line pretty indent l ++ [cl], snd (run ps 0) + 1).
Proof. unfold group. by destruct (run ps 0). Qed.

Lemma group_valuelike o cl l ps : Forall good ps -> valuelike (group pretty indent o cl l ps).
Proof.
  intros Hg c Hc. rewrite group_eq. cbn [fst snd]. destruct (run_good ps Hg 0 ltac:(lia)).
  cbn [length]. rewrite !length_app. cbn [length]. lia.
Qed.

Lemma scalar_nonempty s : scalar_spelled rj s -> 1 <= zlen (scalar_text rj s).
Proof.
  assert (Hn : forall t, number_ok t = true -> 1 <= zlen t).
  { intros t Ht. destruct (number_number t Ht) as [_ Hne]. destruct t; [done|]. rewrite length_cons. lia. }
  destruct s as [[]| | | | | |]; unfold scalar_text; cbn [scalar_json scalar_spelled]; intros Hs;
    rewrite ?length_cons; try lia; by apply Hn.
Qed.

Lemma parts_good v l : spelledv v -> Forall good (partsv v l).
Proof.
  revert l. induction v as [s|b fields Hb Hf|k t items Hi|kt vt items Hi] using value_ind_nested;
    intros l Hs; cbn [parts]; [constructor|..].
  all: assert (Henc : forall x, (forall l, spelledv x -> Forall good (partsv x l)) -> spelledv x ->
    valuelike (enclose rj pretty indent x l (partsv x (l + 1)))) by
    (intros [s| | |] IHx Hx; cbn [enclose]; [|by apply group_valuelike, IHx..];
     intros c Hc; cbn [fst snd]; pose proof (scalar_nonempty s Hx); lia).
  - destruct Hs as (_ & Hbase & Hfs). apply all_Forall in Hfs. apply Forall_app. split.
    + destruct b as [b|]; [|constructor]. by apply Hb, Hbase.
    + apply Forall_concat, Forall_fmap, Forall_forall. intros f Hin. cbn.
      rewrite Forall_forall in Hf, Hfs. specialize (Hf f Hin). specialize (Hfs f Hin).
      destruct (written all_fields f); [|constructor]. destruct (Hfs eq_refl) as [_ Hv].
      constructor; [|constructor]. by apply item_good, named_valuelike, Henc.
  - apply all_Forall in Hs. apply Forall_concat, Forall_fmap, Forall_forall. intros x Hin. cbn.
    rewrite Forall_forall in Hs, Hi. specialize (Hi x Hin). specialize (Hs x Hin).
    constructor; [|constructor]. by apply item_good, Henc.
  - apply all_Forall in Hs. apply Forall_concat, Forall_fmap, Forall_forall. intros x Hin. cbn.
    rewrite Forall_forall in Hs, Hi. destruct (Hi x Hin) as [Hk Hv]. destruct (Hs x Hin).
    constructor; [|constructor; [|constructor]]; by apply item_good, Henc.
Qed.

Lemma text_valuelike v l : spelledv v -> valuelike (textv v l).
Proof.
  intros Hs. pose proof (parts_good v (l + 1) Hs) as Hp. unfold text.
  destruct v as [s| | |]; cbn [enclose]; [|by apply group_valuelike..].
  intros c Hc. cbn [fst snd]. pose proof (scalar_nonempty s Hs). lia.
Qed.

(** * The writer writes the text *)

(** At level [l] and any count, [m] writes what the printer says and leaves its count.  The
    count may be any if [m] is a [whole] value or a fixed text, which do not add to it. *)
Definition prints {A} (whole : bool) (l : Z) (m : M (SimpleJsonWriter (W := W)) A) (g : printer)
    (a : A) : Prop :=
  forall w c n, 0 <= c -> 0 <= l -> room w n -> zlen (fst (g c)) <= n ->
  (if whole then c else c + zlen (fst (g c))) < 2 ^ 31 -> l + zlen (fst (g c)) < 2 ^ 31 ->
  exists w', m (mkSJW w c l) = (Ok a, mkSJW w' (snd (g c)) l) /\
    appends w (fst (g c)) w' /\ room w' (n - zlen (fst (g c))).

Definition just (bs : list byte) : printer := fun c => (bs, c).
Definition then_ (g1 g2 : printer) : printer :=
  fun c => (fst (g1 c) ++ fst (g2 (snd (g1 c))), snd (g2 (snd (g1 c)))).

Lemma prints_as {A} b l (m : M SimpleJsonWriter A) g g' a : (forall c, g c = g' c) ->
  prints b l m g a -> prints b l m g' a.
Proof. intros He Hm w c n. rewrite <-He. apply Hm. Qed.

Lemma prints_ext {A} b l (m m' : M SimpleJsonWriter A) g a : (forall s, m s = m' s) ->
  prints b l m g a -> prints b l m' g a.
Proof. intros He Hm w c n. rewrite <-He. apply Hm. Qed.

Lemma prints_part {A} b l (m : M SimpleJsonWriter A) g a : prints true l m g a -> prints b l m g a.
Proof. intros Hm w c n Hc Hl Hr Hn Hb. apply (Hm w c n Hc Hl Hr Hn). destruct b; lia. Qed.

Lemma prints_bind {A B} l (m : M SimpleJsonWriter A) (k : A -> M SimpleJsonWriter B) g1 g2 a b :
  prints false l m g1 a -> good g1 -> prints false l (k a) g2 b ->
  prints false l (bind m k) (then_ g1 g2) b.
Proof.
  intros Hm1 Hg Hm2 w c n Hc Hl Hr Hn Hb Hd. unfold then_ in *. cbn [fst snd] in *.
  rewrite length_app in *. destruct (Hg c Hc) as [Hg1 Hg2].
  destruct (Hm1 w c n Hc Hl Hr) as (w1 & E1 & A1 & R1); [lia..|].
  destruct (Hm2 w1 _ _ Hg1 Hl R1) as (w2 & E2 & A2 & R2); [lia..|].
  exists w2. rewrite (bind_ok _ _ _ _ _ E1). split_and!; [done|by eapply appends_app|].
  by rewrite Nat2Z.inj_add, Z.sub_add_distr.
Qed.

Lemma prints_ret {A} b l (a : A) : prints b l (ret a) (just []) a.
Proof.
  intros w c n _ _ Hr Hn _ _. exists w. split_and!; [done|apply appends_nil|].
  eapply room_weaken; [done|]. cbn [just fst length] in *. lia.
Qed.

Lemma just_good bs : good (just bs).
Proof. intros c Hc. cbn [just fst snd]. lia. Qed.

Lemma prints_emits l (m : M W unit) bs : emits m bs -> prints true l (on_output m) (just bs) tt.
Proof.
  intros Hm w c n _ _ Hr Hn _ _. destruct (Hm w n Hr Hn) as (w' & E & A & R). exists w'.
  split_and!; [|done..]. unfold on_output, zoom. cbn [sj_output]. by rewrite E.
Qed.

Lemma put_char_emits l b : prints true l (put_char b) (just [b]) tt.
Proof.
  apply prints_emits. replace [b] with (le_bytes 1 (b2z b)); [apply os_Write_emits; lia|].
  by rewrite le_bytes_1, z2b_b2z.
Qed.

Lemma put_text_emits l bs : zlen bs < 2 ^ 32 -> prints true l (put_text bs) (just bs) tt.
Proof. intros. by apply prints_emits, os_Write_bytes_emits. Qed.

(** Something after a fixed text. *)
Lemma prints_after {A} b l m (k : unit -> M SimpleJsonWriter A) bs g a :
  prints true l m (just bs) tt -> prints b l (k tt) g a ->
  prints b l (bind m k) (fun c => (bs ++ fst (g c), snd (g c))) a.
Proof.
  intros Hm1 Hm2 w c n Hc Hl Hr Hn Hb Hd. cbn [fst snd] in *. rewrite length_app in *.
  destruct (Hm1 w c n Hc Hl Hr) as (w1 & E1 & A1 & R1); [cbn [just fst]; destruct b; lia..|].
  destruct (Hm2 w1 c _ Hc Hl R1) as (w2 & E2 & A2 & R2); [cbn [just fst]; destruct b; lia..|].
  exists w2. rewrite (bind_ok _ _ _ _ _ E1). split_and!; [done|by eapply appends_app|].
  by rewrite Nat2Z.inj_add, Z.sub_add_distr.
Qed.

Lemma prints_text {A} l m (k : unit -> M SimpleJsonWriter A) bs1 bs2 a :
  prints true l m (just bs1) tt -> prints true l (k tt) (just bs2) a ->
  prints true l (bind m k) (just (bs1 ++ bs2)) a.
Proof. intros Hm1 Hm2. by apply (prints_after true l m k bs1 (just bs2)). Qed.

Lemma forM_prints {A} l (f : A -> M SimpleJsonWriter unit) (h : A -> list byte) xs :
  Forall (fun x => prints true l (f x) (just (h x)) tt) xs ->
  prints true l (forM xs f) (just (concat (h <$> xs))) tt.
Proof.
  induction 1 as [|x xs Hx _ IH]; [apply prints_ret|]. cbn [forM fmap list_fmap concat].
  by apply prints_text.
Qed.

Lemma repeatM_prints l (m : M SimpleJsonWriter unit) bs k : prints true l m (just bs) tt ->
  prints true l (repeatM k m) (just (concat (replicate k bs))) tt.
Proof.
  intros Hm. induction k as [|k IH]; [apply prints_ret|]. cbn [repeatM replicate concat].
  by apply prints_text.
Qed.

Lemma put_chars_prints l bs : prints true l (put_chars bs) (just bs) tt.
Proof.
  replace bs with (concat ((fun b => [b]) <$> bs)) at 2.
  - apply forM_prints, Forall_forall. intros b _. apply put_char_emits.
  - induction bs as [|b bs IH]; [done|]. cbn [fmap list_fmap concat]. by rewrite IH.
Qed.

Lemma NewLine_prints l : prints true l (NewLine pretty indent) (just (line pretty indent l)) tt.
Proof.
  unfold NewLine, line. destruct pretty; [|apply prints_ret].
  change (x0a :: ?bs) with ([x0a] ++ bs). apply prints_text; [apply put_char_emits|].
  assert (Hi : 0 <= _indent indent <= 8) by (unfold _indent; lia).
  intros w c n. rewrite bind_get. cbn [sj_level]. rewrite (proj2 (Z.leb_le _ _) (proj1 Hi)).
  apply repeatM_prints, put_text_emits. rewrite length_replicate. lia.
Qed.

(** ** Scalars *)

Lemma WriteString_prints l units :
  prints true l (WriteString rj units) (just (x22 :: rj_chars rj units ++ [x22])) tt.
Proof. apply put_chars_prints. Qed.

Lemma take_fits {X} (k : nat) (bs : list X) : zlen bs < 2 ^ 32 -> zlen (take k bs) < 2 ^ 32.
Proof. rewrite length_take. lia. Qed.

Lemma WriteName_prints l name : prints true l (WriteName rj pretty name)
  (just ((x22 :: rj_chars rj name ++ [x22]) ++ take (if pretty then 2 else 1) [":"; " "]%byte)) tt.
Proof.
  apply prints_text; [apply WriteString_prints|]. by apply put_text_emits, take_fits.
Qed.

Lemma WriteWide_prints l c : prints true l (WriteWide c) (just (wide_char c)) tt.
Proof.
  unfold WriteWide, wide_char. apply prints_text.
  - case_match; [apply put_char_emits|apply prints_ret].
  - case_match; [apply put_char_emits|by apply put_text_emits].
Qed.

Lemma WriteWString_prints l units :
  prints true l (WriteWString units) (just (x22 :: wide_chars units ++ [x22])) tt.
Proof.
  apply (prints_text _ _ _ [x22]); [apply put_char_emits|]. apply prints_text; [|apply put_char_emits].
  apply forM_prints, Forall_forall. intros c _. apply WriteWide_prints.
Qed.

Lemma Write_prints l s : prints true l (Write rj s) (just (scalar_text rj s)) tt.
Proof.
  destruct s as [[]|w z|w z|bits|bits|units|units]; try apply put_chars_prints.
  - by apply put_text_emits.
  - by apply put_text_emits.
  - apply WriteWString_prints.
Qed.

(** ** Separators and brackets *)

Lemma int_add_ok {A} x y (k : Z -> M SimpleJsonWriter A) (s : SimpleJsonWriter (W := W)) :
  0 <= x + y < 2 ^ 31 -> bind (int_add x y) k s = k (x + y) s.
Proof.
  intros Hxy. unfold int_add. rewrite (proj2 (Z.leb_le _ _)), (proj2 (Z.ltb_lt _ _)) by lia. done.
Qed.

Lemma item_prints {A} l per (m : M SimpleJsonWriter A) g a : prints true l m g a -> valuelike g ->
  prints false l (WriteSeparator pretty indent per ;;; m) (item pretty indent l per g) a.
Proof.
  intros Hm Hv w c n Hc Hl Hr Hn Hb Hd. rewrite item_eq in *. cbn [fst snd] in *.
  rewrite length_app in Hn, Hb, Hd. destruct (Hv (c + 1) ltac:(lia)) as [Hv1 Hv2].
  unfold separator in *. rewrite length_app in Hn, Hb, Hd.
  assert (Hcomma : prints true l (if c =? 0 then ret tt
      else put_text (take (if pretty then 2 else 1) [","; " "]%byte))
    (just (if c =? 0 then [] else take (if pretty then 2 else 1) [","; " "]%byte)) tt).
  { destruct (c =? 0); [apply prints_ret|by apply put_text_emits, take_fits]. }
  destruct (Hcomma w c n Hc Hl Hr) as (w1 & E1 & A1 & R1); [cbn [just fst]; lia..|].
  assert (Hline : prints true l (if c mod per =? 0 then NewLine pretty indent else ret tt)
    (just (if c mod per =? 0 then line pretty indent l else [])) tt).
  { destruct (c mod per =? 0); [apply NewLine_prints|apply prints_ret]. }
  cbn [just fst snd] in *.
  destruct (Hline w1 (c + 1) _ ltac:(lia) Hl R1) as (w2 & E2 & A2 & R2); [cbn [just fst]; lia..|].
  destruct (Hm w2 (c + 1) _ ltac:(lia) Hl R2) as (w3 & E3 & A3 & R3); [cbn [just fst]; lia..|].
  exists w3. split_and!.
  - unfold WriteSeparator. rewrite bind_assoc, bind_get. cbn [sj_count].
    rewrite bind_assoc, (bind_ok _ _ _ _ _ E1), bind_assoc, int_add_ok by lia.
    rewrite bind_assoc. unfold set_count at 1. rewrite bind_modify. cbn [sj_output sj_level].
    by rewrite (bind_ok _ _ _ _ _ E2).
  - eapply appends_app; [|exact A3]. by eapply appends_app.
  - eapply room_weaken; [exact R3|]. rewrite !length_app. cbn [just fst snd] in *. lia.
Qed.

(** Something written between brackets; [k] closes them. *)
Lemma group_prints {A B} l o cl (body : M SimpleJsonWriter A) ps a (b : B)
    (k : A -> M SimpleJsonWriter B) : prints false (l + 1) body (run ps) a -> Forall good ps ->
  (forall s, k a s = (WriteClose pretty indent cl ;;; ret b) s) ->
  prints true l (WriteOpen o ;;; bind body k) (group pretty indent o cl l ps) b.
Proof.
  intros Hbody Hps Hk w c n Hc Hl Hr Hn Hb Hd. rewrite group_eq in *. cbn [fst snd] in *.
  rewrite length_cons, !length_app in Hn, Hd. cbn [length] in Hn, Hd.
  destruct (run_good ps Hps 0 ltac:(lia)) as [Hg1 Hg2].
  destruct (put_char_emits l o w c n Hc Hl Hr) as (w1 & E1 & A1 & R1); [cbn [just fst length]; lia..|].
  cbn [just fst snd length] in *.
  destruct (Hbody w1 0 _ ltac:(lia) ltac:(lia) R1) as (w2 & E2 & A2 & R2); [lia..|].
  destruct (NewLine_prints l w2 (snd (run ps 0) + 1) _ ltac:(lia) Hl R2) as (w3 & E3 & A3 & R3);
    [cbn [just fst]; lia..|]. cbn [just fst snd] in *.
  destruct (put_char_emits l cl w3 (snd (run ps 0) + 1) _ ltac:(lia) Hl R3) as (w4 & E4 & A4 & R4);
    [cbn [just fst length]; lia..|]. cbn [just fst snd length] in *.
  exists w4. split_and!.
  - unfold WriteOpen. rewrite bind_assoc, (bind_ok _ _ _ _ _ E1), bind_assoc, bind_get.
    cbn [sj_level]. rewrite bind_assoc, int_add_ok by lia. unfold set_level at 1, set_count at 1.
    rewrite bind_assoc, bind_modify. cbn [sj_output sj_count]. rewrite bind_modify.
    cbn [sj_output sj_level]. rewrite (bind_ok _ _ _ _ _ E2), Hk. unfold WriteClose.
    rewrite bind_assoc, bind_get. cbn [sj_level sj_count]. rewrite bind_assoc, int_add_ok by lia.
    unfold set_level at 1. rewrite bind_assoc, bind_modify. cbn [sj_output sj_count].
    rewrite bind_assoc, int_add_ok by lia. unfold set_count at 1. rewrite bind_assoc, bind_modify.
    cbn [sj_output sj_level]. replace (l + 1 + -1) with l by lia.
    by rewrite bind_assoc, (bind_ok _ _ _ _ _ E3), (bind_ok _ _ _ _ _ E4).
  - change (o :: ?bs) with ([o] ++ bs). eapply appends_app; [exact A1|].
    eapply appends_app; [exact A2|]. by eapply appends_app.
  - eapply room_weaken; [exact R4|]. rewrite !length_app. cbn [length]. lia.
Qed.

(** ** Values *)

Lemma prints_void {A} b l (m : M SimpleJsonWriter A) g a : prints b l m g a ->
  prints b l (let! _ := m in ret tt) g tt.
Proof.
  intros Hm w c n Hc Hl Hr Hn Hb Hd. destruct (Hm w c n Hc Hl Hr Hn Hb Hd) as (w' & E & Hw).
  exists w'. split; [|exact Hw]. by rewrite (bind_ok _ _ _ _ _ E).
Qed.

Lemma then_run {A B} l (m : M SimpleJsonWriter A) (k : A -> M SimpleJsonWriter B) ps qs a b :
  prints false l m (run ps) a -> Forall good ps -> prints false l (k a) (run qs) b ->
  prints false l (bind m k) (run (ps ++ qs)) b.
Proof.
  intros Hm Hps Hk. eapply prints_as; [|eapply prints_bind; [exact Hm|by apply run_good|exact Hk]].
  intros c. by rewrite run_app.
Qed.

Lemma run_ret {A} l (a : A) : prints false l (ret a) (run []) a.
Proof. apply (prints_ret false). Qed.

Lemma run_one {A} l (m : M SimpleJsonWriter A) p a : prints false l m p a ->
  prints false l m (run [p]) a.
Proof.
  apply prints_as. intros c. rewrite run_cons. cbn. rewrite app_nil_r. by destruct (p c).
Qed.

Lemma then_ret {A} l (m : M SimpleJsonWriter unit) ps (a : A) : prints false l m (run ps) tt ->
  prints false l (m ;;; ret a) (run ps) a.
Proof.
  intros Hm w c n Hc Hl Hr Hn Hb Hd. destruct (Hm w c n Hc Hl Hr Hn Hb Hd) as (w' & E & Hw).
  exists w'. split; [|exact Hw]. by rewrite (bind_ok _ _ _ _ _ E).
Qed.

Lemma seqM_prints {X} l (F : X -> M SimpleJsonWriter unit) (G : X -> list printer) xs :
  Forall (fun x => prints false l (F x) (run (G x)) tt /\ Forall good (G x)) xs ->
  prints false l (seqM (F <$> xs)) (run (concat (G <$> xs))) tt.
Proof.
  induction 1 as [|x xs [Hx Hg] _ IH]; [apply run_ret|]. cbn [fmap list_fmap seqM concat].
  by apply then_run with tt.
Qed.

(** An element after its separator. *)
Lemma element_prints {A} l per (m : M SimpleJsonWriter A) v a :
  prints true l m (textv v l) a -> spelledv v ->
  prints false l (WriteSeparator pretty indent per ;;; let! _ := m in ret tt)
    (run [item pretty indent l per (textv v l)]) tt.
Proof. intros Hm Hs. apply run_one, item_prints; [by eapply prints_void|by apply text_valuelike]. Qed.

Lemma field_prints l f (m : M SimpleJsonWriter Z) : prints true l m (textv (snd f) l) 0 ->
  spelledv (snd f) ->
  prints false l (WriteSeparator pretty indent 1 ;;;
      WriteName rj pretty (FieldName (snd (fst f))) ;;; let! _ := m in ret tt)
    (run [item pretty indent l 1 (named pretty (name_of rj f) (textv (snd f) l))]) tt.
Proof.
  intros Hm Hs. apply run_one, item_prints; [|by apply named_valuelike, text_valuelike].
  eapply prints_as; [|apply prints_after; [apply WriteName_prints|by eapply prints_void]].
  intros c. rewrite named_eq. cbn [app]. by rewrite <-!app_assoc.
Qed.

Lemma items_good l per xs : (forall x : value, x ∈ xs -> spelledv x) ->
  Forall good ((fun x => item pretty indent l per (textv x l)) <$> xs).
Proof.
  intros Hs. apply Forall_fmap, Forall_forall. intros x Hx. cbn.
  apply item_good, text_valuelike, Hs. by apply list_elem_of_In.
Qed.

Definition applied (v : value) : Prop := spelledv v ->
  (forall l, prints true l (apply 0 v) (textv v l) 0) /\
  (type_of v = BT_STRUCT -> forall l k, 1 <= k -> k + levels v < 2 ^ 32 ->
    prints false l (apply k v) (run (partsv v l)) k).

Lemma bind_ext {S A B} (m : M S A) (f g : A -> M S B) s : (forall a s', f a s' = g a s') ->
  bind m f s = bind m g s.
Proof. intros He. unfold bind. destruct (m s) as [[a|e] s']; [apply He|done]. Qed.

(** The base and the fields of a struct, with the serializer at level [k]. *)
Definition struct_body (k : Z) (base : option value) (fields : list (Z * Metadata * value)) :
    M (SimpleJsonWriter (W := W)) Z :=
  let! level := match base with None => ret k | Some b => apply k b end in
  seqM ((fun f =>
    if written all_fields f
    then
      WriteSeparator pretty indent 1 ;;; WriteName rj pretty (FieldName (snd (fst f))) ;;;
      let! _ := apply 0 (snd f) in ret tt
    else ret tt) <$> fields) ;;; ret level.
Definition struct_end (level : Z) : M (SimpleJsonWriter (W := W)) Z :=
  (if wrap 32 (level - 1) =? 0 then WriteClose pretty indent "}"%byte else ret tt) ;;;
  ret (wrap 32 (level - 1)).

Lemma apply_struct k base fields s : apply k (VStruct base fields) s =
  ((if k =? 0 then WriteOpen "{"%byte else ret tt) ;;;
   let! level := struct_body (wrap 32 (k + 1)) base fields in struct_end level) s.
Proof.
  cbn [Apply]. unfold struct_body, struct_end. apply bind_ext. intros _ s1.
  rewrite bind_assoc. apply bind_ext. intros level s2. by rewrite bind_assoc.
Qed.

Lemma body_prints l k base fields : 1 <= k -> k + levels (VStruct base fields) <= 2 ^ 32 ->
  spelledv (VStruct base fields) ->
  (forall b, base = Some b -> applied b) -> Forall (fun f => applied (snd f)) fields ->
  prints false l (struct_body k base fields) (run (partsv (VStruct base fields) l)) k.
Proof.
  intros Hk Hlv Hs Hb Hf. pose proof (parts_good _ l Hs) as Hg. destruct Hs as (_ & Hbase & Hfs).
  apply all_Forall in Hfs. cbn [parts] in *. apply Forall_app in Hg as [Hg _].
  apply then_run with k; [|done|].
  - destruct base as [b|]; [|apply run_ret]. destruct Hbase as [Ht Hbs].
    destruct (Hb b eq_refl Hbs) as [_ Hin]. apply Hin; [done|done|]. cbn [levels] in Hlv. lia.
  - apply then_ret, seqM_prints, Forall_forall. intros f Hin.
    rewrite Forall_forall in Hf, Hfs. specialize (Hf f Hin). specialize (Hfs f Hin).
    destruct (written all_fields f); [|split; [apply run_ret|constructor]].
    destruct (Hfs eq_refl) as [_ Hv]. split.
    + apply (field_prints l f); [|done]. by apply Hf.
    + constructor; [|constructor]. by apply item_good, named_valuelike, (text_valuelike _ _ Hv).
Qed.

Lemma wrap_back k : 0 <= k -> k + 1 < 2 ^ 32 -> wrap 32 (wrap 32 (k + 1) - 1) = k.
Proof. intros. rewrite !wrap_id; unfold fits; rewrite ?wrap_id; unfold fits; lia. Qed.

Lemma struct_prints base fields : (forall b, base = Some b -> applied b) ->
  Forall (fun f => applied (snd f)) fields -> applied (VStruct base fields).
Proof.
  intros Hb Hf Hs. pose proof Hs as (Hlv & _ & _). split.
  - intros l. eapply prints_ext; [intros s; symmetry; apply apply_struct|].
    change (wrap 32 (0 + 1)) with 1. cbn [Z.eqb].
    apply group_prints with 1; [|by apply parts_good|done].
    apply body_prints; [lia|lia|done..].
  - intros _ l k Hk Hkl. assert (Hl1 : 1 <= levels (VStruct base fields)).
    { clear. assert (Hv : forall v, 1 <= levels v)
        by (fix IH 1; intros [|[b|] fs| |]; cbn [levels]; [lia|specialize (IH b); lia|lia..]).
      apply Hv. }
    eapply prints_ext; [intros s; symmetry; apply apply_struct|].
    rewrite (proj2 (Z.eqb_neq k 0)) by lia.
    intros w c n. rewrite bind_ret. revert w c n.
    rewrite (wrap_id 32 (k + 1)) by (unfold fits; lia).
    intros w c n Hc Hl' Hr Hn Hbd Hd.
    destruct (body_prints l (k + 1) base fields ltac:(lia) ltac:(lia) Hs Hb Hf w c n)
      as (w' & E & Hw); [done..|].
    exists w'. split; [|exact Hw]. rewrite (bind_ok _ _ _ _ _ E). unfold struct_end.
    rewrite wrap_id by (unfold fits; lia). replace (k + 1 - 1) with k by lia.
    rewrite (proj2 (Z.eqb_neq k 0)) by lia. done.
Qed.

Lemma value_prints v : applied v.
Proof.
  induction v as [s|b fields Hb Hf|k t items Hi|kt vt items Hi] using value_ind_nested.
  - intros Hs. split; [|intros Ht; pose proof (type_of_range (VBasic s)); by destruct s as [|[]|[]| | | |]].
    intros l. eapply prints_as; [|apply prints_after; [apply Write_prints|apply prints_ret]].
    intros c. cbn. by rewrite app_nil_r.
  - by apply struct_prints.
  - intros Hs. split; [|by destruct k]. intros l. pose proof (parts_good _ (l + 1) Hs) as Hg.
    apply all_Forall in Hs. cbn [Apply].
    apply group_prints with tt; [|exact Hg|done]. apply seqM_prints, Forall_forall. intros x Hx.
    rewrite Forall_forall in Hs, Hi. specialize (Hi x Hx). specialize (Hs x Hx). split.
    + apply (element_prints (l + 1) 1 (apply 0 x) x 0); [by apply Hi|done].
    + constructor; [|constructor]. by apply item_good, (text_valuelike x).
  - intros Hs. split; [|done]. intros l. pose proof (parts_good _ (l + 1) Hs) as Hg.
    apply all_Forall in Hs. cbn [Apply].
    apply group_prints with tt; [|exact Hg|done]. apply seqM_prints, Forall_forall. intros x Hx.
    rewrite Forall_forall in Hs, Hi. destruct (Hi x Hx) as [Ik Iv]. destruct (Hs x Hx) as [Sk Sv].
    split.
    + apply (prints_ext _ _ ((WriteSeparator pretty indent 1 ;;; let! _ := apply 0 (fst x) in ret tt) ;;;
        WriteSeparator pretty indent (if is_basic_type vt then 2 else 1) ;;;
        let! _ := apply 0 (snd x) in ret tt)).
      * intros s. rewrite bind_assoc. apply bind_ext. intros _ s1. by rewrite bind_assoc.
      * apply (then_run (l + 1) _ _ [_] [_] tt).
        -- by apply (element_prints (l + 1) 1 (apply 0 (fst x)) (fst x) 0); [apply Ik|].
        -- constructor; [|constructor]. by apply item_good, (text_valuelike (fst x)).
        -- by apply (element_prints (l + 1) _ (apply 0 (snd x)) (snd x) 0); [apply Iv|].
    + constructor; [by apply item_good, (text_valuelike (fst x))|].
      constructor; [by apply item_good, (text_valuelike (snd x))|constructor].
Qed.
End Correct.

(** * The text is JSON *)

Section Renders.
Context (rj : rapidjson) (pretty : bool) (indent : Z) (all_fields : bool).

#[local] Abbreviation run := run_printers.
#[local] Abbreviation textv := (text rj pretty indent all_fields).
#[local] Abbreviation partsv := (parts rj pretty indent all_fields).
#[local] Abbreviation spelledv := (spelled rj all_fields).
#[local] Abbreviation tree := (json_of rj all_fields).

(** ** Wide strings *)

Lemma hex_digit_is_hex n : is_hex (z2b (HexDigit_of_int n)) = true.
Proof.
  unfold HexDigit_of_int. cbv zeta. assert (Hd : 0 <= Z.land n 15 < 16).
  { change 15 with (Z.ones 4). rewrite Z.land_ones by lia. apply Z.mod_pos_bound. lia. }
  assert (Hb : forall d, 0 <= d < 16 ->
    is_hex (z2b (if d <? 10 then 48 + d else 97 + d - 10)) = true); [|by apply Hb].
  intros d Hr. assert (Hin : d ∈ seqZ 0 16) by (apply elem_of_seqZ; lia).
  assert (Hall : forallb (fun d => is_hex (z2b (if d <? 10 then 48 + d else 97 + d - 10)))
    (seqZ 0 16) = true) by by vm_compute.
  rewrite forallb_forall in Hall. apply Hall. by apply list_elem_of_In.
Qed.

Lemma unicode_ok c s : string_ok s -> string_ok (unicode c ++ s).
Proof.
  intros Hs. unfold unicode. cbn [fmap list_fmap app]. apply string_unicode; [|done].
  cbn [forallb]. by rewrite !hex_digit_is_hex.
Qed.

(** A unit that is not escaped, below 128. *)
Lemma plain_char c : 32 <= c < 128 -> c <> 34 -> c <> 92 -> is_plain (z2b c) = true.
Proof.
  intros Hc H1 H2. assert (Hin : c ∈ seqZ 32 96) by (apply elem_of_seqZ; lia).
  assert (Hall : forallb (fun c => (c =? 34) || (c =? 92) || is_plain (z2b c)) (seqZ 32 96) = true)
    by by vm_compute.
  rewrite forallb_forall in Hall. apply list_elem_of_In, Hall in Hin.
  by rewrite (proj2 (Z.eqb_neq _ _) H1), (proj2 (Z.eqb_neq _ _) H2) in Hin.
Qed.

(** The three ways a unit is written. *)
Lemma wide_char_cases c : 0 <= c ->
  (exists b, wide_char c = ["\"%byte; z2b b] /\
     (c, b) ∈ [(8, 98); (12, 102); (10, 110); (13, 114); (9, 116); (34, 34); (92, 92); (47, 47)]) \/
  wide_char c = [z2b c] /\ 32 <= c < 128 /\ c <> 34 /\ c <> 92 \/
  wide_char c = unicode c.
Proof.
  intros Hc. destruct (decide (c < 128)) as [Hlt|Hge].
  - assert (Hin : c ∈ seqZ 0 128) by (apply elem_of_seqZ; lia).
    set (special := [(8, 98); (12, 102); (10, 110); (13, 114); (9, 116); (34, 34); (92, 92); (47, 47)]).
    assert (Hall : forallb (fun c =>
      existsb (fun cb => (fst cb =? c) && bool_decide (wide_char c = ["\"%byte; z2b (snd cb)])) special
      || bool_decide (wide_char c = [z2b c]) && (32 <=? c) && negb (c =? 34) && negb (c =? 92)
      || bool_decide (wide_char c = unicode c)) (seqZ 0 128) = true) by by vm_compute.
    rewrite forallb_forall in Hall. apply list_elem_of_In, Hall in Hin.
    apply orb_true_iff in Hin as [[Hx|Hx]%orb_true_iff|Hx%bool_decide_eq_true]; [| |by auto].
    + apply existsb_exists in Hx as ([c' b] & Hin & [Ec Hx%bool_decide_eq_true]%andb_true_iff).
      cbn [fst snd] in *. apply Z.eqb_eq in Ec. subst c'.
      left. exists b. split; [done|]. by apply list_elem_of_In.
    + apply andb_true_iff in Hx as [[[Hx1 Hx2]%andb_true_iff Hx3]%andb_true_iff Hx4].
      apply bool_decide_eq_true in Hx1. apply Z.leb_le in Hx2. apply negb_true_iff, Z.eqb_neq in Hx3, Hx4.
      right. left. split_and!; done || lia.
  - right. right. unfold wide_char. cbv zeta.
    rewrite (proj2 (Z.ltb_ge c 32)), (proj2 (Z.eqb_neq c 34)), (proj2 (Z.eqb_neq c 92)),
      (proj2 (Z.eqb_neq c 47)) by lia.
    cbn [orb andb]. by rewrite (proj2 (Z.ltb_ge c 128)), andb_false_r by lia.
Qed.

Lemma wide_chars_ok units : Forall (fits 16) units -> string_ok (wide_chars units).
Proof.
  induction 1 as [|c units Hc _ IH]; [constructor|]. unfold wide_chars. cbn [fmap list_fmap concat].
  fold (wide_chars units). destruct (wide_char_cases c) as [(b & -> & Hb)|[(-> & H1 & H2 & H3)| -> ]].
  - destruct Hc. lia.
  - cbn [app]. apply string_escape; [|done].
    repeat (apply elem_of_cons in Hb as [[= -> ->]|Hb]; [done|]). by apply elem_of_nil in Hb.
  - cbn [app]. apply string_plain; [by apply plain_char|done].
  - by apply unicode_ok.
Qed.

(** ** What a wide string reads back as *)

Lemma hex_digit_value n : hex_value (z2b (HexDigit_of_int n)) = n mod 16.
Proof.
  unfold HexDigit_of_int. cbv zeta. change 15 with (Z.ones 4). rewrite Z.land_ones by lia.
  change (2 ^ 4) with 16. pose proof (Z.mod_pos_bound n 16 ltac:(lia)) as Hd.
  revert Hd. generalize (n mod 16). intros d Hd.
  assert (Hin : d ∈ seqZ 0 16) by (apply elem_of_seqZ; lia).
  assert (Hall : forallb (fun d =>
    hex_value (z2b (if d <? 10 then 48 + d else 97 + d - 10)) =? d) (seqZ 0 16) = true) by by vm_compute.
  rewrite forallb_forall in Hall. by apply list_elem_of_In, Hall, Z.eqb_eq in Hin.
Qed.

Lemma unicode_value c s : fits 16 c ->
  string_value (unicode c ++ s) = us ← string_value s; Some (c :: us).
Proof.
  intros Hc. unfold unicode. cbn [fmap list_fmap app].
  change (string_value ("\"%byte :: "u"%byte :: ?h1 :: ?h2 :: ?h3 :: ?h4 :: ?r)) with
    (us ← string_value r; Some ((hex_value h1 * 4096 + hex_value h2 * 256 +
       hex_value h3 * 16 + hex_value h4) :: us)).
  rewrite !hex_digit_value. rewrite !Z.shiftr_div_pow2 by lia.
  change (2 ^ 12) with 4096. change (2 ^ 8) with 256. change (2 ^ 4) with 16. change (2 ^ 0) with 1.
  unfold fits in Hc. change (2 ^ 16) with 65536 in Hc.
  replace (_ * 4096 + _ + _ + _) with c; [done|]. Z.to_euclidean_division_equations. lia.
Qed.

Lemma plain_value c s : 32 <= c < 128 -> c <> 34 -> c <> 92 ->
  string_value (z2b c :: s) = us ← string_value s; Some (c :: us).
Proof.
  intros Hc H1 H2. pose proof (plain_char c Hc H1 H2) as Hp. cbn [string_value].
  destruct (plain_facts _ Hp) as [_ ->]. by rewrite Hp, b2z_z2b_small by lia.
Qed.

Lemma letter_read c b s :
  (c, b) ∈ [(8, 98); (12, 102); (10, 110); (13, 114); (9, 116); (34, 34); (92, 92); (47, 47)] ->
  string_value (["\"%byte; z2b b] ++ s) = us ← string_value s; Some (c :: us).
Proof.
  intros Hb. repeat (apply elem_of_cons in Hb as [[= -> ->]|Hb]; [reflexivity|]).
  by apply elem_of_nil in Hb.
Qed.

(** The units between the quotes read back. *)
Lemma wide_chars_value units : Forall (fits 16) units ->
  string_ok (wide_chars units) /\ string_value (wide_chars units) = Some units.
Proof.
  intros Hu. split; [by apply wide_chars_ok|].
  induction Hu as [|c units Hc _ IH]; [done|]. unfold wide_chars. cbn [fmap list_fmap concat].
  fold (wide_chars units). destruct (wide_char_cases c) as [(b & -> & Hb)|[(-> & H1 & H2 & H3)| -> ]].
  - destruct Hc. lia.
  - rewrite (letter_read c b) by done. by rewrite IH.
  - cbn [app]. rewrite plain_value by done. by rewrite IH.
  - rewrite unicode_value by done. by rewrite IH.
Qed.

(** ** Lists of parts *)

Lemma line_ws l : ws (line pretty indent l).
Proof.
  unfold ws, line. destruct pretty; [|done]. cbn [forallb]. change (is_ws x0a) with true. cbn [andb].
  induction (Z.to_nat l) as [|k IH]; [done|]. cbn [replicate concat]. rewrite forallb_app, IH.
  rewrite andb_true_r. clear IH. by induction (Z.to_nat (_indent indent)) as [|m IH]; [|exact IH].
Qed.

Lemma separator_shape l per c : exists w, ws w /\
  separator pretty indent l per c = (if c =? 0 then [] else [","%byte]) ++ w.
Proof.
  unfold separator. pose proof (line_ws l) as Hl. unfold ws in Hl |- *.
  assert (Hn : forallb is_ws (if c mod per =? 0 then line pretty indent l else []) = true)
    by (by destruct (c mod per =? 0)).
  destruct (c =? 0); [by exists (if c mod per =? 0 then line pretty indent l else [])|].
  exists ((if pretty then [" "%byte] else []) ++ (if c mod per =? 0 then line pretty indent l else [])).
  rewrite forallb_app, Hn. by destruct pretty.
Qed.

(** A part is a separator and the text of [x]. *)
Definition part {X} (P : X -> list byte -> Prop) (x : X) (p : printer) : Prop :=
  forall c, 0 <= c -> exists w t, ws w /\
    fst (p c) = (if c =? 0 then [] else [","%byte]) ++ w ++ t /\ P x t /\ 1 <= snd (p c).

Lemma item_part {X} (P : X -> list byte -> Prop) x l per g :
  (forall c, 1 <= c -> P x (fst (g c)) /\ 1 <= snd (g c)) -> part P x (item pretty indent l per g).
Proof.
  intros Hg c Hc. destruct (separator_shape l per c) as (w & Hw & Hs).
  destruct (Hg (c + 1) ltac:(lia)) as [Hp Hn]. exists w, (fst (g (c + 1))). rewrite item_eq, Hs.
  cbn [fst snd]. by rewrite app_assoc.
Qed.

Lemma run_joined {X} (P : X -> list byte -> Prop) xs ps c : Forall2 (part P) xs ps -> 0 <= c ->
  exists ts, Forall2 P xs ts /\ forall w', ws w' ->
    (c = 0 -> joined ts (fst (run ps c) ++ w')) /\
    (1 <= c -> match ts with
      | [] => fst (run ps c) = []
      | _ => exists bs, fst (run ps c) ++ w' = ","%byte :: bs /\ joined ts bs
      end).
Proof.
  intros Hp. revert c. induction Hp as [|x p xs ps Hx _ IH]; intros c Hc.
  - exists []. split; [done|]. intros w' Hw'. cbn. split; [|done]. intros _. by apply joined_none.
  - destruct (Hx c Hc) as (w & t & Hw & Ht & HP & Hn).
    destruct (IH (snd (p c)) ltac:(lia)) as (ts & Hts & Hj). exists (t :: ts).
    split; [by constructor|]. intros w' Hw'. destruct (Hj w' Hw') as [_ Hj1]. specialize (Hj1 Hn).
    assert (Hrest : joined (t :: ts) ((w ++ t ++ fst (run ps (snd (p c)))) ++ w')).
    { rewrite <-!app_assoc. destruct ts as [|t' ts].
      - rewrite Hj1. by apply joined_one.
      - destruct Hj1 as (bs & -> & Hbs). by apply (joined_more w t []). }
    rewrite run_cons, Ht. cbn [fst]. split.
    + intros ->. cbn [Z.eqb app]. by rewrite <-!app_assoc in *.
    + intros H1. rewrite (proj2 (Z.eqb_neq c 0)) by lia. eexists. split; [|exact Hrest].
      by rewrite <-!app_assoc.
Qed.

(** Parts between brackets. *)
Lemma group_joined {X} (P : X -> list byte -> Prop) xs ps o cl l c : Forall2 (part P) xs ps ->
  Forall good ps -> exists ts bs, fst (group pretty indent o cl l ps c) = o :: bs ++ [cl] /\
    Forall2 P xs ts /\ joined ts bs /\ 1 <= snd (group pretty indent o cl l ps c).
Proof.
  intros Hp Hg. destruct (run_joined P xs ps 0 Hp ltac:(lia)) as (ts & Hts & Hj).
  destruct (Hj _ (line_ws l)) as [Hj0 _]. pose proof (run_good ps Hg 0 ltac:(lia)).
  exists ts, (fst (run ps 0) ++ line pretty indent l). rewrite group_eq. cbn [fst snd].
  rewrite <-app_assoc. split_and!; [done|done|auto|lia].
Qed.

(** ** Values *)

Definition member_text (m : list byte * json) (t : list byte) : Prop := renders_member (fst m) (snd m) t.

Definition rendered (v : value) : Prop := spelledv v ->
  (forall l c, 1 <= c -> renders (tree v) (fst (textv v l c)) /\ 1 <= snd (textv v l c)) /\
  (type_of v = BT_STRUCT -> forall l,
    Forall2 (part member_text) (members_of (tree v)) (partsv v l)).

Lemma Forall2_concat_map {X Y Z'} (R : Y -> Z' -> Prop) (f : X -> list Y) (g : X -> list Z') xs :
  Forall (fun x => Forall2 R (f x) (g x)) xs -> Forall2 R (concat (f <$> xs)) (concat (g <$> xs)).
Proof. induction 1 as [|x xs Hx _ IH]; [done|]. cbn. by apply Forall2_app. Qed.

Lemma scalar_renders s : scalar_spelled rj s -> renders (scalar_json rj s) (scalar_text rj s).
Proof.
  unfold scalar_text. destruct s as [[]| | | | | |]; cbn [scalar_json scalar_spelled]; intros Hs;
    try by constructor.
  constructor. by apply wide_chars_ok.
Qed.

Lemma named_part l f : string_ok (name_of rj f) ->
  (forall c, 1 <= c -> renders (tree (snd f)) (fst (textv (snd f) l c)) /\ 1 <= snd (textv (snd f) l c)) ->
  part member_text (name_of rj f, tree (snd f))
    (item pretty indent l 1 (named pretty (name_of rj f) (textv (snd f) l))).
Proof.
  intros Hn Hv. apply item_part. intros c Hc. destruct (Hv c Hc) as [Hr Hs]. rewrite named_eq.
  cbn [fst snd]. split; [|done]. unfold member_text. cbn [fst snd].
  destruct pretty; apply (renders_pair _ _ _ []); done.
Qed.

Lemma value_rendered v : rendered v.
Proof.
  induction v as [s|b fields Hb Hf|k t items Hi|kt vt items Hi] using value_ind_nested; intros Hs;
    pose proof (fun l => parts_good rj pretty indent all_fields _ l Hs) as Hg.
  - split; [|by destruct s as [|[]|[]| | | |]]. intros l c Hc. split; [by apply scalar_renders|done].
  - assert (Hms : forall l, Forall2 (part member_text) (members_of (tree (VStruct b fields)))
      (partsv (VStruct b fields) l)).
    { intros l. destruct Hs as (_ & Hbase & Hfs). apply all_Forall in Hfs. cbn [json_of members_of parts].
      apply Forall2_app.
      - destruct b as [b|]; [|constructor]. destruct Hbase as [Ht Hbs]. by apply (Hb b eq_refl Hbs).
      - apply Forall2_concat_map, Forall_forall. intros f Hin. rewrite Forall_forall in Hf, Hfs.
        specialize (Hf f Hin). specialize (Hfs f Hin).
        destruct (written all_fields f); [|constructor]. destruct (Hfs eq_refl) as [Hn Hv].
        constructor; [|constructor]. apply named_part; [done|]. by apply Hf. }
    split; [|done]. intros l c Hc. unfold text. cbn [enclose].
    destruct (group_joined member_text _ _ "{"%byte "}"%byte l c (Hms (l + 1)) (Hg (l + 1)))
      as (ts & bs & -> & Hts & Hj & Hn). split; [|done]. by eapply renders_object.
  - split; [|by destruct k]. intros l c Hc. unfold text. cbn [enclose].
    destruct (group_joined renders (concat ((fun x => [tree x]) <$> items)) (partsv (VList k t items) (l + 1))
      "["%byte "]"%byte l c) as (ts & bs & -> & Hts & Hj & Hn); [|done|].
    + cbn [parts]. apply Forall2_concat_map, Forall_forall. intros x Hin. apply all_Forall in Hs.
      rewrite Forall_forall in Hs, Hi. constructor; [|constructor]. apply item_part.
      intros c' Hc'. by apply (Hi x Hin (Hs x Hin)).
    + split; [|done]. by eapply renders_array.
  - split; [|done]. intros l c Hc. unfold text. cbn [enclose].
    destruct (group_joined renders (concat ((fun kv => [tree (fst kv); tree (snd kv)]) <$> items))
      (partsv (VMap kt vt items) (l + 1)) "["%byte "]"%byte l c)
      as (ts & bs & -> & Hts & Hj & Hn); [|done|].
    + cbn [parts]. apply Forall2_concat_map, Forall_forall. intros x Hin. apply all_Forall in Hs.
      rewrite Forall_forall in Hs, Hi. destruct (Hi x Hin) as [Ik Iv]. destruct (Hs x Hin) as [Sk Sv].
      constructor; [|constructor; [|constructor]]; apply item_part; intros c' Hc';
        [by apply (Ik Sk)|by apply (Iv Sv)].
    + split; [|done]. by eapply renders_array.
Qed.
End Renders.

(** The first count does not matter to a whole value. *)
Lemma text_first rj pretty indent all_fields v l c c' :
  fst (text rj pretty indent all_fields v l c) = fst (text rj pretty indent all_fields v l c').
Proof. unfold text. destruct v; cbn [enclose]; rewrite ?group_eq; done. Qed.

Lemma wide_chars_length units : Forall (fits 16) units -> zlen (wide_chars units) <= 6 * zlen units.
Proof.
  unfold wide_chars. induction 1 as [|c units [Hc _] _ IH]; [done|].
  cbn [fmap list_fmap concat length]. rewrite length_app.
  assert (length (wide_char c) <= 6)%nat; [|lia].
  destruct (wide_char_cases c Hc) as [(b & -> & _)|[(-> & _)| -> ]]; cbn; lia.
Qed.

(** A wide string is written as a JSON string that stands for it: whatever its 16-bit
    units (control characters, quotes, surrogates), what [WriteString] appends is
    characters the grammar allows between two quotes, and reading them back gives the
    units.  The count and the level of the writer stay. *)
Lemma wide_string_round_trip {W} `{OutputStreamLaws W} units (w : W) c l n :
  Forall (fits 16) units -> 0 <= c < 2 ^ 31 -> 0 <= l -> l + (6 * zlen units + 2) < 2 ^ 31 ->
  room w n -> 6 * zlen units + 2 <= n ->
  exists bs w', WriteWString units (mkSJW w c l) = (Ok tt, mkSJW w' c l) /\
    appends w (x22 :: bs ++ [x22]) w' /\ string_ok bs /\ string_value bs = Some units.
Proof.
  intros Hu Hc Hl Hb Hr Hn. pose proof (wide_chars_length units Hu) as Hw.
  assert (Hlen : zlen (x22 :: wide_chars units ++ [x22]) = zlen (wide_chars units) + 2)
    by (cbn [length]; rewrite length_app; cbn [length]; lia).
  destruct (WriteWString_prints l units w c n) as (w' & E & Ha & _); cbn [just fst]; try lia; [done|].
  exists (wide_chars units), w'. split_and!; [exact E|exact Ha|by apply wide_chars_value..].
Qed.

(** The writer writes the text of an object, a JSON text of its tree. *)
Lemma Serialize_text {W} `{OutputStreamLaws W} rj pretty indent all_fields v (w : W) n :
  0 <= indent -> spelled rj all_fields v ->
  let bs := fst (text rj pretty indent all_fields v 0 0) in
  zlen bs < 2 ^ 31 -> room w n -> zlen bs <= n ->
  exists w', Serialize rj pretty indent all_fields v (SimpleJsonWriter_new w) =
      (Ok tt, mkSJW w' (snd (text rj pretty indent all_fields v 0 0)) 0) /\
    appends w bs w' /\ renders (json_of rj all_fields v) bs /\
    parse_json bs = Some (json_of rj all_fields v).
Proof.
  intros Hi Hs bs Hl Hr Hn. subst bs.
  destruct (value_prints rj pretty indent all_fields Hi v Hs) as [Hp _].
  destruct (prints_void _ _ _ _ _ (Hp 0) w 0 n) as (w' & E & Ha & _); [lia|lia|done|done|lia|lia|].
  destruct (value_rendered rj pretty indent all_fields v Hs) as [Ht _].
  destruct (Ht 0 1 ltac:(lia)) as [Hj _]. rewrite (text_first _ _ _ _ _ _ 1 0) in Hj.
  exists w'. split_and!; [exact E|exact Ha|exact Hj|].
  rewrite <-(app_nil_r (fst _)). by apply (parse_renders _ _ [] []).
Qed.

(** C23: serializing to JSON.  For every object that can be spelled in JSON, with or without
    line breaks and defaults, the writer succeeds and what it appends is a JSON text of the
    tree of the object: one object with the fields of the bases and its own, arrays for
    lists, sets and maps.  Brackets match, commas are between elements only, and the
    parser of JSON texts reads the text back as the tree.  An object can be spelled when RapidJSON's
    printer gives its numbers a text in the grammar of JSON, which it does not for an infinity or
    NaN, and escapes its strings and names, when its wide strings have 16-bit units, a base is a struct
    and no hierarchy has 2^32 levels.  The text must be shorter than 2^31 bytes, the indentation not
    negative, and the stream must have room for the text. *)
Theorem json_serializes {W} `{OutputStreamLaws W} rj pretty indent all_fields v (w : W) n :
  0 <= indent -> spelled rj all_fields v ->
  let bs := fst (text rj pretty indent all_fields v 0 0) in
  zlen bs < 2 ^ 31 -> room w n -> zlen bs <= n ->
  exists w', Serialize rj pretty indent all_fields v (SimpleJsonWriter_new w) =
      (Ok tt, mkSJW w' (snd (text rj pretty indent all_fields v 0 0)) 0) /\
    appends w bs w' /\ renders (json_of rj all_fields v) bs /\
    parse_json bs = Some (json_of rj all_fields v).
Proof. apply Serialize_text. Qed.

(** * A sample *)

(** Decimal numbers, as far as the sample needs them. *)
Fixpoint decimal (fuel : nat) (z : Z) : list byte :=
  match fuel with
  | O => []
  | S fuel' => (if z <? 10 then [] else decimal fuel' (z / 10)) ++ [z2b (48 + z mod 10)]
  end.
Definition sample_rapidjson : rapidjson := {|
  rj_int64 := fun z => if z <? 0 then "-"%byte :: decimal 20 (- z) else decimal 20 z;
  rj_uint64 := decimal 20;
  rj_double := fun _ => ["1"; "."; "5"; "e"; "+"; "3"; "0"]%byte;
  rj_chars := fun units => z2b <$> units
|}.

(** The name of a field is in its metadata, or in an attribute. *)
Definition named_field (name : list Z) (attributes : list (list Z * list Z)) : Metadata :=
  mkMetadata Required Variant_new name attributes.
Definition sample_object : value :=
  VStruct (Some (VStruct None [(0, named_field [97] [], VBasic (SInt W32 (-50)))]))
    [(1, named_field [98] [(JsonName, [99])], VList false BT_DOUBLE [VBasic (SDouble 7); VBasic (SDouble 8)]);
     (2, named_field [100] [], VMap BT_STRING BT_BOOL
        [(VBasic (SString [107]), VBasic (SBool true)); (VBasic (SString [108]), VBasic (SBool false))]);
     (3, named_field [101] [], VList true BT_LIST []);
     (4, named_field [102] [], VStruct None
        [(0, named_field [103] [], VBasic (SWString [10; 34; 0x3b1; 7; 65]))])].


Lemma sample_spelled : spelled sample_rapidjson true sample_object.
Proof.
  assert (Hp : forall bs, forallb is_plain bs = true -> string_ok bs).
  { induction bs as [|b bs IH]; cbn; [constructor|]. intros [? ?]%andb_true_iff.
    constructor; auto. }
  repeat first [apply conj | by apply Hp | by vm_compute | intros _ |
    apply Forall_cons_2 | apply Forall_nil_2].
Qed.

Lemma json_serializes_witness : exists w',
  Serialize sample_rapidjson true 2 true sample_object (SimpleJsonWriter_new (mkOC 0)) =
    (Ok tt, mkSJW w' 3 0) /\
  parse_json (fst (text sample_rapidjson true 2 true sample_object 0 0)) =
    Some (json_of sample_rapidjson true sample_object).
Proof.
  assert (Hl : zlen (fst (text sample_rapidjson true 2 true sample_object 0 0)) = 160)
    by by vm_compute.
  destruct (json_serializes sample_rapidjson true 2 true sample_object (mkOC 0) 160
    ltac:(lia) sample_spelled) as (w' & Es & _ & _ & Hp); [rewrite Hl; lia|by vm_compute|lia|].
  exists w'. exact (conj Es Hp).
Defined.

Lemma wide_string_round_trip_witness : exists bs w',
  WriteWString [10; 34; 0x3b1; 0xd800; 7; 65] (mkSJW (mkOC 0) 3 1) = (Ok tt, mkSJW w' 3 1) /\
  string_value bs = Some [10; 34; 0x3b1; 0xd800; 7; 65].
Proof.
  assert (Hu : Forall (fits 16) [10; 34; 0x3b1; 0xd800; 7; 65])
    by (repeat constructor; by vm_compute).
  destruct (wide_string_round_trip _ (mkOC 0) 3 1 38 Hu) as (bs & w' & E & _ & _ & Hv);
    [by vm_compute..|].
  exists bs, w'. exact (conj E Hv).
Defined.
