(* ===== verification/Skipping.v ===== *)
(** Skipping in tagged protocols.

    [FastBinaryReader] and [CompactBinaryReader] have the same family of [SkipType]
    overloads over different encodings.  A record states what the family of one
    reader does on each kind of type; from it follows, once for both, that a
    payload is skipped exactly. *)

From S2P Require Import Prelude Checked Streams Encoding DataType Metadata Protocol.
From S2P Require Import Serializer.

(** [_input.Skip(checked_multiply(size, bytes))], [size] being 1 by default. *)
Definition skip_fixed {R} `{InputStream R} (bytes : Z) (size : option Z) : M R unit :=
  let! n := of_outcome (checked_multiply 32 (default 1 size) bytes) in is_Skip n.

(** [SkipType<T>(size)] for the types skipped one by one. *)
Definition skip_times {R} (size : option Z) (m : M R unit) : M R unit :=
  match size with None => m | Some n => repeatM (Z.to_nat n) m end.

(** The units of a [std::wstring], two bytes each. *)
Lemma wstring_units_skip {R} `{InputStreamLaws R} l : zlen l < 2 ^ 32 ->
  zlen (concat (le_bytes 2 <$> l)) < 2 ^ 32 ->
  reads (let! n := of_outcome (checked_multiply 32 (zlen l) 2) in is_Skip (S := R) n)
    (concat (le_bytes 2 <$> l)) tt.
Proof.
  intros Hn Hl. assert (Hc : zlen (concat (le_bytes 2 <$> l)) = zlen l * 2)
    by (rewrite length_concat_le_bytes; lia).
  eapply reads_bind_nil; [|apply is_Skip_reads; lia].
  rewrite checked_multiply_ok; [|lia|by apply zlen_fits|done].
  rewrite decide_True by lia. rewrite <-Hc. apply reads_ret.
Qed.

(** The operations of a reader that skipping uses; [ts_fixed] gives the size of the
    types that are skipped by multiplication. *)
Record tagged_skip (R : Type) : Type := mkTS {
  ts_ReadStructBegin : M R unit;
  ts_ReadFieldBegin : M R (BondDataType * Z);
  ts_ReadContainerBegin : M R (Z * BondDataType);
  ts_ReadMapBegin : M R (Z * (BondDataType * BondDataType));
  ts_SkipType : nat -> BondDataType -> option Z -> M R unit;
  ts_fixed : BondDataType -> option Z
}.
Arguments mkTS {R}.
Arguments ts_ReadStructBegin {R}.
Arguments ts_ReadFieldBegin {R}.
Arguments ts_ReadContainerBegin {R}.
Arguments ts_ReadMapBegin {R}.
Arguments ts_SkipType {R}.
Arguments ts_fixed {R}.

Record skip_laws {R} `{InputStream R} (K : tagged_skip R) (F : wire_format) : Prop := mkSL {
  sl_field t id : 2 <= t <= 18 -> fits 16 id ->
    reads (ts_ReadFieldBegin K) (wf_field F t id) (t, id);
  sl_stop base : exists id,
    reads (ts_ReadFieldBegin K) (wf_stop F base) (if base then BT_STOP_BASE else BT_STOP, id);
  sl_list n t : fits 32 n -> fits 5 t ->
    reads (ts_ReadContainerBegin K) (wf_list F n t) (n, t);
  sl_map n kt vt : fits 32 n -> fits 5 kt -> fits 5 vt ->
    reads (ts_ReadMapBegin K) (wf_map F n (kt, vt)) (n, (kt, vt));
  sl_field_pos t id : (0 < length (wf_field F t id))%nat;
  sl_stop_pos base : (0 < length (wf_stop F base))%nat;
  sl_list_pos n t : (0 < length (wf_list F n t))%nat;
  sl_map_pos n t : (0 < length (wf_map F n t))%nat;
  sl_fixed_range t k : ts_fixed K t = Some k -> 0 <= k <= 8 /\ ~ 10 <= t <= 13;
  sl_fixed_length s k : scalar_ok s -> ts_fixed K (get_type_id (btype_of s)) = Some k ->
    zlen (wf_scalar F s) = k;
  sl_skip_fixed fuel t size k : ts_fixed K t = Some k ->
    ts_SkipType K (S fuel) t size = skip_fixed k size;
  sl_skip_times fuel t n : ts_fixed K t = None -> 2 <= t <= 18 ->
    ts_SkipType K (S fuel) t (Some n) =
      repeatM (Z.to_nat n) (ts_SkipType K (S fuel) t None);
  sl_skip_zero fuel t s : ts_fixed K t = None ->
    ts_SkipType K (S fuel) t (Some 0) s = (Ok tt, s);
  sl_skip_basic fuel s : scalar_ok s -> ts_fixed K (get_type_id (btype_of s)) = None ->
    zlen (wf_scalar F s) < 2 ^ 32 ->
    reads (ts_SkipType K (S fuel) (get_type_id (btype_of s)) None) (wf_scalar F s) tt;
  sl_skip_list fuel (is_set : bool) :
    ts_SkipType K (S fuel) (if is_set then BT_SET else BT_LIST) None =
      (let! h := ts_ReadContainerBegin K in
       ts_SkipType K fuel (snd h) (Some (fst h)) ;;; ret tt);
  sl_skip_map fuel :
    ts_SkipType K (S fuel) BT_MAP None =
      (let! h := ts_ReadMapBegin K in
       repeatM (Z.to_nat (fst h))
         (ts_SkipType K fuel (fst (snd h)) None ;;;
          ts_SkipType K fuel (snd (snd h)) None) ;;;
       ret tt);
  (** A struct goes by its fields, or by its length. *)
  sl_skip_struct :
    ((forall L, wf_prefix F L = []) /\
     reads (ts_ReadStructBegin K) [] tt /\
     forall fuel, ts_SkipType K (S fuel) BT_STRUCT None =
       skip_struct (ts_ReadFieldBegin K) (ts_ReadStructBegin K)
         (fun t => ts_SkipType K fuel t None) fuel) \/
    ((forall L, wf_prefix F L = varint L) /\
     forall fuel, ts_SkipType K (S fuel) BT_STRUCT None =
       (let! length := is_ReadVariableUnsigned 32 in is_Skip length))
}.

Section SkipPayload.
Context {R : Type} `{InputStreamLaws R} (K : tagged_skip R) (F : wire_format).
Context (laws : skip_laws K F).

Lemma skip_fixed_reads k size bs : 0 <= k <= 8 -> fits 32 (default 1 size) ->
  zlen bs = default 1 size * k -> zlen bs < 2 ^ 32 ->
  reads (skip_fixed (R := R) k size) bs tt.
Proof.
  intros Hk Hs Hl Hb. unfold skip_fixed. eapply reads_bind_nil; [|by apply is_Skip_reads].
  rewrite checked_multiply_ok; [|lia|done|unfold fits; lia].
  rewrite decide_True by lia. rewrite Hl. apply reads_ret.
Qed.

Lemma fixed_value_length v k : value_ok v -> ts_fixed K (type_of v) = Some k ->
  zlen (encode F false v) = k.
Proof.
  intros Hok Hk. destruct (sl_fixed_range _ _ laws _ _ Hk) as [_ Hn].
  destruct v as [s| |[]|]; [by apply (sl_fixed_length _ _ laws)|..];
    exfalso; apply Hn; vm_compute; split; congruence.
Qed.

Lemma fixed_items_length items t k :
  ts_fixed K t = Some k -> Forall (fun x => type_of x = t /\ value_ok x) items ->
  zlen (concat (encode F false <$> items)) = zlen items * k.
Proof.
  intros Hk. induction 1 as [|x items [Ht Hx] _ IH]; [done|].
  rewrite fmap_cons. cbn [concat length]. rewrite length_app. subst t.
  pose proof (fixed_value_length x k Hx Hk). lia.
Qed.

(** A value is skipped with a turn to spare for each byte. *)
Definition skips (v : value) : Prop :=
  forall fuel, zlen (encode F false v) + 1 < Z.of_nat fuel ->
  reads (ts_SkipType K fuel (type_of v) None) (encode F false v) tt.

Lemma items_skip items t fuel : fits 5 t -> zlen items < 2 ^ 32 ->
  Forall (fun x => type_of x = t /\ value_ok x) items -> Forall skips items ->
  zlen (concat (encode F false <$> items)) < 2 ^ 32 ->
  zlen (concat (encode F false <$> items)) + 1 < Z.of_nat fuel ->
  reads (ts_SkipType K fuel t (Some (zlen items))) (concat (encode F false <$> items)) tt.
Proof.
  intros Ht Hn Hty Hsk Hl Hf. destruct fuel as [|fuel]; [lia|].
  destruct (ts_fixed K t) as [k|] eqn:Hk.
  - rewrite (sl_skip_fixed _ _ laws _ _ _ k) by done.
    destruct (sl_fixed_range _ _ laws _ _ Hk) as [Hk8 _].
    apply skip_fixed_reads; [done|unfold fits; simpl; lia| |done].
    by apply (fixed_items_length items t k).
  - destruct items as [|x items'] eqn:E.
    { apply (reads_ext (ret tt)); [|apply reads_ret]. intros s.
      change (zlen []) with 0. by rewrite (sl_skip_zero _ _ laws). }
    assert (Hr : 2 <= t <= 18).
    { apply Forall_cons_iff in Hty as [[<- _] _]. apply type_of_range. }
    rewrite <-E in *. rewrite (sl_skip_times _ _ laws), Nat2Z.id by done.
    rewrite <-(length_fmap (encode F false) items).
    apply reads_repeatM. intros bs Hbs. apply list_elem_of_fmap in Hbs as (y & -> & Hy).
    rewrite Forall_forall in Hty, Hsk. pose proof (proj1 (list_elem_of_In _ _) Hy) as Hin.
    destruct (Hty y Hin) as [<- _]. apply (Hsk y Hin).
    pose proof (fields_fit (encode F false) items (Z.of_nat (S fuel) - 1) y ltac:(lia) Hy). lia.
Qed.

Lemma pairs_skip items kt vt fuel :
  Forall (fun kv => (type_of (fst kv) = kt /\ value_ok (fst kv)) /\
                    (type_of (snd kv) = vt /\ value_ok (snd kv))) items ->
  Forall (fun kv => skips (fst kv) /\ skips (snd kv)) items ->
  zlen (concat ((fun kv => encode F false (fst kv) ++ encode F false (snd kv)) <$> items)) + 1
    < Z.of_nat fuel ->
  reads (repeatM (length items) (ts_SkipType K fuel kt None ;;; ts_SkipType K fuel vt None))
    (concat ((fun kv => encode F false (fst kv) ++ encode F false (snd kv)) <$> items)) tt.
Proof.
  intros Hty Hsk Hl.
  rewrite <-(length_fmap (fun kv => encode F false (fst kv) ++ encode F false (snd kv)) items).
  apply reads_repeatM. intros bs Hbs. apply list_elem_of_fmap in Hbs as ([x y] & -> & Hy).
  pose proof (fields_fit (fun kv => encode F false (fst kv) ++ encode F false (snd kv)) items
    (Z.of_nat fuel - 1) _ ltac:(lia) Hy) as Hxy. cbv beta in Hxy. rewrite length_app in Hxy.
  rewrite Forall_forall in Hty, Hsk. apply list_elem_of_In in Hy.
  destruct (Hty _ Hy) as [[<- _] [<- _]]. destruct (Hsk _ Hy) as [Hx Hv]. cbn [fst snd] in *.
  eapply reads_bind; [apply Hx; lia|apply Hv; lia].
Qed.

(** ** Structs *)

(** Fields whose values are skipped in any position. *)
Definition field_ok (f : Z * Metadata * value) : Prop :=
  omitted F f = false -> fits 16 (fst (fst f)) /\ skips (snd f).

Lemma fields_skip fields fuel :
  Forall field_ok fields -> zlen (fields_bytes F fields) < Z.of_nat fuel ->
  Forall (field_skips (fun t => ts_SkipType K fuel t None) F) fields.
Proof.
  intros Hf Hl. rewrite Forall_forall in *. intros f Hin Ho. destruct (Hf f Hin Ho) as [Hid Hs].
  split; [done|]. apply Hs. apply list_elem_of_In in Hin.
  pose proof (fields_fit (field_bytes F) fields _ f Hl Hin) as Hlen.
  unfold field_bytes in Hlen. rewrite Ho, length_app in Hlen.
  pose proof (sl_field_pos _ _ laws (type_of (snd f)) (fst (fst f))). lia.
Qed.

Definition base_skips (v : value) : Prop :=
  forall fuel, zlen (encode F true v) < Z.of_nat fuel ->
  base_continues (ts_ReadFieldBegin K) (ts_ReadStructBegin K)
    (fun t => ts_SkipType K fuel t None) F v.

Lemma body_length base b fields n :
  zlen (encode F base (VStruct b fields)) < n ->
  zlen (match b with Some bv => encode F true bv | None => [] end) < n /\
  zlen (fields_bytes F fields) < n /\ zlen (body_of F base b fields) < n.
Proof.
  rewrite encode_struct. intros Hl.
  assert (Hbody : zlen (body_of F base b fields) < n)
    by (destruct base; [done|rewrite length_app in Hl; lia]).
  unfold body_of in *. rewrite !length_app in *. destruct b; simpl in *; lia.
Qed.

Lemma parts_skip base b fields fuel :
  (forall bv, b = Some bv -> base_skips bv) -> Forall field_ok fields ->
  zlen (encode F base (VStruct b fields)) < Z.of_nat fuel ->
  (forall bv, b = Some bv -> base_continues (ts_ReadFieldBegin K) (ts_ReadStructBegin K)
     (fun t => ts_SkipType K fuel t None) F bv) /\
  Forall (field_skips (fun t => ts_SkipType K fuel t None) F) fields.
Proof.
  intros Hb Hf Hl. destruct (body_length base b fields _ Hl) as (Hl1 & Hl2 & _).
  split; [|by apply fields_skip]. intros bv ->. by apply Hb.
Qed.

Lemma struct_base_skips b fields : reads (ts_ReadStructBegin K) [] tt ->
  (forall bv, b = Some bv -> base_skips bv) -> Forall field_ok fields ->
  base_skips (VStruct b fields).
Proof.
  intros Hbegin Hb Hf fuel Hl.
  destruct (parts_skip true b fields fuel Hb Hf Hl) as [Hb' Hf'].
  apply body_continues; try done; apply laws.
Qed.

Lemma struct_skips b fields :
  (reads (ts_ReadStructBegin K) [] tt -> forall bv, b = Some bv -> base_skips bv) ->
  Forall field_ok fields -> zlen (encode F false (VStruct b fields)) < 2 ^ 32 ->
  skips (VStruct b fields).
Proof.
  intros Hb Hf Hl32 [|fuel] Hl; [lia|]. rewrite encode_struct.
  change (type_of (VStruct b fields)) with BT_STRUCT.
  destruct (body_length false b fields _ Hl32) as (_ & _ & Hbody32).
  destruct (sl_skip_struct _ _ laws) as [(Hp & Hbegin & Hskip)|(Hp & Hskip)];
    rewrite Hskip, Hp.
  - destruct (parts_skip false b fields fuel (Hb Hbegin) Hf ltac:(lia)) as [Hb' Hf'].
    destruct (body_length false b fields (Z.of_nat fuel) ltac:(lia)) as (_ & _ & Hbody).
    by apply (body_ends (ts_ReadFieldBegin K) (ts_ReadStructBegin K)
      (fun t => ts_SkipType K fuel t None) F); try done; apply laws.
  - eapply reads_bind; [|by apply is_Skip_reads].
    apply is_Var_reads; [by right; left|by apply zlen_fits].
Qed.

(** ** Containers *)

Lemma list_skips k t items : value_ok (VList k t items) -> Forall skips items ->
  zlen (encode F false (VList k t items)) < 2 ^ 32 -> skips (VList k t items).
Proof.
  cbn [value_ok encode]. intros (Ht & Hn & Hall) Hi Hl [|fuel] Hf; [lia|].
  apply all_Forall in Hall. cbn [encode type_of] in *. rewrite length_app in *.
  pose proof (sl_list_pos _ _ laws (zlen items) t). rewrite (sl_skip_list _ _ laws).
  eapply reads_bind; [by apply (sl_list _ _ laws); [apply zlen_fits|]|].
  cbn [fst snd]. rewrite <-(app_nil_r (concat _)).
  eapply reads_bind; [|apply reads_ret]. apply items_skip; try done; lia.
Qed.

Lemma map_skips kt vt items : value_ok (VMap kt vt items) ->
  Forall (fun kv => skips (fst kv) /\ skips (snd kv)) items -> skips (VMap kt vt items).
Proof.
  cbn [value_ok]. intros (Hkt & Hvt & Hn & Hall) Hi [|fuel] Hf; [lia|].
  apply all_Forall in Hall. cbn [encode type_of] in *. rewrite length_app in *.
  pose proof (sl_map_pos _ _ laws (zlen items) (kt, vt)). rewrite (sl_skip_map _ _ laws).
  eapply reads_bind; [by apply (sl_map _ _ laws); [apply zlen_fits|..]|].
  cbn [fst snd]. rewrite <-(app_nil_r (concat _)). rewrite Nat2Z.id.
  eapply reads_bind; [|apply reads_ret]. apply pairs_skip; try done; lia.
Qed.

Lemma basic_skips s : scalar_ok s -> zlen (wf_scalar F s) < 2 ^ 32 -> skips (VBasic s).
Proof.
  intros Hok Hl [|fuel] Hf; [lia|]. cbn [type_of encode] in *.
  destruct (ts_fixed K (get_type_id (btype_of s))) as [k|] eqn:Hk;
    [|by apply (sl_skip_basic _ _ laws)].
  rewrite (sl_skip_fixed _ _ laws _ _ _ k) by done.
  pose proof (sl_fixed_length _ _ laws s k Hok Hk).
  destruct (sl_fixed_range _ _ laws _ _ Hk) as [Hk8 _].
  apply skip_fixed_reads; [done|by vm_compute|simpl default; lia|done].
Qed.

(** ** Any value *)

Lemma value_skips v : value_ok v ->
  (zlen (encode F false v) < 2 ^ 32 -> skips v) /\
  (reads (ts_ReadStructBegin K) [] tt -> type_of v = BT_STRUCT ->
   zlen (encode F true v) < 2 ^ 32 -> base_skips v).
Proof.
  induction v as [s|b fields Hb Hf|k t items Hi|kt vt items Hi] using value_ind_nested;
    intros Hok.
  - split; [by apply basic_skips|]. intros _ Ht. by destruct s as [|[]|[]| | | |].
  - cbn [value_ok] in Hok. destruct Hok as [Hbok Hfok]. apply all_Forall in Hfok.
    assert (Hall : forall base, zlen (encode F base (VStruct b fields)) < 2 ^ 32 ->
      (reads (ts_ReadStructBegin K) [] tt -> forall bv, b = Some bv -> base_skips bv) /\
      Forall field_ok fields).
    { intros base Hl. destruct (body_length base b fields _ Hl) as (Hlb & Hlf & _). split.
      - intros Hbegin bv ->. destruct Hbok as [Ht Hbv]. by apply (Hb bv eq_refl Hbv).
      - rewrite Forall_forall in *. intros f Hin Ho. destruct (Hfok f Hin) as [Hid Hv].
        split; [done|]. apply (Hf f Hin Hv). apply list_elem_of_In in Hin.
        pose proof (fields_fit (field_bytes F) fields _ f Hlf Hin) as Hlen.
        unfold field_bytes in Hlen. rewrite Ho, length_app in Hlen. lia. }
    split; [intros Hl|intros Hbegin _ Hl]; destruct (Hall _ Hl) as [H1' H2'].
    + by apply struct_skips.
    + by apply struct_base_skips; [|apply H1'|].
  - split; [|by destruct k]. intros Hl. apply list_skips; [done| |done].
    cbn [value_ok encode] in *. destruct Hok as (_ & _ & Hall). apply all_Forall in Hall.
    rewrite length_app in Hl. rewrite Forall_forall in *. intros x Hin.
    destruct (Hall x Hin) as [_ Hx]. apply (Hi x Hin Hx). apply list_elem_of_In in Hin.
    apply (fields_fit (encode F false) items); [lia|done].
  - split; [|done]. intros Hl. apply map_skips; [done|].
    cbn [value_ok encode] in *. destruct Hok as (_ & _ & _ & Hall). apply all_Forall in Hall.
    rewrite length_app in Hl. rewrite Forall_forall in *. intros [x y] Hin.
    destruct (Hall _ Hin) as [[_ Hx] [_ Hy]], (Hi _ Hin) as [Ix Iy]. cbn [fst snd] in *.
    apply list_elem_of_In in Hin.
    pose proof (fields_fit (fun kv => encode F false (fst kv) ++ encode F false (snd kv)) items
      (2 ^ 32) (x, y) ltac:(lia) Hin) as Hlen.
    cbn [fst snd] in Hlen. rewrite length_app in Hlen.
    split; [apply Ix|apply Iy]; (done || lia).
Qed.
End SkipPayload.
