(* ===== verification/FastBinary.v ===== *)
(** Fast Binary protocol (cpp/inc/bond/protocol/fast_binary.h).

    Fixed-size little-endian values, one-byte type tags, two-byte field ids; only
    string and container sizes are variable-length.  The writer and the reader
    are written over the stream classes. *)

From S2P Require Import Prelude Checked Streams Encoding InputBuffer OutputCounter DataType.
From S2P Require Import Metadata Protocol Serializer Skipping.

(** * Writer *)

Section FastBinaryWriter.
Context {W : Type} `{OutputStream W}.

Definition fb_WriteVersion : M W unit := os_Write 2 FAST_PROTOCOL ;;; os_Write 2 v1.

Definition fb_WriteType (type : BondDataType) : M W unit := os_Write 1 (wrap 8 type).

Definition fb_WriteStructBegin (base : bool) : M W unit := ret tt.
Definition fb_WriteStructEnd (base : bool) : M W unit :=
  fb_WriteType (if base then BT_STOP_BASE else BT_STOP).

(** [Write] for primitive types and for strings. *)
Definition fb_Write (s : scalar) : M W unit :=
  if is_string_type (btype_of s) then
    let length := string_length (string_units s) in
    os_WriteVariableUnsigned 32 length ;;; WriteStringData s length
  else Write_raw s.

Definition fb_WriteFieldBegin (type : BondDataType) (id : Z) : M W unit :=
  fb_WriteType type ;;; os_Write 2 id.
Definition fb_WriteFieldEnd : M W unit := ret tt.

Definition fb_WriteField (id : Z) (s : scalar) : M W unit :=
  fb_WriteFieldBegin (get_type_id (btype_of s)) id ;;; fb_Write s ;;; fb_WriteFieldEnd.

Definition fb_WriteContainerBegin (size : Z) (type : BondDataType) : M W unit :=
  fb_WriteType type ;;; os_WriteVariableUnsigned 32 size.
Definition fb_WriteMapBegin (size : Z) (type : BondDataType * BondDataType) : M W unit :=
  fb_WriteType (fst type) ;;; fb_WriteType (snd type) ;;; os_WriteVariableUnsigned 32 size.
Definition fb_WriteContainerEnd : M W unit := ret tt.

(** A tagged protocol may omit fields; without a method of its own
    [WriteFieldOmitted] does nothing. *)
Definition FastBinaryWriter : ProtocolWriter W := {|
  may_omit_fields := true;
  WriteVersion := fb_WriteVersion;
  WriteStructBegin := fb_WriteStructBegin;
  WriteStructEnd := fb_WriteStructEnd;
  WriteField := fb_WriteField;
  WriteFieldBegin := fb_WriteFieldBegin;
  WriteFieldEnd := fb_WriteFieldEnd;
  WriteFieldOmitted := fun _ _ _ => ret tt;
  WriteContainerBegin := fb_WriteContainerBegin;
  WriteMapBegin := fb_WriteMapBegin;
  WriteContainerEnd := fb_WriteContainerEnd;
  Write := fb_Write
|}.
End FastBinaryWriter.

(** * Reader *)

Section FastBinaryReader.
Context {R : Type} `{InputStream R}.

Definition fb_ReadVersion : M R bool :=
  let! magic_value := is_Read 2 in
  let! version_value := is_Read 2 in
  ret ((magic_value =? FAST_PROTOCOL) && (version_value <=? v1)).

Definition fb_Read (t : btype) : M R scalar :=
  if is_string_type t then
    let! length := is_ReadVariableUnsigned 32 in ReadStringData t length
  else Read_raw t.

Definition fb_ReadType : M R BondDataType := is_Read 1.

Definition fb_ReadStructBegin : M R unit := ret tt.
Definition fb_ReadStructEnd : M R unit := ret tt.

Definition fb_ReadFieldBegin : M R (BondDataType * Z) :=
  let! type := fb_ReadType in
  if negb (type =? BT_STOP) && negb (type =? BT_STOP_BASE) then
    let! id := is_Read 2 in ret (type, id)
  else ret (type, 0).
Definition fb_ReadFieldEnd : M R unit := ret tt.

Definition fb_ReadContainerBegin : M R (Z * BondDataType) :=
  let! type := fb_ReadType in
  let! size := is_ReadVariableUnsigned 32 in ret (size, type).
Definition fb_ReadMapBegin : M R (Z * (BondDataType * BondDataType)) :=
  let! first := fb_ReadType in
  let! second := fb_ReadType in
  let! size := is_ReadVariableUnsigned 32 in ret (size, (first, second)).
Definition fb_ReadContainerEnd : M R unit := ret tt.

Definition fb_SkipType_string : M R unit :=
  let! size := is_ReadVariableUnsigned 32 in is_Skip size.
Definition fb_SkipType_wstring : M R unit :=
  let! size := is_ReadVariableUnsigned 32 in
  let! n := of_outcome (checked_multiply 32 size 2) in is_Skip n.

(** [SkipType(type)] ([None]) and [SkipType(type, size)]: the switch over the type
    and the overloads it selects. *)
Fixpoint fb_SkipType (fuel : nat) (type : BondDataType) (size : option Z) : M R unit :=
  match fuel with
  | O => fail OutOfFuel
  | S fuel' =>
      if (type =? BT_BOOL) || (type =? BT_UINT8) || (type =? BT_INT8) then skip_fixed 1 size
      else if (type =? BT_UINT16) || (type =? BT_INT16) then skip_fixed 2 size
      else if (type =? BT_UINT32) || (type =? BT_INT32) then skip_fixed 4 size
      else if (type =? BT_UINT64) || (type =? BT_INT64) then skip_fixed 8 size
      else if type =? BT_FLOAT then skip_fixed 4 size
      else if type =? BT_DOUBLE then skip_fixed 8 size
      else if type =? BT_STRING then skip_times size fb_SkipType_string
      else if type =? BT_WSTRING then skip_times size fb_SkipType_wstring
      else if (type =? BT_SET) || (type =? BT_LIST) then
        skip_times size (let! h := fb_ReadContainerBegin in
               fb_SkipType fuel' (snd h) (Some (fst h)) ;;; fb_ReadContainerEnd)
      else if type =? BT_MAP then
        skip_times size (let! h := fb_ReadMapBegin in
               repeatM (Z.to_nat (fst h))
                 (fb_SkipType fuel' (fst (snd h)) None ;;;
                  fb_SkipType fuel' (snd (snd h)) None) ;;;
               fb_ReadContainerEnd)
      else if type =? BT_STRUCT then
        skip_times size (skip_struct fb_ReadFieldBegin fb_ReadStructBegin
                 (fun t => fb_SkipType fuel' t None) fuel')
      else ret tt
  end.

(** [Skip(BondDataType type)]: three more levels than unread bytes are enough. *)
Definition fb_Skip (type : BondDataType) : M R unit :=
  fun s => fb_SkipType (3 + length (view s)) type None s.
End FastBinaryReader.

(** * Wire format *)

Definition fb_format : wire_format := {|
  wf_scalar s :=
    if is_string_type (btype_of s) then varint (zlen (string_units s)) ++ string_bytes s
    else raw_bytes s;
  wf_field t id := z2b t :: le_bytes 2 id;
  wf_stop base := [z2b (if base then BT_STOP_BASE else BT_STOP)];
  wf_list n t := z2b t :: varint n;
  wf_map n t := z2b (fst t) :: z2b (snd t) :: varint n;
  wf_prefix _ := [];
  wf_counted := false;
  wf_may_omit := true
|}.

(** * The writer keeps its laws *)

Section WriterCorrect.
Context {W : Type} `{OutputStreamLaws W}.

Lemma fb_WriteType_emits t : emits (fb_WriteType t) [z2b t].
Proof.
  rewrite <-z2b_wrap. rewrite <-le_bytes_1. apply os_Write_emits. lia.
Qed.

Lemma fb_Write_emits s : scalar_ok s -> emits (fb_Write s) (wf_scalar fb_format s).
Proof.
  intros Hok. unfold fb_Write. cbn [wf_scalar fb_format].
  destruct (is_string_type (btype_of s)) eqn:E; [|by apply Write_raw_emits].
  assert (Hl : zlen (string_units s) < 2 ^ 32)
    by (destruct s as [| | | | |l|l]; try done; apply Hok).
  rewrite string_length_id by done. apply emits_bind; [|by apply WriteStringData_emits].
  apply os_Var_emits; [by right; left|]. unfold fits. lia.
Qed.

Lemma fb_WriteFieldBegin_emits t id : emits (fb_WriteFieldBegin t id) (wf_field fb_format t id).
Proof.
  change (wf_field fb_format t id) with ([z2b t] ++ le_bytes 2 id).
  apply emits_bind; [apply fb_WriteType_emits|apply os_Write_emits; lia].
Qed.

Lemma fb_writer_laws : writer_laws stream_logic FastBinaryWriter fb_format.
Proof.
  assert (Hstop : forall base, emits (fb_WriteStructEnd base) (wf_stop fb_format base))
    by (intros; apply fb_WriteType_emits).
  split; simpl wf_counted; cbv iota.
  - done.
  - intros m ls bs [-> Hm]. split; [done|]. rewrite <-(app_nil_l (_ ++ _)).
    apply emits_bind; [apply emits_nil|apply emits_bind; [done|apply Hstop]].
  - split; [done|apply Hstop].
  - intros m ls bs [-> Hm] _. split; [done|].
    apply emits_bind; [apply emits_nil|apply emits_bind; [done|apply Hstop]].
  - intros id s _ Hok. split; [done|].
    apply emits_bind; [apply fb_WriteFieldBegin_emits|].
    rewrite <-(app_nil_r (wf_scalar _ _)).
    apply emits_bind; [by apply fb_Write_emits|apply emits_nil].
  - intros t id _ _. split; [done|apply fb_WriteFieldBegin_emits].
  - split; [done|apply emits_nil].
  - intros t id m _. split; [done|apply emits_nil].
  - intros n t Hn _. split; [done|]. change (wf_list fb_format n t) with ([z2b t] ++ varint n).
    apply emits_bind; [apply fb_WriteType_emits|by apply os_Var_emits; [right; left|]].
  - intros n kt vt Hn _ _. split; [done|].
    change (wf_map fb_format n (kt, vt)) with ([z2b kt] ++ [z2b vt] ++ varint n).
    repeat (apply emits_bind; [apply fb_WriteType_emits|]).
    by apply os_Var_emits; [right; left|].
  - split; [done|apply emits_nil].
  - intros s Hok. split; [done|by apply fb_Write_emits].
Qed.
End WriterCorrect.

(** * The reader on what the writer wrote *)

Section ReaderCorrect.
Context {R : Type} `{InputStreamLaws R}.

Lemma fb_Read_reads s : scalar_ok s ->
  reads (fb_Read (btype_of s)) (wf_scalar fb_format s) s.
Proof.
  intros Hok. unfold fb_Read. cbn [wf_scalar fb_format].
  destruct (is_string_type (btype_of s)) eqn:E; [|by apply Read_raw_reads].
  assert (Hl : zlen (string_units s) < 2 ^ 32)
    by (destruct s as [| | | | |l|l]; try done; apply Hok).
  eapply reads_bind; [|by apply ReadStringData_reads].
  apply is_Var_reads; [by right; left|]. unfold fits. lia.
Qed.

Lemma fb_ReadFieldBegin_reads t id : 2 <= t <= 18 -> fits 16 id ->
  reads fb_ReadFieldBegin (wf_field fb_format t id) (t, id).
Proof.
  intros Ht Hid. change (wf_field fb_format t id) with ([z2b t] ++ le_bytes 2 id).
  unfold fb_ReadFieldBegin. eapply reads_bind; [apply read_byte_reads; lia|].
  unfold BT_STOP, BT_STOP_BASE. zbool. cbn [negb andb].
  apply (reads_map (is_Read 2) (pair t) (le_bytes 2 id) id).
  rewrite <-(wrap_id 16 id) at 2 by done.
  change 16 with (Z.of_nat 2 * 8). rewrite <-of_le_bytes.
  apply is_Read_reads; [apply length_le_bytes|lia].
Qed.

Lemma fb_stop_reads base : exists id,
  reads fb_ReadFieldBegin (wf_stop fb_format base)
    (if base then BT_STOP_BASE else BT_STOP, id).
Proof.
  exists 0. unfold fb_ReadFieldBegin. cbn [wf_stop fb_format].
  rewrite <-(app_nil_r [_]). eapply reads_bind.
  - apply read_byte_reads. by destruct base.
  - destruct base; apply reads_ret.
Qed.

Lemma fb_ReadContainerBegin_reads n t : fits 32 n -> fits 5 t ->
  reads fb_ReadContainerBegin (wf_list fb_format n t) (n, t).
Proof.
  intros Hn Ht. unfold fits in Ht. change (2 ^ 5) with 32 in Ht.
  change (wf_list fb_format n t) with ([z2b t] ++ varint n).
  eapply reads_bind; [apply read_byte_reads; lia|].
  apply (reads_map _ (fun size => (size, t))). by apply is_Var_reads; [right; left|].
Qed.

Lemma fb_ReadMapBegin_reads n kt vt : fits 32 n -> fits 5 kt -> fits 5 vt ->
  reads fb_ReadMapBegin (wf_map fb_format n (kt, vt)) (n, (kt, vt)).
Proof.
  intros Hn Hk Hv. unfold fits in Hk, Hv. change (2 ^ 5) with 32 in *.
  change (wf_map fb_format n (kt, vt)) with ([z2b kt] ++ [z2b vt] ++ varint n).
  eapply reads_bind; [apply read_byte_reads; lia|].
  eapply reads_bind; [apply read_byte_reads; lia|].
  apply (reads_map _ (fun size => (size, (kt, vt)))). by apply is_Var_reads; [right; left|].
Qed.

(** ** Skipping arbitrary bytes *)

Lemma read_type_safely n : safely n 1 (fb_ReadType (R := R)).
Proof. by apply (is_Read_safely 1 n); lia. Qed.

Lemma fb_ReadFieldBegin_safely n : safely n 1 (fb_ReadFieldBegin (R := R)).
Proof.
  apply (safely_bind _ _ n 1 0); [apply read_type_safely|]. intros t.
  case_match; [|apply safely_ret]. apply safely_bind_0; [|intros; apply safely_ret].
  eapply safely_weaken; [| |apply (is_Read_safely 2 (n - 1)); lia]; lia.
Qed.

Lemma skip_wstring_safely n : safely n 0 (fb_SkipType_wstring (R := R)).
Proof.
  apply safely_bind_0.
  - eapply safely_weaken; [| |apply (read_size_safely n)]; lia.
  - intros size. apply skip_multiplied_safely.
Qed.

Lemma fb_SkipType_safely fuel n type size : n + 2 < Z.of_nat fuel ->
  safely n 0 (fb_SkipType (R := R) fuel type size).
Proof.
  revert n type size. induction fuel as [|fuel IH]; intros n type size Hn.
  { apply safely_neg. lia. }
  destruct (decide (n < 0)); [by apply safely_neg|].
  assert (Hrec : forall t sz, safely (n - 1) 0 (fb_SkipType (R := R) fuel t sz)).
  { intros t sz. apply IH. lia. }
  cbn [fb_SkipType]. cbv zeta.
  repeat (case_match; [by apply skip_multiplied_safely|]).
  case_match; [apply times_safely, skip_size_safely|].
  case_match; [apply times_safely, skip_wstring_safely|].
  case_match; [|case_match; [|case_match; [|apply safely_ret]]]; apply times_safely.
  - apply (safely_weaken _ n _ 1); [lia|lia|].
    apply (safely_bind _ _ n 1 0).
    + apply (safely_bind _ _ n 1 0); [apply read_type_safely|]. intros t.
      apply safely_bind_0; [|intros; apply safely_ret].
      eapply safely_weaken; [| |apply (read_size_safely (n - 1))]; lia.
    + intros h. apply safely_bind_0; [apply Hrec|intros; apply safely_ret].
  - apply (safely_weaken _ n _ 1); [lia|lia|].
    apply (safely_bind _ _ n 1 0).
    + apply (safely_bind _ _ n 1 0); [apply read_type_safely|]. intros t.
      apply safely_bind_0; [eapply safely_weaken; [| |apply (read_type_safely (n - 1))]; lia|].
      intros t2. apply safely_bind_0; [|intros; apply safely_ret].
      eapply safely_weaken; [| |apply (read_size_safely (n - 1))]; lia.
    + intros h. apply safely_bind_0; [|intros; apply safely_ret].
      apply safely_repeatM. apply safely_bind_0; [apply Hrec|intros; apply Hrec].
  - apply (safely_weaken _ n _ 1); [lia|lia|].
    apply skip_struct_safely; [lia|lia|apply fb_ReadFieldBegin_safely|
      intros; apply safely_ret|]. intros t. apply Hrec.
Qed.
End ReaderCorrect.

(** * Skipping a payload *)

(** The size of the types skipped by multiplication. *)
Definition fb_fixed_size (t : BondDataType) : option Z :=
  if (t =? BT_BOOL) || (t =? BT_UINT8) || (t =? BT_INT8) then Some 1
  else if (t =? BT_UINT16) || (t =? BT_INT16) then Some 2
  else if (t =? BT_UINT32) || (t =? BT_INT32) then Some 4
  else if (t =? BT_UINT64) || (t =? BT_INT64) then Some 8
  else if t =? BT_FLOAT then Some 4
  else if t =? BT_DOUBLE then Some 8
  else None.

Section SkipCorrect.
Context {R : Type} `{InputStreamLaws R}.

Definition fb_tagged_skip : tagged_skip R := {|
  ts_ReadStructBegin := fb_ReadStructBegin;
  ts_ReadFieldBegin := fb_ReadFieldBegin;
  ts_ReadContainerBegin := fb_ReadContainerBegin;
  ts_ReadMapBegin := fb_ReadMapBegin;
  ts_SkipType := fb_SkipType;
  ts_fixed := fb_fixed_size
|}.

Lemma fb_skip_basic fuel s : scalar_ok s ->
  fb_fixed_size (get_type_id (btype_of s)) = None -> zlen (wf_scalar fb_format s) < 2 ^ 32 ->
  reads (fb_SkipType (R := R) (S fuel) (get_type_id (btype_of s)) None)
    (wf_scalar fb_format s) tt.
Proof.
  intros Hok Hk Hl.
  destruct s as [b|[]|[]| | |l|l]; try discriminate Hk; destruct Hok as [Hu Hn].
  - change (wf_scalar fb_format (SString l)) with
      (varint (zlen l) ++ concat (le_bytes 1 <$> l)) in *.
    change (fb_SkipType (R := R) (S fuel) _ None) with (fb_SkipType_string (R := R)).
    eapply reads_bind; [apply is_Var_reads; [by right; left|by apply zlen_fits]|].
    rewrite length_app in Hl.
    replace (zlen l) with (zlen (concat (le_bytes 1 <$> l)))
      by (rewrite length_concat_le_bytes; lia).
    apply is_Skip_reads. lia.
  - change (wf_scalar fb_format (SWString l)) with
      (varint (zlen l) ++ concat (le_bytes 2 <$> l)) in *.
    change (fb_SkipType (R := R) (S fuel) _ None) with (fb_SkipType_wstring (R := R)).
    eapply reads_bind; [apply is_Var_reads; [by right; left|by apply zlen_fits]|].
    rewrite length_app in Hl. by apply wstring_units_skip; [|lia].
Qed.

Lemma fb_skip_laws : skip_laws fb_tagged_skip fb_format.
Proof.
  split; cbn [fb_tagged_skip ts_ReadStructBegin ts_ReadFieldBegin ts_ReadContainerBegin
    ts_ReadMapBegin ts_SkipType ts_fixed].
  - apply fb_ReadFieldBegin_reads.
  - apply fb_stop_reads.
  - apply fb_ReadContainerBegin_reads.
  - apply fb_ReadMapBegin_reads.
  - intros t id. simpl. lia.
  - intros base. simpl. lia.
  - intros n t. simpl. lia.
  - intros n t. simpl. lia.
  - intros t k Hk. split.
    + unfold fb_fixed_size in Hk. repeat (case_match; [simplify_eq; lia|]). done.
    + intros Ht. assert (Hr : 2 <= t <= 18) by lia. type_cases Hr; (lia || discriminate Hk).
  - intros s k Hok Hk. destruct s as [b|[]|[]| | | |]; simplify_eq/=; try discriminate Hk;
      injection Hk as <-; reflexivity.
  - intros fuel t size k Hk. unfold fb_fixed_size in Hk. cbn [fb_SkipType].
    repeat (destruct (orb _ _); [by simplify_eq|]).
    destruct (t =? BT_FLOAT); [by simplify_eq|]. destruct (t =? BT_DOUBLE); by simplify_eq.
  - intros fuel t n Hk Ht. type_cases Ht; first [reflexivity|discriminate Hk].
  - intros fuel t s Hk. unfold fb_fixed_size in Hk. cbn [fb_SkipType].
    repeat (destruct (orb _ _); [by simplify_eq|]). by repeat (case_match; [done|]).
  - intros fuel s. apply fb_skip_basic.
  - intros fuel []; reflexivity.
  - intros fuel. reflexivity.
  - left. split_and!; [done|apply reads_ret|done].
Qed.
End SkipCorrect.

(** * Properties *)

(** Applied with a Fast Binary writer, the serializer writes the payload of the
    wire format, for every object a schema allows and on every output stream with
    room for it: omitted fields leave no trace, base fields come first. *)
Lemma fast_binary_serializes {W} `{OutputStreamLaws W} v (s : W) n :
  value_ok v -> zlen (encode fb_format false v) < 2 ^ 32 ->
  room s n -> zlen (encode fb_format false v) <= n ->
  exists s', Apply FastBinaryWriter false v s = (Ok tt, s') /\
    appends s (encode fb_format false v) s' /\ room s' (n - zlen (encode fb_format false v)).
Proof.
  intros Hok Hl Hr Hn.
  destruct (Apply_written FastBinaryWriter stream_logic fb_format fb_writer_laws v Hok false Hl)
    as [_ Hw].
  by apply Hw.
Qed.

(** [Skip] on a Fast Binary payload consumes exactly the value, whatever follows
    it: structs with their base parts, containers of fixed-size elements by
    multiplication, everything else element by element. *)
Lemma fast_binary_skip_exact {R} `{InputStreamLaws R} v (s : R) rest :
  value_ok v -> zlen (encode fb_format false v) < 2 ^ 32 ->
  readable s -> view s = encode fb_format false v ++ rest ->
  exists s', fb_Skip (type_of v) s = (Ok tt, s') /\ view s' = rest /\ readable s'.
Proof.
  intros Hok Hl Hr Hv. apply (proj1 (value_skips fb_tagged_skip fb_format fb_skip_laws v Hok) Hl); [|done..].
  rewrite Hv, length_app. lia.
Qed.

(** On arbitrary bytes, and for any type tag, skipping ends: it stops at a
    suffix of the input or throws, with no undefined step on the way. *)
Lemma fast_binary_skip_total {R} `{InputStreamLaws R} type (s : R) :
  readable s ->
  exists j, readable (snd (fb_Skip type s)) /\ view (snd (fb_Skip type s)) = drop j (view s) /\
    match fst (fb_Skip type s) with
    | Ok _ => (j <= length (view s))%nat
    | Err e => exists x, e = Thrown x
    end.
Proof.
  intros Hr.
  destruct (fb_SkipType_safely (3 + length (view s)) (zlen (view s)) type None
    ltac:(lia) s Hr ltac:(lia)) as (j & Ho & Hv & Hj).
  exists j. unfold fb_Skip. split_and!; [done..|]. case_match; [lia|done].
Qed.

(** A basic value, a field header and a container header are read back as they
    were written, by the reader's inverse of each writer method. *)
Lemma fast_binary_reads_back {R} `{InputStreamLaws R} (s : R) rest sc type id n kt vt :
  readable s -> scalar_ok sc -> 2 <= type <= 18 -> fits 16 id -> fits 32 n ->
  fits 5 kt -> fits 5 vt ->
  (view s = wf_scalar fb_format sc ++ rest ->
     exists s', fb_Read (btype_of sc) s = (Ok sc, s') /\ view s' = rest /\ readable s') /\
  (view s = wf_field fb_format type id ++ rest ->
     exists s', fb_ReadFieldBegin s = (Ok (type, id), s') /\ view s' = rest /\ readable s') /\
  (view s = wf_list fb_format n type ++ rest ->
     exists s', fb_ReadContainerBegin s = (Ok (n, type), s') /\ view s' = rest /\
       readable s') /\
  (view s = wf_map fb_format n (kt, vt) ++ rest ->
     exists s', fb_ReadMapBegin s = (Ok (n, (kt, vt)), s') /\ view s' = rest /\ readable s').
Proof.
  intros Hr Hs Ht Hid Hn Hk Hv. split_and!; intros Hview.
  - by apply (fb_Read_reads sc Hs s rest).
  - by apply (fb_ReadFieldBegin_reads type id Ht Hid s rest).
  - apply (fb_ReadContainerBegin_reads n type Hn) with (rest := rest); [|done..].
    unfold fits. change (2 ^ 5) with 32. lia.
  - by apply (fb_ReadMapBegin_reads n kt vt Hn Hk Hv s rest).
Qed.

