(* ===== verification/CompactBinary.v ===== *)
(** Compact Binary protocol (cpp/inc/bond/protocol/compact_binary.h).

    Variable-length integers, ids packed with the type tag, and in version 2 a
    length before every struct.  A length precedes the bytes it counts, so a
    version 2 payload is written in two passes: the first runs the same
    serializer on an [OutputCounter] and records the lengths in the order the
    structs begin, the second writes them as it meets the structs again
    (cpp/inc/bond/core/detail/double_pass.h, cpp/inc/bond/core/apply.h).

    [_version] is fixed when a writer is built and, for a reader, by the
    constructor or [ReadVersion] before anything else is read; it is an argument
    of the operations here. *)

From S2P Require Import Prelude Checked SimpleArray Streams Encoding InputBuffer OutputCounter.
From S2P Require Import DataType Metadata Protocol Serializer.

(** * Writer *)

(** The members of [CompactBinaryWriter<Buffer>]: the output, the pointer [_it] into
    the lengths of the first pass (the array it points into and the index, or
    NULL), and the two arrays of the first pass. *)
Record CompactBinaryWriter (B : Type) : Type := mkCBW {
  cb_output : B;
  cb_it : option (SimpleArray Z * Z);
  cb_stack : SimpleArray Z;
  cb_lengths : SimpleArray Z
}.
Arguments mkCBW {B}.
Arguments cb_output {B}.
Arguments cb_it {B}.
Arguments cb_stack {B}.
Arguments cb_lengths {B}.

(** [SimpleArray<uint32_t>] holds 64 elements in place. *)
Definition array_new : SimpleArray Z := SimpleArray_new 64.

(** [CompactBinaryWriter(output, version)] and, for the first pass,
    [CompactBinaryWriter(counter, pass1)]. *)
Definition CompactBinaryWriter_new {B} (output : B) : CompactBinaryWriter B :=
  mkCBW output None array_new array_new.

Section Writer.
Context {B : Type} `{OutputStream B} (version : Z).

Definition cb_out {A} (m : M B A) : M (CompactBinaryWriter B) A :=
  zoom cb_output (fun o w => mkCBW o (cb_it w) (cb_stack w) (cb_lengths w)) m.
Definition on_stack {A} (m : M (SimpleArray Z) A) : M (CompactBinaryWriter B) A :=
  zoom cb_stack (fun a w => mkCBW (cb_output w) (cb_it w) a (cb_lengths w)) m.
Definition on_lengths {A} (m : M (SimpleArray Z) A) : M (CompactBinaryWriter B) A :=
  zoom cb_lengths (fun a w => mkCBW (cb_output w) (cb_it w) (cb_stack w) a) m.

Definition cb_WriteVersion : M (CompactBinaryWriter B) unit :=
  cb_out (os_Write 2 COMPACT_PROTOCOL ;;; os_Write 2 version).

(** [*_it++]. *)
Definition next_length : M (CompactBinaryWriter B) Z :=
  let! w := get in
  match cb_it w with
  | None => fail Undefined
  | Some (a, i) =>
      let! x := of_outcome (fst (get_at i a)) in
      put (mkCBW (cb_output w) (Some (a, i + 1)) (cb_stack w) (cb_lengths w)) ;;;
      ret x
  end.

(** [Write] for the basic types. *)
Definition cb_Write_uint32 (value : Z) : M (CompactBinaryWriter B) unit :=
  cb_out (os_WriteVariableUnsigned 32 value).
Definition cb_Write_uint8 (value : Z) : M (CompactBinaryWriter B) unit :=
  cb_out (os_Write 1 value).

Definition cb_Write (s : scalar) : M (CompactBinaryWriter B) unit :=
  match s with
  | SBool _ | SUInt W8 _ | SInt W8 _ | SFloat _ | SDouble _ => cb_out (Write_raw s)
  | SUInt w z => cb_out (os_WriteVariableUnsigned (bits_of w) z)
  | SInt w z => cb_out (os_WriteVariableUnsigned (bits_of w) (EncodeZigZag (bits_of w) z))
  | SString l | SWString l =>
      let length := string_length l in
      cb_Write_uint32 length ;;; cb_out (WriteStringData s length)
  end.

(** [LengthBegin(T&)] and [LengthEnd(T&)]: the second pass. *)
Definition LengthBegin : M (CompactBinaryWriter B) unit :=
  if v2 =? version then let! x := next_length in cb_Write_uint32 x else ret tt.
Definition LengthEnd : M (CompactBinaryWriter B) unit := ret tt.

Definition cb_WriteFieldBegin (type : BondDataType) (id : Z) : M (CompactBinaryWriter B) unit :=
  if id <=? 5 then cb_Write_uint8 (wrap 8 (Z.lor type (Z.shiftl id 5)))
  else if id <=? 0xff then
    cb_Write_uint8 (wrap 8 (Z.lor type (Z.shiftl 6 5))) ;;; cb_Write_uint8 (wrap 8 id)
  else
    cb_Write_uint8 (wrap 8 (Z.lor type (Z.shiftl 7 5))) ;;; cb_out (os_Write 2 id).
Definition cb_WriteFieldEnd : M (CompactBinaryWriter B) unit := ret tt.

Definition cb_WriteField (id : Z) (s : scalar) : M (CompactBinaryWriter B) unit :=
  cb_WriteFieldBegin (get_type_id (btype_of s)) id ;;; cb_Write s ;;; cb_WriteFieldEnd.

Definition cb_WriteContainerBegin (size : Z) (type : BondDataType) :
    M (CompactBinaryWriter B) unit :=
  if (v2 =? version) && (size <? 7) then
    cb_Write_uint8 (wrap 8 (Z.lor type (Z.shiftl (size + 1) 5)))
  else cb_Write_uint8 (wrap 8 type) ;;; cb_Write_uint32 size.
Definition cb_WriteMapBegin (size : Z) (type : BondDataType * BondDataType) :
    M (CompactBinaryWriter B) unit :=
  cb_Write_uint8 (wrap 8 (fst type)) ;;; cb_Write_uint8 (wrap 8 (snd type)) ;;;
  cb_Write_uint32 size.
Definition cb_WriteContainerEnd : M (CompactBinaryWriter B) unit := ret tt.

(** [WriteStructBegin] and [WriteStructEnd], whose [LengthBegin] and [LengthEnd] are
    overloaded on the type of the output. *)
Definition cb_WriteStructBegin (length_begin : M (CompactBinaryWriter B) unit) (base : bool) :
    M (CompactBinaryWriter B) unit :=
  if negb base then length_begin else ret tt.
Definition cb_WriteStructEnd (length_end : M (CompactBinaryWriter B) unit) (base : bool) :
    M (CompactBinaryWriter B) unit :=
  if base then cb_Write_uint8 (wrap 8 BT_STOP_BASE)
  else cb_Write_uint8 (wrap 8 BT_STOP) ;;; length_end.

Definition cb_writer (length_begin length_end : M (CompactBinaryWriter B) unit) :
    ProtocolWriter (CompactBinaryWriter B) := {|
  may_omit_fields := true;
  WriteVersion := cb_WriteVersion;
  WriteStructBegin := cb_WriteStructBegin length_begin;
  WriteStructEnd := cb_WriteStructEnd length_end;
  WriteField := cb_WriteField;
  WriteFieldBegin := cb_WriteFieldBegin;
  WriteFieldEnd := cb_WriteFieldEnd;
  WriteFieldOmitted := fun _ _ _ => ret tt;
  WriteContainerBegin := cb_WriteContainerBegin;
  WriteMapBegin := cb_WriteMapBegin;
  WriteContainerEnd := cb_WriteContainerEnd;
  Write := cb_Write
|}.

(** The writer for any output but the counter of the first pass. *)
Definition cb_pass1 : ProtocolWriter (CompactBinaryWriter B) := cb_writer LengthBegin LengthEnd.
End Writer.

(** [LengthBegin(Counter&)] and [LengthEnd(Counter&)]: the first pass.  The slot a
    struct takes in [_lengths] holds the count at its beginning until its end. *)
Definition Pass0 : Type := CompactBinaryWriter OutputCounter.

Definition LengthBegin0 : M Pass0 unit :=
  let! w := get in
  on_stack (push (size (cb_lengths w))) ;;;
  on_lengths (push (GetCount (cb_output w))).

Definition LengthEnd0 : M Pass0 unit :=
  let! i := on_stack pop in
  let! length := on_lengths (get_at i) in
  let! w := get in
  let length := wrap 32 (GetCount (cb_output w) - length) in
  on_lengths (set_at i length) ;;;
  cb_out (os_WriteVariableUnsigned 32 length).

Definition cb_pass0 (version : Z) : ProtocolWriter Pass0 :=
  cb_writer version LengthBegin0 LengthEnd0.

(** * Two passes *)

Section DoublePass.
Context {B : Type} `{OutputStream B} (version : Z).

Definition NeedPass0 : M (CompactBinaryWriter B) bool :=
  gets (fun w => (v2 =? version) && match cb_it w with None => true | Some _ => false end).

(** [WithPass0(pass0)], and the destructor of the [Pass1] it returns. *)
Definition set_it (it : option (SimpleArray Z * Z)) : M (CompactBinaryWriter B) unit :=
  modify (fun w => mkCBW (cb_output w) it (cb_stack w) (cb_lengths w)).

(** [m] and then the destructor, also when [m] throws. *)
Definition with_destructor (m : M (CompactBinaryWriter B) unit) :
    M (CompactBinaryWriter B) unit :=
  fun w => let '(o, w') := m w in (o, snd (set_it None w')).

(** [DoublePassApply]: a counter and a first-pass writer on the stack, then the
    payload itself.  [first] and [second] apply the serializer with either writer. *)
Definition DoublePassApply (first : M Pass0 unit) (second : M (CompactBinaryWriter B) unit) :
    M (CompactBinaryWriter B) unit :=
  let '(o, pass0) := first (CompactBinaryWriter_new OutputCounter_new) in
  of_outcome o ;;; with_destructor (set_it (Some (cb_lengths pass0, 0)) ;;; second).

(** [ApplyTransform(Serializer, value)].  A struct inside the value is written with
    [_it] set (or in version 1), so only the outermost one takes the first
    branch. *)
Definition ApplyTransform (first : M Pass0 unit) (second : M (CompactBinaryWriter B) unit) :
    M (CompactBinaryWriter B) unit :=
  let! need := NeedPass0 in if need then DoublePassApply first second else second.

(** An object: [StaticParser]. *)
Definition cb_Serialize (v : value) : M (CompactBinaryWriter B) unit :=
  ApplyTransform (Apply (cb_pass0 version) false v) (Apply (cb_pass1 version) false v).

(** [Marshaler::Marshal]. *)
Definition cb_Marshal (v : value) : M (CompactBinaryWriter B) unit :=
  cb_WriteVersion version ;;; cb_Serialize v.
End DoublePass.

(** * Wire format *)

Definition cb_scalar (s : scalar) : list byte :=
  match s with
  | SBool _ | SUInt W8 _ | SInt W8 _ | SFloat _ | SDouble _ => raw_bytes s
  | SUInt _ z => varint z
  | SInt w z => varint (EncodeZigZag (bits_of w) z)
  | SString l | SWString l => varint (zlen l) ++ string_bytes s
  end.

Definition cb_field (t id : Z) : list byte :=
  if id <=? 5 then [z2b (t + id * 32)]
  else if id <=? 255 then [z2b (t + 192); z2b id]
  else z2b (t + 224) :: le_bytes 2 id.

Definition cb_list (version n t : Z) : list byte :=
  if (v2 =? version) && (n <? 7) then [z2b (t + (n + 1) * 32)] else z2b t :: varint n.

Definition cb_format (version : Z) : wire_format := {|
  wf_scalar := cb_scalar;
  wf_field := cb_field;
  wf_stop base := [z2b (if base then BT_STOP_BASE else BT_STOP)];
  wf_list := cb_list version;
  wf_map n t := z2b (fst t) :: z2b (snd t) :: varint n;
  wf_prefix L := if v2 =? version then varint L else [];
  wf_counted := v2 =? version;
  wf_may_omit := true
|}.

(** * The writer keeps its laws *)

(** The elements of an array that are defined. *)
Definition contents (a : SimpleArray Z) : list Z :=
  omap id (take (Z.to_nat (sa_size a)) (sa_data a)).

Lemma holds_contents a l : holds a l -> contents a = l.
Proof.
  intros (Hs & _ & _ & Ht). unfold contents. rewrite Hs, Nat2Z.id, Ht.
  clear. induction l as [|x l IH]; [done|]. by rewrite fmap_cons; cbn [omap list_omap id]; f_equal.
Qed.

(** The lengths [_it] has not passed yet. *)
Definition pending {B} (w : CompactBinaryWriter B) : list Z :=
  match cb_it w with
  | None => []
  | Some (a, i) => drop (Z.to_nat i) (contents a)
  end.

Definition it_ok {B} (w : CompactBinaryWriter B) : Prop :=
  match cb_it w with
  | None => True
  | Some (a, i) => 0 <= i /\ exists l, holds a l
  end.

#[export] Instance CompactBinaryWriter_writable {B} `{Writable B} :
  Writable (CompactBinaryWriter B).
Proof.
  refine {| appends w bs w' := appends (cb_output w) bs (cb_output w') /\
              (cb_it w = None -> cb_it w' = None);
            room w n := room (cb_output w) n /\ it_ok w |}.
  - intros. split; [apply appends_nil|done].
  - intros w bs1 w1 bs2 w2 [A1 I1] [A2 I2]. split; [by eapply appends_app|auto].
  - intros w n m [Hr Hi] Hm. split; [by eapply room_weaken|done].
Defined.

Section WriterLaws.
Context {B : Type} `{OutputStreamLaws B} (version : Z).
(** A logic of either pass: what the output appends is accounted for. *)
Context (T : trace_logic (CompactBinaryWriter B)).
Context (cb_out_does : forall m bs, emits m bs -> does T [] (cb_out m) bs).

Lemma uint8_does z : does T [] (cb_Write_uint8 z) [z2b z].
Proof. apply cb_out_does. rewrite <-le_bytes_1. apply os_Write_emits. lia. Qed.

Lemma uint32_does z : fits 32 z ->
  does T [] (cb_Write_uint32 z) (varint z).
Proof. intros Hz. apply cb_out_does. by apply os_Var_emits; [right; left|]. Qed.

Lemma var_width_bits w : w <> W8 -> var_width (bits_of w).
Proof. unfold var_width. destruct w; simpl; intros; [done|lia..]. Qed.

(** In each direction the overload set splits the basic types three ways. *)
Lemma cb_Write_emits s : scalar_ok s ->
  (is_string_type (btype_of s) = false ->
     exists m, cb_Write (B := B) s = cb_out m /\ emits m (cb_scalar s)) /\
  (is_string_type (btype_of s) = true ->
     cb_Write (B := B) s = (cb_Write_uint32 (zlen (string_units s)) ;;;
                    cb_out (WriteStringData s (zlen (string_units s)))) /\
     cb_scalar s = varint (zlen (string_units s)) ++ string_bytes s).
Proof.
  intros Hok. split; intros Hs.
  - destruct s as [b|w z|w z|z|z|l|l]; try discriminate Hs.
    + eexists; split; [reflexivity|]. by apply Write_raw_emits.
    + destruct (decide (w = W8)) as [->|Hw].
      * eexists; split; [reflexivity|]. by apply Write_raw_emits.
      * exists (os_WriteVariableUnsigned (bits_of w) z). split; [by destruct w|].
        replace (cb_scalar (SUInt w z)) with (varint z) by (by destruct w).
        apply os_Var_emits; [by apply var_width_bits|done].
    + destruct (decide (w = W8)) as [->|Hw].
      * eexists; split; [reflexivity|]. by apply Write_raw_emits.
      * exists (os_WriteVariableUnsigned (bits_of w) (EncodeZigZag (bits_of w) z)).
        split; [by destruct w|].
        replace (cb_scalar (SInt w z)) with (varint (EncodeZigZag (bits_of w) z))
          by (by destruct w).
        apply os_Var_emits; [by apply var_width_bits|]. apply wrap_fits. by destruct w.
    + eexists; split; [reflexivity|]. by apply Write_raw_emits.
    + eexists; split; [reflexivity|]. by apply Write_raw_emits.
  - destruct s as [b|w z|w z|z|z|l|l]; try discriminate Hs; destruct Hok as [_ Hl];
      unfold cb_Write; cbv zeta; rewrite string_length_id by done; done.
Qed.

(** [type | (bits << 5)] for a type of five bits. *)
Lemma tag_byte t i : fits 5 t -> 0 <= i < 8 ->
  Z.lor t (Z.shiftl i 5) = t + i * 32 /\ wrap 8 (t + i * 32) = t + i * 32.
Proof.
  intros Ht Hi. unfold fits in Ht. change (2 ^ 5) with 32 in Ht. split.
  - rewrite Z.shiftl_mul_pow2 by lia. change (2 ^ 5) with 32.
    symmetry. apply Z.add_nocarry_lor.
    replace t with (t mod 2 ^ 5) by (apply Z.mod_small; change (2 ^ 5) with 32; lia).
    change 32 with (2 ^ 5). rewrite <-Z.shiftl_mul_pow2 by lia.
    apply Z.bits_inj'. intros k Hk. rewrite Z.land_spec, Z.bits_0.
    destruct (decide (k < 5)).
    + rewrite (Z.shiftl_spec_low _ _ k) by lia. by rewrite andb_false_r.
    + by rewrite Z.mod_pow2_bits_high by lia.
  - apply wrap_id. unfold fits. change (2 ^ 8) with 256. lia.
Qed.

Lemma cb_WriteFieldBegin_emits t id : fits 5 t -> fits 16 id ->
  does T [] (cb_WriteFieldBegin (B := B) t id) (cb_field t id).
Proof.
  intros Ht Hid. unfold cb_WriteFieldBegin, cb_field. unfold fits in Hid.
  destruct (id <=? 5) eqn:E1; [|destruct (id <=? 255) eqn:E2].
  - apply Z.leb_le in E1. destruct (tag_byte t id Ht ltac:(lia)) as [-> ->]. apply uint8_does.
  - apply Z.leb_gt in E1. apply Z.leb_le in E2.
    destruct (tag_byte t 6 Ht ltac:(lia)) as [-> ->].
    rewrite (wrap_id 8 id) by (unfold fits; change (2 ^ 8) with 256; lia).
    apply (does_bind0 _ _ _ [] [z2b (t + 192)] [z2b id]); apply uint8_does.
  - destruct (tag_byte t 7 Ht ltac:(lia)) as [-> ->].
    apply (does_bind0 _ _ _ [] [z2b (t + 224)] (le_bytes 2 id)); [apply uint8_does|].
    apply cb_out_does, os_Write_emits. lia.
Qed.

Lemma cb_WriteContainerBegin_emits n t : fits 32 n -> fits 5 t ->
  does T [] (cb_WriteContainerBegin (B := B) version n t)
    (cb_list version n t).
Proof.
  intros Hn Ht. unfold cb_WriteContainerBegin, cb_list. unfold fits in Hn.
  destruct ((v2 =? version) && (n <? 7)) eqn:E.
  - apply andb_true_iff in E as [_ E]. apply Z.ltb_lt in E.
    destruct (tag_byte t (n + 1) Ht ltac:(lia)) as [-> ->]. apply uint8_does.
  - rewrite <-z2b_wrap. change (?b :: ?l) with ([b] ++ l).
    apply does_bind0; [apply uint8_does|by apply uint32_does].
Qed.


Lemma cb_Write_does s : scalar_ok s -> does T [] (cb_Write (B := B) s) (cb_scalar s).
Proof.
  intros Hok. destruct (cb_Write_emits s Hok) as [Hfixed Hstring].
  destruct (is_string_type (btype_of s)) eqn:E.
  - destruct (Hstring eq_refl) as [-> ->].
    assert (Hl : zlen (string_units s) < 2 ^ 32)
      by (destruct s as [| | | | |l|l]; try done; apply Hok).
    apply does_bind0; [by apply uint32_does, zlen_fits|].
    by apply cb_out_does, WriteStringData_emits.
  - destruct (Hfixed eq_refl) as (m & -> & Hm). by apply cb_out_does.
Qed.

Lemma cb_WriteMapBegin_does n kt vt : fits 32 n ->
  does T [] (cb_WriteMapBegin (B := B) n (kt, vt)) (wf_map (cb_format version) n (kt, vt)).
Proof.
  intros Hn. change (wf_map _ n (kt, vt)) with ([z2b kt] ++ [z2b vt] ++ varint n).
  rewrite <-(z2b_wrap kt), <-(z2b_wrap vt).
  repeat (apply does_bind0; [apply uint8_does|]). by apply uint32_does.
Qed.

(** A writer whose struct brackets are right is right. *)
Lemma cb_writer_laws length_begin length_end :
  (forall m ls bs, does T ls m bs -> fits 32 (zlen (bs ++ [z2b BT_STOP])) ->
     does T ((if v2 =? version then [zlen (bs ++ [z2b BT_STOP])] else []) ++ ls)
       (length_begin ;;; m ;;; cb_Write_uint8 (wrap 8 BT_STOP) ;;; length_end)
       ((if v2 =? version then varint (zlen (bs ++ [z2b BT_STOP])) else []) ++
        bs ++ [z2b BT_STOP])) ->
  writer_laws T (cb_writer version length_begin length_end) (cb_format version).
Proof.
  intros Hstruct. split.
  - done.
  - intros m ls bs Hm. apply (does_bind0 T _ _ ls [] (bs ++ _)); [apply does_nil|].
    rewrite <-(app_nil_r ls). apply does_bind; [done|].
    change (wf_stop (cb_format version) true) with [z2b BT_STOP_BASE]. rewrite <-z2b_wrap.
    apply uint8_does.
  - change (wf_stop (cb_format version) true) with [z2b BT_STOP_BASE]. rewrite <-z2b_wrap.
    apply uint8_does.
  - exact Hstruct.
  - intros id s Hid Hok. apply does_bind0.
    + apply cb_WriteFieldBegin_emits; [|done].
      pose proof (type_of_range (VBasic s)) as Hr. simpl in Hr.
      unfold fits. change (2 ^ 5) with 32. lia.
    + apply does_then; [by apply cb_Write_does|apply does_nil].
  - intros t id Ht Hid. by apply cb_WriteFieldBegin_emits.
  - apply does_nil.
  - intros t id m _. apply does_nil.
  - intros n t Hn Ht. by apply cb_WriteContainerBegin_emits.
  - intros n kt vt Hn _ _. by apply cb_WriteMapBegin_does.
  - apply does_nil.
  - intros s Hok. by apply cb_Write_does.
Qed.
End WriterLaws.

(** ** The second pass *)

Section Pass1.
Context {B : Type} `{OutputStreamLaws B} (version : Z).

Lemma cb_out_does (m : M B unit) bs : emits m bs ->
  does (lens_logic pending) [] (cb_out m) bs.
Proof.
  intros Hm w n rest [Hr Hi] Hn Hp. destruct (Hm (cb_output w) n Hr Hn) as (o' & E & A & R).
  exists (mkCBW o' (cb_it w) (cb_stack w) (cb_lengths w)). unfold cb_out.
  rewrite (zoom_ok _ _ _ _ _ _ E). split_and!; [done|by split|by split|done].
Qed.

(** The second pass hands out the next length. *)
Lemma LengthBegin_does L : fits 32 L ->
  does (lens_logic pending) (if v2 =? version then [L] else []) (LengthBegin (B := B) version)
    (if v2 =? version then varint L else []).
Proof.
  intros HL. unfold LengthBegin. destruct (v2 =? version); [|apply does_nil].
  intros w n rest [Hr Hi] Hn Hp. unfold pending, it_ok in Hp, Hi.
  destruct (cb_it w) as [[a i]|] eqn:Hit; [|discriminate Hp].
  destruct Hi as [Hi0 [l Hl]]. rewrite (holds_contents a l Hl) in Hp.
  assert (Hlk : l !! Z.to_nat i = Some L).
  { rewrite <-(Nat.add_0_r (Z.to_nat i)), <-lookup_drop, Hp. done. }
  pose proof (get_at_spec a l (Z.to_nat i) L Hl Hlk) as Hg. rewrite Z2Nat.id in Hg by done.
  set (w1 := mkCBW (cb_output w) (Some (a, i + 1)) (cb_stack w) (cb_lengths w)).
  assert (Hnext : next_length w = (Ok L, w1)).
  { unfold next_length. rewrite bind_get, Hit.
    rewrite (bind_of_outcome_ok _ L) by (by rewrite Hg). by mrun. }
  rewrite (bind_ok _ _ _ _ _ Hnext).
  assert (Hrest : rest = drop (Z.to_nat (i + 1)) l).
  { replace (Z.to_nat (i + 1)) with (Z.to_nat i + 1)%nat by lia.
    by rewrite <-drop_drop, Hp. }
  destruct (uint32_does _ cb_out_does L HL w1 n rest) as (w' & E & [A _] & R & P); [|done| |].
  - split; [exact Hr|]. simpl. split; [lia|by exists l].
  - unfold pending. simpl. by rewrite (holds_contents a l Hl).
  - exists w'. split_and!; [done| |done|done]. split; [exact A|]. by rewrite Hit.
Qed.


Lemma cb_pass1_laws : writer_laws (lens_logic pending) (cb_pass1 (B := B) version)
  (cb_format version).
Proof.
  apply cb_writer_laws; [apply cb_out_does|]. intros m ls bs Hm Hl.
  apply (does_bind (lens_logic pending)); [by apply LengthBegin_does|].
  rewrite <-(app_nil_r ls). apply (does_bind (lens_logic pending)); [done|].
  apply does_then; [|apply does_nil]. rewrite <-z2b_wrap. by apply uint8_does, cb_out_does.
Qed.
End Pass1.

(** ** The first pass *)

(** [m] counts the bytes [bs] and appends [ls] to the lengths; the stack is as
    before.  The bounds are those of the counter and of the arrays. *)
Definition counts (ls : list Z) (m : M Pass0 unit) (bs : list byte) : Prop :=
  forall s st l0,
  holds (cb_stack s) st -> holds (cb_lengths s) l0 ->
  0 <= GetCount (cb_output s) -> GetCount (cb_output s) + zlen bs < 2 ^ 32 ->
  zlen st + zlen ls < 2 ^ 31 -> zlen l0 + zlen ls < 2 ^ 31 ->
  exists s', m s = (Ok tt, s') /\ holds (cb_stack s') st /\
    holds (cb_lengths s') (l0 ++ ls) /\
    GetCount (cb_output s') = GetCount (cb_output s) + zlen bs.

Program Definition count_logic : trace_logic Pass0 := {| does := counts |}.
Next Obligation.
  intros s st l0 Hs Hl Hc _ _ _. exists s. rewrite app_nil_r. split_and!; try done. simpl. lia.
Qed.
Next Obligation.
  intros m1 m2 ls1 ls2 bs1 bs2 H1 H2 s st l0 Hs Hl H0 Hc Hst Hl0.
  rewrite length_app in Hc, Hst, Hl0.
  destruct (H1 s st l0 Hs Hl H0) as (s1 & E1 & S1 & L1 & C1); [lia..|].
  destruct (H2 s1 st _ S1 L1) as (s2 & E2 & S2 & L2 & C2); [rewrite ?length_app; lia..|].
  exists s2. mrun. rewrite <-app_assoc in L2. split_and!; [done..|].
  rewrite C2, C1, length_app. lia.
Qed.
Next Obligation.
  intros m1 m2 ls bs He H1 s st l0 Hs Hl H0 Hc Hst Hl0.
  destruct (H1 s st l0 Hs Hl H0 Hc Hst Hl0) as (s' & E & H'). exists s'.
  split; [by apply He|done].
Qed.

Lemma count_out_does (m : M OutputCounter unit) bs : emits m bs ->
  does count_logic [] (cb_out m) bs.
Proof.
  intros Hm s st l0 Hs Hl H0 Hc _ _.
  destruct (Hm (cb_output s) (zlen bs)) as (o' & E & A & _); [simpl; unfold GetCount in *; lia|lia|].
  eexists. unfold cb_out. rewrite (zoom_ok _ _ _ _ _ _ E).
  rewrite app_nil_r. by split_and!.
Qed.

Lemma zoom_stack (m : M (SimpleArray Z) Z) (w : Pass0) x a :
  m (cb_stack w) = (Ok x, a) ->
  on_stack m w = (Ok x, mkCBW (cb_output w) (cb_it w) a (cb_lengths w)).
Proof. intros Hm. unfold on_stack. by erewrite zoom_ok by exact Hm. Qed.

(** Beginning a struct reserves the slot of its length. *)
Lemma LengthBegin0_run s st l0 :
  holds (cb_stack s) st -> holds (cb_lengths s) l0 ->
  zlen st < 2 ^ 31 - 1 -> zlen l0 < 2 ^ 31 - 1 ->
  exists s', LengthBegin0 s = (Ok tt, s') /\ cb_output s' = cb_output s /\
    holds (cb_stack s') (st ++ [zlen l0]) /\
    holds (cb_lengths s') (l0 ++ [GetCount (cb_output s)]).
Proof.
  intros Hs Hl Hst Hl0. unfold LengthBegin0. rewrite bind_get.
  replace (size (cb_lengths s)) with (zlen l0) by (symmetry; apply Hl).
  destruct (push_spec _ _ (zlen l0) Hs Hst) as (a1 & E1 & H1).
  destruct (push_spec _ _ (GetCount (cb_output s)) Hl Hl0) as (a2 & E2 & H2).
  unfold on_stack. rewrite (bind_ok _ _ _ _ _ (zoom_ok _ _ _ _ _ _ E1)).
  unfold on_lengths. erewrite zoom_ok by exact E2.
  by eexists; split; [reflexivity|].
Qed.

(** Ending it stores the difference of the counts there and counts the prefix. *)
Lemma LengthEnd0_run s st l0 ls c L :
  holds (cb_stack s) (st ++ [zlen l0]) -> holds (cb_lengths s) (l0 ++ [c] ++ ls) ->
  0 <= c -> GetCount (cb_output s) = c + L -> fits 32 L ->
  c + L + zlen (varint L) < 2 ^ 32 ->
  exists s', LengthEnd0 s = (Ok tt, s') /\ holds (cb_stack s') st /\
    holds (cb_lengths s') (l0 ++ [L] ++ ls) /\
    GetCount (cb_output s') = c + L + zlen (varint L).
Proof.
  intros Hs Hl H0 Hc HL Hlim. unfold LengthEnd0.
  destruct (pop_spec _ _ _ Hs) as (a1 & E1 & H1).
  rewrite (bind_ok _ _ _ _ _ (zoom_stack _ _ _ _ E1)).
  assert (Hg : get_at (zlen l0) (cb_lengths s) = (Ok c, cb_lengths s)).
  { apply (get_at_spec _ _ (length l0) _ Hl).
    rewrite lookup_app_r, Nat.sub_diag by lia. done. }
  assert (Hgz : on_lengths (get_at (zlen l0))
      (mkCBW (cb_output s) (cb_it s) a1 (cb_lengths s)) =
    (Ok c, mkCBW (cb_output s) (cb_it s) a1 (cb_lengths s))).
  { unfold on_lengths. by erewrite zoom_ok by exact Hg. }
  rewrite (bind_ok _ _ _ _ _ Hgz), bind_get. cbn [cb_output].
  rewrite Hc. replace (c + L - c) with L by lia. rewrite (wrap_id 32 L) by done. cbv zeta.
  destruct (set_at_spec _ _ (length l0) L Hl) as (a2 & E2 & H2);
    [rewrite !length_app; simpl; lia|].
  assert (Hsz : on_lengths (set_at (zlen l0) L)
      (mkCBW (cb_output s) (cb_it s) a1 (cb_lengths s)) =
    (Ok tt, mkCBW (cb_output s) (cb_it s) a1 a2)).
  { unfold on_lengths. by erewrite zoom_ok by exact E2. }
  rewrite (bind_ok _ _ _ _ _ Hsz).
  assert (Hvar : emits (os_WriteVariableUnsigned (S := OutputCounter) 32 L) (varint L))
    by (by apply os_Var_emits; [right; left|]).
  destruct (Hvar (cb_output s) (zlen (varint L))) as (o' & E & A & _);
    [simpl; unfold GetCount, fits in *; lia|lia|].
  unfold cb_out. erewrite zoom_ok by exact E. eexists. split; [reflexivity|]. simpl.
  split_and!; [done| |simpl in A; unfold GetCount in *; lia].
  rewrite insert_app_r_alt, Nat.sub_diag in H2 by lia. exact H2.
Qed.

Lemma cb_pass0_laws : writer_laws count_logic (cb_pass0 v2) (cb_format v2).
Proof.
  apply cb_writer_laws; [apply count_out_does|]. change (v2 =? v2) with true. cbv iota.
  intros m ls bs Hm HL s st l0 Hs Hl H0 Hc Hst Hl0. set (L := zlen (bs ++ [z2b BT_STOP])) in *.
  assert (HLl : L = zlen bs + 1) by (unfold L; rewrite length_app; simpl; lia).
  assert (Htot : zlen (varint L ++ bs ++ [z2b BT_STOP]) = zlen (varint L) + L)
    by (rewrite length_app; unfold L; lia).
  rewrite Htot in *. clearbody L. cbn [length app] in Hst, Hl0.
  destruct (LengthBegin0_run s st l0 Hs Hl) as (s1 & E1 & O1 & S1 & L1); [lia..|]. mrun.
  destruct (Hm s1 _ _ S1 L1) as (s2 & E2 & S2 & L2 & C2);
    [rewrite ?O1, ?length_app; simpl; lia..|]. mrun.
  assert (Hstop : does count_logic [] (cb_Write_uint8 (wrap 8 BT_STOP)) [z2b BT_STOP]).
  { rewrite <-z2b_wrap. apply uint8_does, count_out_does. }
  rewrite O1 in C2.
  destruct (Hstop s2 _ _ S2 L2) as (s3 & E3 & S3 & L3 & C3);
    [rewrite ?length_app; simpl; lia..|]. mrun.
  rewrite app_nil_r, <-app_assoc in L3. simpl in C3.
  destruct (LengthEnd0_run s3 st l0 ls (GetCount (cb_output s)) L S3 L3 H0)
    as (s4 & E4 & S4 & L4 & C4); [lia|done|lia|].
  exists s4. split_and!; [done..|]. lia.
Qed.

(** ** Both passes *)

(** A struct takes at least two bytes, its prefix and its stop. *)
Lemma varint_pos z : 1 <= zlen (varint z).
Proof. pose proof (varint_length_pos z). lia. Qed.

Lemma concat_bound {A} (h : A -> list Z) (g : A -> list byte) l :
  Forall (fun x => 2 * zlen (h x) <= zlen (g x)) l ->
  2 * zlen (concat (h <$> l)) <= zlen (concat (g <$> l)).
Proof.
  induction 1 as [|x l Hx _ IH]; [simpl; lia|].
  rewrite !fmap_cons. cbn [concat]. rewrite !length_app. lia.
Qed.

Lemma lens_bound v base :
  2 * zlen (lens (cb_format v2) base v) <= zlen (encode (cb_format v2) base v).
Proof.
  revert base.
  induction v as [s|b fields Hb Hf|k t items Hi|kt vt items Hi] using value_ind_nested;
    intros base.
  - simpl. lia.
  - rewrite encode_struct. cbn [lens].
    assert (Hfs : 2 * zlen (concat ((fun f => if omitted (cb_format v2) f then []
        else lens (cb_format v2) false (snd f)) <$> fields)) <=
      zlen (fields_bytes (cb_format v2) fields)).
    { apply concat_bound. eapply Forall_impl; [|exact Hf]. intros f Hx.
      unfold field_bytes. case_match; [simpl; lia|]. rewrite length_app. specialize (Hx false).
      lia. }
    assert (Hbs : 2 * zlen (match b with Some bv => lens (cb_format v2) true bv | None => [] end)
      <= zlen (match b with Some bv => encode (cb_format v2) true bv | None => [] end)).
    { destruct b as [bv|]; [by apply Hb|simpl; lia]. }
    assert (Hbody : forall x, 2 + zlen (match b with
        Some bv => encode (cb_format v2) true bv | None => [] end) +
      zlen (fields_bytes (cb_format v2) fields) <=
      zlen (varint x) + zlen (body_of (cb_format v2) base b fields)).
    { intros x. pose proof (varint_pos x). unfold body_of. rewrite !length_app. simpl. lia. }
    rewrite !length_app. destruct base; cbn [wf_counted wf_prefix cb_format].
    + unfold body_of. rewrite !length_app. simpl. lia.
    + change (v2 =? v2) with true. cbv iota. rewrite length_app. cbn [length].
      specialize (Hbody (zlen (body_of (cb_format v2) false b fields))). lia.
  - cbn [lens encode]. rewrite length_app. etrans; [|apply Nat2Z.inj_le, Nat.le_add_l].
    apply concat_bound. eapply Forall_impl; [|exact Hi]. intros x Hx. apply Hx.
  - cbn [lens encode]. rewrite length_app. etrans; [|apply Nat2Z.inj_le, Nat.le_add_l].
    apply concat_bound. eapply Forall_impl; [|exact Hi]. intros [x y] [Hx Hy].
    cbn [fst snd] in *. rewrite !length_app. specialize (Hx false). specialize (Hy false). lia.
Qed.

Lemma array_new_holds : holds array_new [].
Proof. apply holds_new. lia. Qed.

(** The first pass finds the lengths, all of them and in order. *)
Lemma pass0_run first ls bs : does count_logic ls first bs -> 2 * zlen ls <= zlen bs ->
  zlen bs < 2 ^ 32 ->
  exists p, first (CompactBinaryWriter_new OutputCounter_new) = (Ok tt, p) /\
    holds (cb_lengths p) ls /\ GetCount (cb_output p) = zlen bs.
Proof.
  intros Hw Hb Hl.
  assert (Hlt : zlen ls < 2 ^ 31) by (change (2 ^ 32) with (2 * 2 ^ 31) in Hl; lia).
  destruct (Hw (CompactBinaryWriter_new OutputCounter_new) [] []) as (p & E & _ & L & C);
    [apply array_new_holds|apply array_new_holds|simpl; lia|simpl; lia|simpl; lia|simpl; lia|].
  exists p. split_and!; [done|done|]. rewrite C. simpl. lia.
Qed.

Section Serialize.
Context {B : Type} `{OutputStreamLaws B}.

(** The two passes together: the second finds the lengths at hand. *)
Lemma ApplyTransform_run version first second ls bs (w : CompactBinaryWriter B) n :
  version = v1 \/ version = v2 -> (version = v1 -> ls = []) ->
  (version = v2 -> does count_logic ls first bs /\ 2 * zlen ls <= zlen bs) ->
  does (lens_logic pending) ls second bs -> zlen bs < 2 ^ 32 ->
  cb_it w = None -> room (cb_output w) n -> zlen bs <= n ->
  exists w', ApplyTransform version first second w = (Ok tt, w') /\
    appends (cb_output w) bs (cb_output w') /\ room (cb_output w') (n - zlen bs) /\
    cb_it w' = None.
Proof.
  intros Hver Hls Hfst Hsnd Hl Hit Hr Hn. unfold ApplyTransform, NeedPass0. rewrite bind_gets, Hit.
  destruct Hver as [-> | ->].
  - change ((v2 =? v1) && true) with false. cbv iota. rewrite (Hls eq_refl) in *.
    destruct (Hsnd w n []) as (w' & E & [A I] & [R _] & _); [|done| |].
    + split; [done|]. unfold it_ok. by rewrite Hit.
    + unfold pending. by rewrite Hit.
    + exists w'. auto.
  - change ((v2 =? v2) && true) with true. cbv iota. unfold DoublePassApply.
    destruct (Hfst eq_refl) as [Hfirst Hb].
    destruct (pass0_run _ _ _ Hfirst Hb Hl) as (p & -> & Hlens & _).
    rewrite (bind_of_outcome_ok _ tt) by done. unfold with_destructor, set_it.
    rewrite bind_modify.
    set (w1 := mkCBW (cb_output w) (Some (cb_lengths p, 0)) (cb_stack w) (cb_lengths w)).
    destruct (Hsnd w1 n []) as (w' & E & [A _] & [R _] & _); [|done| |].
    + split; [exact Hr|]. split; [lia|by eexists].
    + unfold pending. simpl. by rewrite (holds_contents _ _ Hlens), drop_0, app_nil_r.
    + rewrite E. eexists. split_and!; [reflexivity|exact A|exact R|done].
Qed.

Lemma cb_Serialize_run version v (w : CompactBinaryWriter B) n :
  version = v1 \/ version = v2 -> value_ok v ->
  zlen (encode (cb_format version) false v) < 2 ^ 32 ->
  cb_it w = None -> room (cb_output w) n -> zlen (encode (cb_format version) false v) <= n ->
  exists w', cb_Serialize version v w = (Ok tt, w') /\
    appends (cb_output w) (encode (cb_format version) false v) (cb_output w') /\
    room (cb_output w') (n - zlen (encode (cb_format version) false v)) /\ cb_it w' = None.
Proof.
  intros Hver Hok Hl Hit Hr Hn.
  apply (ApplyTransform_run version _ _ (lens (cb_format version) false v)); try done.
  - intros ->. by apply uncounted_lens.
  - intros ->. split; [|apply lens_bound]. by apply (Apply_written _ _ _ cb_pass0_laws v Hok).
  - by apply (Apply_written _ _ _ (cb_pass1_laws version) v Hok).
Qed.

(** C2: serializing with a Compact Binary writer, version 1 or 2, writes exactly the
    payload of the wire format on any output with room for it.  In version 2 the
    length in front of every struct, nested and repeated ones included, is the
    byte length of its body: the two passes agree on the order of the structs,
    and the first pass counts what the second one writes.  The writer can be used
    for another payload afterwards. *)
Theorem compact_binary_serializes version v (w : CompactBinaryWriter B) n :
  version = v1 \/ version = v2 -> value_ok v ->
  zlen (encode (cb_format version) false v) < 2 ^ 32 ->
  cb_it w = None -> room (cb_output w) n -> zlen (encode (cb_format version) false v) <= n ->
  exists w', cb_Serialize version v w = (Ok tt, w') /\
    appends (cb_output w) (encode (cb_format version) false v) (cb_output w') /\
    room (cb_output w') (n - zlen (encode (cb_format version) false v)) /\ cb_it w' = None.
Proof. apply cb_Serialize_run. Qed.
End Serialize.

Lemma compact_binary_serializes_witness :
  exists w', cb_Serialize v2 sample (CompactBinaryWriter_new (mkOC 0)) = (Ok tt, w') /\
    appends (mkOC 0) (encode (cb_format v2) false sample) (cb_output w').
Proof.
  destruct (compact_binary_serializes v2 sample (CompactBinaryWriter_new (mkOC 0)) 1000
    (or_intror eq_refl) sample_ok) as (w' & E & A & _);
    [by vm_compute|done|by vm_compute|by vm_compute|].
  exists w'. exact (conj E A).
Defined.
