(* ===== verification/CompactBinaryReader.v ===== *)
(** Compact Binary protocol, the reader (cpp/inc/bond/protocol/compact_binary.h,
    [CompactBinaryReader]): headers, values, and the skipping of both versions, by
    length in version 2. *)

From S2P Require Import Prelude Checked Streams Encoding InputBuffer DataType Metadata.
From S2P Require Import Protocol Serializer Skipping CompactBinary.

Section Reader.
Context {R : Type} `{InputStream R} (version : Z).

(** [ReadVersion]: the version read becomes [_version]. *)
Definition cb_ReadVersion (multiple_versions : bool) : M R (bool * Z) :=
  let! magic_value := is_Read 2 in
  let! new_version := is_Read 2 in
  ret ((magic_value =? COMPACT_PROTOCOL) &&
       (if multiple_versions then new_version <=? v2 else new_version =? v1), new_version).

(** [Read] for the basic types. *)
Definition cb_Read_uint32 : M R Z := is_ReadVariableUnsigned 32.

Definition cb_Read (t : btype) : M R scalar :=
  match t with
  | TBool | TUInt W8 | TInt W8 | TFloat | TDouble => Read_raw t
  | TUInt w => let! z := is_ReadVariableUnsigned (bits_of w) in ret (SUInt w z)
  | TInt w =>
      let! unsigned_value := is_ReadVariableUnsigned (bits_of w) in
      ret (SInt w (DecodeZigZag (bits_of w) unsigned_value))
  | TString | TWString => let! length := cb_Read_uint32 in ReadStringData t length
  end.

Definition cb_ReadStructBegin (base : bool) : M R unit :=
  if negb base && (v2 =? version) then let! _ := cb_Read_uint32 in ret tt else ret tt.
Definition cb_ReadStructEnd (base : bool) : M R unit := ret tt.

Definition cb_ReadFieldBegin : M R (BondDataType * Z) :=
  let! raw := is_Read 1 in
  let type := Z.land raw 0x1f in
  let id := Z.land raw (Z.shiftl 7 5) in
  if id =? Z.shiftl 7 5 then let! id := is_Read 2 in ret (type, id)
  else if id =? Z.shiftl 6 5 then let! raw := is_Read 1 in ret (type, raw)
  else ret (type, Z.shiftr id 5).
Definition cb_ReadFieldEnd : M R unit := ret tt.

Definition cb_ReadContainerBegin : M R (Z * BondDataType) :=
  let! raw := is_Read 1 in
  let type := Z.land raw 0x1f in
  if (v2 =? version) && negb (Z.land raw (Z.shiftl 7 5) =? 0)
  then ret (wrap 32 (Z.shiftr raw 5 - 1), type)
  else let! size := cb_Read_uint32 in ret (size, type).
Definition cb_ReadMapBegin : M R (Z * (BondDataType * BondDataType)) :=
  let! first := is_Read 1 in
  let! second := is_Read 1 in
  let! size := cb_Read_uint32 in ret (size, (first, second)).
Definition cb_ReadContainerEnd : M R unit := ret tt.

(** Any integer is skipped as a [uint64_t]. *)
Definition cb_SkipType_integer : M R unit := is_ReadVariableUnsigned 64 ;;; ret tt.
Definition cb_SkipType_string : M R unit := let! length := cb_Read_uint32 in is_Skip length.
Definition cb_SkipType_wstring : M R unit :=
  let! length := cb_Read_uint32 in
  let! n := of_outcome (checked_multiply 32 length 2) in is_Skip n.
Definition SkipStructV2 : M R unit := let! length := cb_Read_uint32 in is_Skip length.

Fixpoint cb_SkipType (fuel : nat) (type : BondDataType) (size : option Z) : M R unit :=
  match fuel with
  | O => fail OutOfFuel
  | S fuel' =>
      let SkipStructV1 :=
        skip_struct cb_ReadFieldBegin (cb_ReadStructBegin false)
          (fun t => cb_SkipType fuel' t None) fuel' in
      if (type =? BT_BOOL) || (type =? BT_UINT8) || (type =? BT_INT8) then skip_fixed 1 size
      else if (type =? BT_UINT64) || (type =? BT_UINT32) || (type =? BT_UINT16) ||
              (type =? BT_INT64) || (type =? BT_INT32) || (type =? BT_INT16)
      then skip_times size cb_SkipType_integer
      else if type =? BT_FLOAT then skip_fixed 4 size
      else if type =? BT_DOUBLE then skip_fixed 8 size
      else if type =? BT_STRING then skip_times size cb_SkipType_string
      else if type =? BT_WSTRING then skip_times size cb_SkipType_wstring
      else if (type =? BT_SET) || (type =? BT_LIST) then
        skip_times size (let! h := cb_ReadContainerBegin in
               cb_SkipType fuel' (snd h) (Some (fst h)) ;;; cb_ReadContainerEnd)
      else if type =? BT_MAP then
        skip_times size (let! h := cb_ReadMapBegin in
               repeatM (Z.to_nat (fst h))
                 (cb_SkipType fuel' (fst (snd h)) None ;;;
                  cb_SkipType fuel' (snd (snd h)) None) ;;;
               cb_ReadContainerEnd)
      else if type =? BT_STRUCT then
        skip_times size (if v2 =? version then SkipStructV2 else SkipStructV1)
      else ret tt
  end.

Definition cb_Skip (type : BondDataType) : M R unit :=
  fun s => cb_SkipType (3 + length (view s)) type None s.
End Reader.

(** * Reading back *)

Lemma land_31 x : Z.land x 0x1f = x mod 32.
Proof. apply (Z.land_ones x 5). lia. Qed.

Lemma land_224 x : 0 <= x < 256 -> Z.land x 224 = x / 32 * 32.
Proof.
  intros Hx.
  assert (Hall : forallb (fun n => Z.eqb (Z.land n 224) (n / 32 * 32)) (seqZ 0 256) = true)
    by by vm_compute.
  rewrite forallb_forall in Hall. apply Z.eqb_eq, Hall.
  apply list_elem_of_In, elem_of_seqZ. lia.
Qed.

(** The three fields of a tag byte. *)
Lemma tag_parts t i : fits 5 t -> 0 <= i < 8 ->
  Z.land (t + i * 32) 0x1f = t /\ Z.land (t + i * 32) (Z.shiftl 7 5) = i * 32 /\
  Z.shiftr (t + i * 32) 5 = i /\ 0 <= t + i * 32 < 256.
Proof.
  intros Ht Hi. unfold fits in Ht. change (2 ^ 5) with 32 in Ht.
  change (Z.shiftl 7 5) with 224. rewrite land_31, land_224 by lia.
  rewrite Z.shiftr_div_pow2 by lia. change (2 ^ 5) with 32.
  rewrite Z.mod_add, Z.div_add, (Z.mod_small t), (Z.div_small t) by lia. lia.
Qed.

Section ReaderCorrect.
Context {R : Type} `{InputStreamLaws R} (version : Z).

Lemma cb_read_uint32_reads z : fits 32 z -> reads (cb_Read_uint32 (R := R)) (varint z) z.
Proof. intros Hz. by apply is_Var_reads; [right; left|]. Qed.

Lemma cb_Read_reads s : scalar_ok s -> reads (cb_Read (R := R) (btype_of s)) (cb_scalar s) s.
Proof.
  intros Hok. assert (Hstring : is_string_type (btype_of s) = true ->
    reads (let! length := cb_Read_uint32 in ReadStringData (S := R) (btype_of s) length)
      (varint (zlen (string_units s)) ++ string_bytes s) s).
  { intros Hs. eapply reads_bind; [|by apply ReadStringData_reads].
    apply cb_read_uint32_reads, zlen_fits.
    destruct s as [| | | | |l|l]; try done; apply Hok. }
  destruct s as [b|w z|w z|z|z|l|l].
  - by apply Read_raw_reads.
  - destruct (decide (w = W8)) as [->|Hw]; [by apply Read_raw_reads|].
    assert (Hr : reads (let! z' := is_ReadVariableUnsigned (S := R) (bits_of w) in
      ret (SUInt w z')) (varint z) (SUInt w z)).
    { apply (reads_map _ (SUInt w)). by apply is_Var_reads; [apply var_width_bits|]. }
    by destruct w.
  - destruct (decide (w = W8)) as [->|Hw]; [by apply Read_raw_reads|].
    simpl in Hok. assert (Hb : 1 < bits_of w) by by destruct w.
    assert (Hr : reads (let! z' := is_ReadVariableUnsigned (S := R) (bits_of w) in
      ret (SInt w (DecodeZigZag (bits_of w) z'))) (varint (EncodeZigZag (bits_of w) z))
      (SInt w z)).
    { rewrite <-(zigzag_decode_encode (bits_of w) z) at 2 by done.
      apply (reads_map _ (fun u => SInt w (DecodeZigZag (bits_of w) u))).
      apply is_Var_reads; [by apply var_width_bits|by apply encode_zigzag_fits]. }
    by destruct w.
  - by apply Read_raw_reads.
  - by apply Read_raw_reads.
  - by apply Hstring.
  - by apply Hstring.
Qed.

Lemma cb_ReadFieldBegin_reads t id : fits 5 t -> fits 16 id ->
  reads (cb_ReadFieldBegin (R := R)) (cb_field t id) (t, id).
Proof.
  intros Ht Hid. unfold cb_field, cb_ReadFieldBegin. unfold fits in Hid.
  destruct (id <=? 5) eqn:E1; [|destruct (id <=? 255) eqn:E2].
  - apply Z.leb_le in E1. destruct (tag_parts t id Ht ltac:(lia)) as (P1 & P2 & P3 & P4).
    rewrite <-(app_nil_r [_]). eapply reads_bind; [by apply read_byte_reads|]. cbv zeta.
    rewrite P1, P2. change (Z.shiftl 7 5) with 224. change (Z.shiftl 6 5) with 192. zbool.
    rewrite Z.shiftr_div_pow2 by lia. change (2 ^ 5) with 32. rewrite Z.div_mul by lia.
    apply reads_ret.
  - apply Z.leb_gt in E1. apply Z.leb_le in E2.
    destruct (tag_parts t 6 Ht ltac:(lia)) as (P1 & P2 & P3 & P4).
    change (6 * 32) with 192 in *. change [?a; ?b] with ([a] ++ [b]).
    eapply reads_bind; [by apply read_byte_reads|]. cbv zeta. rewrite P1, P2.
    change (Z.shiftl 7 5) with 224. change (Z.shiftl 6 5) with 192.
    change (192 =? 224) with false. change (192 =? 192) with true. cbv iota.
    apply (reads_map _ (pair t)). apply read_byte_reads. lia.
  - apply Z.leb_gt in E2. destruct (tag_parts t 7 Ht ltac:(lia)) as (P1 & P2 & P3 & P4).
    change (7 * 32) with 224 in *. change (?a :: ?l) with ([a] ++ l).
    eapply reads_bind; [by apply read_byte_reads|]. cbv zeta. rewrite P1, P2.
    change (Z.shiftl 7 5) with 224. change (224 =? 224) with true. cbv iota.
    apply (reads_map (is_Read 2) (pair t) (le_bytes 2 id) id).
    rewrite <-(wrap_id 16 id) at 2 by done.
    change 16 with (Z.of_nat 2 * 8). rewrite <-of_le_bytes.
    apply is_Read_reads; [apply length_le_bytes|lia].
Qed.

Lemma cb_stop_reads (base : bool) : exists id,
  reads (cb_ReadFieldBegin (R := R)) [z2b (if base then BT_STOP_BASE else BT_STOP)]
    (if base then BT_STOP_BASE else BT_STOP, id).
Proof.
  exists 0. destruct base.
  - by apply (cb_ReadFieldBegin_reads BT_STOP_BASE 0).
  - by apply (cb_ReadFieldBegin_reads BT_STOP 0).
Qed.

Lemma cb_ReadContainerBegin_reads n t : fits 32 n -> fits 5 t ->
  reads (cb_ReadContainerBegin (R := R) version) (cb_list version n t) (n, t).
Proof.
  intros Hn Ht. unfold cb_ReadContainerBegin, cb_list. unfold fits in Hn.
  destruct ((v2 =? version) && (n <? 7)) eqn:E.
  - apply andb_true_iff in E as [-> E]. apply Z.ltb_lt in E.
    destruct (tag_parts t (n + 1) Ht ltac:(lia)) as (P1 & P2 & P3 & P4).
    rewrite <-(app_nil_r [_]). eapply reads_bind; [by apply read_byte_reads|]. cbv zeta.
    rewrite P1, P2, P3. zbool. cbn [andb negb]. replace (n + 1 - 1) with n by lia.
    rewrite wrap_id by done. apply reads_ret.
  - destruct (tag_parts t 0 Ht ltac:(lia)) as (P1 & P2 & _ & P4).
    replace (t + 0 * 32) with t in * by lia.
    change (?a :: ?l) with ([a] ++ l). eapply reads_bind; [by apply read_byte_reads|].
    cbv zeta. rewrite P1, P2. change (0 * 32 =? 0) with true. cbn [negb].
    rewrite andb_false_r. apply (reads_map _ (fun size => (size, t))).
    by apply cb_read_uint32_reads.
Qed.

Lemma cb_ReadMapBegin_reads n kt vt : fits 32 n -> fits 5 kt -> fits 5 vt ->
  reads (cb_ReadMapBegin (R := R)) (wf_map (cb_format version) n (kt, vt)) (n, (kt, vt)).
Proof.
  intros Hn Hk Hv. unfold fits in Hk, Hv. change (2 ^ 5) with 32 in *.
  change (wf_map _ n (kt, vt)) with ([z2b kt] ++ [z2b vt] ++ varint n).
  eapply reads_bind; [apply read_byte_reads; lia|].
  eapply reads_bind; [apply read_byte_reads; lia|].
  apply (reads_map _ (fun size => (size, (kt, vt)))). by apply cb_read_uint32_reads.
Qed.

Lemma cb_ReadStructBegin_reads base L : fits 32 L ->
  reads (cb_ReadStructBegin (R := R) version base)
    (if base then [] else wf_prefix (cb_format version) L) tt.
Proof.
  intros HL. unfold cb_ReadStructBegin. cbn [wf_prefix cb_format].
  destruct base; [apply reads_ret|]. cbn [negb andb].
  destruct (v2 =? version); [|apply reads_ret].
  apply (reads_map _ (fun _ => tt) _ L). by apply cb_read_uint32_reads.
Qed.

(** ** Skipping a payload *)

Definition cb_fixed_size (t : BondDataType) : option Z :=
  if (t =? BT_BOOL) || (t =? BT_UINT8) || (t =? BT_INT8) then Some 1
  else if t =? BT_FLOAT then Some 4
  else if t =? BT_DOUBLE then Some 8
  else None.

Definition cb_tagged_skip : tagged_skip R := {|
  ts_ReadStructBegin := cb_ReadStructBegin version false;
  ts_ReadFieldBegin := cb_ReadFieldBegin;
  ts_ReadContainerBegin := cb_ReadContainerBegin version;
  ts_ReadMapBegin := cb_ReadMapBegin;
  ts_SkipType := cb_SkipType version;
  ts_fixed := cb_fixed_size
|}.

Lemma cb_skip_integer z : fits 64 z -> reads (cb_SkipType_integer (R := R)) (varint z) tt.
Proof.
  intros Hz. apply (reads_map _ (fun _ => tt) _ z). by apply is_Var_reads; [right; right|].
Qed.

Lemma cb_skip_basic fuel s : scalar_ok s ->
  cb_fixed_size (get_type_id (btype_of s)) = None -> zlen (cb_scalar s) < 2 ^ 32 ->
  reads (cb_SkipType (R := R) version (S fuel) (get_type_id (btype_of s)) None)
    (cb_scalar s) tt.
Proof.
  intros Hok Hk Hl. destruct s as [b|w z|w z| | |l|l]; try discriminate Hk.
  - assert (Hz : fits 64 z) by (eapply fits_weaken; [|exact Hok]; by destruct w).
    pose proof (cb_skip_integer z Hz). by destruct w.
  - assert (Hz : fits 64 (EncodeZigZag (bits_of w) z)).
    { eapply fits_weaken; [|apply encode_zigzag_fits; [|exact Hok]]; by destruct w. }
    pose proof (cb_skip_integer _ Hz). by destruct w.
  - destruct Hok as [Hu Hn]. change (cb_scalar (SString l)) with
      (varint (zlen l) ++ concat (le_bytes 1 <$> l)) in *.
    change (cb_SkipType (R := R) version (S fuel) _ None) with (cb_SkipType_string (R := R)).
    eapply reads_bind; [by apply cb_read_uint32_reads, zlen_fits|].
    rewrite length_app in Hl.
    replace (zlen l) with (zlen (concat (le_bytes 1 <$> l)))
      by (rewrite length_concat_le_bytes; lia).
    apply is_Skip_reads. lia.
  - destruct Hok as [Hu Hn]. change (cb_scalar (SWString l)) with
      (varint (zlen l) ++ concat (le_bytes 2 <$> l)) in *.
    change (cb_SkipType (R := R) version (S fuel) _ None) with (cb_SkipType_wstring (R := R)).
    eapply reads_bind; [by apply cb_read_uint32_reads, zlen_fits|].
    rewrite length_app in Hl. by apply wstring_units_skip; [|lia].
Qed.

Lemma cb_field_pos t id : (0 < length (cb_field t id))%nat.
Proof. unfold cb_field. repeat case_match; simpl; lia. Qed.

Lemma cb_list_pos n t : (0 < length (cb_list version n t))%nat.
Proof. unfold cb_list. case_match; simpl; lia. Qed.

Lemma cb_skip_laws : skip_laws cb_tagged_skip (cb_format version).
Proof.
  split; cbn [cb_tagged_skip ts_ReadStructBegin ts_ReadFieldBegin ts_ReadContainerBegin
    ts_ReadMapBegin ts_SkipType ts_fixed].
  - intros t id Ht Hid. apply cb_ReadFieldBegin_reads; [|done].
    unfold fits. change (2 ^ 5) with 32. lia.
  - apply cb_stop_reads.
  - apply cb_ReadContainerBegin_reads.
  - apply cb_ReadMapBegin_reads.
  - apply cb_field_pos.
  - intros base. simpl. lia.
  - apply cb_list_pos.
  - intros n t. simpl. lia.
  - intros t k Hk. split.
    + unfold cb_fixed_size in Hk. repeat (case_match; [simplify_eq; lia|]). done.
    + intros Ht. assert (Hr : 2 <= t <= 18) by lia. type_cases Hr; (lia || discriminate Hk).
  - intros s k Hok Hk. destruct s as [b|[]|[]| | | |]; simplify_eq/=; try discriminate Hk;
      injection Hk as <-; reflexivity.
  - intros fuel t size k Hk. unfold cb_fixed_size in Hk. cbn [cb_SkipType].
    destruct (orb _ _); [by simplify_eq|].
    destruct (t =? BT_FLOAT) eqn:E1; [apply Z.eqb_eq in E1; subst t; by simplify_eq|].
    destruct (t =? BT_DOUBLE) eqn:E2; [apply Z.eqb_eq in E2; subst t; by simplify_eq|done].
  - intros fuel t n Hk Ht. type_cases Ht; first [reflexivity|discriminate Hk].
  - intros fuel t s Hk. unfold cb_fixed_size in Hk. cbn [cb_SkipType].
    destruct (orb _ _); [by simplify_eq|]. destruct (orb _ _); [done|].
    by repeat (case_match; [done|]).
  - intros fuel s. apply cb_skip_basic.
  - intros fuel []; reflexivity.
  - intros fuel. reflexivity.
  - cbn [wf_prefix cb_format]. unfold cb_ReadStructBegin. cbn [negb andb].
    destruct (v2 =? version) eqn:E; [right|left].
    + split; [done|]. intros fuel. cbn [cb_SkipType]. by rewrite E.
    + split_and!; [done|apply reads_ret|]. intros fuel. cbn [cb_SkipType].
      unfold skip_times, cb_ReadStructBegin. rewrite E. done.
Qed.
End ReaderCorrect.

(** ** Skipping arbitrary bytes *)

Section SkipSafe.
Context {R : Type} `{InputStreamLaws R} (version : Z).

Lemma read_raw_safely n : safely n 1 (is_Read (S := R) 1).
Proof. by apply (is_Read_safely 1 n); lia. Qed.

Lemma uint32_safely n : safely n 1 (cb_Read_uint32 (R := R)).
Proof. apply read_size_safely. Qed.

(** A command that has consumed a byte may go on. *)
Lemma safely_more {A A'} n (m : M R A) (f : A -> M R A') :
  safely n 1 m -> (forall a, safely (n - 1) 0 (f a)) -> safely n 1 (bind m f).
Proof. apply (safely_bind m f n 1 0). Qed.

Lemma safely_drop {A} n (m : M R A) : safely (n - 1) 1 m -> safely (n - 1) 0 m.
Proof. apply safely_weaken; lia. Qed.

Lemma cb_ReadFieldBegin_safely n : safely n 1 (cb_ReadFieldBegin (R := R)).
Proof.
  apply safely_more; [apply read_raw_safely|]. intros raw. cbv zeta.
  case_match; [|case_match; [|apply safely_ret]].
  - apply safely_bind_0; [|intros; apply safely_ret].
    eapply safely_weaken; [| |apply (is_Read_safely 2 (n - 1)); lia]; lia.
  - apply safely_bind_0; [|intros; apply safely_ret]. apply safely_drop, read_raw_safely.
Qed.

Lemma cb_ReadContainerBegin_safely n : safely n 1 (cb_ReadContainerBegin (R := R) version).
Proof.
  apply safely_more; [apply read_raw_safely|]. intros raw. cbv zeta.
  case_match; [apply safely_ret|]. apply safely_bind_0; [|intros; apply safely_ret].
  apply safely_drop, uint32_safely.
Qed.

Lemma cb_ReadMapBegin_safely n : safely n 1 (cb_ReadMapBegin (R := R)).
Proof.
  apply safely_more; [apply read_raw_safely|]. intros k.
  apply safely_bind_0; [apply safely_drop, read_raw_safely|]. intros v.
  apply safely_bind_0; [|intros; apply safely_ret]. apply safely_drop, uint32_safely.
Qed.

Lemma cb_ReadStructBegin_safely n base : safely n 0 (cb_ReadStructBegin (R := R) version base).
Proof.
  unfold cb_ReadStructBegin. case_match; [|apply safely_ret].
  apply safely_bind_0; [|intros; apply safely_ret].
  eapply safely_weaken; [| |apply (uint32_safely n)]; lia.
Qed.

Lemma skip_counted_safely n :
  safely n 0 (let! length := cb_Read_uint32 (R := R) in is_Skip length).
Proof. apply skip_size_safely. Qed.

Lemma cb_SkipType_safely fuel n type size : n + 2 < Z.of_nat fuel ->
  safely n 0 (cb_SkipType (R := R) version fuel type size).
Proof.
  revert n type size. induction fuel as [|fuel IH]; intros n type size Hn.
  { apply safely_neg. lia. }
  destruct (decide (n < 0)); [by apply safely_neg|].
  assert (Hrec : forall t sz, safely (n - 1) 0 (cb_SkipType (R := R) version fuel t sz)).
  { intros t sz. apply IH. lia. }
  cbn [cb_SkipType]. cbv zeta.
  case_match; [by apply skip_multiplied_safely|].
  case_match.
  { apply times_safely. apply safely_bind_0; [|intros; apply safely_ret].
    eapply safely_weaken; [| |apply (is_Var_safely 64 n); by right; right]; lia. }
  do 2 (case_match; [by apply skip_multiplied_safely|]).
  case_match; [apply times_safely, skip_counted_safely|].
  case_match.
  { apply times_safely, safely_bind_0; [|intros; apply skip_multiplied_safely].
    eapply safely_weaken; [| |apply (uint32_safely n)]; lia. }
  case_match; [|case_match; [|case_match; [|apply safely_ret]]]; apply times_safely.
  - apply (safely_weaken _ n _ 1); [lia|lia|].
    apply safely_more; [apply cb_ReadContainerBegin_safely|].
    intros h. apply safely_bind_0; [apply Hrec|intros; apply safely_ret].
  - apply (safely_weaken _ n _ 1); [lia|lia|].
    apply safely_more; [apply cb_ReadMapBegin_safely|].
    intros h. apply safely_bind_0; [|intros; apply safely_ret].
    apply safely_repeatM. apply safely_bind_0; [apply Hrec|intros; apply Hrec].
  - case_match; [apply skip_counted_safely|].
    apply (safely_weaken _ n _ 1); [lia|lia|].
    apply skip_struct_safely; [lia|lia|apply cb_ReadFieldBegin_safely|
      intros; apply cb_ReadStructBegin_safely|]. intros t. apply Hrec.
Qed.
End SkipSafe.

(** * Properties *)

(** What a Compact Binary reader reads is what the writer wrote: basic values,
    field headers in the three id ranges, container headers with the size packed
    into the type byte (version 2, fewer than seven items) or following it. *)
Lemma compact_binary_reads_back {R} `{InputStreamLaws R} version (s : R) rest sc type id n kt vt :
  readable s -> scalar_ok sc -> fits 5 type -> fits 16 id -> fits 32 n -> fits 5 kt -> fits 5 vt ->
  (view s = wf_scalar (cb_format version) sc ++ rest ->
     exists s', cb_Read (btype_of sc) s = (Ok sc, s') /\ view s' = rest /\ readable s') /\
  (view s = wf_field (cb_format version) type id ++ rest ->
     exists s', cb_ReadFieldBegin s = (Ok (type, id), s') /\ view s' = rest /\ readable s') /\
  (view s = wf_list (cb_format version) n type ++ rest ->
     exists s', cb_ReadContainerBegin version s = (Ok (n, type), s') /\ view s' = rest /\
       readable s') /\
  (view s = wf_map (cb_format version) n (kt, vt) ++ rest ->
     exists s', cb_ReadMapBegin s = (Ok (n, (kt, vt)), s') /\ view s' = rest /\ readable s').
Proof.
  intros Hr Hs Ht Hid Hn Hk Hv. split_and!; intros Hview.
  - by apply (cb_Read_reads sc Hs s rest).
  - by apply (cb_ReadFieldBegin_reads type id Ht Hid s rest).
  - by apply (cb_ReadContainerBegin_reads version n type Hn Ht s rest).
  - by apply (cb_ReadMapBegin_reads version n kt vt Hn Hk Hv s rest).
Qed.

(** [Skip] on a Compact Binary payload of either version consumes exactly the
    value, whatever follows it.  In version 2 a struct is skipped by its length,
    so the length the two-pass writer put there is the right one. *)
Lemma compact_binary_skip_exact {R} `{InputStreamLaws R} version v (s : R) rest :
  value_ok v -> zlen (encode (cb_format version) false v) < 2 ^ 32 ->
  readable s -> view s = encode (cb_format version) false v ++ rest ->
  exists s', cb_Skip version (type_of v) s = (Ok tt, s') /\ view s' = rest /\ readable s'.
Proof.
  intros Hok Hl Hr Hv.
  apply (proj1 (value_skips (cb_tagged_skip version) (cb_format version) (cb_skip_laws version)
    v Hok) Hl); [|done..].
  rewrite Hv, length_app. lia.
Qed.

(** On arbitrary bytes, for any type tag and in either version, skipping ends
    at a suffix of the input or throws, with no undefined step on the way. *)
Lemma compact_binary_skip_total {R} `{InputStreamLaws R} version type (s : R) :
  readable s ->
  exists j, readable (snd (cb_Skip version type s)) /\
    view (snd (cb_Skip version type s)) = drop j (view s) /\
    match fst (cb_Skip version type s) with
    | Ok _ => (j <= length (view s))%nat
    | Err e => exists x, e = Thrown x
    end.
Proof.
  intros Hr.
  destruct (cb_SkipType_safely version (3 + length (view s)) (zlen (view s)) type None
    ltac:(lia) s Hr ltac:(lia)) as (j & Ho & Hv & Hj).
  exists j. unfold cb_Skip. split_and!; [done..|]. case_match; [lia|done].
Qed.

(** A struct whose length runs past the end of the input is not reported: the
    stream ignores the over-long skip, so [Skip] succeeds with the body of the
    struct still unread. *)
Lemma compact_skip_truncated_struct {R} `{InputStreamLaws R} (s : R) L rest :
  readable s -> fits 32 L -> view s = varint L ++ rest -> zlen rest < L ->
  exists s', cb_Skip v2 BT_STRUCT s = (Ok tt, s') /\ view s' = rest /\ readable s'.
Proof.
  intros Hr HL Hv Hlt.
  destruct (cb_read_uint32_reads L HL s rest Hr Hv) as (s1 & E1 & V1 & R1).
  exists s1. unfold cb_Skip.
  change (cb_SkipType v2 (3 + length (view s)) BT_STRUCT None s)
    with ((let! length := cb_Read_uint32 (R := R) in is_Skip length) s).
  mrun. rewrite is_Skip_past; [done|done|done|by rewrite V1].
Qed.

Lemma compact_skip_truncated_struct_witness :
  exists s', cb_Skip v2 BT_STRUCT (buffer_of (varint 200 ++ [Byte.x00])) = (Ok tt, s') /\
    view s' = [Byte.x00].
Proof.
  destruct (buffer_of_readable (varint 200 ++ [Byte.x00])) as [H1 H2]; [by vm_compute|].
  destruct (compact_skip_truncated_struct (buffer_of (varint 200 ++ [Byte.x00])) 200 [Byte.x00])
    as (s' & E & V & _); [exact H1|by vm_compute|exact H2|by vm_compute|].
  exists s'. exact (conj E V).
Defined.
