(* ===== verification/SimpleBinary.v ===== *)
(** Simple Binary protocol (cpp/inc/bond/protocol/simple_binary.h,
    simple_binary_impl.h).

    Untagged: a payload is the values alone, in schema order, so nothing may be
    omitted and a reader needs the schema.  Sizes are fixed 32-bit integers in
    version 1 and variable-length in version 2. *)

From S2P Require Import Prelude Streams Encoding InputBuffer OutputCounter DataType Metadata.
From S2P Require Import Protocol Serializer.

(** * Writer *)

Section Writer.
Context {W : Type} `{OutputStream W} (version : Z).

Definition sb_WriteVersion : M W unit := os_Write 2 SIMPLE_PROTOCOL ;;; os_Write 2 version.

Definition sb_WriteSize (size : Z) : M W unit :=
  if version =? v1 then os_Write 4 size else os_WriteVariableUnsigned 32 size.

(** [Write] for basic types and for strings. *)
Definition sb_Write (s : scalar) : M W unit :=
  if is_string_type (btype_of s) then
    let length := string_length (string_units s) in
    sb_WriteSize length ;;; WriteStringData s length
  else Write_raw s.

Definition sb_WriteField (id : Z) (s : scalar) : M W unit := sb_Write s.
Definition sb_WriteContainerBegin (size : Z) (type : BondDataType) : M W unit :=
  sb_WriteSize size.
Definition sb_WriteMapBegin (size : Z) (type : BondDataType * BondDataType) : M W unit :=
  sb_WriteSize size.

(** [WriteFieldOmitted]: the default value instead; the assertions of the struct and
    default branches do nothing in a release build. *)
Definition sb_WriteFieldOmitted (type : BondDataType) (id : Z) (metadata : Metadata) :
    M W unit :=
  match basic_type_of_id type with
  | Some t => sb_Write (VariantGet (default_value metadata) t)
  | None =>
      if (type =? BT_LIST) || (type =? BT_SET) || (type =? BT_MAP)
      then sb_WriteContainerBegin 0 type else ret tt
  end.

Definition SimpleBinaryWriter : ProtocolWriter W := {|
  may_omit_fields := false;
  WriteVersion := sb_WriteVersion;
  WriteStructBegin := fun _ => ret tt;
  WriteStructEnd := fun _ => ret tt;
  WriteField := sb_WriteField;
  WriteFieldBegin := fun _ _ => ret tt;
  WriteFieldEnd := ret tt;
  WriteFieldOmitted := sb_WriteFieldOmitted;
  WriteContainerBegin := sb_WriteContainerBegin;
  WriteMapBegin := sb_WriteMapBegin;
  WriteContainerEnd := ret tt;
  Write := sb_Write
|}.
End Writer.

(** * Reader *)

Section Reader.
Context {R : Type} `{InputStream R} (version : Z).

Definition sb_ReadVersion : M R (bool * Z) :=
  let! magic_value := is_Read 2 in
  let! new_version := is_Read 2 in
  ret ((magic_value =? SIMPLE_PROTOCOL) && (new_version <=? v2), new_version).

Definition sb_ReadSize : M R Z :=
  if version =? v1 then is_Read 4 else is_ReadVariableUnsigned 32.

Definition sb_Read (t : btype) : M R scalar :=
  if is_string_type t then let! length := sb_ReadSize in ReadStringData t length
  else Read_raw t.

(** [ReadContainerBegin(size, type)]: the caller keeps the schema's type. *)
Definition sb_ReadContainerBegin : M R Z := sb_ReadSize.
Definition sb_ReadContainerEnd : M R unit := ret tt.

(** [Skip<T>()].  The length of a string times the size of its units is a [size_t]
    that narrows to the [uint32_t] parameter of [Skip]. *)
Definition sb_Skip_basic (t : btype) : M R unit :=
  match t with
  | TString => let! length := sb_ReadSize in is_Skip (wrap 32 (length * 1))
  | TWString => let! length := sb_ReadSize in is_Skip (wrap 32 (length * 2))
  | _ => is_Skip (Z.of_nat (raw_size t))
  end.

(** [Skip(BondDataType type)]. *)
Definition sb_Skip (type : BondDataType) : M R unit :=
  match basic_type_of_id type with
  | Some t => sb_Skip_basic t
  | None => ret tt
  end.
End Reader.

(** * Wire format *)

Definition sb_size (version n : Z) : list byte :=
  if version =? v1 then le_bytes 4 n else varint n.

Definition sb_format (version : Z) : wire_format := {|
  wf_scalar s :=
    if is_string_type (btype_of s)
    then sb_size version (zlen (string_units s)) ++ string_bytes s else raw_bytes s;
  wf_field _ _ := [];
  wf_stop _ := [];
  wf_list n _ := sb_size version n;
  wf_map n _ := sb_size version n;
  wf_prefix _ := [];
  wf_counted := false;
  wf_may_omit := false
|}.

(** * Correctness *)

Lemma string_units_fit s : scalar_ok s -> fits 32 (zlen (string_units s)).
Proof.
  intros Hok. apply zlen_fits. destruct s as [| | | | |l|l]; try done; apply Hok.
Qed.

Section WriterCorrect.
Context {W : Type} `{OutputStreamLaws W} (version : Z).

Lemma sb_WriteSize_emits n : fits 32 n ->
  emits (sb_WriteSize (W := W) version n) (sb_size version n).
Proof.
  intros Hn. unfold sb_WriteSize, sb_size. case_match; [apply os_Write_emits; lia|].
  by apply os_Var_emits; [right; left|].
Qed.

Lemma sb_Write_emits s : scalar_ok s ->
  emits (sb_Write (W := W) version s) (wf_scalar (sb_format version) s).
Proof.
  intros Hok. unfold sb_Write. cbn [wf_scalar sb_format].
  destruct (is_string_type (btype_of s)) eqn:E; [|by apply Write_raw_emits].
  pose proof (string_units_fit s Hok) as Hl.
  rewrite string_length_id by (unfold fits in Hl; lia).
  apply emits_bind; [by apply sb_WriteSize_emits|by apply WriteStringData_emits].
Qed.

Lemma sb_writer_laws :
  writer_laws stream_logic (SimpleBinaryWriter (W := W) version) (sb_format version).
Proof.
  assert (Hnil : emits (S := W) (ret tt) []) by apply emits_nil.
  split; simpl wf_counted; cbv iota.
  - done.
  - intros m ls bs [-> Hm]. split; [done|]. apply (emits_bind _ _ [] (bs ++ [])); [done|].
    by apply emits_bind.
  - by split.
  - intros m ls bs [-> Hm] _. split; [done|]. apply (emits_bind _ _ [] (bs ++ [])); [done|].
    by apply emits_bind.
  - intros id s _ Hok. split; [done|by apply sb_Write_emits].
  - intros t id _ _. by split.
  - by split.
  - done.
  - intros n t Hn _. split; [done|by apply sb_WriteSize_emits].
  - intros n kt vt Hn _ _. split; [done|by apply sb_WriteSize_emits].
  - by split.
  - intros s Hok. split; [done|by apply sb_Write_emits].
Qed.

(** The serializer with a Simple Binary writer writes the bare values in schema
    order, every field included, for both versions. *)
Lemma simple_binary_serializes v (s : W) n :
  value_ok v -> zlen (encode (sb_format version) false v) < 2 ^ 32 ->
  room s n -> zlen (encode (sb_format version) false v) <= n ->
  exists s', Apply (SimpleBinaryWriter version) false v s = (Ok tt, s') /\
    appends s (encode (sb_format version) false v) s' /\
    room s' (n - zlen (encode (sb_format version) false v)).
Proof.
  intros Hok Hl Hr Hn.
  destruct (Apply_written (SimpleBinaryWriter version) stream_logic (sb_format version)
    sb_writer_laws v Hok false Hl) as [_ Hw].
  by apply Hw.
Qed.
End WriterCorrect.

Section ReaderCorrect.
Context {R : Type} `{InputStreamLaws R} (version : Z).

Lemma sb_ReadSize_reads n : fits 32 n ->
  reads (sb_ReadSize (R := R) version) (sb_size version n) n.
Proof.
  intros Hn. unfold sb_ReadSize, sb_size. case_match; [|by apply is_Var_reads; [right; left|]].
  rewrite <-(wrap_id 32 n) at 2 by done. change 32 with (Z.of_nat 4 * 8).
  rewrite <-of_le_bytes. apply is_Read_reads; [apply length_le_bytes|lia].
Qed.

Lemma sb_Read_reads s : scalar_ok s ->
  reads (sb_Read (R := R) version (btype_of s)) (wf_scalar (sb_format version) s) s.
Proof.
  intros Hok. unfold sb_Read. cbn [wf_scalar sb_format].
  destruct (is_string_type (btype_of s)) eqn:E; [|by apply Read_raw_reads].
  eapply reads_bind; [by apply sb_ReadSize_reads, string_units_fit|].
  by apply ReadStringData_reads.
Qed.

Lemma sb_Skip_reads s : scalar_ok s -> zlen (wf_scalar (sb_format version) s) < 2 ^ 32 ->
  reads (sb_Skip (R := R) version (get_type_id (btype_of s)))
    (wf_scalar (sb_format version) s) tt.
Proof.
  intros Hok. unfold sb_Skip. rewrite type_id_roundtrip. cbn [wf_scalar sb_format].
  destruct (is_string_type (btype_of s)) eqn:E; intros Hl.
  - pose proof (string_units_fit s Hok) as Hu. rewrite length_app in Hl.
    assert (Hskip : forall k, zlen (string_bytes s) = zlen (string_units s) * k ->
      reads (let! length := sb_ReadSize (R := R) version in is_Skip (wrap 32 (length * k)))
        (sb_size version (zlen (string_units s)) ++ string_bytes s) tt).
    { intros k Hk. eapply reads_bind; [by apply sb_ReadSize_reads|].
      rewrite <-Hk, wrap_id by (apply zlen_fits; lia). apply is_Skip_reads. lia. }
    destruct s as [| | | | |l|l]; try done; apply Hskip; simpl;
      rewrite length_concat_le_bytes; lia.
  - assert (Hs : sb_Skip_basic (R := R) version (btype_of s) = is_Skip (zlen (raw_bytes s))).
    { unfold raw_bytes. rewrite length_le_bytes. by destruct s. }
    rewrite Hs. by apply is_Skip_reads.
Qed.
End ReaderCorrect.

(** Basic values and container sizes are read back as written, and [Skip] by type
    passes over exactly a basic value, in both versions. *)
Lemma simple_binary_reads_back {R} `{InputStreamLaws R} version (s : R) rest sc n type :
  readable s -> scalar_ok sc -> fits 32 n ->
  zlen (wf_scalar (sb_format version) sc) < 2 ^ 32 ->
  (view s = wf_scalar (sb_format version) sc ++ rest ->
     (exists s', sb_Read version (btype_of sc) s = (Ok sc, s') /\ view s' = rest /\ readable s') /\
     (exists s', sb_Skip version (get_type_id (btype_of sc)) s = (Ok tt, s') /\
        view s' = rest /\ readable s')) /\
  (view s = wf_list (sb_format version) n type ++ rest ->
     exists s', sb_ReadContainerBegin version s = (Ok n, s') /\ view s' = rest /\ readable s').
Proof.
  intros Hr Hs Hn Hl. split; [intros Hv; split|intros Hv].
  - by apply (sb_Read_reads version sc Hs s rest).
  - by apply (sb_Skip_reads version sc Hs Hl s rest).
  - by apply (sb_ReadSize_reads version n Hn s rest).
Qed.

(** The byte count of a skipped wide string is not checked: from 2^31 units on it
    wraps, and [Skip] succeeds after passing over the wrong number of bytes, none at
    all for exactly 2^31 units.  (The tagged protocols multiply with
    [checked_multiply] and throw.) *)
Lemma simple_skip_wstring_wraps {R} `{InputStreamLaws R} version (s : R) rest :
  readable s -> view s = sb_size version (2 ^ 31) ++ rest ->
  exists s', sb_Skip version BT_WSTRING s = (Ok tt, s') /\ view s' = rest /\ readable s'.
Proof.
  intros Hr Hv.
  assert (Hread : reads (sb_Skip (R := R) version BT_WSTRING) (sb_size version (2 ^ 31) ++ [])
    tt).
  { change (sb_Skip (R := R) version BT_WSTRING) with
      (let! length := sb_ReadSize (R := R) version in is_Skip (wrap 32 (length * 2))).
    eapply reads_bind; [by apply sb_ReadSize_reads|].
    change (wrap 32 (2 ^ 31 * 2)) with (zlen (@nil byte)). by apply is_Skip_reads. }
  rewrite app_nil_r in Hread. by apply (Hread s rest).
Qed.

Lemma simple_skip_wstring_wraps_witness :
  exists s', sb_Skip v1 BT_WSTRING (buffer_of [Byte.x00; Byte.x00; Byte.x00; Byte.x80; Byte.x41]) =
    (Ok tt, s') /\ view s' = [Byte.x41].
Proof.
  destruct (buffer_of_readable [Byte.x00; Byte.x00; Byte.x00; Byte.x80; Byte.x41]) as [H1 H2];
    [by vm_compute|].
  destruct (simple_skip_wstring_wraps v1
    (buffer_of [Byte.x00; Byte.x00; Byte.x00; Byte.x80; Byte.x41]) [Byte.x41])
    as (s' & E & V & _); [exact H1|exact H2|].
  exists s'. exact (conj E V).
Defined.
