(* ===== verification/RandomProtocol.v ===== *)
(** Random protocol (cpp/inc/bond/protocol/random_protocol.h).

    A reader with no input: every value is made of the bits of a xorshift
    generator whose two words of state are shared by all readers. *)

From S2P Require Import Prelude Encoding DataType Metadata.

(** * [RandomProtocolEngine] *)

(** [static uint64_t state[2]]. *)
Record Engine : Type := mkEngine { state0 : Z; state1 : Z }.

Definition seed1 : Z := 234578354.
Definition seed2 : Z := 753478.

Definition Next : M Engine Z :=
  let! e := get in
  let s1 := state0 e in
  let s0 := state1 e in
  let s1 := Z.lxor s1 (wrap 64 (Z.shiftl s1 23)) in
  let new := Z.lxor (Z.lxor (Z.lxor s1 s0) (Z.shiftr s1 17)) (Z.shiftr s0 26) in
  put (mkEngine s0 new) ;;;
  ret (wrap 64 (new + s0)).

Definition Seed (s0 s1 : Z) : M Engine unit := put (mkEngine s0 s1).

(** * [RandomProtocolReader] *)

Record RandomProtocolReader : Type := mkRPR {
  max_string_length : Z;
  max_list_size : Z;
  json : bool
}.

Section Reader.
Context (reader : RandomProtocolReader).

Definition rp_ReadVersion : M Engine bool := ret false.

(** The generic [Read(T&)]: the low bytes of a random word. *)
Definition rp_Read_raw (bytes : nat) : M Engine Z :=
  let! random := Next in ret (of_le (le_bytes bytes random)).

Definition rp_Read_uint64 : M Engine Z :=
  let! value := Next in ret (if json reader then Z.shiftr value 1 else value).

Definition rp_Read_bool : M Engine bool :=
  let! n := rp_Read_raw 1 in ret (0 <? to_signed 8 n).

Definition rp_Read_double : M Engine Z :=
  let! sign := rp_Read_raw 1 in
  let! exponent := rp_Read_raw 1 in
  let! mantissa := rp_Read_raw 4 in
  let exponent := if exponent =? 0 then 0x80 else exponent in
  ret (Z.lor (Z.lor (wrap 64 (Z.shiftl sign 63)) (wrap 64 (Z.shiftl exponent 55))) mantissa).

Definition rp_Read_float : M Engine Z :=
  let! sign := rp_Read_raw 1 in
  let! exponent := rp_Read_raw 1 in
  let! mantissa := rp_Read_raw 2 in
  let exponent := if (exponent =? 0) || (exponent =? 0xff) then 0x80 else exponent in
  ret (Z.lor (Z.lor (wrap 32 (Z.shiftl sign 31)) (wrap 32 (Z.shiftl exponent 23))) mantissa).

(** [length %= limit; length = length ? length : 1]; a zero limit divides by
    zero. *)
Definition rp_Read_size (limit : Z) : M Engine Z :=
  let! length := rp_Read_raw 4 in
  if limit =? 0 then fail Undefined
  else
    let length := length mod limit in
    ret (if negb (length =? 0) then length else 1).

(** [' ' + c % ('z' - ' ')]. *)
Definition rp_Read_char : M Engine Z :=
  let! c := rp_Read_raw 1 in ret (32 + c mod (122 - 32)).

Definition rp_Read_string : M Engine (list Z) :=
  let! length := rp_Read_size (max_string_length reader) in
  collectM (Z.to_nat length) rp_Read_char.

(** [Read(blob& value, uint32_t size)], the bytes. *)
Definition rp_Read_blob (size : Z) : M Engine (list byte) :=
  collectM (Z.to_nat size) (let! z := rp_Read_raw 1 in ret (z2b z)).

Definition rp_ReadContainerBegin : M Engine Z := rp_Read_size (max_list_size reader).
Definition rp_ReadContainerEnd : M Engine unit := ret tt.
Definition rp_Skip : M Engine unit := ret tt.

(** [Read] by type. *)
Definition rp_Read (t : btype) : M Engine scalar :=
  match t with
  | TBool => let! b := rp_Read_bool in ret (SBool b)
  | TUInt W64 => let! z := rp_Read_uint64 in ret (SUInt W64 z)
  | TUInt w => let! z := rp_Read_raw (bytes_of w) in ret (SUInt w z)
  | TInt w => let! z := rp_Read_raw (bytes_of w) in ret (SInt w (to_signed (bits_of w) z))
  | TFloat => let! z := rp_Read_float in ret (SFloat z)
  | TDouble => let! z := rp_Read_double in ret (SDouble z)
  | TString => let! l := rp_Read_string in ret (SString l)
  | TWString => let! l := rp_Read_string in ret (SWString l)
  end.
End Reader.

(** * The generator *)

Definition engine_ok (e : Engine) : Prop := fits 64 (state0 e) /\ fits 64 (state1 e).

(** A [w]-bit value is its own low bits; so bitwise operations stay within. *)
Lemma fits_ones w a : 0 <= w -> fits w a <-> Z.land a (Z.ones w) = a.
Proof.
  intros Hw. rewrite Z.land_ones by done. split; [apply wrap_id|].
  intros <-. by apply wrap_fits.
Qed.

Lemma fits_lxor w a b : 0 <= w -> fits w a -> fits w b -> fits w (Z.lxor a b).
Proof.
  intros Hw. rewrite !fits_ones by done. intros Ha Hb.
  rewrite <-Ha, <-Hb at 2. apply Z.bits_inj'. intros i Hi.
  rewrite !Z.land_spec, !Z.lxor_spec, !Z.land_spec. by destruct (Z.testbit a i), (Z.testbit b i), (Z.testbit (Z.ones w) i).
Qed.

Lemma fits_lor w a b : 0 <= w -> fits w a -> fits w b -> fits w (Z.lor a b).
Proof.
  intros Hw. rewrite !fits_ones by done. intros Ha Hb.
  rewrite <-Ha, <-Hb at 2. apply Z.bits_inj'. intros i Hi.
  rewrite !Z.land_spec, !Z.lor_spec, !Z.land_spec. by destruct (Z.testbit a i), (Z.testbit b i), (Z.testbit (Z.ones w) i).
Qed.

Lemma fits_shiftr w a k : 0 <= w -> 0 <= k -> fits w a -> fits w (Z.shiftr a k).
Proof.
  intros Hw Hk [H1 H2]. rewrite Z.shiftr_div_pow2 by done.
  assert (0 < 2 ^ k) by (apply Z.pow_pos_nonneg; lia). split; [apply Z.div_pos; lia|].
  apply Z.div_lt_upper_bound; nia.
Qed.

Lemma lxor_cancel a b : Z.lxor a b = 0 -> a = b.
Proof. apply Z.lxor_eq. Qed.

(** [x ^ (x >> k)] determines [x]. *)
Lemma xor_shiftr_zero d k : 0 < k -> 0 <= d -> Z.lxor d (Z.shiftr d k) = 0 -> d = 0.
Proof.
  intros Hk Hd He. apply lxor_cancel in He. rewrite Z.shiftr_div_pow2 in He by lia.
  destruct (Z.eq_dec d 0) as [|Hn]; [done|].
  assert (1 < 2 ^ k) by (apply Z.pow_gt_1; lia).
  assert (d / 2 ^ k < d) by (apply Z.div_lt; lia). lia.
Qed.

(** [x ^ (x << k)] on [w] bits determines [x]. *)
Lemma xor_shiftl_zero d w k : 0 < k -> 0 <= w -> fits w d ->
  Z.lxor d (wrap w (Z.shiftl d k)) = 0 -> d = 0.
Proof.
  intros Hk Hw Hd He. apply lxor_cancel in He.
  assert (Hbits : forall n i, 0 <= i < n -> Z.testbit d i = false).
  { intros n. destruct (Z.lt_ge_cases n 0) as [|Hn]; [lia|]. revert n Hn.
    apply (natlike_ind (fun n => forall i, 0 <= i < n -> Z.testbit d i = false)); [lia|].
    intros n Hn IH i Hi. destruct (Z.lt_ge_cases i w) as [Hiw|Hiw].
    - rewrite He. unfold wrap. rewrite Z.mod_pow2_bits_low by lia.
      destruct (Z.lt_ge_cases i k) as [Hik|Hik].
      + by rewrite Z.shiftl_spec_low.
      + rewrite Z.shiftl_spec by lia. apply IH. lia.
    - apply (fits_ones w d Hw) in Hd. rewrite <-Hd, Z.land_spec.
      rewrite Z.ones_spec_high by lia. by rewrite andb_false_r. }
  apply Z.bits_inj'. intros i Hi. rewrite Z.bits_0. apply (Hbits (i + 1)). lia.
Qed.

Lemma wrap_lxor w a b : 0 <= w -> wrap w (Z.lxor a b) = Z.lxor (wrap w a) (wrap w b).
Proof.
  intros Hw. unfold wrap. rewrite <-!Z.land_ones by done.
  apply Z.bits_inj'. intros i Hi. rewrite !Z.land_spec, !Z.lxor_spec, !Z.land_spec.
  by destruct (Z.testbit a i), (Z.testbit b i), (Z.testbit (Z.ones w) i).
Qed.

(** The first half of [Next] on the old [state[0]], and the whole new word. *)
Definition mix (s1 : Z) : Z := Z.lxor s1 (wrap 64 (Z.shiftl s1 23)).
Definition step (e : Engine) : Engine :=
  let s1 := mix (state0 e) in
  mkEngine (state1 e)
    (Z.lxor (Z.lxor (Z.lxor s1 (state1 e)) (Z.shiftr s1 17)) (Z.shiftr (state1 e) 26)).

Lemma Next_run e : Next e = (Ok (wrap 64 (state1 (step e) + state1 e)), step e).
Proof. done. Qed.

Lemma mix_fits s1 : fits 64 s1 -> fits 64 (mix s1).
Proof. intros Hs. apply fits_lxor; [lia|done|]. apply wrap_fits. lia. Qed.

Lemma step_ok e : engine_ok e -> engine_ok (step e).
Proof.
  intros [H0 H1]. pose proof (mix_fits _ H0) as Hm. split; [done|]. cbn [step state0 state1].
  assert (forall a k, 0 <= k -> fits 64 a -> fits 64 (Z.shiftr a k))
    by (intros; apply fits_shiftr; (lia || done)).
  apply fits_lxor; [lia| |auto with zarith].
  apply fits_lxor; [lia| |auto with zarith]. by apply fits_lxor.
Qed.

Lemma mix_inj a b : fits 64 a -> fits 64 b -> mix a = mix b -> a = b.
Proof.
  intros Ha Hb He. apply lxor_cancel.
  apply (xor_shiftl_zero _ 64 23); [lia|lia|by apply fits_lxor; [lia|..]|].
  rewrite Z.shiftl_lxor, wrap_lxor by lia. unfold mix in He.
  transitivity (Z.lxor (Z.lxor a (wrap 64 (Z.shiftl a 23))) (Z.lxor b (wrap 64 (Z.shiftl b 23)))).
  - by rewrite !Z.lxor_assoc, (Z.lxor_comm b), !Z.lxor_assoc, (Z.lxor_comm (wrap 64 (Z.shiftl b 23)) b).
  - by rewrite He, Z.lxor_nilpotent.
Qed.

Lemma step_inj e1 e2 : engine_ok e1 -> engine_ok e2 -> step e1 = step e2 -> e1 = e2.
Proof.
  destruct e1 as [a b], e2 as [c d]. intros [Ha Hb] [Hc Hd] He. unfold step in He.
  cbn [state0 state1] in *. injection He as -> He. f_equal. apply mix_inj; [done..|].
  apply lxor_cancel. pose proof (mix_fits _ Ha) as Hma. pose proof (mix_fits _ Hc) as Hmc.
  apply (xor_shiftr_zero _ 17); [lia|by apply (fits_lxor 64); [lia|..]|].
  rewrite Z.shiftr_lxor. apply Z.bits_inj'. intros i Hi.
  apply (f_equal (fun z => Z.testbit z i)) in He. rewrite !Z.lxor_spec in He.
  rewrite !Z.lxor_spec, Z.bits_0.
  by destruct (Z.testbit (mix a) i), (Z.testbit (mix c) i), (Z.testbit d i),
    (Z.testbit (Z.shiftr (mix a) 17) i), (Z.testbit (Z.shiftr (mix c) 17) i),
    (Z.testbit (Z.shiftr d 26) i).
Qed.

(** The generator keeps two 64-bit words and its step loses nothing: distinct
    states have distinct successors, so a state other than all zeros never decays
    to zero, where the generator would be stuck. *)
Lemma random_engine_injective e1 e2 : engine_ok e1 -> engine_ok e2 ->
  engine_ok (snd (Next e1)) /\
  (snd (Next e1) = snd (Next e2) -> e1 = e2) /\
  (e1 <> mkEngine 0 0 -> snd (Next e1) <> mkEngine 0 0).
Proof.
  intros H1 H2. rewrite !Next_run. cbn [snd]. split_and!.
  - by apply step_ok.
  - by apply step_inj.
  - intros Hn Hz. apply Hn, step_inj; [done|by vm_compute|]. by rewrite Hz.
Qed.

(** * The values *)

(** [m] returns from any state, with a result that satisfies [Q]. *)
Definition yields {A} (m : M Engine A) (Q : A -> Prop) : Prop :=
  forall e, engine_ok e -> exists a, m e = (Ok a, snd (m e)) /\ Q a /\ engine_ok (snd (m e)).

Lemma yields_ret {A} (a : A) (Q : A -> Prop) : Q a -> yields (ret a) Q.
Proof. intros HQ e He. by exists a. Qed.

Lemma yields_bind {A B} (m : M Engine A) (f : A -> M Engine B) (P : A -> Prop) (Q : B -> Prop) :
  yields m P -> (forall a, P a -> yields (f a) Q) -> yields (bind m f) Q.
Proof.
  intros Hm Hf e He. destruct (Hm e He) as (a & E1 & HP & He1).
  destruct (Hf a HP _ He1) as (b & E2 & HQ & He2). exists b.
  rewrite (bind_ok _ _ _ _ _ E1). auto.
Qed.

Lemma Next_yields : yields Next (fits 64).
Proof.
  intros e He. eexists. rewrite Next_run. split_and!; [done|apply wrap_fits; lia|].
  by apply step_ok.
Qed.

Lemma raw_yields n : yields (rp_Read_raw n) (fits (8 * Z.of_nat n)).
Proof.
  eapply yields_bind; [apply Next_yields|]. intros r _. apply yields_ret.
  rewrite of_le_bytes. replace (8 * Z.of_nat n) with (Z.of_nat n * 8) by lia.
  apply wrap_fits. lia.
Qed.

Lemma collectM_yields {A} n (m : M Engine A) (P : A -> Prop) :
  yields m P -> yields (collectM n m) (fun l => length l = n /\ Forall P l).
Proof.
  intros Hm. induction n as [|n IH]; cbn [collectM]; [by apply yields_ret|].
  eapply yields_bind; [exact Hm|]. intros x Hx.
  eapply yields_bind; [exact IH|]. intros xs [Hl Hxs]. apply yields_ret.
  split; [simpl; by rewrite Hl|by constructor].
Qed.

Lemma size_yields limit : 0 < limit < 2 ^ 32 ->
  yields (rp_Read_size limit) (fun n => 1 <= n <= Z.max 1 (limit - 1)).
Proof.
  intros Hl. eapply yields_bind; [apply raw_yields|]. intros n _.
  replace (limit =? 0) with false by (symmetry; apply Z.eqb_neq; lia).
  apply yields_ret. pose proof (Z.mod_pos_bound n limit ltac:(lia)).
  destruct (n mod limit =? 0) eqn:E; cbn [negb]; [lia|]. apply Z.eqb_neq in E. lia.
Qed.

Lemma string_yields reader : 0 < max_string_length reader < 2 ^ 32 ->
  yields (rp_Read_string reader) (fun l =>
    1 <= zlen l <= Z.max 1 (max_string_length reader - 1) /\ Forall (fun c => 32 <= c <= 121) l).
Proof.
  intros Hl. eapply yields_bind; [by apply size_yields|]. cbv beta. intros n Hn.
  assert (Hc : yields rp_Read_char (fun c => 32 <= c <= 121)).
  { eapply yields_bind; [apply raw_yields|]. intros c _. apply yields_ret.
    pose proof (Z.mod_pos_bound c (122 - 32) ltac:(lia)). lia. }
  intros e He. destruct (collectM_yields (Z.to_nat n) _ _ Hc e He) as (l & E & [Hll HF] & He').
  exists l. split_and!; [done|lia|lia|done|done].
Qed.

(** The parts of a float put together with [|]. *)
Lemma or_parts s e m a b w : 0 <= a <= b -> b < w ->
  fits a m -> fits (b - a) e -> 
  wrap w (Z.lor (Z.lor (wrap w (Z.shiftl s b)) (wrap w (Z.shiftl e a))) m) / 2 ^ a mod 2 ^ (b - a)
    = e.
Proof.
  intros Hab Hbw Hm He. apply Z.bits_inj'. intros i Hi.
  destruct (Z.lt_ge_cases i (b - a)) as [Hlt|Hge].
  - rewrite Z.mod_pow2_bits_low by lia. rewrite <-Z.shiftr_div_pow2 by lia.
    rewrite Z.shiftr_spec by lia. unfold wrap. rewrite Z.mod_pow2_bits_low by lia.
    rewrite !Z.lor_spec, !Z.mod_pow2_bits_low by lia.
    rewrite Z.shiftl_spec_low by lia. rewrite Z.shiftl_spec by lia.
    apply (fits_ones a m) in Hm; [|lia]. rewrite <-Hm, Z.land_spec, Z.ones_spec_high by lia.
    rewrite andb_false_r, orb_false_r. cbn [orb]. f_equal. lia.
  - rewrite Z.mod_pow2_bits_high by lia.
    apply (fits_ones (b - a) e) in He; [|lia]. rewrite <-He, Z.land_spec, Z.ones_spec_high by lia.
    by rewrite andb_false_r.
Qed.

(** Neither a NaN nor an infinity. *)
Definition finite (s : scalar) : Prop :=
  match s with
  | SFloat z => float_exp z <> 255
  | SDouble z => double_exp z <> 2047
  | _ => True
  end.

Lemma double_yields : yields rp_Read_double (fun z => fits 64 z /\ double_exp z <> 2047).
Proof.
  eapply yields_bind; [apply raw_yields|]. intros s Hs.
  eapply yields_bind; [apply raw_yields|]. intros e He.
  eapply yields_bind; [apply raw_yields|]. intros m Hm. apply yields_ret. cbv zeta.
  change (8 * Z.of_nat 1) with 8 in *. change (8 * Z.of_nat 4) with 32 in *.
  set (e' := if e =? 0 then 0x80 else e).
  assert (He' : fits 8 e') by (unfold e'; by case_match).
  assert (Hm55 : fits 55 m) by (by eapply fits_weaken; [|exact Hm]).
  assert (Hf : fits 64 (Z.lor (Z.lor (wrap 64 (Z.shiftl s 63)) (wrap 64 (Z.shiftl e' 55))) m)).
  { apply fits_lor; [lia| |by eapply fits_weaken; [|exact Hm]].
    apply fits_lor; [lia|apply wrap_fits; lia|apply wrap_fits; lia]. }
  split; [exact Hf|]. unfold double_exp. intros Hexp.
  pose proof (or_parts s e' m 55 63 64 ltac:(lia) ltac:(lia) Hm55 He') as Hp.
  rewrite (wrap_id 64) in Hp by exact Hf. set (z := Z.lor _ m) in *.
  assert (Hbit : Z.testbit z 52 = true).
  { replace 52 with (0 + 52) by lia. rewrite <-Z.shiftr_spec by lia.
    rewrite Z.shiftr_div_pow2 by lia. rewrite <-(Z.mod_pow2_bits_low _ 11 0) by lia.
    by rewrite Hexp. }
  unfold z in Hbit. rewrite !Z.lor_spec in Hbit. unfold wrap in Hbit.
  rewrite !Z.mod_pow2_bits_low in Hbit by lia. rewrite !Z.shiftl_spec_low in Hbit by lia.
  apply (fits_ones 32 m) in Hm; [|lia]. rewrite <-Hm, Z.land_spec, Z.ones_spec_high in Hbit by lia.
  by rewrite andb_false_r in Hbit.
Qed.

Lemma float_yields : yields rp_Read_float (fun z => fits 32 z /\ float_exp z <> 255).
Proof.
  eapply yields_bind; [apply raw_yields|]. intros s Hs.
  eapply yields_bind; [apply raw_yields|]. intros e He.
  eapply yields_bind; [apply raw_yields|]. intros m Hm. apply yields_ret. cbv zeta.
  change (8 * Z.of_nat 1) with 8 in *. change (8 * Z.of_nat 2) with 16 in *.
  set (e' := if (e =? 0) || (e =? 0xff) then 0x80 else e).
  assert (He' : fits 8 e' /\ e' <> 255).
  { unfold e'. destruct ((e =? 0) || (e =? 0xff)) eqn:E; [by vm_compute|].
    apply orb_false_iff in E as [_ E]. by apply Z.eqb_neq in E. }
  assert (Hm23 : fits 23 m) by (by eapply fits_weaken; [|exact Hm]).
  assert (Hf : fits 32 (Z.lor (Z.lor (wrap 32 (Z.shiftl s 31)) (wrap 32 (Z.shiftl e' 23))) m)).
  { apply fits_lor; [lia| |by eapply fits_weaken; [|exact Hm]].
    apply fits_lor; [lia|apply wrap_fits; lia|apply wrap_fits; lia]. }
  split; [exact Hf|]. unfold float_exp.
  pose proof (or_parts s e' m 23 31 32 ltac:(lia) ltac:(lia) Hm23 (proj1 He')) as Hp.
  rewrite (wrap_id 32) in Hp by exact Hf. change (31 - 23) with 8 in Hp. rewrite Hp. apply He'.
Qed.

(** From any state of the generator a random value of each basic type is read:
    it is in the range of its type, a [float] or [double] is neither infinite nor
    a NaN, a string is not empty, shorter than the limit, and printable ASCII;
    container sizes are at least one and below the limit. *)
Lemma random_values_in_range reader t e :
  0 < max_string_length reader < 2 ^ 32 -> 0 < max_list_size reader < 2 ^ 32 -> engine_ok e ->
  (exists s, fst (rp_Read reader t e) = Ok s /\ btype_of s = t /\ scalar_ok s /\ finite s /\
     match s with
     | SString l | SWString l =>
         1 <= zlen l <= Z.max 1 (max_string_length reader - 1) /\
         Forall (fun c => 32 <= c <= 121) l
     | _ => True
     end) /\
  (exists n, fst (rp_ReadContainerBegin reader e) = Ok n /\
     1 <= n <= Z.max 1 (max_list_size reader - 1)).
Proof.
  intros Hs Hl He. split.
  2: { destruct (size_yields _ Hl e He) as (n & E & Hn & _). exists n.
       unfold rp_ReadContainerBegin. by rewrite E. }
  assert (Hunits : forall w l, 8 <= w -> 1 <= zlen l <= Z.max 1 (max_string_length reader - 1) /\
    Forall (fun c => 32 <= c <= 121) l -> Forall (fits w) l /\ zlen l < 2 ^ 32).
  { intros w l Hw [Hn Hc]. split; [|lia]. eapply Forall_impl; [|exact Hc]. intros c Hrange. cbv beta in Hrange.
    eapply (fits_weaken 8); [lia|]. unfold fits. change (2 ^ 8) with 256. lia. }
  assert (Hy : yields (rp_Read reader t) (fun s => btype_of s = t /\ scalar_ok s /\ finite s /\
     match s with
     | SString l | SWString l =>
         1 <= zlen l <= Z.max 1 (max_string_length reader - 1) /\
         Forall (fun c => 32 <= c <= 121) l
     | _ => True
     end)).
  { destruct t as [|w|w| | | |].
    - eapply yields_bind; [by apply (yields_bind _ _ _ (fun _ => True)
        (raw_yields 1)); intros; apply yields_ret|]. intros b _. by apply yields_ret.
    - assert (Hw : yields (rp_Read_raw (bytes_of w)) (fits (bits_of w)))
        by (replace (bits_of w) with (8 * Z.of_nat (bytes_of w)) by (by destruct w);
            apply raw_yields).
      assert (H64 : yields (rp_Read_uint64 reader) (fits 64)).
      { eapply yields_bind; [apply Next_yields|]. intros z Hz. apply yields_ret.
        case_match; [by apply fits_shiftr; [lia..|]|done]. }
      destruct w; cbn [rp_Read]; (eapply yields_bind; [first [exact Hw|exact H64]|]);
        intros z Hz; by apply yields_ret.
    - eapply yields_bind; [apply raw_yields|]. intros z _. apply yields_ret.
      split_and!; [done| |done|done]. apply to_signed_sfits. by destruct w.
    - eapply yields_bind; [apply float_yields|]. intros z [Hz Hf]. by apply yields_ret.
    - eapply yields_bind; [apply double_yields|]. intros z [Hz Hf]. by apply yields_ret.
    - eapply yields_bind; [by apply string_yields|]. intros l Hl'. apply yields_ret.
      split_and!; [done|by apply Hunits|done|apply Hl'..].
    - eapply yields_bind; [by apply string_yields|]. intros l Hl'. apply yields_ret.
      split_and!; [done|by apply Hunits|done|apply Hl'..]. }
  destruct (Hy e He) as (s & E & HQ & _). exists s. by rewrite E.
Qed.

Lemma random_values_in_range_witness :
  exists l, fst (rp_Read (mkRPR 50 20 false) TString (mkEngine seed1 seed2)) = Ok (SString l) /\
    1 <= zlen l <= 49.
Proof.
  destruct (random_values_in_range (mkRPR 50 20 false) TString (mkEngine seed1 seed2))
    as [(s & E & Ht & _ & _ & Hs) _]; [by vm_compute|by vm_compute|by vm_compute|].
  destruct s as [| | | | |l|]; try discriminate Ht. exists l. split; [exact E|apply Hs].
Defined.
