(* ===== verification/Counters.v ===== *)
(** Counters and the capped allocator (cpp/inc/bond/ext).

    A capped allocator refuses to hand out more bytes than its counter allows.
    The counter comes in two kinds: one for a single thread, and one for several
    threads that adds by compare-and-exchange.  The interface between counter and
    allocator is a type class. *)

From S2P Require Import Prelude.

(** * The interface: [try_add], [subtract], [value], [max_value] *)

Class Counter (C : Type) := {
  try_add : Z -> M C bool;
  subtract : Z -> M C unit;
  value : C -> Z;
  max_value : C -> Z
}.

(** What a counter promises: additions that would pass the maximum are refused. *)
Class CounterLaws (C : Type) `{Counter C} := {
  counter_ok : C -> Prop;
  counter_range c : counter_ok c -> 0 <= value c <= max_value c;
  try_add_spec c n : counter_ok c -> fits 64 n ->
    exists c', try_add n c = (Ok (bool_decide (value c + n <= max_value c)), c') /\
      value c' = (if decide (value c + n <= max_value c) then value c + n else value c) /\
      max_value c' = max_value c /\ counter_ok c';
  subtract_spec c n : counter_ok c -> 0 <= n <= value c ->
    exists c', subtract n c = (Ok tt, c') /\ value c' = value c - n /\
      max_value c' = max_value c /\ counter_ok c'
}.

(** * [single_threaded_counter<T>], [T] unsigned of 64 bits *)

Record single_threaded_counter : Type := mkSTC { st_max : Z; st_value : Z }.

Definition single_threaded_counter_new (max : Z) : single_threaded_counter := mkSTC max 0.

Definition st_try_add (n : Z) : M single_threaded_counter bool :=
  let! c := get in
  if (n <=? st_max c) && (st_value c <=? wrap 64 (st_max c - n)) then
    put (mkSTC (st_max c) (wrap 64 (st_value c + n))) ;;; ret true
  else ret false.

Definition st_subtract (n : Z) : M single_threaded_counter unit :=
  modify (fun c => mkSTC (st_max c) (wrap 64 (st_value c - n))).

#[export] Instance single_threaded_counter_ops : Counter single_threaded_counter := {
  try_add := st_try_add;
  subtract := st_subtract;
  value := st_value;
  max_value := st_max
}.

Definition st_ok (c : single_threaded_counter) : Prop :=
  fits 64 (st_max c) /\ 0 <= st_value c <= st_max c.

Lemma st_try_add_run c n : st_ok c -> fits 64 n ->
  st_try_add n c =
    if decide (st_value c + n <= st_max c)
    then (Ok true, mkSTC (st_max c) (st_value c + n)) else (Ok false, c).
Proof.
  intros [Hm Hv] Hn. unfold st_try_add. rewrite bind_get. unfold fits in *.
  destruct (n <=? st_max c) eqn:E; cbn [andb].
  - apply Z.leb_le in E. rewrite (wrap_id 64 (st_max c - n)) by (unfold fits; lia).
    case_decide; zbool; [|done]. mrun. rewrite wrap_id by (unfold fits; lia). done.
  - apply Z.leb_gt in E. rewrite decide_False by lia. done.
Qed.

#[export] Instance single_threaded_counter_laws : CounterLaws single_threaded_counter.
Proof.
  refine {| counter_ok := st_ok |}.
  - intros c [_ H]. exact H.
  - intros c n Hok Hn. simpl. rewrite st_try_add_run by done. unfold fits in Hn.
    case_decide as Hle.
    + rewrite bool_decide_true by done. eexists. split; [done|]. simpl.
      split_and!; [done|done|]. destruct Hok. split; simpl; lia || done.
    + rewrite bool_decide_false by done. by exists c.
  - intros c n [Hm Hv] Hn. eexists. split; [reflexivity|]. simpl in *. unfold fits in Hm.
    rewrite wrap_id by (unfold fits; lia).
    split_and!; [done|done|]. split; simpl; [done|lia].
Defined.

(** * [multi_threaded_counter<T>] *)

(** The calling threads and the shared atomic.  A thread is outside of the counter,
    or at the compare-and-exchange of [try_add(n)] with the [val] it last loaded.
    [held] counts the units the thread was granted and has not returned. *)
Inductive call_state : Type :=
| Outside
| Trying (n val : Z).

Record thread : Type := mkThread { held : Z; at_ : call_state }.

Record multi_threaded_counter : Type := mkMTC {
  mt_max : Z;
  mt_value : Z;
  mt_threads : list thread
}.

Definition set_thread (c : multi_threaded_counter) (v : Z) (i : nat) (t : thread) :
    multi_threaded_counter :=
  mkMTC (mt_max c) v (<[i := t]> (mt_threads c)).

(** The atomic steps.  A load, also the one a failed exchange performs, may return
    an out-of-date value, so it may return any value of the type; only the
    exchange itself and [fetch_sub] act on the current one. *)
Inductive mt_step : multi_threaded_counter -> multi_threaded_counter -> Prop :=
| step_try_add c i h n val :
    mt_threads c !! i = Some (mkThread h Outside) ->
    fits 64 n -> n <= mt_max c -> fits 64 val ->
    mt_step c (set_thread c (mt_value c) i (mkThread h (Trying n val)))
| step_too_large c i h n val :
    mt_threads c !! i = Some (mkThread h (Trying n val)) ->
    ~ val <= wrap 64 (mt_max c - n) ->
    mt_step c (set_thread c (mt_value c) i (mkThread h Outside))
| step_exchange c i h n val :
    mt_threads c !! i = Some (mkThread h (Trying n val)) ->
    val <= wrap 64 (mt_max c - n) -> mt_value c = val ->
    mt_step c (set_thread c (wrap 64 (val + n)) i (mkThread (h + n) Outside))
| step_retry c i h n val val' :
    mt_threads c !! i = Some (mkThread h (Trying n val)) ->
    val <= wrap 64 (mt_max c - n) -> fits 64 val' ->
    mt_step c (set_thread c (mt_value c) i (mkThread h (Trying n val')))
| step_subtract c i h n :
    mt_threads c !! i = Some (mkThread h Outside) ->
    0 <= n <= h ->
    mt_step c (set_thread c (wrap 64 (mt_value c - n)) i (mkThread (h - n) Outside)).

Inductive mt_reachable (c0 : multi_threaded_counter) : multi_threaded_counter -> Prop :=
| reach_refl : mt_reachable c0 c0
| reach_step c1 c2 : mt_reachable c0 c1 -> mt_step c1 c2 -> mt_reachable c0 c2.

Definition mt_new (max : Z) (threads : nat) : multi_threaded_counter :=
  mkMTC max 0 (replicate threads (mkThread 0 Outside)).

(** [try_add] run by one thread without interference, as a function of the shared
    value; [compare_exchange_weak] may fail [spurious] times where it could succeed. *)
Fixpoint mt_loop (fuel spurious : nat) (max_val n val : Z) : M Z bool :=
  match fuel with
  | O => fail OutOfFuel
  | S fuel' =>
      if val <=? max_val then
        let! cur := get in
        match spurious with
        | S spurious' => mt_loop fuel' spurious' max_val n cur
        | O =>
            if cur =? val then put (wrap 64 (val + n)) ;;; ret true
            else mt_loop fuel' 0 max_val n cur
        end
      else ret false
  end.

Definition mt_try_add (spurious : nat) (max n : Z) : M Z bool :=
  if n <=? max then
    let! val := get in mt_loop (2 + spurious) spurious (wrap 64 (max - n)) n val
  else ret false.

Definition mt_subtract (n : Z) : M Z unit := modify (fun v => wrap 64 (v - n)).

(** ** Invariant *)

Definition total_held (ts : list thread) : Z := foldr Z.add 0 (held <$> ts).

Definition mt_ok (c : multi_threaded_counter) : Prop :=
  fits 64 (mt_max c) /\ 0 <= mt_value c <= mt_max c /\
  mt_value c = total_held (mt_threads c) /\
  Forall (fun t => 0 <= held t /\
    match at_ t with Outside => True | Trying n _ => 0 <= n <= mt_max c end) (mt_threads c).

Lemma total_held_cons t ts : total_held (t :: ts) = held t + total_held ts.
Proof. done. Qed.

Lemma total_held_insert ts i t t' : ts !! i = Some t ->
  total_held (<[i := t']> ts) = total_held ts - held t + held t'.
Proof.
  revert i. induction ts as [|x ts IH]; intros [|i] Hi; simplify_eq/=;
    rewrite !total_held_cons; [lia|]. rewrite (IH i Hi). lia.
Qed.

Lemma held_le_total ts i t : Forall (fun t => 0 <= held t) ts -> ts !! i = Some t ->
  held t <= total_held ts.
Proof.
  assert (Hpos : forall l, Forall (fun t => 0 <= held t) l -> 0 <= total_held l).
  { induction 1 as [|y l Hy _ IH]; [done|]. rewrite total_held_cons. lia. }
  intros Hf. revert i. induction Hf as [|x ts Hx Hf IH]; intros [|i] Hi; simplify_eq/=;
    rewrite total_held_cons; [specialize (Hpos ts Hf)|specialize (IH i Hi)]; lia.
Qed.

Lemma mt_step_ok c c' : mt_ok c -> mt_step c c' -> mt_ok c' /\ mt_max c' = mt_max c.
Proof.
  intros (Hm & Hv & Ht & Hf) Hs. split; [|by destruct Hs].
  assert (Hkeep : forall i t t' v, mt_threads c !! i = Some t -> 0 <= v <= mt_max c ->
    v = mt_value c - held t + held t' -> 0 <= held t' ->
    match at_ t' with Outside => True | Trying n _ => 0 <= n <= mt_max c end ->
    mt_ok (set_thread c v i t')).
  { intros i t t' v Hi Hrange Hval Hh Hat. unfold set_thread. split_and!; try done; simpl; try lia.
    - rewrite (total_held_insert _ _ t) by done. lia.
    - apply Forall_insert; [done|]. done. }
  destruct Hs as [c i h n val Hi Hn Hle Hval|c i h n val Hi Hgt|
    c i h n val Hi Hle Hcur|c i h n val val' Hi Hle Hval'|c i h n Hi Hn];
    pose proof (Forall_lookup_1 _ _ _ _ Hf Hi) as [Hh Hat]; cbn [held at_] in *; unfold fits in *.
  - apply (Hkeep i (mkThread h Outside)); simpl; try done; lia.
  - apply (Hkeep i (mkThread h (Trying n val))); simpl; try done; lia.
  - rewrite (wrap_id 64 (mt_max c - n)) in Hle by (unfold fits; lia).
    rewrite (wrap_id 64 (val + n)) by (unfold fits; lia).
    apply (Hkeep i (mkThread h (Trying n val))); simpl; try done; lia.
  - apply (Hkeep i (mkThread h (Trying n val))); simpl; try done; lia.
  - assert (h <= mt_value c).
    { rewrite Ht. apply (held_le_total _ i (mkThread h Outside)); [|done].
      eapply Forall_impl; [|exact Hf]. intros t [H0 _]. exact H0. }
    rewrite wrap_id by (unfold fits; lia).
    apply (Hkeep i (mkThread h Outside)); simpl; try done; lia.
Qed.

Lemma mt_new_ok max threads : fits 64 max -> mt_ok (mt_new max threads).
Proof.
  intros Hm. unfold fits in Hm. split_and!; simpl; try done; try lia.
  - induction threads as [|k IH]; [done|]. cbn [replicate]. by rewrite total_held_cons, <-IH.
  - by apply Forall_replicate.
Qed.

(** C29: whatever the interleaving of the threads' loads, exchanges and subtractions,
    and however stale the loads, the counter never exceeds its maximum and its
    value is exactly what the threads hold together: no addition is lost and none
    is granted twice. *)
Theorem multi_threaded_counter_safe max threads c :
  fits 64 max -> mt_reachable (mt_new max threads) c ->
  0 <= mt_value c <= max /\ mt_value c = total_held (mt_threads c).
Proof.
  intros Hm Hr. assert (Hok : mt_ok c /\ mt_max c = max).
  { induction Hr as [|c1 c2 Hr [IH Hmax] Hs]; [by split; [apply mt_new_ok|]|].
    destruct (mt_step_ok _ _ IH Hs) as [Hok2 ->]. done. }
  destruct Hok as [(_ & Hv & Ht & _) <-]. done.
Qed.

(** Two threads race to take 6 of 10; the second load is stale. *)
Lemma multi_threaded_counter_safe_witness :
  exists c, mt_reachable (mt_new 10 2) c /\ mt_value c = 6 /\ 0 <= mt_value c <= 10 /\
    mt_value c = total_held (mt_threads c).
Proof.
  exists (mkMTC 10 6 [mkThread 6 Outside; mkThread 0 (Trying 6 0)]).
  assert (Hr : mt_reachable (mt_new 10 2)
    (mkMTC 10 6 [mkThread 6 Outside; mkThread 0 (Trying 6 0)])).
  { set (c2 := mkMTC 10 0 [mkThread 0 (Trying 6 0); mkThread 0 (Trying 6 0)]).
    set (c1 := mkMTC 10 0 [mkThread 0 (Trying 6 0); mkThread 0 Outside]).
    apply (reach_step _ c2); [apply (reach_step _ c1);
      [apply (reach_step _ (mt_new 10 2)); [apply reach_refl|]|]|].
    - by apply (step_try_add (mt_new 10 2) 0 0 6 0).
    - by apply (step_try_add c1 1 0 6 0).
    - by apply (step_exchange c2 0 0 6 0). }
  split; [exact Hr|]. split; [reflexivity|].
  apply (multi_threaded_counter_safe 10 2 _ ltac:(by vm_compute) Hr).
Defined.

(** Without interference the compare-and-exchange loop ends after one exchange that does not
    fail and does what the single-threaded counter does. *)
Lemma mt_loop_alone spurious fuel max_val n v : (spurious < fuel)%nat ->
  mt_loop fuel spurious max_val n v v =
    if v <=? max_val then (Ok true, wrap 64 (v + n)) else (Ok false, v).
Proof.
  revert fuel. induction spurious as [|k IH]; intros [|fuel] Hf; try lia; cbn [mt_loop];
    (destruct (v <=? max_val) eqn:E; [|done]); rewrite bind_get.
  - by rewrite Z.eqb_refl.
  - rewrite IH by lia. done.
Qed.

Lemma multi_threaded_try_add_refines spurious max v n :
  fits 64 max -> 0 <= v <= max -> fits 64 n ->
  exists b v', mt_try_add spurious max n v = (Ok b, v') /\
    st_try_add n (mkSTC max v) = (Ok b, mkSTC max v').
Proof.
  intros Hm Hv Hn. rewrite st_try_add_run by done. unfold mt_try_add, fits in *. cbn [st_max st_value].
  destruct (n <=? max) eqn:E.
  - apply Z.leb_le in E. rewrite bind_get, mt_loop_alone by lia.
    rewrite (wrap_id 64 (max - n)) by (unfold fits; lia).
    case_decide; zbool; [|by exists false, v].
    rewrite (wrap_id 64 (v + n)) by (unfold fits; lia). by exists true, (v + n).
  - apply Z.leb_gt in E. rewrite decide_False by lia. by exists false, v.
Qed.

Lemma multi_threaded_try_add_refines_witness :
  exists b v', mt_try_add 3 10 4 5 = (Ok b, v') /\ b = true /\ v' = 9.
Proof.
  destruct (multi_threaded_try_add_refines 3 10 5 4) as (b & v' & E & _);
    [by vm_compute|lia|by vm_compute|].
  exists b, v'. assert (Hrun : mt_try_add 3 10 4 5 = (Ok true, 9)) by reflexivity.
  rewrite Hrun in E. by simplify_eq.
Defined.

(** ** The interface *)

(** A [multi_threaded_counter] that one thread uses, with the number of times the exchange of
    each call to come fails. *)
Record lone_counter : Type := mkLone { lone_max : Z; lone_value : Z; lone_spurious : list nat }.

Definition lone_try_add (n : Z) : M lone_counter bool := fun c =>
  let '(r, v) := mt_try_add (hd 0%nat (lone_spurious c)) (lone_max c) n (lone_value c) in
  (r, mkLone (lone_max c) v (tl (lone_spurious c))).
Definition lone_subtract (n : Z) : M lone_counter unit :=
  zoom lone_value (fun v c => mkLone (lone_max c) v (lone_spurious c)) (mt_subtract n).

#[export] Instance multi_threaded_counter_ops : Counter lone_counter := {
  try_add := lone_try_add;
  subtract := lone_subtract;
  value := lone_value;
  max_value := lone_max
}.

Definition lone_ok (c : lone_counter) : Prop :=
  fits 64 (lone_max c) /\ 0 <= lone_value c <= lone_max c.

(** Both counters implement the interface. *)
#[export] Instance multi_threaded_counter_laws : CounterLaws lone_counter.
Proof.
  refine {| counter_ok := lone_ok |}.
  - intros c [_ H]. exact H.
  - intros [max v l] n [Hm Hv] Hn. cbn [lone_max lone_value] in *.
    destruct (multi_threaded_try_add_refines (hd 0%nat l) max v n Hm Hv Hn) as (b & v' & E & Es).
    rewrite st_try_add_run in Es by done. cbn [st_max st_value] in Es.
    cbn. unfold lone_try_add. cbn [lone_max lone_value lone_spurious]. rewrite E.
    unfold lone_ok, fits in *. case_decide; injection Es as <- <-;
      [rewrite bool_decide_true by done|rewrite bool_decide_false by done];
      (eexists; split; [reflexivity|]); cbn [lone_max lone_value]; split_and!; (done || lia).
  - intros [max v l] n [Hm Hv] Hn. eexists. split; [reflexivity|].
    unfold lone_ok, fits in *. cbn in *. rewrite wrap_id by (unfold fits; lia).
    split_and!; (done || lia).
Defined.
