(* ===== verification/CappedAllocator.v ===== *)
(** The capped allocator (cpp/inc/bond/ext/capped_allocator.h).

    An adapter that asks its counter before it passes an allocation on to the
    allocator it wraps.  The wrapped allocator is not part of this code: it is a
    parameter that may return memory or throw.  The counter is used through its
    interface. *)

From S2P Require Import Prelude Counters.

(** * The wrapped allocator ([std::allocator_traits<Alloc>]) *)

Class BaseAllocator (A Ptr : Type) := {
  base_allocate : Z -> M A Ptr;
  base_deallocate : Ptr -> Z -> M A unit;
  base_max_size : A -> Z
}.

(** What an allocator does: [allocate] returns or throws, [deallocate] returns. *)
Class BaseAllocatorLaws (A Ptr : Type) `{BaseAllocator A Ptr} := {
  base_allocate_returns n a : forall e, fst (base_allocate n a) = Err e -> exists x, e = Thrown x;
  base_deallocate_returns p n a : fst (base_deallocate p n a) = Ok tt
}.

Section CappedAllocator.
Context {C A Ptr : Type} `{CounterLaws C} `{BaseAllocatorLaws A Ptr}.
(** [sizeof(value_type)]. *)
Context (sizeof : Z).

Record capped_allocator : Type := mkCA {
  ca_count : C;
  ca_alloc : A;
  ca_subtract_on_deallocate : bool
}.

Definition on_count {R} (m : M C R) : M capped_allocator R :=
  zoom ca_count (fun c s => mkCA c (ca_alloc s) (ca_subtract_on_deallocate s)) m.
Definition on_alloc {R} (m : M A R) : M capped_allocator R :=
  zoom ca_alloc (fun a s => mkCA (ca_count s) a (ca_subtract_on_deallocate s)) m.

(** [try { m } catch (...) { handler; throw; }]. *)
Definition rethrow {S R} (m : M S R) (handler : M S unit) : M S R :=
  fun s => match m s with
           | (Err (Thrown x), s') => (handler ;;; throw x) s'
           | r => r
           end.

(** The product is a [size_type] and may wrap. *)
Definition allocate (n : Z) : M capped_allocator Ptr :=
  let size := wrap 64 (n * sizeof) in
  let! granted := on_count (try_add size) in
  if granted then rethrow (on_alloc (base_allocate n)) (on_count (subtract size))
  else throw BadAlloc.

Definition deallocate (ptr : Ptr) (n : Z) : M capped_allocator unit :=
  on_alloc (base_deallocate ptr n) ;;;
  let! s := get in
  if ca_subtract_on_deallocate s then on_count (subtract (wrap 64 (n * sizeof))) else ret tt.

Definition max_size (s : capped_allocator) : Z :=
  Z.min (max_value (ca_count s) / sizeof) (base_max_size (ca_alloc s)).

(** ** A client *)

(** A client allocates and gives back what it holds; an exception leaves its
    holdings as they were.  [returned] is what it gave back. *)
Inductive client_op : Type :=
| Allocate (n : Z)
| Deallocate (k : nat).

Record client : Type := mkClient {
  adapter : capped_allocator;
  live : list (Ptr * Z);
  returned : list (Ptr * Z)
}.

Definition run_client (op : client_op) (st : client) : client :=
  let '(mkClient s live returned) := st in
  match op with
  | Allocate n =>
      match allocate n s with
      | (Ok p, s') => mkClient s' ((p, n) :: live) returned
      | (Err _, s') => mkClient s' live returned
      end
  | Deallocate k =>
      match live !! k with
      | Some (p, n) => mkClient (snd (deallocate p n s)) (delete k live) ((p, n) :: returned)
      | None => st
      end
  end.

Definition bytes_of (blocks : list (Ptr * Z)) : Z :=
  foldr Z.add 0 ((fun b => snd b * sizeof) <$> blocks).

(** The bytes on the counter: those the client holds and, when the adapter does not
    subtract, those it gave back. *)
Definition counted (st : client) : Z :=
  bytes_of (live st) +
  (if ca_subtract_on_deallocate (adapter st) then 0 else bytes_of (returned st)).

Definition accounted (st : client) : Prop :=
  let c := ca_count (adapter st) in
  counter_ok c /\ max_value c < 2 ^ 64 /\ value c = counted st /\
  Forall (fun b => 0 <= snd b) (live st) /\ Forall (fun b => 0 <= snd b) (returned st).

(** The number of bytes of a request is a [size_type]. *)
Definition op_ok (op : client_op) : Prop :=
  match op with Allocate n => 0 <= n /\ n * sizeof < 2 ^ 64 | Deallocate _ => True end.

(** ** Correctness *)

Context (sizeof_pos : 0 < sizeof).

Lemma on_count_run {R} (m : M C R) s c' r : m (ca_count s) = (r, c') ->
  on_count m s = (r, mkCA c' (ca_alloc s) (ca_subtract_on_deallocate s)).
Proof. intros Hm. unfold on_count, zoom. by rewrite Hm. Qed.

(** The three outcomes of an allocation. *)
Lemma allocate_run n s : counter_ok (ca_count s) -> 0 <= n -> n * sizeof < 2 ^ 64 ->
  exists r s', allocate n s = (r, s') /\ counter_ok (ca_count s') /\
    max_value (ca_count s') = max_value (ca_count s) /\
    ca_subtract_on_deallocate s' = ca_subtract_on_deallocate s /\
    value (ca_count s') =
      match r with Ok _ => value (ca_count s) + n * sizeof | Err _ => value (ca_count s) end /\
    match r with
    | Ok _ => value (ca_count s) + n * sizeof <= max_value (ca_count s)
    | Err e => exists x, e = Thrown x
    end.
Proof.
  intros Hok Hn Hsz. unfold allocate.
  assert (Hfit : fits 64 (n * sizeof)) by (unfold fits; nia). rewrite wrap_id by done.
  destruct (try_add_spec (ca_count s) (n * sizeof) Hok Hfit) as (c1 & E1 & V1 & M1 & O1).
  cbv zeta. rewrite (bind_ok _ _ _ _ _ (on_count_run _ _ _ _ E1)).
  case_decide as Hle; [rewrite bool_decide_true by done|rewrite bool_decide_false by done].
  2: { eexists _, _. split; [reflexivity|]. simpl. split_and!; try done. by exists BadAlloc. }
  unfold rethrow, on_alloc, zoom. cbn [ca_alloc].
  pose proof (base_allocate_returns n (ca_alloc s)) as Hret.
  destruct (base_allocate n (ca_alloc s)) as [[p|e] a1]; cbn [fst] in Hret.
  - eexists _, _. split; [reflexivity|]. by simpl.
  - destruct (Hret e eq_refl) as [x ->]. cbn [ca_count ca_subtract_on_deallocate].
    destruct (subtract_spec c1 (n * sizeof) O1) as (c2 & E2 & V2 & M2 & O2).
    { destruct (counter_range _ Hok). unfold fits in Hfit. rewrite V1. lia. }
    rewrite (bind_ok _ _ _ _ _ (on_count_run _ (mkCA c1 a1 _) _ _ E2)).
    eexists _, _. split; [reflexivity|]. simpl. split_and!; [done|lia|done|lia|by exists x].
Qed.

Lemma deallocate_run p n s : counter_ok (ca_count s) ->
  0 <= n * sizeof <= value (ca_count s) -> n * sizeof < 2 ^ 64 ->
  exists s', deallocate p n s = (Ok tt, s') /\ counter_ok (ca_count s') /\
    max_value (ca_count s') = max_value (ca_count s) /\
    ca_subtract_on_deallocate s' = ca_subtract_on_deallocate s /\
    value (ca_count s') =
      value (ca_count s) - (if ca_subtract_on_deallocate s then n * sizeof else 0).
Proof.
  intros Hok Hle Hlt. unfold deallocate, on_alloc, zoom, bind at 1.
  pose proof (base_deallocate_returns p n (ca_alloc s)) as Hret.
  destruct (base_deallocate p n (ca_alloc s)) as [o a1]. cbn [fst] in Hret. subst o.
  rewrite bind_get. cbn [ca_subtract_on_deallocate].
  destruct (ca_subtract_on_deallocate s) eqn:Es.
  - rewrite wrap_id by (unfold fits; lia).
    destruct (subtract_spec (ca_count s) (n * sizeof) Hok Hle) as (c2 & E2 & V2 & M2 & O2).
    rewrite (on_count_run _ (mkCA (ca_count s) a1 true) _ _ E2).
    eexists. split; [reflexivity|]. done.
  - eexists. split; [reflexivity|]. cbn. split_and!; (done || lia).
Qed.

Lemma bytes_of_cons b blocks : bytes_of (b :: blocks) = snd b * sizeof + bytes_of blocks.
Proof. done. Qed.

Lemma bytes_of_delete blocks k p n : blocks !! k = Some (p, n) ->
  bytes_of blocks = n * sizeof + bytes_of (delete k blocks).
Proof.
  revert k. induction blocks as [|b blocks IH]; intros [|k] Hk; simplify_eq/=; [done|].
  change (delete (S k) (b :: blocks)) with (b :: delete k blocks).
  rewrite !bytes_of_cons, (IH k Hk). lia.
Qed.

Lemma bytes_of_pos blocks : Forall (fun b => 0 <= snd b) blocks -> 0 <= bytes_of blocks.
Proof.
  induction 1 as [|b blocks Hb _ IH]; [done|]. rewrite bytes_of_cons. nia.
Qed.

Lemma run_client_accounted op st : op_ok op -> accounted st ->
  accounted (run_client op st) /\
  max_value (ca_count (adapter (run_client op st))) = max_value (ca_count (adapter st)) /\
  ca_subtract_on_deallocate (adapter (run_client op st)) = ca_subtract_on_deallocate (adapter st).
Proof.
  destruct st as [s blocks back]. intros Hop (Hok & Hmax & Hval & Hpos & Hback).
  unfold counted in Hval. cbn [adapter live returned] in *.
  destruct op as [n|k]; cbn [run_client op_ok] in *.
  - destruct (allocate_run n s Hok) as (r & s' & E & O & M' & S' & V & _); [apply Hop..|].
    rewrite E. destruct r as [p|e]; (split; [|done]); unfold accounted, counted;
      cbn [adapter live returned]; rewrite S', M'; split_and!; try done.
    + rewrite bytes_of_cons. cbn [snd]. lia.
    + constructor; [apply Hop|done].
    + lia.
  - destruct (blocks !! k) as [[p n]|] eqn:Hk; [|done].
    pose proof (bytes_of_delete blocks k p n Hk) as Hdel.
    assert (Hposd : Forall (fun b => 0 <= snd b) (delete k blocks)) by by apply Forall_delete.
    pose proof (bytes_of_pos _ Hposd). pose proof (bytes_of_pos _ Hback).
    pose proof (Forall_lookup_1 _ _ _ _ Hpos Hk) as Hn. cbn [snd] in Hn.
    destruct (counter_range _ Hok) as [_ Hrange]. assert (0 <= n * sizeof) by nia.
    destruct (deallocate_run p n s Hok) as (s' & E & O & M' & S' & V);
      [destruct (ca_subtract_on_deallocate s); lia..|].
    rewrite E. cbn [snd]. (split; [|done]). unfold accounted, counted. cbn [adapter live returned].
    rewrite S', M', bytes_of_cons. cbn [snd]. split_and!; try done.
    + destruct (ca_subtract_on_deallocate s); lia.
    + by constructor.
Qed.

(** C32: whatever a client allocates and gives back, and whenever the wrapped allocator
    throws, the counter stays equal to the number of bytes the client holds; with
    [subtract_on_deallocate] false, to those it was ever granted.  So the bytes it holds
    never exceed the counter's maximum.  The client starts with a counter
    that agrees with what it holds, as a new one does.  The one condition is that the number of
    bytes of each request is less than 2^64: the product with the size of an element is not checked,
    and [allocate_wraps] shows the cap passed by a request whose product wraps.  The theorem
    is about any counter that implements the interface; the single-threaded counter does,
    and the multi-threaded one used by one thread. *)
Theorem capped_allocator_accounts ops st :
  Forall op_ok ops -> accounted st ->
  let st' := foldl (fun st op => run_client op st) st ops in
  value (ca_count (adapter st')) = counted st' /\
  0 <= bytes_of (live st') <= counted st' /\
  counted st' <= max_value (ca_count (adapter st)) /\ accounted st'.
Proof.
  intros Hops. revert st. induction Hops as [|op ops Hop Hops IH]; intros st Hst st'.
  - subst st'. cbn [foldl]. pose proof Hst as (Hok & _ & Hval & Hpos & Hback).
    pose proof (bytes_of_pos _ Hpos). pose proof (bytes_of_pos _ Hback).
    pose proof (counter_range _ Hok). rewrite <-Hval. split_and!; try done; try lia.
    rewrite Hval. unfold counted. destruct (ca_subtract_on_deallocate _); lia.
  - destruct (run_client_accounted op st Hop Hst) as (Hst1 & Hmax & _).
    subst st'. cbn [foldl]. rewrite <-Hmax. by apply IH.
Qed.

(** An allocation that does not succeed throws and leaves the count as it was;
    one that succeeds stays within the maximum. *)
Lemma allocate_outcomes n s :
  counter_ok (ca_count s) -> 0 <= n -> n * sizeof < 2 ^ 64 ->
  match allocate n s with
  | (Ok _, s') => value (ca_count s') = value (ca_count s) + n * sizeof /\
      value (ca_count s') <= max_value (ca_count s)
  | (Err e, s') => (exists x, e = Thrown x) /\ value (ca_count s') = value (ca_count s)
  end.
Proof.
  intros Hok Hn Hsz. destruct (allocate_run n s Hok Hn Hsz) as (r & s' & -> & _ & _ & _ & V & R).
  destruct r; [by rewrite V|done].
Qed.

(** The cap is not enforced on a request whose byte count wraps: for a number of
    elements that is a multiple of 2^64 bytes the counter is asked for nothing, and
    the request reaches the wrapped allocator even when the cap is used up. *)
Lemma allocate_wraps n s :
  counter_ok (ca_count s) -> n * sizeof mod 2 ^ 64 = 0 ->
  exists c', allocate n s =
    rethrow (on_alloc (base_allocate n)) (on_count (subtract 0))
      (mkCA c' (ca_alloc s) (ca_subtract_on_deallocate s)) /\
    value c' = value (ca_count s).
Proof.
  intros Hok Hw. unfold allocate. unfold wrap at 1 2. rewrite Hw. cbv zeta.
  destruct (try_add_spec (ca_count s) 0 Hok) as (c1 & E1 & V1 & _); [done|].
  destruct (counter_range _ Hok) as [_ Hr].
  rewrite (bind_ok _ _ _ _ _ (on_count_run _ _ _ _ E1)).
  rewrite bool_decide_true by lia. exists c1. split; [done|]. rewrite V1.
  rewrite decide_True by lia. lia.
Qed.
End CappedAllocator.

(** * A concrete instance *)

(** An allocator that numbers its blocks and refuses more than 100 elements. *)
Definition counting_allocate (n : Z) : M Z Z := fun next =>
  if 100 <? n then (Err (Thrown BadAlloc), next) else (Ok next, next + 1).

#[export] Instance counting_allocator : BaseAllocator Z Z := {
  base_allocate := counting_allocate;
  base_deallocate _ _ := ret tt;
  base_max_size _ := 100
}.

#[export] Instance counting_allocator_laws : BaseAllocatorLaws Z Z.
Proof.
  split; [|done]. intros n a e. simpl. unfold counting_allocate.
  case_match; simpl; [|done]. intros [= <-]. by exists BadAlloc.
Qed.

Definition fresh_client : client (C := single_threaded_counter) (A := Z) (Ptr := Z) :=
  mkClient (mkCA (single_threaded_counter_new 1000) 0 true) [] [].

(** With a counter for several threads, whose exchanges fail now and then, and without
    subtraction. *)
Definition fresh_client_mt : client (C := lone_counter) (A := Z) (Ptr := Z) :=
  mkClient (mkCA (mkLone 1000 0 [1; 0; 3]%nat) 0 false) [] [].

Lemma fresh_accounted : accounted 8 fresh_client /\ accounted 8 fresh_client_mt.
Proof. by repeat split; vm_compute. Qed.

Definition sample_ops : list client_op :=
  [Allocate 50; Allocate 100; Allocate 60; Deallocate 1; Allocate 101].

Lemma capped_allocator_accounts_witness :
  let run C `{Counter C} := foldl (fun (st : client (C := C)) op => run_client 8 op st) in
  let st := run _ fresh_client sample_ops in
  let mt := run _ fresh_client_mt sample_ops in
  (value (ca_count (adapter st)) = 480 /\ 0 <= bytes_of 8 (live st) <= 480) /\
  (value (ca_count (adapter mt)) = 880 /\ 0 <= bytes_of 8 (live mt) <= 880).
Proof.
  assert (Hops : Forall (op_ok 8) sample_ops) by by repeat constructor.
  destruct (capped_allocator_accounts 8 ltac:(lia) _ fresh_client Hops (proj1 fresh_accounted))
    as (_ & Hr & _).
  destruct (capped_allocator_accounts 8 ltac:(lia) _ fresh_client_mt Hops (proj2 fresh_accounted))
    as (_ & Hm & _).
  exact (conj (conj eq_refl Hr) (conj eq_refl Hm)).
Defined.

Lemma fresh_ok : counter_ok (ca_count (adapter fresh_client)).
Proof. by repeat split; vm_compute. Qed.

Lemma allocate_outcomes_witness :
  exists s', allocate 8 101 (adapter fresh_client) = (Err (Thrown BadAlloc), s') /\
    value (ca_count s') = 0.
Proof.
  assert (E : allocate 8 101 (adapter fresh_client) = (Err (Thrown BadAlloc), adapter fresh_client))
    by reflexivity.
  pose proof (allocate_outcomes 8 eq_refl 101 (adapter fresh_client) fresh_ok) as Ho.
  rewrite E in Ho. destruct Ho as [_ Hv]; [lia|reflexivity|].
  exists (adapter fresh_client). exact (conj E Hv).
Defined.

Lemma full_ok : counter_ok (mkSTC 1000 1000).
Proof. by repeat split; vm_compute. Qed.

Lemma allocate_wraps_witness :
  exists c', allocate 8 (2 ^ 61) (mkCA (mkSTC 1000 1000) 0 true) =
    rethrow (on_alloc (base_allocate (2 ^ 61))) (on_count (subtract 0)) (mkCA c' 0 true) /\
    value c' = 1000.
Proof.
  apply (allocate_wraps 8 (2 ^ 61) (mkCA (mkSTC 1000 1000) 0 true) full_ok). reflexivity.
Defined.
