(* ===== verification/WaitCallback.v ===== *)
(** [wait_callback] of the gRPC extension (cpp/inc/bond/ext/grpc/wait_callback.h).

    A callback that records the result of a call and lets other threads wait for it.
    Its state is a mutex, a condition variable and an optional result; the threads
    that call its members are interleaved at every lock, unlock, wait and
    notification.  The condition variable may wake a thread for no reason, and a timed
    wait may time out at any moment. *)

From S2P Require Import Prelude.

Section WaitCallback.
Context {R : Type}.

(** * The state *)

(** The members a thread may call: [operator()], [wait], [wait_for], and [response],
    [status] and [context], which wait and then read the result. *)
Inductive wait_kind : Set := Wait | WaitFor | Access.
Inductive call : Type := Invoke (r : R) | Await (k : wait_kind).

(** Where a thread is in its call. *)
Inductive location : Type :=
(* operator() *)
| Invoking (r : R)
| Storing (r : R)
| Leaving (stored : bool)
| Notifying
| Invoked
| Rejected
(* wait, wait_for, response *)
| Waiting (k : wait_kind)
| Testing (k : wait_kind)
| Blocked (k : wait_kind)
| Woken (k : wait_kind)
| TimedOut
| Retesting
| Unlocking (k : wait_kind) (b : bool)
| Returned (b : bool)
| Reading
| Got (r : option R).

(** [wait_callback::state], with the threads.  The condition variable is the set of
    threads that are [Blocked]. *)
Record wait_callback : Type := mkWC {
  wc_owner : option nat;
  wc_result : option R;
  wc_threads : list location
}.

Definition has_result (c : wait_callback) : bool := bool_decide (is_Some (wc_result c)).

(** * The steps of a thread *)

Definition lock (i : nat) (p : location) (c : wait_callback) : option wait_callback :=
  match wc_owner c with
  | None => Some (mkWC (Some i) (wc_result c) (<[i := p]> (wc_threads c)))
  | Some _ => None
  end.
Definition unlock (i : nat) (p : location) (c : wait_callback) : option wait_callback :=
  Some (mkWC None (wc_result c) (<[i := p]> (wc_threads c))).
Definition goto (i : nat) (p : location) (c : wait_callback) : option wait_callback :=
  Some (mkWC (wc_owner c) (wc_result c) (<[i := p]> (wc_threads c))).

(** [notify_all] wakes the threads that are blocked. *)
Definition wake (p : location) : location := match p with Blocked k => Woken k | _ => p end.

(** [operator()]: [lock_guard], the test and the assignment, the end of the scope (by
    the exception too), [notify_all]. *)
Definition invoke_step (i : nat) (p : location) (c : wait_callback) : option wait_callback :=
  match p with
  | Invoking r => lock i (Storing r) c
  | Storing r =>
      match wc_result c with
      | None => Some (mkWC (wc_owner c) (Some r) (<[i := Leaving true]> (wc_threads c)))
      | Some _ => goto i (Leaving false) c
      end
  | Leaving true => unlock i Notifying c
  | Leaving false => unlock i Rejected c
  | Notifying =>
      Some (mkWC (wc_owner c) (wc_result c) (<[i := Invoked]> (wake <$> wc_threads c)))
  | _ => None
  end.

(** [wait] and [wait_for]: [unique_lock], then [while (!pred()) wait(lock)], which
    releases the mutex while it blocks and takes it again; a [wait_for] that times out
    returns what the predicate says.  [response] and the others go on to read the
    result, without the mutex. *)
Definition wait_step (i : nat) (p : location) (c : wait_callback) : option wait_callback :=
  match p with
  | Waiting k | Woken k => lock i (Testing k) c
  | Testing k => if has_result c then goto i (Unlocking k true) c else unlock i (Blocked k) c
  | TimedOut => lock i Retesting c
  | Retesting => goto i (Unlocking WaitFor (has_result c)) c
  | Unlocking Access _ => unlock i Reading c
  | Unlocking _ b => unlock i (Returned b) c
  | Reading => goto i (Got (wc_result c)) c
  | _ => None
  end.

(** What can happen next: a thread runs, a blocked one wakes up without a
    notification, or its time is out. *)
Inductive event : Type := Run (i : nat) | Spurious (i : nat) | Timeout (i : nat).

Definition perform (e : event) (c : wait_callback) : option wait_callback :=
  match e with
  | Run i =>
      p ← wc_threads c !! i;
      match p with
      | Invoking _ | Storing _ | Leaving _ | Notifying => invoke_step i p c
      | _ => wait_step i p c
      end
  | Spurious i =>
      p ← wc_threads c !! i;
      match p with Blocked k => goto i (Woken k) c | _ => None end
  | Timeout i =>
      p ← wc_threads c !! i;
      match p with Blocked WaitFor => goto i TimedOut c | _ => None end
  end.

Inductive runs : wait_callback -> list event -> wait_callback -> Prop :=
| runs_nil c : runs c [] c
| runs_cons c e c' es c'' : perform e c = Some c' -> runs c' es c'' -> runs c (e :: es) c''.

Definition begin (a : call) : location :=
  match a with Invoke r => Invoking r | Await k => Waiting k end.
Definition start (calls : list call) : wait_callback := mkWC None None (begin <$> calls).

Definition finished (p : location) : bool :=
  match p with Invoked | Rejected | Returned _ | Got _ => true | _ => false end.

(** * Invariant *)

Definition holds (p : location) : bool :=
  match p with
  | Storing _ | Leaving _ | Testing _ | Retesting | Unlocking _ _ => true
  | _ => false
  end.
Definition accepted (p : location) : bool :=
  match p with Leaving true | Notifying | Invoked => true | _ => false end.
Definition notifier (p : location) : bool :=
  match p with Leaving true | Notifying => true | _ => false end.
Definition blocked (p : location) : bool := match p with Blocked _ => true | _ => false end.

(** The locations of a call. *)
Definition within (a : call) (p : location) : Prop :=
  match a, p with
  | Invoke r, (Invoking r' | Storing r') => r' = r
  | Invoke _, (Leaving _ | Notifying | Invoked | Rejected) => True
  | Await k, (Waiting k' | Testing k' | Blocked k' | Woken k' | Unlocking k' _) => k' = k
  | Await k, (TimedOut | Retesting) => k = WaitFor
  | Await k, Returned b => k = WaitFor \/ k = Wait /\ b = true
  | Await k, (Reading | Got _) => k = Access
  | _, _ => False
  end.

(** What a location says about the result. *)
Definition knows (result : option R) (p : location) : Prop :=
  match p with
  | Leaving _ | Notifying | Invoked | Rejected | Reading => is_Some result
  | Unlocking k b => (b = true -> is_Some result) /\ (k <> WaitFor -> b = true)
  | Returned b => b = true -> is_Some result
  | Got o => o = result /\ is_Some result
  | _ => True
  end.

(** The mutex is held by the thread that owns it; the result is the argument of the one
    invocation that was accepted; while a thread is blocked and there is a result, a
    notification is still to come. *)
Record wc_ok (calls : list call) (c : wait_callback) : Prop := mkOk {
  ok_within : Forall2 within calls (wc_threads c);
  ok_owner i p : wc_threads c !! i = Some p -> holds p = bool_decide (wc_owner c = Some i);
  ok_owned i : wc_owner c = Some i -> is_Some (wc_threads c !! i);
  ok_knows i p : wc_threads c !! i = Some p -> knows (wc_result c) p;
  ok_fresh i p : wc_result c = None -> wc_threads c !! i = Some p -> accepted p = false;
  ok_accepted r : wc_result c = Some r -> exists i, calls !! i = Some (Invoke r) /\
    forall j p, wc_threads c !! j = Some p -> accepted p = bool_decide (j = i);
  ok_notified i p : wc_threads c !! i = Some p -> blocked p = true -> is_Some (wc_result c) ->
    exists j q, wc_threads c !! j = Some q /\ notifier q = true
}.

Lemma lookup_set {A} (l : list A) i p p' j q : l !! i = Some p -> <[i := p']> l !! j = Some q ->
  j = i /\ q = p' \/ j <> i /\ l !! j = Some q.
Proof.
  intros Hi Hj. apply list_lookup_insert_Some in Hj as [(-> & -> & _)|[? ?]]; auto.
Qed.

(** The mutex before and after a move from [p] to [p']. *)
Definition mutex_moves (i : nat) (p p' : location) (o o' : option nat) : Prop :=
  o' = o /\ holds p' = holds p \/
  o = None /\ o' = Some i /\ holds p' = true \/
  holds p = true /\ o' = None /\ holds p' = false.

(** A thread moves and the result stays. *)
Lemma moves_ok calls c i p p' o' : wc_ok calls c -> wc_threads c !! i = Some p ->
  (forall a, within a p -> within a p') -> mutex_moves i p p' (wc_owner c) o' ->
  knows (wc_result c) p' -> accepted p' = accepted p -> notifier p' = notifier p ->
  (blocked p' = true -> wc_result c = None) ->
  wc_ok calls (mkWC o' (wc_result c) (<[i := p']> (wc_threads c))).
Proof.
  intros [] Hi Hw Hm Hk Ha Hn Hb.
  assert (Hp := ok_owner0 _ _ Hi). split; cbn [wc_owner wc_result wc_threads].
  - rewrite Forall2_lookup in *. intros j. destruct (decide (j = i)) as [->|?].
    + rewrite list_lookup_insert_eq by by eapply lookup_lt_Some. specialize (ok_within0 i).
      rewrite Hi in ok_within0. inversion ok_within0; subst. constructor. auto.
    + by rewrite list_lookup_insert_ne.
  - intros j q Hj. apply (lookup_set _ _ _ _ _ _ Hi) in Hj as [[-> ->]|[Hne Hj]].
    + destruct Hm as [[-> ->]|[(? & -> & ->)|(? & -> & ->)]]; [done| |done].
      by rewrite bool_decide_true.
    + rewrite (ok_owner0 _ _ Hj). destruct Hm as [[-> ?]|[(E & -> & ?)|(Hh & -> & ?)]]; [done| |].
      * rewrite !bool_decide_false by congruence. done.
      * rewrite Hh in Hp. symmetry in Hp. apply bool_decide_eq_true in Hp. rewrite Hp.
        rewrite !bool_decide_false by congruence. done.
  - intros j Hj. apply lookup_lt_is_Some. rewrite length_insert.
    apply lookup_lt_is_Some.
    destruct Hm as [[-> ?]|[(? & -> & ?)|(? & -> & ?)]]; [|by simplify_eq|done].
    eauto.
  - intros j q Hj. apply (lookup_set _ _ _ _ _ _ Hi) in Hj as [[-> ->]|[Hne Hj]]; eauto.
  - intros j q Hr Hj. apply (lookup_set _ _ _ _ _ _ Hi) in Hj as [[-> ->]|[Hne Hj]]; [|eauto].
    rewrite Ha. eauto.
  - intros r Hr. destruct (ok_accepted0 r Hr) as (j & Hj & Hall). exists j. split; [done|].
    intros j' q Hj'. apply (lookup_set _ _ _ _ _ _ Hi) in Hj' as [[-> ->]|[Hne Hj']]; [|eauto].
    rewrite Ha. eauto.
  - intros j q Hj Hbl Hs.
    assert (Hold : exists j q, wc_threads c !! j = Some q /\ notifier q = true).
    { apply (lookup_set _ _ _ _ _ _ Hi) in Hj as [[-> ->]|[Hne Hj]]; [|eauto].
      rewrite (Hb Hbl) in Hs. by destruct Hs. }
    destruct Hold as (j' & q' & Hj' & Hq'). destruct (decide (j' = i)) as [->|?].
    + exists i, p'. rewrite list_lookup_insert_eq by by eapply lookup_lt_Some.
      split; [done|]. simplify_eq. congruence.
    + exists j', q'. by rewrite list_lookup_insert_ne.
Qed.

Lemma knows_stored p r : knows None p -> knows (Some r) p.
Proof.
  assert (H : ~ is_Some (@None R)) by by intros [].
  destruct p; cbn; try done; [|naive_solver..].
  intros [H1 H2]. split; [|done]. by intros ?%H1.
Qed.

(** The accepted invocation stores its result. *)
Lemma store_ok calls c i r : wc_ok calls c -> wc_threads c !! i = Some (Storing r) ->
  wc_result c = None ->
  wc_ok calls (mkWC (wc_owner c) (Some r) (<[i := Leaving true]> (wc_threads c))).
Proof.
  intros [] Hi Hr.
  assert (Hc : calls !! i = Some (Invoke r)).
  { rewrite Forall2_lookup in ok_within0. specialize (ok_within0 i). rewrite Hi in ok_within0.
    inversion ok_within0 as [[|] ? Hw|]; subst; cbn in Hw; by subst. }
  split; cbn [wc_owner wc_result wc_threads].
  - rewrite Forall2_lookup in *. intros j. destruct (decide (j = i)) as [->|?].
    + rewrite list_lookup_insert_eq by by eapply lookup_lt_Some. rewrite Hc. by constructor.
    + by rewrite list_lookup_insert_ne.
  - intros j q Hj. apply (lookup_set _ _ _ _ _ _ Hi) in Hj as [[-> ->]|[Hne Hj]]; [|eauto].
    by rewrite <-(ok_owner0 _ _ Hi).
  - intros j Hj. apply lookup_lt_is_Some. rewrite length_insert. apply lookup_lt_is_Some. eauto.
  - intros j q Hj. apply (lookup_set _ _ _ _ _ _ Hi) in Hj as [[-> ->]|[Hne Hj]]; [by eexists|].
    apply knows_stored. rewrite <-Hr. eauto.
  - done.
  - intros r' [= <-]. exists i. split; [done|]. intros j q Hj.
    apply (lookup_set _ _ _ _ _ _ Hi) in Hj as [[-> ->]|[Hne Hj]].
    + by rewrite bool_decide_true.
    + rewrite bool_decide_false by done. eauto.
  - intros. exists i, (Leaving true). rewrite list_lookup_insert_eq by by eapply lookup_lt_Some.
    done.
Qed.

(** The accepted invocation notifies; no thread is blocked any more. *)
Lemma notify_ok calls c i : wc_ok calls c -> wc_threads c !! i = Some Notifying ->
  wc_ok calls (mkWC (wc_owner c) (wc_result c) (<[i := Invoked]> (wake <$> wc_threads c))).
Proof.
  intros H Hi. pose proof (ok_knows _ _ H _ _ Hi) as Hs. destruct H.
  assert (Hi' : (wake <$> wc_threads c) !! i = Some Notifying) by by rewrite list_lookup_fmap, Hi.
  assert (Hold : forall j q, <[i := Invoked]> (wake <$> wc_threads c) !! j = Some q ->
    blocked q = false /\ exists p, wc_threads c !! j = Some p /\ holds q = holds p /\
      accepted q = accepted p /\ knows (wc_result c) q).
  { intros j q Hj. apply (lookup_set _ _ _ _ _ _ Hi') in Hj as [[-> ->]|[Hne Hj]].
    - split; [done|]. by exists Notifying.
    - rewrite list_lookup_fmap in Hj. destruct (wc_threads c !! j) as [p|] eqn:E; [|done].
      injection Hj as <-. specialize (ok_knows0 _ _ E).
      split; [by destruct p|]. exists p. by destruct p. }
  split; cbn [wc_owner wc_result wc_threads].
  - rewrite Forall2_lookup in *. intros j. specialize (ok_within0 j).
    destruct (decide (j = i)) as [->|?].
    + rewrite list_lookup_insert_eq by by eapply lookup_lt_Some. rewrite Hi in ok_within0.
      inversion ok_within0 as [[|] ? Hw|]; subst; by constructor.
    + rewrite list_lookup_insert_ne, list_lookup_fmap by done.
      inversion ok_within0 as [a p Hw|]; cbn; constructor. by destruct a, p.
  - intros j q Hj. destruct (Hold _ _ Hj) as (_ & p & Hp & -> & _). eauto.
  - intros j Hj. apply lookup_lt_is_Some. rewrite length_insert, length_fmap.
    apply lookup_lt_is_Some. eauto.
  - intros j q Hj. by destruct (Hold _ _ Hj) as (_ & p & _ & _ & _ & ?).
  - intros j q Hr Hj. by rewrite Hr in Hs; destruct Hs.
  - intros r Hr. destruct (ok_accepted0 r Hr) as (j & Hj & Hall). exists j. split; [done|].
    intros j' q Hq. destruct (Hold _ _ Hq) as (_ & p & Hp & _ & -> & _). eauto.
  - intros j q Hj Hb. destruct (Hold _ _ Hj) as [Hf _]. congruence.
Qed.

Lemma start_ok calls : wc_ok calls (start calls).
Proof.
  assert (H : forall i p, (begin <$> calls) !! i = Some p -> exists a, p = begin a).
  { intros i p Hp. apply list_lookup_fmap_Some in Hp as (a & -> & _). by exists a. }
  split; cbn [wc_owner wc_result wc_threads start]; try done.
  - rewrite Forall2_lookup. intros i. rewrite list_lookup_fmap.
    destruct (calls !! i) as [a|]; constructor. by destruct a.
  - intros i p Hp. by apply H in Hp as [[] ->].
  - intros i p Hp. by apply H in Hp as [[] ->].
  - intros i p _ Hp. by apply H in Hp as [[] ->].
Qed.

Lemma perform_ok calls e c c' : wc_ok calls c -> perform e c = Some c' -> wc_ok calls c'.
Proof.
  intros Hok He. destruct c as [o res ts], e as [i|i|i]; cbn in He;
    (destruct (ts !! i) as [p|] eqn:Hi; [|done]); cbn in He;
    pose proof (ok_knows _ _ Hok _ _ Hi) as Hk.
  - destruct p; unfold invoke_step, wait_step, lock, unlock, goto, has_result in He;
      cbn [wc_owner wc_result wc_threads] in *; repeat case_match; simplify_eq; try done.
    all: try by apply (notify_ok _ _ _ Hok Hi).
    all: try by apply (store_ok _ _ _ _ Hok Hi).
    all: eapply (moves_ok calls (mkWC _ _ _)); [done|exact Hi|..]; try done;
      cbn [wc_owner wc_result wc_threads] in *.
    all: try by (unfold mutex_moves; naive_solver).
    all: cbn [knows] in *; try by (intros []; naive_solver).
    all: try by (intros _; apply eq_None_not_Some; eapply bool_decide_eq_false; eassumption).
    all: split; [intros E; by eapply bool_decide_eq_true_1; eassumption|done].
  - destruct p; try done. injection He as <-.
    eapply (moves_ok calls (mkWC _ _ _)); [done|exact Hi|..]; try done. by left.
  - destruct p as [| | | | | | | |[] | | | | | | |]; try done. injection He as <-.
    eapply (moves_ok calls (mkWC _ _ _)); [done|exact Hi|..]; try done.
    + by intros [].
    + by left.
Qed.

Lemma runs_ok calls c es c' : wc_ok calls c -> runs c es c' -> wc_ok calls c'.
Proof. intros H. induction 1; eauto using perform_ok. Qed.

(** * Progress *)

(** The result is written once. *)
Lemma perform_result e c c' : perform e c = Some c' -> is_Some (wc_result c) ->
  wc_result c' = wc_result c.
Proof.
  intros He [r E]. destruct c as [o res ts], e as [i|i|i]; cbn in *; subst res;
    (destruct (ts !! i) as [p|]; [|done]); cbn in He;
    destruct p; try destruct k; unfold invoke_step, wait_step, lock, unlock, goto in He;
    cbn [wc_owner wc_result wc_threads] in *; repeat case_match; by simplify_eq.
Qed.

(** How many steps a thread can still take, when there is a result or not. *)
Definition rank_of (result : bool) (p : location) : nat :=
  match p with
  | Invoking _ => 5 | Storing _ => 4 | Leaving _ => 3 | Notifying => 2
  | Waiting _ | Woken _ => if result then 4 else 7
  | Testing _ => if result then 3 else 6
  | Blocked _ => 5
  | TimedOut => 4 | Retesting => 3 | Unlocking _ _ => 2 | Reading => 1
  | Invoked | Rejected | Returned _ | Got _ => 0
  end.

Definition rank (c : wait_callback) : nat :=
  foldr Nat.add 0%nat (rank_of (has_result c) <$> wc_threads c).

Lemma sum_insert (f : location -> nat) l i p p' : l !! i = Some p ->
  (foldr Nat.add 0 (f <$> <[i := p']> l) + f p = foldr Nat.add 0 (f <$> l) + f p')%nat.
Proof.
  revert i. induction l as [|x l IH]; intros [|i] Hi; simplify_eq/=; [lia|].
  specialize (IH i Hi). lia.
Qed.

Lemma sum_le (f g : location -> nat) l : (forall p, p ∈ l -> f p <= g p)%nat ->
  (foldr Nat.add 0 (f <$> l) <= foldr Nat.add 0 (g <$> l))%nat.
Proof.
  induction l as [|x l IH]; intros H; [done|]. cbn [fmap list_fmap foldr].
  pose proof (H x ltac:(left)). assert (forall p, p ∈ l -> f p <= g p)%nat by (intros; apply H; by right).
  specialize (IH H1). lia.
Qed.

Definition spurious (e : event) : bool := match e with Spurious _ => true | _ => false end.

(** A thread moves, and the others stay or come closer. *)
Lemma rank_moves o (res : option R) o' (res' : option R) ts ts' i p p' : ts !! i = Some p -> ts' !! i = Some p ->
  (forall q, rank_of (bool_decide (is_Some res')) q <= rank_of (bool_decide (is_Some res)) q)%nat ->
  (foldr Nat.add 0 (rank_of (bool_decide (is_Some res')) <$> ts') <=
   foldr Nat.add 0 (rank_of (bool_decide (is_Some res')) <$> ts))%nat ->
  (rank_of (bool_decide (is_Some res')) p' < rank_of (bool_decide (is_Some res')) p)%nat ->
  (rank (mkWC o' res' (<[i := p']> ts')) < rank (mkWC o res ts))%nat.
Proof.
  intros Hi Hi' Hle Hts Hp. unfold rank, has_result. cbn [wc_result wc_threads].
  pose proof (sum_insert (rank_of (bool_decide (is_Some res'))) ts' i p p' Hi').
  pose proof (sum_le _ _ ts (fun q _ => Hle q)). lia.
Qed.

Lemma rank_wakes ts (res : option R) : is_Some res ->
  (foldr Nat.add 0 (rank_of (bool_decide (is_Some res)) <$> (wake <$> ts)) <=
   foldr Nat.add 0 (rank_of (bool_decide (is_Some res)) <$> ts))%nat.
Proof.
  intros H. rewrite bool_decide_true by done.
  induction ts as [|q ts IH]; [done|]. cbn [fmap list_fmap foldr] in *.
  assert (rank_of true (wake q) <= rank_of true q)%nat by (destruct q; simpl; lia). lia.
Qed.

Lemma rank_of_result (res : option R) (r : R) q :
  (rank_of (bool_decide (is_Some (Some r))) q <= rank_of (bool_decide (is_Some res)) q)%nat.
Proof.
  rewrite (bool_decide_true (is_Some (Some r))) by done.
  destruct (bool_decide _), q; simpl; lia.
Qed.

(** Every step but a spurious wakeup brings the threads closer to their end. *)
Lemma perform_rank calls e c c' : wc_ok calls c -> perform e c = Some c' -> spurious e = false ->
  (rank c' < rank c)%nat.
Proof.
  intros Hok He Hs. destruct c as [o res ts], e as [i|i|i]; [|done|]; cbn in He;
    (destruct (ts !! i) as [p|] eqn:Hi; [|done]); cbn in He;
    pose proof (ok_knows _ _ Hok _ _ Hi) as Hk; cbn [wc_result] in Hk.
  - destruct p; unfold invoke_step, wait_step, lock, unlock, goto, has_result in He;
      cbn [wc_owner wc_result wc_threads] in *; repeat case_match; simplify_eq; try done.
    all: apply (rank_moves _ _ _ _ _ _ _ _ _ Hi); try done.
    all: try by (intros; apply rank_of_result).
    all: try by apply rank_wakes.
    all: try by rewrite list_lookup_fmap, Hi.
    all: cbn [rank_of]; repeat case_bool_decide; lia || congruence.
  - destruct p as [| | | | | | | |[] | | | | | | |]; try done. injection He as <-.
    apply (rank_moves _ _ _ _ _ _ _ _ _ Hi); try done. simpl. lia.
Qed.

Lemma runs_rank calls c es c' : wc_ok calls c -> runs c es c' ->
  Forall (fun e => spurious e = false) es -> (length es + rank c' <= rank c)%nat.
Proof.
  intros Hok H. revert Hok. induction H as [c|c e c1 es c2 He _ IH]; intros Hok Hs; [simpl; lia|].
  apply Forall_cons_iff in Hs as [Hs1 Hs2]. pose proof (perform_rank _ _ _ _ Hok He Hs1).
  specialize (IH (perform_ok _ _ _ _ Hok He) Hs2). simpl. lia.
Qed.

Definition stuck (c : wait_callback) : Prop := forall i, perform (Run i) c = None.

Lemma stuck_free calls c : wc_ok calls c -> stuck c -> wc_owner c = None.
Proof.
  intros Hok Hst. destruct (wc_owner c) as [i|] eqn:Ho; [|done]. specialize (Hst i).
  destruct (ok_owned _ _ Hok i Ho) as [p Hp].
  pose proof (ok_owner _ _ Hok i p Hp) as Hh. rewrite bool_decide_true in Hh by done.
  cbn in Hst. rewrite Hp in Hst. cbn in Hst. unfold lock, unlock, goto in Hst.
  destruct p as [|?|[]| | | | | | | | | |[] ?| | |]; try done; unfold invoke_step, wait_step in Hst;
    simpl in Hst; repeat case_match; done.
Qed.

(** A thread that cannot run, with the mutex free, has finished or is blocked. *)
Lemma stuck_at calls c i p : wc_ok calls c -> stuck c -> wc_threads c !! i = Some p ->
  finished p = true \/ blocked p = true.
Proof.
  intros Hok Hst Hp. pose proof (stuck_free _ _ Hok Hst) as Ho. specialize (Hst i).
  pose proof (ok_owner _ _ Hok i p Hp) as Hh. rewrite bool_decide_false in Hh by congruence.
  cbn in Hst. rewrite Hp in Hst. cbn in Hst.
  destruct p; try done; auto; unfold invoke_step, wait_step, lock, goto in Hst;
    rewrite ?Ho in Hst; done.
Qed.

Lemma within_at calls c i a : wc_ok calls c -> calls !! i = Some a ->
  exists p, wc_threads c !! i = Some p /\ within a p.
Proof.
  intros Hok Ha. pose proof (ok_within _ _ Hok) as H. rewrite Forall2_lookup in H.
  specialize (H i). rewrite Ha in H. inversion H; subst. eauto.
Qed.

(** When some call is an invocation, no thread stays blocked. *)
Lemma stuck_unblocked calls c i p r : wc_ok calls c -> Invoke r ∈ calls -> stuck c ->
  wc_threads c !! i = Some p -> finished p = true.
Proof.
  intros Hok Hin Hst Hp.
  destruct (stuck_at _ _ _ _ Hok Hst Hp) as [?|Hb]; [done|exfalso].
  assert (Hs : is_Some (wc_result c)).
  { apply list_elem_of_lookup in Hin as [j Hj].
    destruct (within_at _ _ _ _ Hok Hj) as (q & Hq & Hw).
    pose proof (ok_knows _ _ Hok _ _ Hq).
    destruct (stuck_at _ _ _ _ Hok Hst Hq); by destruct q. }
  destruct (ok_notified _ _ Hok _ _ Hp Hb Hs) as (j & q & Hq & Hn).
  destruct (stuck_at _ _ _ _ Hok Hst Hq); by destruct q.
Qed.

(** How a call ends: an invocation returns or throws [MultipleInvocationException],
    [wait] returns, [wait_for] returns a verdict, an accessor has the result. *)
Definition completed (result : option R) (a : call) (p : location) : Prop :=
  match a, p with
  | Invoke _, (Invoked | Rejected) => True
  | Await Wait, Returned b => b = true
  | Await WaitFor, Returned _ => True
  | Await Access, Got o => is_Some o /\ o = result
  | _, _ => False
  end.

(** C27: liveness of waiting.  When at least one thread invokes the callback, then in every
    state the threads can reach (with any number of spurious wakeups and time-outs on the
    way): the threads take no more than [rank] further steps, spurious wakeups aside;
    and when no thread can take a step all calls have ended, every wait included: no
    wakeup is lost and the mutex is never held forever. *)
Theorem wait_callback_live calls r es c : Invoke r ∈ calls -> runs (start calls) es c ->
  (forall es' c', runs c es' c' -> Forall (fun e => spurious e = false) es' ->
     (length es' <= rank c)%nat) /\
  (stuck c -> Forall2 (completed (wc_result c)) calls (wc_threads c)).
Proof.
  intros Hin Hr. pose proof (runs_ok _ _ _ _ (start_ok calls) Hr) as Hok. split.
  - intros es' c' Hr' Hs. pose proof (runs_rank _ _ _ _ Hok Hr' Hs). lia.
  - intros Hst. pose proof (ok_within _ _ Hok) as Hw. rewrite Forall2_lookup in *. intros i.
    specialize (Hw i). destruct (wc_threads c !! i) as [p|] eqn:Hp; inversion Hw as [a ? Ha|]; subst;
      constructor.
    pose proof (stuck_unblocked _ _ _ _ _ Hok Hin Hst Hp).
    pose proof (ok_knows _ _ Hok _ _ Hp).
    destruct a as [|[]], p; cbn in *; naive_solver.
Qed.

(** A callback is accepted once.  In every state the threads can reach: one thread at
    most is inside the mutex; at most one invocation has returned, its argument is the
    result, and every other one that ended threw; an accessor that returned has the
    argument of the accepted invocation; and the result never changes again, so that
    reading it without the mutex is no race. *)
Lemma wait_callback_once calls es c : runs (start calls) es c ->
  (forall i j p q, wc_threads c !! i = Some p -> wc_threads c !! j = Some q ->
     holds p = true -> holds q = true -> i = j) /\
  (forall i j, wc_threads c !! i = Some Invoked -> wc_threads c !! j = Some Invoked -> i = j) /\
  (forall i, wc_threads c !! i = Some Invoked ->
     exists r, calls !! i = Some (Invoke r) /\ wc_result c = Some r) /\
  (forall i, wc_threads c !! i = Some Rejected ->
     exists j r, j <> i /\ calls !! j = Some (Invoke r) /\ wc_result c = Some r) /\
  (forall i o, wc_threads c !! i = Some (Got o) ->
     exists j r, calls !! j = Some (Invoke r) /\ o = Some r) /\
  (forall es' c', runs c es' c' -> is_Some (wc_result c) -> wc_result c' = wc_result c).
Proof.
  intros Hr. pose proof (runs_ok _ _ _ _ (start_ok calls) Hr) as Hok.
  assert (Hres : forall i p, wc_threads c !! i = Some p -> is_Some (wc_result c) ->
    exists j r, calls !! j = Some (Invoke r) /\ wc_result c = Some r /\
      accepted p = bool_decide (i = j)).
  { intros i p Hp [r E]. destruct (ok_accepted _ _ Hok r E) as (j & Hj & Ha). eauto 6. }
  split_and!.
  - intros i j p q Hp Hq. rewrite (ok_owner _ _ Hok _ _ Hp), (ok_owner _ _ Hok _ _ Hq).
    intros ?%bool_decide_eq_true ?%bool_decide_eq_true. congruence.
  - intros i j Hi Hj. pose proof (ok_knows _ _ Hok _ _ Hi) as [r E].
    destruct (ok_accepted _ _ Hok r E) as (k & _ & Ha).
    pose proof (Ha _ _ Hi) as Hi'. pose proof (Ha _ _ Hj) as Hj'. symmetry in Hi', Hj'.
    apply bool_decide_eq_true in Hi', Hj'. congruence.
  - intros i Hi. destruct (Hres _ _ Hi (ok_knows _ _ Hok _ _ Hi)) as (j & r & Hj & E & Ha).
    symmetry in Ha. apply bool_decide_eq_true in Ha as ->. eauto.
  - intros i Hi. destruct (Hres _ _ Hi (ok_knows _ _ Hok _ _ Hi)) as (j & r & Hj & E & Ha).
    symmetry in Ha. apply bool_decide_eq_false in Ha. eauto 6.
  - intros i o Hi. destruct (ok_knows _ _ Hok _ _ Hi) as [-> Hs].
    destruct (Hres _ _ Hi Hs) as (j & r & Hj & E & _). eauto.
  - intros es' c' Hr'. clear Hr Hok Hres. induction Hr' as [c|c e c1 es1 c2 He _ IH]; [done|].
    intros Hs. pose proof (perform_result _ _ _ He Hs) as E. rewrite <-E. apply IH. by rewrite E.
Qed.
End WaitCallback.

(** Two invocations, a wait that blocks and is woken for no reason, and an accessor. *)
Definition sample_calls : list (call (R := Z)) :=
  [Invoke 7; Invoke 8; Await Wait; Await Access].
Definition sample_events : list event :=
  [Run 2; Run 2; Spurious 2; Run 2; Run 2; Run 1; Run 1; Run 1; Run 3].

Definition more_events : list event :=
  [Run 3; Run 3; Run 3; Run 1; Run 0; Run 0; Run 0; Run 2; Run 2; Run 2].

Fixpoint perform_all (es : list event) (c : wait_callback (R := Z)) : option wait_callback :=
  match es with [] => Some c | e :: es' => c' ← perform e c; perform_all es' c' end.

Lemma perform_all_runs es c c' : perform_all es c = Some c' -> runs c es c'.
Proof.
  revert c. induction es as [|e es IH]; intros c H; cbn in H.
  - injection H as <-. constructor.
  - destruct (perform e c) as [c1|] eqn:E; [|done]. econstructor; eauto.
Qed.

Lemma sample_runs : runs (start sample_calls) sample_events
  (mkWC (Some 3%nat) (Some 8) [Invoking 7; Notifying; Blocked Wait; Testing Access]).
Proof. by apply perform_all_runs. Qed.
Lemma sample_ends : runs (start sample_calls) (sample_events ++ more_events)
  (mkWC None (Some 8) [Rejected; Invoked; Returned true; Got (Some 8)]).
Proof. by apply perform_all_runs. Qed.

Lemma wait_callback_live_witness :
  (forall es' c', runs (mkWC (Some 3%nat) (Some 8)
      [Invoking 7; Notifying; Blocked Wait; Testing Access]) es' c' ->
     Forall (fun e => spurious e = false) es' -> (length es' <= 15)%nat) /\
  Forall2 (completed (Some 8)) sample_calls [Rejected; Invoked; Returned true; Got (Some 8)].
Proof.
  assert (Hin : Invoke 8 ∈ sample_calls) by (right; left).
  split; [exact (proj1 (wait_callback_live _ _ _ _ Hin sample_runs))|].
  apply (proj2 (wait_callback_live _ _ _ _ Hin sample_ends)).
  intros [|[|[|[|i]]]]; reflexivity.
Defined.

Lemma wait_callback_once_witness : exists j r,
  j <> 0%nat /\ sample_calls !! j = Some (Invoke r) /\ Some 8 = Some r.
Proof.
  destruct (wait_callback_once _ _ _ sample_ends) as (_ & _ & _ & H & _).
  exact (H 0%nat eq_refl).
Defined.
