(* ===== verification/Nullable.v ===== *)
(** [nullable<T>] of a class [T] (cpp/inc/bond/core/nullable.h).

    A nullable owns an object of its own that it allocates, constructs, destroys and
    deallocates by hand.  The model has the heap, with each block's allocator and
    whether an object has been constructed in it, and the nullables that are alive, by
    identity, since the operations take references that may be to the same object. *)

From S2P Require Import Prelude.
From stdpp Require Import gmap sets.

#[local] Open Scope Z_scope.

(** * The element type and its allocator *)

(** What [nullable] calls of [T] and of the allocator [A]; [E] is whatever state they have.
    A constructor or the allocator may throw; an assignment that throws may have changed
    its target.  [T_move x] and [T_move_assign x] are given an rvalue [x] of the caller,
    which is not in a nullable: what becomes of it is the caller's. *)
Class Element (T A E : Type) := {
  A_allocate : A -> M E unit;
  A_deallocate : A -> M E unit;
  T_default : A -> M E T;
  T_copy : T -> M E T;
  T_copy_with : T -> A -> M E T;
  T_move : T -> M E T;
  T_move_with : A -> M (T * E) T;
  T_assign : T -> M (T * E) unit;
  T_move_assign : T -> M (T * E) unit;
  T_destroy : T -> M E unit
}.

(** Copies, and what is moved, are equal to their originals, [T_new] is the default value; destructors and
    deallocation do not throw; nothing is undefined. *)
Definition gives {S A} (m : M S A) (Q : A -> S -> Prop) : Prop :=
  forall s, match m s with
            | (Ok a, s') => Q a s'
            | (Err (Thrown _), _) => True
            | _ => False
            end.

Class ElementLaws (T A E : Type) `{Element T A E} := {
  T_new : T;
  A_allocate_gives a : gives (A_allocate (T := T) a) (fun _ _ => True);
  T_default_gives a : gives (T_default a) (fun x _ => x = T_new);
  T_copy_gives x : gives (T_copy x) (fun y _ => y = x);
  T_copy_with_gives x a : gives (T_copy_with x a) (fun y _ => y = x);
  T_move_gives x : gives (T_move x) (fun y _ => y = x);
  T_assign_gives x : gives (T_assign x) (fun _ s => fst s = x);
  T_move_assign_gives x : gives (T_move_assign x) (fun _ s => fst s = x);
  A_deallocate_ok a e : exists e', A_deallocate (T := T) a e = (Ok tt, e');
  T_destroy_ok x e : exists e', T_destroy x e = (Ok tt, e')
}.

Section Nullable.
Context {T A E : Type} `{EqDecision A} `{Element T A E}.

(** [allocator_holder] and [_value]. *)
Record nullable : Type := mkNullable { nv_alloc : A; nv_value : option positive }.

(** A block: the allocator it came from, and the object when it is constructed. *)
Record memory : Type := mkMemory {
  heap : gmap positive (A * option T);
  objects : gmap nat nullable;
  env : E
}.

Definition set_heap (h : gmap positive (A * option T)) (m : memory) : memory :=
  mkMemory h (objects m) (env m).
Definition set_objects (o : gmap nat nullable) (m : memory) : memory :=
  mkMemory (heap m) o (env m).
Definition on_env {X} (f : M E X) : M memory X :=
  zoom env (fun e m => mkMemory (heap m) (objects m) e) f.

(** An object that is alive, and what a pointer refers to. *)
Definition object (i : nat) : M memory nullable :=
  let! m := get in of_option (objects m !! i).
Definition set_value_of (i : nat) (v : option positive) : M memory unit :=
  let! n := object i in
  modify (fun m => set_objects (<[i := mkNullable (nv_alloc n) v]> (objects m)) m).
Definition deref (p : positive) : M memory T :=
  let! m := get in
  match heap m !! p with Some (_, Some x) => ret x | _ => fail Undefined end.

(** * The allocator traits *)

Definition allocate (a : A) : M memory positive :=
  on_env (A_allocate (T := T) a) ;;;
  let! m := get in
  let p := fresh (dom (heap m)) in
  put (set_heap (<[p := (a, None)]> (heap m)) m) ;;; ret p.

Definition construct (p : positive) (x : T) : M memory unit :=
  let! m := get in
  match heap m !! p with
  | Some (a, None) => put (set_heap (<[p := (a, Some x)]> (heap m)) m)
  | _ => fail Undefined
  end.

Definition destroy (p : positive) : M memory unit :=
  let! m := get in
  match heap m !! p with
  | Some (a, Some x) => on_env (T_destroy x) ;;; modify (fun m => set_heap (<[p := (a, None)]> (heap m)) m)
  | _ => fail Undefined
  end.

Definition deallocate (a : A) (p : positive) : M memory unit :=
  let! m := get in
  match heap m !! p with
  | Some (a', None) =>
      if decide (a' = a) then
        put (set_heap (delete p (heap m)) m) ;;; on_env (A_deallocate (T := T) a)
      else fail Undefined
  | _ => fail Undefined
  end.

(** [try { m } catch (...) { handler; throw; }]. *)
Definition catch {X} (m : M memory X) (handler : M memory unit) : M memory X :=
  fun s => match m s with
           | (Err (Thrown e), s') => (handler ;;; throw e) s'
           | r => r
           end.

(** * The members *)

(** [new_value(args...)]; [make] is the constructor of [T] on its arguments. *)
Definition new_value (this : nat) (make : M memory T) : M memory positive :=
  let! n := object this in
  let! p := allocate (nv_alloc n) in
  catch (let! x := make in construct p x ;;; ret p) (deallocate (nv_alloc n) p).

(** [delete_value], [reset], [clear]. *)
Definition delete_value (this : nat) : M memory unit :=
  let! n := object this in
  let! p := of_option (nv_value n) in
  destroy p ;;; deallocate (nv_alloc n) p.

Definition hasvalue (this : nat) : M memory bool :=
  let! n := object this in ret (bool_decide (nv_value n <> None)).

Definition reset (this : nat) : M memory unit :=
  let! b := hasvalue this in
  if (b : bool) then delete_value this ;;; set_value_of this None else ret tt.

Definition value (this : nat) : M memory T :=
  let! n := object this in let! p := of_option (nv_value n) in deref p.

(** A constructor: the members are initialized in order; when the initializer of
    [_value] throws there is no object. *)
Definition constructor (a : A) (init : nat -> M memory (option positive)) : M memory nat :=
  let! m := get in
  let this := fresh (dom (objects m)) in
  put (set_objects (<[this := mkNullable a None]> (objects m)) m) ;;;
  catch (let! v := init this in set_value_of this v ;;; ret this)
    (modify (fun m => set_objects (delete this (objects m)) m)).

(** [nullable(alloc)] and [nullable()], whose allocator is a default one. *)
Definition nullable_new (a : A) : M memory nat := constructor a (fun _ => ret None).

(** [other.hasvalue() ? new_value(other.value(), ...) : pointer()]. *)
Definition copy_of (this other : nat) (copy : T -> M E T) : M memory (option positive) :=
  let! b := hasvalue other in
  if (b : bool) then
    let! p := new_value this (let! x := value other in on_env (copy x)) in ret (Some p)
  else ret None.

Definition nullable_copy (other : nat) : M memory nat :=
  let! n := object other in
  constructor (nv_alloc n) (fun this => copy_of this other T_copy).
Definition nullable_copy_with (other : nat) (a : A) : M memory nat :=
  constructor a (fun this => copy_of this other (fun x => T_copy_with x a)).
Definition nullable_move (other : nat) : M memory nat :=
  let! n := object other in
  let! this := constructor (nv_alloc n) (fun _ => ret (nv_value n)) in
  set_value_of other None ;;; ret this.

(** Moving from the value of [other] changes the object where it is. *)
Definition move_from (p : positive) (a : A) : M memory T :=
  let! m := get in
  match heap m !! p with
  | Some (a', Some x) =>
      zoom (fun m => (x, env m))
        (fun s m => mkMemory (<[p := (a', Some (fst s))]> (heap m)) (objects m) (snd s))
        (T_move_with a)
  | _ => fail Undefined
  end.
Definition nullable_move_with (other : nat) (a : A) : M memory nat :=
  let! n := object other in
  let! this := constructor a (fun this =>
    if decide (nv_alloc n = a) then ret (nv_value n)
    else match nv_value n with
         | Some p => let! q := new_value this (move_from p a) in ret (Some q)
         | None => ret None
         end) in
  set_value_of other None ;;; ret this.

(** From a [const T&] and from a [T&&]. *)
Definition nullable_from (x : T) (a : A) : M memory nat :=
  constructor a (fun this => let! p := new_value this (on_env (T_copy x)) in ret (Some p)).
Definition nullable_from_moved (x : T) (a : A) : M memory nat :=
  constructor a (fun this => let! p := new_value this (on_env (T_move x)) in ret (Some p)).

(** [swap] exchanges the allocators and the pointers. *)
Definition swap (this other : nat) : M memory unit :=
  let! x := object this in
  let! y := object other in
  modify (fun m => set_objects (<[other := x]> (<[this := y]> (objects m))) m).

(** The destructor, after which there is no object. *)
Definition nullable_delete (this : nat) : M memory unit :=
  reset this ;;; modify (fun m => set_objects (delete this (objects m)) m).

(** The assignments, by a temporary. *)
Definition copy_assign (this other : nat) : M memory unit :=
  let! tmp := nullable_copy other in swap tmp this ;;; nullable_delete tmp.
Definition move_assign (this other : nat) : M memory unit :=
  let! tmp := nullable_move other in swap tmp this ;;; nullable_delete tmp.

(** [set()], which is [resize_list(value, 1)], and [set(value)]. *)
Definition nullable_set (this : nat) : M memory unit :=
  let! b := hasvalue this in
  if (b : bool) then ret tt
  else
    let! n := object this in
    let! p := new_value this (on_env (T_default (nv_alloc n))) in set_value_of this (Some p).

Definition assign_at (p : positive) (assign : M (T * E) unit) : M memory unit :=
  let! m := get in
  match heap m !! p with
  | Some (a, Some y) =>
      zoom (fun m => (y, env m))
        (fun s m => mkMemory (<[p := (a, Some (fst s))]> (heap m)) (objects m) (snd s))
        assign
  | _ => fail Undefined
  end.

(** [set_value(value)], a template that copies or moves, and its two instances. *)
Definition set_value (this : nat) (make : M E T) (assign : M (T * E) unit) : M memory unit :=
  let! b := hasvalue this in
  if (b : bool) then let! n := object this in let! p := of_option (nv_value n) in assign_at p assign
  else let! p := new_value this (on_env make) in set_value_of this (Some p).
Definition set_to (this : nat) (x : T) : M memory unit := set_value this (T_copy x) (T_assign x).
Definition set_moved (this : nat) (x : T) : M memory unit :=
  set_value this (T_move x) (T_move_assign x).

(** [container_size] and [resize_list]: a list of no or one element. *)
Definition nullable_size (this : nat) : M memory Z :=
  let! b := hasvalue this in ret (if (b : bool) then 1 else 0).
Definition nullable_resize (this : nat) (size : Z) : M memory unit :=
  if size =? 0 then reset this else nullable_set this.

(** * Ownership *)

(** Every nullable with a pointer owns a block of its allocator with an object in it, no
    two the same, and there is no other block. *)
Record owns (h : gmap positive (A * option T)) (o : gmap nat nullable) : Prop := mkOwns {
  owns_block i n p : o !! i = Some n -> nv_value n = Some p ->
    exists x, h !! p = Some (nv_alloc n, Some x);
  owns_alone i j n n' p : o !! i = Some n -> o !! j = Some n' ->
    nv_value n = Some p -> nv_value n' = Some p -> i = j;
  owns_all p b : h !! p = Some b -> exists i n, o !! i = Some n /\ nv_value n = Some p
}.

(** What the nullables mean: the allocator and the value of each. *)
Definition content (h : gmap positive (A * option T)) (n : nullable) : option T :=
  p ← nv_value n; b ← h !! p; snd b.
Definition meaning (h : gmap positive (A * option T)) (o : gmap nat nullable) :
    gmap nat (A * option T) := (fun n => (nv_alloc n, content h n)) <$> o.

Definition wf (m : memory) : Prop := owns (heap m) (objects m).
Definition abs (m : memory) : gmap nat (A * option T) := meaning (heap m) (objects m).

#[local] Arguments meaning : simpl never.
#[local] Arguments abs : simpl never.

Lemma lookup_meaning h o i :
  meaning h o !! i = (fun n => (nv_alloc n, content h n)) <$> o !! i.
Proof. apply lookup_fmap. Qed.

Lemma meaning_insert h o i n :
  meaning h (<[i := n]> o) = <[i := (nv_alloc n, content h n)]> (meaning h o).
Proof. unfold meaning. by rewrite fmap_insert. Qed.

Ltac look H := first
  [ apply lookup_insert_Some in H as [[<- <-]|[? H]]
  | apply lookup_delete_Some in H as [? H] ].

(** A new nullable without a value. *)
Lemma owns_new h o i a : owns h o -> o !! i = None -> owns h (<[i := mkNullable a None]> o).
Proof.
  intros [Hb Ha Hl] Hi. split.
  - intros j n p Hj Hp. look Hj; [done|eauto].
  - intros j k n n' p Hj Hk Hp Hp'. look Hj; [done|]. look Hk; [done|eauto].
  - intros p b Hp. destruct (Hl _ _ Hp) as (j & n & Hj & Hn). exists j, n.
    by rewrite lookup_insert_ne by congruence.
Qed.

(** A nullable without a value goes away. *)
Lemma owns_delete h o i n : owns h o -> o !! i = Some n -> nv_value n = None ->
  owns h (delete i o).
Proof.
  intros [Hb Ha Hl] Hi Hn. split.
  - intros j n' p Hj Hp. look Hj. eauto.
  - intros j k n' n'' p Hj Hk Hp Hp'. look Hj. look Hk. eauto.
  - intros p b Hp. destruct (Hl _ _ Hp) as (j & n' & Hj & Hn'). exists j, n'.
    by rewrite lookup_delete_ne by congruence.
Qed.

(** A nullable without a value gets a new block. *)
Lemma owns_give h o i n p x : owns h o -> o !! i = Some n -> nv_value n = None -> h !! p = None ->
  owns (<[p := (nv_alloc n, Some x)]> h) (<[i := mkNullable (nv_alloc n) (Some p)]> o).
Proof.
  intros [Hb Ha Hl] Hi Hn Hp.
  assert (Hne : forall j n' q, o !! j = Some n' -> nv_value n' = Some q -> q <> p).
  { intros j n' q Hj Hq ->. destruct (Hb _ _ _ Hj Hq). congruence. }
  split.
  - intros j n' q Hj Hq. look Hj.
    + injection Hq as <-. exists x. by rewrite lookup_insert_eq.
    + destruct (Hb _ _ _ Hj Hq) as [y Hy]. exists y.
      by rewrite lookup_insert_ne by (apply not_eq_sym; eauto).
  - intros j k n1 n2 q Hj Hk Hq1 Hq2. look Hj; look Hk; [done| | |eauto].
    + injection Hq1 as <-. by destruct (Hne _ _ _ Hk Hq2).
    + injection Hq2 as <-. by destruct (Hne _ _ _ Hj Hq1).
  - intros q b Hq. look Hq.
    + exists i, (mkNullable (nv_alloc n) (Some p)). by rewrite lookup_insert_eq.
    + destruct (Hl _ _ Hq) as (j & n' & Hj & Hn'). exists j, n'.
      by rewrite lookup_insert_ne by congruence.
Qed.

Lemma meaning_give h o i n p x : owns h o -> o !! i = Some n -> nv_value n = None -> h !! p = None ->
  meaning (<[p := (nv_alloc n, Some x)]> h) (<[i := mkNullable (nv_alloc n) (Some p)]> o) =
    <[i := (nv_alloc n, Some x)]> (meaning h o).
Proof.
  intros [] Hi Hn Hp. apply map_eq. intros j. rewrite lookup_meaning.
  destruct (decide (j = i)) as [->|Hne].
  - rewrite !lookup_insert_eq. cbn. unfold content. cbn. by rewrite lookup_insert_eq.
  - rewrite !lookup_insert_ne, lookup_meaning by done. destruct (o !! j) as [n'|] eqn:Hj; [|done].
    cbn. do 2 f_equal. unfold content. destruct (nv_value n') as [q|] eqn:Hq; [|done]. cbn.
    destruct (owns_block0 _ _ _ Hj Hq). by rewrite lookup_insert_ne by congruence.
Qed.

(** A nullable gives its block back. *)
Lemma owns_take h o i n p : owns h o -> o !! i = Some n -> nv_value n = Some p ->
  owns (delete p h) (<[i := mkNullable (nv_alloc n) None]> o).
Proof.
  intros [Hb Ha Hl] Hi Hn. split.
  - intros j n' q Hj Hq. look Hj; [done|]. destruct (Hb _ _ _ Hj Hq) as [y Hy]. exists y.
    rewrite lookup_delete_ne; [done|]. intros ->. eauto.
  - intros j k n1 n2 q Hj Hk Hq1 Hq2. look Hj; [done|]. look Hk; [done|eauto].
  - intros q b Hq. look Hq. destruct (Hl _ _ Hq) as (j & n' & Hj & Hn'). exists j, n'.
    by rewrite lookup_insert_ne by congruence.
Qed.

Lemma meaning_take h o i n p : owns h o -> o !! i = Some n -> nv_value n = Some p ->
  meaning (delete p h) (<[i := mkNullable (nv_alloc n) None]> o) =
    <[i := (nv_alloc n, None)]> (meaning h o).
Proof.
  intros [] Hi Hn. apply map_eq. intros j. rewrite lookup_meaning.
  destruct (decide (j = i)) as [->|Hne]; [by rewrite !lookup_insert_eq|].
  rewrite !lookup_insert_ne, lookup_meaning by done. destruct (o !! j) as [n'|] eqn:Hj; [|done].
  cbn. do 2 f_equal. unfold content. destruct (nv_value n') as [q|] eqn:Hq; [|done]. cbn.
  rewrite lookup_delete_ne; [done|]. intros ->. eauto.
Qed.

(** Two nullables trade their blocks. *)
Definition flip (i j k : nat) : nat := if decide (k = i) then j else if decide (k = j) then i else k.

Lemma flip_flip i j k : flip i j (flip i j k) = k.
Proof. unfold flip. repeat case_decide; congruence. Qed.

Lemma owns_flip h o o' i j : owns h o ->
  (forall k n p, o' !! k = Some n -> nv_value n = Some p ->
     exists m, o !! flip i j k = Some m /\ nv_alloc m = nv_alloc n /\ nv_value m = Some p) ->
  (forall k m p, o !! k = Some m -> nv_value m = Some p ->
     exists n, o' !! flip i j k = Some n /\ nv_value n = Some p) ->
  owns h o'.
Proof.
  intros [Hb Ha Hl] Hf Hg. split.
  - intros k n p Hk Hp. destruct (Hf _ _ _ Hk Hp) as (m & Hm & <- & Hq). eauto.
  - intros k k' n n' p Hk Hk' Hp Hp'. destruct (Hf _ _ _ Hk Hp) as (m & Hm & _ & Hq).
    destruct (Hf _ _ _ Hk' Hp') as (m' & Hm' & _ & Hq'). pose proof (Ha _ _ _ _ _ Hm Hm' Hq Hq') as Ef.
    by rewrite <-(flip_flip i j k), Ef, flip_flip.
  - intros p b Hp. destruct (Hl _ _ Hp) as (k & m & Hk & Hq).
    destruct (Hg _ _ _ Hk Hq) as (n & Hn & Hv). eauto.
Qed.

Lemma owns_swap h o i j x y : owns h o -> o !! i = Some x -> o !! j = Some y ->
  owns h (<[j := x]> (<[i := y]> o)).
Proof.
  intros Hok Hi Hj. apply (owns_flip h o _ i j Hok); unfold flip.
  - intros k n p Hk Hp. look Hk; [|look Hk]; repeat case_decide; simplify_eq; eauto.
  - intros k n p Hk Hp. repeat case_decide; simplify_eq; rewrite ?lookup_insert_eq; eauto.
    + destruct (decide (i = j)) as [->|?]; simplify_eq; rewrite ?lookup_insert_eq; eauto.
      rewrite lookup_insert_ne, lookup_insert_eq by done. eauto.
    + rewrite !lookup_insert_ne by done. eauto.
Qed.

Lemma owns_move h o i j n a : owns h o -> o !! i = None -> o !! j = Some n ->
  nv_value n = None \/ nv_alloc n = a ->
  owns h (<[j := mkNullable (nv_alloc n) None]> (<[i := mkNullable a (nv_value n)]> o)).
Proof.
  intros Hok Hi Hj [Hn| <-]; assert (i <> j) by congruence.
  { rewrite Hn. replace (mkNullable (nv_alloc n) None) with n by (destruct n; cbn in *; congruence).
    rewrite insert_id by (by rewrite lookup_insert_ne). by apply owns_new. }
  apply (owns_flip h o _ i j Hok); unfold flip.
  - intros k m p Hk Hp. look Hk; [done|look Hk]; repeat case_decide; simplify_eq; eauto.
  - intros k m p Hk Hp. repeat case_decide; simplify_eq; eauto.
    + rewrite lookup_insert_ne, lookup_insert_eq by done. eauto.
    + rewrite !lookup_insert_ne by done. eauto.
Qed.

(** The value of a nullable is replaced where it is. *)
Lemma owns_store h o i n p x : owns h o -> o !! i = Some n -> nv_value n = Some p ->
  owns (<[p := (nv_alloc n, Some x)]> h) o /\
  meaning (<[p := (nv_alloc n, Some x)]> h) o = <[i := (nv_alloc n, Some x)]> (meaning h o).
Proof.
  intros [Hb Ha Hl] Hi Hp. split; [split|].
  - intros k n' q Hk Hq. destruct (decide (q = p)) as [->|?].
    + pose proof (Ha _ _ _ _ _ Hk Hi Hq Hp) as ->. simplify_eq. rewrite lookup_insert_eq. eauto.
    + rewrite lookup_insert_ne by done. eauto.
  - eauto.
  - intros q b Hq. look Hq; eauto.
  - apply map_eq. intros j. rewrite lookup_meaning. destruct (decide (j = i)) as [->|Hne].
    + rewrite Hi, lookup_insert_eq. cbn. unfold content. rewrite Hp. cbn. by rewrite lookup_insert_eq.
    + rewrite lookup_insert_ne, lookup_meaning by done. destruct (o !! j) as [n'|] eqn:Hj; [|done].
      cbn. do 2 f_equal. unfold content. destruct (nv_value n') as [q|] eqn:Hq; [|done]. cbn.
      rewrite lookup_insert_ne; [done|]. intros ->. eauto.
Qed.

(** * The members against their meaning *)

Context `{!ElementLaws T A E}.

(** [op] throws or gives an [x] with [Q x], and leaves the heap and the objects alone. *)
Definition quiet {X} (op : M memory X) (m : memory) (Q : X -> Prop) : Prop :=
  match op m with
  | (Ok x, m') => heap m' = heap m /\ objects m' = objects m /\ Q x
  | (Err (Thrown _), m') => heap m' = heap m /\ objects m' = objects m
  | _ => False
  end.

Lemma on_env_quiet {X} (f : M E X) Q m : gives f (fun x _ => Q x) -> quiet (on_env f) m Q.
Proof.
  intros Hf. specialize (Hf (env m)). unfold quiet, on_env, zoom.
  by destruct (f (env m)) as [[x|[]] e].
Qed.

Lemma object_run i n m : objects m !! i = Some n -> object i m = (Ok n, m).
Proof. intros Hi. unfold object. rewrite bind_get, Hi. done. Qed.

Lemma hasvalue_run i n m : objects m !! i = Some n ->
  hasvalue i m = (Ok (bool_decide (nv_value n <> None)), m).
Proof. intros Hi. unfold hasvalue. by rewrite (bind_ok _ _ _ _ _ (object_run _ _ _ Hi)). Qed.

Lemma set_value_run i n v m : objects m !! i = Some n ->
  set_value_of i v m = (Ok tt, set_objects (<[i := mkNullable (nv_alloc n) v]> (objects m)) m).
Proof. intros Hi. unfold set_value_of. by rewrite (bind_ok _ _ _ _ _ (object_run _ _ _ Hi)). Qed.

Lemma value_run i n p x m : objects m !! i = Some n -> nv_value n = Some p ->
  heap m !! p = Some (nv_alloc n, Some x) -> value i m = (Ok x, m).
Proof.
  intros Hi Hp Hx. unfold value. rewrite (bind_ok _ _ _ _ _ (object_run _ _ _ Hi)), Hp.
  unfold of_option. rewrite bind_ret. unfold deref. by rewrite bind_get, Hx.
Qed.

Lemma block_allocated a m : let p := fresh (dom (heap m)) in
  match allocate a m with
  | (Ok q, m') => q = p /\ heap m' = <[p := (a, None)]> (heap m) /\ objects m' = objects m
  | (Err (Thrown _), m') => heap m' = heap m /\ objects m' = objects m
  | _ => False
  end.
Proof.
  intros p. unfold allocate, bind. pose proof (on_env_quiet _ _ m (A_allocate_gives a)) as Hq.
  unfold quiet in Hq. destruct (on_env (A_allocate a) m) as [[[]|[]] m1]; [|done..].
  destruct Hq as (Hh & Ho & _). cbn. by rewrite Hh.
Qed.

Lemma block_deallocated a p m : heap m !! p = Some (a, None) ->
  exists e, deallocate a p m = (Ok tt, mkMemory (delete p (heap m)) (objects m) e).
Proof.
  intros Hp. unfold deallocate. rewrite bind_get, Hp. rewrite decide_True by done.
  rewrite bind_put. unfold on_env, zoom. cbn.
  destruct (A_deallocate_ok a (env m)) as [e ->]. by exists e.
Qed.

Lemma construct_run a p x m : heap m !! p = Some (a, None) ->
  construct p x m = (Ok tt, set_heap (<[p := (a, Some x)]> (heap m)) m).
Proof. intros Hp. unfold construct. by rewrite bind_get, Hp. Qed.

Lemma destroy_run a p x m : heap m !! p = Some (a, Some x) ->
  exists e, destroy p m = (Ok tt, mkMemory (<[p := (a, None)]> (heap m)) (objects m) e).
Proof.
  intros Hp. unfold destroy. rewrite bind_get, Hp. unfold on_env, zoom, bind.
  destruct (T_destroy_ok x (env m)) as [e ->]. by exists e.
Qed.

(** [new_value] makes one new block or, when the allocator or the constructor throws,
    none. *)
Lemma new_value_run i n make Q m : objects m !! i = Some n ->
  (forall m', objects m' = objects m -> heap m ⊆ heap m' -> quiet make m' Q) ->
  match new_value i make m with
  | (Ok p, m') => heap m !! p = None /\ objects m' = objects m /\
      exists x, Q x /\ heap m' = <[p := (nv_alloc n, Some x)]> (heap m)
  | (Err (Thrown _), m') => heap m' = heap m /\ objects m' = objects m
  | _ => False
  end.
Proof.
  intros Hi Hmake. unfold new_value. rewrite (bind_ok _ _ _ _ _ (object_run _ _ _ Hi)).
  set (p := fresh (dom (heap m))).
  assert (Hp : heap m !! p = None) by (apply not_elem_of_dom, is_fresh).
  pose proof (block_allocated (nv_alloc n) m) as Ha. cbn zeta in Ha. fold p in Ha.
  unfold bind at 1. destruct (allocate (nv_alloc n) m) as [[q|[]] m1]; [|done..].
  destruct Ha as (-> & Hh & Ho). unfold catch.
  assert (Hm : quiet make m1 Q).
  { apply Hmake; [done|]. rewrite Hh. by apply insert_subseteq. }
  unfold quiet in Hm. unfold bind at 1. destruct (make m1) as [[x|[]] m2]; [| |done..].
  - destruct Hm as (Hh2 & Ho2 & Hx).
    rewrite (bind_ok _ _ _ _ _ (construct_run (nv_alloc n) p x m2
      ltac:(by rewrite Hh2, Hh, lookup_insert_eq))).
    cbn. split_and!; [done|congruence|].
    exists x. split; [done|]. by rewrite Hh2, Hh, insert_insert_eq.
  - destruct Hm as [Hh2 Ho2].
    destruct (block_deallocated (nv_alloc n) p m2) as [ev Hd]; [by rewrite Hh2, Hh, lookup_insert_eq|].
    unfold bind. rewrite Hd. cbn. split; [|congruence].
    rewrite Hh2, Hh, delete_insert_eq. by apply delete_id.
Qed.

Lemma reset_run i n m : wf m -> objects m !! i = Some n ->
  exists m', reset i m = (Ok tt, m') /\ wf m' /\
    objects m' = <[i := mkNullable (nv_alloc n) None]> (objects m) /\
    abs m' = <[i := (nv_alloc n, None)]> (abs m).
Proof.
  intros Hm Hi. unfold reset. rewrite (bind_ok _ _ _ _ _ (hasvalue_run _ _ _ Hi)).
  case_bool_decide as Hv.
  - destruct (nv_value n) as [p|] eqn:Hp; [|done].
    destruct (owns_block _ _ Hm _ _ _ Hi Hp) as [x Hx].
    unfold delete_value. rewrite bind_assoc, (bind_ok _ _ _ _ _ (object_run _ _ _ Hi)), Hp.
    unfold of_option. rewrite bind_assoc, bind_ret, bind_assoc.
    destruct (destroy_run _ _ _ _ Hx) as [e1 Hd]. rewrite (bind_ok _ _ _ _ _ Hd).
    destruct (block_deallocated (nv_alloc n) p
      (mkMemory (<[p := (nv_alloc n, None)]> (heap m)) (objects m) e1)) as [e2 He];
      [by cbn; rewrite lookup_insert_eq|].
    rewrite (bind_ok _ _ _ _ _ He). cbn [heap objects]. rewrite delete_insert_eq.
    erewrite set_value_run by done. eexists. split; [done|]. unfold wf, abs. cbn.
    split_and!; [by eapply owns_take|done|by apply meaning_take].
  - exists m. assert (Hn : nv_value n = None) by (by destruct (nv_value n)).
    assert (En : n = mkNullable (nv_alloc n) None) by (destruct n; cbn in *; congruence).
    rewrite <-En. split_and!; [done|done| |].
    + by rewrite insert_id.
    + rewrite insert_id; [done|]. unfold abs. rewrite lookup_meaning, Hi. cbn. unfold content.
      by rewrite Hn.
Qed.

Lemma abs_lookup m i a v : abs m !! i = Some (a, v) ->
  exists n, objects m !! i = Some n /\ nv_alloc n = a /\ content (heap m) n = v.
Proof.
  unfold abs. rewrite lookup_meaning. destruct (objects m !! i) as [n|]; [|done].
  intros [= <- <-]. by exists n.
Qed.

Lemma abs_fresh m i : abs m !! i = None <-> objects m !! i = None.
Proof. unfold abs. rewrite lookup_meaning. by destruct (objects m !! i). Qed.

(** A pointer of a nullable that is alive leads to its object. *)
Lemma content_some m i n : wf m -> objects m !! i = Some n ->
  match nv_value n with
  | Some p => exists x, content (heap m) n = Some x /\ heap m !! p = Some (nv_alloc n, Some x)
  | None => content (heap m) n = None
  end.
Proof.
  intros Hm Hi. unfold content. destruct (nv_value n) as [p|] eqn:Hp; [|done].
  destruct (owns_block _ _ Hm _ _ _ Hi Hp) as [x Hx]. exists x. cbn. by rewrite Hx.
Qed.

(** [op] constructs a nullable with the value [v], or throws and leaves all as it was. *)
Definition builds (op : M memory nat) (m : memory) (a : A) (v : option T) : Prop :=
  match op m with
  | (Ok i, m') => abs m !! i = None /\ wf m' /\ abs m' = <[i := (a, v)]> (abs m)
  | (Err (Thrown _), m') => wf m' /\ abs m' = abs m
  | _ => False
  end.

Lemma constructor_unfold a init m : let this := fresh (dom (objects m)) in
  constructor a init m =
    catch (let! v := init this in set_value_of this v ;;; ret this)
      (modify (fun m => set_objects (delete this (objects m)) m))
      (set_objects (<[this := mkNullable a None]> (objects m)) m).
Proof. done. Qed.

Lemma fresh_object m : objects m !! fresh (dom (objects m)) = None.
Proof. apply not_elem_of_dom, is_fresh. Qed.

Lemma constructor_ext a init init' m : let this := fresh (dom (objects m)) in
  let m1 := set_objects (<[this := mkNullable a None]> (objects m)) m in
  init this m1 = init' this m1 -> constructor a init m = constructor a init' m.
Proof.
  intros this m1 Hi. rewrite !constructor_unfold. unfold catch, bind. cbn zeta. fold this m1.
  by rewrite Hi.
Qed.

Lemma constructor_none a m : wf m -> builds (constructor a (fun _ => ret None)) m a None.
Proof.
  intros Hm. pose proof (fresh_object m) as Hf. unfold builds. rewrite constructor_unfold.
  set (this := fresh _) in *. unfold catch. rewrite bind_ret.
  erewrite bind_ok by (apply set_value_run; cbn; by rewrite lookup_insert_eq).
  cbn. rewrite insert_insert_eq. split_and!; [by apply abs_fresh|by apply owns_new|].
  unfold abs. cbn [heap objects set_objects]. by rewrite meaning_insert.
Qed.

Lemma constructor_value a make x m : wf m ->
  (forall m', objects m ⊆ objects m' -> heap m ⊆ heap m' -> quiet make m' (eq x)) ->
  builds (constructor a (fun this => let! p := new_value this make in ret (Some p))) m a (Some x).
Proof.
  intros Hm Hmake. pose proof (fresh_object m) as Hf. unfold builds. rewrite constructor_unfold.
  set (this := fresh _) in *. set (m1 := set_objects _ m).
  assert (Hthis : objects m1 !! this = Some (mkNullable a None)) by (cbn; by rewrite lookup_insert_eq).
  pose proof (new_value_run this _ make (eq x) m1 Hthis) as Hn. unfold catch. unfold bind at 1 2.
  destruct (new_value this make m1) as [[p|[]] m2].
  - destruct Hn as (Hp & Ho & y & <- & Hh).
    { intros m' Ho Hh. apply Hmake; [|exact Hh]. rewrite Ho. by apply insert_subseteq. }
    cbn [ret]. erewrite bind_ok by (apply set_value_run; by rewrite Ho).
    cbn [heap objects set_objects ret]. rewrite Ho. cbn [nv_alloc]. unfold ret. split_and!; [by apply abs_fresh| |].
    + unfold wf. cbn [heap objects set_objects]. rewrite Hh.
      apply (owns_give _ _ _ (mkNullable a None)); [by apply owns_new|done..].
    + unfold abs. cbn [heap objects set_objects]. rewrite Hh. cbn [heap objects m1 set_objects].
      rewrite (meaning_give _ _ _ (mkNullable a None)); [|by apply owns_new|done..].
      by rewrite meaning_insert, insert_insert_eq.
  - destruct Hn as [Hh Ho].
    { intros m' Ho Hh. apply Hmake; [|exact Hh]. rewrite Ho. by apply insert_subseteq. }
    cbn. unfold wf, abs. cbn. rewrite Hh, Ho. cbn. rewrite delete_insert_eq, delete_id by done. done.
  - apply Hn. intros m' Ho Hh. apply Hmake; [|exact Hh]. rewrite Ho. by apply insert_subseteq.
  - apply Hn. intros m' Ho Hh. apply Hmake; [|exact Hh]. rewrite Ho. by apply insert_subseteq.
Qed.

Lemma copy_builds a j aj v copy m : wf m -> abs m !! j = Some (aj, v) ->
  (forall x, gives (copy x) (fun y _ => y = x)) ->
  builds (constructor a (fun this => copy_of this j copy)) m a v.
Proof.
  intros Hm Hj Hc. apply abs_lookup in Hj as (n & Hj & <- & <-). pose proof (fresh_object m) as Hf.
  pose proof (content_some _ _ _ Hm Hj) as Hv. unfold builds.
  rewrite (constructor_ext _ _ (fun this => match nv_value n with
    | Some p => let! p := new_value this (let! x := value j in on_env (copy x)) in ret (Some p)
    | None => ret None end)).
  - destruct (nv_value n) as [p|] eqn:Hp; [|rewrite Hv; by apply constructor_none].
    destruct Hv as (x & -> & Hx). apply constructor_value; [done|]. intros m' Ho Hh.
    unfold quiet. rewrite (bind_ok _ _ _ x m').
    + pose proof (on_env_quiet (copy x) (eq x) m') as Hq. apply Hq.
      intros s. specialize (Hc x s). destruct (copy x s) as [[y|]]; [by symmetry|done].
    + apply (value_run j n p); [by eapply lookup_weaken|done|by eapply lookup_weaken].
  - unfold copy_of. set (m1 := set_objects _ m).
    assert (Hj1 : objects m1 !! j = Some n) by (cbn; by rewrite lookup_insert_ne by congruence).
    rewrite (bind_ok _ _ _ _ _ (hasvalue_run j n _ Hj1)).
    destruct (nv_value n); [by rewrite bool_decide_true|by rewrite bool_decide_false by naive_solver].
Qed.

(** The pointer goes to a new nullable, which can deallocate its block. *)
Lemma pointer_moved m j n a : wf m -> objects m !! j = Some n ->
  nv_value n = None \/ nv_alloc n = a ->
  exists i m', (let! this := constructor a (fun _ => ret (nv_value n)) in
                set_value_of j None ;;; ret this) m = (Ok i, m') /\
    abs m !! i = None /\ wf m' /\
    abs m' = <[j := (nv_alloc n, None)]> (<[i := (a, content (heap m) n)]> (abs m)).
Proof.
  intros Hm Hj Ha. pose proof (fresh_object m) as Hf.
  erewrite bind_ok; [|rewrite constructor_unfold; unfold catch; rewrite bind_ret;
    erewrite bind_ok by (apply set_value_run; cbn; by rewrite lookup_insert_eq); reflexivity].
  set (this := fresh _) in *. cbn [set_objects objects heap env nv_alloc]. rewrite insert_insert_eq.
  erewrite bind_ok by (apply set_value_run; cbn; rewrite lookup_insert_ne by congruence; exact Hj).
  do 2 eexists. split; [reflexivity|]. unfold wf. cbn [set_objects objects heap].
  split_and!; [by apply abs_fresh|by apply owns_move|].
  unfold abs. cbn [set_objects objects heap]. by rewrite !meaning_insert.
Qed.

Lemma move_run m j a v : wf m -> abs m !! j = Some (a, v) ->
  exists i m', nullable_move j m = (Ok i, m') /\ abs m !! i = None /\ wf m' /\
    abs m' = <[j := (a, None)]> (<[i := (a, v)]> (abs m)).
Proof.
  intros Hm Hj. apply abs_lookup in Hj as (n & Hj & <- & <-).
  unfold nullable_move. rewrite (bind_ok _ _ _ _ _ (object_run _ _ _ Hj)).
  apply pointer_moved; auto.
Qed.

(** A move with an allocator that is equal, or of a nullable without a value, is the same. *)
Lemma move_with_run m j b a v : wf m -> abs m !! j = Some (b, v) -> v = None \/ b = a ->
  exists i m', nullable_move_with j a m = (Ok i, m') /\ abs m !! i = None /\ wf m' /\
    abs m' = <[j := (b, None)]> (<[i := (a, v)]> (abs m)).
Proof.
  intros Hm Hj Ha. apply abs_lookup in Hj as (n & Hj & <- & <-).
  unfold nullable_move_with. rewrite (bind_ok _ _ _ _ _ (object_run _ _ _ Hj)).
  assert (Hn : nv_value n = None \/ nv_alloc n = a).
  { destruct Ha as [Hc|]; [left|by right]. pose proof (content_some m j n Hm Hj) as Hv.
    destruct (nv_value n); [|done]. destruct Hv as (x & Hx & _). congruence. }
  unfold bind at 1. rewrite (constructor_ext a _ (fun _ => ret (nv_value n))).
  - by apply pointer_moved.
  - cbn zeta. case_decide; [done|]. by destruct Hn as [->|].
Qed.

Lemma swap_run m i j x y : wf m -> abs m !! i = Some x -> abs m !! j = Some y ->
  exists m', swap i j m = (Ok tt, m') /\ wf m' /\ abs m' = <[j := x]> (<[i := y]> (abs m)).
Proof.
  intros Hm Hi Hj. destruct x as [ax vx], y as [ay vy].
  apply abs_lookup in Hi as (x & Hi & <- & <-). apply abs_lookup in Hj as (y & Hj & <- & <-).
  unfold swap. rewrite (bind_ok _ _ _ _ _ (object_run _ _ _ Hi)).
  rewrite (bind_ok _ _ _ _ _ (object_run _ _ _ Hj)). eexists. split; [reflexivity|].
  unfold wf, abs. cbn [set_objects objects heap]. split; [by apply owns_swap|].
  by rewrite !meaning_insert.
Qed.

Lemma delete_run m i x : wf m -> abs m !! i = Some x ->
  exists m', nullable_delete i m = (Ok tt, m') /\ wf m' /\ abs m' = delete i (abs m).
Proof.
  intros Hm Hi. destruct x as [a v]. apply abs_lookup in Hi as (n & Hi & <- & _).
  destruct (reset_run i n m Hm Hi) as (m1 & E1 & W1 & O1 & A1).
  unfold nullable_delete. rewrite (bind_ok _ _ _ _ _ E1). eexists. split; [reflexivity|].
  unfold wf, abs. cbn [set_objects objects heap]. split.
  - eapply owns_delete; [exact W1|by rewrite O1, lookup_insert_eq|done].
  - unfold meaning. rewrite fmap_delete. fold (meaning (heap m1) (objects m1)). fold (abs m1).
    by rewrite A1, delete_insert_eq.
Qed.

(** The end of both assignments: the temporary [t] trades with [this] and goes away. *)
Lemma assign_tail m t i x y : wf m -> abs m !! t = Some x -> abs m !! i = Some y -> t <> i ->
  exists m', (swap t i ;;; nullable_delete t) m = (Ok tt, m') /\ wf m' /\
    abs m' = <[i := x]> (delete t (abs m)).
Proof.
  intros Hm Ht Hi Hne. destruct (swap_run m t i x y Hm Ht Hi) as (m1 & E1 & W1 & A1).
  rewrite (bind_ok _ _ _ _ _ E1).
  destruct (delete_run m1 t y W1) as (m2 & E2 & W2 & A2).
  { by rewrite A1, lookup_insert_ne, lookup_insert_eq by congruence. }
  exists m2. split_and!; [done..|]. rewrite A2, A1, delete_insert_ne by congruence.
  by rewrite delete_insert_eq.
Qed.

(** [op] does what [post] says, or throws and leaves the meaning as [thrown] says. *)
Definition step_ok {X} (op : M memory X) (m : memory)
    (post : X -> gmap nat (A * option T) -> Prop) (thrown : gmap nat (A * option T) -> Prop) : Prop :=
  match op m with
  | (Ok r, m') => wf m' /\ post r (abs m')
  | (Err (Thrown _), m') => wf m' /\ thrown (abs m')
  | _ => False
  end.

Lemma copy_assign_ok m i j x a v : wf m -> abs m !! i = Some x -> abs m !! j = Some (a, v) ->
  step_ok (copy_assign i j) m (fun _ s => s = <[i := (a, v)]> (abs m)) (eq (abs m)).
Proof.
  intros Hm Hi Hj. pose proof Hj as Hn. apply abs_lookup in Hn as (n & Hn & En & _).
  pose proof (copy_builds a j a v T_copy m Hm Hj T_copy_gives) as Hb.
  unfold builds in Hb. unfold step_ok, copy_assign, nullable_copy. unfold bind at 1 2.
  rewrite (object_run _ _ _ Hn), En. destruct (constructor a _ m) as [[t|[]] m1]; [| |done..].
  - destruct Hb as (Hf & W1 & A1). assert (t <> i) by congruence.
    destruct (assign_tail m1 t i (a, v) x W1) as (m2 & E2 & W2 & A2); [| |done|].
    + by rewrite A1, lookup_insert_eq.
    + by rewrite A1, lookup_insert_ne.
    + rewrite E2. split; [done|]. by rewrite A2, A1, delete_insert_id.
  - by destruct Hb.
Qed.

Lemma move_assign_ok m i j x a v : wf m -> abs m !! i = Some x -> abs m !! j = Some (a, v) ->
  step_ok (move_assign i j) m (fun _ s => s = <[i := (a, v)]> (<[j := (a, None)]> (abs m))) (eq (abs m)).
Proof.
  intros Hm Hi Hj. destruct (move_run m j a v Hm Hj) as (t & m1 & E1 & Hf & W1 & A1).
  unfold step_ok, move_assign. rewrite (bind_ok _ _ _ _ _ E1).
  assert (t <> i) by congruence. assert (t <> j) by congruence.
  assert (Hy : exists y, abs m1 !! i = Some y).
  { rewrite A1. destruct (decide (i = j)) as [->|?]; [by rewrite lookup_insert_eq; eauto|].
    rewrite !lookup_insert_ne by congruence. eauto. }
  destruct Hy as [y Hy]. destruct (assign_tail m1 t i (a, v) y W1) as (m2 & E2 & W2 & A2); [|done..|].
  - by rewrite A1, lookup_insert_ne, lookup_insert_eq by congruence.
  - rewrite E2. split; [done|]. rewrite A2, A1, delete_insert_ne by congruence.
    by rewrite delete_insert_id.
Qed.

(** An empty nullable is filled. *)
Lemma filled_ok m i n f x : wf m -> objects m !! i = Some n -> nv_value n = None ->
  gives f (fun y _ => y = x) ->
  step_ok (let! p := new_value i (on_env f) in set_value_of i (Some p)) m
    (fun _ s => s = <[i := (nv_alloc n, Some x)]> (abs m)) (eq (abs m)).
Proof.
  intros Hm Hi Hn Hf. unfold step_ok.
  pose proof (new_value_run i n (on_env f) (fun y => y = x) m Hi
    ltac:(intros; by apply on_env_quiet)) as Hv.
  unfold bind at 1. destruct (new_value i (on_env f) m) as [[p|[]] m1]; [| |done..].
  - destruct Hv as (Hp & Ho & y & -> & Hh). erewrite set_value_run by (by rewrite Ho).
    unfold wf, abs. cbn [set_objects heap objects]. rewrite Hh, Ho.
    split; [by apply owns_give|by apply meaning_give].
  - destruct Hv as [Hh Ho]. unfold wf, abs. by rewrite Hh, Ho.
Qed.

Lemma set_ok m i a v : wf m -> abs m !! i = Some (a, v) ->
  step_ok (nullable_set i) m
    (fun _ s => s = <[i := (a, Some (default T_new v))]> (abs m)) (eq (abs m)).
Proof.
  intros Hm Hi. pose proof Hi as Hn. apply abs_lookup in Hn as (n & Hn & <- & Ev).
  pose proof (content_some _ _ _ Hm Hn) as Hv. unfold nullable_set, step_ok.
  rewrite (bind_ok _ _ _ _ _ (hasvalue_run _ _ _ Hn)).
  destruct (nv_value n) as [p|] eqn:Hp.
  - rewrite bool_decide_true by done. destruct Hv as (x & Hx & _). split; [done|].
    rewrite insert_id; [done|]. rewrite Hi. by rewrite <-Ev, Hx.
  - rewrite bool_decide_false by naive_solver. rewrite (bind_ok _ _ _ _ _ (object_run _ _ _ Hn)).
    replace v with (@None T) by congruence. apply filled_ok; [done..|]. apply T_default_gives.
Qed.

Lemma set_value_ok m i a v x make assign : wf m -> abs m !! i = Some (a, v) ->
  gives make (fun y _ => y = x) -> gives assign (fun _ s => fst s = x) ->
  step_ok (set_value i make assign) m (fun _ s => s = <[i := (a, Some x)]> (abs m))
    (fun s => s = abs m \/ is_Some v /\ exists y, s = <[i := (a, Some y)]> (abs m)).
Proof.
  intros Hm Hi Hk Hg. apply abs_lookup in Hi as (n & Hn & <- & Ev).
  pose proof (content_some _ _ _ Hm Hn) as Hv. unfold set_value.
  unfold step_ok at 1. rewrite (bind_ok _ _ _ _ _ (hasvalue_run _ _ _ Hn)).
  destruct (nv_value n) as [p|] eqn:Hp.
  - rewrite bool_decide_true by done. destruct Hv as (y & Hy & Hh).
    rewrite (bind_ok _ _ _ _ _ (object_run _ _ _ Hn)), Hp. unfold of_option. rewrite bind_ret.
    unfold assign_at. rewrite bind_get, Hh. unfold zoom.
    specialize (Hg (y, env m)).
    assert (Hs : forall z, owns (<[p := (nv_alloc n, Some z)]> (heap m)) (objects m) /\
      meaning (<[p := (nv_alloc n, Some z)]> (heap m)) (objects m) =
        <[i := (nv_alloc n, Some z)]> (abs m)) by (intros; by apply owns_store).
    destruct (assign (y, env m)) as [[[]|[]] [z e]]; [| |done..];
      unfold wf, abs; cbn [heap objects fst snd] in *; destruct (Hs z) as [W ->].
    + by subst z.
    + split; [done|]. right. split; [by rewrite <-Ev, Hy|eauto].
  - rewrite bool_decide_false by naive_solver.
    pose proof (filled_ok m i n make x Hm Hn Hp Hk) as Hf. unfold step_ok in Hf.
    destruct (bind _ _ m) as [[[]|[]] m1]; [done| |done..]. destruct Hf as [? <-]. auto.
Qed.

Lemma reset_ok m i a v : wf m -> abs m !! i = Some (a, v) ->
  step_ok (reset i) m (fun _ s => s = <[i := (a, None)]> (abs m)) (eq (abs m)).
Proof.
  intros Hm Hi. apply abs_lookup in Hi as (n & Hn & <- & _).
  destruct (reset_run i n m Hm Hn) as (m' & E' & W & _ & Ab). unfold step_ok. by rewrite E'.
Qed.

(** * A program with nullables *)

Inductive op : Type :=
| New (a : A)
| From (x : T) (a : A)
| FromMoved (x : T) (a : A)
| Copy (j : nat)
| CopyWith (j : nat) (a : A)
| Move (j : nat)
| MoveWith (j : nat) (a : A)
| Delete (i : nat)
| CopyAssign (i j : nat)
| MoveAssign (i j : nat)
| Swap (i j : nat)
| Reset_ (i : nat)
| Set_ (i : nat)
| SetTo (i : nat) (x : T)
| SetMoved (i : nat) (x : T)
| Resize (i : nat) (size : Z).

(** A constructor gives the new nullable, the other members nothing. *)
Definition new_object (f : M memory nat) : M memory (option nat) := let! i := f in ret (Some i).
Definition no_object (f : M memory unit) : M memory (option nat) := f ;;; ret None.

Definition exec (o : op) : M memory (option nat) :=
  match o with
  | New a => new_object (nullable_new a)
  | From x a => new_object (nullable_from x a)
  | FromMoved x a => new_object (nullable_from_moved x a)
  | Copy j => new_object (nullable_copy j)
  | CopyWith j a => new_object (nullable_copy_with j a)
  | Move j => new_object (nullable_move j)
  | MoveWith j a => new_object (nullable_move_with j a)
  | Delete i => no_object (nullable_delete i)
  | CopyAssign i j => no_object (copy_assign i j)
  | MoveAssign i j => no_object (move_assign i j)
  | Swap i j => no_object (swap i j)
  | Reset_ i => no_object (reset i)
  | Set_ i => no_object (nullable_set i)
  | SetTo i x => no_object (set_to i x)
  | SetMoved i x => no_object (set_moved i x)
  | Resize i size => no_object (nullable_resize i size)
  end.

(** The nullables an operation refers to. *)
Definition operands (o : op) : list nat :=
  match o with
  | New _ | From _ _ | FromMoved _ _ => []
  | Copy j | CopyWith j _ | Move j | MoveWith j _ => [j]
  | Delete i | Reset_ i | Set_ i | SetTo i _ | SetMoved i _ | Resize i _ => [i]
  | CopyAssign i j | MoveAssign i j | Swap i j => [i; j]
  end.

(** The specification: a nullable is an allocator and an optional value.  [born] is the
    identity of the new nullable. *)
Definition spec (o : op) (born : option nat) (s : gmap nat (A * option T)) :
    option (gmap nat (A * option T)) :=
  let new (x : A * option T) := i ← born; guard (s !! i = None);; Some (<[i := x]> s) in
  match o with
  | New a => new (a, None)
  | From x a | FromMoved x a => new (a, Some x)
  | Copy j => x ← s !! j; new x
  | CopyWith j a => x ← s !! j; new (a, snd x)
  | Move j => x ← s !! j; s' ← new x; Some (<[j := (fst x, None)]> s')
  | MoveWith j a => x ← s !! j; s' ← new (a, snd x); Some (<[j := (fst x, None)]> s')
  | Delete i => Some (delete i s)
  | CopyAssign i j => x ← s !! j; Some (<[i := x]> s)
  | MoveAssign i j => x ← s !! j; Some (<[i := x]> (<[j := (fst x, None)]> s))
  | Swap i j => x ← s !! i; y ← s !! j; Some (<[j := x]> (<[i := y]> s))
  | Reset_ i => x ← s !! i; Some (<[i := (fst x, None)]> s)
  | Set_ i => x ← s !! i; Some (<[i := (fst x, Some (default T_new (snd x)))]> s)
  | SetTo i x | SetMoved i x => y ← s !! i; Some (<[i := (fst y, Some x)]> s)
  | Resize i size =>
      x ← s !! i;
      Some (<[i := (fst x, if size =? 0 then None else Some (default T_new (snd x)))]> s)
  end.

(** After an exception nothing has changed, but that an assignment to a value may have
    changed it. *)
Definition spec_thrown (o : op) (s s' : gmap nat (A * option T)) : Prop :=
  s' = s \/
  match o with
  | SetTo i _ | SetMoved i _ => exists a x y, s !! i = Some (a, Some x) /\ s' = <[i := (a, Some y)]> s
  | _ => False
  end.

Lemma new_object_ok (f : M memory nat) m a v post : builds f m a v ->
  (forall i, abs m !! i = None -> post (Some i) (<[i := (a, v)]> (abs m))) ->
  step_ok (new_object f) m post (fun s' => s' = abs m).
Proof.
  unfold builds, step_ok, new_object, bind. destruct (f m) as [[i|[]] m']; cbn; [|done..].
  intros (Hi & ? & ->) Hp. by split; [|apply Hp].
Qed.

Lemma no_object_ok (f : M memory unit) m post thrown post' thrown' : step_ok f m post thrown ->
  (forall s, post tt s -> post' None s) -> (forall s, thrown s -> thrown' s) ->
  step_ok (no_object f) m post' thrown'.
Proof.
  unfold step_ok, no_object, bind. destruct (f m) as [[[]|[]] m']; cbn; naive_solver.
Qed.

Lemma step_weaken {X} (f : M memory X) m post thrown (post' : X -> _ -> Prop) (thrown' : _ -> Prop) :
  step_ok f m post thrown -> (forall r s, post r s -> post' r s) ->
  (forall s, thrown s -> thrown' s) -> step_ok f m post' thrown'.
Proof. unfold step_ok. destruct (f m) as [[?|[]] ?]; naive_solver. Qed.

Lemma constructs_ok o f m a v : builds f m a v ->
  (forall i, abs m !! i = None -> spec o (Some i) (abs m) = Some (<[i := (a, v)]> (abs m))) ->
  step_ok (new_object f) m (fun born s' => spec o born (abs m) = Some s') (spec_thrown o (abs m)).
Proof.
  intros Hb Hs. eapply step_weaken; [by eapply (new_object_ok f m a v
    (fun born s' => spec o born (abs m) = Some s'))|done|]. intros s ->. by left.
Qed.

Lemma acts_ok o f m post : step_ok f m post (eq (abs m)) ->
  (forall s, post tt s -> spec o None (abs m) = Some s) ->
  step_ok (no_object f) m (fun born s' => spec o born (abs m) = Some s') (spec_thrown o (abs m)).
Proof.
  intros Hf Hs. eapply no_object_ok; [exact Hf|exact Hs|]. intros s <-. by left.
Qed.

Lemma from_builds make x a m : wf m -> gives make (fun y _ => y = x) ->
  builds (constructor a (fun this => let! p := new_value this (on_env make) in ret (Some p)))
    m a (Some x).
Proof.
  intros Hm Hg. apply constructor_value; [done|]. intros m' _ _.
  apply on_env_quiet. intros s. specialize (Hg s).
  destruct (make s) as [[y|]]; [by symmetry|done].
Qed.

Lemma copy_new_builds m j a v : wf m -> abs m !! j = Some (a, v) -> builds (nullable_copy j) m a v.
Proof.
  intros Hm Hj. pose proof Hj as Hn. apply abs_lookup in Hn as (n & Hn & <- & _).
  unfold builds, nullable_copy. rewrite (bind_ok _ _ _ _ _ (object_run _ _ _ Hn)).
  eapply copy_builds; [done..|]. apply T_copy_gives.
Qed.

Lemma moved_ok f m s' post thrown : (exists i m', f m = (Ok i, m') /\ abs m !! i = None /\ wf m' /\
    abs m' = s' i) -> (forall i, abs m !! i = None -> post (Some i) (s' i)) ->
  step_ok (new_object f) m post thrown.
Proof.
  intros (i & m' & E1 & Hf & W & Ab) Hp.
  unfold step_ok, new_object. rewrite (bind_ok _ _ _ _ _ E1). split; [done|]. rewrite Ab. by apply Hp.
Qed.

(** The nullables an operation refers to are alive, and a move with an allocator is not
    one of those that leave a block behind ([move_with_allocator_leaks]). *)
Definition keeps_block (o : op) (s : gmap nat (A * option T)) : bool :=
  match o with
  | MoveWith j a =>
      match s !! j with Some (b, Some _) => bool_decide (b = a) | _ => true end
  | _ => true
  end.
Definition allowed (o : op) (m : memory) : Prop :=
  Forall (fun i => is_Some (objects m !! i)) (operands o) /\ keeps_block o (abs m) = true.
#[export] Instance allowed_decision o m : Decision (allowed o m).
Proof. unfold allowed. apply _. Defined.

Lemma alive_abs m l : Forall (fun i => is_Some (objects m !! i)) l <->
  Forall (fun i => is_Some (abs m !! i)) l.
Proof.
  apply Forall_iff. intros i. rewrite <-!not_eq_None_Some. by rewrite abs_fresh.
Qed.

(** Every operation on nullables that are alive implements the specification. *)
Lemma exec_ok o m : wf m -> allowed o m ->
  step_ok (exec o) m (fun born s' => spec o born (abs m) = Some s') (spec_thrown o (abs m)).
Proof.
  intros Hm [Hl Hk]. apply alive_abs in Hl.
  destruct o as [a|x a|x a|j|j a|j|j a|i|i j|i j|i j|i|i|i x|i x|i size]; cbn [operands] in Hl;
    repeat match goal with H : Forall _ (_ :: _) |- _ =>
      apply Forall_cons_iff in H as [[[] ?] H] end; clear Hl; cbn [exec].
  - eapply constructs_ok; [by apply constructor_none|]. intros i Hi. cbn. by rewrite option_guard_True.
  - eapply constructs_ok; [by apply from_builds, T_copy_gives|].
    intros i Hi. cbn. by rewrite option_guard_True.
  - eapply constructs_ok; [by apply from_builds, T_move_gives|].
    intros i Hi. cbn. by rewrite option_guard_True.
  - eapply constructs_ok; [by eapply copy_new_builds|]. intros i Hi. cbn.
    rewrite H0. cbn. by rewrite option_guard_True.
  - eapply constructs_ok; [by eapply (copy_builds _ j _ _ (fun x => T_copy_with x a));
      [done|done|intros; apply T_copy_with_gives]|]. intros i Hi. cbn.
    rewrite H0. cbn. by rewrite option_guard_True.
  - eapply moved_ok; [by eapply move_run|]. intros i Hi. cbn. rewrite H0. cbn.
    by rewrite option_guard_True.
  - eapply moved_ok; [eapply (move_with_run _ j _ a); [done..|]|].
    + cbn in Hk. rewrite H0 in Hk. destruct o; [right|by left]. by apply bool_decide_eq_true in Hk.
    + intros i Hi. cbn. rewrite H0. cbn. by rewrite option_guard_True.
  - destruct (delete_run m i _ Hm H0) as (m' & E1 & W & Ab).
    eapply (acts_ok _ _ _ (fun _ s => s = delete i (abs m))); [unfold step_ok; by rewrite E1|].
    by intros s ->.
  - eapply acts_ok; [by eapply copy_assign_ok|]. intros s ->. cbn. by rewrite H1.
  - eapply acts_ok; [by eapply move_assign_ok|]. intros s ->. cbn. by rewrite H1.
  - destruct (swap_run m i j _ _ Hm H0 H1) as (m' & E1 & W & Ab).
    eapply (acts_ok _ _ _ (fun _ s => s = abs m')); [unfold step_ok; by rewrite E1|].
    intros s ->. cbn. by rewrite H0, H1, Ab.
  - eapply acts_ok; [by eapply reset_ok|]. intros s ->. cbn. by rewrite H0.
  - eapply acts_ok; [by eapply set_ok|]. intros s ->. cbn. by rewrite H0.
  - eapply no_object_ok; [eapply (set_value_ok _ _ _ _ x); eauto using T_copy_gives, T_assign_gives| |].
    + intros s ->. cbn. by rewrite H0.
    + intros s [->|[[y ->] [z ->]]]; [by left|]. right. eauto.
  - eapply no_object_ok;
      [eapply (set_value_ok _ _ _ _ x); eauto using T_move_gives, T_move_assign_gives| |].
    + intros s ->. cbn. by rewrite H0.
    + intros s [->|[[y ->] [z ->]]]; [by left|]. right. eauto.
  - unfold nullable_resize. destruct (size =? 0) eqn:Es.
    + eapply acts_ok; [by eapply reset_ok|]. intros s ->. cbn. by rewrite H0, Es.
    + eapply acts_ok; [by eapply set_ok|]. intros s ->. cbn. by rewrite H0, Es.
Qed.

(** A program: operations one after the other, each [allowed] where it comes; one that
    throws is followed by the next (the exception is caught). *)
Inductive executes : memory -> list op -> memory -> Prop :=
| executes_nil m : executes m [] m
| executes_cons m o os m' :
    allowed o m -> executes (snd (exec o m)) os m' -> executes m (o :: os) m'.

Definition start (e : E) : memory := mkMemory ∅ ∅ e.

Lemma executes_wf m os m' : wf m -> executes m os m' -> wf m'.
Proof.
  intros Hm Hx. revert Hm. induction Hx as [m|m o os m' Hl _ IH]; intros Hm; [done|]. apply IH.
  pose proof (exec_ok o m Hm Hl) as Hs. unfold step_ok in Hs.
  destruct (exec o m) as [[?|[]] ?]; [by destruct Hs..|done|done].
Qed.

(** C17: a nullable of a class behaves as an optional value and manages its memory.  The
    programs are sequences of the constructors (default, from a value, copied or moved, with
    an allocator or not), the assignments, [set], [set(const T&)], [set(T&&)], [reset],
    [swap], the destructor and [resize_list], on nullables that are alive, with one
    exclusion: the move constructor with an allocator is applied to a nullable without a
    value or with an equal allocator, since with another it leaks the block of the nullable
    moved from, as [move_with_allocator_leaks] shows.  In every state such a program can
    reach, whatever its allocators, constructors and assignments throw on the way: each
    operation of the list has the effect [spec] says or throws and leaves every nullable as
    it was (only a [set] of an existing value may have changed that value), with no access
    to a block that is not there; every block belongs to exactly one nullable, so when none
    is alive nothing is allocated. *)
Theorem nullable_refines e os m : executes (start e) os m ->
  (forall o, allowed o m ->
    match exec o m with
    | (Ok born, m') => spec o born (abs m) = Some (abs m')
    | (Err (Thrown _), m') => spec_thrown o (abs m) (abs m')
    | (Err _, _) => False
    end) /\
  (forall p b, heap m !! p = Some b -> exists! i, exists n,
    objects m !! i = Some n /\ nv_value n = Some p) /\
  (objects m = ∅ -> heap m = ∅).
Proof.
  intros Hx. assert (Hm : wf m).
  { eapply executes_wf; [|exact Hx]. split; intros *; cbn; by rewrite lookup_empty. }
  split_and!.
  - intros o Hl. pose proof (exec_ok o m Hm Hl) as Hs.
    unfold step_ok in Hs. destruct (exec o m) as [[?|[]] ?]; [by destruct Hs..|done|done].
  - intros p b Hp. destruct (owns_all _ _ Hm _ _ Hp) as (i & n & Hi & Hn).
    exists i. split; [eauto|]. intros j (n' & Hj & Hn'). by eapply (owns_alone _ _ Hm).
  - intros Ho. apply map_empty. intros p. destruct (heap m !! p) as [b|] eqn:Hp; [|done].
    destruct (owns_all _ _ Hm _ _ Hp) as (i & n & Hi & _). by rewrite Ho, lookup_empty in Hi.
Qed.

(** The constructor of the new object moves from the one at [p]. *)
Lemma new_value_moved i n p ap x q m m' : objects m !! i = Some n ->
  heap m !! p = Some (ap, Some x) -> new_value i (move_from p (nv_alloc n)) m = (Ok q, m') ->
  q <> p /\ objects m' = objects m /\ exists y, heap m' !! p = Some (ap, Some y).
Proof.
  intros Hi Hp Hq. unfold new_value in Hq. rewrite (bind_ok _ _ _ _ _ (object_run _ _ _ Hi)) in Hq.
  apply bind_inv_ok in Hq as (q' & m1 & Ea & Hq).
  pose proof (block_allocated (nv_alloc n) m) as Ha. cbn zeta in Ha. rewrite Ea in Ha.
  destruct Ha as (-> & Hh & Ho). set (f := fresh (dom (heap m))) in *.
  assert (Hf : heap m !! f = None) by (apply not_elem_of_dom, is_fresh).
  assert (Hne : f <> p) by congruence.
  unfold catch in Hq. destruct (bind _ _ m1) as [[r|[]] m2] eqn:Eb; [| |done..].
  - injection Hq as -> ->. apply bind_inv_ok in Eb as (y & m3 & Em & Eb).
    apply bind_inv_ok in Eb as ([] & m4 & Ec & Eb). injection Eb as <- <-.
    unfold move_from in Em. rewrite bind_get, Hh, lookup_insert_ne, Hp in Em by done.
    unfold zoom in Em. destruct (T_move_with _ _) as [o3 [z e3]]. injection Em as _ <-.
    unfold construct in Ec. rewrite bind_get in Ec. cbn [heap fst snd] in Ec.
    rewrite lookup_insert_ne, Hh, lookup_insert_eq in Ec by congruence.
    injection Ec as <-.
    cbn [objects heap set_heap]. split_and!; [done|done|]. exists z.
    by rewrite lookup_insert_ne, lookup_insert_eq by done.
  - unfold bind in Hq. by destruct (deallocate _ _ _) as [[] ?].
Qed.

(** C38: moving a nullable into another with an allocator that is not equal to its own leaks.
    The new nullable gets a block of its own, and the pointer to the old one is
    overwritten: its object is still constructed, and no nullable refers to it. *)
Theorem move_with_allocator_leaks m j n p a i m' : wf m -> objects m !! j = Some n ->
  nv_value n = Some p -> nv_alloc n <> a -> nullable_move_with j a m = (Ok i, m') ->
  (exists x, heap m' !! p = Some (nv_alloc n, Some x)) /\
  (forall k n', objects m' !! k = Some n' -> nv_value n' <> Some p).
Proof.
  intros Hm Hj Hp Hne Hr. pose proof (fresh_object m) as Hf.
  destruct (owns_block _ _ Hm _ _ _ Hj Hp) as [x Hx].
  unfold nullable_move_with in Hr. rewrite (bind_ok _ _ _ _ _ (object_run _ _ _ Hj)) in Hr.
  apply bind_inv_ok in Hr as (t & m2 & Ec & Hr). rewrite constructor_unfold in Ec.
  set (this := fresh (dom (objects m))) in *. set (m1 := set_objects _ m) in Ec.
  assert (H1 : objects m1 !! this = Some (mkNullable a None)) by (cbn; by rewrite lookup_insert_eq).
  rewrite decide_False, Hp in Ec by done. unfold catch in Ec.
  destruct (bind _ _ m1) as [[r|[]] m3] eqn:Eb; [|done..]. injection Ec as -> ->.
  apply bind_inv_ok in Eb as (v & m4 & Ev & Eb). apply bind_inv_ok in Ev as (q & m5 & Eq & Ev).
  injection Ev as <- <-.
  destruct (new_value_moved _ _ p (nv_alloc n) x _ _ _ H1 Hx Eq) as (Hqp & Ho & y & Hy).
  rewrite <-Ho in H1. rewrite (bind_ok _ _ _ _ _ (set_value_run _ _ _ _ H1)) in Eb.
  injection Eb as <- <-.
  assert (H2 : objects (set_objects (<[this := mkNullable a (Some q)]> (objects m5)) m5) !! j = Some n).
  { cbn. rewrite Ho. cbn. by rewrite !lookup_insert_ne by congruence. }
  cbn [nv_alloc] in *. rewrite (bind_ok _ _ _ _ _ (set_value_run _ _ _ _ H2)) in Hr.
  injection Hr as <- <-. cbn [set_objects heap objects]. split; [by exists y|].
  rewrite Ho. cbn [m1 set_objects objects]. intros k n' Hk.
  look Hk; [done|]. look Hk; [cbn; congruence|]. look Hk; [done|].
  intros Hp'. by pose proof (owns_alone _ _ Hm _ _ _ _ _ Hk Hj Hp' Hp).
Qed.
End Nullable.

(** * An instance *)

(** Numbers as objects, allocators told apart by a number, and an allocator that has room
    for a few blocks; an object moved from is zero, and 13 cannot be copied. *)
#[local] Instance number_element : Element Z Z Z := {
  A_allocate _ := fun room => if 0 <? room then (Ok tt, room - 1) else (Err (Thrown BadAlloc), room);
  A_deallocate _ := fun room => (Ok tt, room + 1);
  T_default _ := ret 0;
  T_copy x := if x =? 13 then throw CoreException else ret x;
  T_copy_with x _ := ret x;
  T_move x := ret x;
  T_move_with _ := fun s => (Ok (fst s), (0, snd s));
  T_assign x := fun s => if x =? 13 then (Err (Thrown CoreException), s) else (Ok tt, (x, snd s));
  T_move_assign x := fun s => (Ok tt, (x, snd s));
  T_destroy _ := ret tt
}.

#[local] Instance number_laws : ElementLaws Z Z Z.
Proof.
  refine {| T_new := 0 |}; try by (intros; intros ?).
  - intros a s. cbn. by destruct (0 <? s).
  - intros x s. cbn. by destruct (x =? 13).
  - intros x s. cbn. by destruct (x =? 13).
  - intros a e. cbn. eauto.
  - intros x e. cbn. eauto.
Defined.

(** A value is made, copied, changed, moved to itself, exchanged, moved with an equal
    allocator and copied again until there is no room; all but two nullables are gone in
    the end. *)
Definition sample_program : list (op (T := Z) (A := Z)) :=
  [From 5 1; Copy 0; SetTo 0 6; SetTo 0 13; New 2; MoveAssign 0 0; Swap 0 2; CopyAssign 2 1;
   From 13 1; Resize 0 1; MoveWith 1 1; MoveWith 1 7; FromMoved 13 3; Copy 2; SetMoved 2 13;
   Reset_ 1; Move 2; Delete 1; Delete 2; Delete 3; Delete 4].

Fixpoint execute (os : list (op (T := Z) (A := Z))) (m : memory (T := Z) (A := Z) (E := Z)) :
    option (memory (T := Z) (A := Z) (E := Z)) :=
  match os with
  | [] => Some m
  | o :: os' =>
      if decide (allowed o m) then execute os' (snd (exec o m)) else None
  end.

Lemma execute_executes os m m' : execute os m = Some m' -> executes m os m'.
Proof.
  revert m. induction os as [|o os IH]; intros m He; cbn in He.
  - injection He as <-. constructor.
  - case_decide; [|done]. econstructor; eauto.
Qed.

Lemma nullable_refines_witness : exists m,
  execute (sample_program ++ [Delete 0; Delete 5]) (start 3) = Some m /\ heap m = ∅.
Proof.
  destruct (execute (sample_program ++ [Delete 0; Delete 5]) (start 3)) as [m|] eqn:He;
    [|by vm_compute in He].
  exists m. split; [done|].
  destruct (nullable_refines 3 _ m (execute_executes _ _ _ He)) as (_ & _ & Hn).
  assert (Ho : objects m = ∅) by (vm_compute in He; by injection He as <-).
  exact (Hn Ho).
Defined.

(** An object moved to another allocator, when every nullable is gone. *)
Lemma move_with_allocator_leaks_witness : exists m m' x,
  execute [From 5 1] (start 3) = Some m /\ nullable_move_with 0 2 m = (Ok 1%nat, m') /\
  heap m' !! 1%positive = Some (1, Some x) /\
  forall k n, objects m' !! k = Some n -> nv_value n <> Some 1%positive.
Proof.
  set (m := mkMemory {[1%positive := (1, Some 5)]} {[0%nat := mkNullable 1 (Some 1%positive)]} 2
    : memory (T := Z) (A := Z) (E := Z)).
  assert (He : execute [From 5 1] (start 3) = Some m) by by vm_compute.
  destruct (nullable_move_with 0 2 m) as [o m'] eqn:Em.
  assert (Ho : o = Ok 1%nat) by (vm_compute in Em; by injection Em as <- _). subst o.
  assert (Hm : wf m).
  { apply (executes_wf (start 3) [From 5 1]); [|by apply execute_executes].
    split; intros *; cbn; by rewrite lookup_empty. }
  destruct (move_with_allocator_leaks m 0 (mkNullable 1 (Some 1%positive)) 1%positive 2 1 m'
    Hm eq_refl eq_refl ltac:(done) Em) as [[x Hx] Hk].
  exists m, m', x. exact (conj He (conj Em (conj Hx Hk))).
Defined.
