(* ===== verification/Schema.v ===== *)
(** Schemas, and what a payload means to a reader's schema.

    The compile-time schema of a type, the object its constructor makes, the
    type promotion of cpp/inc/bond/core/reflection.h, and a specification of
    deserialization: the object that results when a value written with one
    schema is read with another. *)

From S2P Require Import Prelude Streams DataType Metadata Protocol.

(** * Types *)

(** The type of a variable.  A struct has its base class and its own fields, in
    increasing order of id; a recursive type is represented by its unfolding to the
    depth of the payload. *)
#[local] Unset Elimination Schemes.
Inductive ftype : Type :=
| FBasic (t : btype)
| FStruct (base : option ftype) (fields : list (Z * Metadata * ftype))
| FList (is_set : bool) (element : ftype)
| FMap (key : btype) (mapped : ftype).
#[local] Set Elimination Schemes.

Section TypeInd.
Context (P : ftype -> Prop).
Context (Hbasic : forall b, P (FBasic b)).
Context (Hstruct : forall base fields, (forall b, base = Some b -> P b) ->
  Forall (fun f => P (snd f)) fields -> P (FStruct base fields)).
Context (Hlist : forall k t, P t -> P (FList k t)).
Context (Hmap : forall kt vt, P vt -> P (FMap kt vt)).

Fixpoint ftype_ind_nested (t : ftype) : P t.
Proof.
  destruct t as [b|base fields|k t|kt vt].
  - apply Hbasic.
  - apply Hstruct.
    + intros b Hb. destruct base as [b'|]; [|discriminate Hb].
      injection Hb as <-. apply ftype_ind_nested.
    + induction fields as [|f fields IH]; constructor; [apply ftype_ind_nested|exact IH].
  - apply Hlist, ftype_ind_nested.
  - apply Hmap, ftype_ind_nested.
Qed.
End TypeInd.

(** [get_type_id<field_type>::value], [is_basic_type<field_type>]. *)
Definition field_type_id (t : ftype) : BondDataType :=
  match t with
  | FBasic b => get_type_id b
  | FStruct _ _ => BT_STRUCT
  | FList is_set _ => if is_set then BT_SET else BT_LIST
  | FMap _ _ => BT_MAP
  end.

Definition is_required (m : Metadata) : bool := bool_decide (modifier m = Required).

(** A schema has increasing field ids, none of them [invalid_field_id]; set elements
    are basic, and a base is a struct. *)
Definition invalid_field_id : Z := 0xffff.

Fixpoint increasing (lo : Z) (ids : list Z) : Prop :=
  match ids with
  | [] => True
  | i :: ids' => lo < i < invalid_field_id /\ increasing i ids'
  end.

Fixpoint type_ok (t : ftype) : Prop :=
  match t with
  | FBasic _ => True
  | FStruct base fields =>
      match base with
      | None => True
      | Some b => field_type_id b = BT_STRUCT /\ type_ok b
      end /\
      increasing (-1) ((fun f => fst (fst f)) <$> fields) /\
      all ((fun f => type_ok (snd f)) <$> fields)
  | FList is_set e => (is_set = true -> exists b, e = FBasic b) /\ type_ok e
  | FMap _ vt => type_ok vt
  end.

(** * Default-constructed variables *)

(** [T()]. *)
Definition zero_scalar (t : btype) : scalar :=
  match t with
  | TBool => SBool false
  | TUInt w => SUInt w 0
  | TInt w => SInt w 0
  | TFloat => SFloat 0
  | TDouble => SDouble 0
  | TString => SString []
  | TWString => SWString []
  end.

(** A generated constructor gives each basic field the default of its metadata. *)
Fixpoint default_object (t : ftype) : value :=
  match t with
  | FBasic b => VBasic (zero_scalar b)
  | FStruct base fields =>
      VStruct (match base with None => None | Some b => Some (default_object b) end)
        ((fun f => (fst f,
            match snd f with
            | FBasic b => VBasic (VariantGet (default_value (snd (fst f))) b)
            | _ => default_object (snd f)
            end)) <$> fields)
  | FList is_set e => VList is_set (field_type_id e) []
  | FMap k vt => VMap (get_type_id k) (field_type_id vt) []
  end.

(** * Type promotion *)

Definition width_le (u x : width) : bool := bits_of u <=? bits_of x.

(** [is_matching_basic<U, X>]: strings of the same kind, integers of the same
    signedness that are not wider, and [float] to [double]. *)
Definition is_matching_basic (u x : btype) : bool :=
  match u, x with
  | TUInt wu, TUInt wx => width_le wu wx
  | TInt wu, TInt wx => width_le wu wx
  | TFloat, TDouble => true
  | _, _ => bool_decide (u = x)
  end.

(** [detail::set(var, value)] for matching types: [var = static_cast<X>(value)]. *)
Definition set_as (x : btype) (s : scalar) : scalar :=
  match x, s with
  | TUInt wx, SUInt _ z => SUInt wx z
  | TInt wx, SInt _ z => SInt wx z
  | TDouble, SFloat z => SDouble (float_to_double z)
  | _, _ => s
  end.

(** * Containers *)

(** [resize_list(var, size)]: the first elements stay, new ones are constructed. *)
Definition resize_list (items : list value) (size : nat) (fresh : value) : list value :=
  take size items ++ replicate (size - length items) fresh.

(** The keys of sets and maps are compared by [<] in the standard containers; two
    keys are the same when neither is less.  For values other than NaN that is
    [==]. *)
Definition same_key (a b : scalar) : bool :=
  match a, b with
  | SFloat x, SFloat y => double_eq (float_to_double x) (float_to_double y)
  | SDouble x, SDouble y => double_eq x y
  | _, _ => bool_decide (a = b)
  end.
Definition is_key (k : scalar) (x : value) : bool :=
  match x with VBasic s => same_key k s | _ => false end.

(** [set_insert(var, e)] and [mapped_at(var, k)]; elements are listed in the order
    they were inserted. *)
Definition set_insert (items : list value) (k : scalar) : list value :=
  if existsb (is_key k) items then items else items ++ [VBasic k].

Definition mapped_at (items : list (value * value)) (k : scalar) (fresh : value) : value :=
  match find (fun kv => is_key k (fst kv)) items with
  | Some kv => snd kv
  | None => fresh
  end.
Definition mapped_set (items : list (value * value)) (k : scalar) (x : value) :
    list (value * value) :=
  if existsb (fun kv => is_key k (fst kv)) items
  then (fun kv => if is_key k (fst kv) then (fst kv, x) else kv) <$> items
  else items ++ [(VBasic k, x)].

(** * Specification: a value read through a schema *)

(** A payload field is used when its type is the one of the schema's field or, for
    basic types, can be promoted to it. *)
Definition accepts_basic (t : ftype) (type : BondDataType) : bool :=
  match t, basic_type_of_id type with
  | FBasic x, Some u => is_matching_basic u x
  | _, _ => false
  end.
Definition accepts (t : ftype) (type : BondDataType) : bool :=
  (field_type_id t =? type) || accepts_basic t type.

(** [f] applied to every element, if it has a result for each. *)
Definition mapM_option {A B} (f : A -> option B) : list A -> option (list B) :=
  fix go l := match l with
              | [] => Some []
              | x :: l' => match f x, go l' with
                           | Some y, Some ys => Some (y :: ys)
                           | _, _ => None
                           end
              end.

Definition lookup_field (id : Z) (present : list (Z * value)) : option value :=
  snd <$> find (fun f => fst f =? id) present.

(** A field of the schema, with the way a payload value is read over its current value:
    the member after reading the fields that are present.  [None]: the field is
    required and missing. *)
Definition read_field (f : Z * Metadata * ftype * (value -> value -> option value))
    (var : value) (present : list (Z * value)) : option value :=
  let '(id, m, t, read) := f in
  let missing := if is_required m then None else Some var in
  match lookup_field id present with
  | Some v => if accepts t (type_of v) then read var v else missing
  | None => missing
  end.

Fixpoint read_fields (fields : list (Z * Metadata * ftype * (value -> value -> option value)))
    (vars : list value) (present : list (Z * value)) : option (list value) :=
  match fields, vars with
  | [], [] => Some []
  | f :: fields', x :: vars' =>
      match read_field f x present, read_fields fields' vars' present with
      | Some y, Some ys => Some (y :: ys)
      | _, _ => None
      end
  | _, _ => None
  end.

(** The fields a payload contains. *)
Definition present_fields (F : wire_format) (fields : list (Z * Metadata * value)) :
    list (Z * value) :=
  (fun f => (fst (fst f), snd f)) <$> filter (fun f => omitted F f = false) fields.

(** ** Hierarchies *)

(** The number of levels of a struct ([hierarchy_depth]), none for other types. *)
Fixpoint type_levels (t : ftype) : nat :=
  match t with
  | FStruct (Some b) _ => S (type_levels b)
  | FStruct None _ => 1
  | _ => 0
  end.
Fixpoint value_levels (v : value) : nat :=
  match v with
  | VStruct (Some b) _ => S (value_levels b)
  | VStruct None _ => 1
  | _ => 0
  end.

(** The object without its [k] most derived levels, and with no more than [n]
    levels. *)
Fixpoint strip (k : nat) (v : value) : value :=
  match k, v with
  | S k', VStruct (Some b) _ => strip k' b
  | _, _ => v
  end.
Definition at_levels (n : nat) (v : value) : value := strip (value_levels v - n) v.

(** [read_as F t var v]: the variable [var] of type [t] after the payload of [v] was
    read into it.  Levels of the payload more derived than [t] are ignored.  [None] if
    a required field is missing, or the payload has fewer levels. *)
Fixpoint read_as (F : wire_format) (t : ftype) (var v : value) : option value :=
  match t, var, v with
  | FBasic x, _, VBasic s =>
      if is_matching_basic (btype_of s) x then Some (VBasic (set_as x s)) else None
  | FStruct bt fs, VStruct bvar vars, VStruct _ _ =>
      match at_levels (type_levels t) v with
      | VStruct bv vfs =>
          match
            (match bt, bvar, bv with
             | None, None, None => Some None
             | Some bt', Some bvar', Some bv' => Some <$> read_as F bt' bvar' bv'
             | _, _, _ => None
             end),
            read_fields ((fun f => (f, read_as F (snd f))) <$> fs) (snd <$> vars)
              (present_fields F vfs)
          with
          | Some b, Some xs => Some (VStruct b (zip (fst <$> fs) xs))
          | _, _ => None
          end
      | _ => None
      end
  | FList is_set e, VList k et items, VList _ pt pitems =>
      if accepts e pt then
        if is_set then
          VList k et <$> (foldl (fun acc x => match acc, read_as F e (default_object e) x with
                                  | Some l, Some (VBasic s) => Some (set_insert l s)
                                  | _, _ => None
                                  end) (Some []) pitems)
        else
          VList k et <$> mapM_option (fun '(c, x) => read_as F e c x)
            (zip (resize_list items (length pitems) (default_object e)) pitems)
      else Some var
  | FMap kt vt, VMap kt' vt' items, VMap pk pv pitems =>
      if accepts (FBasic kt) pk && accepts vt pv then
        VMap kt' vt' <$> (foldl (fun acc kv =>
            match acc, fst kv with
            | Some l, VBasic s =>
                if is_matching_basic (btype_of s) kt then
                  let k := set_as kt s in
                  match read_as F vt (mapped_at l k (default_object vt)) (snd kv) with
                  | Some x => Some (mapped_set l k x)
                  | None => None
                  end
                else None
            | _, _ => None
            end) (Some []) pitems)
      else Some var
  | _, _, _ => None
  end.

(** ** Shapes *)

(** No value of a set, no key of a map, occurs twice; [seen] are those before [l]. *)
Fixpoint distinct (seen : list value) (l : list value) : Prop :=
  match l with
  | [] => True
  | x :: l' =>
      match x with VBasic s => existsb (is_key s) seen = false | _ => False end /\
      distinct (seen ++ [x]) l'
  end.

(** The members of an object and the fields of its class: same ids and metadata, values
    of the type. *)
Fixpoint typed_fields (fs : list (Z * Metadata * (value -> Prop)))
    (vfs : list (Z * Metadata * value)) : Prop :=
  match fs, vfs with
  | [], [] => True
  | f :: fs', vf :: vfs' => fst vf = fst f /\ snd f (snd vf) /\ typed_fields fs' vfs'
  | _, _ => False
  end.

(** [typed t v]: [v] is an object of type [t]. *)
Fixpoint typed (t : ftype) (v : value) : Prop :=
  match t, v with
  | FBasic b, VBasic s => btype_of s = b
  | FStruct bt fs, VStruct bv vfs =>
      match bt, bv with
      | None, None => True
      | Some bt', Some bv' => typed bt' bv'
      | _, _ => False
      end /\
      typed_fields ((fun f => (fst f, typed (snd f))) <$> fs) vfs
  | FList is_set e, VList k et items =>
      k = is_set /\ et = field_type_id e /\ all (typed e <$> items) /\
      (is_set = true -> distinct [] items)
  | FMap kt vt, VMap k v items =>
      k = get_type_id kt /\ v = field_type_id vt /\ distinct [] (fst <$> items) /\
      all ((fun kv => match fst kv with VBasic s => btype_of s = kt | _ => False end /\
                      typed vt (snd kv)) <$> items)
  | _, _ => False
  end.

(** [shaped t v]: the part of [typed] that the paths of a parser through an object depend on. *)
Fixpoint shaped (t : ftype) (v : value) : Prop :=
  match t, v with
  | FBasic _, _ => True
  | FStruct bt fs, VStruct bv vfs =>
      match bt, bv with
      | None, None => True
      | Some bt', Some bv' => shaped bt' bv'
      | _, _ => False
      end /\
      Forall2 (fun (p : value -> Prop) x => p x) ((fun f => shaped (snd f)) <$> fs) (snd <$> vfs)
  | FList _ e, VList _ _ items => all (shaped e <$> items)
  | FMap _ vt, VMap _ _ items => all ((fun kv => shaped vt (snd kv)) <$> items)
  | _, _ => False
  end.

(** * Properties *)

Lemma field_type_id_range t : 2 <= field_type_id t <= 18.
Proof. destruct t as [[|[]|[]| | | |]| |[]|]; vm_compute; split; congruence. Qed.

Lemma accepts_self_basic b : accepts_basic (FBasic b) (get_type_id b) = true.
Proof. by destruct b as [|[]|[]| | | |]. Qed.

(** An exact match of a basic type is also a promotion. *)
Lemma accepts_basic_iff x type :
  accepts (FBasic x) type = match basic_type_of_id type with
                            | Some u => is_matching_basic u x
                            | None => false
                            end.
Proof.
  unfold accepts. destruct (field_type_id (FBasic x) =? type) eqn:E; [|done].
  apply Z.eqb_eq in E. subst type. cbn [field_type_id orb]. symmetry. apply accepts_self_basic.
Qed.

(** A value is not changed by assignment to a variable of its own type. *)
Lemma set_as_self s : set_as (btype_of s) s = s.
Proof. by destruct s. Qed.

Lemma is_matching_basic_refl b : is_matching_basic b b = true.
Proof. by destruct b as [|[]|[]| | | |]. Qed.

(** A promoted value has the type it is promoted to. *)
Lemma set_as_ok s x : is_matching_basic (btype_of s) x = true -> btype_of (set_as x s) = x.
Proof.
  destruct s as [b|w z|w z|z|z|l|l], x as [|w'|w'| | | |]; simpl; intros Hm;
    try done; by apply bool_decide_eq_true in Hm.
Qed.

(** ** Types of objects *)

Lemma typed_fields_zip (fs : list (Z * Metadata * ftype)) (p : ftype -> value -> Prop) xs :
  typed_fields ((fun f => (fst f, p (snd f))) <$> fs) (zip (fst <$> fs) xs) /\
    length xs = length fs <->
  Forall2 (fun f x => p (snd f) x) fs xs.
Proof.
  revert xs. induction fs as [|f fs IH]; intros xs; [destruct xs|].
  - split; [by constructor|done].
  - split; [by intros [_ ?]|]. intros Hf. by apply Forall2_length in Hf.
  - destruct xs as [|x xs]; [split; [by intros [_ ?]|by intros ?%Forall2_length]|].
    rewrite !fmap_cons. cbn [zip zip_with typed_fields length fst snd]. unfold zip in IH.
    split.
    + intros [(_ & Hx & Hr) Hl]. constructor; [done|]. apply IH. split; [done|lia].
    + intros Hf. apply list.Forall2_cons_1 in Hf as [Hx Hf]. apply IH in Hf as [Hr Hl].
      split; [done|lia].
Qed.

Lemma typed_fields_values (fs : list (Z * Metadata * ftype)) (p : ftype -> value -> Prop) vfs :
  typed_fields ((fun f => (fst f, p (snd f))) <$> fs) vfs ->
  Forall2 (fun f x => p (snd f) x) fs (snd <$> vfs) /\ zip (fst <$> fs) (snd <$> vfs) = vfs.
Proof.
  revert vfs. induction fs as [|f fs IH]; intros [|vf vfs]; try done.
  rewrite !fmap_cons. intros (Hf & Hx & Hr). destruct (IH vfs Hr) as [IH1 IH2].
  split; [by constructor|]. cbn [zip zip_with fst] in *. unfold zip in *. rewrite IH2.
  by rewrite <-Hf, <-surjective_pairing.
Qed.

Lemma btype_of_get v b : btype_of (VariantGet v b) = b.
Proof. by destruct b. Qed.

Lemma default_typed t : typed t (default_object t).
Proof.
  induction t as [b|bt fs Hb Hf|k e IH|kt vt IH] using ftype_ind_nested; [by destruct b| |done..].
  cbn [default_object typed]. split; [destruct bt; [by apply Hb|done]|].
  induction Hf as [|[[id m] t] fs Ht _ IH]; [done|].
  rewrite !fmap_cons. split_and!; [done| |exact IH]. cbn [fst snd] in *. destruct t; try done.
  apply btype_of_get.
Qed.

Lemma typed_shaped t : forall v, typed t v -> shaped t v.
Proof.
  induction t as [b|bt fs Hb Hf|k e IH|kt vt IH] using ftype_ind_nested;
    intros [s|bv vfs|k' et items|k' v' items] Hv; try done; cbn [typed shaped] in *.
  - destruct Hv as [Hbv Hfs]. split.
    + destruct bt, bv; try done. by apply Hb.
    + revert vfs Hfs. induction Hf as [|f fs Hf _ IH]; intros [|vf vfs] Hfs; try done.
      rewrite !fmap_cons in *. destruct Hfs as (_ & Hx & Hr).
      constructor; [by apply Hf|by apply IH].
  - destruct Hv as (_ & _ & Hi%all_Forall & _). apply all_Forall.
    eapply Forall_impl; [|exact Hi]. done.
  - destruct Hv as (_ & _ & _ & Hi%all_Forall). apply all_Forall.
    eapply Forall_impl; [|exact Hi]. intros kv [_ Hkv]. by apply IH.
Qed.

(** What the insertions keep. *)
Lemma distinct_snoc seen l k : distinct seen l -> existsb (is_key k) (seen ++ l) = false ->
  distinct seen (l ++ [VBasic k]).
Proof.
  revert seen. induction l as [|x l IH]; intros seen Hd Hk.
  - by rewrite app_nil_r in Hk.
  - destruct Hd as [Hx Hd]. split; [done|]. apply IH; [done|]. by rewrite <-app_assoc.
Qed.

Lemma set_insert_distinct items k : distinct [] items -> distinct [] (set_insert items k).
Proof.
  intros Hd. unfold set_insert. destruct (existsb _ items) eqn:E; [done|].
  by apply distinct_snoc.
Qed.

Lemma mapped_set_distinct items k x : distinct [] (fst <$> items) ->
  distinct [] (fst <$> mapped_set items k x).
Proof.
  intros Hd. unfold mapped_set. destruct (existsb _ items) eqn:E.
  - replace (fst <$> _) with (fst <$> items); [done|]. rewrite <-list_fmap_compose.
    apply list_fmap_ext. intros _ kv _. cbn. by destruct (is_key k (fst kv)).
  - rewrite fmap_app. apply distinct_snoc; [done|]. cbn [app]. rewrite <-E. clear.
    induction items as [|kv items IH]; [done|]. rewrite fmap_cons. cbn [existsb]. by rewrite IH.
Qed.

Definition typed_pair (kt : btype) (vt : ftype) (kv : value * value) : Prop :=
  match fst kv with VBasic s => btype_of s = kt | _ => False end /\ typed vt (snd kv).

Lemma resize_Forall (P : value -> Prop) items n fresh : P fresh -> Forall P items ->
  Forall P (resize_list items n fresh).
Proof.
  intros Hf Hi. apply Forall_app; split; [by apply Forall_take|by apply Forall_replicate].
Qed.

Lemma mapped_at_typed kt vt items k fresh : typed vt fresh ->
  Forall (typed_pair kt vt) items -> typed vt (mapped_at items k fresh).
Proof.
  intros Hf Hi. unfold mapped_at. induction Hi as [|kv items Hkv _ IH]; [done|].
  simpl. destruct (is_key k _); [apply Hkv|done].
Qed.

Lemma mapped_set_typed kt vt items k x : btype_of k = kt -> typed vt x ->
  Forall (typed_pair kt vt) items -> Forall (typed_pair kt vt) (mapped_set items k x).
Proof.
  intros Hk Hx Hi. unfold mapped_set. case_match.
  - apply Forall_fmap. eapply Forall_impl; [|exact Hi]. intros kv Hkv. simpl.
    destruct (is_key k (fst kv)); [by split; [apply Hkv|]|done].
  - apply Forall_app; split; [done|by constructor].
Qed.

(** ** Shapes *)

Lemma default_shaped t : shaped t (default_object t).
Proof.
  induction t as [b|bt fs Hb Hf|k e IH|kt vt IH] using ftype_ind_nested; try done.
  cbn [default_object shaped]. split; [destruct bt; [by apply Hb|done]|].
  induction Hf as [|[[id m] t] fs Ht _ IH]; [constructor|].
  rewrite !fmap_cons. constructor; [|exact IH]. cbn [fst snd] in *. by destruct t.
Qed.

Lemma resize_shaped t items n fresh : shaped t fresh -> Forall (shaped t) items ->
  Forall (shaped t) (resize_list items n fresh).
Proof.
  intros Hf Hi. apply Forall_app; split; [by apply Forall_take|by apply Forall_replicate].
Qed.

Lemma mapped_at_shaped t items k fresh : shaped t fresh ->
  Forall (fun kv => shaped t (snd kv)) items -> shaped t (mapped_at items k fresh).
Proof.
  intros Hf Hi. unfold mapped_at. induction Hi as [|kv items Hkv _ IH]; [done|].
  simpl. by destruct (is_key k _).
Qed.

Lemma mapped_set_shaped t items k x : shaped t x ->
  Forall (fun kv => shaped t (snd kv)) items ->
  Forall (fun kv => shaped t (snd kv)) (mapped_set items k x).
Proof.
  intros Hx Hi. unfold mapped_set. case_match.
  - apply Forall_fmap. eapply Forall_impl; [|exact Hi]. intros kv Hkv. simpl. by case_match.
  - apply Forall_app; split; [done|by constructor].
Qed.

(** ** Levels *)

Lemma strip_levels k v : (k < value_levels v)%nat ->
  value_levels (strip k v) = (value_levels v - k)%nat.
Proof.
  revert v. induction k as [|k IH]; intros v Hk; cbn [strip]; [by rewrite Nat.sub_0_r|].
  destruct v as [|[b|] fields| |]; cbn [value_levels] in *; try lia. rewrite IH by lia. lia.
Qed.

Lemma at_levels_id n v : (value_levels v <= n)%nat -> at_levels n v = v.
Proof. intros Hn. unfold at_levels. by replace (value_levels v - n)%nat with 0%nat by lia. Qed.

Lemma at_levels_bound n v : (0 < n)%nat -> (value_levels (at_levels n v) <= n)%nat.
Proof.
  intros Hn. destruct (le_lt_dec (value_levels v) n) as [Hle|Hlt]; [by rewrite at_levels_id|].
  unfold at_levels. rewrite strip_levels by lia. lia.
Qed.

(** Increasing ids are bounded. *)
Lemma increasing_forall lo l : increasing lo l -> Forall (fun i => lo < i < invalid_field_id) l.
Proof.
  revert lo. induction l as [|i l IH]; intros lo Hl; [constructor|]. destruct Hl as [Hi Hl].
  constructor; [done|]. eapply Forall_impl; [|apply (IH i Hl)]. cbv beta. lia.
Qed.

Lemma increasing_weaken lo lo' l : lo' <= lo -> increasing lo l -> increasing lo' l.
Proof. destruct l; simpl; [done|]. intros ? [? ?]. split; [lia|done]. Qed.
