(* ===== verification/RuntimeSchema.v ===== *)
(** Runtime schemas (cpp/inc/bond/core/runtime_schema.h, schema.h and the types of
    idl/bond/core/bond.bond).

    A schema as data: the definitions of the structs a class refers to, each type a
    tree whose struct leaves are indices.  [InitSchemaDef] makes one from the
    compile-time schema of a class, recursive classes included; the theorems say that
    it ends and that the result describes the declarations. *)

From stdpp Require Import strings.
From S2P Require Import Prelude DataType Metadata Schema.

(** * [SchemaDef] and its parts *)

#[local] Unset Elimination Schemes.
Inductive TypeDef : Type := mkTypeDef {
  td_id : BondDataType;
  struct_def : Z;
  element : option TypeDef;
  key : option TypeDef;
  bonded_type : bool
}.
#[local] Set Elimination Schemes.

Section TypeDefInd.
Context (P : TypeDef -> Prop).
Context (Hnode : forall i n e k b, (forall t, e = Some t -> P t) ->
  (forall t, k = Some t -> P t) -> P (mkTypeDef i n e k b)).

Fixpoint TypeDef_ind_nested (t : TypeDef) : P t.
Proof.
  destruct t as [i n e k b]. apply Hnode.
  - intros t Ht. destruct e as [t'|]; [|discriminate Ht].
    injection Ht as <-. apply TypeDef_ind_nested.
  - intros t Ht. destruct k as [t'|]; [|discriminate Ht].
    injection Ht as <-. apply TypeDef_ind_nested.
Qed.
End TypeDefInd.

Record FieldDef : Type := mkFieldDef {
  fd_metadata : Metadata;
  fd_id : Z;
  fd_type : TypeDef
}.

(** The metadata of a struct also has the name; of a field nothing here reads the
    name. *)
Record StructDef : Type := mkStructDef {
  qualified_name : string;
  sd_metadata : Metadata;
  base_def : option TypeDef;
  fields : list FieldDef
}.

Record SchemaDef : Type := mkSchemaDef {
  structs : list StructDef;
  root : TypeDef
}.

(** The values of default-constructed members. *)
Definition Metadata_new : Metadata := mkMetadata Optional Variant_new [] [].
Definition TypeDef_new : TypeDef := mkTypeDef BT_STRUCT 0 None None false.
Definition StructDef_new : StructDef := mkStructDef ""%string Metadata_new None [].

(** * [RuntimeSchema] *)

(** A pointer to a schema and one to a type in it.  The constructors from a schema
    and from a type of another runtime schema. *)
Record RuntimeSchema : Type := mkRuntimeSchema { rs_schema : SchemaDef; rs_type : TypeDef }.
Definition schema_of (s : SchemaDef) : RuntimeSchema := mkRuntimeSchema s (root s).
Definition with_type (r : RuntimeSchema) (t : TypeDef) : RuntimeSchema :=
  mkRuntimeSchema (rs_schema r) t.
Definition with_field (r : RuntimeSchema) (f : FieldDef) : RuntimeSchema :=
  mkRuntimeSchema (rs_schema r) (fd_type f).

Definition GetTypeId (r : RuntimeSchema) : BondDataType := td_id (rs_type r).

(** [v[i]] of a vector is undefined out of range, and so is the value of an empty
    [nullable]. *)
Definition vector_at {A} (l : list A) (i : Z) : outcome A :=
  match l !! Z.to_nat i with Some x => Ok x | None => Err Undefined end.
Definition nullable_value {A} (o : option A) : outcome A :=
  match o with Some x => Ok x | None => Err Undefined end.

Definition GetStruct (r : RuntimeSchema) : outcome StructDef :=
  vector_at (structs (rs_schema r)) (struct_def (rs_type r)).
Definition HasBase (r : RuntimeSchema) : outcome bool :=
  olet d := GetStruct r in Ok (bool_decide (is_Some (base_def d))).
Definition GetBaseSchema (r : RuntimeSchema) : outcome RuntimeSchema :=
  olet d := GetStruct r in
  olet t := nullable_value (base_def d) in Ok (with_type r t).

(** [detail::schema_depth], a [uint16_t]. *)
Fixpoint schema_depth (fuel : nat) (r : RuntimeSchema) : outcome Z :=
  match fuel with
  | O => Err OutOfFuel
  | S fuel' =>
      olet b := HasBase r in
      if (b : bool) then
        olet base := GetBaseSchema r in
        olet d := schema_depth fuel' base in Ok (wrap 16 (1 + d))
      else Ok 1
  end.

(** [SchemaCache<Unknown>]: a struct with no fields. *)
Definition NewSchemaDef : SchemaDef := mkSchemaDef [StructDef_new] TypeDef_new.
Definition unknown_schema : RuntimeSchema := schema_of NewSchemaDef.

Definition element_schema (r : RuntimeSchema) : RuntimeSchema :=
  match element (rs_type r) with Some t => with_type r t | None => unknown_schema end.
Definition key_schema (r : RuntimeSchema) : RuntimeSchema :=
  match key (rs_type r) with Some t => with_type r t | None => unknown_schema end.

(** * Compile-time schemas of classes *)

(** The type of a member; classes are numbered.  [nullable], [blob] and the other
    kinds of lists are lists, enums are [TInt W32], and a [maybe] is the type
    inside. *)
Inductive ctype : Type :=
| CBasic (t : btype)
| CStruct (bonded : bool) (class : nat)
| CList (is_set : bool) (e : ctype)
| CMap (k mapped : ctype).

(** [schema<T>::type]: metadata, base and fields. *)
Record Class_ : Type := mkClass {
  class_name : string;
  class_metadata : Metadata;
  class_base : option nat;
  class_fields : list (Z * Metadata * ctype)
}.

(** * [InitSchemaDef] *)

Module InitSchemaDef.
Section Init.
Context (classes : list Class_).

(** [This()], the struct definition under construction, is looked up for each
    use. *)
Definition This (i : nat) : M (list StructDef) StructDef :=
  let! s := get in of_outcome (vector_at s (Z.of_nat i)).
Definition set_This (i : nat) (f : StructDef -> StructDef) : M (list StructDef) unit :=
  let! d := This i in modify (fun s => <[i := f d]> s).

(** [GetStructDef<T>]: the index of the struct with the name of the class, which is
    appended first if there is none.  The index has 16 bits. *)
Definition GetStructDef (append : nat -> M (list StructDef) unit) (class : nat) :
    M (list StructDef) Z :=
  let! c := of_option (classes !! class) in
  let! s := get in
  match list_find (fun d => qualified_name d = class_name c) s with
  | Some (i, _) => ret (wrap 16 (Z.of_nat i))
  | None => append class ;;; ret (wrap 16 (zlen s))
  end.

(** [GetTypeDef<T>], an overload for each kind of type. *)
Fixpoint GetTypeDef (append : nat -> M (list StructDef) unit) (t : ctype) :
    M (list StructDef) TypeDef :=
  match t with
  | CBasic b => ret (mkTypeDef (get_type_id b) 0 None None false)
  | CStruct bonded class =>
      let! i := GetStructDef append class in ret (mkTypeDef BT_STRUCT i None None bonded)
  | CList is_set e =>
      let! te := GetTypeDef append e in
      ret (mkTypeDef (if is_set then BT_SET else BT_LIST) 0 (Some te) None false)
  | CMap k mapped =>
      let! tk := GetTypeDef append k in
      let! te := GetTypeDef append mapped in
      ret (mkTypeDef BT_MAP 0 (Some te) (Some tk) false)
  end.

Definition Begin (i : nat) (c : Class_) : M (list StructDef) unit :=
  set_This i (fun d => mkStructDef (class_name c) (class_metadata c) (base_def d) (fields d)).

Definition Base (append : nat -> M (list StructDef) unit) (i : nat) (base : nat) :
    M (list StructDef) unit :=
  let! type := GetTypeDef append (CStruct false base) in
  set_This i (fun d => mkStructDef (qualified_name d) (sd_metadata d) (Some type) (fields d)).

Definition Field (append : nat -> M (list StructDef) unit) (i : nat) (f : Z * Metadata * ctype) :
    M (list StructDef) unit :=
  let! type := GetTypeDef append (snd f) in
  set_This i (fun d => mkStructDef (qualified_name d) (sd_metadata d) (base_def d)
    (fields d ++ [mkFieldDef (snd (fst f)) (fst (fst f)) type])).

(** [AppendStructDef]: the transform, constructed with a new struct definition at the
    end of the vector, is applied to the class: begin, base, fields, end. *)
Fixpoint AppendStructDef (fuel : nat) (class : nat) : M (list StructDef) unit :=
  match fuel with
  | O => fail OutOfFuel
  | S fuel' =>
      let! c := of_option (classes !! class) in
      let! i := gets (fun s => length s) in
      modify (fun s => s ++ [StructDef_new]) ;;;
      Begin i c ;;;
      match class_base c with
      | None => ret tt
      | Some b => Base (AppendStructDef fuel') i b
      end ;;;
      forM (class_fields c) (Field (AppendStructDef fuel') i)
  end.

(** [SchemaCache<T>::Get()]: the first call appends to an empty schema, whose root
    stays the default, struct 0.  Each nested call appends another class, so
    their number is enough. *)
Definition GetSchema (class : nat) : outcome SchemaDef :=
  match AppendStructDef (S (length classes)) class [] with
  | (Ok _, s) => Ok (mkSchemaDef s TypeDef_new)
  | (Err e, _) => Err e
  end.
End Init.
End InitSchemaDef.

(** * What it means for a schema to describe a class *)

Section Describes.
Context (classes : list Class_).

(** A program that compiles: the classes that are mentioned are declared, set
    elements and map keys are basic, a base is declared before the class derived from it, fields in increasing order of id, names are
    different, and the number of classes fits 16 bits. *)
Fixpoint mentions_declared (t : ctype) : Prop :=
  match t with
  | CBasic _ => True
  | CStruct _ c => (c < length classes)%nat
  | CList is_set e => (is_set = true -> exists b, e = CBasic b) /\ mentions_declared e
  | CMap k e => (exists b, k = CBasic b) /\ mentions_declared e
  end.
Definition class_declared (i : nat) (c : Class_) : Prop :=
  match class_base c with None => True | Some b => (b < i)%nat end /\
  increasing (-1) ((fun f => fst (fst f)) <$> class_fields c) /\
  Forall (fun f => mentions_declared (snd f)) (class_fields c).
Definition program_ok : Prop :=
  NoDup (class_name <$> classes) /\ zlen classes < 2 ^ 16 /\
  forall i c, classes !! i = Some c -> class_declared i c.

(** [names]: the names of the struct definitions, by index. *)
Fixpoint describes (names : list string) (t : ctype) (td : TypeDef) : Prop :=
  match t with
  | CBasic b => td = mkTypeDef (get_type_id b) 0 None None false
  | CStruct bonded class => exists i c, classes !! class = Some c /\
      names !! i = Some (class_name c) /\ td = mkTypeDef BT_STRUCT (Z.of_nat i) None None bonded
  | CList is_set e => exists te, describes names e te /\
      td = mkTypeDef (if is_set then BT_SET else BT_LIST) 0 (Some te) None false
  | CMap k e => exists tk te, describes names k tk /\ describes names e te /\
      td = mkTypeDef BT_MAP 0 (Some te) (Some tk) false
  end.
Definition base_describes (names : list string) (b : option nat) (td : option TypeDef) : Prop :=
  match b, td with
  | None, None => True
  | Some c, Some t => describes names (CStruct false c) t
  | _, _ => False
  end.
Definition field_describes (names : list string) (f : Z * Metadata * ctype) (d : FieldDef) :
    Prop :=
  fd_id d = fst (fst f) /\ fd_metadata d = snd (fst f) /\ describes names (snd f) (fd_type d).
Definition struct_describes (names : list string) (c : Class_) (d : StructDef) : Prop :=
  qualified_name d = class_name c /\ sd_metadata d = class_metadata c /\
  base_describes names (class_base c) (base_def d) /\
  Forall2 (field_describes names) (class_fields c) (fields d).

Definition names_of (s : list StructDef) : list string := qualified_name <$> s.
Definition described (names : list string) (d : StructDef) : Prop :=
  exists class c, classes !! class = Some c /\ struct_describes names c d.

(** The whole schema: its root is the class, and every struct definition describes
    the class of its name, all of them different. *)
Definition schema_describes (class : nat) (s : SchemaDef) : Prop :=
  describes (names_of (structs s)) (CStruct false class) (root s) /\
  NoDup (names_of (structs s)) /\
  Forall (described (names_of (structs s))) (structs s).
End Describes.

(** * Well-formed schemas *)

(** A type in a schema of [n] structs: an index in range for a struct, an element type
    for a container, a key type for a map, nothing of the kind for a basic type. *)
Fixpoint typedef_ok (n : Z) (t : TypeDef) : Prop :=
  (td_id t = BT_STRUCT -> 0 <= struct_def t < n) /\
  match element t, key t with
  | Some e, Some k => td_id t = BT_MAP /\ typedef_ok n e /\ typedef_ok n k /\
                      is_Some (basic_type_of_id (td_id k))
  | Some e, None =>
      (td_id t = BT_LIST \/ td_id t = BT_SET /\ is_Some (basic_type_of_id (td_id e))) /\
      typedef_ok n e
  | None, Some _ => False
  | None, None => td_id t = BT_STRUCT \/ is_Some (basic_type_of_id (td_id t))
  end.

(** [levels s i n]: the hierarchy of struct [i] has [n] levels; in particular it is not
    cyclic. *)
Inductive levels (s : SchemaDef) : nat -> nat -> Prop :=
| levels_root i d : structs s !! i = Some d -> base_def d = None -> levels s i 1
| levels_derived i d t n : structs s !! i = Some d -> base_def d = Some t ->
    td_id t = BT_STRUCT -> levels s (Z.to_nat (struct_def t)) n -> levels s i (S n).

Definition struct_ok (n : Z) (d : StructDef) : Prop :=
  match base_def d with
  | None => True
  | Some t => td_id t = BT_STRUCT /\ bonded_type t = false /\ typedef_ok n t
  end /\
  increasing (-1) (fd_id <$> fields d) /\
  Forall (fun f => typedef_ok n (fd_type f)) (fields d).

Definition schema_ok (s : SchemaDef) : Prop :=
  zlen (structs s) < 2 ^ 16 /\
  Forall (struct_ok (zlen (structs s))) (structs s) /\
  (forall i, (i < length (structs s))%nat -> exists n, levels s i n) /\
  td_id (root s) = BT_STRUCT /\ typedef_ok (zlen (structs s)) (root s).

(** * Properties *)

(** ** [describes] looks at the names only, which are never changed *)

Section DescribesMono.
Context (classes : list Class_).

Lemma describes_mono n1 n2 t td : n1 `prefix_of` n2 ->
  describes classes n1 t td -> describes classes n2 t td.
Proof.
  intros Hp. revert td. induction t as [b|bonded c|s e IH|k IHk e IHe]; intros td; simpl; [done| | |].
  - intros (i & cl & Hc & Hi & ->). exists i, cl. split_and!; [done| |done].
    by eapply prefix_lookup_Some.
  - intros (te & He & ->). exists te. auto.
  - intros (tk & te & Hk & He & ->). exists tk, te. auto.
Qed.

Lemma struct_describes_mono n1 n2 c d : n1 `prefix_of` n2 ->
  struct_describes classes n1 c d -> struct_describes classes n2 c d.
Proof.
  intros Hp (Hn & Hm & Hb & Hf). split_and!; [done..| |].
  - unfold base_describes in *. destruct (class_base c), (base_def d); try done.
    by eapply describes_mono.
  - eapply Forall2_impl; [|exact Hf]. intros f fd (? & ? & ?).
    split_and!; [done..|by eapply describes_mono].
Qed.

Lemma described_mono n1 n2 d : n1 `prefix_of` n2 ->
  described classes n1 d -> described classes n2 d.
Proof.
  intros Hp (i & c & Hc & Hd). exists i, c. split; [done|by eapply struct_describes_mono].
Qed.
End DescribesMono.

(** ** The transform appends descriptions *)

Section InitSchemaDefCorrect.
Context (classes : list Class_) (ok : program_ok classes).
Import InitSchemaDef.

(** What holds of the vector between the calls: names of classes, without
    repetition. *)
Definition table_ok (s : list StructDef) : Prop :=
  NoDup (names_of s) /\ names_of s ⊆ class_name <$> classes.

Lemma table_length s : table_ok s -> zlen s <= zlen classes.
Proof.
  intros [Hd Hs]. pose proof (submseteq_length _ _ (NoDup_submseteq _ _ Hd Hs)) as Hl.
  unfold names_of in Hl. rewrite !length_fmap in Hl. lia.
Qed.

(** [s'] is [s] with complete descriptions appended. *)
Definition extends (s s' : list StructDef) : Prop :=
  table_ok s' /\ exists new, s' = s ++ new /\ Forall (described classes (names_of s')) new.

Lemma names_app s1 s2 : names_of (s1 ++ s2) = names_of s1 ++ names_of s2.
Proof. apply fmap_app. Qed.

Lemma extends_prefix s s' : extends s s' -> names_of s `prefix_of` names_of s'.
Proof. intros (_ & new & -> & _). rewrite names_app. by exists (names_of new). Qed.

Lemma extends_refl s : table_ok s -> extends s s.
Proof. intros Hs. split; [done|]. exists []. by rewrite app_nil_r. Qed.

Lemma extends_trans s1 s2 s3 : extends s1 s2 -> extends s2 s3 -> extends s1 s3.
Proof.
  intros H12 H23. pose proof (extends_prefix _ _ H23) as Hp.
  destruct H12 as (_ & n1 & -> & F1), H23 as (Hok & n2 & -> & F2). split; [done|].
  rewrite <-app_assoc in *. exists (n1 ++ n2). split; [done|]. apply Forall_app. split.
  - eapply Forall_impl; [|exact F1]. intros d.
    by apply described_mono.
  - done.
Qed.

(** [append] appends the description of a class that has none yet, and of those it
    refers to; [n] structs are there already. *)
Definition append_spec (append : nat -> M (list StructDef) unit) (n : nat) : Prop :=
  forall s class c, table_ok s -> (n <= length s)%nat -> classes !! class = Some c ->
  class_name c ∉ names_of s ->
  exists s', append class s = (Ok tt, s') /\ extends s s' /\
    names_of s' !! length s = Some (class_name c).

(** [f] leaves a description of the type [t] and appends what it refers to. *)
Definition type_spec (n : nat) (m : M (list StructDef) TypeDef) (t : ctype) : Prop :=
  forall s, table_ok s -> (n <= length s)%nat ->
  exists td s', m s = (Ok td, s') /\ extends s s' /\ describes classes (names_of s') t td.

Lemma extends_length s s' : extends s s' -> (length s <= length s')%nat.
Proof. intros (_ & new & -> & _). rewrite length_app. lia. Qed.

Lemma GetStructDef_spec append n bonded class : append_spec append n ->
  (class < length classes)%nat ->
  type_spec n (let! i := GetStructDef classes append class in
               ret (mkTypeDef BT_STRUCT i None None bonded)) (CStruct bonded class).
Proof.
  intros Ha Hc s Hs Hn. destruct (lookup_lt_is_Some_2 _ _ Hc) as [c Ec].
  destruct ok as (_ & Hlen & _). unfold GetStructDef. rewrite Ec. cbn [of_option]. mrun.
  destruct (list_find _ s) as [[i d]|] eqn:Ef.
  - apply list_find_Some in Ef as (Hi & Hd & _). exists (mkTypeDef BT_STRUCT (Z.of_nat i) None None bonded), s.
    pose proof (lookup_lt_Some _ _ _ Hi). pose proof (table_length s Hs).
    rewrite wrap_id by (unfold fits; lia). split_and!; [done|by apply extends_refl|].
    exists i, c. split_and!; [done| |done]. unfold names_of. rewrite list_lookup_fmap, Hi.
    cbn. by rewrite Hd.
  - apply list_find_None in Ef.
    assert (Hni : class_name c ∉ names_of s).
    { intros Hin. apply list_elem_of_fmap in Hin as (d & Hd & Hin).
      rewrite Forall_forall in Ef. apply list_elem_of_In in Hin. by apply (Ef d). }
    destruct (Ha s class c Hs Hn Ec Hni) as (s' & E & He & Hnm).
    exists (mkTypeDef BT_STRUCT (zlen s) None None bonded), s'. mrun.
    destruct He as [Hok' Hnew] eqn:HeE. pose proof (table_length s' Hok') as Hl'.
    pose proof (lookup_lt_Some _ _ _ Hnm) as Hlt. unfold names_of in Hlt.
    rewrite length_fmap in Hlt.
    rewrite wrap_id by (unfold fits; lia). split_and!; [done|done|].
    by exists (length s), c.
Qed.

Lemma GetTypeDef_spec append n t : append_spec append n -> mentions_declared classes t ->
  type_spec n (GetTypeDef classes append t) t.
Proof.
  intros Ha. induction t as [b|bonded c|is_set e IH|k IHk e IHe]; cbn [mentions_declared]; intros Hm.
  - intros s Hs _. by eexists _, s; split_and!; [|apply extends_refl|].
  - by apply GetStructDef_spec.
  - intros s Hs Hn. destruct (IH (proj2 Hm) s Hs Hn) as (te & s1 & E1 & X1 & D1).
    cbn [GetTypeDef]. mrun. eexists _, s1. split_and!; [done..|]. by exists te.
  - intros s Hs Hn. destruct Hm as [Hk Hm].
    assert (Hkd : mentions_declared classes k) by by destruct Hk as [b ->].
    destruct (IHk Hkd s Hs Hn) as (tk & s1 & E1 & X1 & D1).
    pose proof (extends_length _ _ X1).
    destruct (IHe Hm s1) as (te & s2 & E2 & X2 & D2); [by destruct X1|lia|].
    cbn [GetTypeDef]. mrun. eexists _, s2. split_and!; [done|by eapply extends_trans|].
    exists tk, te. split_and!; [|done..]. eapply describes_mono; [|exact D1].
    by apply extends_prefix.
Qed.

(** *** The struct definition under construction *)

(** [d] at index [length s], followed by complete definitions. *)
Definition under_construction (s : list StructDef) (d : StructDef) (s' : list StructDef) :
    Prop :=
  table_ok s' /\ exists new, s' = s ++ d :: new /\
    Forall (described classes (names_of s')) new.

Lemma set_This_run s d new f :
  set_This (length s) f (s ++ d :: new) = (Ok tt, s ++ f d :: new).
Proof.
  unfold set_This, This, vector_at. rewrite bind_assoc. mrun.
  rewrite Nat2Z.id, list_lookup_middle by done. rewrite (bind_of_outcome_ok _ d) by done.
  unfold modify. rewrite insert_app_r_alt by lia. by rewrite Nat.sub_diag.
Qed.

(** A type is described while the definition is under construction, and stored in
    it. *)
Lemma store_type append n s d s' t (put_type : TypeDef -> StructDef -> StructDef) :
  append_spec append n -> (n <= S (length s))%nat -> mentions_declared classes t ->
  (forall td, qualified_name (put_type td d) = qualified_name d) ->
  under_construction s d s' ->
  exists td s'', (let! type := GetTypeDef classes append t in
      set_This (length s) (put_type type)) s' = (Ok tt, s'') /\
    under_construction s (put_type td d) s'' /\ names_of s' `prefix_of` names_of s'' /\
    describes classes (names_of s'') t td.
Proof.
  intros Ha Hn Ht Hname (Hok & new & -> & Hnew).
  destruct (GetTypeDef_spec append n t Ha Ht (s ++ d :: new)) as (td & s2 & E & X & D);
    [done|rewrite length_app; cbn; lia|].
  pose proof (extends_prefix _ _ X) as Hp. destruct X as (Hok2 & new2 & -> & Hnew2).
  rewrite <-app_assoc in *. cbn [app] in *.
  assert (Hsame : forall l, names_of (s ++ put_type td d :: l) = names_of (s ++ d :: l)).
  { intros l. unfold names_of. rewrite !fmap_app, !fmap_cons. by rewrite Hname. }
  exists td, (s ++ put_type td d :: new ++ new2). mrun. rewrite set_This_run.
  split_and!; [done| |by rewrite Hsame|by rewrite Hsame].
  unfold under_construction, table_ok. rewrite Hsame. split; [done|].
  exists (new ++ new2). split; [done|]. apply Forall_app. split; [|done].
  eapply Forall_impl; [|exact Hnew]. intros x. by apply described_mono.
Qed.

Lemma fields_stored append n s c fs : append_spec append n -> (n <= S (length s))%nat ->
  Forall (fun f => mentions_declared classes (snd f)) fs ->
  forall done d s', under_construction s d s' -> qualified_name d = class_name c ->
  sd_metadata d = class_metadata c -> base_describes classes (names_of s') (class_base c) (base_def d) ->
  Forall2 (field_describes classes (names_of s')) done (fields d) ->
  exists d' s'', forM fs (Field classes append (length s)) s' = (Ok tt, s'') /\
    under_construction s d' s'' /\ qualified_name d' = class_name c /\
    sd_metadata d' = class_metadata c /\
    base_describes classes (names_of s'') (class_base c) (base_def d') /\
    Forall2 (field_describes classes (names_of s'')) (done ++ fs) (fields d').
Proof.
  intros Ha Hn. induction 1 as [|[[id m] t] fs Ht _ IH]; intros done d s' Hu Hq Hm Hb Hf.
  { exists d, s'. rewrite app_nil_r. by split_and!. }
  destruct (store_type append n s d s' t (fun type d => mkStructDef (qualified_name d)
    (sd_metadata d) (base_def d) (fields d ++ [mkFieldDef m id type]))) as (td & s2 & E & U & P & D);
    [done..|].
  cbn [forM]. change (Field classes append (length s) (id, m, t)) with
    (let! type := GetTypeDef classes append t in
     set_This (length s) (fun d => mkStructDef (qualified_name d) (sd_metadata d) (base_def d)
       (fields d ++ [mkFieldDef m id type]))).
  rewrite (bind_ok _ _ _ _ _ E).
  destruct (IH (done ++ [(id, m, t)]) _ s2 U) as (d' & s3 & E3 & U3 & H3).
  - done.
  - done.
  - cbn [base_def]. unfold base_describes in *. destruct (class_base c), (base_def d); try done.
    by eapply describes_mono.
  - cbn [fields]. apply Forall2_app; [|by repeat constructor].
    eapply Forall2_impl; [|exact Hf]. intros f fd (? & ? & ?).
    split_and!; [done..|by eapply describes_mono].
  - exists d', s3. rewrite <-app_assoc in H3. by destruct H3 as (? & ? & ? & ?).
Qed.

(** A budget for the classes that are not in the vector yet is enough. *)
Lemma AppendStructDef_spec fuel :
  append_spec (AppendStructDef classes fuel) (S (length classes) - fuel).
Proof.
  induction fuel as [|fuel IH]; intros s class c Hs Hn Hc Hni.
  { pose proof (table_length s Hs). lia. }
  destruct ok as (Hnames & _ & Hdecl). destruct (Hdecl _ _ Hc) as (Hbase & _ & Hfields).
  set (d1 := mkStructDef (class_name c) (class_metadata c) None []).
  assert (Hu1 : under_construction s d1 (s ++ [d1])).
  { split; [|by exists []]. destruct Hs as [Hd Hsub]. unfold table_ok. rewrite names_app. cbn.
    split.
    - apply list.NoDup_app. split_and!; [done| |apply NoDup_singleton].
      intros x Hx Hin. apply list_elem_of_singleton in Hin. by subst.
    - intros x Hx. apply elem_of_app in Hx as [Hx|Hx]; [by apply Hsub|].
      apply list_elem_of_singleton in Hx as ->. apply list_elem_of_fmap.
      exists c. split; [done|]. by eapply list_elem_of_lookup_2. }
  assert (E1 : Begin (length s) c (s ++ [StructDef_new]) = (Ok tt, s ++ [d1])).
  { unfold Begin. by rewrite set_This_run. }
  assert (exists d2 s2, (match class_base c with None => ret tt
      | Some b => Base classes (AppendStructDef classes fuel) (length s) b end) (s ++ [d1])
      = (Ok tt, s2) /\ under_construction s d2 s2 /\ qualified_name d2 = class_name c /\
      sd_metadata d2 = class_metadata c /\ fields d2 = [] /\
      base_describes classes (names_of s2) (class_base c) (base_def d2))
    as (d2 & s2 & E2 & U2 & Hq & Hm & Hf & Hb).
  { destruct (class_base c) as [b|]; [|by exists d1, (s ++ [d1])].
    destruct (store_type (AppendStructDef classes fuel) (S (length classes) - fuel) s d1 (s ++ [d1])
      (CStruct false b) (fun type d => mkStructDef (qualified_name d) (sd_metadata d) (Some type)
      (fields d))) as (td & s2 & E & U & P & D); [done|lia| |done|done|].
    - pose proof (lookup_lt_Some _ _ _ Hc). cbn. lia.
    - eexists _, s2. split_and!; [exact E|exact U|done..]. }
  destruct (fields_stored (AppendStructDef classes fuel) (S (length classes) - fuel) s c
    (class_fields c) IH ltac:(lia) Hfields [] d2 s2 U2 Hq Hm Hb) as (d3 & s3 & E3 & U3 & H3).
  { rewrite Hf. constructor. }
  exists s3. split.
  { cbn [AppendStructDef]. rewrite Hc. cbn [of_option]. mrun. exact E3. }
  destruct U3 as (Hok3 & new & -> & Hnew). split; [split; [done|]|].
  - exists (d3 :: new). split; [done|]. constructor; [|done]. exists class, c. by split.
  - unfold names_of. rewrite list_lookup_fmap, list_lookup_middle by done. cbn.
    f_equal. by destruct H3.
Qed.
End InitSchemaDefCorrect.

(** ** A schema that describes a class is well-formed *)

Section DescribedOk.
Context (classes : list Class_) (ok : program_ok classes).
Context (s : list StructDef) (root : TypeDef).
Context (Hdesc : Forall (described classes (names_of s)) s) (Hnames : NoDup (names_of s)).

Lemma describes_typedef_ok t td : mentions_declared classes t ->
  describes classes (names_of s) t td -> typedef_ok (zlen s) td.
Proof.
  revert td. induction t as [b|bonded c|is_set e IH|k IHk e IHe]; intros td Hm; cbn [describes].
  - intros ->. split; [by destruct b as [|[]|[]| | | |]|]. right. cbn.
    rewrite type_id_roundtrip. by eexists.
  - intros (i & cl & Hc & Hi & ->). apply lookup_lt_Some in Hi. unfold names_of in Hi.
    rewrite length_fmap in Hi. split; [cbn; lia|by left].
  - intros (te & He & ->). destruct Hm as [Hset Hm]. specialize (IH te Hm He).
    split; [by destruct is_set|]. cbn. split; [|done]. destruct is_set; [right|by left].
    split; [done|]. destruct (Hset eq_refl) as [b ->]. cbn in He. subst te. cbn.
    exists b. apply type_id_roundtrip.
  - intros (tk & te & Hk & He & ->). destruct Hm as [[b ->] Hm]. cbn in Hk. subst tk.
    split; [done|]. cbn. split_and!; [done|by apply IHe|by destruct b as [|[]|[]| | | |]| |].
    + right. exists b. apply type_id_roundtrip.
    + exists b. apply type_id_roundtrip.
Qed.

Lemma described_at i d : s !! i = Some d -> exists class c, classes !! class = Some c /\
  struct_describes classes (names_of s) c d.
Proof.
  intros Hi. rewrite Forall_forall in Hdesc. apply Hdesc.
  apply list_elem_of_In. by eapply list_elem_of_lookup_2.
Qed.

Lemma described_struct_ok : Forall (struct_ok (zlen s)) s.
Proof.
  apply Forall_forall. intros d Hin. apply list_elem_of_In, list_elem_of_lookup_1 in Hin as [i Hi].
  destruct (described_at i d Hi) as (class & c & Hc & Hq & Hm & Hb & Hf).
  destruct ok as (_ & _ & Hdecl). destruct (Hdecl _ _ Hc) as (Hbase & Hinc & Hfields).
  pose proof (lookup_lt_Some _ _ _ Hc). split_and!.
  - destruct (class_base c) as [b|], (base_def d) as [td|]; try done.
    pose proof (describes_typedef_ok (CStruct false b) td ltac:(cbn; lia) Hb).
    by destruct Hb as (j & cl & _ & _ & ->).
  - assert (E : fd_id <$> fields d = (fun f => fst (fst f)) <$> class_fields c); [|by rewrite E].
    clear -Hf. induction Hf as [|f fd fs fds (Hx & _) _ IH]; [done|].
    rewrite !fmap_cons. by rewrite Hx, IH.
  - clear -Hf Hfields Hdesc ok. induction Hf as [|f fd fs fds (_ & _ & Hx) _ IH]; [constructor|].
    apply Forall_cons_1 in Hfields as [Hm Hfields]. constructor; [|by apply IH].
    by eapply describes_typedef_ok.
Qed.

(** The classes with equal names are the same. *)
Lemma class_of_name i j ci cj : classes !! i = Some ci -> classes !! j = Some cj ->
  class_name ci = class_name cj -> i = j.
Proof.
  intros Hi Hj Hn. destruct ok as (Hd & _ & _).
  eapply (NoDup_lookup _ _ _ (class_name ci) Hd); rewrite list_lookup_fmap.
  - by rewrite Hi.
  - rewrite Hj. cbn. by rewrite Hn.
Qed.

Lemma described_levels class : forall c i, classes !! class = Some c ->
  names_of s !! i = Some (class_name c) -> exists n, levels (mkSchemaDef s root) i n.
Proof.
  induction (lt_wf class) as [class _ IH]. intros c i Hc Hn.
  unfold names_of in Hn. rewrite list_lookup_fmap in Hn.
  destruct (s !! i) as [d|] eqn:Hi; [|done]. cbn in Hn. injection Hn as Hn.
  destruct (described_at i d Hi) as (class' & c' & Hc' & Hq & _ & Hb & _).
  assert (class' = class) as -> by (eapply class_of_name; [done..|congruence]).
  assert (c' = c) as -> by congruence.
  destruct ok as (_ & _ & Hdecl). destruct (Hdecl _ _ Hc) as (Hbase & _ & _).
  destruct (class_base c) as [b|], (base_def d) as [td|] eqn:Hbd; try done.
  - destruct Hb as (j & cl & Hcl & Hj & ->).
    destruct (IH b Hbase cl j Hcl Hj) as [n Hl]. exists (S n).
    eapply levels_derived; [exact Hi|exact Hbd|done|]. cbn. by rewrite Nat2Z.id.
  - exists 1%nat. by eapply levels_root.
Qed.
End DescribedOk.

(** ** The depth of a hierarchy *)

Section Depth.
Context (s : SchemaDef).

Lemma levels_det i n : levels s i n -> forall m, levels s i m -> n = m.
Proof.
  induction 1 as [i d Hi Hb|i d t n Hi Hb Ht Hl IH]; intros m Hm; inversion Hm; subst;
    simplify_eq; [done|]. f_equal. by apply IH.
Qed.

(** The structs of a hierarchy are distinct, so there are no more levels than
    structs. *)
Lemma levels_distinct i n : levels s i n -> exists l, length l = n /\ NoDup l /\
  Forall (fun j => (j < length (structs s))%nat /\ exists m, (m <= n)%nat /\ levels s j m) l.
Proof.
  induction 1 as [i d Hi Hb|i d t n Hi Hb Ht Hl (l & Hlen & Hd & Hf)].
  - exists [i]. split_and!; [done|apply NoDup_singleton|]. repeat constructor.
    + by eapply lookup_lt_Some.
    + exists 1%nat. split; [done|]. by eapply levels_root.
  - assert (Hi' : levels s i (S n)) by by eapply levels_derived.
    exists (i :: l). cbn [length]. split_and!; [lia| |].
    + constructor; [|done]. intros Hin. rewrite Forall_forall in Hf.
      apply list_elem_of_In in Hin. destruct (Hf i Hin) as (_ & m & Hm & Hlm).
      pose proof (levels_det _ _ Hi' _ Hlm). lia.
    + constructor.
      * split; [by eapply lookup_lt_Some|]. by exists (S n).
      * eapply Forall_impl; [|exact Hf]. intros j (Hj & m & Hm & Hlm). split; [done|].
        exists m. split; [lia|done].
Qed.

Lemma levels_bound i n : levels s i n -> (1 <= n <= length (structs s))%nat.
Proof.
  intros Hl. split; [by destruct Hl; lia|].
  destruct (levels_distinct i n Hl) as (l & <- & Hd & Hf).
  rewrite <-(length_seq (length (structs s)) 0).
  apply submseteq_length, NoDup_submseteq; [done|]. intros j Hj. rewrite Forall_forall in Hf. apply list_elem_of_In in Hj. destruct (Hf j Hj) as [Hj' _].
  apply elem_of_seq. lia.
Qed.

Lemma schema_depth_levels fuel t n : zlen (structs s) < 2 ^ 16 ->
  levels s (Z.to_nat (struct_def t)) n -> (n <= fuel)%nat ->
  schema_depth fuel (mkRuntimeSchema s t) = Ok (Z.of_nat n).
Proof.
  intros Hs. revert fuel t. induction n as [|n IH]; intros fuel t Hl Hf;
    pose proof (levels_bound _ _ Hl) as Hn; [lia|].
  destruct fuel as [|fuel]; [lia|]. cbn [schema_depth].
  inversion Hl as [i d Hi Hb|i d td m Hi Hb Ht Hm]; subst;
    unfold HasBase, GetBaseSchema, GetStruct, vector_at; cbn [rs_schema rs_type];
    rewrite Hi; cbn [obind]; rewrite Hb; [done|].
  rewrite bool_decide_true by by eexists.
  cbn [obind nullable_value].
  change (with_type _ td) with (mkRuntimeSchema s td). rewrite (IH fuel td Hm) by lia.
  cbn [obind]. rewrite wrap_id; [f_equal; lia|unfold fits; lia].
Qed.
End Depth.

Lemma GetSchema_result (classes : list Class_) (class : nat) :
  program_ok classes -> (class < length classes)%nat ->
  exists s, InitSchemaDef.GetSchema classes class = Ok s /\ schema_describes classes class s.
Proof.
  intros Hok Hclass. destruct (lookup_lt_is_Some_2 _ _ Hclass) as [c Hc].
  destruct (AppendStructDef_spec classes Hok (S (length classes)) [] class c) as
    (s & E & (Hs & new & Hnew & Hd) & Hn).
  - split; [constructor|]. intros x Hx. by apply elem_of_nil in Hx.
  - rewrite Nat.sub_diag. cbn. lia.
  - done.
  - by apply not_elem_of_nil.
  - unfold InitSchemaDef.GetSchema. rewrite E. eexists. split; [done|].
    split_and!; cbn [structs root]; [|by apply Hs|].
    + exists 0%nat, c. by split_and!.
    + cbn in Hnew. by subst.
Qed.

Lemma described_ok (classes : list Class_) (class : nat) (s : SchemaDef) :
  program_ok classes -> schema_describes classes class s -> schema_ok s.
Proof.
  intros Hok Hs.
  destruct s as [s r], Hs as (Hroot & Hn & Hd). cbn [structs root] in *.
  assert (Hlen : zlen s <= zlen classes).
  { apply (table_length classes). split; [done|]. intros x Hx.
    apply list_elem_of_fmap in Hx as (d & -> & Hx). apply list_elem_of_lookup_1 in Hx as [i Hi].
    destruct (described_at classes s Hd i d Hi) as (k & c & Hc & Hq & _). rewrite Hq.
    apply list_elem_of_fmap. exists c. split; [done|]. by eapply list_elem_of_lookup_2. }
  assert (Hroot' := Hroot). destruct Hroot' as (i0 & c0 & Hc0 & Hi0 & ->).
  split_and!; cbn [structs root].
  - destruct Hok as (_ & ? & _). lia.
  - by apply (described_struct_ok classes).
  - intros i Hi. destruct (lookup_lt_is_Some_2 _ _ Hi) as [d Ed].
    destruct (described_at classes s Hd i d Ed) as (k & c & Hc & Hq & _).
    eapply (described_levels classes); [done..|]. unfold names_of.
    rewrite list_lookup_fmap, Ed. cbn. by rewrite Hq.
  - done.
  - eapply (describes_typedef_ok classes); [done..| |exact Hroot].
    by apply lookup_lt_Some in Hc0.
Qed.

(** C16: the schema of any class of a program that compiles is built in finitely many
    steps, however the classes refer to each other, and describes the class: struct 0
    is the class itself, no class appears twice, and every struct definition has the
    name, the metadata, the base and the fields of its class, with references to the
    definitions of the classes the declarations mention. *)
Theorem GetSchema_describes (classes : list Class_) (class : nat)
    (Hok : program_ok classes) (Hclass : (class < length classes)%nat) :
  exists s, InitSchemaDef.GetSchema classes class = Ok s /\ schema_describes classes class s.
Proof. by apply GetSchema_result. Qed.

(** C30: for a class of a program that compiles, [GetSchema] gives a schema that is
    well-formed, so that what follows its references stays inside it and ends: the structs are
    fewer than 2^16, every index of a base, a field or an element leads to a struct,
    containers have an element type and maps a key, the fields of a struct come in increasing
    order of id, and no struct derives from itself; the computation of the depth of the
    hierarchy, with as much fuel as there are structs, gives the number of its levels. *)
Theorem described_schema_ok (classes : list Class_) (class : nat)
    (Hok : program_ok classes) (Hclass : (class < length classes)%nat) :
  exists s, InitSchemaDef.GetSchema classes class = Ok s /\ schema_ok s /\
    exists n, levels s (Z.to_nat (struct_def (root s))) n /\
      schema_depth (length (structs s)) (mkRuntimeSchema s (root s)) = Ok (Z.of_nat n).
Proof.
  destruct (GetSchema_result classes class Hok Hclass) as (s & E & D). exists s. split; [done|].
  pose proof (described_ok classes class s Hok D) as Hs. split; [done|].
  destruct D as ((i & c & _ & Hi & Er) & _ & _). destruct Hs as (Hlen & _ & Hl & _).
  destruct (Hl i) as [n Hn].
  { apply lookup_lt_Some in Hi. unfold names_of in Hi. by rewrite length_fmap in Hi. }
  exists n. rewrite Er. cbn [struct_def]. rewrite Nat2Z.id. split; [done|].
  apply schema_depth_levels; [done| |by apply levels_bound in Hn as [_ ?]].
  cbn [struct_def]. by rewrite Nat2Z.id.
Qed.

(** Well-formedness of a type or of the definitions of a concrete schema. *)
Ltac solve_typedef :=
  cbn; unfold struct_ok; repeat match goal with
  | |- Forall _ [] => constructor
  | |- Forall _ (_ :: _) => constructor
  | |- _ /\ _ => split
  | |- _ -> _ => intros ?
  | |- ?a = ?a \/ _ => left; reflexivity
  | |- _ \/ is_Some _ => right; eexists; reflexivity
  | |- _ \/ (_ /\ _) => right
  | |- is_Some _ => eexists; reflexivity
  | |- _ => progress cbn
  end; try done; try lia.

(** ** An example: recursive classes, a base, all kinds of types *)

Definition tree_program : list Class_ := [
  mkClass "Base" Metadata_new None [(0, Metadata_new, CBasic (TInt W32))];
  mkClass "Tree" Metadata_new (Some 0%nat)
    [(0, Metadata_new, CList false (CStruct false 1));
     (5, Metadata_new, CMap (CBasic TString) (CStruct false 2))];
  mkClass "Node" Metadata_new None
    [(1, Metadata_new, CList true (CBasic (TUInt W16)));
     (2, Metadata_new, CStruct true 1)]].

Lemma tree_program_ok : program_ok tree_program.
Proof.
  split_and!; [|by vm_compute|].
  - apply (bool_decide_unpack _). by vm_compute.
  - intros [|[|[|i]]] c Hc; cbn in Hc; try (by destruct i); injection Hc as <-;
      (split_and!; [by vm_compute|by vm_compute|]);
      repeat constructor; cbn; try lia; try (intros; by eexists); try done.
Qed.

Definition tree_schema : SchemaDef := mkSchemaDef
  [mkStructDef "Tree" Metadata_new (Some (mkTypeDef BT_STRUCT 1 None None false))
     [mkFieldDef Metadata_new 0
        (mkTypeDef BT_LIST 0 (Some (mkTypeDef BT_STRUCT 0 None None false)) None false);
      mkFieldDef Metadata_new 5
        (mkTypeDef BT_MAP 0 (Some (mkTypeDef BT_STRUCT 2 None None false))
           (Some (mkTypeDef BT_STRING 0 None None false)) false)];
   mkStructDef "Base" Metadata_new None
     [mkFieldDef Metadata_new 0 (mkTypeDef BT_INT32 0 None None false)];
   mkStructDef "Node" Metadata_new None
     [mkFieldDef Metadata_new 1
        (mkTypeDef BT_SET 0 (Some (mkTypeDef BT_UINT16 0 None None false)) None false);
      mkFieldDef Metadata_new 2 (mkTypeDef BT_STRUCT 0 None None true)]]
  TypeDef_new.

Lemma GetSchema_describes_witness :
  InitSchemaDef.GetSchema tree_program 1 = Ok tree_schema /\
  schema_describes tree_program 1 tree_schema.
Proof.
  destruct (GetSchema_describes tree_program 1 tree_program_ok ltac:(cbn; lia)) as (s & E & D).
  assert (E' : InitSchemaDef.GetSchema tree_program 1 = Ok tree_schema) by by vm_compute.
  assert (s = tree_schema) as -> by congruence. exact (conj E' D).
Defined.

Lemma described_schema_ok_witness :
  InitSchemaDef.GetSchema tree_program 1 = Ok tree_schema /\ schema_ok tree_schema /\
  levels tree_schema 0 2.
Proof.
  destruct (described_schema_ok tree_program 1 tree_program_ok ltac:(cbn; lia)) as (s & E & D & n & Hn & En).
  assert (E' : InitSchemaDef.GetSchema tree_program 1 = Ok tree_schema) by by vm_compute.
  assert (s = tree_schema) as -> by congruence.
  assert (Ed : schema_depth (length (structs tree_schema)) (mkRuntimeSchema tree_schema (root tree_schema)) = Ok 2)
    by by vm_compute.
  assert (n = 2%nat) as -> by (rewrite Ed in En; injection En; lia). exact (conj E' (conj D Hn)).
Defined.
