(* ===== verification/Validate.v ===== *)
(** Validation of schema compatibility (cpp/inc/bond/core/validate.h,
    cpp/inc/bond/core/detail/validate.h).

    [Validate] compares two runtime schemas, recursive ones included, by walking both
    at once and not entering a pair of structs it is already comparing.  The theorem:
    it decides the largest relation that is closed under the compatibility of types,
    fields and hierarchies. *)

From stdpp Require Import strings.
From S2P Require Import Prelude DataType Metadata Schema RuntimeSchema.

(** * The code; the state is the out-parameter [identical] *)

(** [ValidateType(BondDataType src, BondDataType dst)]. *)
Definition ValidateType_id (src dst : BondDataType) : bool :=
  if (src =? BT_UINT8) || (src =? BT_UINT16) || (src =? BT_UINT32) then
    if (dst =? BT_UINT16) || (dst =? BT_UINT32) || (dst =? BT_UINT64)
    then src <=? dst else src =? dst
  else if (src =? BT_INT8) || (src =? BT_INT16) || (src =? BT_INT32) then
    if (dst =? BT_INT16) || (dst =? BT_INT32) || (dst =? BT_INT64)
    then src <=? dst else src =? dst
  else if src =? BT_FLOAT then dst =? BT_DOUBLE
  else src =? dst.

(** [struct_list]: the pairs of struct definitions under comparison, destination first;
    an address of a definition in the vector of its schema is its index. *)
Abbreviation struct_list := (list (Z * Z)).
Definition listed (list : struct_list) (dst src : Z) : bool :=
  existsb (fun p => (fst p =? dst) && (snd p =? src)) list.

Definition not_identical : M bool unit := put false.

(** [ValidateType] of types: [validate] is [ValidateStruct] with the list of the
    caller.  [*src.GetType().element] is undefined if there is none. *)
Fixpoint ValidateType (validate : RuntimeSchema -> RuntimeSchema -> M bool unit)
    (src dst : SchemaDef) (ts td : TypeDef) {struct td} : M bool bool :=
  if negb (td_id td =? td_id ts) then
    not_identical ;;; ret (ValidateType_id (td_id ts) (td_id td))
  else
    (if eqb (bonded_type td) (bonded_type ts) then ret tt else not_identical) ;;;
    if (td_id td =? BT_STRUCT) && negb (bonded_type td) then
      validate (mkRuntimeSchema src ts) (mkRuntimeSchema dst td) ;;; ret true
    else
      let! element_ok :=
        match element td with
        | None => ret true
        | Some ed =>
            let! es := of_outcome (nullable_value (element ts)) in
            ValidateType validate src dst es ed
        end in
      if negb element_ok then ret false
      else
        match key td with
        | None => ret true
        | Some kd =>
            let! ks := of_outcome (nullable_value (key ts)) in
            ValidateType validate src dst ks kd
        end.

(** The checks of a field of the destination: without a field of the source, and
    with it. *)
Definition validate_missing (f_dst : FieldDef) : M bool unit :=
  if is_required (fd_metadata f_dst) then throw SchemaValidateException else ret tt.
Definition validate_field (validate : RuntimeSchema -> RuntimeSchema -> M bool unit)
    (src dst : SchemaDef) (f_src f_dst : FieldDef) : M bool unit :=
  if is_required (fd_metadata f_dst) && bool_decide (modifier (fd_metadata f_src) = Optional)
  then throw SchemaValidateException
  else
    let! ok := ValidateType validate src dst (fd_type f_src) (fd_type f_dst) in
    if (ok : bool) then ret tt else throw SchemaValidateException.

(** The loop of [ValidateFields]: the fields from [i_dst] and those from [i_src]. *)
Fixpoint validate_fields (validate : RuntimeSchema -> RuntimeSchema -> M bool unit)
    (src dst : SchemaDef) (dst_fields : list FieldDef) : list FieldDef -> M bool unit :=
  match dst_fields with
  | [] => fun _ => ret tt
  | f_dst :: dst_fields' =>
      fix skip (src_fields : list FieldDef) : M bool unit :=
        match src_fields with
        | f_src :: src_fields' =>
            if fd_id f_src <? fd_id f_dst then skip src_fields'
            else if fd_id f_dst <? fd_id f_src then
              validate_missing f_dst ;;;
              validate_fields validate src dst dst_fields' src_fields
            else
              validate_field validate src dst f_src f_dst ;;;
              validate_fields validate src dst dst_fields' src_fields'
        | [] =>
            validate_missing f_dst ;;; validate_fields validate src dst dst_fields' []
        end
  end.
Definition ValidateFields (validate : RuntimeSchema -> RuntimeSchema -> M bool unit)
    (src dst : RuntimeSchema) : M bool unit :=
  let! s_dst := of_outcome (GetStruct dst) in
  let! s_src := of_outcome (GetStruct src) in
  (if zlen (fields s_dst) =? zlen (fields s_src) then ret tt else not_identical) ;;;
  validate_fields validate (rs_schema src) (rs_schema dst) (fields s_dst) (fields s_src).

Definition depth_of (r : RuntimeSchema) : outcome Z :=
  schema_depth (S (length (structs (rs_schema r)))) r.

Fixpoint ValidateStruct (fuel : nat) (src dst : RuntimeSchema) (list : struct_list) :
    M bool unit :=
  match fuel with
  | O => fail OutOfFuel
  | S fuel' =>
      let! _ := of_outcome (GetStruct dst) in
      let! _ := of_outcome (GetStruct src) in
      if listed list (struct_def (rs_type dst)) (struct_def (rs_type src)) then ret tt
      else
        let next := (struct_def (rs_type dst), struct_def (rs_type src)) :: list in
        let! d_dst := of_outcome (depth_of dst) in
        let! d_src := of_outcome (depth_of src) in
        if d_src <? d_dst then throw SchemaValidateException
        else if d_dst <? d_src then
          let! base := of_outcome (GetBaseSchema src) in
          not_identical ;;; ValidateStruct fuel' base dst next
        else
          let! has_base := of_outcome (HasBase dst) in
          (if (has_base : bool) then
             let! b_src := of_outcome (GetBaseSchema src) in
             let! b_dst := of_outcome (GetBaseSchema dst) in
             ValidateStruct fuel' b_src b_dst next
           else ret tt) ;;;
          ValidateFields (fun s d => ValidateStruct fuel' s d next) src dst
  end.

(** Each pair of structs is entered once on a path, and one more call finds it in the
    list. *)
Definition pair_count (src dst : SchemaDef) : nat :=
  (length (structs src) * length (structs dst))%nat.

(** [Validate(src, dst)]. *)
Definition Validate (src dst : RuntimeSchema) : outcome bool :=
  match ValidateStruct (S (pair_count (rs_schema src) (rs_schema dst))) src dst [] true with
  | (Ok _, identical) => Ok identical
  | (Err e, _) => Err e
  end.

Definition ValidateTwoWay (s1 s2 : RuntimeSchema) : outcome bool :=
  olet a := Validate s1 s2 in olet b := Validate s2 s1 in Ok (andb a b).

(** * Specification: compatibility *)

(** A basic type that is promoted to another. *)
Definition promotes (src dst : BondDataType) : bool :=
  match basic_type_of_id src, basic_type_of_id dst with
  | Some u, Some x => is_matching_basic u x
  | _, _ => false
  end.

(** Types, given the relation [X] of struct definitions.  What is inside a
    [bonded<T>] does not matter. *)
Fixpoint type_compat (X : Z -> Z -> Prop) (ts td : TypeDef) {struct td} : Prop :=
  if td_id td =? td_id ts then
    if (td_id td =? BT_STRUCT) && negb (bonded_type td) then X (struct_def ts) (struct_def td)
    else
      match element td with
      | None => True
      | Some ed => match element ts with Some es => type_compat X es ed | None => False end
      end /\
      match key td with
      | None => True
      | Some kd => match key ts with Some ks => type_compat X ks kd | None => False end
      end
  else promotes (td_id ts) (td_id td) = true.

Definition find_field (id : Z) (l : list FieldDef) : option FieldDef :=
  find (fun f => fd_id f =? id) l.

(** A field of the destination: a required one is there in every payload of the
    source. *)
Definition field_compat (X : Z -> Z -> Prop) (src_fields : list FieldDef) (f_dst : FieldDef) :
    Prop :=
  match find_field (fd_id f_dst) src_fields with
  | None => is_required (fd_metadata f_dst) = false
  | Some f_src =>
      (is_required (fd_metadata f_dst) = true -> modifier (fd_metadata f_src) <> Optional) /\
      type_compat X (fd_type f_src) (fd_type f_dst)
  end.

(** Structs: a source with more levels is compared without the most derived ones. *)
Definition struct_compat (src dst : SchemaDef) (X : Z -> Z -> Prop) (i j : Z) : Prop :=
  exists s d n m, structs src !! Z.to_nat i = Some s /\ structs dst !! Z.to_nat j = Some d /\
    levels src (Z.to_nat i) n /\ levels dst (Z.to_nat j) m /\ (m <= n)%nat /\
    if decide (m < n)%nat then exists t, base_def s = Some t /\ X (struct_def t) j
    else
      match base_def d with
      | None => True
      | Some td => exists ts, base_def s = Some ts /\ X (struct_def ts) (struct_def td)
      end /\
      Forall (field_compat X (fields s)) (fields d).

(** The largest relation with this property. *)
Definition compatible (src dst : SchemaDef) (i j : Z) : Prop :=
  exists X : Z -> Z -> Prop, X i j /\ forall i' j', X i' j' -> struct_compat src dst X i' j'.

(** * Properties *)

Lemma ValidateType_id_promotes src dst : src <> dst ->
  ValidateType_id src dst = promotes src dst.
Proof.
  intros Hne. unfold ValidateType_id, promotes.
  destruct (basic_type_of_id src) as [u|] eqn:Hu.
  - apply basic_type_of_id_inv in Hu as ->.
    destruct (basic_type_of_id dst) as [x|] eqn:Hx.
    + apply basic_type_of_id_inv in Hx as ->.
      destruct u as [|[]|[]| | | |], x as [|[]|[]| | | |]; done.
    + assert (Hno : forall b, (dst =? get_type_id b) = false).
      { intros b. apply Z.eqb_neq. intros ->. by rewrite type_id_roundtrip in Hx. }
      pose proof (Hno (TUInt W16)) as N1. pose proof (Hno (TUInt W32)) as N2.
      pose proof (Hno (TUInt W64)) as N3. pose proof (Hno (TInt W16)) as N4.
      pose proof (Hno (TInt W32)) as N5. pose proof (Hno (TInt W64)) as N6.
      pose proof (Hno TDouble) as N7. cbn [get_type_id] in *.
      rewrite N1, N2, N3, N4, N5, N6, N7. cbn [orb].
      apply Z.eqb_neq in Hne. rewrite Hne. by repeat case_match.
  - assert (Hno : forall b, (src =? get_type_id b) = false).
    { intros b. apply Z.eqb_neq. intros ->. by rewrite type_id_roundtrip in Hu. }
    pose proof (Hno (TUInt W8)) as N1. pose proof (Hno (TUInt W16)) as N2.
    pose proof (Hno (TUInt W32)) as N3. pose proof (Hno (TInt W8)) as N4.
    pose proof (Hno (TInt W16)) as N5. pose proof (Hno (TInt W32)) as N6.
    pose proof (Hno TFloat) as N7. cbn [get_type_id] in *.
    rewrite N1, N2, N3, N4, N5, N6, N7. cbn [orb]. by apply Z.eqb_neq.
Qed.

(** ** Compatibility is monotone in the relation of structs *)

Lemma type_compat_mono (X Y : Z -> Z -> Prop) : (forall i j, X i j -> Y i j) ->
  forall td ts, type_compat X ts td -> type_compat Y ts td.
Proof.
  intros HXY. induction td as [i n e k b IHe IHk] using TypeDef_ind_nested. intros ts.
  cbn [type_compat td_id element key bonded_type struct_def].
  destruct (i =? td_id ts); [|done]. destruct ((i =? BT_STRUCT) && negb b); [apply HXY|].
  intros [He Hk]. split.
  - destruct e as [ed|]; [|done]. destruct (element ts); [|done]. by apply IHe.
  - destruct k as [kd|]; [|done]. destruct (key ts); [|done]. by apply IHk.
Qed.

Lemma field_compat_mono (X Y : Z -> Z -> Prop) l f : (forall i j, X i j -> Y i j) ->
  field_compat X l f -> field_compat Y l f.
Proof.
  intros HXY. unfold field_compat. destruct (find_field _ l); [|done]. intros [Hr Ht].
  split; [done|]. by eapply type_compat_mono.
Qed.

Lemma struct_compat_mono src dst (X Y : Z -> Z -> Prop) i j : (forall i j, X i j -> Y i j) ->
  struct_compat src dst X i j -> struct_compat src dst Y i j.
Proof.
  intros HXY (s & d & n & m & Hs & Hd & Hn & Hm & Hle & Hc). exists s, d, n, m.
  split_and!; [done..|]. destruct (decide _).
  - destruct Hc as (t & Ht & Hc). exists t. auto.
  - destruct Hc as [Hb Hf]. split.
    + destruct (base_def d); [|done]. destruct Hb as (ts & Hts & Hb). exists ts. auto.
    + eapply Forall_impl; [|exact Hf]. intros f. by apply field_compat_mono.
Qed.

(** ** A command that decides: success proves [P], an exception refutes [N] *)

Definition settles (m : M bool unit) (P N : Prop) : Prop := forall b, exists b',
  (m b = (Ok tt, b') /\ P) \/ (m b = (Err (Thrown SchemaValidateException), b') /\ ~ N).

Definition decides (m : M bool bool) (P N : Prop) : Prop := forall b, exists b',
  (m b = (Ok true, b') /\ P) \/
  ((m b = (Ok false, b') \/ m b = (Err (Thrown SchemaValidateException), b')) /\ ~ N).

Lemma settles_impl m (P P' N N' : Prop) :
  settles m P N -> (P -> P') -> (N' -> N) -> settles m P' N'.
Proof. intros Hm HP HN b. destruct (Hm b) as (b' & [[E ?]|[E ?]]); exists b'; naive_solver. Qed.

Lemma decides_impl m (P P' N N' : Prop) :
  decides m P N -> (P -> P') -> (N' -> N) -> decides m P' N'.
Proof. intros Hm HP HN b. destruct (Hm b) as (b' & [[E ?]|[E ?]]); exists b'; naive_solver. Qed.

Lemma settles_ret (P N : Prop) : P -> settles (ret tt) P N.
Proof. intros HP b. exists b. by left. Qed.

Lemma settles_throw (P N : Prop) : ~ N -> settles (throw SchemaValidateException) P N.
Proof. intros HN b. exists b. by right. Qed.

Lemma settles_known {A} (o : outcome A) a k P N :
  o = Ok a -> settles (k a) P N -> settles (let! x := of_outcome o in k x) P N.
Proof. intros ->. exact id. Qed.

Lemma settles_bind m1 m2 (P1 P2 N1 N2 : Prop) :
  settles m1 P1 N1 -> settles m2 P2 N2 -> settles (m1 ;;; m2) (P1 /\ P2) (N1 /\ N2).
Proof.
  intros H1 H2 b. destruct (H1 b) as (b1 & [[E1 HP1]|[E1 HN1]]).
  - destruct (H2 b1) as (b2 & [[E2 HP2]|[E2 HN2]]); exists b2; mrun; naive_solver.
  - exists b1. mrun. naive_solver.
Qed.

(** Whether the schemas are identical does not matter. *)
Lemma settles_note (c : bool) m P N :
  settles m P N -> settles ((if c then ret tt else not_identical) ;;; m) P N.
Proof. intros Hm b. destruct c; [exact (Hm b)|exact (Hm false)]. Qed.

Lemma decides_note (c : bool) m P N :
  decides m P N -> decides ((if c then ret tt else not_identical) ;;; m) P N.
Proof. intros Hm b. destruct c; [exact (Hm b)|exact (Hm false)]. Qed.

Lemma decides_ret (P N : Prop) : P -> decides (ret true) P N.
Proof. intros HP b. exists b. by left. Qed.

Lemma decides_then m1 m2 (P1 P2 N1 N2 : Prop) :
  decides m1 P1 N1 -> decides m2 P2 N2 ->
  decides (let! ok := m1 in if negb ok then ret false else m2) (P1 /\ P2) (N1 /\ N2).
Proof.
  intros H1 H2 b. destruct (H1 b) as (b1 & [[E1 HP1]|[[E1|E1] HN1]]).
  - destruct (H2 b1) as (b2 & [[E2 HP2]|[[E2|E2] HN2]]); exists b2; mrun; cbn; naive_solver.
  - exists b1. mrun. cbn. naive_solver.
  - exists b1. mrun. naive_solver.
Qed.

Lemma decides_settled m P N : settles m P N -> decides (m ;;; ret true) P N.
Proof.
  intros Hm b. destruct (Hm b) as (b' & [[E HP]|[E HN]]); exists b'; mrun; [by left|].
  right. split; [by right|done].
Qed.

Lemma settles_checked m P N : decides m P N ->
  settles (let! ok := m in if (ok : bool) then ret tt else throw SchemaValidateException) P N.
Proof.
  intros Hm b. destruct (Hm b) as (b' & [[E HP]|[[E|E] HN]]); exists b'; mrun;
    [by left|by right|by right].
Qed.

Section Decides.
Context (src dst : SchemaDef) (src_ok : schema_ok src) (dst_ok : schema_ok dst).

(** ** Types and fields *)

Section Level.
Context (validate : RuntimeSchema -> RuntimeSchema -> M bool unit) (P N : Z -> Z -> Prop).
Abbreviation ns := (zlen (structs src)).
Abbreviation nd := (zlen (structs dst)).
Context (Hv : forall ts td, td_id ts = BT_STRUCT -> td_id td = BT_STRUCT ->
  typedef_ok ns ts -> typedef_ok nd td ->
  settles (validate (mkRuntimeSchema src ts) (mkRuntimeSchema dst td))
    (P (struct_def ts) (struct_def td)) (N (struct_def ts) (struct_def td))).

Lemma ValidateType_decides td ts : typedef_ok ns ts -> typedef_ok nd td ->
  decides (ValidateType validate src dst ts td) (type_compat P ts td) (type_compat N ts td).
Proof.
  revert ts. induction td as [i n e k b IHe IHk] using TypeDef_ind_nested. intros ts Hts Htd.
  cbn [ValidateType type_compat td_id element key bonded_type struct_def].
  destruct (i =? td_id ts) eqn:Ei; cbn [negb].
  2:{ apply Z.eqb_neq in Ei. intros c. exists false. unfold not_identical. mrun.
      rewrite ValidateType_id_promotes by done.
      destruct (promotes (td_id ts) i); [by left|right]. split; [by left|done]. }
  apply Z.eqb_eq in Ei. apply decides_note.
  destruct ((i =? BT_STRUCT) && negb b) eqn:Es.
  { apply andb_true_iff in Es as [Es _]. apply Z.eqb_eq in Es.
    eapply decides_impl; [apply decides_settled, Hv|done|done]; [congruence|done..]. }
  destruct ts as [i' n' e' k' b']. cbn [td_id element key] in *. subst i'.
  destruct Hts as [_ Hts], Htd as [_ Htd]. cbn [td_id element key] in *.
  apply decides_then.
  - destruct e as [ed|]; [|by apply decides_ret].
    destruct e' as [es|].
    + apply (IHe ed eq_refl es).
      * destruct k'; naive_solver.
      * destruct k; naive_solver.
    + exfalso. destruct k', k; try done.
      * destruct Htd as (-> & _), Hts as [Hts|[? Hts]]; done.
      * destruct Htd as [[->| [-> _]] _], Hts as [Hts|[? Hts]]; done.
  - destruct k as [kd|]; [|by apply decides_ret].
    destruct e as [ed|]; [|done]. destruct Htd as (-> & _ & Hkd & _).
    destruct k' as [ks|], e' as [es|]; try done.
    + apply (IHk kd eq_refl ks); [by apply Hts|done].
    + by destruct Hts as [[Hts|[Hts _]] _].
    + by destruct Hts as [Hts|[? Hts]].
Qed.

Lemma find_field_above id lo l : increasing lo (fd_id <$> l) -> id <= lo -> find_field id l = None.
Proof.
  revert lo. induction l as [|f l IH]; intros lo Hi Hlo; [done|].
  rewrite fmap_cons in Hi. destruct Hi as [Hf Hi]. unfold find_field in *. cbn [find].
  zbool. apply (IH (fd_id f)); [done|lia].
Qed.

(** A field of the source below the fields of the destination does not matter. *)
Lemma compat_below (X : Z -> Z -> Prop) f l ds lo : increasing lo (fd_id <$> ds) ->
  fd_id f <= lo ->
  (Forall (field_compat X (f :: l)) ds <-> Forall (field_compat X l) ds).
Proof.
  intros Hi Hlo. apply increasing_forall in Hi. rewrite Forall_fmap in Hi.
  induction Hi as [|d ds Hd _ IH]; [done|]. rewrite !Forall_cons_iff, IH.
  unfold field_compat, find_field at 1. cbn [find]. cbn in Hd. zbool. done.
Qed.

Lemma validate_missing_settles l d : find_field (fd_id d) l = None ->
  settles (validate_missing d) (field_compat P l d) (field_compat N l d).
Proof.
  intros Hl. unfold validate_missing, field_compat. rewrite Hl.
  destruct (is_required _); [by apply settles_throw|by apply settles_ret].
Qed.

Lemma validate_field_settles l s d : find_field (fd_id d) l = Some s ->
  typedef_ok ns (fd_type s) -> typedef_ok nd (fd_type d) ->
  settles (validate_field validate src dst s d) (field_compat P l d) (field_compat N l d).
Proof.
  intros Hl Hs Hd. unfold validate_field, field_compat. rewrite Hl.
  destruct (is_required (fd_metadata d) && _) eqn:E.
  - apply andb_true_iff in E as [E1 E2]. apply bool_decide_eq_true in E2.
    apply settles_throw. intros [Hno _]. by apply Hno.
  - eapply settles_impl; [by apply settles_checked, ValidateType_decides| |by intros [_ ?]].
    intros Ht. split; [|done]. intros Hq Ho. rewrite Hq, Ho in E. done.
Qed.

Lemma validate_fields_settles ds : forall ss lo lo',
  increasing lo (fd_id <$> ds) -> increasing lo' (fd_id <$> ss) ->
  Forall (fun f => typedef_ok nd (fd_type f)) ds ->
  Forall (fun f => typedef_ok ns (fd_type f)) ss ->
  settles (validate_fields validate src dst ds ss)
    (Forall (field_compat P ss) ds) (Forall (field_compat N ss) ds).
Proof.
  induction ds as [|d ds IH]; intros ss lo lo' Hds Hss Hdo Hso; [by apply settles_ret|].
  rewrite fmap_cons in Hds. destruct Hds as [Hd Hds]. apply Forall_cons_1 in Hdo as [Hdt Hdo].
  revert lo' Hss Hso. induction ss as [|s ss IHs]; intros lo' Hss Hso;
    cbn [validate_fields].
  - eapply settles_impl; [apply settles_bind;
      [by apply (validate_missing_settles [])|by eapply (IH [])]| |];
      by rewrite Forall_cons_iff.
  - pose proof Hss as Hall. pose proof Hso as Hsall.
    rewrite fmap_cons in Hss. destruct Hss as [Hs Hss]. apply Forall_cons_1 in Hso as [Hst Hso].
    destruct (fd_id s <? fd_id d) eqn:E1.
    { apply Z.ltb_lt in E1.
      assert (Hinc : increasing (fd_id s) (fd_id <$> (d :: ds))).
      { rewrite fmap_cons. split; [lia|done]. }
      eapply settles_impl; [by apply (IHs (fd_id s))| |]; by rewrite (compat_below _ s ss _ _ Hinc). }
    apply Z.ltb_ge in E1. destruct (fd_id d <? fd_id s) eqn:E2.
    + apply Z.ltb_lt in E2. assert (Hno : find_field (fd_id d) (s :: ss) = None).
      { apply (find_field_above _ (fd_id d)); [|lia]. rewrite fmap_cons. split; [lia|done]. }
      eapply settles_impl; [apply settles_bind;
        [by apply (validate_missing_settles (s :: ss))|by eapply (IH (s :: ss))]| |];
        by rewrite Forall_cons_iff.
    + apply Z.ltb_ge in E2. assert (Hid : fd_id s = fd_id d) by lia.
      assert (Hyes : find_field (fd_id d) (s :: ss) = Some s).
      { unfold find_field. cbn [find]. by rewrite Hid, Z.eqb_refl. }
      eapply settles_impl; [apply settles_bind;
        [by apply (validate_field_settles (s :: ss))|by eapply (IH ss)]| |];
        rewrite Forall_cons_iff, (compat_below _ s ss ds (fd_id d)) by (done || lia); done.
Qed.
End Level.

(** ** Structs *)

(** What is known when a comparison succeeds with [l] in progress: the pair is one of
    [l], or belongs to a relation closed under compatibility if [l] is taken for
    granted. *)
Definition upto (l : struct_list) (i j : Z) : Prop :=
  listed l j i = true \/ exists R : Z -> Z -> Prop, R i j /\
    forall a b, R a b -> struct_compat src dst (fun a b => R a b \/ listed l b a = true) a b.

Lemma listed_cons l i j a b : listed ((j, i) :: l) b a = true ->
  (a = i /\ b = j) \/ listed l b a = true.
Proof.
  unfold listed. cbn [existsb fst snd]. intros [H|H]%orb_true_iff; [left|by right].
  apply andb_true_iff in H as [H1 H2]. apply Z.eqb_eq in H1, H2. done.
Qed.

(** A pair that is compatible while it is taken for granted is compatible. *)
Lemma upto_accumulate l i j : struct_compat src dst (upto ((j, i) :: l)) i j -> upto l i j.
Proof.
  intros Hc. right.
  set (R := fun a b => (a = i /\ b = j) \/ exists R0 : Z -> Z -> Prop, R0 a b /\
    forall x y, R0 x y ->
      struct_compat src dst (fun x y => R0 x y \/ listed ((j, i) :: l) y x = true) x y).
  exists R. split; [by left|]. intros a b [[-> ->]|(R0 & H0 & Hclosed)].
  - eapply struct_compat_mono; [|exact Hc]. intros a b [Hl|Hex].
    + destruct (listed_cons _ _ _ _ _ Hl) as [?|?]; [left; by left|by right].
    + left. by right.
  - eapply struct_compat_mono; [|apply (Hclosed _ _ H0)]. intros x y [Hx|Hl].
    + left. right. by exists R0.
    + destruct (listed_cons _ _ _ _ _ Hl) as [?|?]; [left; by left|by right].
Qed.

Lemma compatible_unfold i j : compatible src dst i j ->
  struct_compat src dst (compatible src dst) i j.
Proof.
  intros (X & HX & Hclosed). eapply struct_compat_mono; [|by apply Hclosed].
  intros a b Hab. by exists X.
Qed.

Lemma upto_nil i j : upto [] i j -> compatible src dst i j.
Proof.
  intros [?|(R & HR & Hc)]; [done|]. exists R. split; [done|]. intros a b Hab.
  eapply struct_compat_mono; [|by apply Hc]. intros x y [?|?]; done.
Qed.

(** Pairs in progress are different pairs of structs. *)
Definition in_progress (l : struct_list) : Prop :=
  NoDup l /\ Forall (fun p => 0 <= fst p < zlen (structs dst) /\
                             0 <= snd p < zlen (structs src)) l.

Lemma in_progress_length l : in_progress l -> (length l <= pair_count src dst)%nat.
Proof.
  intros [Hd Hr].
  assert (Hsub : l ⊆ list_prod (Z.of_nat <$> seq 0 (length (structs dst)))
    (Z.of_nat <$> seq 0 (length (structs src)))).
  { intros [b a] Hin. rewrite Forall_forall in Hr. apply list_elem_of_In in Hin.
    destruct (Hr _ Hin) as [Hb Ha]. cbn in Ha, Hb. apply list_elem_of_In, in_prod;
      apply list_elem_of_In, list_elem_of_fmap.
    - exists (Z.to_nat b). split; [lia|]. apply elem_of_seq. lia.
    - exists (Z.to_nat a). split; [lia|]. apply elem_of_seq. lia. }
  pose proof (submseteq_length _ _ (NoDup_submseteq _ _ Hd Hsub)) as Hl.
  rewrite length_prod, !length_fmap, !length_seq in Hl. unfold pair_count. lia.
Qed.

Lemma in_progress_cons l i j : in_progress l -> listed l j i = false ->
  0 <= j < zlen (structs dst) -> 0 <= i < zlen (structs src) -> in_progress ((j, i) :: l).
Proof.
  intros [Hd Hr] Hno Hj Hi. split; [|by constructor]. constructor; [|done]. intros Hin.
  assert (Hyes : listed l j i = true); [|by rewrite Hyes in Hno].
  apply existsb_exists. exists (j, i). split; [by apply list_elem_of_In|]. cbn. by rewrite !Z.eqb_refl.
Qed.

(** What a struct type of a well-formed schema refers to. *)
Lemma struct_at s t : schema_ok s -> td_id t = BT_STRUCT -> typedef_ok (zlen (structs s)) t ->
  exists d n, structs s !! Z.to_nat (struct_def t) = Some d /\
    struct_ok (zlen (structs s)) d /\ levels s (Z.to_nat (struct_def t)) n /\
    0 <= struct_def t < zlen (structs s) /\ depth_of (mkRuntimeSchema s t) = Ok (Z.of_nat n).
Proof.
  intros (Hlen & Hs & Hl & _) Ht Hok. destruct t as [i z e k b]. destruct Hok as [Hr _].
  cbn [td_id struct_def] in *. specialize (Hr Ht).
  assert (Hlt : (Z.to_nat z < length (structs s))%nat) by lia.
  destruct (lookup_lt_is_Some_2 _ _ Hlt) as [d Hd]. destruct (Hl _ Hlt) as [n Hn].
  exists d, n. split_and!; [done| |done|lia|lia|].
  - rewrite Forall_forall in Hs. apply Hs, list_elem_of_In. by eapply list_elem_of_lookup_2.
  - apply schema_depth_levels; [done|done|]. cbn. apply levels_bound in Hn. lia.
Qed.

Lemma GetStruct_run s t d : structs s !! Z.to_nat (struct_def t) = Some d ->
  GetStruct (mkRuntimeSchema s t) = Ok d.
Proof. intros Hd. unfold GetStruct, vector_at. cbn. by rewrite Hd. Qed.

Lemma GetBaseSchema_run s t d tb : structs s !! Z.to_nat (struct_def t) = Some d ->
  base_def d = Some tb -> GetBaseSchema (mkRuntimeSchema s t) = Ok (mkRuntimeSchema s tb).
Proof. intros Hd Hb. unfold GetBaseSchema. rewrite (GetStruct_run s t d Hd). cbn. by rewrite Hb. Qed.

Lemma HasBase_run s t d : structs s !! Z.to_nat (struct_def t) = Some d ->
  HasBase (mkRuntimeSchema s t) = Ok (bool_decide (is_Some (base_def d))).
Proof. intros Hd. unfold HasBase. by rewrite (GetStruct_run s t d Hd). Qed.

(** Hierarchies of more than one level have a base. *)
Lemma levels_base s i d n : structs s !! i = Some d -> levels s i n -> (1 < n)%nat ->
  exists t, base_def d = Some t.
Proof.
  intros Hd Hl Hn. inversion Hl as [j d' Hj Hb|j d' t m Hj Hb]; subst; [lia|].
  assert (d' = d) as -> by congruence. by exists t.
Qed.

Lemma levels_one s i d : structs s !! i = Some d -> levels s i 1 -> base_def d = None.
Proof.
  intros Hd Hl. inversion Hl as [j d' Hj Hb|j d' t m Hj Hb Ht Hm]; subst; [congruence|].
  by apply levels_bound in Hm as [? _]; lia.
Qed.

Lemma compat_at X s d n m i j : structs src !! Z.to_nat i = Some s ->
  structs dst !! Z.to_nat j = Some d -> levels src (Z.to_nat i) n -> levels dst (Z.to_nat j) m ->
  struct_compat src dst X i j ->
  (m <= n)%nat /\
  if decide (m < n)%nat then exists t, base_def s = Some t /\ X (struct_def t) j
  else
    match base_def d with
    | None => True
    | Some td => exists ts, base_def s = Some ts /\ X (struct_def ts) (struct_def td)
    end /\
    Forall (field_compat X (fields s)) (fields d).
Proof.
  intros Hs Hd Hn Hm (s' & d' & n' & m' & Hs' & Hd' & Hn' & Hm' & Hle & Hc).
  assert (s' = s) as -> by congruence. assert (d' = d) as -> by congruence.
  rewrite (levels_det _ _ _ Hn _ Hn'), (levels_det _ _ _ Hm _ Hm'). by split.
Qed.

(** [ValidateStruct] with [fuel] turns, for any types of structs. *)
Definition validates (fuel : nat) : Prop := forall l ts td, in_progress l ->
  td_id ts = BT_STRUCT -> td_id td = BT_STRUCT ->
  typedef_ok (zlen (structs src)) ts -> typedef_ok (zlen (structs dst)) td ->
  (pair_count src dst < fuel + length l)%nat ->
  settles (ValidateStruct fuel (mkRuntimeSchema src ts) (mkRuntimeSchema dst td) l)
    (upto l (struct_def ts) (struct_def td))
    (compatible src dst (struct_def ts) (struct_def td)).

Lemma struct_ok_base n d t : struct_ok n d -> base_def d = Some t ->
  td_id t = BT_STRUCT /\ typedef_ok n t.
Proof. intros (Hb & _ & _) Ht. rewrite Ht in Hb. by destruct Hb as (? & ? & ?). Qed.

(** Hierarchies with the same number of levels: the bases, then the fields. *)
Lemma validate_level fuel l ts td s d n : validates fuel -> in_progress l ->
  (pair_count src dst < fuel + length l)%nat ->
  structs src !! Z.to_nat (struct_def ts) = Some s ->
  structs dst !! Z.to_nat (struct_def td) = Some d ->
  struct_ok (zlen (structs src)) s -> struct_ok (zlen (structs dst)) d ->
  levels src (Z.to_nat (struct_def ts)) n -> levels dst (Z.to_nat (struct_def td)) n ->
  settles
    (let! has_base := of_outcome (HasBase (mkRuntimeSchema dst td)) in
     (if (has_base : bool) then
        let! b_src := of_outcome (GetBaseSchema (mkRuntimeSchema src ts)) in
        let! b_dst := of_outcome (GetBaseSchema (mkRuntimeSchema dst td)) in
        ValidateStruct fuel b_src b_dst l
      else ret tt) ;;;
     ValidateFields (fun s d => ValidateStruct fuel s d l)
       (mkRuntimeSchema src ts) (mkRuntimeSchema dst td))
    (struct_compat src dst (upto l) (struct_def ts) (struct_def td))
    (struct_compat src dst (compatible src dst) (struct_def ts) (struct_def td)).
Proof.
  intros IH Hl Hfuel Hs Hd Hso Hdo Hn Hm.
  assert (Hbase : forall X, struct_compat src dst X (struct_def ts) (struct_def td) <->
    match base_def d with
    | None => True
    | Some td => exists ts, base_def s = Some ts /\ X (struct_def ts) (struct_def td)
    end /\ Forall (field_compat X (fields s)) (fields d)).
  { intros X. split.
    - intros Hc. destruct (compat_at _ _ _ _ _ _ _ Hs Hd Hn Hm Hc) as [_ Hc'].
      by rewrite decide_False in Hc' by lia.
    - intros Hc. exists s, d, n, n. split_and!; [done..|]. by rewrite decide_False by lia. }
  eapply settles_impl; [|apply Hbase|apply Hbase].
  eapply settles_known; [by apply HasBase_run|]. apply settles_bind.
  - destruct (base_def d) as [tb|] eqn:Hb.
    + rewrite bool_decide_true by by eexists.
      assert (Hn1 : (1 < n)%nat).
      { destruct n as [|[|n]]; [by inversion Hm| |lia].
        by rewrite (levels_one dst _ d Hd Hm) in Hb. }
      destruct (levels_base src _ s n Hs Hn Hn1) as [sb Hsb].
      eapply settles_known; [by eapply GetBaseSchema_run|].
      eapply settles_known; [by eapply GetBaseSchema_run|].
      destruct (struct_ok_base _ _ _ Hso Hsb) as [Hst1 Hst2].
      destruct (struct_ok_base _ _ _ Hdo Hb) as [Hdt1 Hdt2].
      eapply settles_impl; [by apply (IH l sb tb)| |].
      * intros Hu. by exists sb.
      * intros (sb' & Hsb' & Hc). congruence.
    + rewrite bool_decide_false by by intros [? ?]. by apply settles_ret.
  - unfold ValidateFields. eapply settles_known; [by apply GetStruct_run|].
    eapply settles_known; [by apply GetStruct_run|]. apply settles_note. destruct Hso as (_ & Hsi & Hsf), Hdo as (_ & Hdi & Hdf).
    eapply validate_fields_settles; [|done..].
    intros ts' td' H1 H2 H3 H4. by apply IH.
Qed.

Lemma ValidateStruct_settles fuel : validates fuel.
Proof.
  induction fuel as [|fuel IH]; intros l ts td Hl Hts Htd Hto Hdo Hfuel.
  { pose proof (in_progress_length l Hl). lia. }
  destruct (struct_at src ts src_ok Hts Hto) as (s & n & Hs & Hsok & Hn & Hi & Hdn).
  destruct (struct_at dst td dst_ok Htd Hdo) as (d & m & Hd & Hdok & Hm & Hj & Hdm).
  cbn [ValidateStruct]. eapply settles_known; [by apply GetStruct_run|].
  eapply settles_known; [by apply GetStruct_run|]. cbn [rs_type rs_schema].
  destruct (listed l (struct_def td) (struct_def ts)) eqn:El; [by apply settles_ret; left|].
  pose proof (in_progress_cons l _ _ Hl El Hj Hi) as Hnext.
  set (next := (struct_def td, struct_def ts) :: l) in *.
  assert (Hfuel' : (pair_count src dst < fuel + length next)%nat) by (cbn; lia).
  eapply settles_known; [exact Hdm|]. eapply settles_known; [exact Hdn|].
  destruct (Z.of_nat n <? Z.of_nat m) eqn:E1.
  { apply Z.ltb_lt in E1. apply settles_throw. intros Hc%compatible_unfold.
    destruct (compat_at _ _ _ _ _ _ _ Hs Hd Hn Hm Hc). lia. }
  apply Z.ltb_ge in E1. destruct (Z.of_nat m <? Z.of_nat n) eqn:E2.
  - apply Z.ltb_lt in E2. pose proof (levels_bound dst _ _ Hm).
    destruct (levels_base src _ s n Hs Hn ltac:(lia)) as [tb Hb].
    destruct (struct_ok_base _ _ _ Hsok Hb) as [Hb1 Hb2].
    eapply settles_known; [by eapply GetBaseSchema_run|].
    eapply settles_impl; [apply (settles_note false), (IH next tb td Hnext Hb1 Htd Hb2 Hdo Hfuel')| |].
    + intros Hu. apply upto_accumulate. exists s, d, n, m. split_and!; [done..|lia|].
      rewrite decide_True by lia. by exists tb.
    + intros Hc%compatible_unfold. destruct (compat_at _ _ _ _ _ _ _ Hs Hd Hn Hm Hc) as [_ Hc'].
      rewrite decide_True in Hc' by lia. destruct Hc' as (tb' & Hb' & Hc'). congruence.
  - apply Z.ltb_ge in E2. assert (m = n) as -> by lia.
    eapply settles_impl; [by apply (validate_level fuel next ts td s d n)| |].
    + apply upto_accumulate.
    + apply compatible_unfold.
Qed.
End Decides.

(** The outcome of [Validate] and compatibility agree. *)
Lemma validate_decides_pair (src dst : SchemaDef) : schema_ok src -> schema_ok dst ->
  (exists identical, Validate (schema_of src) (schema_of dst) = Ok identical /\
     compatible src dst (struct_def (root src)) (struct_def (root dst))) \/
  (Validate (schema_of src) (schema_of dst) = Err (Thrown SchemaValidateException) /\
     ~ compatible src dst (struct_def (root src)) (struct_def (root dst))).
Proof.
  intros Hsrc Hdst. pose proof Hsrc as (_ & _ & _ & Hs1 & Hs2). pose proof Hdst as (_ & _ & _ & Hd1 & Hd2).
  destruct (ValidateStruct_settles src dst Hsrc Hdst (S (pair_count src dst)) []
    (root src) (root dst)) with (b := true) as (b' & [[E Hc]|[E Hc]]); try done; try (cbn; lia).
  - by repeat constructor.
  - left. exists b'. split; [unfold Validate, schema_of; cbn [rs_schema]; by rewrite E|].
    by apply upto_nil.
  - right. split; [unfold Validate, schema_of; cbn [rs_schema]; by rewrite E|done].
Qed.

(** C14: validation of well-formed schemas ends, and it decides compatibility: it
    returns exactly when the payload schema and the other are in a relation closed under
    the rules (types equal or promoted, every required field present and not optional,
    bases compared level by level, derived levels of the source ignored), and throws
    [SchemaValidateException] exactly when they are not.  Recursive schemas are
    no exception. *)
Theorem validate_decides (src dst : SchemaDef) (Hsrc : schema_ok src) (Hdst : schema_ok dst) :
  let i := struct_def (root src) in
  let j := struct_def (root dst) in
  (exists identical, Validate (schema_of src) (schema_of dst) = Ok identical /\
     compatible src dst i j) \/
  (Validate (schema_of src) (schema_of dst) = Err (Thrown SchemaValidateException) /\
     ~ compatible src dst i j).
Proof. by apply validate_decides_pair. Qed.

(** ** A schema against itself *)

(** A command that returns [a] and leaves [identical] alone, if its budget lasts. *)
Definition keeps {A} (m : M bool A) (a : A) : Prop := forall b,
  m b = (Ok a, b) \/ exists b', m b = (Err OutOfFuel, b').

Lemma keeps_ret {A} (a : A) : keeps (ret a) a.
Proof. intros b. by left. Qed.

Lemma keeps_bind {A B} (m : M bool A) (k : A -> M bool B) a c :
  keeps m a -> keeps (k a) c -> keeps (bind m k) c.
Proof.
  intros Hm Hk b. destruct (Hm b) as [E|[b' E]].
  - rewrite (bind_ok _ _ _ _ _ E). apply Hk.
  - right. exists b'. by rewrite (bind_err _ _ _ _ _ E).
Qed.

Lemma keeps_known {A B} (o : outcome A) a (k : A -> M bool B) c :
  o = Ok a -> keeps (k a) c -> keeps (let! x := of_outcome o in k x) c.
Proof. intros ->. exact id. Qed.

Section Reflexive.
Context (s : SchemaDef) (ok : schema_ok s).

Section LevelReflexive.
Context (validate : RuntimeSchema -> RuntimeSchema -> M bool unit).
Context (Hv : forall t, td_id t = BT_STRUCT -> typedef_ok (zlen (structs s)) t ->
  keeps (validate (mkRuntimeSchema s t) (mkRuntimeSchema s t)) tt).

Lemma ValidateType_self t : typedef_ok (zlen (structs s)) t ->
  keeps (ValidateType validate s s t t) true.
Proof.
  induction t as [i n e k b IHe IHk] using TypeDef_ind_nested. intros Ht.
  cbn [ValidateType td_id element key bonded_type]. rewrite Z.eqb_refl, eq_bool_refl. cbn [negb].
  eapply keeps_bind; [apply keeps_ret|]. destruct ((i =? BT_STRUCT) && negb b) eqn:Es.
  - apply andb_true_iff in Es as [Es%Z.eqb_eq _].
    eapply keeps_bind; [by apply Hv|apply keeps_ret].
  - destruct Ht as [_ Ht]. cbn [td_id element key] in Ht. eapply keeps_bind.
    + destruct e as [e|]; [|apply keeps_ret]. eapply keeps_known; [done|].
      apply IHe; [done|]. destruct k; [by destruct Ht as (_ & ? & _)|by destruct Ht].
    + cbn [negb]. destruct k as [k|]; [|apply keeps_ret]. eapply keeps_known; [done|].
      apply IHk; [done|]. destruct e; [|done]. by destruct Ht as (_ & _ & ? & _).
Qed.

Lemma validate_field_self f : typedef_ok (zlen (structs s)) (fd_type f) ->
  keeps (validate_field validate s s f f) tt.
Proof.
  intros Ht. unfold validate_field, is_required.
  replace (_ && _) with false by (by destruct (modifier (fd_metadata f))).
  eapply keeps_bind; [by apply ValidateType_self|apply keeps_ret].
Qed.

Lemma validate_fields_self l : Forall (fun f => typedef_ok (zlen (structs s)) (fd_type f)) l ->
  keeps (validate_fields validate s s l l) tt.
Proof.
  induction 1 as [|f l Hf _ IH]; [apply keeps_ret|]. cbn [validate_fields].
  rewrite Z.ltb_irrefl. eapply keeps_bind; [by apply validate_field_self|exact IH].
Qed.
End LevelReflexive.

Lemma ValidateStruct_self fuel : forall l t, td_id t = BT_STRUCT ->
  typedef_ok (zlen (structs s)) t ->
  keeps (ValidateStruct fuel (mkRuntimeSchema s t) (mkRuntimeSchema s t) l) tt.
Proof.
  induction fuel as [|fuel IH]; intros l t Ht Hok; [intros b; right; by exists b|].
  destruct (struct_at s t ok Ht Hok) as (d & n & Hd & Hdok & Hn & Hi & Hdep).
  cbn [ValidateStruct]. eapply keeps_known; [by apply GetStruct_run|].
  eapply keeps_known; [by apply GetStruct_run|]. cbn [rs_type].
  destruct (listed l _ _); [apply keeps_ret|].
  eapply keeps_known; [exact Hdep|]. eapply keeps_known; [exact Hdep|]. rewrite Z.ltb_irrefl.
  eapply keeps_known; [by apply HasBase_run|]. eapply keeps_bind.
  - destruct (base_def d) as [tb|] eqn:Hb.
    + rewrite bool_decide_true by by eexists. destruct (struct_ok_base _ _ _ Hdok Hb) as [Hb1 Hb2].
      eapply keeps_known; [by eapply GetBaseSchema_run|].
      eapply keeps_known; [by eapply GetBaseSchema_run|]. by apply IH.
    + rewrite bool_decide_false by by intros [? ?]. apply keeps_ret.
  - unfold ValidateFields. eapply keeps_known; [by apply GetStruct_run|].
    eapply keeps_known; [by apply GetStruct_run|]. rewrite Z.eqb_refl.
    eapply keeps_bind; [apply keeps_ret|]. destruct Hdok as (_ & _ & Hf).
    apply validate_fields_self; [|done]. intros t' Ht' Hok'. by apply IH.
Qed.
End Reflexive.

(** A well-formed schema is compatible with itself and identical to itself. *)
Lemma validate_reflexive (s : SchemaDef) (Hs : schema_ok s) :
  Validate (schema_of s) (schema_of s) = Ok true.
Proof.
  pose proof Hs as (_ & _ & _ & Hr1 & Hr2).
  assert (Hd : Validate (schema_of s) (schema_of s) <> Err OutOfFuel).
  { destruct (validate_decides_pair s s Hs Hs) as [(b & E & _)|[E _]]; by rewrite E. }
  unfold Validate, schema_of in *. cbn [rs_schema] in *.
  destruct (ValidateStruct_self s Hs (S (pair_count s s)) [] (root s) Hr1 Hr2 true) as [E|[b E]];
    by rewrite E in *.
Qed.

(** ** What [identical] does not say *)

Definition one_struct (l : list FieldDef) : SchemaDef :=
  mkSchemaDef [mkStructDef "Struct" Metadata_new None l] TypeDef_new.

Lemma validate_fields_disjoint validate src dst ds ss b :
  Forall (fun f => is_required (fd_metadata f) = false) ds ->
  (forall d s, d ∈ ds -> s ∈ ss -> fd_id d <> fd_id s) ->
  validate_fields validate src dst ds ss b = (Ok tt, b).
Proof.
  intros Hr. revert ss. induction Hr as [|d ds Hd _ IH]; intros ss Hno; [done|].
  induction ss as [|s ss IHs]; cbn [validate_fields].
  - unfold validate_missing. rewrite Hd. mrun. apply IH. intros. by apply Hno; [right|].
  - assert (fd_id d <> fd_id s) by (apply Hno; left).
    destruct (fd_id s <? fd_id d) eqn:E1.
    + apply IHs. intros. apply Hno; [done|by right].
    + apply Z.ltb_ge in E1. zbool. unfold validate_missing. rewrite Hd. mrun.
      apply IH. intros. by apply Hno; [right|].
Qed.

(** Schemas with the same number of fields and no field in common are reported as
    identical when no field is required: only the numbers of fields are compared, never
    the ids.  A result of [true] does not mean that the wire formats are equivalent. *)
Lemma disjoint_reported_identical (src dst : list FieldDef)
    (Hlen : length src = length dst)
    (Hopt : Forall (fun f => is_required (fd_metadata f) = false) dst)
    (Hno : forall d s, d ∈ dst -> s ∈ src -> fd_id d <> fd_id s) :
  Validate (schema_of (one_struct src)) (schema_of (one_struct dst)) = Ok true.
Proof.
  assert (Hget : forall l, GetStruct (schema_of (one_struct l)) =
    Ok (mkStructDef "Struct" Metadata_new None l)) by done.
  unfold Validate. change (pair_count _ _) with 1%nat. cbn [ValidateStruct].
  rewrite !(bind_of_outcome_ok _ _ _ _ (Hget _)).
  change (listed [] _ _) with false. cbv iota zeta.
  rewrite !(bind_of_outcome_ok (depth_of _) 1) by done. rewrite Z.ltb_irrefl.
  rewrite (bind_of_outcome_ok (HasBase _) false) by done. cbv iota. mrun.
  unfold ValidateFields. rewrite !(bind_of_outcome_ok _ _ _ _ (Hget _)). cbn [fields].
  rewrite Hlen, Z.eqb_refl. mrun. by rewrite validate_fields_disjoint.
Qed.

(** ** Examples *)

(** A later version of [tree_schema]: a wider integer in the base, a field less, a new
    optional field. *)
Definition later_schema : SchemaDef := mkSchemaDef
  [mkStructDef "Tree" Metadata_new (Some (mkTypeDef BT_STRUCT 1 None None false))
     [mkFieldDef Metadata_new 0
        (mkTypeDef BT_LIST 0 (Some (mkTypeDef BT_STRUCT 0 None None false)) None false);
      mkFieldDef Metadata_new 7 (mkTypeDef BT_DOUBLE 0 None None false)];
   mkStructDef "Base" Metadata_new None
     [mkFieldDef Metadata_new 0 (mkTypeDef BT_INT64 0 None None false)]]
  TypeDef_new.

Lemma tree_schema_ok : schema_ok tree_schema.
Proof.
  split_and!; [by vm_compute|solve_typedef| |done|solve_typedef].
  intros [|[|[|i]]] Hi; [exists 2%nat|exists 1%nat|exists 1%nat|cbn in Hi; lia].
  - eapply levels_derived; [done..|]. by eapply levels_root.
  - by eapply levels_root.
  - by eapply levels_root.
Qed.

Lemma later_schema_ok : schema_ok later_schema.
Proof.
  split_and!; [by vm_compute|solve_typedef| |done|solve_typedef].
  intros [|[|i]] Hi; [exists 2%nat|exists 1%nat|cbn in Hi; lia].
  - eapply levels_derived; [done..|]. by eapply levels_root.
  - by eapply levels_root.
Qed.

Lemma validate_decides_witness :
  Validate (schema_of tree_schema) (schema_of later_schema) = Ok false /\
  compatible tree_schema later_schema 0 0 /\
  Validate (schema_of later_schema) (schema_of tree_schema) = Err (Thrown SchemaValidateException) /\
  ~ compatible later_schema tree_schema 0 0.
Proof.
  assert (E1 : Validate (schema_of tree_schema) (schema_of later_schema) = Ok false)
    by by vm_compute.
  assert (E2 : Validate (schema_of later_schema) (schema_of tree_schema) =
    Err (Thrown SchemaValidateException)) by by vm_compute.
  destruct (validate_decides tree_schema later_schema tree_schema_ok later_schema_ok)
    as [(b1 & _ & H1)|[H1 _]]; [|by rewrite E1 in H1].
  destruct (validate_decides later_schema tree_schema later_schema_ok tree_schema_ok)
    as [(b2 & H2 & _)|[_ H2]]; [by rewrite E2 in H2|].
  exact (conj E1 (conj H1 (conj E2 H2))).
Defined.

Lemma disjoint_reported_identical_witness :
  Validate
    (schema_of (one_struct [mkFieldDef Metadata_new 1 (mkTypeDef BT_INT32 0 None None false)]))
    (schema_of (one_struct [mkFieldDef Metadata_new 2 (mkTypeDef BT_STRING 0 None None false)]))
  = Ok true.
Proof.
  apply (disjoint_reported_identical
    [mkFieldDef Metadata_new 1 (mkTypeDef BT_INT32 0 None None false)]
    [mkFieldDef Metadata_new 2 (mkTypeDef BT_STRING 0 None None false)]); [done| |].
  - by repeat constructor.
  - intros d s Hd Hs. apply list_elem_of_singleton in Hd, Hs. by subst.
Defined.
