(* ===== verification/Parser.v ===== *)
(** Deserialization of an object (cpp/inc/bond/core/parser.h, value.h, transforms.h
    [To], detail/inheritance.h, detail/typeid_value.h).

    [DynamicParser] follows the field tags of the payload, [StaticParser] the schema;
    both hand the fields to the transform [To<T>], which reads them into the members
    of an object of type [T] and counts the required ones. *)

From S2P Require Import Prelude Streams DataType Metadata Protocol Schema.

(** * Protocol readers *)

(** The members of a protocol reader.  The type arguments of the container headers
    are the caller's variables, which an untagged protocol leaves as they are. *)
Record ProtocolReader (R : Type) : Type := mkPR {
  uses_static_parser : bool;
  ReadStructBegin : bool -> M R unit;
  ReadStructEnd : bool -> M R unit;
  ReadFieldBegin : M R (BondDataType * Z);
  ReadFieldEnd : M R unit;
  ReadContainerBegin : BondDataType -> M R (Z * BondDataType);
  ReadMapBegin : BondDataType * BondDataType -> M R (Z * (BondDataType * BondDataType));
  ReadContainerEnd : M R unit;
  Read : btype -> M R scalar;
  Skip : BondDataType -> M R unit
}.
Arguments mkPR {R}.
Arguments uses_static_parser {R}.
Arguments ReadStructBegin {R}.
Arguments ReadStructEnd {R}.
Arguments ReadFieldBegin {R}.
Arguments ReadFieldEnd {R}.
Arguments ReadContainerBegin {R}.
Arguments ReadMapBegin {R}.
Arguments ReadContainerEnd {R}.
Arguments Read {R}.
Arguments Skip {R}.

Section Parser.
Context {R : Type} `{Readable R} (P : ProtocolReader R).

(** * Values *)

(** [value<U, Reader>::Deserialize(X& var)] for a matching basic type. *)
Definition DeserializeBasic (u x : btype) : M R value :=
  let! data := Read P u in ret (VBasic (set_as x data)).

(** The destructor of a [value] that was not read skips it and lets no exception
    out. *)
Definition Skip_nothrow (type : BondDataType) : M R unit :=
  fun s => match Skip P type s with
           | (Err (Thrown _), s') => (Ok tt, s')
           | r => r
           end.

(** [SkipElements(type, input, size)], and for the two types of a map. *)
Definition SkipElements (type : BondDataType) (size : Z) : M R unit :=
  repeatM (Z.to_nat size) (Skip P type).
Definition SkipMapElements (type : BondDataType * BondDataType) (size : Z) : M R unit :=
  repeatM (Z.to_nat size) (Skip P (fst type) ;;; Skip P (snd type)).

(** * Containers *)

(** [DeserializeElements(list, element, size)]: the list is resized, then each element
    is read in place. *)
Fixpoint deserialize_each (read : value -> M R value) (items : list value) : M R (list value) :=
  match items with
  | [] => ret []
  | x :: items' =>
      let! y := read x in
      let! ys := deserialize_each read items' in ret (y :: ys)
  end.
Definition DeserializeList (read : value -> M R value) (fresh : value) (items : list value)
    (size : Z) : M R (list value) :=
  deserialize_each read (resize_list items (Z.to_nat size) fresh).

(** [DeserializeElements(set, element, size)]: one element variable, inserted after
    each reading. *)
Fixpoint insert_each (read : M R scalar) (items : list value) (size : nat) : M R (list value) :=
  match size with
  | O => ret items
  | S size' => let! e := read in insert_each read (set_insert items e) size'
  end.
Definition DeserializeSet (read : M R scalar) (size : Z) : M R (list value) :=
  insert_each read [] (Z.to_nat size).

(** [DeserializeMapElements(map, key, element, size)]. *)
Fixpoint map_each (key : M R scalar) (read : value -> M R value) (fresh : value)
    (items : list (value * value)) (size : nat) : M R (list (value * value)) :=
  match size with
  | O => ret items
  | S size' =>
      let! k := key in
      let! x := read (mapped_at items k fresh) in
      map_each key read fresh (mapped_set items k x) size'
  end.
Definition DeserializeMapElements (key : M R scalar) (read : value -> M R value)
    (fresh : value) (size : Z) : M R (list (value * value)) :=
  map_each key read fresh [] (Z.to_nat size).

(** A basic value of payload type [u] read for a variable of type [x]. *)
Definition read_basic (u x : btype) : M R scalar :=
  let! data := Read P u in ret (set_as x data).

(** How an element of type [t] is read when the payload's type tag is [type]; [None]
    when the types do not match.  For basic types this is
    [MatchingTypeContainer]'s switch, for the others the comparison with
    [GetTypeId(element)]. *)
Definition element_reader (t : ftype) (type : BondDataType) (exact : value -> M R value) :
    option (value -> M R value) :=
  match t with
  | FBasic x =>
      match basic_type_of_id type with
      | Some u => if is_matching_basic u x then Some (fun _ => DeserializeBasic u x) else None
      | None => None
      end
  | _ => if type =? field_type_id t then Some exact else None
  end.
Definition key_reader (x : btype) (type : BondDataType) : option (M R scalar) :=
  match basic_type_of_id type with
  | Some u => if is_matching_basic u x then Some (read_basic u x) else None
  | None => None
  end.

(** [DeserializeContainer(var, element, input)] for lists and sets. *)
Definition DeserializeContainer (is_set : bool) (e : ftype) (exact : value -> M R value)
    (items : list value) : M R (list value) :=
  let! h := ReadContainerBegin P (field_type_id e) in
  let! items' :=
    (if is_set then
       match e with
       | FBasic x =>
           match key_reader x (snd h) with
           | Some read => DeserializeSet read (fst h)
           | None => SkipElements (snd h) (fst h) ;;; ret items
           end
       | _ => SkipElements (snd h) (fst h) ;;; ret items
       end
     else
       match element_reader e (snd h) exact with
       | Some read => DeserializeList read (default_object e) items (fst h)
       | None => SkipElements (snd h) (fst h) ;;; ret items
       end) in
  ReadContainerEnd P ;;; ret items'.

(** [DeserializeMap(var, keyType, element, input)]. *)
Definition DeserializeMap (kt : btype) (vt : ftype) (exact : value -> M R value)
    (items : list (value * value)) : M R (list (value * value)) :=
  let! h := ReadMapBegin P (get_type_id kt, field_type_id vt) in
  let! items' :=
    match element_reader vt (snd (snd h)) exact with
    | Some read =>
        match key_reader kt (fst (snd h)) with
        | Some key => DeserializeMapElements key read (default_object vt) (fst h)
        | None => SkipMapElements (snd h) (fst h) ;;; ret items
        end
    | None => SkipMapElements (snd h) (fst h) ;;; ret items
    end in
  ReadContainerEnd P ;;; ret items'.

(** * One level of a struct: the transform [To<T>] *)

(** A field of [schema<T>::type::fields] with the way its member is read. *)
Record bound_field : Type := mkBF {
  bf_id : Z;
  bf_metadata : Metadata;
  bf_type : ftype;
  bf_read : value -> M R value
}.

(** [RequiredFieldValiadator::_required] and the members of the object. *)
Record to_level : Type := mkTo { to_required : Z; to_vars : list value }.

(** [next_required_field<fields, minId>::value]. *)
Fixpoint next_required_field (fields : list bound_field) (minId : Z) : Z :=
  match fields with
  | [] => invalid_field_id
  | f :: fields' =>
      if (minId <=? bf_id f) && is_required (bf_metadata f) then bf_id f
      else next_required_field fields' minId
  end.

(** [Validator::Validate<FieldT>]. *)
Definition Validate (fields : list bound_field) (f : bound_field) (l : to_level) : M R to_level :=
  if is_required (bf_metadata f) then
    if to_required l =? bf_id f
    then ret (mkTo (next_required_field fields (bf_id f + 1)) (to_vars l))
    else throw CoreException
  else ret l.

(** [To::Field(FieldT, value)]: the [i]-th member is assigned by [read]. *)
Definition To_Field (fields : list bound_field) (i : nat) (f : bound_field)
    (read : value -> M R value) (l : to_level) : M R to_level :=
  let! l := Validate fields f l in
  let! var := of_option (to_vars l !! i) in
  let! var' := read var in
  ret (mkTo (to_required l) (<[i := var']> (to_vars l))).

(** [Validator::Validate<Schema>], called by [To::End]. *)
Definition To_End (fields : list bound_field) (l : to_level) : M R unit :=
  if negb (next_required_field fields 0 =? invalid_field_id)
     && negb (to_required l =? invalid_field_id)
  then throw CoreException else ret tt.

(** * [DynamicParser] *)

Definition is_container_or_struct (type : BondDataType) : bool :=
  (type =? BT_LIST) || (type =? BT_SET) || (type =? BT_MAP) || (type =? BT_STRUCT).

(** [UnknownFieldOrTypeMismatch]: a basic field of another type goes through
    [BasicTypeField] to the overload of [To::Field] that looks for a member the type
    matches; everything else is an unknown field. *)
Definition UnknownFieldOrTypeMismatch (fields : list bound_field) (i : nat) (f : bound_field)
    (type : BondDataType) (id : Z) (l : to_level) : M R to_level :=
  match bf_type f with
  | FBasic x =>
      if (id =? bf_id f) && negb (is_container_or_struct type) then
        match basic_type_of_id type with
        | Some u =>
            if is_matching_basic u x
            then To_Field fields i f (fun _ => DeserializeBasic u x) l
            else Skip_nothrow type ;;; ret l
        | None => ret l
        end
      else Skip P type ;;; ret l
  | _ => Skip P type ;;; ret l
  end.

Definition ReadSubsequentField : M R (BondDataType * Z) := ReadFieldEnd P ;;; ReadFieldBegin P.

(** [ReadFields(Fields, id, type, transform)] with the compile-time schema: [i] is the
    index of the head among all the fields.  [To::OmittedField] has no effect. *)
Fixpoint ReadFields (fields : list bound_field) (fuel : nat) (i : nat) (rest : list bound_field)
    (tag : BondDataType * Z) (l : to_level) : M R (BondDataType * to_level) :=
  match fuel with
  | O => fail OutOfFuel
  | S fuel' =>
      let '(type, id) := tag in
      match rest with
      | [] =>
          if is_stop type then ret (type, l)
          else
            Skip P type ;;;
            let! tag' := ReadSubsequentField in ReadFields fields fuel' i [] tag' l
      | head :: rest' =>
          let after (l' : to_level) :=
            let! tag' := ReadSubsequentField in
            if (bf_id head <? snd tag') || is_stop (fst tag')
            then ReadFields fields fuel' (S i) rest' tag' l'
            else ReadFields fields fuel' i rest tag' l' in
          if (bf_id head =? id) && (field_type_id (bf_type head) =? type) then
            let! l' := To_Field fields i head (bf_read head) l in after l'
          else if (id <=? bf_id head) && negb (is_stop type) then
            let! l' := UnknownFieldOrTypeMismatch fields i head type id l in after l'
          else ReadFields fields fuel' (S i) rest' tag l
      end
  end.

(** [ReadUnknownFields]: to the end of the struct. *)
Fixpoint ReadUnknownFields (fuel : nat) (type : BondDataType) : M R unit :=
  match fuel with
  | O => fail OutOfFuel
  | S fuel' =>
      if type =? BT_STOP then ret tt
      else
        (if type =? BT_STOP_BASE then ret tt else Skip P type) ;;;
        let! tag := ReadSubsequentField in ReadUnknownFields fuel' (fst tag)
  end.

(** A budget of one turn per unread byte and per field, and two more. *)
Definition with_fuel {A} (extra : nat) (m : nat -> M R A) : M R A :=
  fun s => m (2 + extra + length (view s))%nat s.

(** [DynamicParser::ReadFields]: also tells whether the struct ended early. *)
Definition DynamicReadFields (base : bool) (fields : list bound_field) (l : to_level) :
    M R (to_level * bool) :=
  let! tag := ReadFieldBegin P in
  let! r := with_fuel (length fields) (fun fuel => ReadFields fields fuel 0 fields tag l) in
  let! done :=
    if negb base then
      with_fuel 0 (fun fuel => ReadUnknownFields fuel (fst r)) ;;; ret false
    else ret (fst r =? BT_STOP) in
  ReadFieldEnd P ;;; ret (snd r, done).

(** * [StaticParser]: the fields in schema order *)

Fixpoint StaticReadFields (fields : list bound_field) (i : nat) (rest : list bound_field)
    (l : to_level) : M R (to_level * bool) :=
  match rest with
  | [] => ret (l, false)
  | f :: rest' =>
      let! l' := To_Field fields i f (bf_read f) l in StaticReadFields fields (S i) rest' l'
  end.

(** * Objects *)

(** [Apply(To<T>(var), value)]: [Parser(input, base).Apply] between [StructBegin] and
    [StructEnd]; [Read] begins the transform, reads the base with a transform of its
    own, reads the fields and ends the transform.  A variable of another kind
    of type is read by [value<T, Reader>::Deserialize].  The boolean is the parser's
    [done]. *)
Fixpoint Parse (base : bool) (t : ftype) (var : value) : M R (value * bool) :=
  match t, var with
  | FBasic x, _ => let! v := DeserializeBasic x x in ret (v, false)
  | FStruct bt fs, VStruct bvar vars =>
      let fields := (fun f => mkBF (fst (fst f)) (snd (fst f)) (snd f)
        (fun x => let! r := Parse false (snd f) x in ret (fst r))) <$> fs in
      ReadStructBegin P base ;;;
      let! bvar' :=
        match bt, bvar with
        | Some bt', Some bvar0 =>
            let! r := Parse true bt' bvar0 in
            if (snd r : bool) then throw CoreException else ret (Some (fst r))
        | _, _ => ret bvar
        end in
      let l := mkTo (next_required_field fields 0) (snd <$> vars) in
      let! r := (if uses_static_parser P then StaticReadFields fields 0 fields l
                 else DynamicReadFields base fields l) in
      To_End fields (fst r) ;;;
      ReadStructEnd P base ;;;
      ret (VStruct bvar' (zip (fst <$> fs) (to_vars (fst r))), snd r)
  | FList is_set e, VList k et items =>
      let! items' := DeserializeContainer is_set e
        (fun x => let! r := Parse false e x in ret (fst r)) items in
      ret (VList k et items', false)
  | FMap kt vt, VMap kt' vt' items =>
      let! items' := DeserializeMap kt vt
        (fun x => let! r := Parse false vt x in ret (fst r)) items in
      ret (VMap kt' vt' items', false)
  | _, _ => fail Undefined
  end.

(** [Deserialize<T>(input)]: a new object, read from the input. *)
Definition Deserialize (t : ftype) : M R value :=
  let! r := Parse false t (default_object t) in ret (fst r).
End Parser.
