(* ===== verification/SimpleJsonReader.v ===== *)
(** [SimpleJsonReader] and the DOM parser (cpp/inc/bond/protocol/simple_json_reader.h,
    simple_json_reader_impl.h, detail/rapidjson_helper.h, core/parser.h [DOMParser]).

    The text is parsed to a tree by a library outside the repository, whose parser and
    accessors are arguments here.  Finding the members of an object, matching their types
    and reading them into the members of a class is Bond's; the transform is the one
    of the other parsers. *)

From S2P Require Import Prelude Streams DataType Metadata Protocol Schema.
From S2P Require Import Parser SimpleJson.

(** * [RapidJsonInputStream]: the characters the library reads *)

Section Stream.
Context {R : Type} `{InputStream R}.

Record RapidJsonInputStream : Type := mkRJIS { rs_input : R; rs_current : Z; rs_count : Z }.

Definition on_input {A} (m : M R A) : M RapidJsonInputStream A :=
  zoom rs_input (fun i s => mkRJIS i (rs_current s) (rs_count s)) m.
Definition set_current (c : Z) : M RapidJsonInputStream unit :=
  modify (fun s => mkRJIS (rs_input s) c (rs_count s)).

Definition RapidJsonInputStream_new (input : R) : outcome RapidJsonInputStream :=
  match is_Read 1 input with
  | (Ok c, input') => Ok (mkRJIS input' c 0)
  | (Err e, _) => Err e
  end.

Definition Peek : M RapidJsonInputStream Z :=
  let! s := get in
  (if rs_current s =? 0 then let! c := on_input (is_Read 1) in set_current c else ret tt) ;;;
  gets rs_current.

Definition Tell : M RapidJsonInputStream Z := gets rs_count.

Definition Take : M RapidJsonInputStream Z :=
  let! c := gets rs_current in
  set_current 0 ;;;
  let! c := (if c =? 0 then on_input (is_Read 1) else ret c) in
  modify (fun s => mkRJIS (rs_input s) (rs_current s) (wrap 64 (rs_count s + 1))) ;;;
  ret c.
End Stream.
Arguments RapidJsonInputStream : clear implicits.

(** * The library *)

(** [rapidjson::Value] as the code uses it: a [Get] has a value where the assertion in it
    holds; [Members] and [Elements] are what the iterators of an object and an array
    go through.  Then the parser, [boost::locale]'s conversion to UTF-16 and
    [try_lexical_convert] to [uint16_t], which have no value when they fail. *)
Record dom_library (R V : Type) : Type := mkDOM {
  IsNull : V -> bool;
  IsBool : V -> bool;
  IsTrue : V -> bool;
  IsInt : V -> bool;
  IsUint : V -> bool;
  IsInt64 : V -> bool;
  IsUint64 : V -> bool;
  IsNumber : V -> bool;
  IsString : V -> bool;
  IsArray : V -> bool;
  IsObject : V -> bool;
  GetBool : V -> option bool;
  GetInt : V -> option Z;
  GetInt64 : V -> option Z;
  GetUint64 : V -> option Z;
  GetDouble : V -> option Z;
  GetString : V -> option (list Z);
  Elements : V -> list V;
  Members : V -> list (list Z * V);
  ParseStream : M (RapidJsonInputStream R) V;
  locale_utf_to_utf : list Z -> option (list Z);
  lexical_uint16 : list Z -> option Z
}.
Arguments mkDOM {R V}.
Arguments IsNull {R V}.
Arguments IsBool {R V}.
Arguments IsTrue {R V}.
Arguments IsInt {R V}.
Arguments IsUint {R V}.
Arguments IsInt64 {R V}.
Arguments IsUint64 {R V}.
Arguments IsNumber {R V}.
Arguments IsString {R V}.
Arguments IsArray {R V}.
Arguments IsObject {R V}.
Arguments GetBool {R V}.
Arguments GetInt {R V}.
Arguments GetInt64 {R V}.
Arguments GetUint64 {R V}.
Arguments GetDouble {R V}.
Arguments GetString {R V}.
Arguments Elements {R V}.
Arguments Members {R V}.
Arguments ParseStream {R V}.
Arguments locale_utf_to_utf {R V}.
Arguments lexical_uint16 {R V}.

(** [vector_bool]: a list of [bool] is a [std::vector<bool>], which has a way of its own. *)
Section Reader.
Context {R V : Type} `{InputStream R} (D : dom_library R V) (vector_bool : bool).

(** * [JsonTypeMatching] *)

Record JsonTypeMatching : Type := mkJTM {
  matchesObject : bool;
  matchesArray : bool;
  matchesNull : bool;
  matchesInt : bool;
  matchesInt64 : bool;
  matchesUint : bool;
  matchesUint64 : bool;
  matchesNumber : bool;
  matchesString : bool;
  matchesBool : bool
}.
Definition JsonTypeMatching_new (type schema : BondDataType) (is_enum : bool) :
    JsonTypeMatching := {|
  matchesObject := (type =? BT_STRUCT) && (type =? schema);
  matchesArray := ((type =? BT_MAP) || (type =? BT_LIST) || (type =? BT_SET)) && (type =? schema);
  matchesNull := (type =? BT_LIST) && (type =? schema);
  matchesInt := (BT_INT8 <=? type) && (type <=? BT_INT64);
  matchesInt64 := type =? BT_INT64;
  matchesUint := (BT_UINT8 <=? type) && (type <=? BT_UINT64);
  matchesUint64 := type =? BT_UINT64;
  matchesNumber := (BT_FLOAT <=? type) && (type <=? BT_DOUBLE);
  matchesString := (type =? BT_STRING) || (type =? BT_WSTRING) || is_enum;
  matchesBool := type =? BT_BOOL
|}.

Definition ComplexTypeMatch (m : JsonTypeMatching) (x : V) : bool :=
  (IsObject D x && matchesObject m) || (IsArray D x && matchesArray m) ||
  (IsNull D x && matchesNull m).
Definition BasicTypeMatch (m : JsonTypeMatching) (x : V) : bool :=
  (IsString D x && matchesString m) || (IsUint D x && matchesUint m) ||
  (IsInt D x && matchesInt m) || (IsUint64 D x && matchesUint64 m) ||
  (IsInt64 D x && matchesInt64 m) || (IsNumber D x && matchesNumber m) ||
  (IsBool D x && matchesBool m).
Definition TypeMatch (m : JsonTypeMatching) (x : V) : bool :=
  ComplexTypeMatch m x || BasicTypeMatch m x.

(** * The reader *)

(** [_value]: nothing before the document is parsed, the document, or a member of it. *)
Inductive json_value : Type :=
| Unparsed
| Document (x : V)
| Nested (x : V).

Record SimpleJsonReader : Type := mkSJR {
  sj_value : json_value;
  sj_stream : RapidJsonInputStream R
}.

Definition SimpleJsonReader_new (input : R) : outcome SimpleJsonReader :=
  olet stream := RapidJsonInputStream_new input in Ok (mkSJR Unparsed stream).

(** What is done with [SimpleJsonReader(parent, value)]: the stream is the parent's. *)
Definition with_child {A} (x : V) (m : M SimpleJsonReader A) : M SimpleJsonReader A :=
  fun parent =>
    let '(o, child) := m (mkSJR (Nested x) (sj_stream parent)) in
    (o, mkSJR (sj_value parent) (sj_stream child)).

Definition ParseDocument : M SimpleJsonReader unit :=
  let! r := get in
  match sj_value r with
  | Nested _ => ret tt
  | _ =>
      let! x := zoom sj_stream (fun s r => mkSJR (sj_value r) s) (ParseStream D) in
      modify (fun r => mkSJR (Document x) (sj_stream r))
  end.

Definition GetValue : M SimpleJsonReader V :=
  let! r := get in
  match sj_value r with Unparsed => fail Undefined | Document x | Nested x => ret x end.

(** [MemberBegin] to [MemberEnd], [ArrayBegin] to [ArrayEnd]. *)
Definition ObjectMembers : M SimpleJsonReader (list (list Z * V)) :=
  let! x := GetValue in ret (if IsObject D x then Members D x else []).
Definition ArrayElements : M SimpleJsonReader (list V) :=
  let! x := GetValue in ret (if IsArray D x then Elements D x else []).

(** [utf_to_utf]. *)
Definition utf_to_utf (chars : list Z) : M SimpleJsonReader (list Z) :=
  match locale_utf_to_utf D chars with
  | Some units => ret units
  | None => throw CoreException
  end.

(** [detail::Read(value, var)]. *)
Definition detail_Read (x : V) (t : btype) : M SimpleJsonReader scalar :=
  match t with
  | TBool => let! b := of_option (GetBool D x) in ret (SBool b)
  | TFloat => let! d := of_option (GetDouble D x) in ret (SFloat (double_to_float d))
  | TDouble => let! d := of_option (GetDouble D x) in ret (SDouble d)
  | TInt w => let! z := of_option (GetInt64 D x) in ret (SInt w (to_signed (bits_of w) z))
  | TUInt w => let! z := of_option (GetUint64 D x) in ret (SUInt w (wrap (bits_of w) z))
  | TString => let! chars := of_option (GetString D x) in ret (SString chars)
  | TWString =>
      let! chars := of_option (GetString D x) in
      let! units := utf_to_utf chars in ret (SWString units)
  end.

Definition sj_Read (t : btype) : M SimpleJsonReader scalar :=
  let! x := GetValue in detail_Read x t.

(** [FindField]: names are compared up to their first NUL. *)
Fixpoint c_str (name : list Z) : list Z :=
  match name with
  | [] => []
  | c :: name' => if c =? 0 then [] else c :: c_str name'
  end.
Fixpoint find_member (id : Z) (name : list Z) (m : JsonTypeMatching)
    (members : list (list Z * V)) : option V :=
  match members with
  | [] => None
  | (member, x) :: members' =>
      if TypeMatch m x &&
         (bool_decide (c_str member = c_str name) ||
          bool_decide (lexical_uint16 D (c_str member) = Some id))
      then Some x else find_member id name m members'
  end.
Definition FindField (id : Z) (metadata : Metadata) (type : BondDataType) (is_enum : bool) :
    M SimpleJsonReader (option V) :=
  let! members := ObjectMembers in
  ret (find_member id (FieldName metadata) (JsonTypeMatching_new type type is_enum) members).

(** * Containers *)

(** Of a list: every element that matches is read in place. *)
Fixpoint read_list (m : JsonTypeMatching) (read : value -> M SimpleJsonReader value)
    (items : list value) (elements : list V) : M SimpleJsonReader (list value) :=
  match items, elements with
  | [], _ => ret []
  | _ :: _, [] => fail Undefined
  | item :: items', x :: elements' =>
      let! item' :=
        (if ComplexTypeMatch m x then with_child x (read item)
         else if BasicTypeMatch m x then with_child x (read item)
         else ret item) in
      let! rest := read_list m read items' elements' in ret (item' :: rest)
  end.
Definition DeserializeList (e : ftype) (read : value -> M SimpleJsonReader value)
    (items : list value) : M SimpleJsonReader (list value) :=
  let! elements := ArrayElements in
  read_list (JsonTypeMatching_new (field_type_id e) (field_type_id e) false) read
    (resize_list items (length elements) (default_object e)) elements.

(** Of a [std::vector<bool>]. *)
Definition DeserializeVectorBool : M SimpleJsonReader (list value) :=
  let! elements := ArrayElements in ret ((fun x => VBasic (SBool (IsTrue D x))) <$> elements).

(** Of a set: the elements that match are inserted. *)
Fixpoint read_set (m : JsonTypeMatching) (b : btype) (items : list value) (elements : list V) :
    M SimpleJsonReader (list value) :=
  match elements with
  | [] => ret items
  | x :: elements' =>
      if BasicTypeMatch m x
      then let! e := detail_Read x b in read_set m b (set_insert items e) elements'
      else read_set m b items elements'
  end.
Definition DeserializeSet (b : btype) : M SimpleJsonReader (list value) :=
  let! elements := ArrayElements in
  read_set (JsonTypeMatching_new (get_type_id b) (get_type_id b) false) b [] elements.

(** Of a map: keys and values take turns. *)
Fixpoint read_map (mk mv : JsonTypeMatching) (kt : btype) (read : value -> M SimpleJsonReader value)
    (fresh : value) (items : list (value * value)) (elements : list V) :
    M SimpleJsonReader (list (value * value)) :=
  match elements with
  | [] => ret items
  | x :: elements' =>
      let! key := (if BasicTypeMatch mk x then detail_Read x kt else throw CoreException) in
      match elements' with
      | [] => throw CoreException
      | y :: elements'' =>
          let! mapped :=
            (if ComplexTypeMatch mv y then with_child y (read (mapped_at items key fresh))
             else with_child y (read (mapped_at items key fresh))) in
          read_map mk mv kt read fresh (mapped_set items key mapped) elements''
      end
  end.
Definition DeserializeMap (kt : btype) (vt : ftype) (read : value -> M SimpleJsonReader value) :
    M SimpleJsonReader (list (value * value)) :=
  let! elements := ArrayElements in
  read_map (JsonTypeMatching_new (get_type_id kt) (get_type_id kt) false)
    (JsonTypeMatching_new (field_type_id vt) (field_type_id vt) false) kt read
    (default_object vt) [] elements.

(** Of a [blob]: the elements that are 32-bit integers, as bytes. *)
Fixpoint read_blob (elements : list V) : M SimpleJsonReader (list byte) :=
  match elements with
  | [] => ret []
  | x :: elements' =>
      if IsInt D x
      then let! z := of_option (GetInt D x) in
           let! rest := read_blob elements' in ret (z2b z :: rest)
      else read_blob elements'
  end.
Definition DeserializeBlob : M SimpleJsonReader (list byte) :=
  let! elements := ArrayElements in read_blob elements.

(** * [DOMParser] *)

(** The fields in schema order, each from the member found for it, if one is. *)
Fixpoint DOMReadFields (fields : list (bound_field (R := SimpleJsonReader))) (i : nat)
    (rest : list (bound_field (R := SimpleJsonReader))) (l : to_level) :
    M SimpleJsonReader (to_level * bool) :=
  match rest with
  | [] => ret (l, false)
  | f :: rest' =>
      let! field := FindField (bf_id f) (bf_metadata f) (field_type_id (bf_type f)) false in
      let! l' := match field with
                 | Some x => with_child x (To_Field fields i f (bf_read f) l)
                 | None => ret l
                 end in
      DOMReadFields fields (S i) rest' l'
  end.

(** [Apply(To<T>(var), value)].  A struct that is not a base begins with [Parse]; the
    base reads the same object with a transform of its own. *)
Fixpoint DOMParse (base : bool) (t : ftype) (var : value) : M SimpleJsonReader (value * bool) :=
  match t, var with
  | FBasic x, _ => let! s := sj_Read x in ret (VBasic s, false)
  | FStruct bt fs, VStruct bvar vars =>
      let fields := (fun f => mkBF (fst (fst f)) (snd (fst f)) (snd f)
        (fun x => let! r := DOMParse false (snd f) x in ret (fst r))) <$> fs in
      (if base then ret tt else ParseDocument) ;;;
      let! bvar' :=
        match bt, bvar with
        | Some bt', Some bvar0 =>
            let! r := DOMParse true bt' bvar0 in
            if (snd r : bool) then throw CoreException else ret (Some (fst r))
        | _, _ => ret bvar
        end in
      let l := mkTo (next_required_field fields 0) (snd <$> vars) in
      let! r := DOMReadFields fields 0 fields l in
      To_End fields (fst r) ;;;
      ret (VStruct bvar' (zip (fst <$> fs) (to_vars (fst r))), snd r)
  | FList is_set e, VList k et items =>
      let! items' :=
        (if is_set then
           match e with FBasic b => DeserializeSet b | _ => fail Undefined end
         else if vector_bool && (field_type_id e =? BT_BOOL) then DeserializeVectorBool
         else DeserializeList e (fun x => let! r := DOMParse false e x in ret (fst r)) items) in
      ret (VList k et items', false)
  | FMap kt vt, VMap kt' vt' items =>
      let! items' := DeserializeMap kt vt
        (fun x => let! r := DOMParse false vt x in ret (fst r)) in
      ret (VMap kt' vt' items', false)
  | _, _ => fail Undefined
  end.

(** [Deserialize<T>(SimpleJsonReader(input))]. *)
Definition Deserialize (t : ftype) (input : R) : outcome value :=
  olet reader := SimpleJsonReader_new input in
  fst ((let! r := DOMParse false t (default_object t) in ret (fst r)) reader).
End Reader.
