(* ===== verification/ParserCorrect.v ===== *)
(** The dynamic parser implements the specification of deserialization.

    For any reader that keeps its laws about a wire format, parsing the payload of a
    value with any schema gives the object [read_as] specifies: fields the
    schema does not know are skipped, fields the payload does not have keep their
    value, basic types are promoted. *)

From S2P Require Import Prelude Streams DataType Metadata Protocol Serializer.
From S2P Require Import Schema Parser.

(** Fields in increasing order of id, at every level of a payload. *)
Fixpoint ordered (v : value) : Prop :=
  match v with
  | VBasic _ => True
  | VStruct base fields =>
      match base with None => True | Some b => ordered b end /\
      increasing (-1) ((fun f => fst (fst f)) <$> fields) /\
      all ((fun f => ordered (snd f)) <$> fields)
  | VList _ _ items => all (ordered <$> items)
  | VMap _ _ items => all ((fun kv => ordered (fst kv) /\ ordered (snd kv)) <$> items)
  end.

Record reader_laws {R} `{Readable R} (P : ProtocolReader R) (F : wire_format) : Prop := mkRL {
  rl_dynamic : uses_static_parser P = false;
  rl_begin base L : fits 32 L ->
    reads (ReadStructBegin P base) (if base then [] else wf_prefix F L) tt;
  rl_end base : reads (ReadStructEnd P base) [] tt;
  rl_field t id : 2 <= t <= 18 -> fits 16 id -> reads (ReadFieldBegin P) (wf_field F t id) (t, id);
  rl_field_pos t id : (0 < length (wf_field F t id))%nat;
  rl_stop base : exists id,
    reads (ReadFieldBegin P) (wf_stop F base) (if base then BT_STOP_BASE else BT_STOP, id);
  rl_stop_pos base : (0 < length (wf_stop F base))%nat;
  rl_field_end : reads (ReadFieldEnd P) [] tt;
  rl_list n t t0 : fits 32 n -> fits 5 t ->
    reads (ReadContainerBegin P t0) (wf_list F n t) (n, t);
  rl_map n kt vt t0 : fits 32 n -> fits 5 kt -> fits 5 vt ->
    reads (ReadMapBegin P t0) (wf_map F n (kt, vt)) (n, (kt, vt));
  rl_container_end : reads (ReadContainerEnd P) [] tt;
  rl_read s : scalar_ok s -> reads (Read P (btype_of s)) (wf_scalar F s) s;
  rl_skip v : value_ok v -> zlen (encode F false v) < 2 ^ 32 ->
    reads (Skip P (type_of v)) (encode F false v) tt
}.

Section Correct.
Context {R : Type} `{Readable R} (P : ProtocolReader R) (F : wire_format).
Context (laws : reader_laws P F).

(** Enough turns at the call are enough turns. *)
Lemma with_fuel_reads {A} extra (m : nat -> M R A) bs a :
  (forall fuel, (2 + extra + length bs <= fuel)%nat -> reads (m fuel) bs a) ->
  reads (with_fuel extra m) bs a.
Proof.
  intros Hm s rest Hr Hv. unfold with_fuel. apply Hm; [|done|done].
  rewrite Hv, length_app. lia.
Qed.

(** ** Payload fields *)

(** The fields that are present, all within range. *)
Definition field_fine (f : Z * value) : Prop :=
  fits 16 (fst f) /\ value_ok (snd f) /\ ordered (snd f) /\
  zlen (encode F false (snd f)) < 2 ^ 32.

Definition head_bytes (base : bool) (p : list (Z * value)) : list byte :=
  match p with [] => wf_stop F base | (id, v) :: _ => wf_field F (type_of v) id end.
Fixpoint all_bytes (base : bool) (p : list (Z * value)) : list byte :=
  match p with
  | [] => wf_stop F base
  | (id, v) :: p' => wf_field F (type_of v) id ++ encode F false v ++ all_bytes base p'
  end.
(** What follows the first field header. *)
Definition tail_bytes (base : bool) (p : list (Z * value)) : list byte :=
  match p with [] => [] | (_, v) :: p' => encode F false v ++ all_bytes base p' end.

Lemma all_bytes_split base p : all_bytes base p = head_bytes base p ++ tail_bytes base p.
Proof. destruct p as [|[id v] p]; simpl; [by rewrite app_nil_r|done]. Qed.

Definition stop_type (base : bool) : BondDataType := if base then BT_STOP_BASE else BT_STOP.
Definition tag_of (base : bool) (sid : Z) (p : list (Z * value)) : BondDataType * Z :=
  match p with [] => (stop_type base, sid) | (id, v) :: _ => (type_of v, id) end.

Lemma is_stop_type base : is_stop (stop_type base) = true.
Proof. by destruct base. Qed.

Lemma not_stop t : 2 <= t <= 18 -> is_stop t = false.
Proof. intros Ht. unfold is_stop, BT_STOP, BT_STOP_BASE. by zbool. Qed.

Lemma first_tag base sid p :
  reads (ReadFieldBegin P) (wf_stop F base) (stop_type base, sid) ->
  Forall (fun f => fits 16 (fst f)) p ->
  reads (ReadFieldBegin P) (head_bytes base p) (tag_of base sid p).
Proof.
  intros Hs Hp. destruct p as [|[id v] p]; simpl; [exact Hs|].
  apply Forall_cons_1 in Hp as [Hid _]. apply (rl_field _ _ laws); [|exact Hid].
  apply type_of_range.
Qed.

Lemma fine_ids p : Forall field_fine p -> Forall (fun f => fits 16 (fst f)) p.
Proof. intros Hp. eapply Forall_impl; [|exact Hp]. by intros f [Hf _]. Qed.

Lemma next_tag base sid p :
  reads (ReadFieldBegin P) (wf_stop F base) (stop_type base, sid) ->
  Forall (fun f => fits 16 (fst f)) p ->
  reads (ReadSubsequentField P) (head_bytes base p) (tag_of base sid p).
Proof.
  intros Hs Hp. unfold ReadSubsequentField.
  eapply reads_bind_nil; [apply (rl_field_end _ _ laws)|by apply first_tag].
Qed.

Lemma lookup_above id lo p : increasing lo (fst <$> p) -> id <= lo -> lookup_field id p = None.
Proof.
  revert lo. induction p as [|[i v] p IH]; intros lo Hi Hlo; [done|].
  rewrite fmap_cons in Hi. destruct Hi as [Hi Hp]. cbn [fst] in *.
  unfold lookup_field in *. cbn [find fst]. zbool. apply (IH i); [done|lia].
Qed.

Lemma lookup_below id i v p : i < id -> lookup_field id ((i, v) :: p) = lookup_field id p.
Proof. intros Hi. unfold lookup_field. cbn [find fst]. by zbool. Qed.

Lemma lookup_here id v p : lookup_field id ((id, v) :: p) = Some v.
Proof. unfold lookup_field. cbn [find fst]. by rewrite Z.eqb_refl. Qed.

(** ** Reading the fields of one level *)

(** A field of the schema with the specification of its reading. *)
Abbreviation reader_spec := (value -> value -> option value).
Abbreviation bound := (bound_field (R := R) * reader_spec)%type.

Definition spec_of (b : bound) : Z * Metadata * ftype * reader_spec :=
  (bf_id (fst b), bf_metadata (fst b), bf_type (fst b), snd b).
Definition ids_of (l : list bound) : list Z := (fun b => bf_id (fst b)) <$> l.

(** [bf_read] does what the specification says on payloads of the field's own type;
    other basic types are promoted. *)
Definition bound_ok (b : bound) : Prop :=
  (forall var v r, snd b var v = Some r -> type_of v = field_type_id (bf_type (fst b)) ->
    value_ok v -> ordered v -> zlen (encode F false v) < 2 ^ 32 ->
    reads (bf_read (fst b) var) (encode F false v) r) /\
  (forall x var v r, bf_type (fst b) = FBasic x -> snd b var v = Some r ->
    exists s, v = VBasic s /\ is_matching_basic (btype_of s) x = true /\ r = VBasic (set_as x s)).

Lemma next_required_skip pre rest m :
  Forall (fun f => bf_id f < m) pre -> Forall (fun f => m <= bf_id f /\ 0 <= bf_id f) rest ->
  next_required_field (R := R) (pre ++ rest) m = next_required_field rest 0.
Proof.
  induction 1 as [|f pre Hf _ IH]; intros Hr; cbn [app next_required_field].
  - induction Hr as [|f rest [Hm H0] _ IH]; [done|]. cbn [next_required_field].
    zbool. by rewrite IH.
  - zbool. by apply IH.
Qed.

Definition level_of (rest : list bound) (vars : list value) : to_level :=
  mkTo (next_required_field (fst <$> rest) 0) vars.

Lemma next_required_after pre h rest lo :
  increasing lo (ids_of (pre ++ h :: rest)) -> -1 <= lo ->
  next_required_field (fst <$> (pre ++ h :: rest)) (bf_id (fst h) + 1) =
  next_required_field (fst <$> rest) 0.
Proof.
  intros Hi Hlo. rewrite fmap_app, fmap_cons.
  replace ((fst <$> pre) ++ fst h :: (fst <$> rest))
    with (((fst <$> pre) ++ [fst h]) ++ (fst <$> rest)) by by rewrite <-app_assoc.
  revert lo Hi Hlo. induction pre as [|g pre IH]; intros lo Hi Hlo.
  - cbn [app] in Hi. unfold ids_of in Hi. rewrite fmap_cons in Hi. destruct Hi as [Hh Hr].
    apply next_required_skip; [repeat constructor; lia|].
    apply increasing_forall in Hr. rewrite Forall_fmap in Hr. rewrite Forall_fmap.
    eapply Forall_impl; [|exact Hr]. intros b Hb. cbn in *. lia.
  - cbn [app] in Hi. unfold ids_of in Hi. rewrite fmap_cons in Hi. destruct Hi as [Hg Hr].
    rewrite fmap_cons. cbn [app next_required_field].
    assert (Hlt : bf_id (fst g) < bf_id (fst h)).
    { apply increasing_forall in Hr. rewrite fmap_app, fmap_cons in Hr.
      apply Forall_app in Hr as [_ Hr]. by apply Forall_cons_1 in Hr as [[? _] _]. }
    zbool. apply (IH (bf_id (fst g))); [exact Hr|lia].
Qed.

Lemma next_required_here (h : bound) rest : 0 <= bf_id (fst h) -> is_required (bf_metadata (fst h)) = true ->
  next_required_field (R := R) (fst <$> (h :: rest)) 0 = bf_id (fst h).
Proof. intros Hh Hq. rewrite fmap_cons. cbn [next_required_field]. zbool. by rewrite Hq. Qed.

Lemma next_required_optional (h : bound) rest : is_required (bf_metadata (fst h)) = false ->
  next_required_field (R := R) (fst <$> (h :: rest)) 0 = next_required_field (fst <$> rest) 0.
Proof. intros Hq. rewrite fmap_cons. cbn [next_required_field]. by rewrite Hq, andb_false_r. Qed.

Lemma To_Field_reads pre h rest lo done cur curs read bs r :
  increasing lo (ids_of (pre ++ h :: rest)) -> -1 <= lo -> length done = length pre ->
  reads (read cur) bs r ->
  reads (To_Field (fst <$> (pre ++ h :: rest)) (length pre) (fst h) read
    (level_of (h :: rest) (done ++ cur :: curs))) bs (level_of rest (done ++ r :: curs)).
Proof.
  intros Hi Hlo Hd Hr. unfold To_Field.
  eapply (reads_bind_nil _ _ _ (level_of rest (done ++ cur :: curs))).
  - unfold Validate. destruct (is_required _) eqn:Hq.
    + assert (Hh : 0 <= bf_id (fst h)).
      { unfold ids_of in Hi. rewrite fmap_app, fmap_cons in Hi.
        apply increasing_forall, Forall_app in Hi as [_ Hi].
        apply Forall_cons_1 in Hi as [Hi _]. lia. }
      unfold level_of. cbn [to_required to_vars]. rewrite next_required_here by done.
      rewrite Z.eqb_refl. rewrite (next_required_after _ _ _ lo) by done. apply reads_ret.
    + unfold level_of. rewrite next_required_optional by done. apply reads_ret.
  - eapply (reads_bind_nil _ _ _ cur).
    + unfold level_of. cbn [to_vars]. rewrite <-Hd, list_lookup_middle by done. apply reads_ret.
    + cbn [to_required to_vars level_of]. apply (reads_map _ (fun v => mkTo
        (next_required_field (fst <$> rest) 0) (<[length pre:=v]> (done ++ cur :: curs)))) in Hr.
      rewrite <-Hd, (insert_app_r_alt done) in Hr by done. rewrite Nat.sub_diag in Hr.
      rewrite <-Hd. exact Hr.
Qed.

(** ** Payload fields that are not taken exactly *)

Lemma Skip_nothrow_reads v : value_ok v -> zlen (encode F false v) < 2 ^ 32 ->
  reads (Skip_nothrow P (type_of v)) (encode F false v) tt.
Proof.
  intros Hv Hl s rest Hr Hs.
  destruct (rl_skip _ _ laws v Hv Hl s rest Hr Hs) as (s' & E & V & O).
  exists s'. unfold Skip_nothrow. by rewrite E.
Qed.

Lemma basic_of_type v u : basic_type_of_id (type_of v) = Some u ->
  exists s, v = VBasic s /\ btype_of s = u.
Proof.
  destruct v as [s| |[]|]; cbn [type_of]; intros Hu; try discriminate Hu.
  rewrite type_id_roundtrip in Hu. simplify_eq. by exists s.
Qed.

Lemma basic_or_container v : basic_type_of_id (type_of v) = None ->
  is_container_or_struct (type_of v) = true.
Proof. destruct v as [s| |[]|]; cbn [type_of]; try done. by rewrite type_id_roundtrip. Qed.

(** A field the schema does not have, or has with a type that does not match. *)
Lemma mismatch_skips fields i (h : bound_field) id v l :
  value_ok v -> zlen (encode F false v) < 2 ^ 32 ->
  id <> bf_id h \/ accepts (bf_type h) (type_of v) = false ->
  reads (UnknownFieldOrTypeMismatch P fields i h (type_of v) id l) (encode F false v) l.
Proof.
  intros Hv Hl Hno. pose proof (reads_map _ (fun _ => l) _ _ (rl_skip _ _ laws v Hv Hl)) as Hs.
  unfold UnknownFieldOrTypeMismatch. destruct (bf_type h) as [x| | |] eqn:Ht; try exact Hs.
  destruct ((id =? bf_id h) && negb (is_container_or_struct (type_of v))) eqn:E; [|exact Hs].
  apply andb_true_iff in E as [E1 E2]. apply Z.eqb_eq in E1.
  destruct Hno as [Hno|Hno]; [done|]. rewrite accepts_basic_iff in Hno.
  destruct (basic_type_of_id (type_of v)) eqn:Hb.
  - rewrite Hno. exact (reads_map _ (fun _ => l) _ _ (Skip_nothrow_reads v Hv Hl)).
  - apply basic_or_container in Hb. by rewrite Hb in E2.
Qed.

Lemma DeserializeBasic_reads s x : scalar_ok s ->
  reads (DeserializeBasic P (btype_of s) x) (wf_scalar F s) (VBasic (set_as x s)).
Proof. intros Hs. apply (reads_map _ (fun d => VBasic (set_as x d))), (rl_read _ _ laws _ Hs). Qed.

(** The fields of the schema below the next payload field are left as they are. *)
Lemma drop_head h rest var vars p news :
  read_fields (spec_of <$> (h :: rest)) (var :: vars) p = Some news ->
  lookup_field (bf_id (fst h)) p = None ->
  is_required (bf_metadata (fst h)) = false /\
  exists news', news = var :: news' /\ read_fields (spec_of <$> rest) vars p = Some news'.
Proof.
  rewrite fmap_cons. cbn [read_fields]. unfold read_field at 1, spec_of at 1. intros Hn Hp.
  rewrite Hp in Hn. destruct (is_required _); [done|]. split; [done|].
  destruct (read_fields (spec_of <$> rest) vars p); simplify_eq. by eexists.
Qed.

Lemma read_fields_nil vars p news : read_fields [] vars p = Some news -> vars = [] /\ news = [].
Proof. destruct vars; simpl; [by intros [= <-]|done]. Qed.

Lemma read_fields_cons b rest vars p news :
  read_fields (spec_of <$> (b :: rest)) vars p = Some news ->
  exists x xs y ys, vars = x :: xs /\ news = y :: ys /\
    read_field (spec_of b) x p = Some y /\ read_fields (spec_of <$> rest) xs p = Some ys.
Proof.
  rewrite fmap_cons. destruct vars as [|x xs]; cbn [read_fields]; [done|].
  destruct (read_field (spec_of b) x p) eqn:E1, (read_fields (spec_of <$> rest) xs p) eqn:E2;
    intros Hn; simplify_eq. by repeat eexists.
Qed.

(** A payload field below all the remaining fields of the schema does not matter. *)
Lemma read_fields_below id v p rest vars lo :
  increasing lo (ids_of rest) -> id <= lo ->
  read_fields (spec_of <$> rest) vars ((id, v) :: p) = read_fields (spec_of <$> rest) vars p.
Proof.
  revert vars lo. induction rest as [|b rest IH]; intros vars lo Hi Hlo; [done|].
  unfold ids_of in Hi. rewrite fmap_cons in Hi. destruct Hi as [Hb Hi].
  rewrite fmap_cons. destruct vars as [|x xs]; [done|]. cbn [read_fields].
  rewrite (IH xs _ Hi) by lia. unfold read_field, spec_of. by rewrite lookup_below by lia.
Qed.

(** ** The loop over the fields *)

Section Level.
Context (base : bool) (sid : Z).
Context (stop_reads : reads (ReadFieldBegin P) (wf_stop F base) (stop_type base, sid)).

(** [loop_ok fuel rest]: with [fuel] turns left and the fields [rest] to come, the loop
    does what the specification says. *)
Definition loop_ok (fuel : nat) : Prop := forall pre rest lo p done curs news,
  increasing lo (ids_of (pre ++ rest)) -> -1 <= lo -> increasing (-1) (fst <$> p) ->
  Forall field_fine p -> Forall bound_ok rest -> length done = length pre ->
  read_fields (spec_of <$> rest) curs p = Some news ->
  (length rest + length p < fuel)%nat ->
  reads (ReadFields P (fst <$> (pre ++ rest)) fuel (length pre) (fst <$> rest)
           (tag_of base sid p) (level_of rest (done ++ curs)))
    (tail_bytes base p) (stop_type base, level_of [] (done ++ news)).

(** The next field of the schema, its member being [y]. *)
Lemma loop_next fuel pre h rest lo p done y curs news : loop_ok fuel ->
  increasing lo (ids_of (pre ++ h :: rest)) -> -1 <= lo -> increasing (-1) (fst <$> p) ->
  Forall field_fine p -> Forall bound_ok rest -> length done = length pre ->
  read_fields (spec_of <$> rest) curs p = Some news ->
  (length rest + length p < fuel)%nat ->
  reads (ReadFields P (fst <$> (pre ++ h :: rest)) fuel (S (length pre)) (fst <$> rest)
           (tag_of base sid p) (level_of rest (done ++ y :: curs)))
    (tail_bytes base p) (stop_type base, level_of [] (done ++ y :: news)).
Proof.
  intros IH Hi Hlo Hp Hf Hb Hd Hn Hl.
  replace (pre ++ h :: rest) with ((pre ++ [h]) ++ rest) in * by by rewrite <-app_assoc.
  replace (done ++ y :: curs) with ((done ++ [y]) ++ curs) by by rewrite <-app_assoc.
  replace (done ++ y :: news) with ((done ++ [y]) ++ news) by by rewrite <-app_assoc.
  replace (S (length pre)) with (length (pre ++ [h])) by (rewrite length_app; simpl; lia).
  apply (IH _ _ lo); try done. rewrite !length_app, Hd. done.
Qed.

(** The next field of the schema, when the payload has nothing for this one. *)
Lemma loop_drop fuel pre h rest lo p done curs news : loop_ok fuel ->
  increasing lo (ids_of (pre ++ h :: rest)) -> -1 <= lo -> increasing (-1) (fst <$> p) ->
  Forall field_fine p -> Forall bound_ok rest -> length done = length pre ->
  read_fields (spec_of <$> (h :: rest)) curs p = Some news ->
  lookup_field (bf_id (fst h)) p = None ->
  (length rest + length p < fuel)%nat ->
  reads (ReadFields P (fst <$> (pre ++ h :: rest)) fuel (S (length pre)) (fst <$> rest)
           (tag_of base sid p) (level_of (h :: rest) (done ++ curs)))
    (tail_bytes base p) (stop_type base, level_of [] (done ++ news)).
Proof.
  intros IH Hi Hlo Hp Hf Hb Hd Hn Hno Hl.
  destruct (read_fields_cons _ _ _ _ _ Hn) as (x & xs & _ & _ & -> & _).
  destruct (drop_head _ _ _ _ _ _ Hn Hno) as (Hq & news' & -> & Hn').
  unfold level_of at 1. rewrite next_required_optional by done. by eapply loop_next.
Qed.

(** The end of the schema: what is left is unknown. *)
Lemma loop_rest fuel fields i p l : increasing (-1) (fst <$> p) -> Forall field_fine p ->
  (length p < fuel)%nat ->
  reads (ReadFields P fields fuel i [] (tag_of base sid p) l) (tail_bytes base p)
    (stop_type base, l).
Proof.
  revert p. induction fuel as [|fuel IH]; intros p Hp Hf Hl; [lia|]. cbn [ReadFields].
  destruct p as [|[id v] p]; cbn [tag_of tail_bytes].
  - rewrite is_stop_type. apply reads_ret.
  - apply Forall_cons_1 in Hf as [(Hid & Hv & Ho & Hz) Hf]. cbn [fst snd] in *.
    rewrite not_stop by apply type_of_range.
    eapply reads_bind; [by apply (rl_skip _ _ laws)|]. rewrite all_bytes_split.
    eapply reads_bind; [apply next_tag; [done|by apply fine_ids]|]. simpl in Hl. destruct Hp as [[Hlo _] Hp].
    cbn [fst] in Hlo. apply IH; [|done|lia]. apply (increasing_weaken id); [lia|exact Hp].
Qed.

(** The test after a payload field: on to the next field of the schema when the next
    tag is above this one. *)
Lemma loop_after fuel pre h rest lo p done curs news : loop_ok fuel ->
  increasing lo (ids_of (pre ++ h :: rest)) -> -1 <= lo -> increasing (-1) (fst <$> p) ->
  Forall field_fine p -> Forall bound_ok (h :: rest) -> length done = length pre ->
  read_fields (spec_of <$> (h :: rest)) curs p = Some news ->
  (length (h :: rest) + length p < fuel)%nat ->
  reads (let tag' := tag_of base sid p in
         if (bf_id (fst h) <? snd tag') || is_stop (fst tag')
         then ReadFields P (fst <$> (pre ++ h :: rest)) fuel (S (length pre)) (fst <$> rest) tag'
                (level_of (h :: rest) (done ++ curs))
         else ReadFields P (fst <$> (pre ++ h :: rest)) fuel (length pre) (fst <$> (h :: rest))
                tag' (level_of (h :: rest) (done ++ curs)))
    (tail_bytes base p) (stop_type base, level_of [] (done ++ news)).
Proof.
  intros IH Hi Hlo Hp Hf Hb Hd Hn Hl. cbv zeta.
  destruct ((bf_id (fst h) <? snd (tag_of base sid p)) || is_stop (fst (tag_of base sid p))) eqn:E.
  - eapply loop_drop; try done; [by apply Forall_cons_1 in Hb as [_ Hb]| |simpl in Hl; lia].
    destruct p as [|[id v] p]; [done|]. cbn [tag_of fst snd] in E.
    rewrite not_stop, orb_false_r in E by apply type_of_range. apply Z.ltb_lt in E.
    apply (lookup_above _ (bf_id (fst h))); [|lia].
    destruct Hp as [[_ Hlt] Hp]. cbn [fst] in *. split; [cbn [fst]; lia|exact Hp].
  - by apply (IH _ _ lo).
Qed.

(** The head of the schema against the head of the payload. *)
Lemma head_taken fuel pre h rest lo id v p done cur curs news read r : loop_ok fuel ->
  increasing lo (ids_of (pre ++ h :: rest)) -> -1 <= lo ->
  increasing (-1) (fst <$> ((id, v) :: p)) -> Forall field_fine p ->
  Forall bound_ok rest -> length done = length pre -> id = bf_id (fst h) ->
  read_fields (spec_of <$> rest) curs p = Some news ->
  reads (read cur) (encode F false v) r ->
  (length rest + length p < fuel)%nat ->
  reads (let! l' := To_Field (fst <$> (pre ++ h :: rest)) (length pre) (fst h) read
           (level_of (h :: rest) (done ++ cur :: curs)) in
         let! tag' := ReadSubsequentField P in
         if (bf_id (fst h) <? snd tag') || is_stop (fst tag')
         then ReadFields P (fst <$> (pre ++ h :: rest)) fuel (S (length pre)) (fst <$> rest) tag' l'
         else ReadFields P (fst <$> (pre ++ h :: rest)) fuel (length pre) (fst <$> (h :: rest))
                tag' l')
    (encode F false v ++ all_bytes base p) (stop_type base, level_of [] (done ++ r :: news)).
Proof.
  intros IH Hi Hlo Hp Hf Hb Hd -> Hn Hr Hl.
  eapply reads_bind; [by eapply To_Field_reads|]. rewrite all_bytes_split.
  eapply reads_bind; [apply next_tag; [done|by apply fine_ids]|].
  assert (E : (bf_id (fst h) <? snd (tag_of base sid p)) || is_stop (fst (tag_of base sid p))
    = true).
  { destruct p as [|[i w] p]; [by cbn [tag_of fst]; rewrite is_stop_type, orb_true_r|].
    rewrite !fmap_cons in Hp. destruct Hp as [_ [Hlt _]]. cbn [fst snd tag_of] in *. by zbool. }
  rewrite E. destruct Hp as [[Hid _] Hp]. cbn [fst] in *.
  eapply loop_next; try done. eapply increasing_weaken; [|exact Hp]. lia.
Qed.

Lemma head_skipped fuel pre h rest lo id v p done curs news : loop_ok fuel ->
  increasing lo (ids_of (pre ++ h :: rest)) -> -1 <= lo ->
  increasing (-1) (fst <$> ((id, v) :: p)) -> Forall field_fine ((id, v) :: p) ->
  Forall bound_ok (h :: rest) -> length done = length pre ->
  id <> bf_id (fst h) \/ accepts (bf_type (fst h)) (type_of v) = false ->
  read_fields (spec_of <$> (h :: rest)) curs p = Some news ->
  (length (h :: rest) + length p < fuel)%nat ->
  reads (let! l' := UnknownFieldOrTypeMismatch P (fst <$> (pre ++ h :: rest)) (length pre) (fst h)
           (type_of v) id (level_of (h :: rest) (done ++ curs)) in
         let! tag' := ReadSubsequentField P in
         if (bf_id (fst h) <? snd tag') || is_stop (fst tag')
         then ReadFields P (fst <$> (pre ++ h :: rest)) fuel (S (length pre)) (fst <$> rest) tag' l'
         else ReadFields P (fst <$> (pre ++ h :: rest)) fuel (length pre) (fst <$> (h :: rest))
                tag' l')
    (encode F false v ++ all_bytes base p) (stop_type base, level_of [] (done ++ news)).
Proof.
  intros IH Hi Hlo Hp Hf Hb Hd Hno Hn Hl.
  apply Forall_cons_1 in Hf as [(Hid & Hv & Ho & Hz) Hf]. cbn [fst snd] in *.
  eapply reads_bind; [by apply mismatch_skips|]. rewrite all_bytes_split.
  eapply reads_bind; [apply next_tag; [done|by apply fine_ids]|]. destruct Hp as [[Hlt _] Hp]. cbn [fst] in *.
  eapply loop_after; try done. eapply increasing_weaken; [|exact Hp]. lia.
Qed.

Lemma read_here h rest cur curs id v p news : bf_id (fst h) = id ->
  read_fields (spec_of <$> (h :: rest)) (cur :: curs) ((id, v) :: p) = Some news ->
  increasing id (ids_of rest) ->
  exists y ys, news = y :: ys /\ read_fields (spec_of <$> rest) curs p = Some ys /\
    (if accepts (bf_type (fst h)) (type_of v) then snd h cur v
     else if is_required (bf_metadata (fst h)) then None else Some cur) = Some y.
Proof.
  intros Hid Hn Hi. destruct (read_fields_cons _ _ _ _ _ Hn) as (x & xs & y & ys & E & -> & H1 & H2).
  injection E as <- <-. exists y, ys. split; [done|].
  rewrite (read_fields_below id v p rest curs id) in H2 by (done || lia). split; [done|].
  unfold read_field, spec_of in H1. by rewrite Hid, lookup_here in H1.
Qed.

(** [UnknownFieldOrTypeMismatch] on a basic field that can be promoted. *)
Lemma mismatch_promotes fields i (h : bound_field) v l x u :
  bf_type h = FBasic x -> basic_type_of_id (type_of v) = Some u -> is_matching_basic u x = true ->
  UnknownFieldOrTypeMismatch P fields i h (type_of v) (bf_id h) l =
    To_Field fields i h (fun _ => DeserializeBasic P u x) l.
Proof.
  intros Hx Hu Hm. destruct (basic_of_type _ _ Hu) as (s & -> & <-).
  unfold UnknownFieldOrTypeMismatch. rewrite Hx, Z.eqb_refl.
  replace (is_container_or_struct (type_of (VBasic s))) with false
    by by destruct s as [|[]|[]| | | |].
  cbn [negb andb]. by rewrite Hu, Hm.
Qed.

Lemma read_absent h rest cur curs p ys :
  lookup_field (bf_id (fst h)) p = None ->
  (if is_required (bf_metadata (fst h)) then None else Some cur) = Some cur ->
  read_fields (spec_of <$> rest) curs p = Some ys ->
  read_fields (spec_of <$> (h :: rest)) (cur :: curs) p = Some (cur :: ys).
Proof.
  intros Hl Hq Hr. rewrite fmap_cons. cbn [read_fields].
  unfold read_field, spec_of at 1. by rewrite Hl, Hq, Hr.
Qed.

Lemma ids_after pre h rest lo : increasing lo (ids_of (pre ++ h :: rest)) ->
  lo < bf_id (fst h) /\ increasing (bf_id (fst h)) (ids_of rest).
Proof.
  revert lo. induction pre as [|g pre IH]; intros lo Hi; cbn [app] in Hi;
    unfold ids_of in Hi; rewrite fmap_cons in Hi; destruct Hi as [Hg Hi].
  - split; [lia|exact Hi].
  - destruct (IH _ Hi). split; [lia|done].
Qed.

(** The head of the schema and the head of the payload have the same id. *)
Lemma loop_here fuel pre h rest lo v p done curs news : loop_ok fuel ->
  let id := bf_id (fst h) in
  increasing lo (ids_of (pre ++ h :: rest)) -> -1 <= lo ->
  increasing (-1) (fst <$> ((id, v) :: p)) -> Forall field_fine ((id, v) :: p) ->
  Forall bound_ok (h :: rest) -> length done = length pre ->
  read_fields (spec_of <$> (h :: rest)) curs ((id, v) :: p) = Some news ->
  (length (h :: rest) + length p < fuel)%nat ->
  reads (let! l' :=
           (if field_type_id (bf_type (fst h)) =? type_of v
            then To_Field (fst <$> (pre ++ h :: rest)) (length pre) (fst h) (bf_read (fst h))
                   (level_of (h :: rest) (done ++ curs))
            else UnknownFieldOrTypeMismatch P (fst <$> (pre ++ h :: rest)) (length pre) (fst h)
                   (type_of v) id (level_of (h :: rest) (done ++ curs))) in
         let! tag' := ReadSubsequentField P in
         if (bf_id (fst h) <? snd tag') || is_stop (fst tag')
         then ReadFields P (fst <$> (pre ++ h :: rest)) fuel (S (length pre)) (fst <$> rest) tag' l'
         else ReadFields P (fst <$> (pre ++ h :: rest)) fuel (length pre) (fst <$> (h :: rest))
                tag' l')
    (encode F false v ++ all_bytes base p) (stop_type base, level_of [] (done ++ news)).
Proof.
  intros IH id Hi Hlo Hp Hf Hb Hd Hn Hl. destruct (ids_after _ _ _ _ Hi) as [Hh Hrest].
  pose proof (Forall_cons_1 _ _ _ Hb) as [Hok Hbr].
  pose proof (Forall_cons_1 _ _ _ Hf) as [(Hid & Hv & Ho & Hz) Hfp]. cbn [fst snd] in *.
  destruct curs as [|cur curs]; [by rewrite fmap_cons in Hn|].
  destruct (read_here _ _ _ _ _ _ _ _ eq_refl Hn Hrest) as (y & ys & -> & Hys & Hy).
  destruct (field_type_id (bf_type (fst h)) =? type_of v) eqn:Ht.
  { unfold accepts in Hy. rewrite Ht in Hy. apply Z.eqb_eq in Ht.
    eapply head_taken; try done; [|simpl in *; lia]. by apply Hok. }
  destruct (accepts (bf_type (fst h)) (type_of v)) eqn:Ha.
  - unfold accepts in Ha. rewrite Ht in Ha. cbn [orb] in Ha.
    destruct (bf_type (fst h)) as [x| | |] eqn:Hx; try discriminate Ha. cbn [accepts_basic] in Ha.
    destruct (basic_type_of_id (type_of v)) as [u|] eqn:Hu; [|discriminate Ha].
    subst id. erewrite mismatch_promotes by done.
    eapply head_taken; try done; [|simpl in *; lia].
    destruct (proj2 Hok x cur v y Hx Hy) as (s & -> & Hm & ->).
    cbn [type_of] in Hu. rewrite type_id_roundtrip in Hu. injection Hu as <-.
    by apply DeserializeBasic_reads.
  - assert (y = cur) as -> by (destruct (is_required _); by simplify_eq).
    eapply head_skipped; try done; [by right|].
    eapply read_absent; [|exact Hy|done].
    destruct Hp as [_ Hp]. apply (lookup_above _ id); [exact Hp|lia].
Qed.

Lemma loop_correct fuel : loop_ok fuel.
Proof.
  induction fuel as [|fuel IH]; intros pre rest lo p done curs news Hi Hlo Hp Hf Hb Hd Hn Hl;
    [lia|].
  destruct rest as [|h rest].
  { destruct (read_fields_nil _ _ _ Hn) as [-> ->]. apply loop_rest; [done|done|].
    simpl in Hl. lia. }
  destruct (ids_after _ _ _ _ Hi) as [Hh Hrest].
  pose proof (Forall_cons_1 _ _ _ Hb) as [Hok Hbr].
  rewrite fmap_cons. cbn [ReadFields]. rewrite <-fmap_cons.
  destruct p as [|[id v] p]; cbn [tag_of tail_bytes].
  - assert (E : (field_type_id (bf_type (fst h)) =? stop_type base) = false).
    { pose proof (field_type_id_range (bf_type (fst h))). destruct base; simpl;
        unfold BT_STOP, BT_STOP_BASE; by zbool. }
    rewrite E, andb_false_r, is_stop_type. cbn [negb]. rewrite andb_false_r.
    eapply (loop_drop _ _ _ _ lo []); try done. simpl in *. lia.
  - pose proof (Forall_cons_1 _ _ _ Hf) as [(Hid & Hv & Ho & Hz) Hfp]. cbn [fst snd] in *.
    rewrite not_stop by apply type_of_range. cbn [negb]. rewrite andb_true_r.
    destruct (Z.lt_trichotomy id (bf_id (fst h))) as [Hlt|[Heq|Hgt]].
    + replace (bf_id (fst h) =? id) with false by by zbool.
      replace (id <=? bf_id (fst h)) with true by by zbool. cbn [andb].
      eapply head_skipped; try done; [left; lia| |simpl in *; lia].
      erewrite <-(read_fields_below id v p (h :: rest) curs id); [done| |lia].
      unfold ids_of. rewrite fmap_cons. split; [|exact Hrest].
      pose proof (increasing_forall _ _ Hi) as Ha. unfold ids_of in Ha.
      rewrite fmap_app, fmap_cons in Ha. apply Forall_app in Ha as [_ Ha].
      apply Forall_cons_1 in Ha as [Ha _]. lia.
    + subst id. rewrite Z.eqb_refl, Z.leb_refl. cbn [andb].
      pose proof (loop_here fuel pre h rest lo v p done curs news IH Hi Hlo Hp Hf Hb Hd Hn
        ltac:(simpl in *; lia)) as Hx.
      by destruct (field_type_id (bf_type (fst h)) =? type_of v).
    + replace (bf_id (fst h) =? id) with false by by zbool.
      replace (id <=? bf_id (fst h)) with false by by zbool. cbn [andb].
      eapply (loop_drop _ _ _ _ lo ((id, v) :: p)); try done; [|simpl in *; lia].
      apply (lookup_above _ (bf_id (fst h))); [|lia].
      destruct Hp as [[_ Hlt] Hp]. cbn [fst] in *. split; [cbn [fst]; lia|exact Hp].
Qed.
End Level.

(** ** One level *)

Lemma all_bytes_length base p : (length p <= length (all_bytes base p))%nat.
Proof.
  induction p as [|[id v] p IH]; cbn [all_bytes length]; [lia|].
  rewrite !length_app. pose proof (rl_field_pos _ _ laws (type_of v) id). lia.
Qed.

Lemma tail_bytes_length base p : (length p <= 1 + length (tail_bytes base p))%nat.
Proof.
  destruct p as [|[id v] p]; cbn [tail_bytes length]; [lia|].
  rewrite length_app. pose proof (all_bytes_length base p). lia.
Qed.

(** *** Levels of the payload the reader does not know *)

(** The fields of the more derived levels, the next one first; [base] says how the last
    one ends. *)
Fixpoint levels_bytes (base : bool) (outer : list (list (Z * value))) : list byte :=
  match outer with
  | [] => []
  | p :: outer' => all_bytes (if outer' then base else true) p ++ levels_bytes base outer'
  end.

(** The stop that ends a level is the one of a base if more levels follow. *)
Definition stops_base (base : bool) (outer : list (list (Z * value))) : bool :=
  base || (if outer then false else true).

Lemma unknown_fields base sid p rest n :
  reads (ReadFieldBegin P) (wf_stop F base) (stop_type base, sid) -> Forall field_fine p ->
  (forall fuel, (n <= fuel)%nat -> reads (ReadUnknownFields P fuel (stop_type base)) rest tt) ->
  forall fuel, (n + length p <= fuel)%nat ->
  reads (ReadUnknownFields P fuel (fst (tag_of base sid p))) (tail_bytes base p ++ rest) tt.
Proof.
  intros Hs Hf Hrest. induction Hf as [|[id v] p (Hid & Hv & Ho & Hl) Hf IH]; intros fuel Hn.
  - apply Hrest. simpl in Hn. lia.
  - destruct fuel as [|fuel]; [simpl in Hn; lia|]. cbn [tag_of fst snd tail_bytes ReadUnknownFields] in *.
    pose proof (type_of_range v).
    replace (type_of v =? BT_STOP) with false by (unfold BT_STOP; by zbool).
    replace (type_of v =? BT_STOP_BASE) with false by (unfold BT_STOP_BASE; by zbool).
    rewrite <-app_assoc. eapply reads_bind; [by apply (rl_skip _ _ laws)|].
    rewrite all_bytes_split, <-app_assoc. eapply reads_bind; [apply next_tag; [done|by apply fine_ids]|].
    apply IH. simpl in Hn. lia.
Qed.

Lemma all_bytes_pos base p : (length p < length (all_bytes base p))%nat.
Proof.
  induction p as [|[id v] p IH]; cbn [all_bytes length]; [apply (rl_stop_pos _ _ laws)|].
  rewrite !length_app. pose proof (rl_field_pos _ _ laws (type_of v) id). lia.
Qed.

Lemma unknown_levels outer : Forall (Forall field_fine) outer ->
  forall fuel, (length (levels_bytes false outer) < fuel)%nat ->
  reads (ReadUnknownFields P fuel (if outer then BT_STOP else BT_STOP_BASE))
    (levels_bytes false outer) tt.
Proof.
  induction 1 as [|p outer Hp Hf IH]; intros fuel Hl.
  - destruct fuel as [|fuel]; [lia|]. apply reads_ret.
  - cbn [levels_bytes] in *. set (base := if outer then false else true) in *.
    destruct fuel as [|fuel]; [lia|]. cbn [ReadUnknownFields].
    change (BT_STOP_BASE =? BT_STOP) with false. change (BT_STOP_BASE =? BT_STOP_BASE) with true.
    cbv iota. eapply reads_bind_nil; [apply reads_ret|].
    destruct (rl_stop _ _ laws base) as [sid Hs].
    rewrite length_app in Hl. pose proof (all_bytes_pos base p).
    rewrite all_bytes_split, <-app_assoc. eapply reads_bind; [apply next_tag; [done|by apply fine_ids]|].
    apply (unknown_fields base sid p _ (S (length (levels_bytes false outer)))); [done|done| |lia].
    intros fuel' Hfuel'. pose proof (IH fuel' Hfuel') as IH'. subst base.
    destruct outer; exact IH'.
Qed.

(** What [DynamicReadFields] does after the loop. *)
Lemma after_loop base outer (l : to_level) : Forall (Forall field_fine) outer ->
  (base = true -> outer = []) ->
  reads (let! done :=
    if negb base then
      with_fuel 0 (fun fuel => ReadUnknownFields P fuel (stop_type (stops_base base outer))) ;;;
      ret false
    else ret (stop_type (stops_base base outer) =? BT_STOP) in
    ReadFieldEnd P ;;; ret (l, done)) (levels_bytes false outer) (l, false).
Proof.
  intros Hf Hb. rewrite <-(app_nil_r (levels_bytes _ _)). eapply (reads_bind _ _ _ _ false).
  - destruct base; cbn [negb].
    + rewrite (Hb eq_refl). apply reads_ret.
    + apply (reads_map _ (fun _ => false) _ tt), with_fuel_reads. intros fuel Hfuel.
      pose proof (unknown_levels outer Hf fuel ltac:(lia)) as Hu. destruct outer; exact Hu.
  - eapply reads_bind_nil; [apply (rl_field_end _ _ laws)|apply reads_ret].
Qed.

Lemma DynamicReadFields_reads base outer bs p vars news :
  increasing (-1) (ids_of bs) -> increasing (-1) (fst <$> p) -> Forall field_fine p ->
  Forall bound_ok bs -> read_fields (spec_of <$> bs) vars p = Some news ->
  Forall (Forall field_fine) outer -> (base = true -> outer = []) ->
  reads (DynamicReadFields P base (fst <$> bs) (level_of bs vars))
    (all_bytes (stops_base base outer) p ++ levels_bytes false outer) (level_of [] news, false).
Proof.
  intros Hb Hp Hf Hok Hn Ho Hbo. set (pbase := stops_base base outer).
  destruct (rl_stop _ _ laws pbase) as [sid Hs].
  unfold DynamicReadFields. rewrite all_bytes_split, <-app_assoc.
  eapply (reads_bind _ _ _ _ (tag_of pbase sid p)); [apply first_tag; [done|by apply fine_ids]|].
  eapply (reads_bind _ _ _ _ (stop_type pbase, level_of [] news)).
  { apply with_fuel_reads. intros fuel Hfuel.
    apply (loop_correct pbase sid Hs fuel [] bs (-1) p [] vars news); try done.
    rewrite length_fmap in Hfuel. pose proof (tail_bytes_length pbase p). lia. }
  by apply after_loop.
Qed.

(** ** The fields that are present *)

Lemma present_bytes base fields :
  fields_bytes F fields ++ wf_stop F base = all_bytes base (present_fields F fields).
Proof.
  unfold present_fields. induction fields as [|[[id m] v] fields IH]; [done|].
  rewrite filter_cons. unfold fields_bytes in *. rewrite fmap_cons. cbn [concat].
  unfold field_bytes at 1. destruct (omitted F (id, m, v)) eqn:E.
  - rewrite decide_False by done. exact IH.
  - rewrite decide_True by done. rewrite fmap_cons. cbn [fst snd all_bytes].
    rewrite <-IH, <-!app_assoc. done.
Qed.

Lemma present_increasing lo fields : increasing lo ((fun f => fst (fst f)) <$> fields) ->
  increasing lo (fst <$> present_fields F fields).
Proof.
  unfold present_fields. revert lo. induction fields as [|[[id m] v] fields IH]; intros lo Hi;
    [done|].
  rewrite fmap_cons in Hi. destruct Hi as [Hid Hi]. rewrite filter_cons.
  destruct (decide _).
  - rewrite !fmap_cons. split; [done|]. by apply IH.
  - apply IH. eapply increasing_weaken; [|exact Hi]. simpl. simpl in Hid. lia.
Qed.

Lemma present_fine fields :
  Forall (fun f => fits 16 (fst (fst f)) /\ value_ok (snd f)) fields ->
  Forall (fun f => ordered (snd f)) fields -> zlen (fields_bytes F fields) < 2 ^ 32 ->
  Forall field_fine (present_fields F fields).
Proof.
  intros Hv Ho Hl. unfold present_fields. rewrite Forall_fmap. rewrite Forall_forall in *.
  intros f Hin. apply list_elem_of_In, list_elem_of_filter in Hin as [Hf Hin].
  pose proof (fields_fit (field_bytes F) fields _ f Hl Hin) as Hlen.
  apply list_elem_of_In in Hin. destruct (Hv f Hin) as [Hid Hok].
  split_and!; [done|done|by apply Ho|]. unfold field_bytes in Hlen. rewrite Hf, length_app in Hlen.
  cbn [snd]. lia.
Qed.

(** ** The levels of an object *)

Fixpoint outer_levels (k : nat) (v : value) : list (list (Z * value)) :=
  match k, v with
  | S k', VStruct (Some b) fields => outer_levels k' b ++ [present_fields F fields]
  | _, _ => []
  end.

Lemma levels_bytes_snoc base outer p :
  levels_bytes base (outer ++ [p]) = levels_bytes true outer ++ all_bytes base p.
Proof.
  induction outer as [|q outer IH]; cbn [app levels_bytes]; [by rewrite app_nil_r|].
  rewrite IH, <-app_assoc. by destruct outer.
Qed.

(** What is assumed of an object that is written as a base. *)
Definition base_fine (v : value) : Prop :=
  value_ok v /\ ordered v /\ zlen (encode F true v) < 2 ^ 32.

Lemma base_fine_struct b fields : base_fine (VStruct b fields) ->
  (forall bv, b = Some bv -> base_fine bv) /\ Forall field_fine (present_fields F fields).
Proof.
  intros ((Hb & Hv) & (Hob & _ & Ho) & Hl). apply all_Forall in Hv, Ho.
  rewrite encode_struct in Hl. unfold body_of in Hl. rewrite !length_app in Hl. split.
  - intros bv ->. destruct Hb as [_ Hb]. split_and!; [done..|lia].
  - apply present_fine; [done..|lia].
Qed.

(** The payload of a hierarchy: its first levels as a base, then the others. *)
Lemma outer_encode k : forall v, base_fine v -> (k < value_levels v)%nat ->
  encode F true v = encode F true (strip k v) ++ levels_bytes true (outer_levels k v) /\
  base_fine (strip k v) /\ Forall (Forall field_fine) (outer_levels k v).
Proof.
  induction k as [|k IH]; intros v Hv Hk.
  { cbn [strip outer_levels levels_bytes]. rewrite app_nil_r. by split_and!. }
  destruct v as [|[b|] fields| |]; cbn [value_levels strip outer_levels] in *; try lia.
  destruct (base_fine_struct _ _ Hv) as [Hb Hf].
  destruct (IH b (Hb b eq_refl) ltac:(lia)) as (E & Hc & Ho). split_and!; [|done|].
  - rewrite levels_bytes_snoc, app_assoc, <-E, encode_struct. unfold body_of.
    by rewrite present_bytes.
  - apply Forall_app. split; [done|]. by constructor.
Qed.

(** One level of an object whose payload is within range. *)
Definition level_fine (b : option value) (fields : list (Z * Metadata * value)) : Prop :=
  value_ok (VStruct b fields) /\ ordered (VStruct b fields) /\
  (forall bv, b = Some bv -> zlen (encode F true bv) < 2 ^ 32) /\
  zlen (fields_bytes F fields) < 2 ^ 32.

Lemma body_level_fine base b fields : value_ok (VStruct b fields) -> ordered (VStruct b fields) ->
  zlen (body_of F base b fields) < 2 ^ 32 -> level_fine b fields.
Proof.
  intros Hv Ho Hl. unfold body_of in Hl. rewrite !length_app in Hl.
  split_and!; [done..| |lia]. intros bv ->. lia.
Qed.

Lemma level_fine_parts b fields : level_fine b fields ->
  (forall bv, b = Some bv -> base_fine bv) /\ Forall field_fine (present_fields F fields).
Proof.
  intros ((Hb & Hv) & (Hob & _ & Ho) & Hlb & Hl). apply all_Forall in Hv, Ho. split.
  - intros bv ->. destruct Hb as [_ Hb]. split_and!; [done..|by apply Hlb].
  - by apply present_fine.
Qed.

(** The body of an object read with [n] levels: the level that is read last, with its
    base, then the levels that are skipped. *)
Lemma body_at_levels base n b fields : (0 < n)%nat ->
  value_ok (VStruct b fields) -> ordered (VStruct b fields) ->
  zlen (body_of F base b fields) < 2 ^ 32 ->
  (base = true -> (value_levels (VStruct b fields) <= n)%nat) ->
  exists bv vfs outer, at_levels n (VStruct b fields) = VStruct bv vfs /\
    body_of F base b fields =
      body_of F (stops_base base outer) bv vfs ++ levels_bytes false outer /\
    level_fine bv vfs /\ Forall (Forall field_fine) outer /\ (base = true -> outer = []).
Proof.
  intros Hn Hv Ho Hl Hbase. pose proof (body_level_fine _ _ _ Hv Ho Hl) as Hf.
  destruct (le_lt_dec (value_levels (VStruct b fields)) n) as [Hle|Hlt].
  { rewrite at_levels_id by done. exists b, fields, []. unfold stops_base. rewrite orb_false_r.
    cbn [levels_bytes]. rewrite app_nil_r. by split_and!. }
  assert (base = false) as -> by (destruct base; [lia|done]). clear Hbase.
  destruct b as [b|]; [|cbn in Hlt; lia].
  destruct (level_fine_parts _ _ Hf) as [Hb Hp]. unfold at_levels.
  set (k := (value_levels (VStruct (Some b) fields) - n)%nat).
  assert (Hk : exists k', k = S k' /\ (k' < value_levels b)%nat).
  { exists (pred k). subst k. cbn [value_levels] in *. lia. }
  destruct Hk as (k' & -> & Hk'). cbn [strip].
  destruct (outer_encode k' b (Hb b eq_refl) Hk') as (E & Hc & Hout).
  assert (Hcore : value_levels (strip k' b) <> 0%nat) by (rewrite strip_levels by done; lia).
  destruct (strip k' b) as [|bv vfs| |]; try done.
  exists bv, vfs, (outer_levels k' b ++ [present_fields F fields]). split_and!; [done| | | |done].
  - unfold body_of at 1. rewrite E, present_bytes, levels_bytes_snoc, <-!app_assoc.
    rewrite encode_struct. unfold stops_base. by destruct (outer_levels k' b).
  - destruct Hc as (? & ? & Hlc). rewrite encode_struct in Hlc. by eapply body_level_fine.
  - apply Forall_app. split; [done|]. by constructor.
Qed.

(** ** Containers *)

Lemma deserialize_each_reads (read : value -> M R value) (f : value -> value -> option value)
    (g : value -> list byte) cs xs ys :
  length cs = length xs -> mapM_option (fun '(c, x) => f c x) (zip cs xs) = Some ys ->
  (forall c x y, x ∈ xs -> f c x = Some y -> reads (read c) (g x) y) ->
  reads (deserialize_each read cs) (concat (g <$> xs)) ys.
Proof.
  revert cs ys. induction xs as [|x xs IH]; intros [|c cs] ys Hl Hm Hf; try done.
  - injection Hm as <-. apply reads_ret.
  - cbn [zip zip_with] in Hm. cbn [mapM_option] in Hm.
    destruct (f c x) as [y|] eqn:Hx; [|done].
    change ((fix go l := match l with
              | [] => Some []
              | x0 :: l' => match (let '(c0, x1) := x0 in f c0 x1), go l' with
                           | Some y0, Some ys0 => Some (y0 :: ys0)
                           | _, _ => None
                           end
              end) (zip cs xs)) with (mapM_option (fun '(c, x) => f c x) (zip cs xs)) in Hm.
    destruct (mapM_option _ (zip cs xs)) as [ys'|] eqn:Hr; simplify_eq.
    rewrite fmap_cons. cbn [concat deserialize_each].
    eapply reads_bind; [eapply Hf; [left|exact Hx]|].
    apply (reads_map _ (cons y)). apply (IH cs); [simpl in Hl; lia|done|].
    intros c' x' y' Hin. apply Hf. by right.
Qed.

Lemma length_resize items n fresh : length (resize_list items n fresh) = n.
Proof. unfold resize_list. rewrite length_app, length_take, length_replicate. lia. Qed.

Definition set_step (e : ftype) (acc : option (list value)) (x : value) : option (list value) :=
  match acc, read_as F e (default_object e) x with
  | Some l, Some (VBasic s) => Some (set_insert l s)
  | _, _ => None
  end.

Lemma set_step_none e xs : foldl (set_step e) None xs = None.
Proof. by induction xs. Qed.

Lemma insert_each_reads (read : M R scalar) e (g : value -> list byte) xs acc ys :
  foldl (set_step e) (Some acc) xs = Some ys ->
  (forall x s, x ∈ xs -> read_as F e (default_object e) x = Some (VBasic s) ->
    reads read (g x) s) ->
  reads (insert_each read acc (length xs)) (concat (g <$> xs)) ys.
Proof.
  revert acc. induction xs as [|x xs IH]; intros acc Hm Hf; cbn [foldl length] in *.
  - injection Hm as <-. apply reads_ret.
  - unfold set_step at 2 in Hm.
    destruct (read_as F e (default_object e) x) as [[s| | |]|] eqn:Hx;
      try (rewrite set_step_none in Hm; done).
    rewrite fmap_cons. cbn [concat insert_each].
    eapply reads_bind; [eapply Hf; [left|exact Hx]|]. apply IH; [done|].
    intros x' s' Hin. apply Hf. by right.
Qed.

Definition map_step (kt : btype) (vt : ftype) (acc : option (list (value * value)))
    (kv : value * value) : option (list (value * value)) :=
  match acc, fst kv with
  | Some l, VBasic s =>
      if is_matching_basic (btype_of s) kt then
        let k := set_as kt s in
        match read_as F vt (mapped_at l k (default_object vt)) (snd kv) with
        | Some x => Some (mapped_set l k x)
        | None => None
        end
      else None
  | _, _ => None
  end.

Lemma map_step_none kt vt xs : foldl (map_step kt vt) None xs = None.
Proof. by induction xs. Qed.

Lemma map_each_reads key read kt vt g h xs acc ys :
  foldl (map_step kt vt) (Some acc) xs = Some ys ->
  (forall x s, x ∈ xs -> fst x = VBasic s -> reads key (g (fst x)) (set_as kt s)) ->
  (forall x c y, x ∈ xs -> read_as F vt c (snd x) = Some y -> reads (read c) (h (snd x)) y) ->
  reads (map_each (R := R) key read (default_object vt) acc (length xs))
    (concat ((fun x => g (fst x) ++ h (snd x)) <$> xs)) ys.
Proof.
  revert acc. induction xs as [|x xs IH]; intros acc Hm Hk Hv; cbn [foldl length] in *.
  - injection Hm as <-. apply reads_ret.
  - unfold map_step at 2 in Hm. destruct (fst x) as [s| | |] eqn:Hx;
      try (rewrite map_step_none in Hm; done).
    destruct (is_matching_basic (btype_of s) kt);
      [|rewrite map_step_none in Hm; done]. cbv zeta in Hm.
    destruct (read_as F vt _ (snd x)) as [y|] eqn:Hy; [|rewrite map_step_none in Hm; done].
    rewrite fmap_cons. cbn [concat map_each]. rewrite <-app_assoc.
    eapply reads_bind; [eapply Hk; [left|exact Hx]|].
    eapply reads_bind; [eapply Hv; [left|exact Hy]|]. apply IH; [done| |].
    + intros x' s' Hin. apply Hk. by right.
    + intros x' c' y' Hin. apply Hv. by right.
Qed.

(** Elements that do not match are skipped. *)
Lemma SkipElements_reads t items : zlen items < 2 ^ 32 ->
  (forall x, x ∈ items -> type_of x = t /\ value_ok x /\ zlen (encode F false x) < 2 ^ 32) ->
  reads (SkipElements P t (zlen items)) (concat (encode F false <$> items)) tt.
Proof.
  intros Hn Ht. unfold SkipElements. rewrite Nat2Z.id, <-(length_fmap (encode F false)).
  apply reads_repeatM. intros bs (x & -> & Hin)%list_elem_of_fmap.
  destruct (Ht x Hin) as (<- & Hv & Hl). by apply (rl_skip _ _ laws).
Qed.

Lemma SkipMapElements_reads kt vt items : zlen items < 2 ^ 32 ->
  (forall x, x ∈ items ->
    (type_of (fst x) = kt /\ value_ok (fst x) /\ zlen (encode F false (fst x)) < 2 ^ 32) /\
    (type_of (snd x) = vt /\ value_ok (snd x) /\ zlen (encode F false (snd x)) < 2 ^ 32)) ->
  reads (SkipMapElements P (kt, vt) (zlen items))
    (concat ((fun kv => encode F false (fst kv) ++ encode F false (snd kv)) <$> items)) tt.
Proof.
  intros Hn Ht. unfold SkipMapElements. cbn [fst snd].
  rewrite Nat2Z.id, <-(length_fmap (fun kv => encode F false (fst kv) ++ encode F false (snd kv))).
  apply reads_repeatM. intros bs (x & -> & Hin)%list_elem_of_fmap.
  destruct (Ht x Hin) as [(<- & Hv & Hl) (<- & Hv' & Hl')].
  eapply reads_bind; by apply (rl_skip _ _ laws).
Qed.

(** What is assumed of a value in a payload. *)
Definition fine (v : value) : Prop :=
  value_ok v /\ ordered v /\ zlen (encode F false v) < 2 ^ 32.

Lemma key_reader_reads x type : accepts (FBasic x) type = true ->
  exists key, key_reader P x type = Some key /\
    forall s, get_type_id (btype_of s) = type -> scalar_ok s ->
      reads key (wf_scalar F s) (set_as x s).
Proof.
  rewrite accepts_basic_iff. unfold key_reader. intros Ha.
  destruct (basic_type_of_id type) as [u|] eqn:Hu; [|done]. rewrite Ha.
  eexists. split; [done|]. intros s <- Hs. rewrite type_id_roundtrip in Hu.
  injection Hu as <-. apply (reads_map _ (set_as x)), (rl_read _ _ laws _ Hs).
Qed.

Lemma key_reader_none x type : accepts (FBasic x) type = false -> key_reader P x type = None.
Proof.
  rewrite accepts_basic_iff. unfold key_reader. intros Ha.
  destruct (basic_type_of_id type); [by rewrite Ha|done].
Qed.

(** [exact] reads the values of type [t] that have the property [Q]. *)
Definition exact_on (Q : value -> Prop) (t : ftype) (exact : value -> M R value) : Prop :=
  forall c x y, read_as F t c x = Some y -> type_of x = field_type_id t -> fine x -> Q x ->
    reads (exact c) (encode F false x) y.
Definition exact_ok : ftype -> (value -> M R value) -> Prop := exact_on (fun _ => True).

Lemma element_reader_reads Q t type exact : exact_on Q t exact -> accepts t type = true ->
  exists read, element_reader P t type exact = Some read /\
    forall c x y, type_of x = type -> fine x -> Q x -> read_as F t c x = Some y ->
      reads (read c) (encode F false x) y.
Proof.
  intros Hex Ha. destruct t as [b|base fields|k e|kt vt].
  - rewrite accepts_basic_iff in Ha. cbn [element_reader].
    destruct (basic_type_of_id type) as [u|] eqn:Hu; [|done]. rewrite Ha.
    eexists. split; [done|]. intros c x y <- (Hv & _) _ Hr.
    destruct (basic_of_type _ _ Hu) as (s & -> & <-). cbn [read_as] in Hr.
    rewrite Ha in Hr. injection Hr as <-. by apply DeserializeBasic_reads.
  - unfold accepts in Ha. cbn [accepts_basic] in Ha. rewrite orb_false_r, Z.eqb_sym in Ha.
    cbn [element_reader]. rewrite Ha. exists exact. split; [done|]. apply Z.eqb_eq in Ha.
    intros c x y <- Hf HQ Hr. by apply Hex.
  - unfold accepts in Ha. cbn [accepts_basic] in Ha. rewrite orb_false_r, Z.eqb_sym in Ha.
    cbn [element_reader]. rewrite Ha. exists exact. split; [done|]. apply Z.eqb_eq in Ha.
    intros c x y <- Hf HQ Hr. by apply Hex.
  - unfold accepts in Ha. cbn [accepts_basic] in Ha. rewrite orb_false_r, Z.eqb_sym in Ha.
    cbn [element_reader]. rewrite Ha. exists exact. split; [done|]. apply Z.eqb_eq in Ha.
    intros c x y <- Hf HQ Hr. by apply Hex.
Qed.

Lemma element_reader_none t type exact : accepts t type = false ->
  element_reader P t type exact = None.
Proof.
  destruct t; [|unfold accepts; cbn [accepts_basic]; rewrite orb_false_r, Z.eqb_sym;
    by cbn [element_reader]; intros ->..].
  rewrite accepts_basic_iff. cbn [element_reader]. intros Ha.
  destruct (basic_type_of_id type); [by rewrite Ha|done].
Qed.

Definition all_fine (t : BondDataType) (items : list value) : Prop :=
  forall x, x ∈ items -> type_of x = t /\ fine x.

(** The elements of a list or set that is accepted. *)
Lemma container_body_reads Q is_set e exact k et pk pt items pitems r :
  exact_on Q e exact -> (is_set = true -> exists b, e = FBasic b) ->
  zlen pitems < 2 ^ 32 -> all_fine pt pitems -> (forall x, x ∈ pitems -> Q x) ->
  read_as F (FList is_set e) (VList k et items) (VList pk pt pitems) = Some r ->
  exists items', r = VList k et items' /\
    reads (if is_set then match e with
           | FBasic x => match key_reader P x pt with
             | Some read => DeserializeSet read (zlen pitems)
             | None => SkipElements P pt (zlen pitems) ;;; ret items end
           | _ => SkipElements P pt (zlen pitems) ;;; ret items end
          else match element_reader P e pt exact with
             | Some read => DeserializeList read (default_object e) items (zlen pitems)
             | None => SkipElements P pt (zlen pitems) ;;; ret items end)
      (concat (encode F false <$> pitems)) items'.
Proof.
  intros Hex Hs Hn Hall HQ Hr. cbn [read_as] in Hr.
  assert (Hskip : reads (SkipElements P pt (zlen pitems) ;;; ret items)
    (concat (encode F false <$> pitems)) items).
  { apply (reads_map _ (fun _ : unit => items) _ tt), SkipElements_reads; [done|].
    intros x Hx. destruct (Hall x Hx) as [Ht (Hv & _ & Hl)]. done. }
  destruct (accepts e pt) eqn:Ha.
  2:{ injection Hr as <-. exists items. split; [done|]. destruct is_set.
      - destruct (Hs eq_refl) as [b ->]. by rewrite key_reader_none.
      - by rewrite element_reader_none. }
  destruct is_set.
  - destruct (Hs eq_refl) as [b ->]. destruct (key_reader_reads b pt Ha) as (key & -> & Hk).
    change (foldl _ (Some []) pitems) with (foldl (set_step (FBasic b)) (Some []) pitems) in Hr.
    destruct (foldl (set_step (FBasic b)) (Some []) pitems) as [ys|] eqn:Hy; [|done].
    injection Hr as <-. exists ys. split; [done|]. unfold DeserializeSet. rewrite Nat2Z.id.
    eapply insert_each_reads; [exact Hy|]. intros x s Hx Hxs.
    destruct (Hall x Hx) as [Ht (Hv & _)]. destruct x as [sx| | |]; try discriminate Hxs.
    cbn [read_as] in Hxs. destruct (is_matching_basic _ b); [|done].
    injection Hxs as <-. by apply Hk.
  - destruct (element_reader_reads Q e pt exact Hex Ha) as (read & -> & Hread).
    destruct (mapM_option _ _) as [ys|] eqn:Hy; [|done]. injection Hr as <-.
    exists ys. split; [done|]. unfold DeserializeList. rewrite Nat2Z.id.
    eapply (deserialize_each_reads _ (read_as F e)); [apply length_resize|exact Hy|].
    intros c x y Hx. destruct (Hall x Hx). by apply Hread; [..|apply HQ].
Qed.

(** A container between its header and its end. *)
Lemma list_reads t0 (m : Z * BondDataType -> M R (list value)) n pt bs items' :
  n < 2 ^ 32 -> 0 <= n -> fits 5 pt -> reads (m (n, pt)) bs items' ->
  reads (let! h := ReadContainerBegin P t0 in
         let! items' := m h in ReadContainerEnd P ;;; ret items') (wf_list F n pt ++ bs) items'.
Proof.
  intros Hn H0 Hpt Hm. eapply reads_bind; [apply (rl_list _ _ laws); [by split|done]|].
  rewrite <-(app_nil_r bs). eapply reads_bind; [exact Hm|].
  eapply reads_bind_nil; [apply (rl_container_end _ _ laws)|apply reads_ret].
Qed.

Lemma DeserializeContainer_reads Q is_set e exact k et pk pt items pitems r :
  exact_on Q e exact -> (is_set = true -> exists b, e = FBasic b) ->
  fits 5 pt -> zlen pitems < 2 ^ 32 -> all_fine pt pitems -> (forall x, x ∈ pitems -> Q x) ->
  read_as F (FList is_set e) (VList k et items) (VList pk pt pitems) = Some r ->
  exists items', r = VList k et items' /\
    reads (DeserializeContainer P is_set e exact items)
      (wf_list F (zlen pitems) pt ++ concat (encode F false <$> pitems)) items'.
Proof.
  intros Hex Hs Hpt Hn Hall HQ Hr.
  destruct (container_body_reads _ _ _ _ _ _ _ _ _ _ _ Hex Hs Hn Hall HQ Hr) as (items' & -> & Hi).
  exists items'. split; [done|]. unfold DeserializeContainer.
  apply (list_reads _ (fun h => _)); [done|lia|done|exact Hi].
Qed.

Definition pairs_fine (pk pv : BondDataType) (items : list (value * value)) : Prop :=
  forall x, x ∈ items -> (type_of (fst x) = pk /\ fine (fst x)) /\
    (type_of (snd x) = pv /\ fine (snd x)).

Definition pair_bytes (kv : value * value) : list byte :=
  encode F false (fst kv) ++ encode F false (snd kv).

Lemma map_body_reads Q kt vt exact k v items pk pv pitems r :
  exact_on Q vt exact -> zlen pitems < 2 ^ 32 -> pairs_fine pk pv pitems ->
  (forall x, x ∈ pitems -> Q (snd x)) ->
  read_as F (FMap kt vt) (VMap k v items) (VMap pk pv pitems) = Some r ->
  exists items', r = VMap k v items' /\
    reads (match element_reader P vt pv exact with
           | Some read =>
               match key_reader P kt pk with
               | Some key => DeserializeMapElements key read (default_object vt) (zlen pitems)
               | None => SkipMapElements P (pk, pv) (zlen pitems) ;;; ret items
               end
           | None => SkipMapElements P (pk, pv) (zlen pitems) ;;; ret items
           end) (concat (pair_bytes <$> pitems)) items'.
Proof.
  intros Hex Hn Hall HQ Hr. cbn [read_as] in Hr.
  assert (Hskip : reads (SkipMapElements P (pk, pv) (zlen pitems) ;;; ret items)
    (concat (pair_bytes <$> pitems)) items).
  { apply (reads_map _ (fun _ : unit => items) _ tt), SkipMapElements_reads; [done|].
    intros x Hx. destruct (Hall x Hx) as [[H1 (V1 & _ & L1)] [H2 (V2 & _ & L2)]]. done. }
  destruct (accepts vt pv) eqn:Hv.
  2: { rewrite andb_false_r in Hr. injection Hr as <-. exists items. split; [done|].
       by rewrite element_reader_none. }
  destruct (element_reader_reads Q vt pv exact Hex Hv) as (read & -> & Hread).
  destruct (accepts (FBasic kt) pk) eqn:Hk; cbn [andb] in Hr.
  2: { injection Hr as <-. exists items. split; [done|]. by rewrite key_reader_none. }
  destruct (key_reader_reads kt pk Hk) as (key & -> & Hkey).
  change (foldl _ (Some []) pitems) with (foldl (map_step kt vt) (Some []) pitems) in Hr.
  destruct (foldl (map_step kt vt) (Some []) pitems) as [ys|] eqn:Hy; [|done].
  injection Hr as <-. exists ys. split; [done|]. unfold DeserializeMapElements.
  rewrite Nat2Z.id. apply (map_each_reads _ _ _ _ _ (encode F false) _ _ _ Hy).
  - intros x s Hx Hxs. destruct (Hall x Hx) as [[Ht (V & _)] _]. rewrite Hxs in *.
    by apply Hkey.
  - intros x c y Hx Hxy. destruct (Hall x Hx) as [_ [Ht Hf]]. by apply Hread; [..|apply HQ|].
Qed.

Lemma map_reads t0 (m : Z * (BondDataType * BondDataType) -> M R (list (value * value)))
    n pk pv bs items' :
  n < 2 ^ 32 -> 0 <= n -> fits 5 pk -> fits 5 pv -> reads (m (n, (pk, pv))) bs items' ->
  reads (let! h := ReadMapBegin P t0 in
         let! items' := m h in ReadContainerEnd P ;;; ret items') (wf_map F n (pk, pv) ++ bs) items'.
Proof.
  intros Hn H0 Hpk Hpv Hm. eapply reads_bind; [apply (rl_map _ _ laws); [by split|done..]|].
  rewrite <-(app_nil_r bs). eapply reads_bind; [exact Hm|].
  eapply reads_bind_nil; [apply (rl_container_end _ _ laws)|apply reads_ret].
Qed.

Lemma DeserializeMap_reads Q kt vt exact k v items pk pv pitems r :
  exact_on Q vt exact -> fits 5 pk -> fits 5 pv -> zlen pitems < 2 ^ 32 ->
  pairs_fine pk pv pitems -> (forall x, x ∈ pitems -> Q (snd x)) ->
  read_as F (FMap kt vt) (VMap k v items) (VMap pk pv pitems) = Some r ->
  exists items', r = VMap k v items' /\
    reads (DeserializeMap P kt vt exact items)
      (wf_map F (zlen pitems) (pk, pv) ++ concat (pair_bytes <$> pitems)) items'.
Proof.
  intros Hex Hpk Hpv Hn Hall HQ Hr.
  destruct (map_body_reads _ _ _ _ _ _ _ _ _ _ _ Hex Hn Hall HQ Hr) as (items' & -> & Hi).
  exists items'. split; [done|]. unfold DeserializeMap.
  apply (map_reads _ (fun h => _)); [done|lia|done..|exact Hi].
Qed.

(** ** Objects *)

(** [t] is parsed as specified, whatever the variable and the payload. *)
Definition parses (t : ftype) : Prop := forall base var v r,
  type_ok t -> (base = true -> (value_levels v <= type_levels t)%nat) -> read_as F t var v = Some r -> value_ok v -> ordered v ->
  zlen (encode F base v) < 2 ^ 32 -> type_of v = field_type_id t ->
  reads (Parse P base t var) (encode F base v) (r, false).

Lemma parses_exact t : parses t -> type_ok t ->
  exact_ok t (fun x => let! r := Parse P false t x in ret (fst r)).
Proof.
  intros Hp Ht c x y Hr Hty (Hv & Ho & Hl) _. apply (reads_map _ fst _ (y, false)). by apply Hp.
Qed.

(** The fields of a struct with their specification. *)
Definition bounds (fs : list (Z * Metadata * ftype)) : list bound :=
  (fun f => (mkBF (fst (fst f)) (snd (fst f)) (snd f)
               (fun x => let! r := Parse P false (snd f) x in ret (fst r)),
             read_as F (snd f))) <$> fs.

Lemma bounds_fields fs : fst <$> bounds fs = (fun f => mkBF (fst (fst f)) (snd (fst f)) (snd f)
  (fun x => let! r := Parse P false (snd f) x in ret (fst r))) <$> fs.
Proof. unfold bounds. by rewrite <-list_fmap_compose. Qed.

Lemma bounds_specs fs : spec_of <$> bounds fs = (fun f => (f, read_as F (snd f))) <$> fs.
Proof.
  unfold bounds. rewrite <-list_fmap_compose. apply list_fmap_ext. intros _ [[id m] t] _. done.
Qed.

Lemma bounds_ids fs : ids_of (bounds fs) = (fun f => fst (fst f)) <$> fs.
Proof. unfold ids_of, bounds. by rewrite <-list_fmap_compose. Qed.

Lemma bounds_ok fs : Forall (fun f => parses (snd f)) fs -> Forall (fun f => type_ok (snd f)) fs ->
  Forall bound_ok (bounds fs).
Proof.
  intros Hp Ht. unfold bounds. rewrite Forall_fmap. rewrite Forall_forall in *. intros f Hf.
  split; cbn [fst snd bf_read bf_type].
  - intros var v r Hr Hty Hv Ho Hl. by apply (parses_exact _ (Hp f Hf) (Ht f Hf)).
  - intros x var v r -> Hr. destruct v as [s| | |]; try discriminate Hr. cbn [read_as] in Hr.
    destruct (is_matching_basic _ x) eqn:E; [|done]. injection Hr as <-. by exists s.
Qed.

Lemma struct_begins {A} base L bs (m : M R A) r : fits 32 L ->
  reads m bs r ->
  reads (ReadStructBegin P base ;;; m) (if base then bs else wf_prefix F L ++ bs) r.
Proof.
  intros HL Hm. pose proof (rl_begin _ _ laws base L HL) as Hb.
  destruct base; [by eapply reads_bind_nil|by eapply reads_bind].
Qed.

(** The fields and the end of a struct, its base [b] being read. *)
Lemma struct_ends base outer fs vars bv vfs news b :
  Forall (fun f => parses (snd f)) fs -> Forall (fun f => type_ok (snd f)) fs ->
  increasing (-1) ((fun f => fst (fst f)) <$> fs) -> level_fine bv vfs ->
  Forall (Forall field_fine) outer -> (base = true -> outer = []) ->
  read_fields ((fun f => (f, read_as F (snd f))) <$> fs) vars (present_fields F vfs) = Some news ->
  let fields := (fun f => mkBF (fst (fst f)) (snd (fst f)) (snd f)
    (fun x => let! r := Parse P false (snd f) x in ret (fst r))) <$> fs in
  reads (let! r := (if uses_static_parser P
                    then StaticReadFields fields 0 fields (mkTo (next_required_field fields 0) vars)
                    else DynamicReadFields P base fields
                           (mkTo (next_required_field fields 0) vars)) in
         To_End fields (fst r) ;;;
         ReadStructEnd P base ;;;
         ret (VStruct b (zip (fst <$> fs) (to_vars (fst r))), snd r))
    ((fields_bytes F vfs ++ wf_stop F (stops_base base outer)) ++ levels_bytes false outer)
    (VStruct b (zip (fst <$> fs) news), false).
Proof.
  intros Hp Ht Hfs Hlevel Hout Hbo Hn fields. subst fields.
  destruct (level_fine_parts _ _ Hlevel) as [_ Hf]. destruct Hlevel as (_ & (_ & Hvfs & _) & _).
  rewrite (rl_dynamic _ _ laws), present_bytes, <-bounds_fields.
  rewrite <-(app_nil_r (_ ++ levels_bytes _ _)).
  eapply (reads_bind _ _ _ _ (level_of [] news, false)).
  - apply DynamicReadFields_reads; [by rewrite bounds_ids|by apply present_increasing|
      done|by apply bounds_ok|by rewrite bounds_specs|done|done].
  - cbn [fst snd level_of to_vars]. eapply (reads_bind_nil _ _ _ tt).
    + unfold To_End, level_of. cbn [to_required fmap list_fmap next_required_field].
      rewrite Z.eqb_refl. cbn [negb]. rewrite andb_false_r. apply reads_ret.
    + eapply reads_bind_nil; [apply (rl_end _ _ laws)|apply reads_ret].
Qed.

(** The base of a level, the payload having a base exactly if the class has one. *)
Lemma base_reads bt fs bvar bv vfs b : (forall b, bt = Some b -> parses b) ->
  (forall t, bt = Some t -> field_type_id t = BT_STRUCT /\ type_ok t) -> level_fine bv vfs ->
  (value_levels (VStruct bv vfs) <= type_levels (FStruct bt fs))%nat ->
  (match bt, bvar, bv with
   | None, None, None => Some None
   | Some bt', Some bvar', Some bv' => Some <$> read_as F bt' bvar' bv'
   | _, _, _ => None
   end) = Some b ->
  reads (match bt, bvar with
         | Some bt', Some bvar0 =>
             let! r := Parse P true bt' bvar0 in
             if (snd r : bool) then throw CoreException else ret (Some (fst r))
         | _, _ => ret bvar
         end) (match bv with None => [] | Some bv => encode F true bv end) b.
Proof.
  intros Hbt Hok Hf Hlv Hb. destruct (level_fine_parts _ _ Hf) as [Hfb _].
  destruct bt as [bt|], bvar as [bvar|], bv as [bv|]; try done.
  - destruct (read_as F bt bvar bv) as [b'|] eqn:Hb'; [|done]. injection Hb as <-.
    destruct (Hok bt eq_refl) as [Ht1 Ht2]. destruct (Hfb bv eq_refl) as (Hv & Ho & Hl).
    rewrite <-(app_nil_r (encode F true bv)).
    eapply (reads_bind _ _ _ _ (b', false)); [|apply reads_ret].
    apply (Hbt bt eq_refl true bvar bv b'); try done.
    + intros _. cbn [value_levels type_levels] in Hlv. lia.
    + rewrite Ht1. destruct Hf as ((Hty & _) & _). apply Hty.
  - injection Hb as <-. apply reads_ret.
Qed.

Lemma type_levels_pos bt fs : (0 < type_levels (FStruct bt fs))%nat.
Proof. cbn [type_levels]. destruct bt; lia. Qed.

Lemma struct_parses bt fs : (forall b, bt = Some b -> parses b) ->
  Forall (fun f => parses (snd f)) fs -> parses (FStruct bt fs).
Proof.
  intros Hbt Hfs base var v r (Hbok & Hinc & Htok) Hlv Hr Hv Ho Hl _.
  apply all_Forall in Htok. cbn [read_as] in Hr.
  destruct var as [|bvar vars| |]; try done. destruct v as [|b0 fs0| |]; try done.
  pose proof (sub_fits F base b0 fs0 Hl) as Hbody.
  destruct (body_at_levels base (type_levels (FStruct bt fs)) b0 fs0) as
    (bv & vfs & outer & Ecore & Ebody & Hf & Hout & Hbo); [apply type_levels_pos|done..|].
  pose proof (at_levels_bound (type_levels (FStruct bt fs)) (VStruct b0 fs0)
    (type_levels_pos bt fs)) as Hcore.
  rewrite Ecore in Hr, Hcore.
  destruct (match bt, bvar, bv with
            | None, None, None => Some None
            | Some bt', Some bvar', Some bv' => Some <$> read_as F bt' bvar' bv'
            | _, _, _ => None end) as [b|] eqn:Hb; [|done].
  destruct (read_fields _ _ _) as [news|] eqn:Hn; [|done]. injection Hr as <-.
  rewrite encode_struct. cbn [Parse]. apply struct_begins; [by apply zlen_fits|].
  rewrite Ebody. unfold body_of. rewrite <-app_assoc. eapply (reads_bind _ _ _ _ b).
  - eapply base_reads; try done. intros t ->. exact Hbok.
  - by eapply struct_ends.
Qed.

Lemma elements_fine items n t : zlen (concat (encode F false <$> items)) < n -> n <= 2 ^ 32 ->
  Forall (fun x => type_of x = t /\ value_ok x) items -> Forall ordered items -> all_fine t items.
Proof.
  intros Hl Hn Hv Ho x Hx. pose proof (fields_fit (encode F false) items n x Hl Hx).
  apply list_elem_of_In in Hx. rewrite Forall_forall in *. destruct (Hv x Hx) as [Ht Hvx].
  split; [done|]. split_and!; [done|by apply Ho|lia].
Qed.

Lemma pairs_are_fine items n kt vt : zlen (concat (pair_bytes <$> items)) < n -> n <= 2 ^ 32 ->
  Forall (fun kv => (type_of (fst kv) = kt /\ value_ok (fst kv)) /\
                    (type_of (snd kv) = vt /\ value_ok (snd kv))) items ->
  Forall (fun kv => ordered (fst kv) /\ ordered (snd kv)) items -> pairs_fine kt vt items.
Proof.
  intros Hl Hn Hv Ho x Hx. pose proof (fields_fit pair_bytes items n x Hl Hx) as Hlen.
  unfold pair_bytes in Hlen. rewrite length_app in Hlen.
  apply list_elem_of_In in Hx. rewrite Forall_forall in *.
  destruct (Hv x Hx) as [[Hk Hkv] [Hm Hmv]], (Ho x Hx) as [Ok Om].
  split; (split; [done|]; split_and!; [done|done|lia]).
Qed.

Lemma Parse_reads t : parses t.
Proof.
  induction t as [b|bt fs Hb Hf|k e IH|kt vt IH] using ftype_ind_nested.
  - intros base var v r _ _ Hr Hv _ _ Hty. destruct v as [s| | |]; try done.
    cbn [read_as encode type_of field_type_id] in *.
    assert (btype_of s = b) as <-.
    { pose proof (f_equal basic_type_of_id Hty) as E. rewrite !type_id_roundtrip in E.
      by injection E. }
    rewrite is_matching_basic_refl in Hr. injection Hr as <-. cbn [Parse].
    apply (reads_map _ (fun v => (v, false))). by apply DeserializeBasic_reads.
  - by apply struct_parses.
  - intros base var v r [Hs Ht] _ Hr Hv Ho Hl Hty.
    destruct var as [| |k' et items|]; try done. destruct v as [| |pk pt pitems|]; try done.
    destruct Hv as (Hpt & Hn & Hall). apply all_Forall in Hall. apply all_Forall in Ho.
    cbn [encode] in *. rewrite length_app in Hl.
    destruct (DeserializeContainer_reads _ k e _ k' et pk pt items pitems r
      (parses_exact e IH Ht) Hs Hpt Hn) as (items' & -> & Hi); [|done|exact Hr|].
    { by apply (elements_fine _ (2 ^ 32)); [lia|..]. }
    cbn [Parse]. apply (reads_map _ (fun x => (VList k' et x, false))), Hi.
  - intros base var v r Ht _ Hr Hv Ho Hl Hty.
    destruct var as [| | |k' v' items]; try done. destruct v as [| | |pk pv pitems]; try done.
    destruct Hv as (Hpk & Hpv & Hn & Hall). apply all_Forall in Hall. apply all_Forall in Ho.
    cbn [encode] in *. rewrite length_app in Hl.
    destruct (DeserializeMap_reads _ kt vt _ k' v' items pk pv pitems r
      (parses_exact vt IH Ht) Hpk Hpv Hn) as (items' & -> & Hi); [|done|exact Hr|].
    { by apply (pairs_are_fine _ (2 ^ 32)); [unfold pair_bytes; lia|..]. }
    cbn [Parse]. apply (reads_map _ (fun x => (VMap k' v' x, false))), Hi.
Qed.
End Correct.
