(* ===== verification/Deserialization.v ===== *)
(** Deserialization with the tagged protocols.

    The readers of Fast Binary and Compact Binary keep the laws of the dynamic parser.
    From that follow schema evolution (a payload written with one schema, read with
    another) and the round trip of an object through either protocol. *)

From S2P Require Import Prelude Streams Encoding InputBuffer DataType Metadata Protocol.
From S2P Require Import Serializer Skipping FastBinary CompactBinary CompactBinaryReader.
From S2P Require Import Schema Parser ParserCorrect.

(** * The readers *)

Section Readers.
Context {R : Type} `{InputStream R}.

(** [FastBinaryReader]: its [ReadStructBegin] takes no argument. *)
Definition FastBinaryReader : ProtocolReader R := {|
  uses_static_parser := false;
  ReadStructBegin _ := fb_ReadStructBegin;
  ReadStructEnd _ := fb_ReadStructEnd;
  ReadFieldBegin := fb_ReadFieldBegin;
  ReadFieldEnd := fb_ReadFieldEnd;
  ReadContainerBegin _ := fb_ReadContainerBegin;
  ReadMapBegin _ := fb_ReadMapBegin;
  ReadContainerEnd := fb_ReadContainerEnd;
  Read := fb_Read;
  Skip := fb_Skip
|}.

Definition CompactBinaryReader (version : Z) : ProtocolReader R := {|
  uses_static_parser := false;
  ReadStructBegin := cb_ReadStructBegin version;
  ReadStructEnd := cb_ReadStructEnd;
  ReadFieldBegin := cb_ReadFieldBegin;
  ReadFieldEnd := cb_ReadFieldEnd;
  ReadContainerBegin _ := cb_ReadContainerBegin version;
  ReadMapBegin _ := cb_ReadMapBegin;
  ReadContainerEnd := cb_ReadContainerEnd;
  Read := cb_Read;
  Skip := cb_Skip version
|}.

End Readers.

(** The protocols with tags, their readers and wire formats. *)
Inductive tagged : Set := Compact (version : Z) | Fast.
#[export] Instance tagged_eq_dec : EqDecision tagged.
Proof. solve_decision. Defined.

Definition reader_of {R} `{InputStream R} (p : tagged) : ProtocolReader R :=
  match p with Compact version => CompactBinaryReader version | Fast => FastBinaryReader end.
Definition format_of (p : tagged) : wire_format :=
  match p with Compact version => cb_format version | Fast => fb_format end.

Section Laws.
Context {R : Type} `{InputStreamLaws R}.

Lemma tag_fits t : 2 <= t <= 18 -> fits 5 t.
Proof. unfold fits. lia. Qed.

Lemma fb_reader_laws : reader_laws (FastBinaryReader (R := R)) fb_format.
Proof.
  split; cbn [FastBinaryReader uses_static_parser ReadStructBegin ReadStructEnd ReadFieldBegin
    ReadFieldEnd ReadContainerBegin ReadMapBegin ReadContainerEnd Read Skip].
  - done.
  - intros []; intros; apply reads_ret.
  - intros; apply reads_ret.
  - apply fb_ReadFieldBegin_reads.
  - intros t id. simpl. lia.
  - apply fb_stop_reads.
  - intros []; simpl; lia.
  - apply reads_ret.
  - intros. by apply fb_ReadContainerBegin_reads.
  - intros. by apply fb_ReadMapBegin_reads.
  - apply reads_ret.
  - apply fb_Read_reads.
  - intros v Hv Hl s rest Hr Hs.
    apply (proj1 (value_skips fb_tagged_skip fb_format fb_skip_laws v Hv) Hl); [|done..].
    rewrite Hs, length_app. lia.
Qed.

Lemma cb_reader_laws version :
  reader_laws (CompactBinaryReader (R := R) version) (cb_format version).
Proof.
  split; cbn [CompactBinaryReader uses_static_parser ReadStructBegin ReadStructEnd ReadFieldBegin
    ReadFieldEnd ReadContainerBegin ReadMapBegin ReadContainerEnd Read Skip].
  - done.
  - intros. by apply cb_ReadStructBegin_reads.
  - intros; apply reads_ret.
  - intros. apply cb_ReadFieldBegin_reads; [by apply tag_fits|done].
  - apply cb_field_pos.
  - apply cb_stop_reads.
  - intros []; simpl; lia.
  - apply reads_ret.
  - intros. by apply cb_ReadContainerBegin_reads.
  - intros. by apply cb_ReadMapBegin_reads.
  - apply reads_ret.
  - apply cb_Read_reads.
  - intros v Hv Hl s rest Hr Hs.
    apply (proj1 (value_skips (cb_tagged_skip version) (cb_format version)
      (cb_skip_laws version) v Hv) Hl); [|done..].
    rewrite Hs, length_app. lia.
Qed.
End Laws.

(** * Reading with the schema of the writer *)

(** The member of a new object. *)
Definition default_member (m : Metadata) (t : ftype) : value :=
  match t with
  | FBasic b => VBasic (VariantGet (default_value m) b)
  | _ => default_object t
  end.

Fixpoint fields_conform (F : wire_format) (fs : list (Z * Metadata * ftype * (value -> Prop)))
    (vfs : list (Z * Metadata * value)) : Prop :=
  match fs, vfs with
  | [], [] => True
  | (f, c) :: fs', vf :: vfs' =>
      fst vf = fst f /\ c (snd vf) /\
      (omitted F vf = true -> snd vf = default_member (snd (fst f)) (snd f)) /\
      fields_conform F fs' vfs'
  | _, _ => False
  end.

(** [conforms F t v]: an object of type [t]; where the writer leaves a field out it
    holds the default itself.  That this is so, whatever the writer leaves out, is
    [typed_conforms] below. *)
Fixpoint conforms (F : wire_format) (t : ftype) (v : value) : Prop :=
  match t, v with
  | FBasic b, VBasic s => btype_of s = b
  | FStruct bt fs, VStruct bv vfs =>
      match bt, bv with
      | None, None => True
      | Some bt', Some bv' => conforms F bt' bv'
      | _, _ => False
      end /\
      fields_conform F ((fun f => (f, conforms F (snd f))) <$> fs) vfs
  | FList is_set e, VList k et items =>
      k = is_set /\ et = field_type_id e /\ all (conforms F e <$> items) /\
      (is_set = true -> distinct [] items)
  | FMap kt vt, VMap k v items =>
      k = get_type_id kt /\ v = field_type_id vt /\ distinct [] (fst <$> items) /\
      all ((fun kv => match fst kv with VBasic s => btype_of s = kt | _ => False end /\
                      conforms F vt (snd kv)) <$> items)
  | _, _ => False
  end.

(** A field the writer leaves out holds what the constructor will give it. *)
Lemma omitted_default F vf t : typed t (snd vf) -> value_ok (snd vf) ->
  match modifier (snd (fst vf)), snd vf with
  | Optional, VBasic s => zero_kept (default_value (snd (fst vf))) s
  | _, _ => True
  end ->
  omitted F vf = true -> snd vf = default_member (snd (fst vf)) t.
Proof.
  destruct vf as [[id m] v]. unfold omitted, omit_field. cbn [fst snd]. intros Ht Hv Hz Ho.
  destruct (wf_may_omit F); [|done]. apply andb_true_iff in Ho as [Hm Hd].
  apply bool_decide_eq_true in Hm. rewrite Hm in Hz.
  assert (Hnil : forall A (items : list A), zlen items < 2 ^ 32 ->
    is_default_container (container_size items) m = true -> items = []).
  { intros A items Hn Hs. unfold is_default_container, container_size in Hs.
    rewrite wrap_id in Hs by (split; lia). apply Z.eqb_eq in Hs. destruct items; [done|].
    simpl in Hs. lia. }
  destruct t as [b|bt fs|k e|kt vt], v as [s|bv vfs|k' et items|k' v' items];
    try done; cbn [typed value_ok is_default default_member default_object] in *.
  - subst b. f_equal. symmetry. by apply default_restored.
  - destruct Ht as (-> & -> & _). by rewrite (Hnil _ items) by (done || apply Hv).
  - destruct Ht as (-> & -> & _). by rewrite (Hnil _ items) by (done || apply Hv).
Qed.

(** Objects of a type conform to it, whatever fields the writer leaves out. *)
Lemma typed_conforms F t : forall v, typed t v -> value_ok v ->
  (wf_may_omit F = true -> exact_zeros v) -> conforms F t v.
Proof.
  induction t as [b|bt fs Hb Hf|k e IH|kt vt IH] using ftype_ind_nested;
    intros [s|bv vfs|k' et items|k' v' items] Ht Hv Hz; try done;
    cbn [typed conforms value_ok exact_zeros] in *.
  - destruct Ht as [Htb Htf], Hv as [Hvb Hvf]. split.
    + destruct bt, bv; try done. apply Hb; [done..|apply Hvb|]. intros Hmay. by apply Hz.
    + assert (Hz' : wf_may_omit F = true -> _) by (intros Hmay; exact (proj2 (Hz Hmay))).
      clear Hz Hb Htb Hvb. revert vfs Htf Hvf Hz'.
      induction Hf as [|f fs Hf _ IH]; intros [|vf vfs] Htf Hvf Hz; try done.
      rewrite !fmap_cons in *. destruct Htf as (Hid & Ht & Htf), Hvf as [[_ Hv] Hvf].
      cbn [fst snd fields_conform] in *. split_and!; [done| | |].
      * apply Hf; [done..|]. intros Hmay. by apply (Hz Hmay).
      * intros Ho. rewrite <-Hid. apply (omitted_default F); [done..| |done].
        destruct (wf_may_omit F) eqn:E; [by apply Hz|]. unfold omitted, omit_field in Ho.
        by rewrite E in Ho.
      * apply IH; [done..|]. intros Hmay. by apply (Hz Hmay).
  - destruct Ht as (-> & -> & Hi & Hd), Hv as (_ & _ & Hv). split_and!; [done..| |done].
    apply all_Forall in Hi, Hv. apply all_Forall. rewrite Forall_forall in *. intros x Hx.
    apply IH; [by apply Hi|by apply Hv|]. intros Hmay. specialize (Hz Hmay).
    apply all_Forall in Hz. rewrite Forall_forall in Hz. by apply Hz.
  - destruct Ht as (-> & -> & Hd & Hi), Hv as (_ & _ & _ & Hv). split_and!; [done..|].
    apply all_Forall in Hi, Hv. apply all_Forall. rewrite Forall_forall in *. intros x Hx.
    split; [by apply Hi|]. apply IH; [by apply Hi|by apply Hv|]. intros Hmay.
    specialize (Hz Hmay). apply all_Forall in Hz. rewrite Forall_forall in Hz. by apply Hz.
Qed.

Lemma conforms_type F t v : conforms F t v -> type_of v = field_type_id t.
Proof.
  destruct t, v; simpl; try done; [by intros ->|by intros (-> & _)].
Qed.

Lemma conforms_levels F t : forall v, conforms F t v -> value_levels v = type_levels t.
Proof.
  induction t as [b|bt fs Hb _|k e _|kt vt _] using ftype_ind_nested; intros v Hc;
    destruct v as [s|bv vfs| |]; try done.
  destruct Hc as [Hc _]. cbn [value_levels type_levels].
  destruct bt as [bt|], bv as [bv|]; try done. f_equal. by apply Hb.
Qed.

(** The type of an object gives the type of its tags, its levels and the order of its fields. *)
Lemma typed_type t v : typed t v -> type_of v = field_type_id t.
Proof.
  destruct t, v; simpl; try done; [by intros ->|by intros (-> & _)].
Qed.

Lemma typed_levels t : forall v, typed t v -> value_levels v = type_levels t.
Proof.
  induction t as [b|bt fs Hb _|k e _|kt vt _] using ftype_ind_nested; intros v Ht;
    destruct v as [s|bv vfs| |]; try done.
  destruct Ht as [Ht _]. cbn [value_levels type_levels].
  destruct bt as [bt|], bv as [bv|]; try done. f_equal. by apply Hb.
Qed.

Lemma typed_ids (p : ftype -> value -> Prop) (fs : list (Z * Metadata * ftype)) vfs :
  typed_fields ((fun f => (fst f, p (snd f))) <$> fs) vfs ->
  (fun f => fst (fst f)) <$> vfs = (fun f => fst (fst f)) <$> fs.
Proof.
  revert vfs. induction fs as [|f fs IH]; intros [|vf vfs] Hc; try done.
  rewrite fmap_cons in Hc. destruct Hc as (Hf & _ & Hc). rewrite !fmap_cons.
  by rewrite Hf, (IH vfs Hc).
Qed.

Lemma typed_ordered t : forall v, type_ok t -> typed t v -> ordered v.
Proof.
  induction t as [b|bt fs Hb Hf|k e IH|kt vt IH] using ftype_ind_nested;
    intros [s|bv vfs|k' et items|k' v' items] Hok Ht; try done; cbn [typed type_ok ordered] in *.
  - destruct Ht as [Htb Htf], Hok as (Hbok & Hi & Hfok). split_and!.
    + destruct bt as [bt|], bv as [bv|]; try done. apply (Hb bt eq_refl); [apply Hbok|done].
    + by rewrite (typed_ids typed fs vfs Htf).
    + clear Hb Hbok Htb Hi. revert vfs Htf Hfok.
      induction Hf as [|f fs Hf _ IH]; intros [|vf vfs] Htf Hfok; try done.
      rewrite !fmap_cons in *. destruct Htf as (_ & Hx & Htf), Hfok as [Hfok Hfsok].
      split; [by apply Hf|by apply IH].
  - destruct Ht as (_ & _ & Hi%all_Forall & _). apply all_Forall. eapply Forall_impl; [|exact Hi].
    intros x Hx. apply IH; [apply Hok|done].
  - destruct Ht as (_ & _ & _ & Hi%all_Forall).
    apply (all_Forall (fun kv => ordered (fst kv) /\ ordered (snd kv))).
    eapply Forall_impl; [|exact Hi]. intros [k x] [Hk Hx]. cbn [fst snd] in *.
    split; [by destruct k|by apply IH].
Qed.

(** ** An object read with its own schema is itself *)

Lemma read_elements (f : value -> value -> option value) c xs :
  (forall x, x ∈ xs -> f c x = Some x) ->
  mapM_option (fun '(c, x) => f c x) (zip (replicate (length xs) c) xs) = Some xs.
Proof.
  induction xs as [|x xs IH]; intros Hf; [done|]. cbn [length replicate zip zip_with].
  cbn [mapM_option]. rewrite (Hf x) by left.
  fold (mapM_option (fun '(c, x) => f c x)). rewrite IH; [done|]. intros y Hy. apply Hf. by right.
Qed.

Lemma insert_distinct F b acc xs : distinct acc xs ->
  (forall x, x ∈ xs -> read_as F (FBasic b) (default_object (FBasic b)) x = Some x) ->
  foldl (set_step F (FBasic b)) (Some acc) xs = Some (acc ++ xs).
Proof.
  revert acc. induction xs as [|x xs IH]; intros acc Hd Hf; [by rewrite app_nil_r|].
  destruct Hd as [Hx Hd]. cbn [foldl]. unfold set_step at 2. rewrite (Hf x) by left.
  destruct x as [s| | |]; try done. unfold set_insert. rewrite Hx, IH.
  - by rewrite <-app_assoc.
  - done.
  - intros y Hy. apply Hf. by right.
Qed.

Lemma fresh_key acc k (d : value) : existsb (is_key k) (fst <$> acc) = false ->
  mapped_at acc k d = d /\ forall x, mapped_set acc k x = acc ++ [(VBasic k, x)].
Proof.
  intros Hk. unfold mapped_at, mapped_set.
  assert (He : existsb (fun kv => is_key k (fst kv)) acc = false).
  { induction acc as [|kv acc IH]; [done|]. rewrite fmap_cons in Hk. cbn [existsb] in *.
    apply orb_false_iff in Hk as [-> Hk]. by rewrite IH. }
  rewrite He. split; [|done]. clear Hk. induction acc as [|kv acc IH]; [done|].
  cbn [existsb find] in *. apply orb_false_iff in He as [-> He]. by apply IH.
Qed.

Lemma map_distinct F kt vt acc xs : distinct (fst <$> acc) (fst <$> xs) ->
  (forall kv, kv ∈ xs -> match fst kv with VBasic s => btype_of s = kt | _ => False end /\
    read_as F vt (default_object vt) (snd kv) = Some (snd kv)) ->
  foldl (map_step F kt vt) (Some acc) xs = Some (acc ++ xs).
Proof.
  revert acc. induction xs as [|[k x] xs IH]; intros acc Hd Hf; [by rewrite app_nil_r|].
  rewrite fmap_cons in Hd. destruct Hd as [Hk Hd]. cbn [fst] in *.
  destruct (Hf (k, x)) as [Hty Hx]; [left|]. cbn [fst snd] in *.
  destruct k as [s| | |]; try done. cbn [foldl]. unfold map_step at 2. cbn [fst snd].
  subst kt. rewrite is_matching_basic_refl, set_as_self. cbv zeta.
  destruct (fresh_key acc s (default_object vt) Hk) as [-> Hset]. rewrite Hx, Hset, IH.
  - by rewrite <-app_assoc.
  - by rewrite fmap_app.
  - intros y Hy. apply Hf. by right.
Qed.

Lemma lookup_present F lo vfs vf : increasing lo ((fun f => fst (fst f)) <$> vfs) ->
  vf ∈ vfs ->
  lookup_field (fst (fst vf)) (present_fields F vfs) =
    if omitted F vf then None else Some (snd vf).
Proof.
  revert lo. induction vfs as [|g vfs IH]; intros lo Hi Hin; [by apply not_elem_of_nil in Hin|].
  rewrite fmap_cons in Hi. destruct Hi as [Hg Hi].
  assert (Habove : lookup_field (fst (fst g)) (present_fields F vfs) = None).
  { apply (lookup_above _ (fst (fst g))); [by apply present_increasing|lia]. }
  unfold present_fields in *. rewrite filter_cons. apply elem_of_cons in Hin as [->|Hin].
  - destruct (omitted F g) eqn:E; [by rewrite decide_False|]. rewrite decide_True by done.
    rewrite fmap_cons. by rewrite lookup_here.
  - pose proof (increasing_forall _ _ Hi) as Ha. rewrite Forall_fmap, Forall_forall in Ha.
    specialize (Ha vf). cbn in Ha.
    destruct (omitted F g) eqn:E; [rewrite decide_False by done; by apply (IH _ Hi)|].
    rewrite decide_True by done. rewrite fmap_cons. rewrite lookup_below; [by apply (IH _ Hi)|].
    apply Ha. by apply list_elem_of_In.
Qed.

Lemma omitted_optional F vf : omitted F vf = true -> is_required (snd (fst vf)) = false.
Proof.
  unfold omitted, omit_field, is_required. destruct (wf_may_omit F); [|done].
  intros [Ho _]%andb_true_iff. apply bool_decide_eq_true in Ho. by rewrite Ho.
Qed.

Lemma accepts_self t : accepts t (field_type_id t) = true.
Proof. unfold accepts. by rewrite Z.eqb_refl. Qed.

Definition reads_itself (F : wire_format) (t : ftype) : Prop := forall v var,
  type_ok t -> conforms F t v -> (var = default_object t \/ exists b, t = FBasic b) ->
  read_as F t var v = Some v.

Definition conform_spec (F : wire_format) (f : Z * Metadata * ftype) :
    Z * Metadata * ftype * (value -> Prop) := (f, conforms F (snd f)).

Lemma fields_read_themselves F p fs vfs :
  Forall (fun f => reads_itself F (snd f)) fs -> Forall (fun f => type_ok (snd f)) fs ->
  fields_conform F (conform_spec F <$> fs) vfs ->
  (forall vf, vf ∈ vfs -> lookup_field (fst (fst vf)) p =
    if omitted F vf then None else Some (snd vf)) ->
  read_fields ((fun f => (f, read_as F (snd f))) <$> fs)
    ((fun f => default_member (snd (fst f)) (snd f)) <$> fs) p = Some (snd <$> vfs) /\
  zip (fst <$> fs) (snd <$> vfs) = vfs.
Proof.
  revert vfs. induction fs as [|f fs IH]; intros [|vf vfs] Hr Ht Hc Hl; try done.
  apply Forall_cons_1 in Hr as [Hr Hrs]. apply Forall_cons_1 in Ht as [Ht Hts].
  rewrite fmap_cons in Hc. destruct Hc as (Hf & Hc & Hdef & Hcs).
  destruct (IH vfs Hrs Hts Hcs) as [IH1 IH2]; [intros g Hg; apply Hl; by right|].
  rewrite !fmap_cons. cbn [read_fields zip zip_with].
  assert (Hone : read_field (f, read_as F (snd f)) (default_member (snd (fst f)) (snd f)) p =
    Some (snd vf)).
  { destruct f as [[id m] t]. unfold read_field. cbn [fst snd conform_spec] in *.
    pose proof (Hl vf ltac:(left)) as Hlv. rewrite Hf in Hlv. cbn [fst] in Hlv. rewrite Hlv.
    destruct (omitted F vf) eqn:Ho.
    - pose proof (omitted_optional _ _ Ho) as Hq. rewrite Hf in Hq. cbn [snd] in Hq.
      by rewrite Hq, Hdef.
    - rewrite (conforms_type _ _ _ Hc), accepts_self. apply Hr; [done|done|].
      destruct t; [right; by eexists|by left..]. }
  rewrite Hone, IH1. split; [done|]. cbn [zip zip_with] in IH2. unfold zip in *.
  rewrite IH2. by rewrite <-Hf, <-surjective_pairing.
Qed.

Lemma conforms_ids F fs vfs : fields_conform F (conform_spec F <$> fs) vfs ->
  (fun f => fst (fst f)) <$> vfs = (fun f => fst (fst f)) <$> fs.
Proof.
  revert vfs. induction fs as [|f fs IH]; intros [|vf vfs] Hc; try done.
  rewrite fmap_cons in Hc. destruct Hc as (Hf & _ & _ & Hc). rewrite !fmap_cons.
  by rewrite Hf, (IH vfs Hc).
Qed.

Lemma conforms_read F t : reads_itself F t.
Proof.
  induction t as [b|bt fs Hb Hf|k e IH|kt vt IH] using ftype_ind_nested;
    intros v var Ht Hc Hvar.
  - destruct v as [s| | |]; try done. cbn [conforms read_as] in *. subst b.
    by rewrite is_matching_basic_refl, set_as_self.
  - destruct Hvar as [->|[b Hx]]; [|discriminate Hx]. destruct v as [|bv vfs| |]; try done.
    destruct Hc as [Hcb Hcf]. destruct Ht as (Hbok & Hinc & Htf). apply all_Forall in Htf.
    change (fields_conform F (conform_spec F <$> fs) vfs) in Hcf.
    cbn [default_object read_as]. rewrite at_levels_id
      by (rewrite (conforms_levels F (FStruct bt fs) (VStruct bv vfs) (conj Hcb Hcf)); done).
    assert (Hbase : (match bt, (match bt with None => None | Some b => Some (default_object b) end),
        bv with
        | None, None, None => Some None
        | Some bt', Some bvar', Some bv' => Some <$> read_as F bt' bvar' bv'
        | _, _, _ => None end) = Some bv).
    { destruct bt as [bt|], bv as [bv|]; try done.
      rewrite (Hb bt eq_refl bv (default_object bt)); [done|apply Hbok|done|by left]. }
    rewrite Hbase.
    assert (Hvars : snd <$> ((fun f => (fst f, match snd f with
              | FBasic b => VBasic (VariantGet (default_value (snd (fst f))) b)
              | _ => default_object (snd f) end)) <$> fs) =
      (fun f => default_member (snd (fst f)) (snd f)) <$> fs).
    { rewrite <-list_fmap_compose. apply list_fmap_ext. intros _ [[id m] t] _. by destruct t. }
    rewrite Hvars.
    destruct (fields_read_themselves F (present_fields F vfs) fs vfs Hf Htf Hcf) as [-> ->].
    + intros vf Hin. apply (lookup_present F (-1)); [|done]. by rewrite (conforms_ids F fs vfs).
    + done.
  - destruct Hvar as [->|[b Hx]]; [|discriminate Hx]. destruct v as [| |k' et items|]; try done.
    destruct Hc as (-> & -> & Hall & Hd). apply all_Forall in Hall. destruct Ht as [Hset Ht].
    cbn [default_object read_as]. rewrite accepts_self. rewrite Forall_forall in Hall.
    destruct k.
    + destruct (Hset eq_refl) as [b ->].
      change (foldl _ (Some []) items) with (foldl (set_step F (FBasic b)) (Some []) items).
      rewrite (insert_distinct F b [] items (Hd eq_refl)); [done|].
      intros x Hx. apply IH; [done|apply Hall; by apply list_elem_of_In|by left].
    + replace (resize_list [] (length items) (default_object e))
        with (replicate (length items) (default_object e))
        by (unfold resize_list; by rewrite take_nil, Nat.sub_0_r).
      rewrite (read_elements (read_as F e)); [done|].
      intros x Hx. apply IH; [done|apply Hall; by apply list_elem_of_In|by left].
  - destruct Hvar as [->|[b Hx]]; [|discriminate Hx]. destruct v as [| | |k' v' items]; try done.
    destruct Hc as (-> & -> & Hd & Hall). apply all_Forall in Hall.
    cbn [default_object read_as]. rewrite !accepts_self.
    cbn [andb].
    change (foldl _ (Some []) items) with (foldl (map_step F kt vt) (Some []) items).
    rewrite (map_distinct F kt vt [] items Hd); [done|].
    intros kv Hkv. apply list_elem_of_In in Hkv. rewrite Forall_forall in Hall.
    destruct (Hall kv Hkv) as [Hk Hv]. split; [done|]. apply IH; [done|done|by left].
Qed.

(** * Examples *)

(** The type of [sample], and a later schema for it: a new base field, an integer
    made wider, a field dropped, one added, wider map keys. *)
Definition sample_type : ftype :=
  FStruct (Some (FStruct None [(0, no_default, FBasic (TInt W32)); (7, no_default, FBasic TBool)]))
    [(1, optional_zero, FBasic (TUInt W16));
     (2, optional_zero, FBasic (TUInt W16));
     (200, no_default, FList false (FBasic TString));
     (300, no_default, FMap (TUInt W8) (FStruct None [(3, no_default, FBasic TWString)]))].

Definition later_type : ftype :=
  FStruct (Some (FStruct None [(0, no_default, FBasic (TInt W64));
                               (5, optional_zero, FBasic (TUInt W16));
                               (7, no_default, FBasic TBool)]))
    [(1, optional_zero, FBasic (TUInt W16));
     (2, optional_zero, FBasic (TUInt W32));
     (250, optional_zero, FBasic (TUInt W16));
     (300, no_default, FMap (TUInt W16) (FStruct None [(3, no_default, FBasic TWString)]))].

Definition sample_later : value :=
  VStruct (Some (VStruct None [(0, no_default, VBasic (SInt W64 (-5)));
                               (5, optional_zero, VBasic (SUInt W16 0));
                               (7, no_default, VBasic (SBool true))]))
    [(1, optional_zero, VBasic (SUInt W16 0));
     (2, optional_zero, VBasic (SUInt W32 300));
     (250, optional_zero, VBasic (SUInt W16 0));
     (300, no_default, VMap BT_UINT16 BT_STRUCT
        [(VBasic (SUInt W16 9), VStruct None [(3, no_default, VBasic (SWString [937]))])])].

Lemma sample_later_read version :
  read_as fb_format later_type (default_object later_type) sample = Some sample_later /\
  read_as (cb_format version) later_type (default_object later_type) sample = Some sample_later.
Proof. split; reflexivity. Qed.

Ltac by_parts := repeat first [apply conj | by vm_compute].

Lemma sample_types_ok : type_ok sample_type /\ type_ok later_type.
Proof. by_parts. Qed.

Lemma sample_ordered : ordered sample.
Proof. by_parts. Qed.

Lemma sample_typed : typed sample_type sample.
Proof. by_parts. Qed.

Lemma sample_zeros : exact_zeros sample.
Proof. repeat first [apply conj | by vm_compute | by intros ?]. Qed.

(** * Properties *)

Section Deserialized.
Context {R : Type} `{InputStreamLaws R}.

(** What [Deserialize] gives, for a reader that keeps its laws. *)
Lemma Deserialize_reads (P : ProtocolReader R) F t v r : reader_laws P F ->
  type_ok t -> value_ok v -> ordered v -> type_of v = field_type_id t ->
  zlen (encode F false v) < 2 ^ 32 -> read_as F t (default_object t) v = Some r ->
  reads (Deserialize P t) (encode F false v) r.
Proof.
  intros HP Ht Hv Ho Hty Hl Hr. apply (reads_map _ fst _ (r, false)). by apply (Parse_reads P F HP t false).
Qed.

Lemma Deserialize_itself (P : ProtocolReader R) F t v : reader_laws P F ->
  type_ok t -> value_ok v -> ordered v -> conforms F t v -> zlen (encode F false v) < 2 ^ 32 ->
  reads (Deserialize P t) (encode F false v) v.
Proof.
  intros HP Ht Hv Ho Hc Hl. apply Deserialize_reads; try done.
  - by apply (conforms_type F).
  - apply conforms_read; [done..|by left].
Qed.

Lemma reader_of_laws p : reader_laws (R := R) (reader_of p) (format_of p).
Proof. destruct p; [apply cb_reader_laws|apply fb_reader_laws]. Qed.

(** C5: schema evolution with the tagged protocols.  A payload written with one schema
    and read with another gives the object of the specification, and exactly the
    payload is consumed: fields and derived levels the reader does not know are skipped
    whatever their type, fields the payload does not have keep their default, basic
    fields and elements are promoted to the reader's type. *)
Theorem tagged_deserializes p t v r (s : R) rest :
  type_ok t -> value_ok v -> ordered v -> type_of v = field_type_id t ->
  zlen (encode (format_of p) false v) < 2 ^ 32 ->
  read_as (format_of p) t (default_object t) v = Some r ->
  readable s -> view s = encode (format_of p) false v ++ rest ->
  exists s', Deserialize (reader_of p) t s = (Ok r, s') /\ view s' = rest /\ readable s'.
Proof.
  intros Ht Hv Ho Hty Hl Hr Hs Hw.
  by apply (Deserialize_reads _ _ t v r (reader_of_laws p) Ht Hv Ho Hty Hl Hr).
Qed.

(** C11: [Skip] on a payload of a tagged protocol consumes exactly the value, whatever
    follows it: structs with their base parts, containers of fixed-size elements by
    multiplication, everything else element by element.  In Compact Binary version 2 a
    struct is skipped by its length, so the length the two-pass writer put there is the
    right one. *)
Theorem skip_exact p v (s : R) rest :
  value_ok v -> zlen (encode (format_of p) false v) < 2 ^ 32 ->
  readable s -> view s = encode (format_of p) false v ++ rest ->
  exists s', Skip (reader_of p) (type_of v) s = (Ok tt, s') /\ view s' = rest /\ readable s'.
Proof.
  destruct p as [version|]; [apply compact_binary_skip_exact|apply fast_binary_skip_exact].
Qed.

(** On arbitrary bytes, for any type tag and with either tagged protocol,
    skipping ends at a suffix of the input or throws, with no undefined step on the
    way. *)
Lemma skip_total p type (s : R) : readable s ->
  exists j, readable (snd (Skip (reader_of p) type s)) /\
    view (snd (Skip (reader_of p) type s)) = drop j (view s) /\
    match fst (Skip (reader_of p) type s) with
    | Ok _ => (j <= length (view s))%nat
    | Err e => exists x, e = Thrown x
    end.
Proof.
  destruct p as [version|]; [apply compact_binary_skip_total|apply fast_binary_skip_total].
Qed.
End Deserialized.

(** The buffer of the examples, as a stream. *)
Lemma buffer_reads bs : zlen bs < 2 ^ 32 -> readable (buffer_of bs) /\ view (buffer_of bs) = bs.
Proof. apply buffer_of_readable. Qed.

Lemma tagged_deserializes_witness :
  exists s', Deserialize (reader_of (Compact v2)) later_type
      (buffer_of (encode (cb_format v2) false sample ++ [Byte.xff])) = (Ok sample_later, s') /\
    view s' = [Byte.xff].
Proof.
  destruct (buffer_reads (encode (cb_format v2) false sample ++ [Byte.xff])) as [H1 H2];
    [by vm_compute|].
  destruct (tagged_deserializes (Compact v2) later_type sample sample_later
    (buffer_of (encode (cb_format v2) false sample ++ [Byte.xff])) [Byte.xff]
    (proj2 sample_types_ok) sample_ok sample_ordered eq_refl eq_refl
    (proj2 (sample_later_read v2)) H1 H2) as (s' & E & V & _).
  exists s'. exact (conj E V).
Defined.

Lemma skip_exact_witness :
  exists s', Skip (reader_of (Compact v2)) BT_STRUCT
      (buffer_of (encode (cb_format v2) false sample ++ [Byte.xff])) = (Ok tt, s') /\
    view s' = [Byte.xff].
Proof.
  destruct (buffer_reads (encode (cb_format v2) false sample ++ [Byte.xff])) as [H1 H2];
    [by vm_compute|].
  destruct (skip_exact (Compact v2) sample _ [Byte.xff] sample_ok ltac:(by vm_compute) H1 H2)
    as (s' & E & V & _).
  exists s'. exact (conj E V).
Defined.

(** A struct of one field that is cut short. *)
Lemma skip_total_witness :
  fst (Skip (reader_of (Compact v1)) BT_STRUCT (buffer_of [Byte.x22; Byte.x01])) =
    Err (Thrown StreamException) /\
  readable (snd (Skip (reader_of (Compact v1)) BT_STRUCT (buffer_of [Byte.x22; Byte.x01]))).
Proof.
  destruct (buffer_reads [Byte.x22; Byte.x01]) as [H1 _]; [by vm_compute|].
  destruct (skip_total (Compact v1) BT_STRUCT (buffer_of [Byte.x22; Byte.x01]) H1) as (j & Ho & _).
  split; [by vm_compute|exact Ho].
Defined.
