(* ===== verification/ValidateSound.v ===== *)
(** What validation guarantees.

    When [Validate] accepts a pair of schemas, every object of the source schema can be
    read with the type the destination schema stands for: no required field is missing,
    and every element and field has a type the reader takes or ignores.  Together
    with the parser's correctness: such payloads deserialize without an exception. *)

From stdpp Require Import strings.
From S2P Require Import Prelude Streams Encoding InputBuffer DataType Metadata Protocol.
From S2P Require Import Serializer FastBinary CompactBinary Schema Parser ParserCorrect Deserialization.
From S2P Require Import RuntimeSchema Validate.

(** * The type a runtime schema stands for *)

(** A type, given what the structs stand for. *)
Fixpoint unfold_typedef (struct : Z -> ftype) (t : TypeDef) : ftype :=
  match basic_type_of_id (td_id t) with
  | Some b => FBasic b
  | None =>
      match element t, key t with
      | Some e, None => FList (td_id t =? BT_SET) (unfold_typedef struct e)
      | Some e, Some k =>
          match basic_type_of_id (td_id k) with
          | Some b => FMap b (unfold_typedef struct e)
          | None => FStruct None []
          end
      | _, _ => struct (struct_def t)
      end
  end.

Definition opaque_struct (_ : Z) : ftype := FStruct None [].

(** A struct with [m] levels of its hierarchy; structs inside it are unfolded [n]
    deep. *)
Fixpoint unfold_struct (s : SchemaDef) (n : nat) : nat -> Z -> ftype :=
  fix level (m : nat) (i : Z) : ftype :=
    match m, structs s !! Z.to_nat i with
    | S m', Some d =>
        FStruct ((fun t => level m' (struct_def t)) <$> base_def d)
          ((fun f => (fd_id f, fd_metadata f,
              unfold_typedef
                (match n with
                 | O => opaque_struct
                 | S n' => unfold_struct s n' (length (structs s))
                 end) (fd_type f))) <$> fields d)
    | _, _ => FStruct None []
    end.

Definition structs_at (s : SchemaDef) (n : nat) : Z -> ftype :=
  match n with
  | O => opaque_struct
  | S n' => unfold_struct s n' (length (structs s))
  end.

Definition schema_type (s : SchemaDef) (n : nat) : ftype := structs_at s n (struct_def (root s)).

(** * Objects of a runtime schema *)

Fixpoint fields_match (fs : list (Z * Metadata * (TypeDef -> Prop))) (ds : list FieldDef) : Prop :=
  match fs, ds with
  | [], [] => True
  | (id, m, p) :: fs', d :: ds' =>
      id = fd_id d /\ m = fd_metadata d /\ p (fd_type d) /\ fields_match fs' ds'
  | _, _ => False
  end.

Fixpoint instance_of (s : SchemaDef) (v : value) (t : TypeDef) : Prop :=
  match v with
  | VBasic x => td_id t = get_type_id (btype_of x)
  | VStruct b fs =>
      td_id t = BT_STRUCT /\ bonded_type t = false /\
      exists d, structs s !! Z.to_nat (struct_def t) = Some d /\
        match b, base_def d with
        | None, None => True
        | Some bv, Some tb => instance_of s bv tb
        | _, _ => False
        end /\
        fields_match ((fun f => (fst (fst f), snd (fst f), instance_of s (snd f))) <$> fs)
          (fields d)
  | VList is_set et items =>
      td_id t = (if is_set then BT_SET else BT_LIST) /\
      exists e, element t = Some e /\ et = td_id e /\ all ((fun x => instance_of s x e) <$> items)
  | VMap kt vt items =>
      td_id t = BT_MAP /\
      exists k e, key t = Some k /\ element t = Some e /\ kt = td_id k /\ vt = td_id e /\
        all ((fun kv => instance_of s (fst kv) k /\ instance_of s (snd kv) e) <$> items)
  end.

(** How deep structs are nested in fields. *)
Fixpoint nesting (v : value) : nat :=
  match v with
  | VBasic _ => 0
  | VStruct b fs =>
      Nat.max (match b with None => 1 | Some bv => nesting bv end)
        (S (max_list ((fun f => nesting (snd f)) <$> fs)))
  | VList _ _ items => max_list (nesting <$> items)
  | VMap _ _ items => max_list ((fun kv => nesting (snd kv)) <$> items)
  end.

(** No lazily read member. *)
Fixpoint no_bonded (t : TypeDef) : Prop :=
  bonded_type t = false /\
  match element t with None => True | Some e => no_bonded e end /\
  match key t with None => True | Some k => no_bonded k end.
Definition schema_no_bonded (s : SchemaDef) : Prop :=
  no_bonded (root s) /\
  Forall (fun d => Forall (fun f => no_bonded (fd_type f)) (fields d)) (structs s).

(** * Properties *)

Section Unfold.
Context (s : SchemaDef).

Lemma unfold_struct_eq n m i d : structs s !! Z.to_nat i = Some d ->
  unfold_struct s n (S m) i =
    FStruct ((fun t => unfold_struct s n m (struct_def t)) <$> base_def d)
      ((fun f => (fd_id f, fd_metadata f, unfold_typedef (structs_at s n) (fd_type f))) <$> fields d).
Proof. intros Hd. destruct n; cbn [unfold_struct]; by rewrite Hd. Qed.

Lemma unfold_struct_id n m i : field_type_id (unfold_struct s n m i) = BT_STRUCT.
Proof.
  destruct n, m; cbn [unfold_struct]; try done;
    by destruct (structs s !! Z.to_nat i).
Qed.

Lemma structs_at_id n i : field_type_id (structs_at s n i) = BT_STRUCT.
Proof. destruct n; [done|apply unfold_struct_id]. Qed.

Lemma unfold_levels n m i k : levels s (Z.to_nat i) k -> (k <= m)%nat ->
  type_levels (unfold_struct s n m i) = k.
Proof.
  intros Hl. remember (Z.to_nat i) as x eqn:Hx. revert i m Hx.
  induction Hl as [x d Hi Hb|x d t k Hi Hb Ht Hl IH]; intros i m -> Hm;
    (destruct m as [|m]; [lia|]); rewrite (unfold_struct_eq _ _ _ d Hi), Hb; [done|].
  cbn [fmap option_fmap option_map type_levels]. f_equal. by apply IH; [|lia].
Qed.

Lemma struct_or_basic n t : typedef_ok n t -> td_id t = BT_STRUCT ->
  element t = None /\ key t = None.
Proof.
  destruct t as [i z e k b]. intros [_ Ht] Hi. cbn [td_id element key] in *. subst i.
  destruct e as [e|], k as [k|]; try done.
  - by destruct Ht.
  - by destruct Ht as [[?|[? _]] _].
Qed.

Lemma unfold_typedef_struct st n t : typedef_ok n t -> td_id t = BT_STRUCT ->
  unfold_typedef st t = st (struct_def t).
Proof.
  intros Ht Hi. destruct (struct_or_basic _ _ Ht Hi) as [He Hk].
  destruct t as [i z e k b]. cbn [td_id element key struct_def unfold_typedef] in *. by subst.
Qed.

Lemma unfold_typedef_basic st t b : basic_type_of_id (td_id t) = Some b ->
  unfold_typedef st t = FBasic b.
Proof.
  destruct t as [i z e k bd]. cbn [unfold_typedef td_id]. by intros ->.
Qed.

Lemma container_element n t (is_set : bool) : typedef_ok n t ->
  td_id t = (if is_set then BT_SET else BT_LIST) ->
  key t = None /\ exists e, element t = Some e /\ typedef_ok n e /\
    (is_set = true -> is_Some (basic_type_of_id (td_id e))) /\
    forall st, unfold_typedef st t = FList is_set (unfold_typedef st e).
Proof.
  destruct t as [i z e k b]. intros [_ Ht] Hi. cbn [td_id element key] in *. subst i.
  destruct e as [e|], k as [k|].
  - destruct Ht as [Ht _]. by destruct is_set.
  - destruct Ht as [Hs He]. split; [done|]. exists e. split_and!; [done|done| |].
    + intros ->. by destruct Hs as [?|[_ Hs]].
    + intros st. by destruct is_set.
  - done.
  - destruct Ht as [Ht|[? Ht]]; by destruct is_set.
Qed.

Lemma map_parts n t : typedef_ok n t -> td_id t = BT_MAP ->
  exists k e b, key t = Some k /\ element t = Some e /\ typedef_ok n k /\ typedef_ok n e /\
    basic_type_of_id (td_id k) = Some b /\
    forall st, unfold_typedef st t = FMap b (unfold_typedef st e).
Proof.
  destruct t as [i z e k b]. intros [_ Ht] Hi. cbn [td_id element key] in *. subst i.
  destruct e as [e|], k as [k|].
  - destruct Ht as (_ & He & Hk & [kb Hkb]). exists k, e, kb. split_and!; try done.
    intros st. cbn [unfold_typedef td_id element key]. by rewrite Hkb.
  - by destruct Ht as [[?|[? _]] _].
  - done.
  - by destruct Ht as [?|[? ?]].
Qed.

Lemma instance_type v t : instance_of s v t -> type_of v = td_id t.
Proof. destruct v; cbn [instance_of type_of]; [done|by intros [-> _]..]. Qed.

(** The levels of an object are those of its struct. *)
Lemma instance_levels v t : Forall (struct_ok (zlen (structs s))) (structs s) ->
  instance_of s v t -> td_id t = BT_STRUCT ->
  levels s (Z.to_nat (struct_def t)) (value_levels v).
Proof.
  intros Hok. revert t.
  induction v as [x|b fs Hb _|kt et items _|kt vt items _] using value_ind_nested;
    intros t Hi Ht; cbn [instance_of] in Hi.
  - rewrite Ht in Hi. by destruct (btype_of x) as [|[]|[]| | | |].
  - destruct Hi as (_ & _ & d & Hd & Hbase & _). cbn [value_levels].
    destruct b as [bv|], (base_def d) as [tb|] eqn:Hbd; try done; [|by eapply levels_root].
    assert (Hdok : struct_ok (zlen (structs s)) d).
    { rewrite Forall_forall in Hok. apply Hok, list_elem_of_In. by eapply list_elem_of_lookup_2. }
    destruct (struct_ok_base _ _ _ Hdok Hbd) as [Htb _].
    eapply levels_derived; [done..|]. by apply Hb.
  - destruct Hi as [Hi _]. rewrite Ht in Hi. by destruct kt.
  - destruct Hi as [Hi _]. by rewrite Ht in Hi.
Qed.
End Unfold.

(** ** Reading one value *)

(** Whatever shaped variable a value is read into, the reading succeeds. *)
Definition readable_as (F : wire_format) (v : value) (t : ftype) : Prop :=
  forall var, shaped t var -> exists r, read_as F t var v = Some r /\ shaped t r.

Section ReadableContainers.
Context (F : wire_format).

Lemma basic_readable s b : is_matching_basic (btype_of s) b = true ->
  readable_as F (VBasic s) (FBasic b).
Proof. intros Hm var _. cbn [read_as]. rewrite Hm. by eexists. Qed.

Lemma items_readable e cs xs : length cs = length xs -> Forall (shaped e) cs ->
  Forall (fun x => readable_as F x e) xs ->
  exists ys, mapM_option (fun '(c, x) => read_as F e c x) (zip cs xs) = Some ys /\
    Forall (shaped e) ys.
Proof.
  revert cs. induction xs as [|x xs IH]; intros [|c cs] Hl Hc Hx; try done.
  { exists []. by split; [|constructor]. }
  apply Forall_cons_1 in Hc as [Hc Hcs]. apply Forall_cons_1 in Hx as [Hx Hxs].
  destruct (Hx c Hc) as (y & Hy & Hsy).
  destruct (IH cs ltac:(simpl in Hl; lia) Hcs Hxs) as (ys & Hys & Hsys).
  exists (y :: ys). split; [|by constructor]. cbn [zip zip_with mapM_option].
  rewrite Hy. fold (mapM_option (fun '(c, x) => read_as F e c x)).
  by rewrite Hys.
Qed.

Lemma set_readable b acc xs :
  Forall (fun x => exists s, x = VBasic s /\ is_matching_basic (btype_of s) b = true) xs ->
  exists ys, foldl (set_step F (FBasic b)) (Some acc) xs = Some ys.
Proof.
  intros Hx. revert acc. induction Hx as [|x xs (s & -> & Hm) _ IH]; intros acc; [by exists acc|].
  cbn [foldl]. unfold set_step at 2. cbn [read_as]. rewrite Hm. apply IH.
Qed.

Lemma list_readable is_set e k et items : (is_set = true -> exists b, e = FBasic b) ->
  (accepts e et = true -> Forall (fun x => readable_as F x e) items) ->
  (accepts e et = true -> is_set = true -> Forall (fun x => exists s, x = VBasic s) items) ->
  readable_as F (VList k et items) (FList is_set e).
Proof.
  intros Hset Hr Hb [| |k' et' cur|] Hvar; try done. cbn [read_as shaped] in *.
  apply all_Forall in Hvar. destruct (accepts e et) eqn:Ha.
  2:{ exists (VList k' et' cur). split; [done|]. by apply all_Forall. }
  specialize (Hr eq_refl). destruct is_set.
  - destruct (Hset eq_refl) as [b ->]. specialize (Hb eq_refl eq_refl).
    change (foldl _ (Some []) items) with (foldl (set_step F (FBasic b)) (Some []) items).
    destruct (set_readable b [] items) as [ys ->].
    + rewrite Forall_forall in *. intros x Hx. destruct (Hb x Hx) as [s ->]. exists s.
      split; [done|]. destruct (Hr _ Hx (VBasic s) I) as (r & E & _). cbn [read_as] in E.
      by destruct (is_matching_basic _ b).
    + eexists. split; [done|]. cbn [shaped]. apply all_Forall, Forall_true. done.
  - destruct (items_readable e (resize_list cur (length items) (default_object e)) items)
      as (ys & -> & Hys); [apply length_resize|apply resize_shaped; [apply default_shaped|done]|done|].
    eexists. split; [done|]. by apply all_Forall.
Qed.

Lemma map_items_readable kt vt acc xs : Forall (fun kv => shaped vt (snd kv)) acc ->
  Forall (fun kv => (exists s, fst kv = VBasic s /\ is_matching_basic (btype_of s) kt = true) /\
                    readable_as F (snd kv) vt) xs ->
  exists ys, foldl (map_step F kt vt) (Some acc) xs = Some ys /\
    Forall (fun kv => shaped vt (snd kv)) ys.
Proof.
  intros Hacc Hx. revert acc Hacc.
  induction Hx as [|[k x] xs [(s & Hk & Hm) Hr] _ IH]; intros acc Hacc; [by exists acc|].
  cbn [foldl]. unfold map_step at 2. cbn [fst snd] in *. rewrite Hk, Hm. cbv zeta.
  destruct (Hr (mapped_at acc (set_as kt s) (default_object vt))) as (y & -> & Hy).
  { apply mapped_at_shaped; [apply default_shaped|done]. }
  by apply IH, mapped_set_shaped.
Qed.

Lemma map_readable kt vt pk pv items :
  (accepts (FBasic kt) pk = true -> accepts vt pv = true ->
   Forall (fun kv => (exists s, fst kv = VBasic s /\ is_matching_basic (btype_of s) kt = true) /\
                     readable_as F (snd kv) vt) items) ->
  readable_as F (VMap pk pv items) (FMap kt vt).
Proof.
  intros Hr [| | |k' v' cur] Hvar; try done. cbn [read_as shaped] in *.
  apply (all_Forall (fun kv => shaped vt (snd kv))) in Hvar.
  destruct (accepts (FBasic kt) pk && accepts vt pv) eqn:Ha.
  - apply andb_true_iff in Ha as [H1 H2].
    change (foldl _ (Some []) items) with (foldl (map_step F kt vt) (Some []) items).
    destruct (map_items_readable kt vt [] items) as (ys & -> & Hys); [constructor|auto|].
    eexists. split; [done|]. by apply (all_Forall (fun kv => shaped vt (snd kv))).
  - eexists. split; [done|]. by apply (all_Forall (fun kv => shaped vt (snd kv))).
Qed.

(** The derived levels of an object do not matter to a class of fewer levels. *)
Lemma read_deeper bt fs b vfs var :
  (type_levels (FStruct bt fs) < value_levels (VStruct (Some b) vfs))%nat ->
  read_as F (FStruct bt fs) var (VStruct (Some b) vfs) = read_as F (FStruct bt fs) var b.
Proof.
  intros Hl. destruct var as [|bvar vars| |]; try done.
  assert (E : at_levels (type_levels (FStruct bt fs)) (VStruct (Some b) vfs) =
    at_levels (type_levels (FStruct bt fs)) b).
  { unfold at_levels. cbn [value_levels] in *.
    replace (S (value_levels b) - type_levels (FStruct bt fs))%nat
      with (S (value_levels b - type_levels (FStruct bt fs)))%nat by lia. done. }
  pose proof (type_levels_pos bt fs).
  destruct b as [|b0 fs0| |]; try (cbn [value_levels] in *; lia).
  cbn [read_as]. by rewrite E.
Qed.
End ReadableContainers.

(** ** Compatible structs *)

Section Sound.
Context (F : wire_format) (src dst : SchemaDef).
Context (src_ok : schema_ok src) (dst_ok : schema_ok dst) (bonded_ok : schema_no_bonded dst).
Abbreviation ns := (zlen (structs src)).
Abbreviation nd := (zlen (structs dst)).
Abbreviation compat := (compatible src dst).

Definition struct_sound (v : value) : Prop := forall ts j n m k,
  td_id ts = BT_STRUCT -> typedef_ok ns ts -> instance_of src v ts ->
  0 <= j < nd -> compat (struct_def ts) j ->
  levels dst (Z.to_nat j) k -> (k <= m)%nat -> (nesting v <= S n)%nat ->
  readable_as F v (unfold_struct dst n m j).

Definition value_sound (v : value) : Prop := forall ts td n,
  typedef_ok ns ts -> typedef_ok nd td -> no_bonded td -> instance_of src v ts ->
  type_compat compat ts td -> (nesting v <= n)%nat ->
  accepts (unfold_typedef (structs_at dst n) td) (type_of v) = true /\
  readable_as F v (unfold_typedef (structs_at dst n) td).

Lemma struct_value b vfs : struct_sound (VStruct b vfs) -> value_sound (VStruct b vfs).
Proof.
  intros Hs ts td n Hts Htd Hnb Hi Hc Hn. pose proof Hi as (Hid & _).
  destruct td as [i z e k bd]. destruct Hnb as (Hbd & _). cbn [bonded_type] in Hbd. subst bd.
  cbn [type_compat td_id bonded_type struct_def] in Hc. destruct (i =? td_id ts) eqn:Ei.
  2:{ unfold promotes in Hc. rewrite Hid in Hc. discriminate Hc. }
  apply Z.eqb_eq in Ei. rewrite Hid in Ei. subst i. cbn [Z.eqb negb andb] in Hc.
  pose proof Htd as [Hr _]. cbn [td_id struct_def] in Hr. specialize (Hr eq_refl).
  rewrite (unfold_typedef_struct _ _ _ Htd eq_refl). cbn [struct_def]. split.
  - unfold accepts. by rewrite structs_at_id.
  - destruct n as [|n]; [cbn [nesting] in Hn; lia|].
    destruct (proj1 (proj2 (proj2 dst_ok)) (Z.to_nat z)) as [l Hl]; [lia|].
    apply (Hs ts z n (length (structs dst)) l); try done. apply levels_bound in Hl. lia.
Qed.

(** *** Members *)

Lemma fields_match_lookup vfs ds i d :
  fields_match ((fun f => (fst (fst f), snd (fst f), instance_of src (snd f))) <$> vfs) ds ->
  find_field i ds = Some d ->
  exists vf, vf ∈ vfs /\ fst vf = (i, fd_metadata d) /\ instance_of src (snd vf) (fd_type d).
Proof.
  revert ds. induction vfs as [|[[id m] v] vfs IH]; intros [|d0 ds] Hm Hf; try done.
  rewrite fmap_cons in Hm. cbn [fields_match fst snd] in Hm. destruct Hm as (-> & -> & Hi & Hm).
  unfold find_field in *. cbn [find] in Hf. destruct (fd_id d0 =? i) eqn:E.
  - injection Hf as <-. apply Z.eqb_eq in E as <-. eexists. split; [left|done].
  - destruct (IH ds Hm Hf) as (vf & Hin & H). exists vf. split; [by right|done].
Qed.

Lemma fields_match_ids vfs ds :
  fields_match ((fun f => (fst (fst f), snd (fst f), instance_of src (snd f))) <$> vfs) ds ->
  (fun f => fst (fst f)) <$> vfs = fd_id <$> ds.
Proof.
  revert ds. induction vfs as [|[[id m] v] vfs IH]; intros [|d0 ds] Hm; try done.
  rewrite fmap_cons in Hm. cbn [fields_match fst snd] in Hm. destruct Hm as (-> & _ & _ & Hm).
  rewrite !fmap_cons.
  by rewrite (IH ds Hm).
Qed.

Lemma lookup_missing vfs i ds :
  fields_match ((fun f => (fst (fst f), snd (fst f), instance_of src (snd f))) <$> vfs) ds ->
  find_field i ds = None -> lookup_field i (present_fields F vfs) = None.
Proof.
  intros Hm Hf. pose proof (fields_match_ids _ _ Hm) as Hids.
  destruct (lookup_field i (present_fields F vfs)) as [x|] eqn:E; [|done].
  unfold lookup_field in E. destruct (find _ _) as [[i' y]|] eqn:Ef; [|done].
  apply find_some in Ef as [Hin Hi]. cbn [fst] in Hi. apply Z.eqb_eq in Hi as ->.
  unfold present_fields in Hin. apply list_elem_of_In, list_elem_of_fmap in Hin as (vf & Hvf & Hin).
  apply list_elem_of_filter in Hin as [_ Hin]. injection Hvf as Hi _.
  assert (Hmem : i ∈ fd_id <$> ds).
  { rewrite <-Hids. apply list_elem_of_fmap. by exists vf. }
  apply list_elem_of_fmap in Hmem as (d & Hd & Hin'). unfold find_field in Hf.
  apply list_elem_of_In in Hin'. pose proof (find_none _ _ Hf d Hin') as Hx. cbn in Hx.
  by rewrite Hd, Z.eqb_refl in Hx.
Qed.

Lemma nesting_field vf vfs b n : vf ∈ vfs -> (nesting (VStruct b vfs) <= S n)%nat ->
  (nesting (snd vf) <= n)%nat.
Proof.
  intros Hin Hn. cbn [nesting] in Hn.
  pose proof (max_list_elem_of_le (nesting (snd vf)) ((fun f => nesting (snd f)) <$> vfs)) as Hle.
  assert (nesting (snd vf) ∈ ((fun f => nesting (snd f)) <$> vfs))
    by (apply list_elem_of_fmap; by exists vf). specialize (Hle H). lia.
Qed.

(** A field of the destination and the fields that are there. *)
Lemma field_readable b vfs s d n var : Forall (fun f => value_sound (snd f)) vfs ->
  struct_ok ns s -> typedef_ok nd (fd_type d) -> no_bonded (fd_type d) ->
  fields_match ((fun f => (fst (fst f), snd (fst f), instance_of src (snd f))) <$> vfs) (fields s) ->
  (nesting (VStruct b vfs) <= S n)%nat -> field_compat compat (fields s) d ->
  let t := unfold_typedef (structs_at dst n) (fd_type d) in
  shaped t var ->
  exists r, read_field (fd_id d, fd_metadata d, t, read_as F t) var (present_fields F vfs) = Some r /\
    shaped t r.
Proof.
  intros Hvs (_ & Hinc & Hso) Htd Hnb Hm Hn Hc t Hvar. unfold read_field.
  unfold field_compat in Hc. destruct (find_field (fd_id d) (fields s)) as [fs|] eqn:Ef.
  2:{ rewrite (lookup_missing _ _ _ Hm Ef), Hc. by exists var. }
  destruct (fields_match_lookup _ _ _ _ Hm Ef) as (vf & Hin & Hfst & Hi). destruct Hc as [Hr Hc].
  pose proof (lookup_present F (-1) vfs vf) as Hl. rewrite (fields_match_ids _ _ Hm) in Hl.
  specialize (Hl Hinc Hin). rewrite Hfst in Hl. cbn [fst] in Hl. rewrite Hl.
  destruct (omitted F vf) eqn:Ho.
  - assert (Hopt : is_required (fd_metadata d) = false).
    { destruct (is_required (fd_metadata d)) eqn:E; [|done]. exfalso. apply (Hr eq_refl).
      unfold omitted, omit_field in Ho. rewrite Hfst in Ho. cbn [snd] in Ho.
      destruct (wf_may_omit F); [|done]. apply andb_true_iff in Ho as [Ho _].
      by apply bool_decide_eq_true in Ho. }
    rewrite Hopt. by exists var.
  - rewrite Forall_forall in Hvs. assert (Hin' := Hin). apply list_elem_of_In in Hin'.
    assert (Hts : typedef_ok ns (fd_type fs)).
    { apply find_some in Ef as [Hfs _]. rewrite Forall_forall in Hso. by apply Hso. }
    destruct (Hvs vf Hin' (fd_type fs) (fd_type d) n Hts Htd Hnb Hi Hc
      (nesting_field _ _ _ _ Hin Hn)) as [Ha Hread].
    subst t. rewrite Ha. by apply Hread.
Qed.

Lemma members_readable b vfs s ds n vars : Forall (fun f => value_sound (snd f)) vfs ->
  struct_ok ns s -> Forall (fun f => typedef_ok nd (fd_type f)) ds ->
  Forall (fun f => no_bonded (fd_type f)) ds ->
  fields_match ((fun f => (fst (fst f), snd (fst f), instance_of src (snd f))) <$> vfs) (fields s) ->
  (nesting (VStruct b vfs) <= S n)%nat -> Forall (field_compat compat (fields s)) ds ->
  let fs := (fun f => (fd_id f, fd_metadata f,
    unfold_typedef (structs_at dst n) (fd_type f))) <$> ds in
  Forall2 (fun (p : value -> Prop) x => p x) ((fun f => shaped (snd f)) <$> fs) vars ->
  exists xs, read_fields ((fun f => (f, read_as F (snd f))) <$> fs) vars (present_fields F vfs)
      = Some xs /\
    Forall2 (fun (p : value -> Prop) x => p x) ((fun f => shaped (snd f)) <$> fs) xs.
Proof.
  intros Hvs Hs Htd Hnb Hm Hn Hc fs. subst fs. revert vars.
  induction Hc as [|d ds Hd Hc IH]; intros vars Hvars.
  { inversion Hvars. exists []. by split. }
  apply Forall_cons_1 in Htd as [Hdt Htd]. apply Forall_cons_1 in Hnb as [Hdn Hnb].
  rewrite !fmap_cons in Hvars. inversion Hvars as [|p var ps vars' Hvar Hvs']; subst.
  destruct (IH Htd Hnb vars' Hvs') as (xs & Hxs & Hsx).
  destruct (field_readable b vfs s d n var Hvs Hs Hdt Hdn Hm Hn Hd Hvar) as (x & Hx & Hshape).
  exists (x :: xs). rewrite !fmap_cons. cbn [read_fields snd]. rewrite Hx, Hxs.
  split; [done|]. by constructor.
Qed.

Lemma zip_shaped (fs : list (Z * Metadata * ftype)) (xs : list value) :
  Forall2 (fun (p : value -> Prop) x => p x) ((fun f => shaped (snd f)) <$> fs) xs ->
  snd <$> zip (fst <$> fs) xs = xs.
Proof.
  intros H. apply Forall2_length in H. rewrite length_fmap in H. apply snd_zip.
  rewrite length_fmap. lia.
Qed.

(** *** Structs *)

(** The base of a level, when the hierarchies have the same number of levels. *)
Lemma base_readable b s d n m :
  (forall bv, b = Some bv -> struct_sound bv) -> struct_ok ns s -> struct_ok nd d ->
  match b, base_def s with
  | None, None => True
  | Some bv, Some tb => instance_of src bv tb
  | _, _ => False
  end ->
  match base_def d with
  | None => True
  | Some td => exists ts, base_def s = Some ts /\ compat (struct_def ts) (struct_def td)
  end ->
  (base_def d = None -> base_def s = None) ->
  (forall td, base_def d = Some td -> exists k, levels dst (Z.to_nat (struct_def td)) k /\ (k <= m)%nat) ->
  (forall bv, b = Some bv -> (nesting bv <= S n)%nat) ->
  let bt := (fun t => unfold_struct dst n m (struct_def t)) <$> base_def d in
  forall bvar, match bt, bvar with
    | None, None => True | Some bt', Some bv' => shaped bt' bv' | _, _ => False end ->
  exists r, (match bt, bvar, b with
    | None, None, None => Some None
    | Some bt', Some bvar', Some bv' => Some <$> read_as F bt' bvar' bv'
    | _, _, _ => None end) = Some r /\
    match bt, r with
    | None, None => True | Some bt', Some bv' => shaped bt' bv' | _, _ => False end.
Proof.
  intros Hb Hs Hd Hi Hc Hno Hl Hn bt bvar Hvar. subst bt.
  destruct (base_def d) as [tb|] eqn:Ed; cbn [fmap option_fmap option_map] in *.
  - destruct Hc as (ts & Es & Hc). rewrite Es in Hi. destruct b as [bv|]; [|done].
    destruct bvar as [bvar|]; [|done].
    destruct (struct_ok_base _ _ _ Hs Es) as [Hts1 Hts2], (struct_ok_base _ _ _ Hd Ed) as [Htd1 Htd2].
    destruct (Hl tb eq_refl) as (k & Hk & Hkm).
    assert (Hr : 0 <= struct_def tb < nd).
    { destruct tb as [i z e k' bd]. destruct Htd2 as [Hr _]. by apply Hr. }
    destruct (Hb bv eq_refl ts (struct_def tb) n m k Hts1 Hts2 Hi Hr Hc Hk Hkm (Hn bv eq_refl) bvar Hvar)
      as (r & -> & Hshape).
    by exists (Some r).
  - rewrite (Hno eq_refl) in Hi. destruct b; [done|]. destruct bvar; [done|]. by exists None.
Qed.

Lemma no_bonded_fields j d : structs dst !! Z.to_nat j = Some d ->
  Forall (fun f => no_bonded (fd_type f)) (fields d).
Proof.
  intros Hd. destruct bonded_ok as [_ Hb]. rewrite Forall_forall in Hb.
  apply Hb, list_elem_of_In. by eapply list_elem_of_lookup_2.
Qed.

Lemma struct_readable b vfs : (forall bv, b = Some bv -> struct_sound bv) ->
  Forall (fun f => value_sound (snd f)) vfs -> struct_sound (VStruct b vfs).
Proof.
  intros Hb Hvs ts j n m k Hid Hts Hi Hj Hc Hk Hkm Hn.
  destruct (struct_at src ts src_ok Hid Hts) as (s & ls & Hs & Hsok & Hls & _).
  pose proof (instance_levels src _ _ (proj1 (proj2 src_ok)) Hi Hid) as Hlv.
  pose proof (levels_det _ _ _ Hls _ Hlv) as ->. clear Hls.
  destruct Hi as (_ & _ & s' & Hs' & Hbase & Hm). assert (s' = s) as -> by congruence.
  assert (Hdj : exists d, structs dst !! Z.to_nat j = Some d).
  { apply lookup_lt_is_Some_2. lia. }
  destruct Hdj as [d Hd].
  assert (Hdok : struct_ok nd d).
  { pose proof (proj1 (proj2 dst_ok)) as Hall. rewrite Forall_forall in Hall.
    apply Hall, list_elem_of_In. by eapply list_elem_of_lookup_2. }
  apply compatible_unfold in Hc.
  destruct (compat_at src dst _ _ _ _ _ _ _ Hs Hd Hlv Hk Hc) as [Hle Hc'].
  assert (Hnb : forall bv, b = Some bv -> (nesting bv <= S n)%nat).
  { intros bv ->. cbn [nesting] in Hn. lia. }
  destruct (decide (k < _)%nat) as [Hlt|Hge].
  - destruct Hc' as (tb & Etb & Hc'). rewrite Etb in Hbase.
    destruct b as [bv|]; [|done]. destruct (struct_ok_base _ _ _ Hsok Etb) as [Htb1 Htb2].
    intros var Hvar. destruct m as [|m].
    { apply levels_bound in Hk. lia. }
    rewrite (unfold_struct_eq dst n m j d Hd) in *.
    rewrite read_deeper.
    + pose proof (Hb bv eq_refl tb j n (S m) k Htb1 Htb2 Hbase Hj Hc' Hk Hkm (Hnb bv eq_refl)) as Hr.
      rewrite (unfold_struct_eq dst n m j d Hd) in Hr. by apply Hr.
    + rewrite <-(unfold_struct_eq dst n m j d Hd), (unfold_levels dst n (S m) j k Hk Hkm). done.
  - destruct Hc' as [Hcb Hcf]. assert (Heq : value_levels (VStruct b vfs) = k) by lia.
    intros var Hvar. destruct m as [|m]; [apply levels_bound in Hk; lia|].
    pose proof (unfold_levels dst n (S m) j k Hk Hkm) as Hul.
    rewrite (unfold_struct_eq dst n m j d Hd) in *.
    destruct var as [|bvar vars| |]; try done. destruct Hvar as [Hvb Hvf]. cbn [read_as].
    rewrite at_levels_id by lia.
    destruct (base_readable b s d n m Hb Hsok Hdok Hbase Hcb) with (bvar := bvar)
      as (r & Hr & Hrs); [| |done|done|].
    + intros Ed. rewrite Ed in Hul. cbn in Hul. subst k. rewrite <-Hul in Hlv.
      by eapply levels_one.
    + intros td Ed. inversion Hk as [? d' Hi' Hb'|? d' t' k' Hi' Hb' Ht' Hl']; subst;
        assert (d' = d) as -> by congruence; [congruence|].
      assert (t' = td) as -> by congruence. exists k'. split; [done|lia].
    + rewrite Hr. destruct (members_readable b vfs s (fields d) n (snd <$> vars) Hvs Hsok)
        as (xs & Hxs & Hsx); try done.
      { by destruct Hdok as (_ & _ & ?). }
      { by apply (no_bonded_fields j). }
      rewrite Hxs. eexists. split; [done|]. cbn [shaped]. split; [exact Hrs|].
      by rewrite (zip_shaped _ _ Hsx).
Qed.

(** *** All values *)

Lemma nesting_item {A} (f : A -> nat) x (l : list A) n : x ∈ l -> (max_list (f <$> l) <= n)%nat ->
  (f x <= n)%nat.
Proof.
  intros Hin Hn. pose proof (max_list_elem_of_le (f x) (f <$> l)) as Hle.
  assert (Hf : f x ∈ f <$> l) by (apply list_elem_of_fmap; by exists x). specialize (Hle Hf). lia.
Qed.

Lemma basic_value s : value_sound (VBasic s).
Proof.
  intros ts td n Hts Htd _ Hi Hc _. cbn [instance_of type_of] in *.
  assert (Hp : exists b, basic_type_of_id (td_id td) = Some b /\
    is_matching_basic (btype_of s) b = true).
  { destruct td as [i z e k bd]. cbn [type_compat td_id bonded_type element key] in *.
    destruct (i =? td_id ts) eqn:E.
    - apply Z.eqb_eq in E. exists (btype_of s). rewrite E, Hi, type_id_roundtrip.
      by rewrite is_matching_basic_refl.
    - unfold promotes in Hc. rewrite Hi, type_id_roundtrip in Hc.
      destruct (basic_type_of_id i) as [b|]; [by exists b|done]. }
  destruct Hp as (b & Hb & Hm). rewrite (unfold_typedef_basic _ _ b Hb). split.
  - by rewrite accepts_basic_iff, type_id_roundtrip.
  - by apply basic_readable.
Qed.

(** Types of the same kind of container. *)
Lemma same_container ts td : basic_type_of_id (td_id ts) = None -> type_compat compat ts td ->
  no_bonded td -> td_id ts <> BT_STRUCT ->
  td_id td = td_id ts /\
  (forall e, element td = Some e -> no_bonded e /\
     exists e', element ts = Some e' /\ type_compat compat e' e) /\
  (forall k, key td = Some k -> no_bonded k /\
     exists k', key ts = Some k' /\ type_compat compat k' k).
Proof.
  intros Hb Hc Hnb Hs. destruct td as [i z e k bd]. destruct Hnb as (_ & Hne & Hnk).
  cbn [type_compat td_id element key bonded_type] in *. destruct (i =? td_id ts) eqn:E.
  2:{ unfold promotes in Hc. by rewrite Hb in Hc. }
  apply Z.eqb_eq in E. subst i.
  replace (td_id ts =? BT_STRUCT) with false in Hc by (symmetry; by apply Z.eqb_neq).
  cbn [andb] in Hc. destruct Hc as [He Hk]. split_and!; [done| |].
  - intros e' ->. split; [done|]. destruct (element ts); [by eexists|done].
  - intros k' ->. split; [done|]. destruct (key ts); [by eexists|done].
Qed.

Lemma list_value kt et items : Forall value_sound items -> value_sound (VList kt et items).
Proof.
  intros Hv ts td n Hts Htd Hnb (Hid & es & Hes & -> & Hall) Hc Hn. apply all_Forall in Hall.
  destruct (same_container ts td) as (Hsame & Hel & _); try done.
  { by rewrite Hid; destruct kt. } { by rewrite Hid; destruct kt. }
  rewrite Hid in Hsame.
  destruct (container_element _ _ kt Hts Hid) as (_ & es' & Hes' & Htes & Hbs & _).
  assert (es' = es) as -> by congruence.
  destruct (container_element _ _ kt Htd Hsame) as (_ & ed & Hed & Hted & Hbd & ->).
  destruct (Hel ed Hed) as (Hnbe & es' & Hes'' & Hce). assert (es' = es) as -> by congruence.
  assert (Hitems : Forall (fun x => readable_as F x (unfold_typedef (structs_at dst n) ed)) items).
  { rewrite Forall_forall in *. intros x Hx. apply (Hv x Hx es ed n); try done; [by apply Hall|].
    apply (nesting_item nesting x items); [by apply list_elem_of_In|done]. }
  split; [unfold accepts; cbn [field_type_id type_of]; by rewrite Z.eqb_refl|].
  apply list_readable.
  - intros Hk. destruct (Hbd Hk) as [b Hb]. exists b. by apply unfold_typedef_basic.
  - done.
  - intros _ Hk. destruct (Hbs Hk) as [b Hb]. rewrite Forall_forall in *. intros x Hx.
    specialize (Hall x Hx). pose proof (instance_type _ _ _ Hall) as Hty.
    rewrite <-Hty in Hb. destruct (basic_of_type _ _ Hb) as (s & -> & _). by exists s.
Qed.

Lemma map_value pk pv items :
  Forall (fun kv => value_sound (fst kv) /\ value_sound (snd kv)) items ->
  value_sound (VMap pk pv items).
Proof.
  intros Hv ts td n Hts Htd Hnb (Hid & ks & es & Hks & Hes & -> & -> & Hall) Hc Hn.
  apply (all_Forall (fun kv => instance_of src (fst kv) ks /\ instance_of src (snd kv) es)) in Hall.
  destruct (same_container ts td) as (Hsame & Hel & Hkl); try done; [by rewrite Hid..|].
  rewrite Hid in Hsame.
  destruct (map_parts _ _ Hts Hid) as (ks' & es' & bs & Hks' & Hes' & Htks & Htes & Hbs & _).
  assert (ks' = ks) as -> by congruence. assert (es' = es) as -> by congruence.
  destruct (map_parts _ _ Htd Hsame) as (kd & ed & b & Hkd & Hed & Htkd & Hted & Hbd & ->).
  destruct (Hel ed Hed) as (Hnbe & e' & He' & Hce). assert (e' = es) as -> by congruence.
  destruct (Hkl kd Hkd) as (Hnbk & k' & Hk' & Hck). assert (k' = ks) as -> by congruence.
  split; [unfold accepts; cbn [field_type_id type_of]; by rewrite Z.eqb_refl|].
  apply map_readable. intros _ _. rewrite Forall_forall in *. intros kv Hkv.
  destruct (Hall kv Hkv) as [Hik Hie], (Hv kv Hkv) as [Hvk Hve]. split.
  - destruct (Hvk ks kd n Htks Htkd Hnbk Hik Hck) as [Ha _].
    { pose proof (instance_type _ _ _ Hik) as Hty. rewrite <-Hty in Hbs.
      destruct (basic_of_type _ _ Hbs) as (s & -> & _). cbn. lia. }
    pose proof (instance_type _ _ _ Hik) as Hty. rewrite <-Hty in Hbs.
    destruct (basic_of_type _ _ Hbs) as (s & Es & _). exists s. split; [done|].
    rewrite (unfold_typedef_basic _ _ b Hbd), Es in Ha. cbn [type_of] in Ha.
    by rewrite accepts_basic_iff, type_id_roundtrip in Ha.
  - apply (Hve es ed n); try done.
    apply (nesting_item (fun kv => nesting (snd kv)) kv items); [by apply list_elem_of_In|done].
Qed.

Lemma all_sound v : value_sound v /\ struct_sound v.
Proof.
  induction v as [s|b fs Hb Hf|k t items Hi|kt vt items Hi] using value_ind_nested.
  - split; [apply basic_value|]. intros ts j n m l Hid _ Hi. cbn in Hi. rewrite Hid in Hi.
    by destruct (btype_of s) as [|[]|[]| | | |].
  - assert (Hs : struct_sound (VStruct b fs)).
    { apply struct_readable; [intros bv E; by apply Hb|].
      eapply Forall_impl; [|exact Hf]. by intros f [? _]. }
    split; [by apply struct_value|done].
  - split; [apply list_value; eapply Forall_impl; [|exact Hi]; by intros x [? _]|].
    intros ts j n m l Hid _ [Hi' _]. rewrite Hid in Hi'. by destruct k.
  - split; [apply map_value; eapply Forall_impl; [|exact Hi]; by intros x [[? _] [? _]]|].
    intros ts j n m l Hid _ [Hi' _]. by rewrite Hid in Hi'.
Qed.
End Sound.

(** ** The types are well-formed, and so are the objects *)

Section Wellformed.
Context (s : SchemaDef) (ok : schema_ok s).
Abbreviation n_structs := (zlen (structs s)).

Lemma struct_ok_at i d : structs s !! i = Some d -> struct_ok n_structs d.
Proof.
  intros Hd. destruct ok as (_ & Hs & _). rewrite Forall_forall in Hs.
  apply Hs, list_elem_of_In. by eapply list_elem_of_lookup_2.
Qed.

Lemma unfold_typedef_ok st t : (forall i, type_ok (st i)) -> typedef_ok n_structs t ->
  type_ok (unfold_typedef st t).
Proof.
  intros Hst. induction t as [i z e k bd IHe _] using TypeDef_ind_nested. intros Ht.
  cbn [unfold_typedef td_id element key struct_def].
  destruct (basic_type_of_id i) eqn:Hb; [done|].
  destruct Ht as [_ Ht]. cbn [td_id element key] in Ht.
  destruct e as [e|], k as [k|]; [| |apply Hst|apply Hst].
  - destruct Ht as (_ & He & _ & [b ->]). cbn [type_ok]. by apply IHe.
  - destruct Ht as [Hs He]. split; [|by apply IHe].
    intros Hset. apply Z.eqb_eq in Hset. subst i. destruct Hs as [?|[_ [b Hb']]]; [done|].
    exists b. by apply unfold_typedef_basic.
Qed.

Lemma unfold_struct_ok n m i : type_ok (unfold_struct s n m i).
Proof.
  revert m i. induction n as [n IHn] using lt_wf_ind. intros m.
  assert (Hst : forall i, type_ok (structs_at s n i)).
  { intros i. destruct n as [|n]; [done|]. apply IHn. lia. }
  induction m as [|m IHm]; intros i; [by destruct n|].
  destruct (structs s !! Z.to_nat i) as [d|] eqn:Hd; [|destruct n; cbn [unfold_struct]; by rewrite Hd].
  rewrite (unfold_struct_eq _ _ _ _ d Hd). destruct (struct_ok_at _ _ Hd) as (Hb & Hinc & Hf).
  cbn [type_ok]. split_and!.
  - destruct (base_def d) as [t|]; [|done]. split; [apply unfold_struct_id|apply IHm].
  - assert (E : (fun f : Z * Metadata * ftype => fst (fst f)) <$> ((fun f => (fd_id f, fd_metadata f,
      unfold_typedef (structs_at s n) (fd_type f))) <$> fields d) = fd_id <$> fields d).
    { rewrite <-list_fmap_compose. by apply list_fmap_ext. }
    by rewrite E.
  - apply (all_Forall (fun f => type_ok (snd f))). rewrite Forall_fmap.
    eapply Forall_impl; [|exact Hf]. intros f Hft. by apply unfold_typedef_ok.
Qed.

Lemma schema_type_ok n : type_ok (schema_type s n).
Proof. destruct n; [done|apply unfold_struct_ok]. Qed.

Lemma instance_ordered v : forall t, typedef_ok n_structs t -> instance_of s v t -> ordered v.
Proof.
  induction v as [x|b fs Hb Hf|kt et items Hi|kt vt items Hi] using value_ind_nested;
    intros t Ht Hv; [done| | |]; cbn [instance_of ordered] in *.
  - destruct Hv as (_ & _ & d & Hd & Hbase & Hm). pose proof (struct_ok_at _ _ Hd) as Hdok.
    split_and!.
    + destruct b as [bv|]; [|done]. destruct (base_def d) as [tb|] eqn:Eb; [|done].
      destruct (struct_ok_base _ _ _ Hdok Eb) as [_ Htb]. by apply (Hb bv eq_refl tb).
    + rewrite (fields_match_ids s fs (fields d) Hm). by destruct Hdok as (_ & ? & _).
    + apply (all_Forall (fun f => ordered (snd f))). destruct Hdok as (_ & _ & Hdf).
      clear Hd Hbase Hb. revert Hm Hdf. generalize (fields d). clear -Hf.
      induction Hf as [|[[id m] v] fs Hv _ IH]; intros ds Hm Hdf; [constructor|].
      rewrite fmap_cons in Hm. destruct ds as [|d ds]; [done|].
      destruct Hm as (_ & _ & Hi & Hm). apply Forall_cons_1 in Hdf as [Hd Hdf].
      constructor; [by apply (Hv (fd_type d))|by apply (IH ds)].
  - destruct Hv as (Hid & e & He & -> & Hall). apply all_Forall in Hall.
    destruct (container_element _ _ kt Ht Hid) as (_ & e' & He' & Hte & _).
    assert (e' = e) as -> by congruence. apply all_Forall. rewrite Forall_forall in *.
    intros x Hx. apply (Hi x Hx e); [done|by apply Hall].
  - destruct Hv as (Hid & k & e & Hk & He & -> & -> & Hall).
    apply (all_Forall (fun kv => instance_of s (fst kv) k /\ instance_of s (snd kv) e)) in Hall.
    destruct (map_parts _ _ Ht Hid) as (k' & e' & bk & Hk' & He' & Htk & Hte & _).
    assert (k' = k) as -> by congruence. assert (e' = e) as -> by congruence.
    apply (all_Forall (fun kv => ordered (fst kv) /\ ordered (snd kv))). rewrite Forall_forall in *.
    intros kv Hkv. destruct (Hi kv Hkv) as [H1 H2], (Hall kv Hkv) as [I1 I2].
    split; [by apply (H1 k)|by apply (H2 e)].
Qed.
End Wellformed.

(** C4: validation is sound.  If [Validate] accepts the pair of schemas, every object of
    the source schema that the tagged protocols can carry is deserialized with the type of
    the destination schema, without an exception and to the end of its payload, whatever
    the evolution between the schemas: recursive classes, hierarchies of different depth,
    promoted, added, removed and required fields. *)
Theorem validated_deserializes {R} `{InputStreamLaws R} version (P : ProtocolReader R) F
    (src dst : SchemaDef) v n identical (s : R) rest :
  (P = FastBinaryReader /\ F = fb_format) \/
  (P = CompactBinaryReader version /\ F = cb_format version) ->
  schema_ok src -> schema_ok dst -> schema_no_bonded dst ->
  Validate.Validate (schema_of src) (schema_of dst) = Ok identical ->
  instance_of src v (root src) -> (nesting v <= n)%nat ->
  value_ok v -> zlen (encode F false v) < 2 ^ 32 ->
  readable s -> view s = encode F false v ++ rest ->
  exists r s', Deserialize P (schema_type dst n) s = (Ok r, s') /\ view s' = rest /\
    read_as F (schema_type dst n) (default_object (schema_type dst n)) v = Some r.
Proof.
  intros HP Hsrc Hdst Hnb Hval Hi Hn Hv Hl Hs Hw.
  pose proof Hsrc as (_ & _ & _ & Hr1 & Hr2). pose proof Hdst as (_ & _ & _ & Hd1 & Hd2).
  destruct (validate_decides_pair src dst Hsrc Hdst) as [(b & E & Hc)|[E _]];
    [|by rewrite E in Hval].
  assert (Hread : exists r, read_as F (schema_type dst n)
    (default_object (schema_type dst n)) v = Some r /\ shaped (schema_type dst n) r).
  { destruct (all_sound F src dst Hsrc Hdst Hnb v) as [Hsound _].
    destruct (Hsound (root src) (root dst) n) as [_ Hread]; try done; [apply Hnb| |].
    - destruct Hnb as [Hrb _]. destruct (root dst) as [i z e k bd]. destruct Hrb as [Hbd _].
      cbn [type_compat td_id bonded_type struct_def] in *. subst bd i. by rewrite Hr1.
    - rewrite (unfold_typedef_struct _ _ _ Hd2 Hd1) in Hread. apply Hread, default_shaped. }
  destruct Hread as (r & Hread & _).
  assert (Hty : type_of v = field_type_id (schema_type dst n)).
  { rewrite (instance_type _ _ _ Hi), Hr1. unfold schema_type. by rewrite structs_at_id. }
  assert (Hlaws : reader_laws P F).
  { destruct HP as [[-> ->]|[-> ->]]; [apply fb_reader_laws|apply cb_reader_laws]. }
  destruct (Deserialize_reads P F (schema_type dst n) v r Hlaws (schema_type_ok dst Hdst n) Hv
    (instance_ordered src Hsrc v _ Hr2 Hi) Hty Hl Hread s rest Hs Hw) as (s' & Es & Vs & _).
  by exists r, s'.
Qed.

(** A tree with one child, written with [tree_schema], read with [later_schema]. *)
Definition tree_node (z : Z) (children : list value) : value :=
  VStruct (Some (VStruct None [(0, Metadata_new, VBasic (SInt W32 z))]))
    [(0, Metadata_new, VList false BT_STRUCT children);
     (5, Metadata_new, VMap BT_STRING BT_STRUCT [])].
Definition tree_value : value := tree_node 7 [tree_node 8 []].

Lemma tree_value_instance : instance_of tree_schema tree_value (root tree_schema).
Proof.
  repeat first [ apply conj | by vm_compute | (eexists; split; [reflexivity|]) | (do 2 eexists) ].
Qed.

Lemma validated_deserializes_witness :
  exists r s', Deserialize (CompactBinaryReader v2) (schema_type later_schema 3)
      (buffer_of (encode (cb_format v2) false tree_value)) = (Ok r, s') /\ view s' = [].
Proof.
  destruct (buffer_reads (encode (cb_format v2) false tree_value)) as [H1 H2]; [by vm_compute|].
  assert (E : Validate.Validate (schema_of tree_schema) (schema_of later_schema) = Ok false)
    by by vm_compute.
  assert (Hnb : schema_no_bonded later_schema) by (repeat constructor).
  assert (Hv : value_ok tree_value) by by_parts.
  assert (Hn : (nesting tree_value <= 3)%nat) by (vm_compute; lia).
  destruct (validated_deserializes v2 (CompactBinaryReader v2) (cb_format v2) tree_schema
    later_schema tree_value 3 false (buffer_of (encode (cb_format v2) false tree_value)) []
    (or_intror (conj eq_refl eq_refl)) tree_schema_ok later_schema_ok Hnb E tree_value_instance
    Hn Hv eq_refl H1 (eq_trans H2 (eq_sym (app_nil_r _)))) as (r & s' & D & V & _).
  exists r, s'. exact (conj D V).
Defined.
