(* ===== verification/Transcode.v ===== *)
(** Transcoding: a serialized object written with another protocol
    (cpp/inc/bond/core/transforms.h [Serializer], bonded_void.h, value.h [value<void>],
    parser.h and detail/inheritance.h with a runtime schema, detail/typeid_value.h,
    detail/parser_utils.h).

    The parser drives the serializer without ever making the object.  What is copied is
    decided by the payload; the runtime schema names the fields it knows, and may be
    the empty one of [Unknown]. *)

From stdpp Require Import strings.
From S2P Require Import Prelude Streams DataType Metadata Protocol Schema Parser.
From S2P Require Import RuntimeSchema Validate.

Section Transcode.
Context {R W : Type} `{Readable R} (P : ProtocolReader R) (Q : ProtocolWriter W).

(** The state is the reader and the writer. *)
Definition input {A} (m : M R A) : M (R * W) A := zoom fst (fun r s => (r, snd s)) m.
Definition output {A} (m : M W A) : M (R * W) A := zoom snd (fun w s => (fst s, w)) m.

(** ** Values of a basic type *)

(** [Serializer::Write(value<T, Reader>)]. *)
Definition WriteBasic (t : btype) : M (R * W) unit :=
  let! data := input (Read P t) in output (Write Q data).

(** [BasicTypeField], with [Serializer::Field] or [UnknownField] for the value; a tag of
    no basic type is not read. *)
Definition BasicTypeField (type : BondDataType) (id : Z) : M (R * W) unit :=
  match basic_type_of_id type with
  | Some t =>
      output (WriteFieldBegin Q type id) ;;; WriteBasic t ;;; output (WriteFieldEnd Q)
  | None => ret tt
  end.

(** ** Schemas for what the schema does not describe *)

(** [value<void, Reader>(input, type)]: a schema with a root of the type and no
    structs. *)
Definition untyped (type : BondDataType) : RuntimeSchema :=
  schema_of (mkSchemaDef [] (mkTypeDef type 0 None None false)).

(** The schema [DynamicParser::UnknownField] gives an unknown field. *)
Definition unknown_field_schema (type : BondDataType) : RuntimeSchema :=
  if type =? BT_STRUCT then unknown_schema else untyped type.

(** The schema of an element whose type in the payload is [type]. *)
Definition payload_schema (element : RuntimeSchema) (type : BondDataType) : RuntimeSchema :=
  if type =? GetTypeId element then element else untyped type.

(** ** Containers and fields; [nested] writes a struct or container of a schema *)

Section Nested.
Context (nested : RuntimeSchema -> M (R * W) unit).

(** [DeserializeContainer(transform, element, input)] and
    [Serializer::Container(element, size)]. *)
Definition Container (type : BondDataType) (size : Z) (write : M (R * W) unit) :
    M (R * W) unit :=
  output (WriteContainerBegin Q size type) ;;;
  repeatM (Z.to_nat size) write ;;;
  output (WriteContainerEnd Q).

Definition DeserializeContainer (element : RuntimeSchema) : M (R * W) unit :=
  let! h := input (ReadContainerBegin P (GetTypeId element)) in
  (if is_container_or_struct (snd h)
   then Container (snd h) (fst h) (nested (payload_schema element (snd h)))
   else
     match basic_type_of_id (snd h) with
     | Some t => Container (snd h) (fst h) (WriteBasic t)
     | None => ret tt
     end) ;;;
  input (ReadContainerEnd P).

(** [DeserializeMap(transform, keyType, element, input)]: [MapByElement] and [MapByKey]
    select the types, [Serializer::Container(key, value, size)] writes. *)
Definition MapContainer (type : BondDataType * BondDataType) (size : Z)
    (write : M (R * W) unit) : M (R * W) unit :=
  output (WriteMapBegin Q size type) ;;;
  repeatM (Z.to_nat size) write ;;;
  output (WriteContainerEnd Q).

Definition MapByKey (type : BondDataType * BondDataType) (size : Z)
    (write : M (R * W) unit) : M (R * W) unit :=
  match basic_type_of_id (fst type) with
  | Some t => MapContainer type size (WriteBasic t ;;; write)
  | None => ret tt
  end.

Definition DeserializeMap (keyType : BondDataType) (element : RuntimeSchema) :
    M (R * W) unit :=
  let! h := input (ReadMapBegin P (keyType, GetTypeId element)) in
  (if is_container_or_struct (snd (snd h))
   then MapByKey (snd h) (fst h) (nested (payload_schema element (snd (snd h))))
   else
     match basic_type_of_id (snd (snd h)) with
     | Some t => MapByKey (snd h) (fst h) (WriteBasic t)
     | None => ret tt
     end) ;;;
  input (ReadContainerEnd P).

(** [Serializer::Field] and [UnknownField] for a struct or container. *)
Definition WriteNested (type : BondDataType) (id : Z) (r : RuntimeSchema) : M (R * W) unit :=
  output (WriteFieldBegin Q type id) ;;; nested r ;;; output (WriteFieldEnd Q).

(** [DynamicParser::UnknownField]. *)
Definition UnknownField (type : BondDataType) (id : Z) : M (R * W) unit :=
  if is_container_or_struct type then WriteNested type id (unknown_field_schema type)
  else BasicTypeField type id.

Definition NextField : M (R * W) (BondDataType * Z) := input (ReadSubsequentField P).

(** The fields of the schema that are passed over, and the rest. *)
Fixpoint omitted_fields (type : BondDataType) (id : Z) (rest : list FieldDef) :
    list FieldDef * list FieldDef :=
  match rest with
  | f :: rest' =>
      if (fd_id f <? id) || is_stop type then
        let r := omitted_fields type id rest' in (f :: fst r, snd r)
      else ([], rest)
  | [] => ([], [])
  end.

(** [DynamicParser::ReadFields] with a runtime schema. *)
Fixpoint RuntimeReadFields (schema : RuntimeSchema) (fuel : nat) (rest : list FieldDef)
    (tag : BondDataType * Z) : M (R * W) (BondDataType * Z) :=
  match fuel with
  | O => fail OutOfFuel
  | S fuel' =>
      let '(type, id) := tag in
      let '(omitted, rest) := omitted_fields type id rest in
      forM omitted (fun f =>
        output (WriteFieldOmitted Q (td_id (fd_type f)) (fd_id f) (fd_metadata f))) ;;;
      if is_stop type then ret tag
      else
        let next (rest : list FieldDef) :=
          let! tag' := NextField in RuntimeReadFields schema fuel' rest tag' in
        match rest with
        | f :: rest' =>
            if fd_id f =? id then
              (if is_container_or_struct type then
                 if td_id (fd_type f) =? type
                 then WriteNested type id (with_field schema f)
                 else UnknownField type id
               else BasicTypeField type id) ;;; next rest'
            else UnknownField type id ;;; next rest
        | [] => UnknownField type id ;;; next []
        end
  end.

(** [ReadUnknownFields]: a base's end is written as one, unknown fields are copied. *)
Fixpoint CopyUnknownFields (fuel : nat) (tag : BondDataType * Z) : M (R * W) unit :=
  match fuel with
  | O => fail OutOfFuel
  | S fuel' =>
      if fst tag =? BT_STOP then ret tt
      else
        (if fst tag =? BT_STOP_BASE then output (WriteStructEnd Q true)
         else UnknownField (fst tag) (snd tag)) ;;;
        let! tag' := NextField in CopyUnknownFields fuel' tag'
  end.

Definition with_input {A} (extra : nat) (m : nat -> M (R * W) A) : M (R * W) A :=
  fun s => m (2 + extra + length (view (fst s)))%nat s.

(** [DynamicParser::ReadFields(schema, transform)]; the result tells whether a base ended
    the struct. *)
Definition CopyFields (base : bool) (schema : RuntimeSchema) (fields : list FieldDef) :
    M (R * W) bool :=
  let! tag := input (ReadFieldBegin P) in
  let! tag := with_input (length fields) (fun fuel => RuntimeReadFields schema fuel fields tag) in
  let! done :=
    if negb base then with_input 0 (fun fuel => CopyUnknownFields fuel tag) ;;; ret false
    else ret (fst tag =? BT_STOP) in
  input (ReadFieldEnd P) ;;; ret done.

(** [Apply(Serializer(output, base), bonded<void>(input, schema, base))]: the dynamic
    parser reads a struct between [StructBegin] and [StructEnd], its base with a parser
    of its own.  [Serializer::Base] returns [false] whatever the base's parser
    returned. *)
Fixpoint CopyStruct (levels : nat) (base : bool) (schema : RuntimeSchema) : M (R * W) bool :=
  match levels with
  | O => fail OutOfFuel
  | S levels' =>
      input (ReadStructBegin P base) ;;;
      let! _ := of_outcome (depth_of schema) in
      let! d := of_outcome (GetStruct schema) in
      output (WriteStructBegin Q base) ;;;
      (let! has_base := of_outcome (HasBase schema) in
       if (has_base : bool) then
         let! b := of_outcome (GetBaseSchema schema) in
         let! _ := CopyStruct levels' true b in ret tt
       else ret tt) ;;;
      let! done := CopyFields base schema (fields d) in
      output (WriteStructEnd Q base) ;;;
      input (ReadStructEnd P base) ;;;
      ret done
  end.
End Nested.

Definition levels_of (r : RuntimeSchema) : nat := S (length (structs (rs_schema r))).

(** [value<void>::_Apply(Serializer(output))], for a writer whose protocol has tags (an
    untagged one would marshal a [bonded<T>] into a blob). *)
Fixpoint Transcode (fuel : nat) (r : RuntimeSchema) : M (R * W) unit :=
  match fuel with
  | O => fail OutOfFuel
  | S fuel' =>
      if GetTypeId r =? BT_STRUCT then
        let! _ := CopyStruct (Transcode fuel') (levels_of r) false r in ret tt
      else if GetTypeId r =? BT_MAP then
        DeserializeMap (Transcode fuel') (GetTypeId (key_schema r)) (element_schema r)
      else DeserializeContainer (Transcode fuel') (element_schema r)
  end.

(** [Apply(SerializeTo(output), bonded<void>(input, schema))]; every level of nesting is
    preceded by a byte of the payload. *)
Definition Apply_bonded (schema : RuntimeSchema) : M (R * W) unit :=
  with_input 0 (fun fuel => Transcode fuel schema).
End Transcode.
