(* ===== verification/TranscodeCorrect.v ===== *)
(** Transcoding keeps the payload's value.

    For any reader and any writer that keep their laws, what is written is the
    payload the serializer would have written from the object itself: with the schema
    of the object, with one of fewer levels or with other fields, and with no schema
    at all. *)

From stdpp Require Import strings sets.
From S2P Require Import Prelude Streams DataType Metadata Protocol Serializer Schema.
From S2P Require Import Parser ParserCorrect RuntimeSchema Validate ValidateSound Transcode.

(** * When a schema fits a payload *)

(** Which parts of a payload the schema is used for, and what it has to say there: a
    field the schema has with the type of the payload is copied with the schema's
    type, an element the same, everything else as unknown.  With [exact] a struct has
    as many levels as in the schema; otherwise it may have more. *)
Definition struct_of (r : RuntimeSchema) : option StructDef :=
  structs (rs_schema r) !! Z.to_nat (struct_def (rs_type r)).

Definition field_fits (fits_value : RuntimeSchema -> Prop) (r : RuntimeSchema)
    (ds : list FieldDef) (id : Z) (type : BondDataType) : Prop :=
  forall d, d ∈ ds -> fd_id d = id -> td_id (fd_type d) = type -> fits_value (with_field r d).

Fixpoint fits_schema (v : value) (exact : bool) (r : RuntimeSchema) : Prop :=
  match v with
  | VBasic _ => True
  | VStruct b fs =>
      GetTypeId r = BT_STRUCT /\
      ((exists d, struct_of r = Some d /\
          match b, base_def d with
          | None, None => True
          | Some bv, Some t => td_id t = BT_STRUCT /\ fits_schema bv true (with_type r t)
          | _, _ => False
          end /\
          all ((fun f => field_fits (fits_schema (snd f) false) r (fields d)
                           (fst (fst f)) (type_of (snd f))) <$> fs)) \/
       (exact = false /\ match b with None => False | Some bv => fits_schema bv false r end))
  | VList is_set et items =>
      GetTypeId r = type_of v /\
      all ((fun x => fits_schema x false (payload_schema (element_schema r) et)) <$> items)
  | VMap kt vt items =>
      GetTypeId r = BT_MAP /\
      all ((fun kv => fits_schema (snd kv) false (payload_schema (element_schema r) vt)) <$> items)
  end.

(** The types in container headers are data types, map keys are basic. *)
Definition known_type (t : BondDataType) : Prop := 2 <= t <= 18.

Fixpoint types_ok (v : value) : Prop :=
  match v with
  | VBasic _ => True
  | VStruct b fs =>
      match b with None => True | Some bv => types_ok bv end /\
      all ((fun f => types_ok (snd f)) <$> fs)
  | VList _ et items => known_type et /\ all (types_ok <$> items)
  | VMap kt vt items =>
      is_Some (basic_type_of_id kt) /\ known_type vt /\ all ((fun kv => types_ok (snd kv)) <$> items)
  end.

(** How deep structs and containers are nested. *)
Fixpoint depth (v : value) : nat :=
  match v with
  | VBasic _ => 0
  | VStruct b fs =>
      S (Nat.max (match b with None => 0 | Some bv => depth bv end)
           (max_list ((fun f => depth (snd f)) <$> fs)))
  | VList _ _ items => S (max_list (depth <$> items))
  | VMap _ _ items => S (max_list ((fun kv => depth (snd kv)) <$> items))
  end.

(** * A calculus of copying *)

Section Moves.
Context {R W : Type} `{Readable R} (T : trace_logic W).
Implicit Types (bs out : list byte) (ls : list Z).

(** [moves m bs ls out a]: on input that starts with [bs], [m] consumes it, returns [a]
    and leaves the writer as a command does that writes [out]. *)
Definition moves {A} (m : M (R * W) A) bs ls out (a : A) : Prop := forall r rest,
  readable r -> view r = bs ++ rest -> exists r' mw,
  view r' = rest /\ readable r' /\ does T ls mw out /\
  forall w w', mw w = (Ok tt, w') -> m (r, w) = (Ok a, (r', w')).

Lemma moves_ret {A} (a : A) : moves (ret a) [] [] [] a.
Proof.
  intros r rest Hr Hv. exists r, (ret tt). split_and!; [done|done|apply does_nil|].
  by intros w w' [= <-].
Qed.

Lemma moves_bind {A B} (m : M (R * W) A) (k : A -> M (R * W) B) bs1 bs2 ls1 ls2 o1 o2 a b :
  moves m bs1 ls1 o1 a -> moves (k a) bs2 ls2 o2 b ->
  moves (bind m k) (bs1 ++ bs2) (ls1 ++ ls2) (o1 ++ o2) b.
Proof.
  intros H1 H2 r rest Hr Hv. rewrite <-app_assoc in Hv.
  destruct (H1 r _ Hr Hv) as (r1 & m1 & V1 & R1 & D1 & E1).
  destruct (H2 r1 _ R1 V1) as (r2 & m2 & V2 & R2 & D2 & E2).
  exists r2, (m1 ;;; m2). split_and!; [done|done|by apply does_bind|].
  intros w w' Hw. apply bind_inv_ok in Hw as ([] & w1 & Hm1 & Hm2).
  rewrite (bind_ok _ _ _ _ _ (E1 _ _ Hm1)). by apply E2.
Qed.

Lemma moves_ext {A} (m1 m2 : M (R * W) A) bs ls out a :
  (forall s, m1 s = m2 s) -> moves m1 bs ls out a -> moves m2 bs ls out a.
Proof.
  intros He H1 r rest Hr Hv. destruct (H1 r rest Hr Hv) as (r' & mw & V & R' & D & E).
  exists r', mw. split_and!; [done..|]. intros. rewrite <-He. by apply E.
Qed.

Lemma moves_input {A} (m : M R A) bs a : reads m bs a -> moves (input m) bs [] [] a.
Proof.
  intros Hm r rest Hr Hv. destruct (Hm r rest Hr Hv) as (r' & E & V & R').
  exists r', (ret tt). split_and!; [done|done|apply does_nil|].
  intros w w' [= <-]. unfold input. by erewrite zoom_ok by exact E.
Qed.

Lemma moves_output (m : M W unit) ls out : does T ls m out -> moves (output m) [] ls out tt.
Proof.
  intros Hm r rest Hr Hv. exists r, m. split_and!; [done..|].
  intros w w' E. unfold output. by erewrite zoom_ok by exact E.
Qed.

(** A command that only reads, or only writes, before the rest. *)
Lemma moves_read {A B} (m : M R A) (k : A -> M (R * W) B) bs1 bs2 ls out a b :
  reads m bs1 a -> moves (k a) bs2 ls out b -> moves (bind (input m) k) (bs1 ++ bs2) ls out b.
Proof. intros Hm Hk. eapply (moves_bind _ _ bs1 bs2 [] ls []); [by apply moves_input|done]. Qed.

Lemma moves_read_nil {A B} (m : M R A) (k : A -> M (R * W) B) bs ls out a b :
  reads m [] a -> moves (k a) bs ls out b -> moves (bind (input m) k) bs ls out b.
Proof. apply (moves_read m k []). Qed.

Lemma moves_write {B} m (k : M (R * W) B) bs ls o1 o2 b :
  does T [] m o1 -> moves k bs ls o2 b -> moves (output m ;;; k) bs ls (o1 ++ o2) b.
Proof. intros Hm Hk. eapply (moves_bind _ _ [] bs [] ls); [by apply moves_output|done]. Qed.

Lemma moves_then {A B} (m : M (R * W) A) (k : A -> M (R * W) B) bs ls out a b :
  moves m bs ls out a -> moves (k a) [] [] [] b -> moves (bind m k) bs ls out b.
Proof.
  intros Hm Hk. rewrite <-(app_nil_r bs), <-(app_nil_r ls), <-(app_nil_r out).
  by eapply moves_bind.
Qed.

Lemma moves_nil {A B} (m : M (R * W) A) (k : A -> M (R * W) B) bs ls out a b :
  moves m [] [] [] a -> moves (k a) bs ls out b -> moves (bind m k) bs ls out b.
Proof. apply (moves_bind m k [] bs [] ls [] out). Qed.

Lemma moves_known {A B} (o : outcome A) (k : A -> M (R * W) B) bs ls out a b :
  o = Ok a -> moves (k a) bs ls out b -> moves (bind (of_outcome o) k) bs ls out b.
Proof. intros -> Hk. eapply moves_ext; [|exact Hk]. done. Qed.

Lemma moves_repeat {X} (m : M (R * W) unit) (f g : X -> list byte) (h : X -> list Z) l :
  Forall (fun x => moves m (f x) (h x) (g x) tt) l ->
  moves (repeatM (length l) m) (concat (f <$> l)) (concat (h <$> l)) (concat (g <$> l)) tt.
Proof.
  induction 1 as [|x l Hx _ IH]; [apply moves_ret|]. rewrite !fmap_cons.
  cbn [length repeatM concat]. by eapply moves_bind.
Qed.

Lemma moves_forM_nothing {X} (m : X -> M (R * W) unit) l :
  Forall (fun x => moves (m x) [] [] [] tt) l -> moves (forM l m) [] [] [] tt.
Proof.
  induction 1 as [|x l Hx _ IH]; [apply moves_ret|]. by eapply moves_nil.
Qed.

(** Fuel that is enough for the bytes consumed. *)
Lemma moves_fuel {A} extra (m : nat -> M (R * W) A) bs ls out a :
  (forall fuel, (2 + extra + length bs <= fuel)%nat -> moves (m fuel) bs ls out a) ->
  moves (with_input extra m) bs ls out a.
Proof.
  intros Hm r rest Hr Hv. unfold with_input.
  destruct (Hm (2 + extra + length (view r))%nat) with (r := r) (rest := rest)
    as (r' & mw & V & R' & D & E); [rewrite Hv, length_app; lia|done|done|].
  by exists r', mw.
Qed.

(** What is written between the beginning and the end of a struct. *)
Lemma moves_level {A} (beg fin : M W unit) (rend : M R unit) (m0 : M (R * W) unit)
    (m : M (R * W) A) bs ls ls' out out' a :
  moves (m0 ;;; m) bs ls out a -> reads rend [] tt ->
  (forall mw, does T ls mw out -> does T ls' (beg ;;; mw ;;; fin) out') ->
  moves (output beg ;;; m0 ;;; let! x := m in output fin ;;; input rend ;;; ret x)
    bs ls' out' a.
Proof.
  intros Hm Hr Hd r rest Hrd Hv.
  destruct (Hm r rest Hrd Hv) as (r1 & mw & V1 & R1 & D1 & E1).
  destruct (Hr r1 rest R1 V1) as (r2 & E2 & V2 & R2).
  exists r2, (beg ;;; mw ;;; fin). split_and!; [done|done|by apply Hd|].
  intros w w' Hw. apply bind_inv_ok in Hw as ([] & w1 & B1 & Hw).
  apply bind_inv_ok in Hw as ([] & w2 & B2 & B3).
  unfold output, input. rewrite (bind_ok _ _ (r, w) tt (r, w1)) by by erewrite zoom_ok.
  rewrite <-bind_assoc, (bind_ok _ _ _ _ _ (E1 _ _ B2)).
  rewrite (bind_ok _ _ (r1, w2) tt (r1, w')) by by erewrite zoom_ok.
  by rewrite (bind_ok _ _ (r1, w') tt (r2, w')) by by erewrite zoom_ok.
Qed.
End Moves.

(** * The parts of a payload *)

Section Parts.
Context (F : wire_format).

Definition field_out (f : Z * value) : list byte :=
  wf_field F (type_of (snd f)) (fst f) ++ encode F false (snd f).
Definition fields_out (p : list (Z * value)) : list byte := concat (field_out <$> p).
Definition fields_lens (p : list (Z * value)) : list Z :=
  concat ((fun f => lens F false (snd f)) <$> p).
(** The levels that follow the ones of the schema: each is preceded by the end of the
    one before, as a base. *)
Definition outer_out (outer : list (list (Z * value))) : list byte :=
  concat ((fun p => wf_stop F true ++ fields_out p) <$> outer).
Definition outer_lens (outer : list (list (Z * value))) : list Z :=
  concat (fields_lens <$> outer).

Lemma fields_out_cons f p : fields_out (f :: p) = field_out f ++ fields_out p.
Proof. done. Qed.

Lemma fields_lens_cons f p : fields_lens (f :: p) = lens F false (snd f) ++ fields_lens p.
Proof. done. Qed.

Lemma all_bytes_out base p : all_bytes F base p = fields_out p ++ wf_stop F base.
Proof.
  induction p as [|[id v] p IH]; [done|]. rewrite fields_out_cons.
  cbn [all_bytes]. rewrite IH. unfold field_out. by rewrite <-!app_assoc.
Qed.

Lemma fields_bytes_out fs : fields_bytes F fs = fields_out (present_fields F fs).
Proof.
  apply (app_inv_tail (wf_stop F true)). by rewrite present_bytes, all_bytes_out.
Qed.

Lemma levels_out base (outer : list (list (Z * value))) :
  wf_stop F (stops_base base outer) ++ levels_bytes F base outer =
    outer_out outer ++ wf_stop F base.
Proof.
  induction outer as [|p outer IH]; [by destruct base; rewrite app_nil_r|].
  unfold outer_out in *. rewrite fmap_cons. cbn [levels_bytes concat].
  rewrite all_bytes_out, <-!app_assoc, <-IH. by destruct base, outer.
Qed.

Lemma lens_fields fs :
  concat ((fun f => if omitted F f then [] else lens F false (snd f)) <$> fs) =
    fields_lens (present_fields F fs).
Proof.
  unfold present_fields, fields_lens. induction fs as [|f fs IH]; [done|].
  rewrite fmap_cons, filter_cons. cbn [concat]. destruct (omitted F f).
  - rewrite decide_False by done. exact IH.
  - rewrite decide_True by done. rewrite !fmap_cons. cbn [concat snd]. by rewrite <-IH.
Qed.

(** A hierarchy with its [k] last levels apart. *)
Lemma strip_encode k : forall v, (k < value_levels v)%nat ->
  encode F true v = encode F true (strip k v) ++ levels_bytes F true (outer_levels F k v) /\
  lens F true v = lens F true (strip k v) ++ outer_lens (outer_levels F k v).
Proof.
  induction k as [|k IH]; intros v Hk.
  { cbn [strip outer_levels levels_bytes]. unfold outer_lens. by rewrite !app_nil_r. }
  destruct v as [|[b|] fields| |]; cbn [value_levels strip outer_levels] in *; try lia.
  destruct (IH b ltac:(lia)) as [E1 E2]. split.
  - rewrite levels_bytes_snoc, app_assoc, <-E1, encode_struct. unfold body_of.
    by rewrite present_bytes.
  - cbn [lens app]. rewrite lens_fields, E2. unfold outer_lens.
    rewrite fmap_app, concat_app, <-app_assoc. simpl. by rewrite app_nil_r.
Qed.

Definition base_out (b : option value) : list byte :=
  match b with None => [] | Some bv => encode F true bv end.
Definition base_lens (b : option value) : list Z :=
  match b with None => [] | Some bv => lens F true bv end.

Lemma body_strip base k b fs bv vfs : (k < value_levels (VStruct b fs))%nat ->
  (base = true -> k = 0%nat) -> strip k (VStruct b fs) = VStruct bv vfs ->
  let outer := outer_levels F k (VStruct b fs) in
  body_of F base b fs =
    (base_out bv ++ fields_out (present_fields F vfs) ++ outer_out outer) ++ wf_stop F base /\
  base_lens b ++ fields_lens (present_fields F fs) =
    base_lens bv ++ fields_lens (present_fields F vfs) ++ outer_lens outer.
Proof.
  intros Hk Hb Hs. destruct (strip_encode k _ Hk) as [E1 E2]. rewrite Hs in E1, E2. cbv zeta.
  cbn [lens app] in E2. rewrite !lens_fields in E2. split; [|by rewrite app_assoc].
  rewrite !encode_struct in E1. unfold body_of in *. fold (base_out b) (base_out bv) in *.
  rewrite !fields_bytes_out in *. destruct k as [|k].
  - injection Hs as -> ->. unfold outer_out. simpl. by rewrite app_nil_r, <-app_assoc.
  - destruct base; [by specialize (Hb eq_refl)|].
    destruct b as [b|]; [|cbn [value_levels] in Hk; lia]. cbn [outer_levels] in *.
    rewrite levels_bytes_snoc, all_bytes_out, !app_assoc in E1. apply app_inv_tail in E1.
    rewrite !app_assoc, E1, <-!app_assoc. do 2 f_equal.
    pose proof (levels_out true (outer_levels F k b)) as E.
    unfold stops_base in E. cbn [orb] in E. rewrite app_assoc, E. unfold outer_out.
    rewrite fmap_app, concat_app, <-!app_assoc. simpl. by rewrite app_nil_r, <-app_assoc.
Qed.
End Parts.

(** * Copying *)

Section Copies.
Context {R W : Type} `{Readable R} (T : trace_logic W).
Context (P : ProtocolReader R) (F : wire_format) (Q : ProtocolWriter W) (G : wire_format).
Context (readers : reader_laws P F) (writers : writer_laws T Q G).
Context (omits_F : wf_may_omit F = true) (omits_G : wf_may_omit G = true).

Lemma present_same fs : present_fields F fs = present_fields G fs.
Proof.
  unfold present_fields. f_equal. apply list_filter_iff. intros f. unfold omitted.
  by rewrite omits_F, omits_G.
Qed.

(** [v] is copied by [m]. *)
Definition copies (m : M (R * W) unit) (v : value) : Prop :=
  moves T m (encode F false v) (lens G false v) (encode G false v) tt.

Lemma type_fits v : fits 5 (type_of v).
Proof. pose proof (type_of_range v). unfold fits. change (2 ^ 5) with 32. lia. Qed.

Lemma WriteBasic_copies s : scalar_ok s -> copies (WriteBasic P Q (btype_of s)) (VBasic s).
Proof.
  intros Hs. unfold copies. cbn [encode lens]. rewrite <-(app_nil_r (wf_scalar F s)).
  eapply moves_read; [by apply (rl_read _ _ readers)|].
  apply moves_output. by apply (wl_write _ _ _ writers).
Qed.

(** Between the header and the end of a field. *)
Lemma field_copies m v id : fits 16 id -> copies m v ->
  moves T (output (WriteFieldBegin Q (type_of v) id) ;;; m ;;; output (WriteFieldEnd Q))
    (encode F false v) (lens G false v)
    (wf_field G (type_of v) id ++ encode G false v) tt.
Proof.
  intros Hid Hm. eapply moves_write.
  { apply (wl_field_begin _ _ _ writers); [apply type_fits|done]. }
  eapply moves_then; [exact Hm|]. apply moves_output, (wl_field_end _ _ _ writers).
Qed.

Section Fields.
Context (nested : RuntimeSchema -> M (R * W) unit).

Definition unknown_copies (f : Z * value) : Prop :=
  fits 16 (fst f) /\ value_ok (snd f) /\
  (is_container_or_struct (type_of (snd f)) = true ->
   copies (nested (unknown_field_schema (type_of (snd f)))) (snd f)).

Definition known_copies (schema : RuntimeSchema) (ds : list FieldDef) (f : Z * value) : Prop :=
  forall d, d ∈ ds -> fd_id d = fst f -> td_id (fd_type d) = type_of (snd f) ->
  is_container_or_struct (type_of (snd f)) = true -> copies (nested (with_field schema d)) (snd f).

Lemma BasicTypeField_copies s id : fits 16 id -> scalar_ok s ->
  moves T (BasicTypeField P Q (type_of (VBasic s)) id) (wf_scalar F s) [] (field_out G (id, VBasic s)) tt.
Proof.
  intros Hid Hs. unfold BasicTypeField. cbn [type_of]. rewrite type_id_roundtrip.
  by apply (field_copies _ (VBasic s)), WriteBasic_copies.
Qed.

Lemma not_container v : is_container_or_struct (type_of v) = false -> exists s, v = VBasic s.
Proof. destruct v as [s| |[]|]; try done. by exists s. Qed.

Lemma UnknownField_copies f : unknown_copies f ->
  moves T (UnknownField P Q nested (type_of (snd f)) (fst f)) (encode F false (snd f))
    (lens G false (snd f)) (field_out G f) tt.
Proof.
  destruct f as [id v]. intros (Hid & Hv & Hn). cbn [fst snd] in *. unfold UnknownField.
  destruct (is_container_or_struct (type_of v)) eqn:E.
  - apply field_copies; [done|by apply Hn].
  - destruct (not_container v E) as [s ->]. by apply BasicTypeField_copies.
Qed.

Lemma copied_ids p : Forall unknown_copies p -> Forall (fun f => fits 16 (fst f)) p.
Proof. intros Hp. eapply Forall_impl; [|exact Hp]. by intros f [Hf _]. Qed.

Lemma all_ids_bytes base p rest : Forall unknown_copies p ->
  forall sid, reads (ReadFieldBegin P) (wf_stop F base) (stop_type base, sid) ->
  forall {A} (k : BondDataType * Z -> M (R * W) A) ls out a,
  moves T (k (tag_of base sid p)) (tail_bytes F base p ++ rest) ls out a ->
  moves T (let! tag := NextField P in k tag) (all_bytes F base p ++ rest) ls out a.
Proof.
  intros Hp sid Hs A k ls out a Hk. rewrite all_bytes_split, <-app_assoc.
  eapply moves_read; [|exact Hk]. apply (next_tag P F readers); [done|by apply copied_ids].
Qed.

(** ** The loop over the fields *)

Lemma omitted_sublist type id rest : snd (omitted_fields type id rest) ⊆ rest.
Proof.
  induction rest as [|d rest IH]; [done|]. cbn [omitted_fields].
  destruct ((fd_id d <? id) || is_stop type); [|done]. cbn [snd]. set_solver.
Qed.

Lemma omitted_nothing (l : list FieldDef) :
  moves T (forM l (fun f => output (R := R)
    (WriteFieldOmitted Q (td_id (fd_type f)) (fd_id f) (fd_metadata f)))) [] [] [] tt.
Proof.
  apply moves_forM_nothing. apply Forall_true. intros d. apply moves_output.
  by apply (wl_omitted _ _ _ writers).
Qed.

Lemma known_sublist schema ds ds' p : ds' ⊆ ds ->
  Forall (known_copies schema ds) p -> Forall (known_copies schema ds') p.
Proof.
  intros Hs Hp. eapply Forall_impl; [|exact Hp]. intros f Hf d Hd. apply Hf. by apply Hs.
Qed.

(** A field against the head of what is left of the schema. *)
Lemma known_field_copies schema d ds f : unknown_copies f -> known_copies schema (d :: ds) f ->
  fd_id d = fst f ->
  moves T (if is_container_or_struct (type_of (snd f)) then
             if td_id (fd_type d) =? type_of (snd f)
             then WriteNested Q nested (type_of (snd f)) (fst f) (with_field schema d)
             else UnknownField P Q nested (type_of (snd f)) (fst f)
           else BasicTypeField P Q (type_of (snd f)) (fst f))
    (encode F false (snd f)) (lens G false (snd f)) (field_out G f) tt.
Proof.
  intros Hu Hk Hid. destruct (is_container_or_struct (type_of (snd f))) eqn:E.
  - destruct (td_id (fd_type d) =? type_of (snd f)) eqn:Et; [|by apply UnknownField_copies].
    apply Z.eqb_eq in Et. apply field_copies; [apply Hu|]. apply Hk; [left|done..].
  - pose proof (UnknownField_copies f Hu) as Hc. unfold UnknownField in Hc. by rewrite E in Hc.
Qed.

Lemma loop_copies schema base sid :
  reads (ReadFieldBegin P) (wf_stop F base) (stop_type base, sid) ->
  forall fuel rest p, Forall unknown_copies p -> Forall (known_copies schema rest) p ->
  (length p < fuel)%nat ->
  moves T (RuntimeReadFields P Q nested schema fuel rest (tag_of base sid p))
    (tail_bytes F base p) (fields_lens G p) (fields_out G p) (stop_type base, sid).
Proof.
  intros Hs. induction fuel as [|fuel IH]; intros rest p Hu Hk Hl; [lia|].
  cbn [RuntimeReadFields]. destruct (tag_of base sid p) as [type id] eqn:Et.
  destruct (omitted_fields type id rest) as [om rest'] eqn:Eo.
  assert (Hsub : rest' ⊆ rest).
  { pose proof (omitted_sublist type id rest) as Hsub. by rewrite Eo in Hsub. }
  apply (known_sublist _ _ _ _ Hsub) in Hk. eapply moves_nil; [apply omitted_nothing|].
  destruct p as [|f p]; cbn [tag_of tail_bytes] in *.
  { injection Et as <- <-. rewrite is_stop_type. apply moves_ret. }
  destruct f as [i v]. injection Et as <- <-. rewrite not_stop by apply type_of_range.
  pose proof (Forall_cons_1 _ _ _ Hu) as [Hfu Hpu]. pose proof (Forall_cons_1 _ _ _ Hk) as [Hfk Hpk].
  assert (Hnext : forall m rest'', rest'' ⊆ rest' ->
    moves T m (encode F false v) (lens G false v) (field_out G (i, v)) tt ->
    moves T (m ;;; let! tag' := NextField P in RuntimeReadFields P Q nested schema fuel rest'' tag')
      (encode F false v ++ all_bytes F base p) (fields_lens G ((i, v) :: p))
      (fields_out G ((i, v) :: p)) (stop_type base, sid)).
  { intros m rest'' Hr Hm. rewrite fields_lens_cons, fields_out_cons.
    eapply moves_bind; [exact Hm|]. rewrite <-(app_nil_r (all_bytes F base p)).
    apply (all_ids_bytes base p [] Hpu sid Hs). rewrite app_nil_r.
    simpl in Hl. apply IH; [done| |lia]. by eapply known_sublist. }
  pose proof (UnknownField_copies _ Hfu) as Hunk. cbn [fst snd] in Hunk.
  destruct rest' as [|d rest']; [by apply Hnext|].
  destruct (fd_id d =? i) eqn:Ed; [|by apply Hnext].
  apply Z.eqb_eq in Ed. apply Hnext; [set_solver|].
  by apply (known_field_copies _ _ _ _ Hfu Hfk).
Qed.

(** ** Fields of levels the schema does not have *)

Lemma unknown_copied base sid p rest n ls out :
  reads (ReadFieldBegin P) (wf_stop F base) (stop_type base, sid) -> Forall unknown_copies p ->
  (forall fuel, (n <= fuel)%nat ->
   moves T (CopyUnknownFields P Q nested fuel (stop_type base, sid)) rest ls out tt) ->
  forall fuel, (n + length p <= fuel)%nat ->
  moves T (CopyUnknownFields P Q nested fuel (tag_of base sid p)) (tail_bytes F base p ++ rest)
    (fields_lens G p ++ ls) (fields_out G p ++ out) tt.
Proof.
  intros Hs Hu Hrest. induction Hu as [|f p Hf Hu IH]; intros fuel Hn.
  - apply Hrest. simpl in Hn. lia.
  - destruct fuel as [|fuel]; [simpl in Hn; lia|]. destruct f as [id v].
    cbn [tag_of fst snd tail_bytes CopyUnknownFields] in *.
    pose proof (type_of_range v).
    replace (type_of v =? BT_STOP) with false by (unfold BT_STOP; by zbool).
    replace (type_of v =? BT_STOP_BASE) with false by (unfold BT_STOP_BASE; by zbool).
    rewrite fields_lens_cons, fields_out_cons, <-!app_assoc.
    eapply moves_bind; [exact (UnknownField_copies _ Hf)|].
    apply (all_ids_bytes base p rest Hu sid Hs). apply IH. simpl in Hn. lia.
Qed.

Lemma levels_copied outer : Forall (Forall unknown_copies) outer ->
  forall sid fuel, (length (levels_bytes F false outer) < fuel)%nat ->
  moves T (CopyUnknownFields P Q nested fuel (stop_type (stops_base false outer), sid))
    (levels_bytes F false outer) (outer_lens G outer) (outer_out G outer) tt.
Proof.
  induction 1 as [|p outer Hp Hf IH]; intros sid fuel Hl.
  - destruct fuel as [|fuel]; [lia|]. apply moves_ret.
  - cbn [levels_bytes stops_base orb stop_type] in *. set (base := if outer then false else true) in *.
    destruct fuel as [|fuel]; [lia|]. cbn [CopyUnknownFields fst snd].
    change (BT_STOP_BASE =? BT_STOP) with false. change (BT_STOP_BASE =? BT_STOP_BASE) with true.
    cbv iota. unfold outer_out, outer_lens. rewrite !fmap_cons. cbn [concat]. rewrite <-app_assoc.
    destruct (rl_stop _ _ readers base) as [sid' Hs].
    rewrite length_app in Hl. pose proof (all_bytes_pos P F readers base p).
    eapply moves_write; [apply (wl_unknown_end _ _ _ writers)|].
    apply (all_ids_bytes base p _ Hp sid' Hs).
    apply (unknown_copied _ _ _ _ (S (length (levels_bytes F false outer)))); [done..| |lia].
    intros fuel' Hfuel'. by apply IH.
Qed.

Lemma CopyFields_copies base schema ds outer p :
  Forall unknown_copies p -> Forall (known_copies schema ds) p ->
  Forall (Forall unknown_copies) outer -> (base = true -> outer = []) ->
  moves T (CopyFields P Q nested base schema ds)
    (all_bytes F (stops_base base outer) p ++ levels_bytes F false outer)
    (fields_lens G p ++ outer_lens G outer) (fields_out G p ++ outer_out G outer) false.
Proof.
  intros Hp Hk Ho Hb. unfold CopyFields. set (pbase := stops_base base outer).
  destruct (rl_stop _ _ readers pbase) as [sid Hs].
  rewrite all_bytes_split, <-app_assoc.
  eapply moves_read; [apply (first_tag P F readers); [exact Hs|by apply copied_ids]|].
  eapply moves_bind.
  { apply moves_fuel. intros fuel Hfuel. apply (loop_copies schema pbase sid Hs); [done..|].
    pose proof (tail_bytes_length P F readers pbase p). lia. }
  eapply moves_then.
  2:{ eapply (moves_read_nil T _ _ [] [] [] tt); [apply (rl_field_end _ _ readers)|apply moves_ret]. }
  destruct base; cbn [negb].
  - rewrite (Hb eq_refl). apply moves_ret.
  - eapply moves_then; [|apply moves_ret]. apply moves_fuel. intros fuel Hfuel.
    apply levels_copied; [done|lia].
Qed.

(** ** Hierarchies *)

(** What the fields of an object at all its levels do. *)
Fixpoint fields_copied (v : value) : Prop :=
  match v with
  | VStruct b fs =>
      match b with None => True | Some bv => fields_copied bv end /\
      Forall unknown_copies (present_fields G fs)
  | _ => True
  end.

Lemma strip_copied k v : fields_copied v ->
  fields_copied (strip k v) /\ Forall (Forall unknown_copies) (outer_levels G k v).
Proof.
  revert v. induction k as [|k IH]; intros v Hv; [by split|].
  destruct v as [|[b|] fs| |]; try by split. destruct Hv as [Hb Hf].
  destruct (IH b Hb). cbn [strip outer_levels]. split; [done|]. apply Forall_app. by split; [|constructor].
Qed.

Lemma outer_same k v : outer_levels F k v = outer_levels G k v.
Proof.
  revert v. induction k as [|k IH]; intros v; [done|].
  destruct v as [|[b|] fs| |]; try done. cbn [outer_levels]. by rewrite IH, present_same.
Qed.
End Fields.

(** ** What is asked of a value *)

Definition copyable (n : nat) (base : bool) (v : value) : Prop :=
  value_ok v /\ types_ok v /\ (depth v <= n)%nat /\
  zlen (encode F base v) < 2 ^ 32 /\ zlen (encode G base v) < 2 ^ 32.

Lemma present_in fs f : f ∈ present_fields G fs ->
  exists m, (fst f, m, snd f) ∈ fs /\ omitted F (fst f, m, snd f) = false /\
    omitted G (fst f, m, snd f) = false.
Proof.
  intros Hf. pose proof Hf as Hf'. rewrite <-present_same in Hf'. unfold present_fields in *.
  apply list_elem_of_fmap in Hf as ([[id m] v] & -> & Hin). exists m. cbn [fst snd].
  apply list_elem_of_filter in Hin as [Ho Hin]. split_and!; [done| |done].
  unfold omitted in *. by rewrite omits_F, <-omits_G.
Qed.

Lemma field_size E fs f m : (fst f, m, snd f) ∈ fs -> omitted E (fst f, m, snd f) = false ->
  zlen (fields_bytes E fs) < 2 ^ 32 -> zlen (encode E false (snd f)) < 2 ^ 32.
Proof.
  intros Hin Ho Hl. pose proof (fields_fit (field_bytes E) fs _ _ Hl Hin) as Hlen.
  unfold field_bytes in Hlen. rewrite Ho, length_app in Hlen. cbn [snd] in Hlen. lia.
Qed.

Lemma depth_field x b fs : x ∈ fs -> (depth (snd x) < depth (VStruct b fs))%nat.
Proof.
  intros Hin. cbn [depth].
  pose proof (max_list_elem_of_le (depth (snd x)) ((fun f => depth (snd f)) <$> fs)) as Hle.
  assert (depth (snd x) ∈ ((fun f => depth (snd f)) <$> fs))
    by (apply list_elem_of_fmap; by exists x). specialize (Hle H0). lia.
Qed.

Lemma copyable_struct n base b fs : copyable (S n) base (VStruct b fs) ->
  (forall bv, b = Some bv -> type_of bv = BT_STRUCT /\ copyable (S n) true bv) /\
  Forall (fun f => fits 16 (fst f) /\ copyable n false (snd f)) (present_fields G fs).
Proof.
  intros ([Hb Hv] & [Htb Ht] & Hd & HF & HG). apply all_Forall in Hv, Ht.
  pose proof (sub_fits F base b fs HF) as BF. pose proof (sub_fits G base b fs HG) as BG.
  unfold body_of in BF, BG. rewrite !length_app in BF, BG. split.
  - intros bv ->. destruct Hb as [Hty Hb]. cbn [depth] in Hd. split; [done|].
    split_and!; [done..|lia|lia|lia].
  - rewrite Forall_forall in *. intros f Hf. apply list_elem_of_In in Hf.
    destruct (present_in fs f Hf) as (m & Hin & OF & OG).
    pose proof (depth_field _ b _ Hin) as Hlt. cbn [snd] in Hlt.
    pose proof (field_size F fs f m Hin OF ltac:(lia)).
    pose proof (field_size G fs f m Hin OG ltac:(lia)).
    apply list_elem_of_In in Hin. destruct (Hv _ Hin) as [Hid Hok]. specialize (Ht _ Hin).
    cbn [fst snd] in *. split; [done|]. split_and!; [done..|lia|done|done].
Qed.

Lemma strip_copyable n k : forall base v bv vfs, copyable (S n) base v ->
  strip k v = VStruct bv vfs -> exists base', copyable (S n) base' (VStruct bv vfs).
Proof.
  induction k as [|k IH]; intros base v bv vfs Hc Hs; cbn [strip] in Hs.
  { subst v. by exists base. }
  destruct v as [s|[b|] fs| |]; try (simplify_eq; by exists base).
  destruct (copyable_struct _ _ _ _ Hc) as [Hb _]. destruct (Hb b eq_refl). by eapply IH.
Qed.

(** ** Schemas that fit *)

Definition own_fits (b : option value) (fs : list (Z * Metadata * value)) (r : RuntimeSchema)
    (d : StructDef) : Prop :=
  struct_of r = Some d /\
  match b, base_def d with
  | None, None => True
  | Some bv, Some t => td_id t = BT_STRUCT /\ fits_schema bv true (with_type r t)
  | _, _ => False
  end /\
  Forall (fun f => field_fits (fits_schema (snd f) false) r (fields d) (fst (fst f))
                     (type_of (snd f))) fs.

Lemma fits_struct v exact r : value_ok v -> type_of v = BT_STRUCT -> fits_schema v exact r ->
  exists k bv vfs d, (k < value_levels v)%nat /\ (exact = true -> k = 0%nat) /\
    strip k v = VStruct bv vfs /\ own_fits bv vfs r d /\ GetTypeId r = BT_STRUCT.
Proof.
  revert exact. induction v as [x|b fs Hb _|kt et items _|kt vt items _] using value_ind_nested;
    intros exact Hv Ht Hf; [by destruct x as [|[]|[]| | | |]| |by destruct kt|done].
  destruct Hf as [Hr [(d & Hd & Hbase & Hfs)|[-> Hf]]].
  - apply all_Forall in Hfs. exists 0%nat, b, fs, d. split_and!; [|done..].
    destruct b; simpl; lia.
  - destruct b as [bv|]; [|done].
    destruct Hv as [[Hty Hv] _]. destruct (Hb bv eq_refl false Hv Hty Hf) as (k & b' & vfs & d & Hk & _ & Hs & Ho & _).
    exists (S k), b', vfs, d. split_and!; [|done..]. cbn [value_levels]. lia.
Qed.

(** No schema fits anything. *)
Lemma free_element type : type <> BT_STRUCT ->
  element_schema (unknown_field_schema type) = unknown_schema.
Proof. intros Ht. unfold unknown_field_schema. by apply Z.eqb_neq in Ht as ->. Qed.

Lemma payload_unknown type : payload_schema unknown_schema type = unknown_field_schema type.
Proof.
  unfold payload_schema, unknown_field_schema. change (GetTypeId unknown_schema) with BT_STRUCT.
  done.
Qed.

Lemma unknown_fits v : value_ok v -> fits_schema v false (unknown_field_schema (type_of v)).
Proof.
  induction v as [x|b fs Hb Hf|is_set et items Hi|kt vt items Hi] using value_ind_nested;
    intros Hv; [done| | |].
  - cbn [fits_schema type_of]. change (unknown_field_schema BT_STRUCT) with unknown_schema.
    split; [done|]. destruct b as [bv|].
    + right. split; [done|]. destruct Hv as [[Hty Hv] _]. specialize (Hb bv eq_refl Hv).
      rewrite Hty in Hb. exact Hb.
    + left. exists StructDef_new. split_and!; [done|done|]. apply all_Forall, Forall_true.
      intros f d Hd. by apply elem_of_nil in Hd.
  - cbn [fits_schema]. destruct Hv as (_ & _ & Hv). apply all_Forall in Hv.
    rewrite free_element by by destruct is_set. split; [by destruct is_set|].
    apply all_Forall. rewrite Forall_forall in *. intros x Hx. destruct (Hv x Hx) as [Ht Hok].
    rewrite payload_unknown, <-Ht. by apply Hi.
  - cbn [fits_schema]. destruct Hv as (_ & _ & _ & Hv). apply all_Forall in Hv.
    rewrite free_element by done. split; [done|].
    apply all_Forall. rewrite Forall_forall in *. intros x Hx.
    destruct (Hv x Hx) as [_ [Ht Hok]]. destruct (Hi x Hx) as [_ Hs].
    rewrite payload_unknown, <-Ht. by apply Hs.
Qed.

(** ** Structs *)

Section Structs.
Context (nested : RuntimeSchema -> M (R * W) unit) (n : nat).
Context (nested_ok : forall v r, copyable n false v -> fits_schema v false r ->
  is_container_or_struct (type_of v) = true -> copies (nested r) v).

Lemma field_unknown f : fits 16 (fst f) /\ copyable n false (snd f) -> unknown_copies nested f.
Proof.
  intros [Hid Hc]. pose proof Hc as (Hv & _). split_and!; [done..|].
  intros Hcs. apply nested_ok; [done|by apply unknown_fits|done].
Qed.

Lemma struct_copied v base : copyable (S n) base v -> fields_copied nested v.
Proof.
  revert base. induction v as [x|b fs Hb _| |] using value_ind_nested; intros base Hc; try done.
  destruct (copyable_struct _ _ _ _ Hc) as [Hcb Hcf]. split.
  - destruct b as [bv|]; [|done]. destruct (Hcb bv eq_refl). by eapply Hb.
  - eapply Forall_impl; [|exact Hcf]. apply field_unknown.
Qed.

Lemma own_copied base b fs r d : copyable (S n) base (VStruct b fs) -> own_fits b fs r d ->
  Forall (known_copies nested r (fields d)) (present_fields G fs).
Proof.
  intros Hc (_ & _ & Hf). destruct (copyable_struct _ _ _ _ Hc) as [_ Hcf].
  rewrite Forall_forall in *. intros f Hin dd Hd Hid Ht Hcs. apply nested_ok; [|..|done].
  - by apply Hcf.
  - apply list_elem_of_In in Hin. destruct (present_in fs f Hin) as (m & Hm & _).
    apply list_elem_of_In in Hm. by apply (Hf _ Hm dd).
Qed.

(** The bytes of the levels the schema has and of those after them. *)
Lemma body_input base k b fs bv vfs : (k < value_levels (VStruct b fs))%nat ->
  (base = true -> k = 0%nat) -> strip k (VStruct b fs) = VStruct bv vfs ->
  let outer := outer_levels G k (VStruct b fs) in
  body_of F base b fs = base_out F bv ++
    all_bytes F (stops_base base outer) (present_fields G vfs) ++ levels_bytes F false outer.
Proof.
  intros Hk Hb Hs outer. destruct (body_strip F base k b fs bv vfs Hk Hb Hs) as [-> _].
  rewrite outer_same, present_same, all_bytes_out, <-!app_assoc, <-levels_out.
  subst outer. do 3 f_equal. destruct base; [|done]. by rewrite Hb.
Qed.

Lemma struct_found r d : struct_of r = Some d -> GetStruct r = Ok d /\
  HasBase r = Ok (bool_decide (is_Some (base_def d))) /\
  GetBaseSchema r = olet t := nullable_value (base_def d) in Ok (with_type r t).
Proof.
  intros Hd. unfold HasBase, GetBaseSchema, GetStruct, vector_at.
  unfold struct_of in Hd. by rewrite Hd.
Qed.

Lemma depth_found fuel r m : levels (rs_schema r) (Z.to_nat (struct_def (rs_type r))) m ->
  (m <= fuel)%nat -> exists z, schema_depth fuel r = Ok z.
Proof.
  destruct r as [s t]. cbn [rs_schema rs_type]. intros Hl. remember (Z.to_nat _) as i eqn:Hi.
  revert t fuel Hi. induction Hl as [i d Hd Hb|i d t' m Hd Hb Ht Hl IH]; intros t fuel -> Hm;
    (destruct fuel as [|fuel]; [lia|]); cbn [schema_depth];
    destruct (struct_found (mkRuntimeSchema s t) d Hd) as (_ & -> & ->); rewrite Hb; cbn [obind].
  - rewrite bool_decide_eq_false_2 by by intros [? ?]. by eexists.
  - rewrite bool_decide_eq_true_2 by done. cbn [nullable_value obind].
    destruct (IH t' fuel eq_refl ltac:(lia)) as [z Hz]. unfold with_type. cbn [rs_schema].
    rewrite Hz. by eexists.
Qed.

Lemma level_brackets base b fs mw : zlen (encode G base (VStruct b fs)) < 2 ^ 32 ->
  forall body, body_of G base b fs = body ++ wf_stop G base ->
  does T (base_lens G b ++ fields_lens G (present_fields G fs)) mw body ->
  does T (lens G base (VStruct b fs)) (WriteStructBegin Q base ;;; mw ;;; WriteStructEnd Q base)
    (encode G base (VStruct b fs)).
Proof.
  intros Hl body Hb Hm. pose proof (sub_fits G base b fs Hl) as Hbody.
  rewrite encode_struct. cbn [lens]. rewrite lens_fields. fold (base_lens G b).
  destruct base; rewrite Hb in *; [by apply (wl_base _ _ _ writers)|].
  apply (wl_struct _ _ _ writers); [done|]. unfold fits. lia.
Qed.

(** The base of a struct is copied as the hierarchy below it. *)
Definition struct_copies (m : nat) : Prop := forall base v r,
  copyable (S n) base v -> type_of v = BT_STRUCT -> fits_schema v base r ->
  (exists l, levels (rs_schema r) (Z.to_nat (struct_def (rs_type r))) l /\ (l <= m)%nat) ->
  moves T (CopyStruct P Q nested m base r) (encode F base v) (lens G base v) (encode G base v)
    false.

Lemma base_copies m base bv vfs r d l : struct_copies m ->
  copyable (S n) base (VStruct bv vfs) -> own_fits bv vfs r d ->
  levels (rs_schema r) (Z.to_nat (struct_def (rs_type r))) l -> (l <= S m)%nat ->
  moves T (let! has_base := of_outcome (HasBase r) in
           if (has_base : bool) then
             let! b := of_outcome (GetBaseSchema r) in
             let! _ := CopyStruct P Q nested m true b in ret tt
           else ret tt) (base_out F bv) (base_lens G bv) (base_out G bv) tt.
Proof.
  intros IH Hc (Hd & Hbd & _) Hl Hlm. destruct (struct_found r d Hd) as (_ & E2 & E3).
  eapply moves_known; [exact E2|]. destruct bv as [bv|], (base_def d) as [t|] eqn:Ebd; try done.
  - rewrite bool_decide_eq_true_2 by done. eapply moves_known; [exact E3|].
    destruct Hbd as [Htd Hbf]. destruct (copyable_struct _ _ _ _ Hc) as [Hcb _].
    destruct (Hcb bv eq_refl) as [Hty Hcbv]. eapply moves_then; [|apply moves_ret].
    apply IH; [done..|]. inversion Hl as [i d' Hi Hbn|i d' t' l' Hi Hbs Ht' Hl']; subst;
      unfold struct_of in Hd; rewrite Hi in Hd; simplify_eq. exists l'. split; [done|lia].
  - rewrite bool_decide_eq_false_2 by by intros [? ?]. apply moves_ret.
Qed.

Lemma begin_copies base v : copyable (S n) base v -> type_of v = BT_STRUCT ->
  exists bs, reads (ReadStructBegin P base) bs tt /\
  forall b fs, v = VStruct b fs -> encode F base v = bs ++ body_of F base b fs.
Proof.
  intros (_ & _ & _ & HF & _) Ht. destruct v as [x|b fs|is_set et items|];
    [by destruct x as [|[]|[]| | | |]| |by destruct is_set|done].
  exists (if base then [] else wf_prefix F (zlen (body_of F base b fs))). split.
  - apply (rl_begin _ _ readers). apply sub_fits in HF. unfold fits. lia.
  - intros b' fs' [= <- <-]. rewrite encode_struct. by destruct base.
Qed.

Lemma CopyStruct_copies m : struct_copies m.
Proof.
  induction m as [|m IH]; intros base v r Hc Ht Hf (l & Hl & Hlm).
  { apply levels_bound in Hl. lia. }
  destruct (fits_struct v base r (proj1 Hc) Ht Hf) as (k & bv & vfs & d & Hk & Hb & Hs & Hown & _).
  destruct (begin_copies _ _ Hc Ht) as (bs & Hbegin & Hbytes).
  destruct v as [x|b fs|is_set et items|];
    [by destruct x as [|[]|[]| | | |]| |by destruct is_set|done].
  pose proof (struct_copied _ _ Hc) as Hfc. destruct (strip_copied nested k _ Hfc) as [Hsc Hout].
  rewrite Hs in Hsc. destruct Hsc as [_ Hp]. destruct (strip_copyable _ _ _ _ _ _ Hc Hs) as [base' Hcs].
  pose proof (own_copied _ _ _ _ _ Hcs Hown) as Hkc.
  destruct (struct_found r d (proj1 Hown)) as (E1 & _).
  destruct (depth_found (S (length (structs (rs_schema r)))) r l Hl) as [z Hz];
    [by apply levels_bound in Hl; lia|].
  destruct (body_strip G base k b fs bv vfs Hk Hb Hs) as [Bout Blens].
  cbn [CopyStruct]. rewrite (Hbytes b fs eq_refl).
  eapply moves_read; [exact Hbegin|]. eapply moves_known; [exact Hz|]. eapply moves_known; [exact E1|].
  eapply moves_level.
  - rewrite (body_input base k b fs bv vfs) by done.
    eapply moves_bind; [by eapply (base_copies m base' bv vfs)|].
    apply (CopyFields_copies nested base r (fields d)); [done..|]. intros Hbt. by rewrite (Hb Hbt).
  - apply (rl_end _ _ readers).
  - intros mw Hmw. eapply level_brackets; [apply Hc|exact Bout|]. rewrite Blens. exact Hmw.
Qed.

(** ** Containers *)

Lemma known_basic t : known_type t -> is_container_or_struct t = false ->
  exists b, basic_type_of_id t = Some b.
Proof.
  unfold known_type. intros Ht Hc.
  assert (Hin : t ∈ (seqZ 2 17)) by (apply elem_of_seqZ; lia).
  revert Hc. assert (Hall : Forall (fun t => is_container_or_struct t = false ->
    exists b, basic_type_of_id t = Some b) (seqZ 2 17)).
  { repeat constructor; vm_compute; intros Hc; try discriminate Hc; by eexists. }
  rewrite Forall_forall in Hall. apply list_elem_of_In in Hin. by apply Hall.
Qed.

Lemma basic_copies t b v : basic_type_of_id t = Some b -> type_of v = t -> value_ok v ->
  copies (WriteBasic P Q b) v.
Proof.
  intros Hb <- Hv. destruct (basic_of_type _ _ Hb) as (s & -> & <-). by apply WriteBasic_copies.
Qed.

Lemma copyable_list is_set et items : copyable (S n) false (VList is_set et items) ->
  Forall (fun x => type_of x = et /\ copyable n false x) items.
Proof.
  intros ((_ & _ & Hv) & [_ Ht] & Hd & HF & HG). apply all_Forall in Hv, Ht.
  cbn [encode depth] in *. rewrite length_app in HF, HG. rewrite Forall_forall in *. intros x Hx.
  destruct (Hv x Hx) as [Hty Hok]. specialize (Ht x Hx). apply list_elem_of_In in Hx. split; [done|].
  pose proof (fields_fit (encode F false) items (2 ^ 32) x ltac:(lia) Hx).
  pose proof (fields_fit (encode G false) items (2 ^ 32) x ltac:(lia) Hx).
  pose proof (max_list_elem_of_le (depth x) (depth <$> items) ltac:(by apply list_elem_of_fmap; exists x)).
  split_and!; [done..|lia|done|done].
Qed.

Lemma copyable_map kt vt items : copyable (S n) false (VMap kt vt items) ->
  Forall (fun kv => type_of (fst kv) = kt /\ value_ok (fst kv) /\
                    type_of (snd kv) = vt /\ copyable n false (snd kv)) items.
Proof.
  intros ((_ & _ & _ & Hv) & (_ & _ & Ht) & Hd & HF & HG). apply all_Forall in Hv, Ht.
  cbn [encode depth] in *. rewrite length_app in HF, HG. rewrite Forall_forall in *. intros x Hx.
  destruct (Hv x Hx) as [[Hk Hok] [Hty Hov]]. specialize (Ht x Hx). apply list_elem_of_In in Hx.
  pose proof (fields_fit (fun kv => encode F false (fst kv) ++ encode F false (snd kv)) items
    (2 ^ 32) x ltac:(lia) Hx) as SF.
  pose proof (fields_fit (fun kv => encode G false (fst kv) ++ encode G false (snd kv)) items
    (2 ^ 32) x ltac:(lia) Hx) as SG.
  cbn beta in SF, SG. rewrite length_app in SF, SG.
  pose proof (max_list_elem_of_le (depth (snd x)) ((fun kv => depth (snd kv)) <$> items)
    ltac:(apply list_elem_of_fmap; by exists x)).
  split_and!; [done..|]. split_and!; [done..|lia|lia|lia].
Qed.

Lemma Container_copies t items m : fits 5 t -> zlen items < 2 ^ 32 ->
  Forall (copies m) items ->
  moves T (Container Q t (zlen items) m) (concat (encode F false <$> items))
    (concat (lens G false <$> items)) (wf_list G (zlen items) t ++ concat (encode G false <$> items)) tt.
Proof.
  intros Ht Hn Hm. unfold Container.
  eapply moves_write; [apply (wl_list _ _ _ writers); [by apply zlen_fits|done]|].
  eapply moves_then; [rewrite Nat2Z.id; by apply moves_repeat|].
  apply moves_output, (wl_container_end _ _ _ writers).
Qed.

Lemma DeserializeContainer_copies is_set et items element :
  copyable (S n) false (VList is_set et items) ->
  Forall (fun x => fits_schema x false (payload_schema element et)) items ->
  copies (DeserializeContainer P Q nested element) (VList is_set et items).
Proof.
  intros Hc Hf. pose proof (copyable_list _ _ _ Hc) as Hi.
  destruct Hc as ((Ht & Hn & _) & (Hk & _) & _).
  unfold copies, DeserializeContainer. cbn [encode lens].
  eapply moves_read; [apply (rl_list _ _ readers); [by apply zlen_fits|done]|]. cbn [fst snd].
  eapply moves_then; [|apply moves_input, (rl_container_end _ _ readers)].
  destruct (is_container_or_struct et) eqn:E.
  - apply Container_copies; [done..|]. rewrite Forall_forall in *. intros x Hx.
    destruct (Hi x Hx) as [Hty Hcx]. apply nested_ok; [done|by apply Hf|by rewrite Hty].
  - destruct (known_basic et Hk E) as [b Hb]. rewrite Hb. apply Container_copies; [done..|].
    rewrite Forall_forall in *. intros x Hx. destruct (Hi x Hx) as [Hty [Hv _]].
    by eapply basic_copies.
Qed.

Lemma MapContainer_copies kt vt items k m : fits 5 kt -> fits 5 vt -> zlen items < 2 ^ 32 ->
  Forall (fun kv => copies k (fst kv) /\ copies m (snd kv)) items ->
  moves T (MapContainer Q (kt, vt) (zlen items) (k ;;; m))
    (concat ((fun kv => encode F false (fst kv) ++ encode F false (snd kv)) <$> items))
    (concat ((fun kv => lens G false (fst kv) ++ lens G false (snd kv)) <$> items))
    (wf_map G (zlen items) (kt, vt) ++
     concat ((fun kv => encode G false (fst kv) ++ encode G false (snd kv)) <$> items)) tt.
Proof.
  intros Hk Hv Hn Hm. unfold MapContainer.
  eapply moves_write; [apply (wl_map _ _ _ writers); [by apply zlen_fits|done..]|].
  eapply moves_then; [rewrite Nat2Z.id; apply moves_repeat|].
  - eapply Forall_impl; [|exact Hm]. intros kv [H1 H2]. by eapply moves_bind.
  - apply moves_output, (wl_container_end _ _ _ writers).
Qed.

Lemma DeserializeMap_copies kt vt items key element :
  copyable (S n) false (VMap kt vt items) ->
  Forall (fun kv => fits_schema (snd kv) false (payload_schema element vt)) items ->
  copies (DeserializeMap P Q nested key element) (VMap kt vt items).
Proof.
  intros Hc Hf. pose proof (copyable_map _ _ _ Hc) as Hi.
  destruct Hc as ((Hkt & Hvt & Hn & _) & ([kb Hkb] & Hk & _) & _).
  unfold copies, DeserializeMap. cbn [encode lens].
  eapply moves_read; [apply (rl_map _ _ readers); [by apply zlen_fits|done..]|]. cbn [fst snd].
  eapply moves_then; [|apply moves_input, (rl_container_end _ _ readers)].
  unfold MapByKey. cbn [fst]. rewrite Hkb. destruct (is_container_or_struct vt) eqn:E.
  - apply MapContainer_copies; [done..|]. rewrite Forall_forall in *. intros x Hx.
    destruct (Hi x Hx) as (Hty & Hv & Htv & Hcx). split; [by eapply basic_copies|].
    apply nested_ok; [done|by apply Hf|by rewrite Htv].
  - destruct (known_basic vt Hk E) as [b Hb]. rewrite Hb. apply MapContainer_copies; [done..|].
    rewrite Forall_forall in *. intros x Hx. destruct (Hi x Hx) as (Hty & Hv & Htv & [Hvv _]).
    split; by eapply basic_copies.
Qed.
End Structs.

(** ** Every level of nesting *)

Lemma fits_levels v exact r : value_ok v -> type_of v = BT_STRUCT -> fits_schema v exact r ->
  exists l, levels (rs_schema r) (Z.to_nat (struct_def (rs_type r))) l.
Proof.
  revert exact r. induction v as [x|b fs Hb _|kt et items _|kt vt items _] using value_ind_nested;
    intros exact r Hv Ht Hf; [by destruct x as [|[]|[]| | | |]| |by destruct kt|done].
  destruct Hf as [_ [(d & Hd & Hbase & _)|[_ Hf]]], Hv as [Hv _].
  - destruct b as [bv|], (base_def d) as [t|] eqn:Ebd; try done.
    + destruct Hbase as [Htd Hbase], Hv as [Hty Hv].
      destruct (Hb bv eq_refl true (with_type r t) Hv Hty Hbase) as [l Hl].
      exists (S l). by eapply levels_derived.
    + exists 1%nat. by eapply levels_root.
  - destruct b as [bv|]; [|done]. destruct Hv as [Hty Hv]. by apply (Hb bv eq_refl false).
Qed.

Lemma Transcode_copies n : forall v r, copyable n false v -> fits_schema v false r ->
  is_container_or_struct (type_of v) = true -> copies (Transcode P Q n r) v.
Proof.
  induction n as [|n IH]; intros v r Hc Hf Ht.
  { destruct Hc as (_ & _ & Hd & _). destruct v as [x| | |]; cbn [depth] in Hd; try lia.
    by destruct x as [|[]|[]| | | |]. }
  destruct v as [x|b fs|is_set et items|kt vt items];
    [by destruct x as [|[]|[]| | | |]|..]; cbn [Transcode].
  - pose proof Hf as [Hr _]. rewrite Hr. change (BT_STRUCT =? BT_STRUCT) with true. cbv iota.
    eapply moves_then; [|apply moves_ret].
    destruct (fits_levels _ _ _ (proj1 Hc) eq_refl Hf) as [l Hl].
    apply (CopyStruct_copies _ n IH); [done..|]. exists l. split; [done|].
    apply levels_bound in Hl. unfold levels_of. lia.
  - destruct Hf as [Hr Hf]. rewrite Hr. apply all_Forall in Hf.
    pose proof (DeserializeContainer_copies _ n IH is_set et items _ Hc Hf) as Hx.
    by destruct is_set.
  - destruct Hf as [Hr Hf]. rewrite Hr. apply all_Forall in Hf.
    by apply (DeserializeMap_copies _ n IH kt vt items _ _ Hc Hf).
Qed.

End Copies.

(** ** The nesting is no deeper than the payload is long *)

Lemma max_list_bound l k : Forall (fun x => (x <= k)%nat) l -> (max_list l <= k)%nat.
Proof. induction 1 as [|x l Hx _ IH]; simpl; lia. Qed.

Lemma part_length {A} (g : A -> list byte) l x :
  x ∈ l -> (length (g x) <= length (concat (g <$> l)))%nat.
Proof.
  induction l as [|y l IH]; intros Hx; [by apply elem_of_nil in Hx|].
  rewrite fmap_cons. cbn [concat]. rewrite length_app.
  apply elem_of_cons in Hx as [->|Hx]; [lia|]. specialize (IH Hx). lia.
Qed.

Lemma omitted_depth E f : value_ok (snd f) -> omitted E f = true -> (depth (snd f) <= 1)%nat.
Proof.
  destruct f as [[id m] v]. unfold omitted, omit_field. cbn [fst snd]. intros Hv Ho.
  destruct (wf_may_omit E); [|done]. apply andb_true_iff in Ho as [_ Ho].
  destruct v as [s|b fs|is_set et items|kt vt items]; cbn [depth] in *; [lia|done|..];
    cbn [is_default] in Ho; unfold is_default_container in Ho; apply Z.eqb_eq in Ho;
    rewrite container_size_id in Ho by apply Hv; destruct items; simpl in *; lia.
Qed.

Lemma depth_encode F v base : (forall b, (0 < length (wf_stop F b))%nat) ->
  (forall n t, (0 < length (wf_list F n t))%nat) -> (forall n t, (0 < length (wf_map F n t))%nat) ->
  value_ok v -> (depth v <= 1 + length (encode F base v))%nat.
Proof.
  intros Hstop Hlist Hmap. revert base.
  induction v as [x|b fs Hb Hf|is_set et items Hi|kt vt items Hi] using value_ind_nested;
    intros base Hv; cbn [depth]; [lia| | |].
  - rewrite encode_struct.
    assert (Hbody : (S (Nat.max (match b with None => 0 | Some bv => depth bv end)
       (max_list ((fun f => depth (snd f)) <$> fs))) <= 1 + length (body_of F base b fs))%nat).
    2:{ destruct base; rewrite ?length_app; lia. }
    unfold body_of. rewrite !length_app. pose proof (Hstop base) as Hs. destruct Hv as [Hvb Hvf].
    apply all_Forall in Hvf.
    assert (max_list ((fun f => depth (snd f)) <$> fs) <= 1 + length (fields_bytes F fs))%nat.
    { apply max_list_bound, Forall_fmap. rewrite Forall_forall in *. intros f Hin.
      destruct (Hvf f Hin) as [_ Hok]. cbn. specialize (Hf f Hin false Hok).
      apply list_elem_of_In in Hin. pose proof (part_length (field_bytes F) fs f Hin) as Hp.
      unfold fields_bytes, field_bytes in *. destruct (omitted F f) eqn:E.
      - pose proof (omitted_depth F f Hok E). lia.
      - rewrite length_app in Hp. lia. }
    destruct b as [bv|]; [|lia]. specialize (Hb bv eq_refl true (proj2 Hvb)). lia.
  - cbn [encode]. rewrite length_app. pose proof (Hlist (zlen items) et).
    destruct Hv as (_ & _ & Hv). apply all_Forall in Hv.
    assert (max_list (depth <$> items) <= 1 + length (concat (encode F false <$> items)))%nat; [|lia].
    apply max_list_bound, Forall_fmap. rewrite Forall_forall in *. intros x Hx.
    destruct (Hv x Hx) as [_ Hok]. cbn. specialize (Hi x Hx false Hok).
    apply list_elem_of_In in Hx. pose proof (part_length (encode F false) items x Hx). lia.
  - cbn [encode]. rewrite length_app. pose proof (Hmap (zlen items) (kt, vt)).
    destruct Hv as (_ & _ & _ & Hv). apply all_Forall in Hv.
    set (g := fun kv => encode F false (fst kv) ++ encode F false (snd kv)).
    assert (max_list ((fun kv => depth (snd kv)) <$> items) <= 1 + length (concat (g <$> items)))%nat;
      [|lia].
    apply max_list_bound, Forall_fmap. rewrite Forall_forall in *. intros x Hx.
    destruct (Hv x Hx) as [_ [_ Hok]], (Hi x Hx) as [_ Hd]. cbn. specialize (Hd false Hok).
    apply list_elem_of_In in Hx. pose proof (part_length g items x Hx) as Hp. subst g. cbn beta in Hp.
    rewrite length_app in Hp. lia.
Qed.

(** * The whole payload *)

(** Wire formats whose every header takes space and that leave out defaults. *)
Record tagged_format (F : wire_format) : Prop := mkTF {
  tf_omits : wf_may_omit F = true;
  tf_stop b : (0 < length (wf_stop F b))%nat;
  tf_list n t : (0 < length (wf_list F n t))%nat;
  tf_map n t : (0 < length (wf_map F n t))%nat
}.

Section Whole.
Context {R W : Type} `{Readable R} (T : trace_logic W).
Context (P : ProtocolReader R) (F : wire_format) (Q : ProtocolWriter W) (G : wire_format).
Context (readers : reader_laws P F) (writers : writer_laws T Q G).
Context (tagged_F : tagged_format F) (tagged_G : tagged_format G).

Lemma Apply_bonded_copies v r : value_ok v -> types_ok v ->
  zlen (encode F false v) < 2 ^ 32 -> zlen (encode G false v) < 2 ^ 32 ->
  is_container_or_struct (type_of v) = true -> fits_schema v false r ->
  copies T F G (Apply_bonded P Q r) v.
Proof.
  intros Hv Ht HF HG Hc Hf. apply moves_fuel. intros fuel Hfuel.
  apply (Transcode_copies T P F Q G); [done|done|apply tf_omits..| |done|done]; [done..|].
  split_and!; [done|done| |done|done].
  pose proof (depth_encode F v false (tf_stop F tagged_F) (tf_list F tagged_F) (tf_map F tagged_F) Hv).
  lia.
Qed.
End Whole.

(** * The schema of the object fits *)

Section Instances.
Context (s : SchemaDef) (ok : schema_ok s).
Abbreviation n := (zlen (structs s)).

Lemma same_id (ds : list FieldDef) lo d1 d2 : increasing lo (fd_id <$> ds) ->
  d1 ∈ ds -> d2 ∈ ds -> fd_id d1 = fd_id d2 -> d1 = d2.
Proof.
  revert lo. induction ds as [|d ds IH]; intros lo Hi H1 H2 He; [by apply elem_of_nil in H1|].
  rewrite fmap_cons in Hi. destruct Hi as [_ Hi].
  assert (Habove : forall d', d' ∈ ds -> fd_id d < fd_id d').
  { intros d' Hd'. pose proof (increasing_forall _ _ Hi) as Hf. rewrite Forall_fmap in Hf.
    rewrite Forall_forall in Hf. apply list_elem_of_In in Hd'. apply (Hf d' Hd'). }
  apply elem_of_cons in H1 as [->|H1], H2 as [->|H2]; [done|..|by eapply IH].
  - specialize (Habove d2 H2). lia.
  - specialize (Habove d1 H1). lia.
Qed.

Lemma fields_match_in (fs : list (Z * Metadata * value)) ds f :
  fields_match ((fun f => (fst (fst f), snd (fst f), instance_of s (snd f))) <$> fs) ds ->
  f ∈ fs -> exists d, d ∈ ds /\ fd_id d = fst (fst f) /\ instance_of s (snd f) (fd_type d).
Proof.
  revert ds. induction fs as [|[[id m] v] fs IH]; intros [|d ds] Hm Hf;
    try (by apply elem_of_nil in Hf); [done|].
  rewrite fmap_cons in Hm. cbn [fields_match fst snd] in Hm. destruct Hm as (Hid & _ & Hi & Hm).
  apply elem_of_cons in Hf as [->|Hf].
  - exists d. split_and!; [left|done|done].
  - destruct (IH ds Hm Hf) as (d' & Hd & H'). exists d'. split; [by right|done].
Qed.

Lemma struct_def_ok i d : structs s !! i = Some d -> struct_ok n d.
Proof.
  intros Hd. destruct ok as (_ & Hs & _). rewrite Forall_forall in Hs.
  apply Hs, list_elem_of_In. by eapply list_elem_of_lookup_2.
Qed.

Lemma field_def_ok d f : struct_ok n d -> f ∈ fields d -> typedef_ok n (fd_type f).
Proof.
  intros (_ & _ & Hf) Hin. rewrite Forall_forall in Hf. by apply Hf, list_elem_of_In.
Qed.

Lemma instance_fits v : forall t exact, typedef_ok n t -> instance_of s v t ->
  fits_schema v exact (mkRuntimeSchema s t).
Proof.
  induction v as [x|b fs Hb Hf|is_set et items Hi|kt vt items Hi] using value_ind_nested;
    intros t exact Ht Hin; [done| | |].
  - destruct Hin as (Htd & _ & d & Hd & Hbase & Hfs). pose proof (struct_def_ok _ _ Hd) as Hok.
    split; [exact Htd|]. left. exists d. split_and!; [exact Hd| |].
    + destruct b as [bv|], (base_def d) as [tb|] eqn:Ebd; try done.
      destruct (struct_ok_base _ _ _ Hok Ebd) as [Hid Hok']. split; [done|].
      by apply (Hb bv eq_refl).
    + apply all_Forall. rewrite Forall_forall in *. intros f Hfin d1 Hd1 Hid _.
      apply list_elem_of_In in Hfin as Hfin'.
      destruct (fields_match_in _ _ _ Hfs Hfin') as (d2 & Hd2 & Hid2 & Hinst).
      assert (d1 = d2) as -> by (eapply same_id; [apply Hok|done|done|congruence]).
      apply (Hf f Hfin); [by eapply field_def_ok|done].
  - destruct Hin as (Htd & e & He & -> & Hit). apply all_Forall in Hit.
    destruct (container_element n t is_set Ht Htd) as (_ & e' & He' & Hoke & _).
    assert (e' = e) as -> by congruence. split; [exact Htd|]. apply all_Forall.
    unfold element_schema. cbn [rs_type]. rewrite He. unfold payload_schema, GetTypeId. cbn [rs_type with_type].
    rewrite Z.eqb_refl. rewrite Forall_forall in *. intros x Hx. by apply Hi; [| |apply Hit].
  - destruct Hin as (Htd & k & e & Hk & He & -> & -> & Hit).
    apply (all_Forall (fun kv => instance_of s (fst kv) k /\ instance_of s (snd kv) e)) in Hit.
    destruct (map_parts n t Ht Htd) as (k' & e' & kb & Hk' & He' & _ & Hoke & _).
    assert (e' = e) as -> by congruence. split; [done|]. apply all_Forall.
    unfold element_schema. cbn [rs_type]. rewrite He. unfold payload_schema, GetTypeId. cbn [rs_type with_type].
    rewrite Z.eqb_refl. rewrite Forall_forall in *. intros x Hx. destruct (Hi x Hx) as [_ Hs].
    apply Hs; [done|]. by apply (Hit x Hx).
Qed.

Lemma typedef_known t : typedef_ok n t -> known_type (td_id t).
Proof.
  destruct t as [i z e k b]. intros [_ Ht]. cbn [td_id element key] in *. unfold known_type.
  assert (Hbasic : is_Some (basic_type_of_id i) -> 2 <= i <= 18).
  { intros [x Hx]. destruct x as [|[]|[]| | | |]; apply basic_type_of_id_inv in Hx; subst i; by vm_compute. }
  destruct e as [e|], k as [k|]; try done.
  - destruct Ht as [-> _]. by vm_compute.
  - destruct Ht as [[->|[-> _]] _]; by vm_compute.
  - destruct Ht as [->|?]; [by vm_compute|by apply Hbasic].
Qed.

Lemma instance_types v : forall t, typedef_ok n t -> instance_of s v t -> types_ok v.
Proof.
  induction v as [x|b fs Hb Hf|is_set et items Hi|kt vt items Hi] using value_ind_nested;
    intros t Ht Hin; [done| | |].
  - destruct Hin as (Htd & _ & d & Hd & Hbase & Hfs). pose proof (struct_def_ok _ _ Hd) as Hok. split.
    + destruct b as [bv|], (base_def d) as [tb|] eqn:Ebd; try done.
      destruct (struct_ok_base _ _ _ Hok Ebd) as [Hid Hok']. by eapply (Hb bv eq_refl).
    + apply all_Forall. rewrite Forall_forall in *. intros f Hfin.
      apply list_elem_of_In in Hfin as Hfin'.
      destruct (fields_match_in _ _ _ Hfs Hfin') as (d2 & Hd2 & Hid2 & Hinst).
      eapply (Hf f Hfin); [by eapply field_def_ok|done].
  - destruct Hin as (Htd & e & He & -> & Hit). apply all_Forall in Hit.
    destruct (container_element n t is_set Ht Htd) as (_ & e' & He' & Hoke & _).
    assert (e' = e) as -> by congruence. split; [by apply typedef_known|]. apply all_Forall.
    rewrite Forall_forall in *. intros x Hx. by eapply Hi; [| |apply Hit].
  - destruct Hin as (Htd & k & e & Hk & He & -> & -> & Hit).
    apply (all_Forall (fun kv => instance_of s (fst kv) k /\ instance_of s (snd kv) e)) in Hit.
    destruct (map_parts n t Ht Htd) as (k' & e' & kb & Hk' & He' & _ & Hoke & Hkb & _).
    assert (e' = e) as -> by congruence. assert (k' = k) as -> by congruence.
    split; [by eexists|]. split; [by apply typedef_known|]. apply all_Forall.
    rewrite Forall_forall in *. intros x Hx. destruct (Hi x Hx) as [_ Hs].
    eapply Hs; [done|]. by apply (Hit x Hx).
Qed.
End Instances.
