(* ===== verification/BondedVoid.v ===== *)
(** Serializing a payload that was never deserialized (cpp/inc/bond/core/bonded_void.h,
    apply.h, detail/double_pass.h, detail/protocol_visitors.h, detail/pass_through.h).

    [Serialize(bonded<void>(reader, schema), writer)]: with the protocol and version of
    the payload its bytes are copied; with another the parser of the reader drives the
    serializer, twice if the writer has to know lengths in advance. *)

From stdpp Require Import strings.
From S2P Require Import Prelude Streams Encoding InputBuffer OutputCounter DataType Metadata.
From S2P Require Import Protocol Serializer Skipping FastBinary CompactBinary CompactBinaryReader.
From S2P Require Import Schema Parser ParserCorrect Deserialization RuntimeSchema Validate.
From S2P Require Import ValidateSound Transcode TranscodeCorrect.

(** [is_protocol_same<Reader, Writer>] and [is_protocol_version_same(reader, writer)]. *)
Definition is_protocol_version_same (p q : tagged) : bool :=
  match p, q with
  | Compact version, Compact version' => version =? version'
  | Fast, Fast => true
  | _, _ => false
  end.

Section Apply.
Context {R W : Type} `{Readable R} (P : ProtocolReader R) (Q : ProtocolWriter W).
Context (write_blob : list byte -> M W unit).

(** [PassThrough(value, reader, writer)]: the value is skipped and the bytes between the
    two positions of the buffer are written. *)
Definition PassThrough : M (R * W) unit :=
  let! before := gets (fun s => view (fst s)) in
  input (Skip P BT_STRUCT) ;;;
  let! after := gets (fun s => view (fst s)) in
  output (write_blob (take (length before - length after) before)).

(** [_Parser::Apply(Serializer, reader, schema, base)]. *)
Definition Parser_Apply (same : bool) (schema : RuntimeSchema) : M (R * W) unit :=
  if same then PassThrough else Apply_bonded P Q schema.

(** [Parse(transform, ProtocolReader reader, schema)] takes the reader by value. *)
Definition on_copy (reader : R) (m : M (R * W) unit) : M W unit :=
  fun w => let '(o, s) := m (reader, w) in (o, snd s).
End Apply.

(** [Apply(transform, bonded)] for a transform that writes with [q]: [transform] is given
    the writer and how it writes a range of the input. *)
Definition ApplyTo {B} `{OutputStream B} (q : tagged)
    (transform : forall W, ProtocolWriter W -> (list byte -> M W unit) -> M W unit) : M B unit :=
  match q with
  | Fast => transform B FastBinaryWriter os_Write_bytes
  | Compact version => fun output =>
      let '(o, w) := ApplyTransform version
        (transform _ (cb_pass0 version) (fun bs => cb_out (os_Write_bytes bs)))
        (transform _ (cb_pass1 version) (fun bs => cb_out (os_Write_bytes bs)))
        (CompactBinaryWriter_new output) in
      (o, cb_output w)
  end.

(** [bonded<void>::Serialize(output)]; the reader of a marshaled payload is [p]. *)
Definition SerializeBonded {R B} `{InputStream R} `{OutputStream B} (p q : tagged) (reader : R)
    (schema : RuntimeSchema) : M B unit :=
  ApplyTo q (fun W Q blob =>
    on_copy reader (Parser_Apply (reader_of p) Q blob (is_protocol_version_same p q) schema)).

(** * Properties *)

Lemma fb_tagged : tagged_format fb_format.
Proof. split; intros; cbn [fb_format wf_list wf_map wf_stop length]; lia || done. Qed.

Lemma cb_tagged version : tagged_format (cb_format version).
Proof.
  split; intros; cbn [cb_format wf_list wf_map wf_stop length]; try lia; [done|].
  unfold cb_list. destruct ((v2 =? version) && (n <? 7)); simpl; lia.
Qed.

Lemma format_tagged p : tagged_format (format_of p).
Proof. destruct p; [apply cb_tagged|apply fb_tagged]. Qed.

Section Copied.
Context {R W : Type} `{Readable R} (T : trace_logic W).

Lemma on_copy_does (m : M (R * W) unit) bs ls out (r : R) rest :
  moves T m bs ls out tt -> readable r -> view r = bs ++ rest -> does T ls (on_copy r m) out.
Proof.
  intros Hm Hr Hv. destruct (Hm r rest Hr Hv) as (r' & mw & _ & _ & D & E).
  eapply does_refine; [|exact D]. intros w w' Hw. unfold on_copy. by rewrite (E w w' Hw).
Qed.

Lemma PassThrough_copies (P : ProtocolReader R) (write_blob : list byte -> M W unit) bs :
  reads (Skip P BT_STRUCT) bs tt -> does T [] (write_blob bs) bs ->
  moves T (PassThrough P write_blob) bs [] bs tt.
Proof.
  intros Hs Hw r rest Hr Hv. destruct (Hs r rest Hr Hv) as (r' & E & V & R').
  exists r', (write_blob bs). split_and!; [done..|]. intros w w' Ew.
  unfold PassThrough, input, output. rewrite bind_gets. cbn [fst].
  rewrite (bind_ok _ _ (r, w) tt (r', w)) by by erewrite zoom_ok by exact E.
  rewrite bind_gets. cbn [fst]. rewrite Hv, V, length_app.
  rewrite Nat.add_sub, take_app_length. by erewrite zoom_ok by exact Ew.
Qed.

(** Either way. *)
Lemma Parser_Apply_does (P : ProtocolReader R) F (Q : ProtocolWriter W) G write_blob same schema v
    (r : R) rest :
  reader_laws P F -> writer_laws T Q G -> tagged_format F -> tagged_format G ->
  (forall bs, zlen bs < 2 ^ 32 -> does T [] (write_blob bs) bs) ->
  (same = true -> F = G) -> type_of v = BT_STRUCT -> value_ok v -> types_ok v ->
  zlen (encode F false v) < 2 ^ 32 -> zlen (encode G false v) < 2 ^ 32 ->
  fits_schema v false schema -> readable r -> view r = encode F false v ++ rest ->
  does T (if same then [] else lens G false v) (on_copy r (Parser_Apply P Q write_blob same schema))
    (encode G false v).
Proof.
  intros HP HQ TF TG Hblob Hsame Hty Hv Ht HF HG Hfit Hr Hview.
  eapply on_copy_does; [|exact Hr|exact Hview]. unfold Parser_Apply. destruct same.
  - rewrite (Hsame eq_refl) in *. apply PassThrough_copies; [|by apply Hblob].
    rewrite <-Hty. by apply (rl_skip _ _ HP).
  - apply (Apply_bonded_copies T P F Q G); try done. by rewrite Hty.
Qed.
End Copied.

Lemma same_format p q : is_protocol_version_same p q = true -> format_of p = format_of q.
Proof. destruct p, q; try done. cbn [is_protocol_version_same]. by intros ->%Z.eqb_eq. Qed.


Section Transcodes.
Context {R B : Type} `{InputStreamLaws R} `{OutputStreamLaws B}.

Definition writable_version (q : tagged) : Prop :=
  match q with Compact version => version = v1 \/ version = v2 | Fast => True end.

Lemma lens_within q v base : writable_version q ->
  2 * zlen (lens (format_of q) base v) <= zlen (encode (format_of q) base v).
Proof.
  destruct q as [version|]; cbn [writable_version format_of];
    [intros [-> | ->]; [|apply lens_bound]|intros _]; rewrite uncounted_lens by done; simpl; lia.
Qed.

(** Both passes of a transform, or the only one. *)
Lemma ApplyTo_run q transform ls bs (out : B) n :
  writable_version q -> (wf_counted (format_of q) = false -> ls = []) -> 2 * zlen ls <= zlen bs ->
  (forall W (T : trace_logic W) Q blob, writer_laws T Q (format_of q) ->
   (forall bs', zlen bs' < 2 ^ 32 -> does T [] (blob bs') bs') -> does T ls (transform W Q blob) bs) ->
  zlen bs < 2 ^ 32 -> room out n -> zlen bs <= n ->
  exists out', ApplyTo q transform out = (Ok tt, out') /\ appends out bs out'.
Proof.
  intros Hq Hu Hls Hdoes Hl Hroom Hn. destruct q as [version|]; cbn [format_of ApplyTo] in *.
  - destruct (ApplyTransform_run version
      (transform _ (cb_pass0 version) (fun bs => cb_out (os_Write_bytes bs)))
      (transform _ (cb_pass1 version) (fun bs => cb_out (os_Write_bytes bs)))
      ls bs (CompactBinaryWriter_new out) n Hq) as (w & E & A & _); try done.
    + intros ->. by apply Hu.
    + intros ->. split; [|done]. apply Hdoes; [apply cb_pass0_laws|]. intros bs' Hb.
      by apply count_out_does, os_Write_bytes_emits.
    + apply Hdoes; [apply cb_pass1_laws|]. intros bs' Hb. by apply cb_out_does, os_Write_bytes_emits.
    + exists (cb_output w). by rewrite E.
  - rewrite (Hu eq_refl) in Hdoes.
    destruct (Hdoes B stream_logic FastBinaryWriter os_Write_bytes fb_writer_laws) as [_ He].
    { intros bs' Hb. split; [done|by apply os_Write_bytes_emits]. }
    destruct (He out n Hroom Hn) as (w & E & A & _). exists w. by split.
Qed.

(** C1: transcoding.  A payload of Fast or Compact Binary, serialized through
    [bonded<void>] with either protocol and version, becomes the payload the serializer
    writes for the object itself, whatever follows it in the input.  The schema need
    not be the one the payload was written with: fields and levels it does not know
    are copied, and where it knows nothing the types in the payload are enough.  In
    Compact Binary version 2 the lengths are found from the payload in a first pass. *)
Theorem transcodes p q schema v (r : R) rest (out : B) n :
  writable_version q -> type_of v = BT_STRUCT -> value_ok v -> types_ok v ->
  zlen (encode (format_of p) false v) < 2 ^ 32 ->
  zlen (encode (format_of q) false v) < 2 ^ 32 ->
  fits_schema v false schema ->
  readable r -> view r = encode (format_of p) false v ++ rest ->
  room out n -> zlen (encode (format_of q) false v) <= n ->
  exists out', SerializeBonded p q r schema out = (Ok tt, out') /\
    appends out (encode (format_of q) false v) out'.
Proof.
  intros Hq Hty Hv Ht HF HG Hfit Hr Hview Hroom Hn.
  set (same := is_protocol_version_same p q).
  pose proof (same_format p q) as Hsame. fold same in Hsame.
  assert (Hdoes : forall W (T : trace_logic W) Q blob, writer_laws T Q (format_of q) ->
    (forall bs, zlen bs < 2 ^ 32 -> does T [] (blob bs) bs) ->
    does T (if same then [] else lens (format_of q) false v)
      (on_copy r (Parser_Apply (reader_of p) Q blob same schema)) (encode (format_of q) false v)).
  { intros W T Q blob HQ Hb.
    apply (Parser_Apply_does T (reader_of p) (format_of p) Q (format_of q) blob same schema v r rest);
      try done; [apply reader_of_laws|apply format_tagged..]. }
  apply (ApplyTo_run q _ (if same then [] else lens (format_of q) false v)
    (encode (format_of q) false v) out n); try done.
  - intros Hc. destruct same; [done|by apply uncounted_lens].
  - destruct same; [simpl; lia|by apply lens_within].
Qed.
End Transcodes.

(** ** Schemas that fit every object *)

(** The schema an object was written with fits it, and the schema of [Unknown] fits
    every struct. *)
Lemma own_schema_fits s v : schema_ok s -> instance_of s v (root s) ->
  types_ok v /\ fits_schema v false (schema_of s).
Proof.
  intros Hs Hi. pose proof Hs as (_ & _ & _ & _ & Hr). split.
  - by eapply instance_types.
  - by apply instance_fits.
Qed.

Lemma no_schema_fits v : value_ok v -> type_of v = BT_STRUCT -> fits_schema v false unknown_schema.
Proof. intros Hv Ht. pose proof (unknown_fits v Hv) as Hf. by rewrite Ht in Hf. Qed.

Lemma transcodes_witness :
  exists out out', SerializeBonded Fast (Compact v2) (buffer_of (encode fb_format false tree_value))
      unknown_schema (mkOC 0) = (Ok tt, out) /\
    appends (mkOC 0) (encode (cb_format v2) false tree_value) out /\
    SerializeBonded (Compact v2) Fast (buffer_of (encode (cb_format v2) false tree_value))
      (schema_of tree_schema) (mkOC 0) = (Ok tt, out') /\
    appends (mkOC 0) (encode fb_format false tree_value) out'.
Proof.
  destruct (buffer_reads (encode fb_format false tree_value)) as [H1 H2]; [by vm_compute|].
  destruct (buffer_reads (encode (cb_format v2) false tree_value)) as [H3 H4]; [by vm_compute|].
  assert (Hv : value_ok tree_value) by by_parts.
  assert (HF : zlen (encode (format_of Fast) false tree_value) < 2 ^ 32) by by vm_compute.
  assert (HC : zlen (encode (format_of (Compact v2)) false tree_value) < 2 ^ 32) by by vm_compute.
  assert (HF' : zlen (encode (format_of Fast) false tree_value) <= 1000) by by vm_compute.
  assert (HC' : zlen (encode (format_of (Compact v2)) false tree_value) <= 1000) by by vm_compute.
  assert (Hroom : room (mkOC 0) 1000) by by vm_compute.
  destruct (own_schema_fits _ _ tree_schema_ok tree_value_instance) as [Ht Hf].
  pose proof (no_schema_fits _ Hv eq_refl) as Hu.
  destruct (transcodes Fast (Compact v2) unknown_schema tree_value _ [] (mkOC 0) 1000
    (or_intror eq_refl) eq_refl Hv Ht HF HC Hu H1 (eq_trans H2 (eq_sym (app_nil_r _))) Hroom HC')
    as (w & E & A).
  destruct (transcodes (Compact v2) Fast (schema_of tree_schema) tree_value _ [] (mkOC 0) 1000 I
    eq_refl Hv Ht HC HF Hf H3 (eq_trans H4 (eq_sym (app_nil_r _))) Hroom HF') as (w' & E' & A').
  exists w, w'. exact (conj E (conj A (conj E' A'))).
Defined.

(** ** Payloads the schema does not fit *)

(** C34: a list of structs in a field whose schema has elements of another type.  The
    element is given a schema with a struct for a root and no struct definitions, and
    its definition is looked up in the empty vector. *)
Theorem struct_elements_undefined {R W} `{Readable R} (P : ProtocolReader R) F
    (Q : ProtocolWriter W) is_set x items element fuel (r : R) rest (w w1 : W) :
  reader_laws P F -> GetTypeId element <> BT_STRUCT ->
  value_ok (VList is_set BT_STRUCT (x :: items)) ->
  zlen (encode F false (VList is_set BT_STRUCT (x :: items))) < 2 ^ 32 ->
  readable r -> view r = encode F false (VList is_set BT_STRUCT (x :: items)) ++ rest ->
  WriteContainerBegin Q (zlen (x :: items)) BT_STRUCT w = (Ok tt, w1) ->
  fst (DeserializeContainer P Q (Transcode P Q (S fuel)) element (r, w)) = Err Undefined.
Proof.
  intros HP He Hv Hl Hr Hview Hw. destruct Hv as (_ & Hn & Hit). destruct Hit as [[Ht Hx] _].
  destruct x as [s|b fs|k|]; [by destruct s as [|[]|[]| | | |]| |by destruct k|done].
  cbn [encode] in Hl, Hview. rewrite fmap_cons in Hl, Hview. cbn [concat] in Hl, Hview.
  rewrite !length_app in Hl. rewrite <-!app_assoc in Hview.
  destruct (rl_list _ _ HP (zlen (VStruct b fs :: items)) BT_STRUCT (GetTypeId element)
    ltac:(by apply zlen_fits) ltac:(by vm_compute) r _ Hr Hview) as (r1 & E1 & V1 & R1).
  change (encode F false (VStruct b fs)) with (wf_prefix F (zlen (body_of F false b fs)) ++
    body_of F false b fs) in V1, Hl.
  rewrite length_app in Hl. rewrite <-app_assoc in V1.
  destruct (rl_begin _ _ HP false (zlen (body_of F false b fs)) ltac:(unfold fits; lia)
    r1 _ R1 V1) as (r2 & E2 & _).
  unfold DeserializeContainer, input, output.
  rewrite (bind_ok _ _ (r, w) _ (r1, w)) by by erewrite zoom_ok by exact E1. cbn [fst snd].
  change (is_container_or_struct BT_STRUCT) with true. cbv iota. unfold Container, output.
  replace (payload_schema element BT_STRUCT) with (untyped BT_STRUCT).
  2:{ unfold payload_schema. rewrite Z.eqb_sym. by apply Z.eqb_neq in He as ->. }
  unfold bind at 1 2. erewrite zoom_ok by exact Hw. cbn [snd fst].
  rewrite Nat2Z.id. cbn [length repeatM Transcode].
  change (GetTypeId (untyped BT_STRUCT) =? BT_STRUCT) with true. cbv iota.
  change (levels_of (untyped BT_STRUCT)) with 1%nat. cbn [CopyStruct].
  unfold bind at 1 2 3 4, input. by erewrite zoom_ok by exact E2.
Qed.

Definition int_list_schema : SchemaDef := mkSchemaDef
  [mkStructDef "Ints" Metadata_new None
     [mkFieldDef Metadata_new 0
        (mkTypeDef BT_LIST 0 (Some (mkTypeDef (get_type_id (TInt W32)) 0 None None false)) None false)]]
  TypeDef_new.

Lemma struct_elements_undefined_witness :
  fst (DeserializeContainer FastBinaryReader FastBinaryWriter
    (Transcode FastBinaryReader FastBinaryWriter 1)
    (schema_of (mkSchemaDef [] (mkTypeDef (get_type_id (TInt W32)) 0 None None false)))
    (buffer_of (encode fb_format false (VList false BT_STRUCT [VStruct None []])), mkOC 0)) =
    Err Undefined.
Proof.
  destruct (buffer_reads (encode fb_format false (VList false BT_STRUCT [VStruct None []])))
    as [H1 H2]; [by vm_compute|].
  apply (struct_elements_undefined FastBinaryReader fb_format FastBinaryWriter false
    (VStruct None []) [] _ 0 _ [] (mkOC 0) (mkOC 2) fb_reader_laws); [by vm_compute|by by_parts|
    by vm_compute|exact H1|by rewrite H2|by vm_compute].
Defined.

(** A payload with fewer levels than the schema: the base's parser meets the end of the
    struct, [Serializer::Base] drops that result, and the next level reads on in what
    follows the struct, where [To] throws. *)
Definition two_levels : SchemaDef := mkSchemaDef
  [mkStructDef "Derived" Metadata_new (Some (mkTypeDef BT_STRUCT 1 None None false))
     [mkFieldDef Metadata_new 1 (mkTypeDef (get_type_id (TInt W32)) 0 None None false)];
   mkStructDef "Base" Metadata_new None
     [mkFieldDef Metadata_new 0 (mkTypeDef (get_type_id (TInt W32)) 0 None None false)]] TypeDef_new.
Definition one_level : value := VStruct None [(0, Metadata_new, VBasic (SInt W32 5))].
Definition both_levels : value :=
  VStruct (Some one_level) [(1, Metadata_new, VBasic (SInt W32 6))].
(** The bytes of another struct that happen to follow. *)
Definition next_struct : list byte :=
  encode fb_format false (VStruct None [(1, Metadata_new, VBasic (SInt W32 6))]).

Example shallow_payload_runs_on :
  SerializeBonded Fast (Compact v1) (buffer_of (encode fb_format false one_level ++ next_struct))
    (schema_of two_levels) (mkOC 0) =
    (Ok tt, mkOC (zlen (encode (cb_format v1) false both_levels))) /\
  fst (SerializeBonded Fast (Compact v1) (buffer_of (encode fb_format false one_level))
    (schema_of two_levels) (mkOC 0)) = Err (Thrown StreamException) /\
  fst (Deserialize FastBinaryReader (schema_type two_levels 1)
    (buffer_of (encode fb_format false one_level ++ next_struct))) = Err (Thrown CoreException).
Proof. split_and!; by vm_compute. Qed.
