(* ===== verification/Merge.v ===== *)
(** Merging an object into a payload (cpp/inc/bond/core/merge.h [Merger], parser.h
    [DynamicParser] with a compile-time schema, value.h, detail/inheritance.h,
    detail/parser_utils.h, bond.h [Merge], stl_containers.h).

    The parser of the payload drives a serializer that takes the known fields from an
    object, and writes the rest as it finds it.  The same definitions without an object
    are [bonded<T>::Serialize]: the payload copied with the compile-time schema of [T]. *)

From S2P Require Import Prelude Streams DataType Metadata Protocol Serializer Schema.
From S2P Require Import Parser RuntimeSchema Transcode BondedVoid.

(** [has_schema<T>], [is_struct_container<T>]: lists, vectors and maps of structs, or of
    such containers. *)
Definition has_schema (t : ftype) : bool :=
  match t with FStruct _ _ => true | _ => false end.
Fixpoint is_struct_container (t : ftype) : bool :=
  match t with
  | FList false e => has_schema e || is_struct_container e
  | FMap _ vt => has_schema vt || is_struct_container vt
  | _ => false
  end.
Definition is_basic_type (t : ftype) : bool :=
  match t with FBasic _ => true | _ => false end.

Section Merge.
Context {R W : Type} `{Readable R} (P : ProtocolReader R) (Q : ProtocolWriter W).

(** [same]: the reader and the writer are of one protocol and version, so that a struct
    handed to a [Serializer] is passed through. *)
Context (write_blob : list byte -> M W unit) (same : bool).

(** ** What the schema does not describe *)

(** [Apply(Serializer(_output), value)] for a [value<void>]. *)
Fixpoint CopyPassing (fuel : nat) (r : RuntimeSchema) : M (R * W) unit :=
  match fuel with
  | O => fail OutOfFuel
  | S fuel' =>
      if GetTypeId r =? BT_STRUCT then PassThrough P write_blob
      else if GetTypeId r =? BT_MAP then
        DeserializeMap P Q (CopyPassing fuel') (GetTypeId (key_schema r)) (element_schema r)
      else DeserializeContainer P Q (CopyPassing fuel') (element_schema r)
  end.
Definition CopyUnknown (r : RuntimeSchema) : M (R * W) unit :=
  with_input 0 (fun fuel => if same then CopyPassing fuel r else Transcode P Q fuel r).

(** ** Containers *)

(** [DeserializeContainer(transform, element, input)]: [nested] is
    [transform.Container(element, size)] for elements that are structs or containers;
    for basic ones it is the one of [Serializer]. *)
Definition ReadContainer (expected : BondDataType)
    (nested : BondDataType -> Z -> M (R * W) unit) : M (R * W) unit :=
  let! h := input (ReadContainerBegin P expected) in
  (if is_container_or_struct (snd h) then nested (snd h) (fst h)
   else
     match basic_type_of_id (snd h) with
     | Some t => Container Q (snd h) (fst h) (WriteBasic P Q t)
     | None => ret tt
     end) ;;;
  input (ReadContainerEnd P).

(** [DeserializeMap(transform, keyType, element, input)] with [MapByKey] and
    [MapByElement]. *)
Definition ReadMap (expected : BondDataType * BondDataType)
    (nested : btype -> BondDataType * BondDataType -> Z -> M (R * W) unit) : M (R * W) unit :=
  let! h := input (ReadMapBegin P expected) in
  (if is_container_or_struct (snd (snd h)) then
     match basic_type_of_id (fst (snd h)) with
     | Some u => nested u (snd h) (fst h)
     | None => ret tt
     end
   else
     match basic_type_of_id (snd (snd h)) with
     | Some t => MapByKey P Q (snd h) (fst h) (WriteBasic P Q t)
     | None => ret tt
     end) ;;;
  input (ReadContainerEnd P).

(** [Merger::Merge(var, element, size)]; [merge] is [Merge(items.next(), element)]. *)
Definition MergeElements (e : ftype) (items : list value) (size : Z)
    (merge : value -> M (R * W) unit) : M (R * W) unit :=
  if negb (size =? container_size items) then throw CoreException
  else
    output (WriteContainerBegin Q size (field_type_id e)) ;;;
    forM items merge ;;;
    output (WriteContainerEnd Q).

(** [mapped_at(const std::map&, key)]. *)
Definition const_mapped_at (items : list (value * value)) (k : scalar) : M (R * W) value :=
  match find (fun kv => is_key k (fst kv)) items with
  | Some kv => ret (snd kv)
  | None => throw CoreException
  end.

(** [Merger::Merge(var, key, value, size)]. *)
Definition MergePairs (u kt : btype) (vt : ftype) (items : list (value * value)) (size : Z)
    (merge : value -> M (R * W) unit) : M (R * W) unit :=
  if negb (size =? container_size items) then throw CoreException
  else
    output (WriteMapBegin Q size (get_type_id kt, field_type_id vt)) ;;;
    repeatM (Z.to_nat size)
      (let! k := input (read_basic P u kt) in
       output (Write Q k) ;;;
       let! x := const_mapped_at items k in merge x) ;;;
    output (WriteContainerEnd Q).

(** [Merger::Container(key, value, size)] where the keys match, otherwise the one of
    [Serializer]; [copy] writes a mapped value as it is. *)
Definition MapElements (u kt : btype) (vt : ftype) (items : list (value * value))
    (type : BondDataType * BondDataType) (size : Z) (merge : value -> M (R * W) unit)
    (copy : M (R * W) unit) : M (R * W) unit :=
  if is_matching_basic u kt then MergePairs u kt vt items size merge
  else MapContainer Q type size (WriteBasic P Q u ;;; copy).

(** [Apply(Merger<T>(var, _output), value)] for a [value<void>]: the type in the payload
    is not the one of the schema.  A [value<void>] matches the elements of a container of
    structs or containers. *)
Fixpoint MergeVoid (t : ftype) (var : value) (r : RuntimeSchema) : M (R * W) unit :=
  let nested type := payload_schema (element_schema r) type in
  if GetTypeId r =? BT_STRUCT then
    let! _ := CopyStruct P Q CopyUnknown (levels_of r) false r in ret tt
  else if GetTypeId r =? BT_MAP then
    match t, var with
    | FMap kt vt, VMap _ _ items =>
        ReadMap (GetTypeId (key_schema r), GetTypeId (element_schema r)) (fun u type size =>
          MapElements u kt vt items type size
            (fun x => MergeVoid vt x (nested (snd type))) (CopyUnknown (nested (snd type))))
    | _, _ => DeserializeMap P Q CopyUnknown (GetTypeId (key_schema r)) (element_schema r)
    end
  else
    match t, var with
    | FList _ e, VList _ _ items =>
        ReadContainer (GetTypeId (element_schema r)) (fun type size =>
          if is_basic_type e then Container Q type size (CopyUnknown (nested type))
          else MergeElements e items size (fun x => MergeVoid e x (nested type)))
    | _, _ => DeserializeContainer P Q CopyUnknown (element_schema r)
    end.

(** ** Fields *)

(** A field of the schema, its variable in the object if there is one, and
    [Merge(FieldT::GetVariable(_var), value)], or [Write(value)] without an object. *)
Record merge_field : Type := mkMF {
  mf_id : Z;
  mf_metadata : Metadata;
  mf_type : ftype;
  mf_var : option value;
  mf_nested : M (R * W) unit
}.

(** [Merger::Field(FieldT, value)], or [Serializer::Field(id, metadata, value)].  The
    value of a field that is written from the object is skipped by its destructor. *)
Definition Merge_Field (f : merge_field) : M (R * W) unit :=
  match mf_var f with
  | Some x =>
      if has_schema (mf_type f) || is_struct_container (mf_type f) then
        output (WriteFieldBegin Q (field_type_id (mf_type f)) (mf_id f)) ;;;
        mf_nested f ;;;
        output (WriteFieldEnd Q)
      else
        output (Serializer.Field Q (mf_id f) (mf_metadata f) x (Serializer.Apply Q false x)) ;;;
        input (Skip_nothrow P (field_type_id (mf_type f)))
  | None =>
      output (WriteFieldBegin Q (field_type_id (mf_type f)) (mf_id f)) ;;;
      mf_nested f ;;;
      output (WriteFieldEnd Q)
  end.

(** [Merger::OmittedField(FieldT)], or [Serializer::OmittedField(id, metadata, type)]. *)
Definition Merge_OmittedField (f : merge_field) : M (R * W) unit :=
  match mf_var f with
  | Some x =>
      output (Serializer.Field Q (mf_id f) (mf_metadata f) x (Serializer.Apply Q false x))
  | None =>
      output (WriteFieldOmitted Q (field_type_id (mf_type f)) (mf_id f) (mf_metadata f))
  end.

(** [UnknownFieldOrTypeMismatch]: either way the payload's value is written. *)
Definition Merge_Mismatch (f : merge_field) (type : BondDataType) (id : Z) : M (R * W) unit :=
  if is_basic_type (mf_type f) && (id =? mf_id f) && negb (is_container_or_struct type)
  then BasicTypeField P Q type (mf_id f)
  else UnknownField P Q CopyUnknown type id.

(** [DynamicParser::ReadFields(Fields, id, type, transform)]. *)
Fixpoint VisitFields (fuel : nat) (rest : list merge_field) (tag : BondDataType * Z) :
    M (R * W) (BondDataType * Z) :=
  match fuel with
  | O => fail OutOfFuel
  | S fuel' =>
      let '(type, id) := tag in
      match rest with
      | [] =>
          if is_stop type then ret tag
          else
            UnknownField P Q CopyUnknown type id ;;;
            let! tag' := NextField P in VisitFields fuel' [] tag'
      | head :: rest' =>
          let after :=
            let! tag' := NextField P in
            if (mf_id head <? snd tag') || is_stop (fst tag')
            then VisitFields fuel' rest' tag' else VisitFields fuel' rest tag' in
          if (mf_id head =? id) && (field_type_id (mf_type head) =? type) then
            Merge_Field head ;;; after
          else if (id <=? mf_id head) && negb (is_stop type) then
            Merge_Mismatch head type id ;;; after
          else Merge_OmittedField head ;;; VisitFields fuel' rest' tag
      end
  end.

(** [DynamicParser::ReadFields(fields, transform)]. *)
Definition MergeFields (base : bool) (fields : list merge_field) : M (R * W) bool :=
  let! tag := input (ReadFieldBegin P) in
  let! tag := with_input (length fields) (fun fuel => VisitFields fuel fields tag) in
  let! done :=
    if negb base then
      with_input 0 (fun fuel => CopyUnknownFields P Q CopyUnknown fuel tag) ;;; ret false
    else ret (fst tag =? BT_STOP) in
  input (ReadFieldEnd P) ;;; ret done.

(** ** Objects *)

(** The members of the object for the fields of the schema. *)
Definition members (var : option value) (n : nat) : list (option value) :=
  match var with
  | Some (VStruct _ vars) => (fun f => Some (snd f)) <$> vars
  | _ => replicate n None
  end.
Definition base_member (var : option value) : option value :=
  match var with Some (VStruct b _) => b | _ => None end.

(** [Apply(Merger<T>(var, output, base), bonded<T>(input, base))], and for the elements
    and fields of other types [Apply(Merger<T>(var, output), value<T>(input))]; without an
    object [Serializer] in place of [Merger].  [Merger::Base] returns what the parser of
    the base returned, [Serializer::Base] returns [false]. *)
Fixpoint Merge (base : bool) (t : ftype) (var : option value) : M (R * W) bool :=
  match t with
  | FBasic b => WriteBasic P Q b ;;; ret false
  | FStruct bt fs =>
      if same && bool_decide (var = None) then PassThrough P write_blob ;;; ret false
      else
        let fields := zip_with (fun f x => mkMF (fst (fst (fst f))) (snd (fst (fst f)))
                                  (snd (fst f)) x (let! _ := snd f x in ret tt))
          ((fun f => (f, Merge false (snd f))) <$> fs) (members var (length fs)) in
        input (ReadStructBegin P base) ;;;
        output (WriteStructBegin Q base) ;;;
        let! ended :=
          match bt with
          | None => ret false
          | Some bt' =>
              let! ended := Merge true bt' (base_member var) in
              ret (bool_decide (is_Some var) && ended)
          end in
        let! ended := if (ended : bool) then ret true else MergeFields base fields in
        output (WriteStructEnd Q base) ;;;
        input (ReadStructEnd P base) ;;;
        ret ended
  | FList is_set e =>
      ReadContainer (field_type_id e) (fun type size =>
        let copy :=
          if type =? field_type_id e then let! _ := Merge false e None in ret tt
          else CopyUnknown (untyped type) in
        match var with
        | Some (VList _ _ items) =>
            if is_basic_type e then Container Q type size copy
            else
              MergeElements e items size (fun x =>
                if type =? field_type_id e then let! _ := Merge false e (Some x) in ret tt
                else MergeVoid e x (untyped type))
        | _ => Container Q type size copy
        end) ;;;
      ret false
  | FMap kt vt =>
      ReadMap (get_type_id kt, field_type_id vt) (fun u type size =>
        let copy :=
          if snd type =? field_type_id vt then let! _ := Merge false vt None in ret tt
          else CopyUnknown (untyped (snd type)) in
        match var with
        | Some (VMap _ _ items) =>
            if is_basic_type vt then MapContainer Q type size (WriteBasic P Q u ;;; copy)
            else
              MapElements u kt vt items type size (fun x =>
                if snd type =? field_type_id vt then let! _ := Merge false vt (Some x) in ret tt
                else MergeVoid vt x (untyped (snd type))) copy
        | _ => MapContainer Q type size (WriteBasic P Q u ;;; copy)
        end) ;;;
      ret false
  end.
End Merge.
