(* ===== verification/MergeSpec.v ===== *)
(** What merging is to write, and commands that work for every writer.

    [merged] specifies the result of merging an object into a payload, field by field,
    the way the parser visits them.  [acts] describes a command that reads bytes and
    writes others with any writer that keeps the laws of its format: the passes of a
    double-pass writer run the same command on states of their own. *)

From S2P Require Import Prelude Streams DataType Metadata Protocol Serializer Schema.
From S2P Require Import Parser ParserCorrect RuntimeSchema Validate ValidateSound Transcode.
From S2P Require Import TranscodeCorrect BondedVoid Merge.

(** * Specification *)

(** A field of the schema with its variable in the object, and how a payload value is
    merged with it. *)
Record field_spec : Type := mkFS {
  fs_id : Z;
  fs_metadata : Metadata;
  fs_type : ftype;
  fs_var : option value;
  fs_merge : value -> option value
}.

Definition struct_like (t : ftype) : bool := has_schema t || is_struct_container t.

(** The value of the object, as it is. *)
Definition own_field (h : field_spec) : list (Z * Metadata * value) :=
  match fs_var h with Some x => [(fs_id h, fs_metadata h, x)] | None => [] end.

(** The field of the schema and the one of the payload with its id: a value of another
    type stays; structs and containers of structs are merged; otherwise the object's. *)
Definition same_field (h : field_spec) (f : Z * Metadata * value) :
    option (list (Z * Metadata * value)) :=
  if field_type_id (fs_type h) =? type_of (snd f) then
    if struct_like (fs_type h) || bool_decide (fs_var h = None)
    then (fun y => [(fst f, y)]) <$> fs_merge h (snd f)
    else Some (own_field h)
  else Some [f].

Definition append_to {A} (l : option (list A)) (l' : option (list A)) : option (list A) :=
  match l, l' with Some x, Some y => Some (x ++ y) | _, _ => None end.

(** The fields of one level, in order of their ids.  A field that is in the object only
    is written, unless a field of the payload that is not in the schema comes right
    before it. *)
Fixpoint merge_level (fs : list field_spec) :
    list (Z * Metadata * value) -> option (list (Z * Metadata * value)) :=
  match fs with
  | [] => fun p => Some p
  | h :: fs' =>
      fix go p :=
        match p with
        | [] => append_to (Some (own_field h)) (merge_level fs' [])
        | f :: p' =>
            if fs_id h <? fst (fst f) then append_to (Some (own_field h)) (merge_level fs' p)
            else if fst (fst f) =? fs_id h then append_to (same_field h f) (merge_level fs' p')
            else
              append_to (Some [f])
                (match p' with
                 | f' :: _ => if fst (fst f') <=? fs_id h then go p' else merge_level fs' p'
                 | [] => merge_level fs' []
                 end)
        end
  end.

(** The payload's levels that the schema does not have, around the merged ones. *)
Fixpoint graft (k : nat) (v w : value) : value :=
  match k, v with
  | S k', VStruct (Some b) fields => VStruct (Some (graft k' b w)) fields
  | _, _ => w
  end.

Definition present (F : wire_format) (fields : list (Z * Metadata * value)) :
    list (Z * Metadata * value) :=
  filter (fun f => omitted F f = false) fields.

(** [merged F t x v]: the value written when [x], if there is an object, is merged into
    the payload of [v] with the schema [t].  [None]: sizes or keys of containers differ,
    the payload has fewer levels, or elements that are structs or containers are of
    another type. *)
Fixpoint merged (F : wire_format) (t : ftype) (x : option value) (v : value) : option value :=
  match t, v with
  | FBasic b, VBasic _ => if type_of v =? get_type_id b then Some v else None
  | FStruct bt fs, VStruct _ _ =>
      let k := (value_levels v - type_levels t)%nat in
      match strip k v with
      | VStruct bv vfs =>
          match
            (match bt, bv with
             | None, None => Some None
             | Some bt', Some bv' => Some <$> merged F bt' (base_member x) bv'
             | _, _ => None
             end),
            merge_level
              (zip_with (fun f y => mkFS (fst (fst (fst f))) (snd (fst (fst f))) (snd (fst f)) y
                                      (snd f y))
                 ((fun f => (f, merged F (snd f))) <$> fs) (members x (length fs)))
              (present F vfs)
          with
          | Some b, Some l => Some (graft k v (VStruct b l))
          | _, _ => None
          end
      | _ => None
      end
  | FList _ e, VList pk pt ps =>
      let exact := pt =? field_type_id e in
      let copied :=
        if exact then VList pk pt <$> mapM_option (merged F e None) ps
        else if pt =? BT_STRUCT then None else Some v in
      if is_container_or_struct pt then
        match x with
        | Some (VList _ _ items) =>
            if is_basic_type e then copied
            else if exact && (length items =? length ps)%nat then
              VList pk pt <$> mapM_option (fun '(y, z) => merged F e (Some y) z) (zip items ps)
            else None
        | _ => copied
        end
      else Some v
  | FMap kt vt, VMap pk pv ps =>
      let exact := pv =? field_type_id vt in
      let copied :=
        if exact then
          VMap pk pv <$> mapM_option (fun kv => pair (fst kv) <$> merged F vt None (snd kv)) ps
        else if pv =? BT_STRUCT then None else Some v in
      if is_container_or_struct pv then
        match x with
        | Some (VMap _ _ items) =>
            if is_basic_type vt then copied
            else if accepts (FBasic kt) pk then
              if exact && (length items =? length ps)%nat then
                VMap (get_type_id kt) pv <$> mapM_option (fun kv =>
                  match fst kv with
                  | VBasic s =>
                      match find (fun e => is_key (set_as kt s) (fst e)) items with
                      | Some e => pair (VBasic (set_as kt s)) <$> merged F vt (Some (snd e)) (snd kv)
                      | None => None
                      end
                  | _ => None
                  end) ps
              else None
            else copied
        | _ => copied
        end
      else Some v
  | _, _ => None
  end.

(** * Promotion stays in range *)

Lemma widen_fits f : fits 32 f -> fits 64 (float_to_double f).
Proof.
  intros Hf. destruct (float_parts f Hf) as (_ & Hs & He & Hm). unfold fits.
  destruct (float_nan f) eqn:Hn.
  - unfold float_nan in Hn. apply andb_true_iff in Hn as [Hexp Hman].
    unfold float_to_double. rewrite Hexp. apply negb_true_iff in Hman. rewrite Hman. cbv zeta iota.
    assert (Hl : 0 <= Z.lor (float_man f * 2 ^ 29) (2 ^ 51) < 2 ^ 52); [|lia].
    split; [apply Z.lor_nonneg; lia|]. apply Z.log2_lt_pow2; [|rewrite Z.log2_lor by lia].
    + assert (Z.lor (float_man f * 2 ^ 29) (2 ^ 51) <> 0); [|pose proof (Z.lor_nonneg
        (float_man f * 2 ^ 29) (2 ^ 51)); lia]. intros Hz. apply Z.lor_eq_0_iff in Hz. lia.
    + apply Z.max_lub_lt; [|by vm_compute]. apply Z.log2_lt_pow2; lia.
  - destruct (widen_parts f Hf Hn) as (e & m & -> & He' & Hm' & _). lia.
Qed.

Lemma width_le_fits w w' z : width_le w w' = true -> fits (bits_of w) z -> fits (bits_of w') z.
Proof. destruct w, w'; intros Hw; try discriminate Hw; unfold fits; simpl; lia. Qed.
Lemma width_le_sfits w w' z : width_le w w' = true -> sfits (bits_of w) z -> sfits (bits_of w') z.
Proof. destruct w, w'; intros Hw; try discriminate Hw; unfold sfits; simpl; lia. Qed.

Lemma set_as_scalar_ok s x : scalar_ok s -> is_matching_basic (btype_of s) x = true ->
  scalar_ok (set_as x s).
Proof.
  destruct s as [b|w z|w z|z|z|l|l], x as [|w'|w'| | | |]; simpl; intros Hok Hm;
    try done; try (by apply bool_decide_eq_true in Hm);
    [by eapply width_le_fits|by eapply width_le_sfits|by apply widen_fits].
Qed.

(** * Commands that work for every writer *)

Section Acts.
Context {R : Type} `{Readable R} (G : wire_format) (plain : bool).

(** The passes of a double-pass writer have states of their own: a command is a family
    over the writers, and the lengths it asks for are the same for all. *)
Definition cmd (A : Type) : Type :=
  forall W, ProtocolWriter W -> (list byte -> M W unit) -> M (R * W) A.

Definition lawful {W} (T : trace_logic W) (Q : ProtocolWriter W)
    (blob : list byte -> M W unit) : Prop :=
  writer_laws T Q G /\ (forall bs, zlen bs < 2 ^ 32 -> does T [] (blob bs) bs).

(** [plain]: without any. *)
Definition acts {A} (m : cmd A) (bs out : list byte) (a : A) : Prop :=
  exists ls, (plain || negb (wf_counted G) = true -> ls = []) /\ 2 * zlen ls <= zlen out /\
  forall W (T : trace_logic W) Q blob, lawful T Q blob -> moves T (m W Q blob) bs ls out a.

Lemma acts_moves {A} (m : cmd A) bs ls out a :
  (plain || negb (wf_counted G) = true -> ls = []) -> 2 * zlen ls <= zlen out ->
  (forall W (T : trace_logic W) Q blob, lawful T Q blob -> moves T (m W Q blob) bs ls out a) ->
  acts m bs out a.
Proof. intros Hu Hl Hm. by exists ls. Qed.

Lemma acts_ext {A} (m m' : cmd A) bs out a : (forall W Q b, m' W Q b = m W Q b) ->
  acts m bs out a -> acts m' bs out a.
Proof.
  intros He (ls & Hu & Hl & Hm). exists ls. split_and!; [done..|].
  intros W T Q b Hq. rewrite He. by apply Hm.
Qed.

Lemma acts_ret {A} (a : A) : acts (fun W Q b => ret a) [] [] a.
Proof. exists []. split_and!; [done|simpl; lia|]. intros. apply moves_ret. Qed.

Lemma acts_bind {A B} (m : cmd A) (k : A -> cmd B) bs1 bs2 o1 o2 a b :
  acts m bs1 o1 a -> acts (k a) bs2 o2 b ->
  acts (fun W Q bl => bind (m W Q bl) (fun x => k x W Q bl)) (bs1 ++ bs2) (o1 ++ o2) b.
Proof.
  intros (l1 & U1 & L1 & M1) (l2 & U2 & L2 & M2). exists (l1 ++ l2). split_and!.
  - intros Hu. by rewrite U1, U2.
  - rewrite !length_app. lia.
  - intros W T Q blob Hl. eapply moves_bind; [by apply M1|by apply M2].
Qed.

Lemma acts_then {A B} (m : cmd A) (k : A -> cmd B) bs out a b :
  acts m bs out a -> acts (k a) [] [] b ->
  acts (fun W Q bl => bind (m W Q bl) (fun x => k x W Q bl)) bs out b.
Proof.
  intros Hm Hk. rewrite <-(app_nil_r bs), <-(app_nil_r out). by eapply acts_bind.
Qed.

Lemma acts_nil {A B} (m : cmd A) (k : A -> cmd B) bs out a b :
  acts m [] [] a -> acts (k a) bs out b ->
  acts (fun W Q bl => bind (m W Q bl) (fun x => k x W Q bl)) bs out b.
Proof. apply (acts_bind m k [] bs [] out). Qed.

Lemma acts_input {A} (m : M R A) bs a : reads m bs a -> acts (fun W Q b => input m) bs [] a.
Proof.
  intros Hm. exists []. split_and!; [done|simpl; lia|]. intros. by apply moves_input.
Qed.

Lemma acts_read {A B} (m : M R A) (k : A -> cmd B) bs1 bs2 out a b :
  reads m bs1 a -> acts (k a) bs2 out b ->
  acts (fun W Q bl => bind (input m) (fun x => k x W Q bl)) (bs1 ++ bs2) out b.
Proof. intros Hm Hk. apply (acts_bind _ k bs1 bs2 [] out a b); [by apply acts_input|done]. Qed.

Lemma acts_read_nil {A B} (m : M R A) (k : A -> cmd B) bs out a b :
  reads m [] a -> acts (k a) bs out b ->
  acts (fun W Q bl => bind (input m) (fun x => k x W Q bl)) bs out b.
Proof. apply (acts_read m k []). Qed.

(** Commands of the writer alone. *)
Definition writes (m : forall W, ProtocolWriter W -> (list byte -> M W unit) -> M W unit)
    (out : list byte) : Prop :=
  exists ls, (plain || negb (wf_counted G) = true -> ls = []) /\ 2 * zlen ls <= zlen out /\
  forall W (T : trace_logic W) Q blob, lawful T Q blob -> does T ls (m W Q blob) out.

Lemma writes_plain m out :
  (forall W (T : trace_logic W) Q blob, lawful T Q blob -> does T [] (m W Q blob) out) ->
  writes m out.
Proof. intros Hm. exists []. split_and!; [done|simpl; lia|done]. Qed.

Lemma acts_output m out : writes m out -> acts (fun W Q b => output (m W Q b)) [] out tt.
Proof.
  intros (ls & Hu & Hl & Hm). exists ls. split_and!; [done..|].
  intros. by apply moves_output, Hm.
Qed.

Lemma acts_write {B} m (k : cmd B) bs o1 o2 b : writes m o1 -> acts k bs o2 b ->
  acts (fun W Q bl => output (m W Q bl) ;;; k W Q bl) bs (o1 ++ o2) b.
Proof.
  intros Hm Hk. apply (acts_bind _ (fun _ => k) [] bs o1 o2 tt b); [by apply acts_output|done].
Qed.

(** Families indexed by the fuel: enough is enough, and the lengths do not depend on
    it. *)
Definition acts_from {A} (n : nat) (m : nat -> cmd A) (bs out : list byte) (a : A) : Prop :=
  exists ls, (plain || negb (wf_counted G) = true -> ls = []) /\ 2 * zlen ls <= zlen out /\
  forall fuel, (n <= fuel)%nat -> forall W (T : trace_logic W) Q blob, lawful T Q blob ->
  moves T (m fuel W Q blob) bs ls out a.

Lemma acts_always {A} n (m : cmd A) bs out a : acts m bs out a -> acts_from n (fun _ => m) bs out a.
Proof. intros (ls & Hu & Hl & Hm). exists ls. split_and!; [done..|]. intros. by apply Hm. Qed.

Lemma acts_step {A} n (m : nat -> cmd A) bs out a :
  acts_from n (fun fuel => m (S fuel)) bs out a -> acts_from (S n) m bs out a.
Proof.
  intros (ls & Hu & Hl & Hm). exists ls. split_and!; [done..|].
  intros [|fuel] Hf; [lia|]. apply Hm. lia.
Qed.

Lemma acts_same {A} n (m m' : nat -> cmd A) bs out a :
  (forall fuel W Q b, m' fuel W Q b = m fuel W Q b) ->
  acts_from n m bs out a -> acts_from n m' bs out a.
Proof.
  intros He (ls & Hu & Hl & Hm). exists ls. split_and!; [done..|].
  intros fuel Hf W T Q b Hq. rewrite He. by apply Hm.
Qed.

Lemma acts_weaken {A} n n' (m : nat -> cmd A) bs out a : (n <= n')%nat ->
  acts_from n m bs out a -> acts_from n' m bs out a.
Proof.
  intros Hn (ls & Hu & Hl & Hm). exists ls. split_and!; [done..|].
  intros fuel Hf. apply Hm. lia.
Qed.

Lemma acts_from_bind {A B} n (m : cmd A) (k : A -> nat -> cmd B) bs1 bs2 o1 o2 a b :
  acts m bs1 o1 a -> acts_from n (k a) bs2 o2 b ->
  acts_from n (fun fuel W Q bl => bind (m W Q bl) (fun x => k x fuel W Q bl))
    (bs1 ++ bs2) (o1 ++ o2) b.
Proof.
  intros (l1 & U1 & L1 & M1) (l2 & U2 & L2 & M2). exists (l1 ++ l2). split_and!.
  - intros Hu. by rewrite U1, U2.
  - rewrite !length_app. lia.
  - intros fuel Hf W T Q blob Hl. eapply moves_bind; [by apply M1|by apply M2].
Qed.

Lemma acts_fuel {A} extra (m : nat -> cmd A) bs out a :
  acts_from (2 + extra + length bs) m bs out a ->
  acts (fun W Q b => with_input extra (fun fuel => m fuel W Q b)) bs out a.
Proof.
  intros (ls & Hu & Hl & Hm). exists ls. split_and!; [done..|].
  intros W T Q blob Hq. apply moves_fuel. intros fuel Hf. by apply Hm.
Qed.

(** Loops. *)
Lemma acts_forM {X Y Z} (m : X -> cmd unit) (f : Y -> list byte) (g : Z -> list byte) xs ys zs :
  Forall3 (fun x y z => acts (m x) (f y) (g z) tt) xs ys zs ->
  acts (fun W Q b => forM xs (fun x => m x W Q b)) (concat (f <$> ys)) (concat (g <$> zs)) tt.
Proof.
  induction 1 as [|x y z xs ys zs Hx _ IH]; [apply acts_ret|].
  rewrite !fmap_cons. cbn [concat forM]. by apply (acts_bind (m x) _ _ _ _ _ tt).
Qed.

Lemma acts_repeat {Y Z} (m : cmd unit) (f : Y -> list byte) (g : Z -> list byte) ys zs :
  Forall2 (fun y z => acts m (f y) (g z) tt) ys zs ->
  acts (fun W Q b => repeatM (length ys) (m W Q b)) (concat (f <$> ys)) (concat (g <$> zs)) tt.
Proof.
  induction 1 as [|y z ys zs Hy _ IH]; [apply acts_ret|].
  rewrite !fmap_cons. cbn [concat length repeatM]. by apply (acts_bind m _ _ _ _ _ tt).
Qed.

(** What is written between the beginning and the end of a struct. *)
Lemma acts_level {X A} base (rend : M R unit) (m0 : cmd X) (m : X -> cmd A) bs body a :
  acts (fun W Q b => let! x := m0 W Q b in m x W Q b) bs body a -> reads rend [] tt ->
  (base = false -> fits 32 (zlen (body ++ wf_stop G false))) ->
  (forall b, (0 < length (wf_stop G b))%nat) ->
  (wf_counted G = true -> forall n, (0 < length (wf_prefix G n))%nat) ->
  plain = false ->
  acts (fun W Q b => output (WriteStructBegin Q base) ;;; let! x := m0 W Q b in
          let! y := m x W Q b in output (WriteStructEnd Q base) ;;; input rend ;;; ret y)
    bs ((if base then [] else wf_prefix G (zlen (body ++ wf_stop G base))) ++
        body ++ wf_stop G base) a.
Proof.
  intros (ls & Hu & Hl & Hm) Hr Hf Hs Hp Hpl.
  exists ((if base then [] else if wf_counted G then [zlen (body ++ wf_stop G false)] else []) ++ ls).
  pose proof (Hs base). split_and!.
  - intros E. rewrite (Hu E). rewrite Hpl in E. by destruct base, (wf_counted G).
  - rewrite !length_app. destruct base, (wf_counted G); simpl in *; [lia..| |lia].
    pose proof (Hp eq_refl (Z.of_nat (length body + length (wf_stop G false)))). lia.
  - intros W T Q blob Hq.
    eapply (moves_ext T (output (WriteStructBegin Q base) ;;; ret tt ;;;
      let! y := (let! x := m0 W Q blob in m x W Q blob) in
      output (WriteStructEnd Q base) ;;; input rend ;;; ret y)).
    { intros s. unfold bind at 1. symmetry. unfold bind at 1. symmetry.
      destruct (output _ s) as [[[]|e] s']; [|done]. rewrite bind_ret. apply bind_assoc. }
    eapply moves_level; [exact (Hm W T Q blob Hq)|done|].
    intros mw Hmw. destruct Hq as [Hq _]. destruct base; simpl.
    + by apply (wl_base _ _ _ Hq).
    + by apply (wl_struct _ _ _ Hq); [|apply Hf].
Qed.
End Acts.

(** A struct that needs its length begins with it. *)
Record counted_format (F : wire_format) : Prop := mkCF {
  cf_lens v base : 2 * zlen (lens F base v) <= zlen (encode F base v);
  cf_prefix : wf_counted F = true -> forall n, (0 < length (wf_prefix F n))%nat
}.

Lemma uncounted_format F : wf_counted F = false -> counted_format F.
Proof.
  intros Hc. split; [|by rewrite Hc]. intros v base. rewrite uncounted_lens by done. simpl. lia.
Qed.
