(* ===== verification/MergeCorrect.v ===== *)
(** What merging writes: the payload of the merged object.

    For every type, [Merge] reads a payload and writes the encoding of what [merged]
    says, with any reader and any writer that keep their laws. *)

From S2P Require Import Prelude Streams DataType Metadata Protocol Serializer Schema.
From S2P Require Import Parser ParserCorrect RuntimeSchema Validate ValidateSound Transcode.
From S2P Require Import TranscodeCorrect BondedVoid Merge MergeSpec.

(** * Merging *)

Lemma fields_bytes_app G l l' : fields_bytes G (l ++ l') = fields_bytes G l ++ fields_bytes G l'.
Proof. unfold fields_bytes. by rewrite fmap_app, concat_app. Qed.

Lemma field_bytes_one G f : fields_bytes G [f] = field_bytes G f.
Proof. unfold fields_bytes. simpl. apply app_nil_r. Qed.

Section Merging.
Context {R : Type} `{Readable R} (P : ProtocolReader R) (F G : wire_format).
Context (readers : reader_laws P F) (tagged_F : tagged_format F) (tagged_G : tagged_format G).
Context (counted_G : counted_format G).
Context (same : bool) (same_format : same = true -> F = G).
Abbreviation enc := (encode F false).
Abbreviation dec := (encode G false).

Definition payload_ok (v : value) : Prop := value_ok v /\ types_ok v /\ ordered v.

(** [v] is read, and [w] is written. *)
Definition becomes (plain : bool) (m : cmd unit) (v w : value) : Prop :=
  acts G plain m (enc v) (dec w) tt.

Lemma omits_same f : omitted F f = omitted G f.
Proof. unfold omitted. by rewrite (tf_omits F tagged_F), (tf_omits G tagged_G). Qed.

(** ** Values that are written as they are *)

Lemma Field_writes id m x : fits 16 id -> value_ok x -> zlen (field_bytes G (id, m, x)) < 2 ^ 32 ->
  writes G false (fun W Q b => Serializer.Field Q id m x (Serializer.Apply Q false x))
    (field_bytes G (id, m, x)).
Proof.
  intros Hid Hx Hl. exists (if omitted G (id, m, x) then [] else lens G false x).
  split_and!.
  - intros Hc. apply negb_true_iff in Hc. rewrite uncounted_lens by done. by destruct (omitted G _).
  - unfold field_bytes. cbn [fst snd]. pose proof (cf_lens G counted_G x false).
    destruct (omitted G (id, m, x)); rewrite ?length_app; simpl in *; lia.
  - intros W T Q blob [Hq _].
    by apply (field_written Q T G Hq (id, m, x)), Hl; [..|apply Apply_written].
Qed.

Section Plain.
Context (plain : bool).
Abbreviation acts := (acts G plain).
Abbreviation becomes := (becomes plain).

Lemma WriteBasic_becomes s : scalar_ok s ->
  becomes (fun W Q b => WriteBasic P Q (btype_of s)) (VBasic s) (VBasic s).
Proof.
  intros Hs. apply (acts_moves _ _ _ _ []); [done|simpl; lia|].
  intros W T Q blob [Hq _]. by apply (WriteBasic_copies T P F Q G readers Hq).
Qed.

Lemma basic_becomes t b v : basic_type_of_id t = Some b -> type_of v = t -> value_ok v ->
  becomes (fun W Q _ => WriteBasic P Q b) v v.
Proof.
  intros Hb <- Hv. destruct (basic_of_type _ _ Hb) as (s & -> & <-). by apply WriteBasic_becomes.
Qed.

(** ** Containers *)

Lemma Container_acts t (m : cmd unit) ps zs : fits 5 t -> zlen ps < 2 ^ 32 ->
  Forall2 (becomes m) ps zs ->
  acts (fun W Q b => Container Q t (zlen ps) (m W Q b)) (concat (enc <$> ps))
    (wf_list G (zlen zs) t ++ concat (dec <$> zs)) tt.
Proof.
  intros Ht Hn Hm. rewrite <-(list.Forall2_length _ _ _ Hm). unfold Container.
  apply acts_write.
  { apply writes_plain. intros W T Q blob [Hq _].
    apply (wl_list _ _ _ Hq); [by apply zlen_fits|done]. }
  apply (acts_then G _ _ (fun _ W Q b => output (WriteContainerEnd Q)) _ _ tt).
  - rewrite Nat2Z.id. by apply acts_repeat.
  - apply acts_output, writes_plain. intros W T Q blob [Hq _]. apply (wl_container_end _ _ _ Hq).
Qed.

Lemma ReadContainer_acts e (nested : BondDataType -> Z -> cmd unit) pk pt ps out :
  value_ok (VList pk pt ps) -> types_ok (VList pk pt ps) ->
  (if is_container_or_struct pt then acts (nested pt (zlen ps)) (concat (enc <$> ps)) out tt
   else out = dec (VList pk pt ps)) ->
  acts (fun W Q b => ReadContainer P Q e (fun t n => nested t n W Q b)) (enc (VList pk pt ps)) out tt.
Proof.
  intros (Ht & Hn & Hv) [Hk _] Hm. apply all_Forall in Hv. unfold ReadContainer. cbn [encode].
  apply (acts_read G _ _ (fun h W Q b => (if is_container_or_struct (snd h)
    then nested (snd h) (fst h) W Q b else match basic_type_of_id (snd h) with
    | Some t => Container Q (snd h) (fst h) (WriteBasic P Q t) | None => ret tt end) ;;;
    input (ReadContainerEnd P)) _ _ _ (zlen ps, pt)).
  { apply (rl_list _ _ readers); [by apply zlen_fits|done]. }
  cbn [fst snd]. apply (acts_then G _ _ (fun _ W Q b => input (ReadContainerEnd P)) _ _ tt).
  2: { apply acts_input, (rl_container_end _ _ readers). }
  destruct (is_container_or_struct pt) eqn:E; [exact Hm|]. subst out.
  destruct (known_basic pt Hk E) as [b Hb]. rewrite Hb. apply Container_acts; [done..|].
  apply Forall2_same_length_lookup. split; [done|]. intros i y z Hy Hz. simplify_eq.
  rewrite Forall_forall in Hv. destruct (Hv y) as [Hty Hok].
  { by apply list_elem_of_In, list_elem_of_lookup_2 with i. }
  by eapply basic_becomes.
Qed.

Definition pair_becomes (k m : cmd unit) (y z : value * value) : Prop :=
  becomes k (fst y) (fst z) /\ becomes m (snd y) (snd z).
Abbreviation enc_pair := (fun kv : value * value => enc (fst kv) ++ enc (snd kv)).
Abbreviation dec_pair := (fun kv : value * value => dec (fst kv) ++ dec (snd kv)).

(** The header of a map, its pairs, its end. *)
Lemma pairs_act kt vt (m : cmd unit) ps zs : fits 5 kt -> fits 5 vt -> zlen ps < 2 ^ 32 ->
  Forall2 (fun y z => acts m (enc_pair y) (dec_pair z) tt) ps zs ->
  acts (fun W Q b => MapContainer Q (kt, vt) (zlen ps) (m W Q b)) (concat (enc_pair <$> ps))
    (wf_map G (zlen zs) (kt, vt) ++ concat (dec_pair <$> zs)) tt.
Proof.
  intros Hkt Hvt Hn Hm. rewrite <-(list.Forall2_length _ _ _ Hm). unfold MapContainer.
  apply acts_write.
  { apply writes_plain. intros W T Q blob [Hq _].
    apply (wl_map _ _ _ Hq); [by apply zlen_fits|done..]. }
  apply (acts_then G _ _ (fun _ W Q b => output (WriteContainerEnd Q)) _ _ tt).
  - rewrite Nat2Z.id. by apply acts_repeat.
  - apply acts_output, writes_plain. intros W T Q blob [Hq _]. apply (wl_container_end _ _ _ Hq).
Qed.

Lemma MapContainer_acts kt vt (k m : cmd unit) ps zs : fits 5 kt -> fits 5 vt ->
  zlen ps < 2 ^ 32 -> Forall2 (pair_becomes k m) ps zs ->
  acts (fun W Q b => MapContainer Q (kt, vt) (zlen ps) (k W Q b ;;; m W Q b))
    (concat (enc_pair <$> ps)) (wf_map G (zlen zs) (kt, vt) ++ concat (dec_pair <$> zs)) tt.
Proof.
  intros Hkt Hvt Hn Hm. apply pairs_act; [done..|]. eapply Forall2_impl; [|exact Hm].
  intros y z [Hk Hv]. by apply (acts_bind G _ k _ _ _ _ _ tt).
Qed.

(** What is known of the pairs of a payload. *)
Definition pair_ok (kt vt : BondDataType) (kv : value * value) : Prop :=
  (type_of (fst kv) = kt /\ value_ok (fst kv)) /\ type_of (snd kv) = vt /\ value_ok (snd kv).

Lemma Forall2_diag {A} (Q : A -> A -> Prop) l : Forall (fun x => Q x x) l -> Forall2 Q l l.
Proof. induction 1; by constructor. Qed.

Lemma ReadMap_acts e (nested : btype -> BondDataType * BondDataType -> Z -> cmd unit) pk pv ps out :
  fits 5 pk -> fits 5 pv -> zlen ps < 2 ^ 32 -> known_type pv -> Forall (pair_ok pk pv) ps ->
  (exists u, basic_type_of_id pk = Some u /\
   if is_container_or_struct pv
   then acts (nested u (pk, pv) (zlen ps)) (concat (enc_pair <$> ps)) out tt
   else out = dec (VMap pk pv ps)) ->
  acts (fun W Q b => ReadMap P Q e (fun u t n => nested u t n W Q b)) (enc (VMap pk pv ps)) out tt.
Proof.
  intros Hk5 Hv5 Hn Hk Hv (u & Hu & Hm). unfold ReadMap. cbn [encode].
  apply (acts_read G _ _ (fun h W Q b => (if is_container_or_struct (snd (snd h)) then
      match basic_type_of_id (fst (snd h)) with
      | Some u => nested u (snd h) (fst h) W Q b | None => ret tt end
    else match basic_type_of_id (snd (snd h)) with
      | Some t => MapByKey P Q (snd h) (fst h) (WriteBasic P Q t) | None => ret tt end) ;;;
    input (ReadContainerEnd P)) _ _ _ (zlen ps, (pk, pv))).
  { apply (rl_map _ _ readers); [by apply zlen_fits|done..]. }
  cbn [fst snd]. apply (acts_then G _ _ (fun _ W Q b => input (ReadContainerEnd P)) _ _ tt).
  2: { apply acts_input, (rl_container_end _ _ readers). }
  rewrite Hu. destruct (is_container_or_struct pv) eqn:E; [exact Hm|]. subst out.
  destruct (known_basic pv Hk E) as [b Hb]. rewrite Hb. unfold MapByKey. cbn [fst]. rewrite Hu.
  apply MapContainer_acts; [done..|].
  apply Forall2_diag. eapply Forall_impl; [|exact Hv].
  intros kv [[Hkt Hkv] [Hvt Hvv]]. split; by eapply basic_becomes.
Qed.

Lemma const_mapped_at_acts items k e : find (fun kv => is_key k (fst kv)) items = Some e ->
  acts (fun W Q b => const_mapped_at items k) [] [] (snd e).
Proof. intros He. unfold const_mapped_at. rewrite He. apply acts_ret. Qed.

(** A pair of the payload merged with the element of the object that has its key. *)
Lemma merge_pair u kt items (merge : value -> cmd unit) s e v w :
  scalar_ok s -> btype_of s = u -> is_matching_basic u kt = true ->
  find (fun kv => is_key (set_as kt s) (fst kv)) items = Some e -> becomes (merge (snd e)) v w ->
  acts (fun W Q b => let! k := input (read_basic P u kt) in output (Write Q k) ;;;
          let! x := const_mapped_at items k in merge x W Q b)
    (enc (VBasic s) ++ enc v) (dec (VBasic (set_as kt s)) ++ dec w) tt.
Proof.
  intros Hs <- Hm He Hw.
  apply (acts_read G _ _ (fun k W Q b => output (Write Q k) ;;;
    let! x := const_mapped_at items k in merge x W Q b) _ _ _ (set_as kt s)).
  { unfold read_basic. apply (reads_map _ (set_as kt)). by apply (rl_read _ _ readers). }
  apply acts_write.
  { apply writes_plain. intros W T Q blob [Hq _].
    by apply (wl_write _ _ _ Hq), set_as_scalar_ok. }
  apply (acts_nil G _ _ (fun x W Q b => merge x W Q b) _ _ (snd e)); [|done].
  by apply const_mapped_at_acts.
Qed.

End Plain.

(** ** What the schema does not describe *)

Definition copy_ok (v : value) : Prop :=
  payload_ok v /\ zlen (enc v) < 2 ^ 32 /\ zlen (dec v) < 2 ^ 32.

Lemma PassThrough_becomes v : F = G -> type_of v = BT_STRUCT -> value_ok v ->
  zlen (enc v) < 2 ^ 32 -> becomes true (fun W Q b => PassThrough P b) v v.
Proof.
  intros E Ht Hv Hl. apply (acts_moves _ _ _ _ []); [done|simpl; lia|].
  intros W T Q blob [_ Hb]. rewrite <-E. apply PassThrough_copies; [|by apply Hb].
  rewrite <-Ht. by apply (rl_skip _ _ readers).
Qed.

Lemma CopyPassing_becomes fuel v : F = G -> copyable F G fuel false v -> ordered v ->
  is_container_or_struct (type_of v) = true ->
  becomes true (fun W Q b => CopyPassing P Q b fuel (unknown_field_schema (type_of v))) v v.
Proof.
  intros E. revert v. induction fuel as [|fuel IH]; intros v Hc Ho Ht.
  { destruct Hc as (_ & _ & Hd & _). destruct v as [x| | |]; cbn [depth] in Hd; try lia.
    by destruct x as [|[]|[]| | | |]. }
  pose proof Hc as (Hv & Hty & _ & Hl & _).
  assert (Hel : forall x, copyable F G fuel false x -> ordered x -> is_container_or_struct (type_of x) = true ->
    becomes true (fun W Q b => CopyPassing P Q b fuel (payload_schema unknown_schema (type_of x))) x x).
  { intros x. rewrite payload_unknown. apply IH. }
  destruct v as [x|b fs|is_set et items|kt vt items]; [by destruct x as [|[]|[]| | | |]|..];
    cbn [CopyPassing type_of].
  - change (GetTypeId (unknown_field_schema BT_STRUCT) =? BT_STRUCT) with true. cbv iota.
    by apply PassThrough_becomes.
  - pose proof (copyable_list _ _ _ _ _ _ Hc) as Hi. apply all_Forall in Ho.
    set (t := if is_set then BT_SET else BT_LIST).
    replace (GetTypeId (unknown_field_schema t) =? BT_STRUCT) with false by by destruct is_set.
    replace (GetTypeId (unknown_field_schema t) =? BT_MAP) with false by by destruct is_set.
    rewrite free_element by by destruct is_set. cbv iota.
    apply (ReadContainer_acts true (GetTypeId unknown_schema) (fun type size W Q b =>
      Container Q type size (CopyPassing P Q b fuel (payload_schema unknown_schema type)))); [done..|].
    destruct (is_container_or_struct et) eqn:Ec; [|done]. cbn [encode].
    apply Container_acts; [apply Hv..|]. apply Forall2_diag. rewrite Forall_forall in *.
    intros x Hx. destruct (Hi x Hx) as [<- Hcx]. by apply Hel; [|apply Ho|].
  - pose proof (copyable_map _ _ _ _ _ _ Hc) as Hi.
    apply (all_Forall (fun kv => ordered (fst kv) /\ ordered (snd kv))) in Ho.
    destruct Hv as (Hk & Hvt & Hn & Hv). destruct Hty as ([u Hu] & Hkv & Hty).
    apply (all_Forall (fun kv => types_ok (snd kv))) in Hty.
    change (GetTypeId (unknown_field_schema BT_MAP) =? BT_STRUCT) with false.
    change (GetTypeId (unknown_field_schema BT_MAP) =? BT_MAP) with true.
    rewrite free_element by done. cbv iota.
    apply (ReadMap_acts true (GetTypeId (key_schema (unknown_field_schema BT_MAP)),
      GetTypeId unknown_schema) (fun u type size W Q b => MapContainer Q type size
        (WriteBasic P Q u ;;; CopyPassing P Q b fuel (payload_schema unknown_schema (snd type)))));
      [done..| |].
    + rewrite Forall_forall in *. intros kv Hkv'. by destruct (Hi kv Hkv') as (H1 & H2 & H3 & H4 & _).
    + exists u. split; [done|]. destruct (is_container_or_struct vt) eqn:Ec; [|done]. cbn [encode].
      apply MapContainer_acts; [done..|]. apply Forall2_diag. rewrite Forall_forall in *.
      intros kv Hkv'. destruct (Hi kv Hkv') as (H1 & H2 & <- & H4). split.
      * by eapply basic_becomes.
      * by apply Hel; [|apply Ho|].
Qed.

Lemma acts_plain {A} (m : cmd A) bs out a : acts G true m bs out a -> acts G false m bs out a.
Proof.
  intros (ls & Hu & Hl & Hm). apply (acts_moves _ _ _ _ ls); [|done..]. intros _. by apply Hu.
Qed.

Abbreviation acts := (acts G false).
Abbreviation acts_from := (acts_from G false).

Lemma payload_depth v : value_ok v -> (depth v <= 1 + length (enc v))%nat.
Proof.
  apply depth_encode; [apply (tf_stop F tagged_F)|apply (tf_list F tagged_F)|apply (tf_map F tagged_F)].
Qed.

Lemma CopyUnknown_becomes v : copy_ok v -> is_container_or_struct (type_of v) = true ->
  becomes false (fun W Q b => CopyUnknown P Q b same (unknown_field_schema (type_of v))) v v.
Proof.
  intros ((Hv & Ht & Ho) & HF & HG) Hc. unfold CopyUnknown. destruct same.
  - apply acts_plain. exists []. split_and!; [done|simpl; lia|].
    intros W T Q blob Hq. apply moves_fuel. intros fuel Hfuel. pose proof (payload_depth v Hv).
    destruct (CopyPassing_becomes fuel v (same_format eq_refl)) as (ls & Hu & _ & Hm); [|done..|].
    + split_and!; [done..|lia|done|done].
    + rewrite (Hu eq_refl) in Hm. by apply Hm.
  - apply (acts_moves _ _ _ _ (lens G false v)).
    + intros E. by apply uncounted_lens, negb_true_iff.
    + apply (cf_lens G counted_G).
    + intros W T Q blob [Hq _].
      exact (Apply_bonded_copies T P F Q G readers Hq tagged_F tagged_G v _ Hv Ht HF HG Hc
        (unknown_fits v Hv)).
Qed.

(** ** Fields *)

Definition field_ok (f : Z * value) : Prop := fits 16 (fst f) /\ copy_ok (snd f).

Lemma field_acts (m : cmd unit) t id v w : type_of v = t -> type_of w = t -> fits 16 id ->
  becomes false m v w ->
  acts (fun W Q b => output (WriteFieldBegin Q t id) ;;; m W Q b ;;; output (WriteFieldEnd Q))
    (enc v) (field_out G (id, w)) tt.
Proof.
  intros <- Hw Hid Hm. unfold field_out. cbn [fst snd]. rewrite Hw. apply acts_write.
  { apply writes_plain. intros W T Q blob [Hq _].
    apply (wl_field_begin _ _ _ Hq); [apply type_fits|done]. }
  apply (acts_then G _ _ (fun _ W Q b => output (WriteFieldEnd Q)) _ _ tt); [done|].
  apply acts_output, writes_plain. intros W T Q blob [Hq _]. apply (wl_field_end _ _ _ Hq).
Qed.

Lemma UnknownField_acts f : field_ok f ->
  acts (fun W Q b => UnknownField P Q (CopyUnknown P Q b same) (type_of (snd f)) (fst f))
    (enc (snd f)) (field_out G f) tt.
Proof.
  destruct f as [id v]. intros [Hid Hv]. cbn [fst snd] in *. unfold UnknownField.
  destruct (is_container_or_struct (type_of v)) eqn:E.
  - by apply field_acts, CopyUnknown_becomes.
  - destruct (not_container v E) as [s ->]. unfold BasicTypeField. cbn [type_of].
    rewrite type_id_roundtrip. apply field_acts; [done..|]. apply WriteBasic_becomes, Hv.
Qed.

Lemma ok_ids p : Forall field_ok p -> Forall (fun f => fits 16 (fst f)) p.
Proof. intros Hp. eapply Forall_impl; [|exact Hp]. by intros f [Hf _]. Qed.

Section Stop.
Context (base : bool) (sid : Z).
Context (stop_reads : reads (ReadFieldBegin P) (wf_stop F base) (stop_type base, sid)).

Lemma NextField_acts n p rest out {A} (k : BondDataType * Z -> nat -> cmd A) a :
  Forall (fun f => fits 16 (fst f)) p ->
  acts_from n (k (tag_of base sid p)) (tail_bytes F base p ++ rest) out a ->
  acts_from n (fun fuel W Q b => let! tag := NextField P in k tag fuel W Q b)
    (all_bytes F base p ++ rest) out a.
Proof.
  intros Hp Hk. rewrite all_bytes_split, <-app_assoc.
  apply (acts_from_bind G _ n (fun W Q b => NextField P) k _ _ [] out (tag_of base sid p)); [|done].
  apply acts_input. by apply (next_tag P F readers).
Qed.

(** [ReadUnknownFields] over the fields of one level. *)
Lemma unknown_acts p rest out n : Forall field_ok p ->
  acts_from n (fun fuel W Q b =>
    CopyUnknownFields P Q (CopyUnknown P Q b same) fuel (stop_type base, sid)) rest out tt ->
  acts_from (n + length p) (fun fuel W Q b =>
    CopyUnknownFields P Q (CopyUnknown P Q b same) fuel (tag_of base sid p))
    (tail_bytes F base p ++ rest) (fields_out G p ++ out) tt.
Proof.
  intros Hp Hrest. induction Hp as [|[id v] p Hf Hp IH]; [by rewrite Nat.add_0_r|].
  cbn [tag_of tail_bytes length]. rewrite Nat.add_succ_r. apply acts_step.
  cbn [CopyUnknownFields fst snd]. pose proof (type_of_range v).
  replace (type_of v =? BT_STOP) with false by (unfold BT_STOP; by zbool).
  replace (type_of v =? BT_STOP_BASE) with false by (unfold BT_STOP_BASE; by zbool).
  rewrite fields_out_cons, <-!app_assoc.
  apply (acts_from_bind G _ _ (fun W Q b => UnknownField P Q (CopyUnknown P Q b same) (type_of v) id)
    (fun _ fuel W Q b => let! tag' := NextField P in
      CopyUnknownFields P Q (CopyUnknown P Q b same) fuel tag') _ _ _ _ tt).
  - by apply (UnknownField_acts (id, v)).
  - apply (NextField_acts _ p rest _ (fun tag fuel W Q b =>
      CopyUnknownFields P Q (CopyUnknown P Q b same) fuel tag)); [by apply ok_ids|done].
Qed.
End Stop.

Lemma levels_acts outer sid : Forall (Forall field_ok) outer ->
  acts_from (S (length (levels_bytes F false outer))) (fun fuel W Q b =>
    CopyUnknownFields P Q (CopyUnknown P Q b same) fuel (stop_type (stops_base false outer), sid))
    (levels_bytes F false outer) (outer_out G outer) tt.
Proof.
  intros Ho. revert sid. induction Ho as [|p outer Hp Ho IH]; intros sid.
  - apply acts_step. apply (acts_always G false _ (fun W Q b => ret tt)), acts_ret.
  - cbn [levels_bytes stops_base orb stop_type].
    set (base := match outer with [] => false | _ => true end).
    rewrite length_app. pose proof (all_bytes_pos P F readers base p).
    apply acts_step. cbn [CopyUnknownFields fst snd].
    change (BT_STOP_BASE =? BT_STOP) with false. change (BT_STOP_BASE =? BT_STOP_BASE) with true.
    cbv iota. unfold outer_out. rewrite fmap_cons. cbn [concat]. rewrite <-app_assoc.
    destruct (rl_stop _ _ readers base) as [sid' Hs].
    apply (acts_from_bind G _ _ (fun W Q b => output (WriteStructEnd Q true))
      (fun _ fuel W Q b => let! tag' := NextField P in
        CopyUnknownFields P Q (CopyUnknown P Q b same) fuel tag') [] _ _ _ tt).
    { apply acts_output, writes_plain. intros W T Q blob [Hq _].
      apply (wl_unknown_end _ _ _ Hq). }
    apply (NextField_acts base sid' Hs _ p _ _ (fun tag fuel W Q b =>
      CopyUnknownFields P Q (CopyUnknown P Q b same) fuel tag)); [by apply ok_ids|].
    eapply acts_weaken; [|apply (unknown_acts base sid' Hs p (levels_bytes F false outer)
      (outer_out G outer) (S (length (levels_bytes F false outer))) Hp), IH]. lia.
Qed.

(** *** The loop *)

(** The default test looks at the kind and size only, which merging keeps. *)
Definition same_shape (v w : value) : Prop :=
  type_of w = type_of v /\ forall m, is_default w m = is_default v m.

(** A field of the schema with the command for its payload value. *)
Record bound_spec : Type := mkBS { bs_spec : field_spec; bs_cmd : cmd (R := R) unit }.
Definition bind_field W (Q : ProtocolWriter W) (b : list byte -> M W unit) (s : bound_spec) :
    merge_field :=
  mkMF (fs_id (bs_spec s)) (fs_metadata (bs_spec s)) (fs_type (bs_spec s)) (fs_var (bs_spec s))
    (bs_cmd s W Q b).

(** A payload value within range, before it is known what it becomes. *)
Definition read_ok (v : value) : Prop := payload_ok v /\ zlen (enc v) < 2 ^ 32.
Definition present_ok (f : Z * Metadata * value) : Prop :=
  omitted G f = false /\ fits 16 (fst (fst f)) /\ read_ok (snd f).

Definition bound_ok (s : bound_spec) : Prop :=
  fits 16 (fs_id (bs_spec s)) /\
  (forall x, fs_var (bs_spec s) = Some x -> value_ok x) /\
  (forall v w, read_ok v -> type_of v = field_type_id (fs_type (bs_spec s)) ->
   fs_merge (bs_spec s) v = Some w ->
   same_shape v w /\ (zlen (dec w) < 2 ^ 32 -> becomes false (bs_cmd s) v w)).

Definition pairs (p : list (Z * Metadata * value)) : list (Z * value) :=
  (fun f => (fst (fst f), snd f)) <$> p.

Lemma present_out f w : omitted G f = false -> is_default w (snd (fst f)) = is_default (snd f) (snd (fst f)) ->
  field_bytes G (fst f, w) = field_out G (fst (fst f), w).
Proof.
  unfold field_bytes, omitted. cbn [fst snd]. intros Ho ->. by rewrite Ho.
Qed.

Lemma copied_ok f : present_ok f -> zlen (field_bytes G f) < 2 ^ 32 ->
  field_ok (fst (fst f), snd f) /\ field_bytes G f = field_out G (fst (fst f), snd f).
Proof.
  intros (Ho & Hid & Hp & HF) Hl. destruct f as [[id m] v].
  pose proof (present_out (id, m, v) v Ho eq_refl) as Hout. cbn [fst snd] in *.
  rewrite Hout in *. unfold field_out in Hl. rewrite length_app in Hl. cbn [fst snd] in Hl.
  split; [|done]. split; [done|]. split_and!; [apply Hp..|done|cbn; lia].
Qed.

Lemma own_acts s : bound_ok s -> zlen (fields_bytes G (own_field (bs_spec s))) < 2 ^ 32 ->
  acts (fun W Q b => Merge_OmittedField Q (bind_field W Q b s)) []
    (fields_bytes G (own_field (bs_spec s))) tt.
Proof.
  intros (Hid & Hx & _) Hl. unfold Merge_OmittedField, own_field in *. cbn [mf_var bind_field] in *.
  destruct (fs_var (bs_spec s)) as [x|] eqn:E.
  - rewrite field_bytes_one in *. apply (acts_output G false (fun W Q b => Serializer.Field Q _ _ x _)).
    apply Field_writes; [done|by apply Hx|done].
  - apply (acts_output G false (fun W Q b => WriteFieldOmitted Q _ _ _)), writes_plain.
    intros W T Q blob [Hq _]. apply (wl_omitted _ _ _ Hq), (tf_omits G tagged_G).
Qed.


(** A field of the payload with the id of a field of the schema. *)
Lemma same_acts s f l : bound_ok s -> present_ok f -> fs_id (bs_spec s) = fst (fst f) ->
  same_field (bs_spec s) f = Some l -> zlen (fields_bytes G l) < 2 ^ 32 ->
  acts (fun W Q b => if field_type_id (fs_type (bs_spec s)) =? type_of (snd f)
    then Merge_Field P Q (bind_field W Q b s)
    else Merge_Mismatch P Q b same (bind_field W Q b s) (type_of (snd f)) (fst (fst f)))
    (enc (snd f)) (fields_bytes G l) tt.
Proof.
  intros (Hid & Hx & Hm) Hf Heq Hs Hl. unfold same_field in Hs.
  destruct (field_type_id _ =? type_of (snd f)) eqn:Et.
  - apply Z.eqb_eq in Et. unfold Merge_Field. cbn [mf_var mf_type mf_id mf_metadata mf_nested bind_field].
    pose proof Hf as (Ho & Hfid & Hr).
    assert (Hmerge : forall y, fs_merge (bs_spec s) (snd f) = Some y -> l = [(fst f, y)] ->
      acts (fun W Q b => output (WriteFieldBegin Q (field_type_id (fs_type (bs_spec s))) (fs_id (bs_spec s))) ;;;
        bs_cmd s W Q b ;;; output (WriteFieldEnd Q)) (enc (snd f)) (fields_bytes G l) tt).
    { intros y Hy ->. rewrite field_bytes_one in *.
      destruct (Hm _ _ Hr (eq_sym Et) Hy) as [[Hty Hd] Hb].
      rewrite (present_out f y Ho (Hd _)) in *. unfold field_out in Hl. cbn [fst snd] in Hl.
      rewrite length_app in Hl. rewrite Heq.
      apply field_acts; [done|congruence|done|apply Hb; lia]. }
    destruct (fs_var (bs_spec s)) as [x|] eqn:Ex.
    + destruct (struct_like (fs_type (bs_spec s))) eqn:El; unfold struct_like in El; rewrite El in *;
        cbn [orb] in Hs.
      * destruct (fs_merge _ _) as [y|] eqn:Ey; [|done]. injection Hs as <-. by apply (Hmerge y).
      * rewrite bool_decide_eq_false_2 in Hs by done. injection Hs as <-.
        unfold own_field in *. rewrite Ex in *. rewrite field_bytes_one in *.
        rewrite <-(app_nil_l (enc (snd f))), <-(app_nil_r (field_bytes G _)).
        apply (acts_bind G _ (fun W Q b => output (Serializer.Field Q _ _ x _))
          (fun _ W Q b => input (Skip_nothrow P _)) _ _ _ _ tt).
        -- apply (acts_output G false (fun W Q b => Serializer.Field Q _ _ x _)).
           apply Field_writes; [done|by apply Hx|done].
        -- rewrite Et. apply acts_input. apply (Skip_nothrow_reads P F readers); apply Hr.
    + rewrite bool_decide_eq_true_2, orb_true_r in Hs by done.
      destruct (fs_merge _ _) as [y|] eqn:Ey; [|done]. injection Hs as <-. by apply (Hmerge y).
  - injection Hs as <-. rewrite field_bytes_one in *.
    destruct (copied_ok f Hf Hl) as [Hok ->]. unfold Merge_Mismatch.
    cbn [mf_type mf_id bind_field].
    pose proof (UnknownField_acts _ Hok) as Hu. cbn [fst snd] in Hu.
    destruct (is_basic_type _ && (fst (fst f) =? fs_id (bs_spec s)) &&
              negb (is_container_or_struct (type_of (snd f)))) eqn:Eb; [|exact Hu].
    apply andb_true_iff in Eb as [_ Eb]. unfold UnknownField in Hu.
    apply negb_true_iff in Eb. rewrite Eb in Hu. by rewrite Heq.
Qed.

Lemma merge_level_cons h fs p : merge_level (h :: fs) p =
  match p with
  | [] => append_to (Some (own_field h)) (merge_level fs [])
  | f :: p' =>
      if fs_id h <? fst (fst f) then append_to (Some (own_field h)) (merge_level fs p)
      else if fst (fst f) =? fs_id h then append_to (same_field h f) (merge_level fs p')
      else append_to (Some [f])
             (match p' with
              | f' :: _ => if fst (fst f') <=? fs_id h then merge_level (h :: fs) p'
                           else merge_level fs p'
              | [] => merge_level fs []
              end)
  end.
Proof. by destruct p. Qed.

Lemma append_some {A} (l1 l2 : option (list A)) l : append_to l1 l2 = Some l ->
  exists x y, l1 = Some x /\ l2 = Some y /\ l = x ++ y.
Proof. destruct l1 as [x|], l2 as [y|]; intros [= <-]; naive_solver. Qed.

Section Loop.
Context (base : bool) (sid : Z).
Context (stop_reads : reads (ReadFieldBegin P) (wf_stop F base) (stop_type base, sid)).
Abbreviation tag := (fun p => tag_of base sid (pairs p)).

Definition visit (fuel : nat) (sfs : list bound_spec) (t : BondDataType * Z) : cmd (BondDataType * Z) :=
  fun W Q b => VisitFields P Q b same fuel (bind_field W Q b <$> sfs) t.

(** [visit] writes [l] for the fields [p]. *)
Definition visits (sfs : list bound_spec) (p l : list (Z * Metadata * value)) : Prop :=
  acts_from (S (length p + length sfs)) (fun fuel => visit fuel sfs (tag p))
    (tail_bytes F base (pairs p)) (fields_bytes G l) (stop_type base, sid).

Lemma tag_above p id :
  (id <? snd (tag p)) || is_stop (fst (tag p)) =
    match p with [] => true | f :: _ => id <? fst (fst f) end.
Proof.
  destruct p as [|[[i m] v] p]; simpl; [by rewrite is_stop_type, orb_true_r|].
  by rewrite is_stop_value, orb_false_r.
Qed.

Lemma present_ids p : Forall present_ok p -> Forall (fun f => fits 16 (fst f)) (pairs p).
Proof.
  intros Hp. apply Forall_fmap. eapply Forall_impl; [|exact Hp]. by intros f (_ & Hid & _).
Qed.

(** One turn that consumes a field: the next one is met by the same field of the schema
    or by the next. *)
Lemma visit_next n (m : cmd unit) s sfs v p o l : Forall present_ok p ->
  acts m (enc v) o tt ->
  (if match p with [] => true | f :: _ => fs_id (bs_spec s) <? fst (fst f) end
   then visits sfs p l else visits (s :: sfs) p l) ->
  (length p + S (length sfs) < n)%nat ->
  acts_from n (fun fuel W Q b => m W Q b ;;;
    let! tag' := NextField P in
    if (fs_id (bs_spec s) <? snd tag') || is_stop (fst tag')
    then visit fuel sfs tag' W Q b else visit fuel (s :: sfs) tag' W Q b)
    (enc v ++ all_bytes F base (pairs p)) (o ++ fields_bytes G l) (stop_type base, sid).
Proof.
  intros Hp Hm Hv Hn.
  apply (acts_from_bind G _ n m (fun _ fuel W Q b => let! tag' := NextField P in
    if (fs_id (bs_spec s) <? snd tag') || is_stop (fst tag')
    then visit fuel sfs tag' W Q b else visit fuel (s :: sfs) tag' W Q b) _ _ _ _ tt); [done|].
  rewrite <-(app_nil_r (all_bytes F base (pairs p))).
  apply (NextField_acts base sid stop_reads n (pairs p) [] _ (fun tag' fuel W Q b =>
    if (fs_id (bs_spec s) <? snd tag') || is_stop (fst tag')
    then visit fuel sfs tag' W Q b else visit fuel (s :: sfs) tag' W Q b)); [by apply present_ids|].
  rewrite tag_above, app_nil_r.
  destruct (match p with [] => true | _ => _ end); (eapply acts_weaken; [|exact Hv]); simpl; lia.
Qed.

Lemma visit_nil p : Forall present_ok p -> zlen (fields_bytes G p) < 2 ^ 32 -> visits [] p p.
Proof.
  intros Hp. unfold visits. induction Hp as [|f p Hf Hp IH]; intros Hl; apply acts_step.
  - unfold visit. cbn [fmap list_fmap VisitFields pairs tag_of]. rewrite is_stop_type.
    apply (acts_always G false _ (fun W Q b => ret (stop_type base, sid))), acts_ret.
  - change (f :: p) with ([f] ++ p) in Hl. rewrite fields_bytes_app, length_app, field_bytes_one in Hl.
    destruct (copied_ok f Hf ltac:(lia)) as [Hok Hout].
    destruct f as [[i m] v]. change (fields_bytes G ((i, m, v) :: p)) with
      (field_bytes G (i, m, v) ++ fields_bytes G p). rewrite Hout.
    unfold visit. cbn [VisitFields fmap list_fmap pairs tag_of tail_bytes fst snd]. rewrite is_stop_value.
    apply (acts_from_bind G _ _ (fun W Q b => UnknownField P Q (CopyUnknown P Q b same) (type_of v) i)
      (fun _ fuel W Q b => let! tag' := NextField P in visit fuel [] tag' W Q b) _ _ _ _ tt).
    { by apply (UnknownField_acts (i, v)). }
    rewrite <-(app_nil_r (all_bytes F base _)).
    apply (NextField_acts base sid stop_reads _ (pairs p) [] _ (fun tag' fuel W Q b =>
      visit fuel [] tag' W Q b)); [by apply present_ids|]. rewrite app_nil_r.
    eapply acts_weaken; [|apply IH; lia]. simpl. lia.
Qed.

(** A field of the schema that is not in the payload. *)
Lemma visit_own s sfs p l : bound_ok s ->
  (match p with [] => True | f :: _ => fs_id (bs_spec s) < fst (fst f) end) ->
  zlen (fields_bytes G (own_field (bs_spec s))) < 2 ^ 32 -> visits sfs p l ->
  visits (s :: sfs) p (own_field (bs_spec s) ++ l).
Proof.
  intros Hs Hp Hl Hv. unfold visits. cbn [length]. rewrite Nat.add_succ_r. apply acts_step.
  rewrite fields_bytes_app, <-(app_nil_l (tail_bytes _ _ _)).
  assert (Hthird : forall fuel W Q b,
    VisitFields P Q b same (S fuel) (bind_field W Q b <$> s :: sfs) (tag p) =
    (Merge_OmittedField Q (bind_field W Q b s) ;;; visit fuel sfs (tag p) W Q b)).
  { intros fuel W Q b. rewrite fmap_cons. cbn [VisitFields].
    destruct p as [|[[i m] v] p]; cbn [pairs fmap list_fmap tag_of fst snd].
    - cbn [mf_id mf_type bind_field].
      replace (field_type_id (fs_type (bs_spec s)) =? stop_type base) with false.
      2:{ pose proof (field_type_id_range (fs_type (bs_spec s))). destruct base; simpl;
          unfold BT_STOP, BT_STOP_BASE; by zbool. }
      by rewrite is_stop_type, !andb_false_r.
    - cbn [mf_id bind_field]. cbn [fst] in Hp.
      assert (E1 : (fs_id (bs_spec s) =? i) = false) by (apply Z.eqb_neq; lia).
      assert (E2 : (i <=? fs_id (bs_spec s)) = false) by (apply Z.leb_gt; lia).
      by rewrite E1, E2. }
  eapply acts_same; [exact Hthird|].
  apply (acts_from_bind G _ _ (fun W Q b => Merge_OmittedField Q (bind_field W Q b s))
    (fun _ fuel W Q b => visit fuel sfs (tag p) W Q b) [] _ _ _ tt); [by apply own_acts|done].
Qed.

(** A field that comes before the one of the schema, or has its id. *)
Lemma visit_here s sfs f p o l : bound_ok s -> present_ok f -> Forall present_ok p ->
  fst (fst f) <= fs_id (bs_spec s) ->
  (if fst (fst f) =? fs_id (bs_spec s) then same_field (bs_spec s) f = Some o else o = [f]) ->
  zlen (fields_bytes G o) < 2 ^ 32 ->
  (if match p with [] => true | f' :: _ => fs_id (bs_spec s) <? fst (fst f') end
   then visits sfs p l else visits (s :: sfs) p l) ->
  visits (s :: sfs) (f :: p) (o ++ l).
Proof.
  intros Hs Hf Hp Hid Ho Hl Hv. unfold visits. cbn [length Nat.add]. apply acts_step.
  rewrite fields_bytes_app. destruct f as [[i m] v]. cbn [fst snd pairs fmap list_fmap tail_bytes] in *.
  set (step := fun W (Q : ProtocolWriter W) b =>
    if (fs_id (bs_spec s) =? i) && (field_type_id (fs_type (bs_spec s)) =? type_of v)
    then Merge_Field P Q (bind_field W Q b s)
    else Merge_Mismatch P Q b same (bind_field W Q b s) (type_of v) i).
  assert (Hstep : forall fuel W Q b,
    visit (S fuel) (s :: sfs) (type_of v, i) W Q b = (step W Q b ;;;
    let! tag' := NextField P in
    if (fs_id (bs_spec s) <? snd tag') || is_stop (fst tag')
    then visit fuel sfs tag' W Q b else visit fuel (s :: sfs) tag' W Q b)).
  { intros fuel W Q b. unfold visit, step. rewrite fmap_cons. cbn [VisitFields mf_id mf_type bind_field].
    destruct ((fs_id (bs_spec s) =? i) && _); [done|].
    assert (E : (i <=? fs_id (bs_spec s)) = true) by (by apply Z.leb_le).
    by rewrite E, is_stop_value. }
  eapply acts_same; [exact Hstep|]. apply visit_next; [done| |exact Hv|simpl; lia].
  unfold step. destruct (i =? fs_id (bs_spec s)) eqn:E.
  - apply Z.eqb_eq in E. rewrite <-E, Z.eqb_refl. cbn [andb].
    by apply (same_acts s (i, m, v)).
  - subst o. rewrite Z.eqb_sym, E. cbn [andb]. unfold Merge_Mismatch.
    cbn [mf_id mf_type bind_field]. rewrite E, andb_false_r. cbn [andb].
    rewrite field_bytes_one in *. destruct (copied_ok (i, m, v) Hf Hl) as [Hok ->].
    exact (UnknownField_acts _ Hok).
Qed.

Lemma increasing_tail lo i ids : increasing lo (i :: ids) -> increasing i ids.
Proof. by intros [_ Hi]. Qed.

(** The loop merges the fields of a level. *)
Lemma visit_merges sfs : Forall bound_ok sfs -> forall p lo l, Forall present_ok p ->
  increasing lo ((fun f => fst (fst f)) <$> p) -> merge_level (bs_spec <$> sfs) p = Some l ->
  zlen (fields_bytes G l) < 2 ^ 32 -> visits sfs p l.
Proof.
  induction 1 as [|s sfs Hs Hsfs IH]; intros p lo l Hp Hi Hm Hl.
  { injection Hm as <-. by apply visit_nil. }
  rewrite fmap_cons in Hm. revert lo l Hi Hm Hl.
  induction Hp as [|f p Hf Hp IHp]; intros lo l Hi Hm Hl; rewrite merge_level_cons in Hm.
  - apply append_some in Hm as (x & y & [= <-] & Hy & ->).
    rewrite fields_bytes_app, length_app in Hl.
    apply visit_own; [done..|lia|]. apply (IH [] 0); [constructor|done..|lia].
  - destruct (fs_id (bs_spec s) <? fst (fst f)) eqn:E1.
    { apply append_some in Hm as (x & y & [= <-] & Hy & ->).
      rewrite fields_bytes_app, length_app in Hl. apply Z.ltb_lt in E1.
      apply visit_own; [done..|lia|]. apply (IH (f :: p) lo); [by constructor|done..|lia]. }
    apply Z.ltb_ge in E1. rewrite fmap_cons in Hi. pose proof (increasing_tail _ _ _ Hi) as Hi'.
    destruct (fst (fst f) =? fs_id (bs_spec s)) eqn:E2;
      apply append_some in Hm as (x & y & Hx & Hy & ->); rewrite fields_bytes_app, length_app in Hl.
    + apply visit_here; [done..|by rewrite E2|lia|]. apply Z.eqb_eq in E2.
      replace (match p with [] => true | _ => _ end) with true.
      * apply (IH p (fst (fst f))); [done..|lia].
      * destruct p as [|f' p]; [done|]. rewrite fmap_cons in Hi'. destruct Hi' as [Hi' _].
        symmetry. apply Z.ltb_lt. lia.
    + injection Hx as <-. apply visit_here; [done..|by rewrite E2|lia|].
      destruct p as [|f' p]; [apply (IH [] 0); [constructor|done..|lia]|].
      rewrite (Z.ltb_antisym (fst (fst f'))).
      destruct (fst (fst f') <=? fs_id (bs_spec s)) eqn:E3; cbn [negb].
      * apply (IHp (fst (fst f))); [done..|lia].
      * apply (IH (f' :: p) (fst (fst f))); [done..|lia].
Qed.
End Loop.

(** ** One level of a payload *)

Definition level_ok (b : option value) (fs : list (Z * Metadata * value)) : Prop :=
  (forall bv, b = Some bv ->
   type_of bv = BT_STRUCT /\ payload_ok bv /\ zlen (encode F true bv) < 2 ^ 32) /\
  Forall present_ok (present F fs) /\ increasing (-1) ((fun f => fst (fst f)) <$> present F fs).

Definition readable_field (f : Z * value) : Prop := fits 16 (fst f) /\ read_ok (snd f).

Lemma present_alike fs : present F fs = present G fs.
Proof. apply list_filter_iff. intros f. by rewrite omits_same. Qed.

Lemma present_pairs E fs : pairs (present E fs) = present_fields E fs.
Proof. done. Qed.

Lemma present_readable p : Forall present_ok p -> Forall readable_field (pairs p).
Proof.
  intros Hp. apply Forall_fmap. eapply Forall_impl; [|exact Hp]. by intros f (_ & Hid & Hr).
Qed.

Lemma present_sorted lo fs : increasing lo ((fun f => fst (fst f)) <$> fs) ->
  increasing lo ((fun f => fst (fst f)) <$> present F fs).
Proof.
  unfold present. revert lo. induction fs as [|f fs IH]; intros lo Hi; [done|].
  rewrite fmap_cons in Hi. destruct Hi as [Hid Hi]. rewrite filter_cons. destruct (decide _).
  - rewrite fmap_cons. split; [done|]. by apply IH.
  - apply IH. eapply increasing_weaken; [|exact Hi]. lia.
Qed.

Lemma struct_level_ok base b fs : payload_ok (VStruct b fs) ->
  zlen (encode F base (VStruct b fs)) < 2 ^ 32 -> level_ok b fs.
Proof.
  intros ((Hb & Hv) & (Htb & Ht) & (Hob & Hinc & Ho)) Hl. apply all_Forall in Hv, Ht, Ho.
  apply sub_fits in Hl. unfold body_of in Hl. rewrite !length_app in Hl. split_and!.
  - intros bv ->. destruct Hb as [Hty Hb]. split; [done|]. split; [by split_and!|lia].
  - rewrite Forall_forall in *. intros f Hf. apply list_elem_of_In, list_elem_of_filter in Hf as [Hf Hin].
    pose proof (fields_fit (field_bytes F) fs (2 ^ 32) f) as Hlen. unfold fields_bytes in Hl.
    specialize (Hlen ltac:(lia) Hin). unfold field_bytes in Hlen. rewrite Hf, length_app in Hlen.
    apply list_elem_of_In in Hin. destruct (Hv f Hin) as [Hid Hok].
    split_and!; [by rewrite <-omits_same|done|]. split; [|lia].
    split_and!; [done|by apply Ht|by apply Ho].
  - by apply present_sorted.
Qed.

Lemma strip_level_ok k : forall base v bv vfs, payload_ok v -> zlen (encode F base v) < 2 ^ 32 ->
  strip k v = VStruct bv vfs ->
  level_ok bv vfs /\ Forall (Forall readable_field) (outer_levels G k v).
Proof.
  induction k as [|k IH]; intros base v bv vfs Hv Hl Hs; cbn [strip] in Hs.
  { subst v. split; [by eapply struct_level_ok|constructor]. }
  destruct v as [s|[b|] fs| |]; try discriminate Hs.
  2:{ injection Hs as <- <-. split; [by eapply struct_level_ok|constructor]. }
  destruct (struct_level_ok _ _ _ Hv Hl) as (Hb & Hp & _).
  destruct (Hb b eq_refl) as (_ & Hbv & Hbl). destruct (IH true b bv vfs Hbv Hbl Hs) as [H1 H2].
  split; [done|]. cbn [outer_levels]. apply Forall_app. split; [done|]. constructor; [|done].
  rewrite <-present_pairs, <-present_alike. by apply present_readable.
Qed.

Lemma copied_fields p : Forall readable_field p -> zlen (fields_out G p) < 2 ^ 32 ->
  Forall field_ok p.
Proof.
  induction 1 as [|f p [Hid [Hp HF]] _ IH]; intros Hl; [constructor|].
  rewrite fields_out_cons, length_app in Hl. unfold field_out in Hl. rewrite length_app in Hl.
  constructor; [|apply IH; lia]. split; [done|]. split_and!; [apply Hp..|done|lia].
Qed.

Lemma copied_levels outer : Forall (Forall readable_field) outer ->
  zlen (outer_out G outer) < 2 ^ 32 -> Forall (Forall field_ok) outer.
Proof.
  unfold outer_out. induction 1 as [|p outer Hp _ IH]; intros Hl; [constructor|].
  rewrite fmap_cons in Hl. cbn [concat] in Hl. rewrite !length_app in Hl.
  constructor; [apply copied_fields; [done|lia]|apply IH; lia].
Qed.

Lemma MergeFields_acts base outer sfs p l : Forall bound_ok sfs -> Forall present_ok p ->
  increasing (-1) ((fun f => fst (fst f)) <$> p) -> merge_level (bs_spec <$> sfs) p = Some l ->
  Forall (Forall readable_field) outer -> (base = true -> outer = []) ->
  zlen (fields_bytes G l ++ outer_out G outer) < 2 ^ 32 ->
  acts (fun W Q b => MergeFields P Q b same base (bind_field W Q b <$> sfs))
    (all_bytes F (stops_base base outer) (pairs p) ++ levels_bytes F false outer)
    (fields_bytes G l ++ outer_out G outer) false.
Proof.
  intros Hs Hp Hi Hm Ho Hb Hl. rewrite length_app in Hl. unfold MergeFields.
  set (pbase := stops_base base outer). destruct (rl_stop _ _ readers pbase) as [sid Hstop].
  rewrite all_bytes_split, <-app_assoc.
  apply (acts_read G _ _ (fun tag W Q b =>
    let! tag := with_input (length (bind_field W Q b <$> sfs)) (fun fuel =>
      VisitFields P Q b same fuel (bind_field W Q b <$> sfs) tag) in
    let! done := if negb base then with_input 0 (fun fuel =>
        CopyUnknownFields P Q (CopyUnknown P Q b same) fuel tag) ;;; ret false
      else ret (fst tag =? BT_STOP) in
    input (ReadFieldEnd P) ;;; ret done) _ _ _ (tag_of pbase sid (pairs p))).
  { apply (first_tag P F readers); [exact Hstop|by apply present_ids]. }
  apply (acts_bind G _ (fun W Q b => with_input (length (bind_field W Q b <$> sfs)) (fun fuel =>
      VisitFields P Q b same fuel (bind_field W Q b <$> sfs) (tag_of pbase sid (pairs p))))
    (fun tag W Q b => let! done := if negb base then with_input 0 (fun fuel =>
        CopyUnknownFields P Q (CopyUnknown P Q b same) fuel tag) ;;; ret false
      else ret (fst tag =? BT_STOP) in
    input (ReadFieldEnd P) ;;; ret done) _ _ _ _ (stop_type pbase, sid)).
  - pose proof (visit_merges pbase sid Hstop sfs Hs p (-1) l Hp Hi Hm ltac:(lia)) as Hv.
    pose proof (tail_bytes_length P F readers pbase (pairs p)) as Hlen.
    unfold pairs in Hlen at 1. rewrite length_fmap in Hlen.
    eapply (acts_weaken G false _ (2 + length sfs + length (tail_bytes F pbase (pairs p)))) in Hv; [|lia].
    apply acts_fuel in Hv. destruct Hv as (ls & Hu & Hls & Hmv). exists ls. split_and!; [done..|].
    intros W T Q b Hq. rewrite length_fmap. by apply Hmv.
  - apply (acts_then G _ _ (fun x W Q b => input (ReadFieldEnd P) ;;; ret x) _ _ false).
    2:{ apply (acts_read_nil G _ _ (fun _ W Q b => ret false) [] [] tt);
          [apply (rl_field_end _ _ readers)|apply acts_ret]. }
    destruct base; cbn [negb].
    + rewrite (Hb eq_refl). apply acts_ret.
    + apply (acts_then G _ _ (fun _ W Q b => ret false) _ _ tt); [|apply acts_ret].
      apply acts_fuel. eapply acts_weaken; [|apply levels_acts, copied_levels; [done|lia]]. lia.
Qed.
(** ** Levels around the merged ones *)

Lemma strip_graft k v w : (k < value_levels v)%nat -> strip k (graft k v w) = w.
Proof.
  revert v. induction k as [|k IH]; intros v Hk; [done|].
  destruct v as [|[b|] fs| |]; cbn [value_levels] in Hk; try lia. cbn [graft strip]. apply IH. lia.
Qed.

Lemma graft_levels k v w : (k < value_levels v)%nat -> (0 < value_levels w)%nat ->
  (k < value_levels (graft k v w))%nat.
Proof.
  intros Hk Hw. revert v Hk. induction k as [|k IH]; intros v Hk; [done|].
  destruct v as [|[b|] fs| |]; cbn [value_levels] in Hk; try lia.
  cbn [graft value_levels]. specialize (IH b ltac:(lia)). lia.
Qed.

Lemma outer_graft E k v w : (k < value_levels v)%nat ->
  outer_levels E k (graft k v w) = outer_levels E k v.
Proof.
  revert v. induction k as [|k IH]; intros v Hk; [done|].
  destruct v as [|[b|] fs| |]; cbn [value_levels] in Hk; try lia.
  cbn [graft outer_levels]. by rewrite IH by lia.
Qed.

Lemma graft_struct k v b fs : exists b' fs',
  graft k v (VStruct b fs) = VStruct b' fs' /\ (k = 0%nat -> b' = b /\ fs' = fs).
Proof.
  destruct k as [|k]; [by exists b, fs|]. destruct v as [|[bv|] vfs| |]; cbn [graft];
    (eexists _, _; split; [reflexivity|done]).
Qed.

(** The body of a struct whose inner levels were merged. *)
Lemma body_graft E base k v b fs b' fs' : (k < value_levels v)%nat -> (base = true -> k = 0%nat) ->
  graft k v (VStruct b fs) = VStruct b' fs' ->
  body_of E base b' fs' =
    (base_out E b ++ fields_bytes E fs ++ outer_out E (outer_levels E k v)) ++ wf_stop E base.
Proof.
  intros Hk Hb Hg.
  assert (Hl : (k < value_levels (VStruct b' fs'))%nat).
  { rewrite <-Hg. apply graft_levels; [done|]. destruct b; simpl; lia. }
  destruct (body_strip E base k b' fs' b fs Hl Hb) as [E1 _].
  { rewrite <-Hg. by apply strip_graft. }
  rewrite E1, fields_bytes_out, <-Hg. by rewrite outer_graft.
Qed.

(** ** The fields of the schema *)

Definition specs_of (fs : list (Z * Metadata * ftype)) (xs : list (option value)) :
    list field_spec :=
  zip_with (fun f y => mkFS (fst (fst f)) (snd (fst f)) (snd f) y (merged F (snd f) y)) fs xs.

Lemma merged_struct bt fs x b0 fs0 : merged F (FStruct bt fs) x (VStruct b0 fs0) =
  let k := (value_levels (VStruct b0 fs0) - type_levels (FStruct bt fs))%nat in
  match strip k (VStruct b0 fs0) with
  | VStruct bv vfs =>
      match
        (match bt, bv with
         | None, None => Some None
         | Some bt', Some bv' => Some <$> merged F bt' (base_member x) bv'
         | _, _ => None
         end),
        merge_level (specs_of fs (members x (length fs))) (present F vfs)
      with
      | Some b, Some l => Some (graft k (VStruct b0 fs0) (VStruct b l))
      | _, _ => None
      end
  | _ => None
  end.
Proof. cbn [merged]. by rewrite zip_with_fmap_l. Qed.

(** ** Without an object the payload stays as it is *)

(** [w] is written as [v] is. *)
Definition same_bytes (E : wire_format) (v w : value) : Prop :=
  same_shape v w /\ forall base, encode E base w = encode E base v.

Lemma same_bytes_refl E v : same_bytes E v v.
Proof. by split_and!. Qed.

Lemma same_field_bytes E f w : same_bytes E (snd f) w -> field_bytes E (fst f, w) = field_bytes E f.
Proof.
  intros [[Ht Hd] He]. unfold field_bytes, omitted. cbn [fst snd]. by rewrite Hd, Ht, He.
Qed.

Definition unmerged (E : wire_format) (h : field_spec) : Prop :=
  fs_var h = None /\ forall v w, fs_merge h v = Some w -> same_bytes E v w.

Lemma unmerged_field E h f l : unmerged E h -> same_field h f = Some l ->
  fields_bytes E l = field_bytes E f.
Proof.
  intros [Hv Hm] Hs. unfold same_field in Hs. rewrite Hv, bool_decide_eq_true_2, orb_true_r in Hs by done.
  destruct (_ =? _); [|injection Hs as <-; apply field_bytes_one].
  destruct (fs_merge h (snd f)) as [y|] eqn:Ey; [|done]. injection Hs as <-.
  rewrite field_bytes_one. apply same_field_bytes, (Hm _ _ Ey).
Qed.

Lemma unmerged_level E hs : Forall (unmerged E) hs -> forall p l,
  merge_level hs p = Some l -> fields_bytes E l = fields_bytes E p.
Proof.
  induction 1 as [|h hs Hh Hhs IH]; intros p l Hm; [by destruct p; injection Hm as <-|].
  assert (Hown : own_field h = []) by (unfold own_field; by rewrite (proj1 Hh)).
  revert l Hm. induction p as [|f p IHp]; intros l Hm; rewrite merge_level_cons in Hm.
  - apply append_some in Hm as (x & y & [= <-] & Hy & ->). rewrite Hown. by apply IH.
  - destruct (fs_id h <? fst (fst f)).
    { apply append_some in Hm as (x & y & [= <-] & Hy & ->). rewrite Hown. by apply IH. }
    destruct (fst (fst f) =? fs_id h); apply append_some in Hm as (x & y & Hx & Hy & ->);
      rewrite fields_bytes_app; change (fields_bytes E (f :: p)) with (field_bytes E f ++ fields_bytes E p).
    + by rewrite (unmerged_field E h f x Hh Hx), (IH _ _ Hy).
    + injection Hx as <-. rewrite field_bytes_one. f_equal.
      destruct p as [|f' p]; [by apply IH|]. destruct (_ <=? _); [by apply IHp|by apply IH].
Qed.

(** The parts of a struct, put back together. *)
Lemma body_inv E b fs b' fs' : encode E true (VStruct b fs) = encode E true (VStruct b' fs') ->
  forall base, encode E base (VStruct b fs) = encode E base (VStruct b' fs').
Proof.
  intros He base. assert (Hb : body_of E base b fs = body_of E base b' fs').
  { unfold body_of. rewrite !app_assoc. f_equal. rewrite !encode_struct in He. unfold body_of in He.
    rewrite !app_assoc in He. exact (app_inv_tail _ _ _ He). }
  by rewrite !encode_struct, Hb.
Qed.

Lemma graft_same E k v b fs bv vfs : strip k v = VStruct bv vfs ->
  encode E true (VStruct b fs) = encode E true (VStruct bv vfs) ->
  same_bytes E v (graft k v (VStruct b fs)).
Proof.
  revert v. induction k as [|k IH]; intros v Hs He; cbn [strip graft] in *.
  { subst v. split; [done|]. by apply body_inv. }
  destruct v as [s|[b0|] fs0| |]; try discriminate Hs.
  2:{ injection Hs as -> ->. split; [done|]. by apply body_inv. }
  destruct (IH b0 Hs He) as [_ Hb]. split; [done|]. apply body_inv.
  rewrite !encode_struct. unfold body_of. by rewrite Hb.
Qed.

Lemma mapM_option_Forall2 {A B} (f : A -> option B) l ys : mapM_option f l = Some ys ->
  Forall2 (fun x y => f x = Some y) l ys.
Proof.
  revert ys. induction l as [|x l IH]; intros ys Hm; cbn [mapM_option] in Hm; fold (mapM_option f) in Hm.
  { injection Hm as <-. constructor. }
  destruct (f x) as [y|] eqn:Ex; [|done]. destruct (mapM_option f l) as [ys'|]; [|done].
  injection Hm as <-. constructor; [done|by apply IH].
Qed.

Lemma concat_same {A} (g : A -> list byte) xs ys : Forall2 (fun x y => g y = g x) xs ys ->
  concat (g <$> ys) = concat (g <$> xs).
Proof. induction 1 as [|x y xs ys Hx _ IH]; [done|]. rewrite !fmap_cons. cbn [concat]. by rewrite Hx, IH. Qed.

Lemma default_length {A B} (xs : list A) (ys : list B) m : length xs = length ys ->
  is_default_container (container_size xs) m = is_default_container (container_size ys) m.
Proof. intros Hl. unfold container_size. by rewrite Hl. Qed.

Lemma list_same E k t xs ys : Forall2 (fun x y => same_bytes E x y) xs ys ->
  same_bytes E (VList k t xs) (VList k t ys).
Proof.
  intros Hl. pose proof (list.Forall2_length _ _ _ Hl) as Hlen. split; [split; [done|]|].
  - intros m. by apply default_length.
  - intros base. cbn [encode]. rewrite Hlen. f_equal. apply concat_same.
    eapply Forall2_impl; [|exact Hl]. intros x y [_ He]. apply He.
Qed.

Lemma map_same E kt vt xs ys :
  Forall2 (fun x y => fst y = fst x /\ same_bytes E (snd x) (snd y)) xs ys ->
  same_bytes E (VMap kt vt xs) (VMap kt vt ys).
Proof.
  intros Hl. pose proof (list.Forall2_length _ _ _ Hl) as Hlen. split; [split; [done|]|].
  - intros m. by apply default_length.
  - intros base. cbn [encode]. rewrite Hlen. f_equal.
    apply (concat_same (fun kv => encode E false (fst kv) ++ encode E false (snd kv))).
    eapply Forall2_impl; [|exact Hl]. intros x y [-> [_ He]]. by rewrite He.
Qed.

Lemma specs_none fs : specs_of fs (replicate (length fs) None) =
  (fun f => mkFS (fst (fst f)) (snd (fst f)) (snd f) None (merged F (snd f) None)) <$> fs.
Proof.
  unfold specs_of. induction fs as [|f fs IH]; [done|]. cbn [length replicate zip_with].
  by rewrite IH.
Qed.

Lemma copied_same E t : (forall f, omitted F f = omitted E f) ->
  forall v w, merged F t None v = Some w -> same_bytes E v w.
Proof.
  intros Ho. induction t as [b|bt fs Hb Hf|is_set e He|kt vt Hvt] using ftype_ind_nested; intros v w Hm.
  - destruct v as [s| | |]; try done. cbn [merged] in Hm.
    destruct (type_of _ =? _); [|done]. injection Hm as <-. apply same_bytes_refl.
  - destruct v as [|b0 fs0| |]; try done. rewrite merged_struct in Hm. cbv zeta in Hm.
    set (k := (_ - _)%nat) in *. destruct (strip k _) as [|bv vfs| |] eqn:Es; try done.
    cbn [base_member members] in Hm.
    destruct (match bt, bv with None, None => _ | _, _ => _ end) as [b|] eqn:Eb; [|done].
    destruct (merge_level _ _) as [l|] eqn:El; [|done]. injection Hm as <-.
    eapply graft_same; [exact Es|]. rewrite !encode_struct. unfold body_of. f_equal; [|f_equal].
    + destruct bt as [bt|], bv as [bv|]; try done; [|by injection Eb as <-].
      destruct (merged F bt None bv) as [b'|] eqn:Eb'; [|done]. injection Eb as <-.
      by apply (Hb bt eq_refl bv b' Eb').
    + assert (Hp : forall x, fields_bytes E (present F x) = fields_bytes E x).
      { intros x. unfold present, fields_bytes. induction x as [|f x IHx]; [done|].
        rewrite filter_cons, (fmap_cons _ f x). cbn [concat]. rewrite <-IHx. destruct (decide _) as [Hd|Hd];
          [done|]. unfold field_bytes at 2. rewrite <-Ho. by apply not_false_iff_true in Hd as ->. }
      rewrite <-(Hp vfs). rewrite specs_none in El. eapply unmerged_level; [|exact El].
      apply Forall_fmap. eapply Forall_impl; [|exact Hf]. intros f IHf. by split.
  - destruct v as [|?|pk pt ps|]; try done. cbn [merged] in Hm.
    destruct (is_container_or_struct pt); [|injection Hm as <-; apply same_bytes_refl].
    destruct (pt =? field_type_id e).
    + destruct (mapM_option _ ps) as [ys|] eqn:Ey; [|done]. injection Hm as <-.
      apply list_same. eapply Forall2_impl; [|by apply mapM_option_Forall2]. apply He.
    + destruct (pt =? BT_STRUCT); [done|]. injection Hm as <-. apply same_bytes_refl.
  - destruct v as [|?|?|pk pv ps]; try done. cbn [merged] in Hm.
    destruct (is_container_or_struct pv); [|injection Hm as <-; apply same_bytes_refl].
    destruct (pv =? field_type_id vt).
    + destruct (mapM_option _ ps) as [ys|] eqn:Ey; [|done]. injection Hm as <-.
      apply map_same. eapply Forall2_impl; [|by apply mapM_option_Forall2].
      intros [a b] [a' b']. cbn [fst snd]. destruct (merged F vt None b) as [y|] eqn:Eb; [|done].
      intros [= <- <-]. split; [done|by apply Hvt].
    + destruct (pv =? BT_STRUCT); [done|]. injection Hm as <-. apply same_bytes_refl.
Qed.

(** ** Merging *)

Definition object_ok (t : ftype) (x : option value) : Prop :=
  forall y, x = Some y -> value_ok y /\ shaped t y.

Lemma absent_ok t : object_ok t None.
Proof. by intros y. Qed.

(** [Merge] writes the merged object. *)
Definition merges (t : ftype) : Prop := forall base x v w,
  payload_ok v -> zlen (encode F base v) < 2 ^ 32 -> object_ok t x ->
  (base = true -> (value_levels v <= type_levels t)%nat) ->
  (base = true -> same = true -> x <> None) -> merged F t x v = Some w ->
  same_shape v w /\
  (zlen (encode G base w) < 2 ^ 32 ->
   acts (fun W Q b => Merge P Q b same base t x) (encode F base v) (encode G base w) false).

(** Parts of a payload. *)
Definition element_ok (t : BondDataType) (v : value) : Prop := type_of v = t /\ read_ok v.

Lemma list_elements k pt ps base : payload_ok (VList k pt ps) ->
  zlen (encode F base (VList k pt ps)) < 2 ^ 32 -> Forall (element_ok pt) ps.
Proof.
  intros ((_ & _ & Hv) & (_ & Ht) & Ho) Hl. apply all_Forall in Hv, Ht, Ho.
  cbn [encode] in Hl. rewrite length_app in Hl. rewrite Forall_forall in *. intros y Hy.
  destruct (Hv y Hy) as [Hty Hok]. split; [done|]. split; [by split_and!; [|apply Ht|apply Ho]|].
  apply list_elem_of_In in Hy. apply (fields_fit enc ps); [lia|done].
Qed.

Lemma map_elements pk pv ps base : payload_ok (VMap pk pv ps) ->
  zlen (encode F base (VMap pk pv ps)) < 2 ^ 32 ->
  Forall (fun kv => pair_ok pk pv kv /\ read_ok (snd kv)) ps.
Proof.
  intros ((_ & _ & _ & Hv) & (_ & _ & Ht) & Ho) Hl.
  apply (all_Forall (fun kv => ordered (fst kv) /\ ordered (snd kv))) in Ho.
  apply (all_Forall (fun kv => types_ok (snd kv))) in Ht. apply all_Forall in Hv.
  cbn [encode] in Hl. rewrite length_app in Hl. rewrite Forall_forall in *. intros kv Hkv.
  destruct (Hv kv Hkv) as (Hk & Hvt & Hok). split; [done|].
  split; [by split_and!; [|apply Ht|apply Ho]|]. apply list_elem_of_In in Hkv.
  pose proof (fields_fit (fun kv => enc (fst kv) ++ enc (snd kv)) ps (2 ^ 32) kv ltac:(lia) Hkv) as Hs.
  cbn beta in Hs. rewrite length_app in Hs. lia.
Qed.

Lemma outputs_fit {X} (g : X -> list byte) zs n : zlen (concat (g <$> zs)) < n ->
  Forall (fun z => zlen (g z) < n) zs.
Proof.
  intros Hl. apply Forall_forall. intros z Hz. apply list_elem_of_In in Hz.
  by apply (fields_fit g zs).
Qed.

Lemma untyped_unknown t : t <> BT_STRUCT -> untyped t = unknown_field_schema t.
Proof. intros Ht. unfold unknown_field_schema. by apply Z.eqb_neq in Ht as ->. Qed.

(** An element that is merged with [x], or copied. *)
Definition element_cmd (e : ftype) (x : option value) (pt : BondDataType) : cmd (R := R) unit :=
  fun W Q b =>
    if pt =? field_type_id e then let! _ := Merge P Q b same false e x in ret tt
    else CopyUnknown P Q b same (untyped pt).
Definition element_merged (e : ftype) (pt : BondDataType) (y : value) : option value :=
  if pt =? field_type_id e then merged F e None y
  else if pt =? BT_STRUCT then None else Some y.

Lemma merge_becomes e x y z : merges e -> object_ok e x -> read_ok y -> merged F e x y = Some z ->
  zlen (dec z) < 2 ^ 32 ->
  becomes false (fun W Q b => let! _ := Merge P Q b same false e x in ret tt) y z.
Proof.
  intros He Hx [Hy Hl] Hm Hz. destruct (He false x y z Hy Hl Hx ltac:(done) ltac:(done) Hm) as [_ Ha].
  apply (acts_then G false (fun W Q b => Merge P Q b same false e x) (fun _ W Q b => ret tt) _ _ false);
    [by apply Ha|apply acts_ret].
Qed.

Lemma element_copied e pt y z : merges e -> is_container_or_struct pt = true -> element_ok pt y ->
  element_merged e pt y = Some z -> zlen (dec z) < 2 ^ 32 -> becomes false (element_cmd e None pt) y z.
Proof.
  intros He Hc [Ht Hy] Hm Hz. unfold element_cmd, element_merged in *.
  destruct (pt =? field_type_id e).
  - by apply merge_becomes; [|apply absent_ok|..].
  - destruct (pt =? BT_STRUCT) eqn:Es; [done|]. apply Z.eqb_neq in Es. injection Hm as <-.
    rewrite (untyped_unknown pt Es), <-Ht. apply CopyUnknown_becomes; [by split; [apply Hy|split; [apply Hy|]]|congruence].
Qed.
Lemma ReadContainer_merges e base k pt ps w (nested : BondDataType -> Z -> cmd unit) :
  payload_ok (VList k pt ps) ->
  (if is_container_or_struct pt
   then acts (nested pt (zlen ps)) (concat (enc <$> ps)) (encode G base w) tt
   else w = VList k pt ps) ->
  acts (fun W Q b => ReadContainer P Q (field_type_id e)
          (fun t n => nested t n W Q b) ;;; ret false)
    (encode F base (VList k pt ps)) (encode G base w) false.
Proof.
  intros (Hv & Ht & _) Hm.
  apply (acts_then G false _ (fun _ W Q b => ret false) _ _ tt); [|apply acts_ret].
  change (encode F base (VList k pt ps)) with (enc (VList k pt ps)).
  apply (ReadContainer_acts false _ nested k pt ps); [done..|].
  destruct (is_container_or_struct pt); [exact Hm|by subst w].
Qed.

Lemma Forall2_triples {X Y Z} (f : X -> Y -> option Z) xs ys zs : length xs = length ys ->
  mapM_option (fun '(x, y) => f x y) (zip xs ys) = Some zs ->
  Forall3 (fun x y z => f x y = Some z) xs ys zs.
Proof.
  intros Hl Hm. apply mapM_option_Forall2 in Hm. revert ys zs Hl Hm.
  induction xs as [|x xs IH]; intros [|y ys] zs Hl Hm; try discriminate Hl;
    inversion Hm; subst; constructor; [done|]. apply IH; [by injection Hl|done].
Qed.

(** The elements of the object, with the ones of the payload in the same order. *)
Lemma MergeElements_acts e items ps zs : zlen items < 2 ^ 32 -> length items = length ps ->
  Forall3 (fun x y z => becomes false (fun W Q b => let! _ := Merge P Q b same false e (Some x) in ret tt) y z)
    items ps zs ->
  acts (fun W Q b => MergeElements Q e items (zlen ps) (fun x =>
          let! _ := Merge P Q b same false e (Some x) in ret tt))
    (concat (enc <$> ps)) (wf_list G (zlen zs) (field_type_id e) ++ concat (dec <$> zs)) tt.
Proof.
  intros Hn Hl Hm. unfold MergeElements, container_size.
  replace (zlen ps =? wrap 32 (zlen items)) with true.
  2:{ symmetry. apply Z.eqb_eq. rewrite wrap_id by (unfold fits; lia); lia. }
  cbn [negb]. replace (zlen ps) with (zlen zs).
  2:{ pose proof (Forall3_length_lm _ _ _ _ Hm). pose proof (Forall3_length_lr _ _ _ _ Hm). lia. }
  apply acts_write.
  { apply writes_plain. intros W T Q blob [Hq _]. pose proof (field_type_id_range e).
    pose proof (Forall3_length_lr _ _ _ _ Hm).
    apply (wl_list _ _ _ Hq); unfold fits; lia. }
  apply (acts_then G _ _ (fun _ W Q b => output (WriteContainerEnd Q)) _ _ tt).
  - exact (acts_forM G false (fun x W Q b => let! _ := Merge P Q b same false e (Some x) in ret tt)
      enc dec items ps zs Hm).
  - apply acts_output, writes_plain. intros W T Q blob [Hq _]. apply (wl_container_end _ _ _ Hq).
Qed.

Lemma list_outputs k pt zs base : zlen (encode G base (VList k pt zs)) < 2 ^ 32 ->
  Forall (fun z => zlen (dec z) < 2 ^ 32) zs.
Proof. cbn [encode]. intros Hl. rewrite length_app in Hl. apply (outputs_fit dec). lia. Qed.

Lemma list_shape k t (ps zs : list value) : length ps = length zs ->
  same_shape (VList k t ps) (VList k t zs).
Proof. intros Hl. split; [done|]. intros m. by apply default_length. Qed.

(** The elements where nothing of the object is merged. *)
Lemma copied_elements e k pt ps w :
  (if pt =? field_type_id e then VList k pt <$> mapM_option (merged F e None) ps
   else if pt =? BT_STRUCT then None else Some (VList k pt ps)) = Some w ->
  exists zs, w = VList k pt zs /\ Forall2 (fun y z => element_merged e pt y = Some z) ps zs.
Proof.
  unfold element_merged. destruct (pt =? field_type_id e); intros Hm.
  - destruct (mapM_option _ ps) as [zs|] eqn:Ez; [|done]. injection Hm as <-.
    exists zs. split; [done|]. by apply mapM_option_Forall2.
  - destruct (pt =? BT_STRUCT); [done|]. injection Hm as <-. exists ps. split; [done|].
    apply Forall2_diag. by apply Forall_forall.
Qed.

Lemma copied_becomes e pt ps zs : merges e -> is_container_or_struct pt = true ->
  Forall (element_ok pt) ps -> Forall (fun z => zlen (dec z) < 2 ^ 32) zs ->
  Forall2 (fun y z => element_merged e pt y = Some z) ps zs ->
  Forall2 (becomes false (element_cmd e None pt)) ps zs.
Proof.
  intros He Hc Hp Hz Hm. induction Hm as [|y z ps zs Hy _ IH]; [constructor|].
  apply Forall_cons_iff in Hp as [Hyo Hp], Hz as [Hzl Hz].
  constructor; [by apply element_copied|by apply IH].
Qed.

(** What [transform.Container(element, size)] is, for the list of [x]. *)
Definition list_cmd (e : ftype) (x : option value) (pt : BondDataType) (n : Z) : cmd (R := R) unit :=
  fun W Q b =>
    match x with
    | Some (VList _ _ items) =>
        if is_basic_type e then Container Q pt n (element_cmd e None pt W Q b)
        else MergeElements Q e items n (fun y =>
          if pt =? field_type_id e then let! _ := Merge P Q b same false e (Some y) in ret tt
          else MergeVoid P Q b same e y (untyped pt))
    | _ => Container Q pt n (element_cmd e None pt W Q b)
    end.

Lemma list_items e is_set x : object_ok (FList is_set e) x ->
  forall k t items, x = Some (VList k t items) ->
  zlen items < 2 ^ 32 /\ Forall (fun y => object_ok e (Some y)) items.
Proof.
  intros Hx k t items ->. destruct (Hx _ eq_refl) as [(_ & Hn & Hv) Hs].
  apply all_Forall in Hv, Hs. split; [done|]. rewrite Forall_forall in *.
  intros y Hy z [= <-]. split; [by apply Hv|by apply Hs].
Qed.

Lemma merged_becomes e t items ps zs : merges e ->
  Forall (fun y => object_ok e (Some y)) items -> Forall (element_ok t) ps ->
  Forall (fun z => zlen (dec z) < 2 ^ 32) zs ->
  Forall3 (fun x y z => merged F e (Some x) y = Some z) items ps zs ->
  Forall3 (fun x y z => becomes false (fun W Q b => let! _ := Merge P Q b same false e (Some x) in ret tt) y z)
    items ps zs.
Proof.
  intros He Hx Hp Hz Hm. induction Hm as [|x y z items ps zs Hy _ IH]; [constructor|].
  apply Forall_cons_iff in Hx as [Hxo Hx], Hp as [[_ Hyo] Hp], Hz as [Hzl Hz].
  constructor; [by apply merge_becomes|by apply IH].
Qed.

Lemma list_cmd_acts e is_set x k pt ps w : merges e -> object_ok (FList is_set e) x ->
  payload_ok (VList k pt ps) -> Forall (element_ok pt) ps -> is_container_or_struct pt = true ->
  merged F (FList is_set e) x (VList k pt ps) = Some w ->
  exists zs, w = VList k pt zs /\ length ps = length zs /\
  (Forall (fun z => zlen (dec z) < 2 ^ 32) zs ->
   acts (list_cmd e x pt (zlen ps)) (concat (enc <$> ps))
     (wf_list G (zlen zs) pt ++ concat (dec <$> zs)) tt).
Proof.
  intros He Hx Hv Hp Hc Hm. destruct Hv as ((Ht & Hn & _) & _). cbn [merged] in Hm. rewrite Hc in Hm.
  assert (Hcopy : (if pt =? field_type_id e then VList k pt <$> mapM_option (merged F e None) ps
      else if pt =? BT_STRUCT then None else Some (VList k pt ps)) = Some w ->
    exists zs, w = VList k pt zs /\ length ps = length zs /\
    (Forall (fun z => zlen (dec z) < 2 ^ 32) zs ->
     acts (fun W Q b => Container Q pt (zlen ps) (element_cmd e None pt W Q b)) (concat (enc <$> ps))
       (wf_list G (zlen zs) pt ++ concat (dec <$> zs)) tt)).
  { intros Hs. apply copied_elements in Hs as (zs & -> & Hz). exists zs.
    split_and!; [done|by eapply list.Forall2_length|]. intros Hzl.
    apply Container_acts; [done..|]. by apply copied_becomes. }
  destruct x as [[|?|k' t' items|]|]; [by apply Hcopy..| |by apply Hcopy|by apply Hcopy].
  unfold list_cmd. destruct (is_basic_type e); [by apply Hcopy|]. clear Hcopy.
  destruct (list_items e is_set _ Hx _ _ _ eq_refl) as [Hni Hio].
  destruct (pt =? field_type_id e) eqn:Et; cbn [andb] in Hm; [|done]. apply Z.eqb_eq in Et.
  destruct (length items =? length ps)%nat eqn:El; [|done]. apply Nat.eqb_eq in El.
  destruct (mapM_option _ (zip items ps)) as [zs|] eqn:Ez; [|done]. injection Hm as <-.
  apply Forall2_triples in Ez; [|done]. exists zs. split_and!; [done| |].
  { by rewrite <-(Forall3_length_lr _ _ _ _ Ez). }
  intros Hzl. subst pt. apply MergeElements_acts; [done..|].
  by apply (merged_becomes e (field_type_id e)).
Qed.

Lemma list_merges is_set e : merges e -> merges (FList is_set e).
Proof.
  intros He base x v w Hv Hl Hx _ _ Hm. destruct v as [|?|k pt ps|]; try done.
  assert (Hw : exists zs, w = VList k pt zs /\ length ps = length zs /\
    (zlen (encode G base w) < 2 ^ 32 -> if is_container_or_struct pt
     then acts (list_cmd e x pt (zlen ps)) (concat (enc <$> ps)) (encode G base w) tt
     else w = VList k pt ps)).
  { pose proof (list_elements _ _ _ _ Hv Hl) as Hp. destruct (is_container_or_struct pt) eqn:Ec.
    - destruct (list_cmd_acts e is_set x k pt ps w) as (zs & -> & Hn & Ha); [done..|].
      exists zs. split_and!; [done..|]. intros Hlw. by apply Ha, list_outputs with (1 := Hlw).
    - cbn [merged] in Hm. rewrite Ec in Hm. injection Hm as <-. by exists ps. }
  destruct Hw as (zs & -> & Hn & Ha). split; [by apply list_shape|]. intros Hlw.
  exact (ReadContainer_merges e base k pt ps _ (list_cmd e x) Hv (Ha Hlw)).
Qed.

(** Pairs. *)
Definition pair_copied (vt : ftype) (pv : BondDataType) (y z : value * value) : Prop :=
  fst z = fst y /\ element_merged vt pv (snd y) = Some (snd z).
Definition pair_merged (kt : btype) (vt : ftype) (items : list (value * value))
    (y z : value * value) : Prop :=
  exists s e, fst y = VBasic s /\ find (fun kv => is_key (set_as kt s) (fst kv)) items = Some e /\
  fst z = VBasic (set_as kt s) /\ merged F vt (Some (snd e)) (snd y) = Some (snd z).

Lemma copied_pairs vt pk pv ps w :
  (if pv =? field_type_id vt
   then VMap pk pv <$> mapM_option (fun kv => pair (fst kv) <$> merged F vt None (snd kv)) ps
   else if pv =? BT_STRUCT then None else Some (VMap pk pv ps)) = Some w ->
  exists zs, w = VMap pk pv zs /\ Forall2 (pair_copied vt pv) ps zs.
Proof.
  unfold pair_copied, element_merged. destruct (pv =? field_type_id vt); intros Hm.
  - destruct (mapM_option _ ps) as [zs|] eqn:Ez; [|done]. injection Hm as <-.
    exists zs. split; [done|]. eapply Forall2_impl; [|by apply mapM_option_Forall2].
    intros [k y] z. cbn [fst snd]. destruct (merged F vt None y) as [y'|]; [|done].
    by intros [= <-].
  - destruct (pv =? BT_STRUCT); [done|]. injection Hm as <-. exists ps. split; [done|].
    apply Forall2_diag. by apply Forall_forall.
Qed.

Lemma merged_pairs kt vt items ps zs :
  mapM_option (fun kv =>
    match fst kv with
    | VBasic s =>
        match find (fun e => is_key (set_as kt s) (fst e)) items with
        | Some e => pair (VBasic (set_as kt s)) <$> merged F vt (Some (snd e)) (snd kv)
        | None => None
        end
    | _ => None
    end) ps = Some zs -> Forall2 (pair_merged kt vt items) ps zs.
Proof.
  intros Hm. eapply Forall2_impl; [|by apply mapM_option_Forall2].
  intros [[s| | |] y] z; try done. cbn [fst snd]. destruct (find _ items) as [e|] eqn:He; [|done].
  destruct (merged F vt (Some (snd e)) y) as [y'|] eqn:Ey; [|done]. intros [= <-]. by exists s, e.
Qed.

Abbreviation enc_pair := (fun kv : value * value => enc (fst kv) ++ enc (snd kv)).
Abbreviation dec_pair := (fun kv : value * value => dec (fst kv) ++ dec (snd kv)).

Lemma pairs_copied vt pk pv u ps zs : merges vt -> is_container_or_struct pv = true ->
  basic_type_of_id pk = Some u -> Forall (fun kv => pair_ok pk pv kv /\ read_ok (snd kv)) ps ->
  Forall (fun z => zlen (dec (snd z)) < 2 ^ 32) zs -> Forall2 (pair_copied vt pv) ps zs ->
  Forall2 (pair_becomes false (fun W Q b => WriteBasic P Q u) (element_cmd vt None pv)) ps zs.
Proof.
  intros He Hc Hu Hp Hz Hm. induction Hm as [|y z ps zs [Hk Hy] _ IH]; [constructor|].
  apply Forall_cons_iff in Hp as [[[[Hkt Hko] [Hvt Hvo]] Hr] Hp], Hz as [Hzl Hz].
  constructor; [|by apply IH]. split.
  - rewrite Hk. by eapply basic_becomes.
  - by apply element_copied.
Qed.

(** A pair of the payload with the element of the object. *)
Definition pair_cmd (u kt : btype) (vt : ftype) (items : list (value * value)) : cmd (R := R) unit :=
  fun W Q b => let! k := input (read_basic P u kt) in output (Write Q k) ;;;
    let! x := const_mapped_at items k in
    let! _ := Merge P Q b same false vt (Some x) in ret tt.

Lemma pairs_merged kt vt pk pv u items ps zs : merges vt ->
  Forall (fun kv => object_ok vt (Some (snd kv))) items -> is_matching_basic u kt = true ->
  basic_type_of_id pk = Some u -> Forall (fun kv => pair_ok pk pv kv /\ read_ok (snd kv)) ps ->
  Forall (fun z => zlen (dec (snd z)) < 2 ^ 32) zs -> Forall2 (pair_merged kt vt items) ps zs ->
  Forall2 (fun y z => acts (pair_cmd u kt vt items) (enc_pair y) (dec_pair z) tt) ps zs.
Proof.
  intros He Hx Hmb Hu Hp Hz Hm. induction Hm as [|y z ps zs Hyz _ IH]; [constructor|].
  destruct Hyz as (s & e & Hs & Hf & Hk & Hy).
  apply Forall_cons_iff in Hp as [[[[Hkt Hko] _] Hr] Hp], Hz as [Hzl Hz].
  constructor; [|by apply IH]. cbn beta. rewrite Hs in *. rewrite Hk. cbn [type_of value_ok] in Hkt, Hko.
  subst pk. rewrite type_id_roundtrip in Hu. injection Hu as <-.
  apply (merge_pair false (btype_of s) kt items (fun x W Q b =>
    let! _ := Merge P Q b same false vt (Some x) in ret tt) s e); [done..|].
  apply find_some in Hf as [Hin _]. rewrite Forall_forall in Hx.
  by apply merge_becomes; [|apply Hx|..].
Qed.

(** What [transform.Container(key, value, size)] is, for the map of [x]. *)
Definition map_cmd (kt : btype) (vt : ftype) (x : option value) (u : btype)
    (type : BondDataType * BondDataType) (n : Z) : cmd (R := R) unit :=
  fun W Q b =>
    let copy := element_cmd vt None (snd type) W Q b in
    match x with
    | Some (VMap _ _ items) =>
        if is_basic_type vt then MapContainer Q type n (WriteBasic P Q u ;;; copy)
        else MapElements P Q u kt vt items type n (fun y =>
          if snd type =? field_type_id vt then let! _ := Merge P Q b same false vt (Some y) in ret tt
          else MergeVoid P Q b same vt y (untyped (snd type))) copy
    | _ => MapContainer Q type n (WriteBasic P Q u ;;; copy)
    end.

Lemma map_items kt vt x : object_ok (FMap kt vt) x ->
  forall pk pv items, x = Some (VMap pk pv items) ->
  zlen items < 2 ^ 32 /\ Forall (fun kv => object_ok vt (Some (snd kv))) items.
Proof.
  intros Hx pk pv items ->. destruct (Hx _ eq_refl) as [(_ & _ & Hn & Hv) Hs].
  apply (all_Forall (fun kv => shaped vt (snd kv))) in Hs. apply all_Forall in Hv.
  split; [done|]. rewrite Forall_forall in *.
  intros kv Hkv z [= <-]. split; [by apply (Hv kv)|by apply (Hs kv)].
Qed.

Lemma map_shape k t k' t' (ps zs : list (value * value)) : length ps = length zs ->
  same_shape (VMap k t ps) (VMap k' t' zs).
Proof. intros Hl. split; [done|]. intros m. by apply default_length. Qed.

(** The pairs that were merged have the keys of the schema's type. *)
Lemma map_cmd_acts kt vt x pk pv u ps w : merges vt -> object_ok (FMap kt vt) x ->
  payload_ok (VMap pk pv ps) -> Forall (fun kv => pair_ok pk pv kv /\ read_ok (snd kv)) ps ->
  is_container_or_struct pv = true -> basic_type_of_id pk = Some u ->
  merged F (FMap kt vt) x (VMap pk pv ps) = Some w ->
  exists pk' zs, w = VMap pk' pv zs /\ length ps = length zs /\
  (Forall (fun z => zlen (dec (snd z)) < 2 ^ 32) zs ->
   acts (map_cmd kt vt x u (pk, pv) (zlen ps)) (concat (enc_pair <$> ps))
     (wf_map G (zlen zs) (pk', pv) ++ concat (dec_pair <$> zs)) tt).
Proof.
  intros He Hx Hv Hp Hc Hu Hm. destruct Hv as ((Hk5 & Hv5 & Hn & _) & _).
  cbn [merged] in Hm. rewrite Hc in Hm.
  assert (Hcopy : (if pv =? field_type_id vt
      then VMap pk pv <$> mapM_option (fun kv => pair (fst kv) <$> merged F vt None (snd kv)) ps
      else if pv =? BT_STRUCT then None else Some (VMap pk pv ps)) = Some w ->
    exists pk' zs, w = VMap pk' pv zs /\ length ps = length zs /\
    (Forall (fun z => zlen (dec (snd z)) < 2 ^ 32) zs ->
     acts (fun W Q b => MapContainer Q (pk, pv) (zlen ps) (WriteBasic P Q u ;;; element_cmd vt None pv W Q b))
       (concat (enc_pair <$> ps)) (wf_map G (zlen zs) (pk', pv) ++ concat (dec_pair <$> zs)) tt)).
  { intros Hs. apply copied_pairs in Hs as (zs & -> & Hz). exists pk, zs.
    split_and!; [done|by eapply list.Forall2_length|]. intros Hzl.
    apply (MapContainer_acts false pk pv (fun W Q b => WriteBasic P Q u)); [done..|].
    by apply (pairs_copied vt pk pv). }
  destruct x as [[|?|?|k' t' items]|]; [by apply Hcopy..| |by apply Hcopy].
  unfold map_cmd, MapElements. destruct (is_basic_type vt); [by apply Hcopy|].
  destruct (map_items kt vt _ Hx _ _ _ eq_refl) as [Hni Hio].
  rewrite accepts_basic_iff, Hu in Hm. destruct (is_matching_basic u kt) eqn:Hmb; [|by apply Hcopy].
  clear Hcopy. cbn [snd]. destruct (pv =? field_type_id vt) eqn:Et; cbn [andb] in Hm; [|done].
  apply Z.eqb_eq in Et. destruct (length items =? length ps)%nat eqn:El; [|done].
  apply Nat.eqb_eq in El. destruct (mapM_option _ ps) as [zs|] eqn:Ez; [|done]. injection Hm as <-.
  apply merged_pairs in Ez. exists (get_type_id kt), zs.
  split_and!; [done|by eapply list.Forall2_length|]. intros Hzl.
  unfold MergePairs, container_size. replace (zlen ps =? wrap 32 (zlen items)) with true.
  2:{ symmetry. apply Z.eqb_eq. rewrite wrap_id by (unfold fits; lia). lia. }
  cbn [negb]. rewrite Et. apply (pairs_act false (get_type_id kt) _ (pair_cmd u kt vt items)).
  - by destruct kt as [|[]|[]| | | |].
  - pose proof (field_type_id_range vt). unfold fits. lia.
  - done.
  - by apply (pairs_merged kt vt pk pv).
Qed.

Lemma map_outputs pk pv zs base : zlen (encode G base (VMap pk pv zs)) < 2 ^ 32 ->
  Forall (fun z => zlen (dec (snd z)) < 2 ^ 32) zs.
Proof.
  cbn [encode]. intros Hl. rewrite length_app in Hl.
  eapply Forall_impl; [|apply (outputs_fit dec_pair zs (2 ^ 32)); lia].
  intros z Hz. cbn beta in Hz. rewrite length_app in Hz. lia.
Qed.

Lemma map_merges kt vt : merges vt -> merges (FMap kt vt).
Proof.
  intros He base x v w Hv Hl Hx _ _ Hm. destruct v as [|?|?|pk pv ps]; try done.
  pose proof (map_elements _ _ _ _ Hv Hl) as Hp.
  destruct Hv as ((Hk5 & Hv5 & Hn & Hvo) & ([u Hu] & Hkv & Hty) & Ho) eqn:Hv'. clear Hv'.
  assert (Hw : exists pk' zs, w = VMap pk' pv zs /\ length ps = length zs /\
    (zlen (encode G base w) < 2 ^ 32 -> if is_container_or_struct pv
     then acts (map_cmd kt vt x u (pk, pv) (zlen ps)) (concat (enc_pair <$> ps)) (encode G base w) tt
     else encode G base w = dec (VMap pk pv ps))).
  { destruct (is_container_or_struct pv) eqn:Ec.
    - destruct (map_cmd_acts kt vt x pk pv u ps w) as (pk' & zs & -> & Hlen & Ha); [done..|].
      exists pk', zs. split_and!; [done..|]. intros Hlw. by apply Ha, map_outputs with (1 := Hlw).
    - cbn [merged] in Hm. rewrite Ec in Hm. injection Hm as <-. by exists pk, ps. }
  destruct Hw as (pk' & zs & -> & Hlen & Ha). split; [by apply map_shape|]. intros Hlw.
  apply (acts_then G false _ (fun _ W Q b => ret false) _ _ tt); [|apply acts_ret].
  change (encode F base (VMap pk pv ps)) with (enc (VMap pk pv ps)).
  apply (ReadMap_acts false (get_type_id kt, field_type_id vt) (map_cmd kt vt x) pk pv ps); [done..| |].
  - eapply Forall_impl; [|exact Hp]. by intros kv [Hkv' _].
  - exists u. split; [done|]. by apply Ha.
Qed.

(** *** Structs *)

Definition bound (f : Z * Metadata * ftype) (y : option value) : bound_spec :=
  mkBS (mkFS (fst (fst f)) (snd (fst f)) (snd f) y (merged F (snd f) y))
    (fun W Q b => let! _ := Merge P Q b same false (snd f) y in ret tt).

Lemma specs_bound fs xs : bs_spec <$> zip_with bound fs xs = specs_of fs xs.
Proof.
  revert xs. induction fs as [|f fs IH]; intros [|x xs]; try done.
  cbn [zip_with]. rewrite fmap_cons, IH. done.
Qed.

Lemma bind_bound W (Q : ProtocolWriter W) b fs xs :
  zip_with (fun f x => mkMF (fst (fst (fst f))) (snd (fst (fst f))) (snd (fst f)) x
                         (let! _ := snd f x in ret tt))
    ((fun f => (f, Merge P Q b same false (snd f))) <$> fs) xs =
  bind_field W Q b <$> zip_with bound fs xs.
Proof.
  revert xs. induction fs as [|f fs IH]; intros [|x xs]; try done.
  rewrite fmap_cons. cbn [zip_with]. rewrite fmap_cons, IH. done.
Qed.

Lemma members_ok bt fs x : object_ok (FStruct bt fs) x ->
  Forall2 (fun f y => object_ok (snd f) y) fs (members x (length fs)).
Proof.
  intros Hx. assert (Hnone : Forall2 (fun f y => object_ok (snd f) y) fs (replicate (length fs) None)).
  { clear Hx. induction fs; constructor; [apply absent_ok|done]. }
  destruct x as [[|b vars| |]|]; try done. destruct (Hx _ eq_refl) as [(_ & Hv) (_ & Hs)].
  apply all_Forall in Hv. cbn [members]. rewrite Forall2_fmap in Hs. apply Forall2_fmap_r.
  clear Hnone Hx. induction Hs as [|f y fs vars Hy _ IH]; constructor.
  - intros z [= <-]. apply Forall_cons_iff in Hv as [[_ Hv] _]. by split.
  - apply IH. by apply Forall_cons_iff in Hv as [_ Hv].
Qed.

Lemma increasing_fits lo ids : -1 <= lo -> increasing lo ids -> Forall (fits 16) ids.
Proof.
  revert lo. induction ids as [|i ids IH]; intros lo Hlo Hi; constructor.
  - destruct Hi as [Hi _]. unfold fits, invalid_field_id in *. lia.
  - destruct Hi as [Hi Hr]. apply (IH i); [lia|done].
Qed.

Lemma fields_bound bt fs x : object_ok (FStruct bt fs) x ->
  increasing (-1) ((fun f => fst (fst f)) <$> fs) -> Forall (fun f => merges (snd f)) fs ->
  Forall bound_ok (zip_with bound fs (members x (length fs))).
Proof.
  intros Hx Hi Hm. pose proof (increasing_fits _ _ (Z.le_refl (-1)) Hi) as Hf.
  pose proof (members_ok _ _ _ Hx) as Ho. clear Hx Hi. apply Forall_fmap in Hf.
  revert Ho. generalize (members x (length fs)). intros xs Ho.
  induction Ho as [|f y fs xs Hy _ IH]; [constructor|].
  apply Forall_cons_iff in Hf as [Hid Hf], Hm as [Hmf Hm]. constructor; [|by apply IH].
  split_and!; [done|intros z Hz; by apply Hy|]. cbn [bs_spec bound fs_type fs_merge bs_cmd fs_var].
  intros v w [Hv Hl] _ Hmg. destruct (Hmf false y v w Hv Hl Hy ltac:(done) ltac:(done) Hmg) as [Hs Ha].
  split; [done|]. intros Hlw.
  apply (acts_then G false (fun W Q b => Merge P Q b same false (snd f) y) (fun _ W Q b => ret tt) _ _ false);
    [by apply Ha|apply acts_ret].
Qed.

Lemma base_ok bt fs x : object_ok (FStruct (Some bt) fs) x -> object_ok bt (base_member x).
Proof.
  intros Hx. destruct x as [[|[b|] vars| |]|]; try apply absent_ok.
  destruct (Hx _ eq_refl) as [((_ & Hb) & _) (Hs & _)]. by intros y [= <-].
Qed.

Lemma strip_levels_le v k : (value_levels (strip k v) <= Nat.max (value_levels v - k) 1)%nat.
Proof.
  revert v. induction k as [|k IH]; intros v; [cbn [strip]; lia|].
  destruct v as [s|[b|] fs| |]; cbn [strip value_levels]; [lia| |lia..].
  specialize (IH b). lia.
Qed.

Definition base_cmd (bt : option ftype) (x : option value) : cmd (R := R) bool := fun W Q b =>
  match bt with
  | None => ret false
  | Some bt' =>
      let! ended := Merge P Q b same true bt' (base_member x) in
      ret (bool_decide (is_Some x) && ended)
  end.
Definition fields_cmd (base : bool) (fs : list (Z * Metadata * ftype)) (x : option value)
    (ended : bool) : cmd (R := R) bool := fun W Q b =>
  if ended then ret true
  else MergeFields P Q b same base (bind_field W Q b <$> zip_with bound fs (members x (length fs))).

Lemma struct_cmd bt fs base x W (Q : ProtocolWriter W) b : same && bool_decide (x = None) = false ->
  Merge P Q b same base (FStruct bt fs) x =
    (input (ReadStructBegin P base) ;;; output (WriteStructBegin Q base) ;;;
     let! ended := base_cmd bt x W Q b in let! ended := fields_cmd base fs x ended W Q b in
     output (WriteStructEnd Q base) ;;; input (ReadStructEnd P base) ;;; ret ended).
Proof. intros Hs. cbn [Merge]. rewrite Hs, bind_bound. done. Qed.

(** The base, when it is merged. *)
Lemma base_acts bt fs x bv b : (forall t, bt = Some t -> merges t) ->
  object_ok (FStruct bt fs) x -> (same = true -> x <> None) ->
  (forall v, bv = Some v -> type_of v = BT_STRUCT /\ payload_ok v /\ zlen (encode F true v) < 2 ^ 32) ->
  (forall v t, bv = Some v -> bt = Some t -> (value_levels v <= type_levels t)%nat) ->
  match bt, bv with
  | None, None => Some None
  | Some bt', Some bv' => Some <$> merged F bt' (base_member x) bv'
  | _, _ => None
  end = Some b -> zlen (base_out G b) < 2 ^ 32 ->
  acts (base_cmd bt x) (base_out F bv) (base_out G b) false.
Proof.
  intros Hb Hx Hs Hv Hlev Hm Hl. unfold base_cmd.
  destruct bt as [bt|], bv as [bv|]; try discriminate Hm; [|injection Hm as <-; apply acts_ret].
  destruct (merged F bt (base_member x) bv) as [w|] eqn:Ew; [|done]. injection Hm as <-.
  destruct (Hv bv eq_refl) as (_ & Hp & HF). cbn [base_out] in *.
  destruct (Hb bt eq_refl true (base_member x) bv w Hp HF) as [_ Ha]; [by eapply base_ok| | |done|].
  - intros _. by apply Hlev.
  - intros _ Hsame. specialize (Hs Hsame). destruct x as [x|]; [|done].
    destruct (Hx x eq_refl) as [_ Hsh]. destruct x as [s|[b|] vars| |]; try done; by destruct Hsh.
  - apply (acts_then G false (fun W Q b => Merge P Q b same true bt (base_member x))
      (fun ended W Q b => ret (bool_decide (is_Some x) && ended)) _ _ false); [by apply Ha|].
    rewrite andb_false_r. apply acts_ret.
Qed.

(** What a merged level is made of. *)
Lemma merged_parts bt fs x b0 fs0 w : merged F (FStruct bt fs) x (VStruct b0 fs0) = Some w ->
  exists k bv vfs b l, k = (value_levels (VStruct b0 fs0) - type_levels (FStruct bt fs))%nat /\
  strip k (VStruct b0 fs0) = VStruct bv vfs /\
  match bt, bv with
  | None, None => Some None
  | Some bt', Some bv' => Some <$> merged F bt' (base_member x) bv'
  | _, _ => None
  end = Some b /\
  merge_level (specs_of fs (members x (length fs))) (present F vfs) = Some l /\
  w = graft k (VStruct b0 fs0) (VStruct b l).
Proof.
  rewrite merged_struct. cbv zeta. intros Hm. eexists. destruct (strip _ _) as [|bv vfs| |] eqn:Es; try done.
  destruct (match bt, bv with None, None => _ | _, _ => _ end) as [b|] eqn:Eb; [|done].
  destruct (merge_level _ _) as [l|] eqn:El; [|done]. injection Hm as <-.
  exists bv, vfs, b, l. by split_and!.
Qed.

Lemma body_acts base bt fs x b0 fs0 k bv vfs b l :
  (forall t, bt = Some t -> merges t) -> Forall (fun f => merges (snd f)) fs ->
  type_ok (FStruct bt fs) -> object_ok (FStruct bt fs) x -> (same = true -> x <> None) ->
  payload_ok (VStruct b0 fs0) -> zlen (encode F base (VStruct b0 fs0)) < 2 ^ 32 ->
  k = (value_levels (VStruct b0 fs0) - type_levels (FStruct bt fs))%nat ->
  (base = true -> k = 0%nat) -> strip k (VStruct b0 fs0) = VStruct bv vfs ->
  match bt, bv with
  | None, None => Some None
  | Some bt', Some bv' => Some <$> merged F bt' (base_member x) bv'
  | _, _ => None
  end = Some b ->
  merge_level (specs_of fs (members x (length fs))) (present F vfs) = Some l ->
  zlen (base_out G b ++ fields_bytes G l ++ outer_out G (outer_levels G k (VStruct b0 fs0))) < 2 ^ 32 ->
  acts (fun W Q bl => let! ended := base_cmd bt x W Q bl in fields_cmd base fs x ended W Q bl)
    (body_of F base b0 fs0)
    (base_out G b ++ fields_bytes G l ++ outer_out G (outer_levels G k (VStruct b0 fs0))) false.
Proof.
  intros Hb Hf Ht Hx Hs Hv Hl Hk Hbk Es Eb El Hlo. rewrite length_app in Hlo.
  assert (Hkv : (k < value_levels (VStruct b0 fs0))%nat).
  { assert (0 < type_levels (FStruct bt fs))%nat by (destruct bt; simpl; lia).
    assert (0 < value_levels (VStruct b0 fs0))%nat by (destruct b0; simpl; lia). lia. }
  destruct (strip_level_ok k base (VStruct b0 fs0) bv vfs Hv Hl Es) as [(Hbv & Hp & Hi) Ho].
  rewrite (body_input F G (tf_omits F tagged_F) (tf_omits G tagged_G) base k b0 fs0 bv vfs) by done.
  apply (acts_bind G _ (base_cmd bt x) (fields_cmd base fs x) _ _ _ _ false false).
  - apply (base_acts bt fs x bv b); [done..| |done|lia].
    intros v t -> ->. pose proof (strip_levels_le (VStruct b0 fs0) k) as Hsl. rewrite Es in Hsl.
    cbn [value_levels type_levels] in *. lia.
  - unfold fields_cmd. rewrite <-present_pairs, <-present_alike.
    apply (MergeFields_acts base); [by apply (fields_bound bt); [|apply Ht|]|done|done| |done| |].
    + by rewrite specs_bound.
    + intros Hbt. by rewrite (Hbk Hbt).
    + rewrite length_app in Hlo. rewrite length_app. lia.
Qed.

Lemma prefixed (base : bool) (p body : list byte) :
  (if base then [] else p) ++ body = (if base then body else p ++ body).
Proof. by destruct base. Qed.

Lemma struct_merges bt fs : (forall t, bt = Some t -> merges t) ->
  Forall (fun f => merges (snd f)) fs -> type_ok (FStruct bt fs) -> merges (FStruct bt fs).
Proof.
  intros Hb Hf Ht base x v w Hv Hl Hx Hlev Hs Hm. destruct v as [|b0 fs0| |]; try done.
  apply merged_parts in Hm as Hparts. destruct Hparts as (k & bv & vfs & b & l & Hk & Es & Eb & El & ->).
  assert (Hshape : same_shape (VStruct b0 fs0) (graft k (VStruct b0 fs0) (VStruct b l))).
  { destruct (graft_struct k (VStruct b0 fs0) b l) as (b' & fs' & -> & _). by split. }
  split; [done|]. intros Hlw. destruct (same && bool_decide (x = None)) eqn:Epass.
  - apply andb_true_iff in Epass as [Esame Enone%bool_decide_eq_true]. subst x.
    destruct base; [by destruct (Hs eq_refl Esame)|].
    destruct (copied_same G (FStruct bt fs) omits_same _ _ Hm) as [_ ->].
    apply (acts_ext G false (fun W Q b => PassThrough P b ;;; ret false)).
    { intros W Q b'. cbn [Merge]. rewrite bool_decide_eq_true_2, Esame by done. done. }
    apply (acts_then G false _ (fun _ W Q b => ret false) _ _ tt); [|apply acts_ret].
    apply acts_plain.
    by apply PassThrough_becomes; [apply same_format|..|apply Hv|].
  - assert (Hs' : same = true -> x <> None).
    { intros Esame ->. rewrite Esame, bool_decide_eq_true_2 in Epass; done. }
    assert (Hbk : base = true -> k = 0%nat) by (intros Hbt; specialize (Hlev Hbt); lia).
    assert (Hkv : (k < value_levels (VStruct b0 fs0))%nat).
    { assert (0 < type_levels (FStruct bt fs))%nat by (destruct bt; simpl; lia).
      assert (0 < value_levels (VStruct b0 fs0))%nat by (destruct b0; simpl; lia). lia. }
    destruct (graft_struct k (VStruct b0 fs0) b l) as (b' & fs' & Ew & _). rewrite Ew in *.
    pose proof (sub_fits G base b' fs' Hlw) as Hbody.
    rewrite (body_graft G base k (VStruct b0 fs0) b l b' fs' Hkv Hbk Ew) in Hbody.
    eapply acts_ext; [intros W Q bl; exact (struct_cmd bt fs base x W Q bl Epass)|].
    rewrite !encode_struct, (body_graft G base k (VStruct b0 fs0) b l b' fs' Hkv Hbk Ew).
    set (body := base_out G b ++ _) in *.
    rewrite <-(prefixed base (wf_prefix F _)), <-(prefixed base (wf_prefix G _)).
    apply (acts_read G false _ (fun _ W Q bl => output (WriteStructBegin Q base) ;;;
      let! ended := base_cmd bt x W Q bl in let! ended := fields_cmd base fs x ended W Q bl in
      output (WriteStructEnd Q base) ;;; input (ReadStructEnd P base) ;;; ret ended) _ _ _ tt).
    { apply (rl_begin _ _ readers). apply sub_fits in Hl. unfold fits. lia. }
    apply (acts_level G false base (ReadStructEnd P base) (base_cmd bt x) (fields_cmd base fs x)).
    + apply (body_acts base bt fs x b0 fs0 k bv vfs b l); try done. fold body.
      rewrite length_app in Hbody. lia.
    + apply (rl_end _ _ readers).
    + intros ->. unfold fits. lia.
    + apply (tf_stop G tagged_G).
    + apply (cf_prefix G counted_G).
    + done.
Qed.

(** Every type. *)
Lemma Merge_writes t : type_ok t -> merges t.
Proof.
  induction t as [b|bt fs Hb Hf|is_set e He|kt vt Hvt] using ftype_ind_nested; intros Ht.
  - intros base x v w Hv Hl Hx _ _ Hm. destruct v as [s| | |]; try done. cbn [merged] in Hm.
    destruct (type_of (VBasic s) =? get_type_id b) eqn:Eb; [|done]. injection Hm as <-.
    split; [done|]. intros _. apply Z.eqb_eq in Eb.
    assert (b = btype_of s) as ->.
    { pose proof (type_id_roundtrip b) as E1. rewrite <-Eb in E1. cbn [type_of] in E1.
      rewrite type_id_roundtrip in E1. congruence. }
    apply (acts_then G false (fun W Q bl => WriteBasic P Q (btype_of s)) (fun _ W Q bl => ret false) _ _ tt);
      [|apply acts_ret]. apply (WriteBasic_becomes false s), Hv.
  - apply struct_merges; [| |done].
    + intros t ->. apply (Hb t eq_refl), Ht.
    + destruct Ht as (_ & _ & Ht). apply all_Forall in Ht. rewrite Forall_forall in *.
      intros f Hin. by apply Hf, Ht.
  - apply list_merges, He, Ht.
  - apply map_merges, Hvt, Ht.
Qed.

End Merging.
