(* ===== verification/SimpleJsonReaderCorrect.v ===== *)
(** Reading the JSON text of an object gives the object back.

    What the document library promises is stated as a relation between its values and
    JSON trees; the DOM parser over a value of the tree of an object reads the object.
    Members are found by name or number, so no name may stand for two fields of a
    hierarchy. *)

From S2P Require Import Prelude Streams Encoding DataType Metadata Protocol Json.
From S2P Require Import SimpleJson SimpleJsonCorrect Schema Parser SimpleJsonReader.
From S2P Require Import ParserCorrect Deserialization.

(** * What the library promises *)

Section Node.
Context {R V : Type} (D : dom_library R V) (rj : rapidjson).

(** The doubles whose spelling the library reads back to the bit; it does not promise it
    for all. *)
Context (exact : Z -> Prop).

Definition integer_node (x : V) (z : Z) : Prop :=
  (sfits 32 z -> IsInt D x = true /\ GetInt D x = Some z) /\
  (sfits 64 z -> IsInt64 D x = true /\ GetInt64 D x = Some z) /\
  (fits 32 z -> IsUint D x = true) /\
  (fits 64 z -> IsUint64 D x = true /\ GetUint64 D x = Some z).

(** A number that its writer spelled is the number. *)
Definition number_node (t : list byte) (x : V) : Prop :=
  IsNumber D x = true /\
  (forall z, sfits 64 z -> rj_int64 rj z = t -> integer_node x z) /\
  (forall z, fits 64 z -> rj_uint64 rj z = t -> integer_node x z) /\
  (forall d, exact d -> rj_double rj d = t -> GetDouble D x = Some d).

(** A string that its writer spelled is the string; one of ASCII characters has the units
    its escapes stand for. *)
Definition name_node (t : list byte) (chars : list Z) : Prop :=
  forall units, Forall (fits 8) units -> rj_chars rj units = t -> chars = units.
Definition string_node (t : list byte) (x : V) : Prop :=
  IsString D x = true /\ exists chars, GetString D x = Some chars /\ name_node t chars /\
  (forall units, is_ascii t = true -> string_value t = Some units -> paired units = true ->
     locale_utf_to_utf D chars = Some units).

Fixpoint node (j : json) (x : V) : Prop :=
  match j with
  | JNull => IsNull D x = true
  | JBool b => IsBool D x = true /\ GetBool D x = Some b /\ IsTrue D x = b
  | JNumber t => number_node t x
  | JString t => string_node t x
  | JArray js => IsArray D x = true /\ Forall2 (fun p y => p y) (node <$> js) (Elements D x)
  | JObject ms => IsObject D x = true /\
      Forall2 (fun p m => p m)
        ((fun m y => name_node (fst m) (fst y) /\ node (snd m) (snd y)) <$> ms) (Members D x)
  end.
End Node.

(** * The objects that can be read *)

Section Objects.
Context (rj : rapidjson) (exact : Z -> Prop) (lexical : list Z -> option Z) (all_fields : bool).

(** The fields of a hierarchy, the bases' first. *)
Fixpoint type_fields (t : ftype) : list (Z * Metadata * ftype) :=
  match t with
  | FStruct bt fs => match bt with Some b => type_fields b | None => [] end ++ fs
  | _ => []
  end.
Fixpoint value_fields (v : value) : list (Z * Metadata * value) :=
  match v with
  | VStruct b fs => match b with Some b => value_fields b | None => [] end ++ fs
  | _ => []
  end.

(** A member with the name of [g] is taken for the field [f]. *)
Definition answers (f g : Z * Metadata) : Prop :=
  c_str (FieldName (snd g)) = c_str (FieldName (snd f)) \/
  lexical (c_str (FieldName (snd g))) = Some (fst f).
Fixpoint apart (fs : list (Z * Metadata)) : Prop :=
  match fs with
  | [] => True
  | f :: fs' => Forall (fun g => ~ answers f g /\ ~ answers g f) fs' /\ apart fs'
  end.
Definition names_apart (t : ftype) : Prop :=
  apart (fst <$> type_fields t) /\
  Forall (fun f => Forall (fits 8) (FieldName (snd (fst f)))) (type_fields t).
Fixpoint names_ok (t : ftype) : Prop :=
  match t with
  | FBasic _ => True
  | FStruct bt fs =>
      names_apart t /\ match bt with Some b => names_ok b | None => True end /\
      all ((fun f => names_ok (snd f)) <$> fs)
  | FList _ e => names_ok e
  | FMap _ vt => names_ok vt
  end.

(** Floating point values the library reads back, wide strings that are UTF-16. *)
Definition scalar_legible (s : scalar) : Prop :=
  match s with
  | SFloat bits => float_nan bits = false /\ exact (float_to_double bits)
  | SDouble bits => exact bits
  | SWString units => paired units = true
  | _ => True
  end.
Fixpoint legible (v : value) : Prop :=
  match v with
  | VBasic s => scalar_legible s
  | VStruct b fs =>
      match b with Some b => legible b | None => True end /\
      all ((fun f => written all_fields f = true -> legible (snd f)) <$> fs)
  | VList _ _ items => all (legible <$> items)
  | VMap _ _ items => all ((fun kv => legible (fst kv) /\ legible (snd kv)) <$> items)
  end.

(** JSON leaves fields out as a wire format that may omit defaults does. *)
Definition json_rules : wire_format := {|
  wf_scalar _ := []; wf_field _ _ := []; wf_stop _ := []; wf_list _ _ := []; wf_map _ _ := [];
  wf_prefix _ := []; wf_counted := false; wf_may_omit := negb all_fields
|}.

Lemma written_omitted f : written all_fields f = negb (omitted json_rules f).
Proof. unfold written, omitted, omit_field, json_rules. cbn. by destruct all_fields. Qed.
End Objects.

(** * Reading *)

Lemma unicode_ascii c : is_ascii (unicode c) = true.
Proof.
  unfold unicode, is_ascii. cbn [fmap list_fmap app forallb].
  assert (H : forall n, (b2z (z2b (HexDigit_of_int n)) <? 128) = true).
  { intros n. unfold HexDigit_of_int. cbv zeta. change 15 with (Z.ones 4). rewrite Z.land_ones by lia.
    pose proof (Z.mod_pos_bound n (2 ^ 4) ltac:(lia)) as Hd. revert Hd. generalize (n mod 2 ^ 4).
    intros d Hd. apply Z.ltb_lt. destruct (d <? 10) eqn:E; rewrite b2z_z2b_small; lia. }
  by rewrite !H.
Qed.

Lemma wide_chars_ascii units : Forall (fits 16) units -> is_ascii (wide_chars units) = true.
Proof.
  unfold is_ascii. induction 1 as [|c units [Hc _] _ IH]; [done|].
  unfold wide_chars. cbn [fmap list_fmap concat]. fold (wide_chars units). rewrite forallb_app, IH, andb_true_r.
  destruct (wide_char_cases c Hc) as [(b & -> & Hb)|[(-> & H1 & _)| -> ]]; [| |apply unicode_ascii].
  - repeat (apply elem_of_cons in Hb as [[= -> ->]|Hb]; [done|]). by apply elem_of_nil in Hb.
  - cbn [forallb]. rewrite b2z_z2b_small by lia. rewrite andb_true_r. apply Z.ltb_lt. lia.
Qed.

Section Correct.
Context {R V : Type} `{InputStream R} (D : dom_library R V) (vector_bool : bool).
Context (rj : rapidjson) (exact : Z -> Prop) (all_fields : bool).
#[local] Abbreviation J := (SimpleJsonReader (R := R) (V := V)).
#[local] Abbreviation nodev := (node D rj exact).
#[local] Abbreviation tree := (json_of rj all_fields).
#[local] Abbreviation F := (json_rules all_fields).
#[local] Abbreviation exact_type := (fun t => JsonTypeMatching_new t t false).

(** ** Basic values *)

Lemma scalar_read s x : scalar_ok s -> scalar_legible exact s ->
  nodev (scalar_json rj s) x ->
  (forall r : J, detail_Read D x (btype_of s) r = (Ok s, r)) /\
  BasicTypeMatch D (exact_type (get_type_id (btype_of s))) x = true.
Proof.
  unfold BasicTypeMatch.
  destruct s as [b|w z|w z|bits|bits|units|units]; cbn [scalar_ok scalar_legible scalar_json node
    btype_of detail_Read]; intros Hs Hl Hn.
  - destruct Hn as (-> & -> & _). split; [done|]. cbn. by rewrite !orb_true_r.
  - destruct Hn as (_ & _ & Hn & _).
    assert (H64 : fits 64 z) by (destruct w; unfold fits in *; cbn [bits_of] in *; lia).
    destruct (Hn z H64 eq_refl) as (_ & _ & H3 & H4). destruct (H4 H64) as [E1 E2]. rewrite E2. split.
    + intros r. cbn [of_option]. rewrite bind_ret. by rewrite wrap_id.
    + destruct w; try (rewrite H3 by (unfold fits in *; cbn [bits_of] in *; lia)); rewrite ?E1;
        cbn; by rewrite ?orb_true_r.
  - destruct Hn as (_ & Hn & _ & _).
    assert (H64 : sfits 64 z) by (destruct w; unfold sfits in *; cbn [bits_of] in *; lia).
    destruct (Hn z H64 eq_refl) as (H1 & H2 & _ & _). destruct (H2 H64) as [E1 E2]. rewrite E2. split.
    + intros r. cbn [of_option]. rewrite bind_ret. by rewrite to_signed_id by (by destruct w).
    + destruct w; try (rewrite (proj1 (H1 ltac:(unfold sfits in *; cbn [bits_of] in *; lia))));
        rewrite ?E1; cbn; by rewrite ?orb_true_r.
  - destruct Hn as (E & _ & _ & Hn). destruct Hl as [Hl He]. rewrite (Hn _ He eq_refl).
    split; [intros r; cbn [of_option]; rewrite bind_ret; by rewrite narrow_widen|]. rewrite E. cbn.
    by rewrite ?orb_true_r.
  - destruct Hn as (E & _ & _ & Hn). rewrite (Hn _ Hl eq_refl). split; [done|]. rewrite E. cbn.
    by rewrite ?orb_true_r.
  - destruct Hn as (E & chars & E2 & Hn & _). destruct Hs as [Hs _].
    rewrite E2, (Hn units Hs eq_refl). split; [done|]. rewrite E. done.
  - destruct Hn as (E & chars & E2 & _ & Hn). destruct Hs as [Hs _].
    rewrite E2. split; [|by rewrite E]. intros r. cbn [of_option]. rewrite bind_ret. unfold utf_to_utf.
    by rewrite (Hn units); [|apply wide_chars_ascii|apply wide_chars_value|].
Qed.

(** ** Finding members *)

#[local] Abbreviation field := (Z * Metadata * value)%type.
#[local] Abbreviation answersv := (answers (lexical_uint16 D)).
#[local] Abbreviation writtenv := (fun f : field => written all_fields f = true).

Definition member_node (f : field) (m : list Z * V) : Prop :=
  name_node rj (name_of rj f) (fst m) /\ nodev (tree (snd f)) (snd m).

Lemma tree_members v : members_of (tree v) =
  (fun f => (name_of rj f, tree (snd f))) <$> filter writtenv (value_fields v).
Proof.
  induction v as [s|b fs Hb _|k t items _|kt vt items _] using value_ind_nested; try done.
  - by destruct s as [|w z|w z| | | |].
  - cbn [json_of members_of value_fields]. rewrite list.filter_app, fmap_app. f_equal.
    + destruct b as [b|]; [by apply Hb|done].
    + clear Hb. induction fs as [|f fs IH]; [done|]. rewrite fmap_cons, filter_cons. cbn [concat].
      rewrite IH. destruct (written all_fields f) eqn:E; [by rewrite decide_True|].
      by rewrite decide_False.
Qed.

Lemma members_node v x : type_of v = BT_STRUCT -> nodev (tree v) x ->
  IsObject D x = true /\ Forall2 member_node (filter writtenv (value_fields v)) (Members D x).
Proof.
  intros Ht Hn. pose proof (tree_members v) as Hm.
  destruct v as [s|b fs|[] ? ?|]; try done; [by destruct s as [|[]|[]| | | |]|].
  cbn [json_of members_of] in Hm, Hn. rewrite Hm in Hn. destruct Hn as [Ho Hn]. split; [done|].
  rewrite <-list_fmap_compose in Hn. by apply Forall2_fmap_l in Hn.
Qed.

Definition bytes_name (f : field) : Prop := Forall (fits 8) (FieldName (snd (fst f))).

Lemma member_step id name m f y ms : member_node f y -> bytes_name f ->
  find_member D id name m (y :: ms) =
  if TypeMatch D m (snd y) && (bool_decide (c_str (FieldName (snd (fst f))) = c_str name) ||
     bool_decide (lexical_uint16 D (c_str (FieldName (snd (fst f)))) = Some id))
  then Some (snd y) else find_member D id name m ms.
Proof.
  intros [Hn _] Hb. destruct y as [member y]. cbn [find_member snd fst] in *.
  by rewrite (Hn (FieldName (snd (fst f))) Hb eq_refl).
Qed.

Lemma member_passed (f : Z * Metadata) m g y ms : member_node g y -> bytes_name g ->
  ~ answersv f (fst g) ->
  find_member D (fst f) (FieldName (snd f)) m (y :: ms) =
  find_member D (fst f) (FieldName (snd f)) m ms.
Proof.
  intros Hg Hb Hf. rewrite (member_step _ _ _ g) by done. unfold answers in Hf.
  rewrite !bool_decide_eq_false_2 by tauto. by rewrite andb_false_r.
Qed.

Lemma members_passed (f : Z * Metadata) m gs ms ms' : Forall2 member_node (filter writtenv gs) ms ->
  Forall bytes_name gs -> Forall (fun g => ~ answersv f (fst g)) gs ->
  find_member D (fst f) (FieldName (snd f)) m (ms ++ ms') =
  find_member D (fst f) (FieldName (snd f)) m ms'.
Proof.
  intros Hn Hb Hf. revert ms Hn. induction Hb as [|g gs Hg _ IH]; intros ms Hn.
  - by inversion Hn.
  - apply Forall_cons_1 in Hf as [Hf Hfs]. rewrite filter_cons in Hn.
    case_decide as Hw; [|by apply IH]. inversion Hn as [|? y ? ys Hy Hys]; subst. cbn [app].
    rewrite (member_passed _ _ g) by done. by apply IH.
Qed.

(** The member that is found for a field: its own. *)
Definition found (x : V) (f : Z * Metadata * ftype) (g : field) : Prop :=
  match find_member D (fst (fst f)) (FieldName (snd (fst f))) (exact_type (field_type_id (snd f)))
          (if IsObject D x then Members D x else []) with
  | Some y => written all_fields g = true /\ nodev (tree (snd g)) y
  | None => written all_fields g = false
  end.

Lemma apart_split (fs : list (Z * Metadata)) i f : apart (lexical_uint16 D) fs -> fs !! i = Some f ->
  Forall (fun g => ~ answersv f g) (take i fs) /\ Forall (fun g => ~ answersv f g) (drop (S i) fs).
Proof.
  revert i. induction fs as [|g fs IH]; intros i Ha Hi; [done|]. destruct Ha as [Hg Ha].
  destruct i as [|i]; cbn [take drop].
  - simplify_eq/=. split; [constructor|]. eapply Forall_impl; [|exact Hg]. by intros h [? _].
  - cbn in Hi. destruct (IH i Ha Hi) as [H1 H2]. split; [|done]. constructor; [|done].
    rewrite Forall_forall in Hg. apply (Hg f), list_elem_of_In. by eapply list_elem_of_lookup_2.
Qed.

Lemma own_member x gs ms i (f : Z * Metadata * ftype) g :
  IsObject D x = true -> Members D x = ms -> Forall2 member_node (filter writtenv gs) ms ->
  Forall bytes_name gs -> apart (lexical_uint16 D) (fst <$> gs) -> gs !! i = Some g ->
  fst g = fst f ->
  (written all_fields g = true -> forall y, nodev (tree (snd g)) y ->
    TypeMatch D (exact_type (field_type_id (snd f))) y = true) ->
  found x f g.
Proof.
  intros Ho Em Hn Hb Ha Hi Ef Ht. unfold found. rewrite Ho, Em. clear Em.
  destruct (apart_split (fst <$> gs) i (fst g) Ha) as [H1 H2]; [by rewrite list_lookup_fmap, Hi|].
  rewrite <-fmap_take, Forall_fmap in H1. rewrite <-fmap_drop, Forall_fmap in H2. cbn in H1, H2.
  pose proof (take_drop_middle gs i g Hi) as Es. rewrite <-Es in Hn, Hb.
  rewrite list.filter_app in Hn. apply Forall2_app_inv_l in Hn as (ms1 & ms2 & Hn1 & Hn2 & ->).
  apply Forall_app in Hb as [Hb1 Hb2]. apply Forall_cons_1 in Hb2 as [Hbg Hb2]. rewrite <-Ef.
  rewrite (members_passed _ _ _ _ _ Hn1 Hb1 H1). rewrite filter_cons in Hn2. case_decide as Hw.
  - inversion Hn2 as [|? y ? ys Hy Hys]; subst. rewrite (member_step _ _ _ g) by done.
    rewrite (Ht Hw _ (proj2 Hy)). rewrite bool_decide_eq_true_2 by done. cbn [orb andb].
    split; [done|]. apply Hy.
  - rewrite <-(app_nil_r ms2). rewrite (members_passed _ _ _ _ _ Hn2 Hb2 H2). cbn [find_member].
    by apply not_true_is_false.
Qed.

(** ** Objects and the values of their trees *)

Lemma all_omitted f : written all_fields f = false <-> omitted F f = true.
Proof. rewrite written_omitted. by destruct (omitted F f). Qed.

Definition field_fits (f : Z * Metadata * ftype) (g : field) : Prop :=
  fst g = fst f /\ conforms F (snd f) (snd g) /\ value_ok (snd g) /\
  (written all_fields g = true -> legible exact all_fields (snd g)) /\
  (written all_fields g = false ->
     snd g = default_member (snd (fst f)) (snd f) /\ is_required (snd (fst f)) = false).

Lemma own_fields_fit fs gs : fields_conform F ((fun f => (f, conforms F (snd f))) <$> fs) gs ->
  all ((fun g => fits 16 (fst (fst g)) /\ value_ok (snd g)) <$> gs) ->
  all ((fun g => written all_fields g = true -> legible exact all_fields (snd g)) <$> gs) ->
  Forall2 field_fits fs gs.
Proof.
  intros Hc Hv%all_Forall Hl%all_Forall. revert gs Hc Hv Hl.
  induction fs as [|f fs IH]; intros [|g gs] Hc Hv Hl; try done.
  rewrite fmap_cons in Hc. destruct Hc as (E & Hc & Ho & Hcs).
  apply Forall_cons_1 in Hv as [[_ Hv] Hvs]. apply Forall_cons_1 in Hl as [Hl Hls].
  constructor; [|by apply IH]. split_and!; try done. intros Hw%all_omitted.
  split; [by apply Ho|]. rewrite <-E. by eapply omitted_optional.
Qed.

Lemma hierarchy_fits t v : conforms F t v -> value_ok v -> legible exact all_fields v ->
  Forall2 field_fits (type_fields t) (value_fields v).
Proof.
  revert v.
  induction t as [b|bt fs Hb _|k e _|kt vt _] using ftype_ind_nested; intros v Hc Hv Hl;
    destruct v as [s|bv vfs| |]; try done.
  destruct Hc as [Hcb Hc], Hv as [Hvb Hv], Hl as [Hlb Hl]. cbn [type_fields value_fields].
  apply Forall2_app; [|by apply own_fields_fit].
  destruct bt as [bt|], bv as [bv|]; try done.
  apply (Hb bt eq_refl); [done|apply Hvb|done].
Qed.

Lemma node_matches t v y : conforms F t v -> value_ok v -> legible exact all_fields v ->
  nodev (tree v) y ->
  match t with
  | FBasic _ => BasicTypeMatch D (exact_type (field_type_id t)) y
  | _ => ComplexTypeMatch D (exact_type (field_type_id t)) y
  end = true.
Proof.
  intros Hc Hv Hl Hn. pose proof (conforms_type _ _ _ Hc) as Ht. unfold ComplexTypeMatch.
  destruct t as [b|bt fs|k e|kt vt], v as [s|bv vfs|k' ? items|? ? items]; try done.
  - cbn [conforms] in Hc. subst b. by apply scalar_read.
  - by rewrite (proj1 (members_node _ _ Ht Hn)).
  - destruct Hn as [-> _]. cbn. destruct k; by rewrite orb_true_r.
  - destruct Hn as [-> _]. cbn. by rewrite orb_true_r.
Qed.

Lemma node_type_match t v y : conforms F t v -> value_ok v -> legible exact all_fields v ->
  nodev (tree v) y -> TypeMatch D (exact_type (field_type_id t)) y = true.
Proof.
  intros Hc Hv Hl Hn. pose proof (node_matches t v y Hc Hv Hl Hn) as Hm. unfold TypeMatch.
  destruct t; rewrite Hm; [apply orb_true_r|done..].
Qed.

(** What the parser needs of the value [x] it reads an object from. *)
Definition offers (t : ftype) (v : value) (x : V) : Prop :=
  match t with
  | FStruct _ _ => Forall2 (found x) (type_fields t) (value_fields v)
  | _ => nodev (tree v) x
  end.

Lemma node_offers t v x : names_ok (lexical_uint16 D) t -> conforms F t v -> value_ok v ->
  legible exact all_fields v -> nodev (tree v) x -> offers t v x.
Proof.
  intros Hnames Hc Hv Hl Hn. destruct t as [b|bt fs|k e|kt vt]; try exact Hn.
  pose proof (hierarchy_fits _ _ Hc Hv Hl) as Hf. cbn [offers].
  destruct (members_node v x (conforms_type _ _ _ Hc) Hn) as [Ho Hm].
  destruct Hnames as ([Ha Hb] & _). remember (FStruct bt fs) as t. clear Heqt.
  assert (Efst : fst <$> value_fields v = fst <$> type_fields t).
  { clear -Hf. induction Hf as [|f g fs gs [E _] _ IH]; [done|]. by rewrite !fmap_cons, E, IH. }
  apply Forall2_same_length_lookup. split; [by apply Forall2_length in Hf|].
  intros i f g Hfi Hgi. rewrite Forall2_lookup in Hf. specialize (Hf i).
  rewrite Hfi, Hgi in Hf. inversion Hf as [? ? (E & Hcg & Hvg & Hlg & _)|]; subst.
  apply (own_member x (value_fields v) (Members D x) i); try done.
  - assert (Hb' : Forall (fun m => Forall (fits 8) (FieldName (snd m))) (fst <$> type_fields t))
      by (rewrite Forall_fmap; exact Hb).
    rewrite <-Efst, Forall_fmap in Hb'. exact Hb'.
  - by rewrite Efst.
  - intros Hw y Hy. eapply node_type_match; [done|done|by apply Hlg|done].
Qed.

(** ** Parsing *)

Definition at_value (r : J) (x : V) : Prop := sj_value r = Document x \/ sj_value r = Nested x.

Lemma at_value_get r x : at_value r x -> GetValue r = (Ok x, r).
Proof. unfold GetValue. rewrite bind_get. by intros [-> | ->]. Qed.

Lemma child_ok {A} y (m : M J A) a r :
  m (mkSJR (Nested y) (sj_stream r)) = (Ok a, mkSJR (Nested y) (sj_stream r)) ->
  with_child y m r = (Ok a, r).
Proof. unfold with_child. intros ->. by destruct r. Qed.

(** A command that leaves the reader as it is, as a reading of nothing. *)
#[local] Instance still (r : J) : Readable J := {| view _ := []; readable s := s = r |}.

Lemma still_reads {A} (m : M J A) a r : m r = (Ok a, r) <-> reads (H := still r) m [] a.
Proof.
  split.
  - intros E s rest Hs Hv. cbn in Hs, Hv. subst. by exists r.
  - intros Hm. destruct (Hm r [] eq_refl eq_refl) as (s & E & _ & Hs). cbn in Hs. by subst.
Qed.

#[local] Abbreviation bound := (bound_field (R := J) * (value -> value -> option value))%type.

Definition dom_field (x : V) (b : bound) (cur : value) (g : field) : Prop :=
  found x (bf_id (fst b), bf_metadata (fst b), bf_type (fst b)) g /\
  (written all_fields g = false -> is_required (bf_metadata (fst b)) = false /\ cur = snd g) /\
  (written all_fields g = true -> forall y s, nodev (tree (snd g)) y ->
     bf_read (fst b) cur (mkSJR (Nested y) s) = (Ok (snd g), mkSJR (Nested y) s)).

Lemma DOMReadFields_reads r x pre rest olds curs gs : at_value r x ->
  increasing (-1) (ids_of (pre ++ rest)) -> length olds = length pre ->
  Forall3 (dom_field x) rest curs gs ->
  DOMReadFields D (fst <$> (pre ++ rest)) (length pre) (fst <$> rest)
    (level_of rest (olds ++ curs)) r =
  (Ok (level_of (R := J) [] (olds ++ (snd <$> gs)), false), r).
Proof.
  intros Hx Hi Hd Hf. revert pre olds Hi Hd.
  induction Hf as [|b cur g rest curs gs (Hb & Hno & Hyes) _ IH]; intros pre olds Hi Hd; [done|].
  rewrite !fmap_cons. cbn [DOMReadFields]. unfold FindField, ObjectMembers. rewrite !bind_assoc.
  rewrite (bind_ok _ _ _ _ _ (at_value_get r x Hx)), bind_ret.
  unfold found in Hb. cbn [fst snd] in Hb. rewrite !bind_ret.
  specialize (IH (pre ++ [b]) (olds ++ [snd g])).
  rewrite <-!app_assoc, !length_app in IH. cbn [app length] in IH. rewrite !Nat.add_1_r in IH.
  specialize (IH Hi ltac:(lia)). destruct (find_member _ _ _ _ _) as [y|].
  - destruct Hb as [Hw Hy]. erewrite bind_ok; [exact IH|]. apply child_ok. apply still_reads.
    apply (To_Field_reads _ _ _ (-1)); [done|lia|done|]. apply still_reads. by apply Hyes.
  - destruct (Hno Hb) as [Hq ->]. rewrite bind_ret.
    replace (level_of (b :: rest) (olds ++ snd g :: curs)) with
      (level_of rest (olds ++ snd g :: curs)); [exact IH|].
    unfold level_of. by rewrite next_required_optional.
Qed.

(** *** Containers *)

(** An object of type [t] in range that the tree of has a value of the library for. *)
Definition fine (t : ftype) (v : value) : Prop :=
  conforms F t v /\ value_ok v /\ legible exact all_fields v.
Definition reads_element (t : ftype) (read : value -> M J value) : Prop := forall v y s,
  fine t v -> nodev (tree v) y ->
  read (default_object t) (mkSJR (Nested y) s) = (Ok v, mkSJR (Nested y) s).

Lemma elements_at r x js : at_value r x -> nodev (JArray js) x ->
  exists ys, Forall2 nodev js ys /\ ArrayElements D r = (Ok ys, r).
Proof.
  intros Hx [Ha Hn]. exists (Elements D x). split; [by apply Forall2_fmap_l in Hn|].
  unfold ArrayElements. rewrite (bind_ok _ _ _ _ _ (at_value_get r x Hx)). by rewrite Ha.
Qed.

Lemma item_trees (items : list value) : concat ((fun x => [tree x]) <$> items) = tree <$> items.
Proof. induction items as [|x items IH]; [done|]. cbn. by rewrite <-IH. Qed.

Lemma read_list_ok t read items ys r : reads_element t read -> Forall (fine t) items ->
  Forall2 nodev (tree <$> items) ys ->
  read_list D (exact_type (field_type_id t)) read
    (replicate (length items) (default_object t)) ys r = (Ok items, r).
Proof.
  intros Hread Hf. revert ys. induction Hf as [|v items Hv _ IH]; intros ys Hn; [done|].
  inversion Hn as [|? y ? ys' Hy Hys]; subst. cbn [length replicate read_list].
  rewrite (bind_ok _ _ _ v r); [by rewrite (bind_ok _ _ _ items r) by by apply IH|].
  pose proof (node_type_match t v y (proj1 Hv) (proj1 (proj2 Hv)) (proj2 (proj2 Hv)) Hy) as Hm.
  unfold TypeMatch in Hm. pose proof (child_ok y _ v r (Hread v y _ Hv Hy)) as Hc.
  destruct (ComplexTypeMatch _ _ _); [exact Hc|]. cbn [orb] in Hm. by rewrite Hm.
Qed.

Lemma list_read t read items r x : reads_element t read -> Forall (fine t) items ->
  at_value r x -> nodev (JArray (tree <$> items)) x ->
  DeserializeList D t read [] r = (Ok items, r).
Proof.
  intros Hread Hf Hx Hn. destruct (elements_at r x _ Hx Hn) as (ys & Hys & E).
  unfold DeserializeList. rewrite (bind_ok _ _ _ _ _ E).
  replace (resize_list _ _ _) with (replicate (length items) (default_object t));
    [by apply read_list_ok|].
  unfold resize_list. rewrite take_nil, Nat.sub_0_r. cbn [app]. f_equal.
  apply Forall2_length in Hys. by rewrite length_fmap in Hys.
Qed.

Lemma vector_bool_read items r x : Forall (fine (FBasic TBool)) items -> at_value r x ->
  nodev (JArray (tree <$> items)) x -> DeserializeVectorBool D r = (Ok items, r).
Proof.
  intros Hf Hx Hn. destruct (elements_at r x _ Hx Hn) as (ys & Hys & E).
  unfold DeserializeVectorBool. rewrite (bind_ok _ _ _ _ _ E). unfold ret. do 2 f_equal. clear -Hf Hys.
  revert ys Hys. induction Hf as [|v items (Hc & _) _ IH]; intros ys Hys.
  { by inversion Hys. }
  inversion Hys as [|? y ? ys' Hy Hys']; subst. rewrite fmap_cons, IH by done. f_equal.
  destruct v as [s| | |]; try done. cbn [conforms] in Hc.
  destruct s; try done. by destruct Hy as (_ & _ & ->).
Qed.

Lemma basic_fine b v : fine (FBasic b) v -> exists s, v = VBasic s /\ btype_of s = b /\
  scalar_ok s /\ scalar_legible exact s.
Proof. intros (Hc & Hv & Hl). destruct v as [s| | |]; try done. by exists s. Qed.

Lemma read_set_ok b acc items ys r : distinct acc items -> Forall (fine (FBasic b)) items ->
  Forall2 nodev (tree <$> items) ys ->
  read_set D (exact_type (get_type_id b)) b acc ys r = (Ok (acc ++ items), r).
Proof.
  intros Hd Hf. revert acc ys Hd. induction Hf as [|v items Hv _ IH]; intros acc ys Hd Hn.
  - inversion Hn; subst. by rewrite app_nil_r.
  - inversion Hn as [|? y ? ys' Hy Hys]; subst. destruct Hd as [Hx Hd].
    destruct (basic_fine b v Hv) as (s & -> & <- & Hs & Hl). cbn [read_set].
    destruct (scalar_read s y Hs Hl Hy) as [E ->]. rewrite (bind_ok _ _ _ _ _ (E r)).
    unfold set_insert. rewrite Hx, (IH (acc ++ [VBasic s])) by done. by rewrite <-app_assoc.
Qed.

Definition pair_fine (kt : btype) (vt : ftype) (kv : value * value) : Prop :=
  fine (FBasic kt) (fst kv) /\ fine vt (snd kv).

Lemma read_map_ok kt vt read acc items ys r : reads_element vt read ->
  distinct (fst <$> acc) (fst <$> items) -> Forall (pair_fine kt vt) items ->
  Forall2 nodev (concat ((fun kv => [tree (fst kv); tree (snd kv)]) <$> items)) ys ->
  read_map D (exact_type (get_type_id kt)) (exact_type (field_type_id vt)) kt read
    (default_object vt) acc ys r = (Ok (acc ++ items), r).
Proof.
  intros Hread Hd Hf. revert acc ys Hd.
  induction Hf as [|[k v] items [Hk Hv] _ IH]; intros acc ys Hd Hn.
  - inversion Hn; subst. by rewrite app_nil_r.
  - rewrite fmap_cons in Hd. destruct Hd as [Hx Hd]. cbn [fst snd fmap list_fmap concat app] in *.
    inversion Hn as [|? y ? ys' Hy Hys]; subst. inversion Hys as [|? z ? ys'' Hz Hzs]; subst.
    destruct (basic_fine kt k Hk) as (s & -> & <- & Hs & Hl). cbn [read_map].
    destruct (scalar_read s y Hs Hl Hy) as [E ->]. rewrite (bind_ok _ _ _ _ _ (E r)).
    destruct (fresh_key acc s (default_object vt) Hx) as [-> Hset].
    pose proof (child_ok z _ v r (Hread v z _ Hv Hz)) as Hc.
    rewrite (bind_ok _ _ _ v r) by (by destruct (ComplexTypeMatch _ _ _)).
    rewrite Hset, (IH (acc ++ [(VBasic s, v)])).
    + by rewrite <-app_assoc.
    + by rewrite fmap_app.
    + done.
Qed.

(** *** Objects *)

#[local] Abbreviation parse := (DOMParse D vector_bool).
#[local] Abbreviation names_okv := (names_ok (lexical_uint16 D)).

(** The reader is at [x] when the reading of an object of type [t] has begun. *)
Definition enters (base : bool) (t : ftype) (r r' : J) (x : V) : Prop :=
  at_value r' x /\
  match t with
  | FStruct _ _ => (if base then ret tt else ParseDocument D) r = (Ok tt, r')
  | _ => r = r'
  end.

Definition dom_parses (t : ftype) : Prop := forall base v var r r' x,
  type_ok t -> names_okv t -> fine t v -> enters base t r r' x -> offers t v x ->
  (var = default_object t \/ exists b, t = FBasic b) ->
  parse base t var r = (Ok (v, false), r').

Lemma enters_nested t y s : enters false t (mkSJR (Nested y) s) (mkSJR (Nested y) s) y.
Proof. split; [by right|]. by destruct t. Qed.

Lemma parses_element t var v y s : dom_parses t -> type_ok t -> names_okv t -> fine t v ->
  (var = default_object t \/ exists b, t = FBasic b) -> nodev (tree v) y ->
  (let! r := parse false t var in ret (fst r)) (mkSJR (Nested y) s) =
  (Ok v, mkSJR (Nested y) s).
Proof.
  intros Hp Ht Hn Hv Hvar Hy. rewrite (bind_ok _ _ _ (v, false) (mkSJR (Nested y) s)); [done|].
  apply (Hp false v var _ _ y); try done; [apply enters_nested|].
  destruct Hv as (Hc & Hv & Hl). by apply node_offers.
Qed.

Definition dom_bounds (fs : list (Z * Metadata * ftype)) : list bound :=
  (fun f => (mkBF (fst (fst f)) (snd (fst f)) (snd f)
    (fun x => let! r := parse false (snd f) x in ret (fst r)), fun _ _ => None)) <$> fs.

Lemma dom_bounds_fields fs : fst <$> dom_bounds fs = (fun f => mkBF (fst (fst f)) (snd (fst f)) (snd f)
  (fun x => let! r := parse false (snd f) x in ret (fst r))) <$> fs.
Proof. unfold dom_bounds. by rewrite <-list_fmap_compose. Qed.

Lemma dom_bounds_ids fs : ids_of (dom_bounds fs) = (fun f => fst (fst f)) <$> fs.
Proof. unfold ids_of, dom_bounds. by rewrite <-list_fmap_compose. Qed.

(** The members of a new object. *)
Lemma dom_members x fs gs : Forall (fun f => dom_parses (snd f)) fs ->
  Forall (fun f => type_ok (snd f)) fs -> Forall (fun f => names_okv (snd f)) fs ->
  Forall2 field_fits fs gs -> Forall2 (found x) fs gs ->
  Forall3 (dom_field x) (dom_bounds fs) ((fun f => default_member (snd (fst f)) (snd f)) <$> fs) gs /\
  zip (fst <$> fs) (snd <$> gs) = gs.
Proof.
  intros Hp Ht Hn Hf. revert Hp Ht Hn.
  induction Hf as [|f g fs gs (E & Hc & Hv & Hl & Hd) _ IH]; intros Hp Ht Hn Hfs.
  { split; [constructor|done]. }
  apply Forall_cons_1 in Hp as [Hp Hps]. apply Forall_cons_1 in Ht as [Ht Hts].
  apply Forall_cons_1 in Hn as [Hn Hns]. inversion Hfs as [|? ? ? ? Hfound Hfs']; subst.
  destruct (IH Hps Hts Hns Hfs') as [IH1 IH2]. split.
  - unfold dom_bounds. rewrite !fmap_cons. constructor; [|exact IH1].
    destruct f as [[id m] t]. split_and!; [done|by intros [-> ?]%Hd|].
    intros Hw y s Hy. cbn [fst snd bf_read] in *. apply parses_element; try done.
    + split_and!; [done|done|by apply Hl].
    + destruct t; [right; by eexists|by left..].
  - rewrite !fmap_cons. cbn [zip zip_with] in *. unfold zip in *. rewrite IH2.
    by rewrite <-E, <-surjective_pairing.
Qed.

Lemma dom_struct bt fs : (forall b, bt = Some b -> dom_parses b) ->
  Forall (fun f => dom_parses (snd f)) fs -> dom_parses (FStruct bt fs).
Proof.
  intros Hb Hf base v var r r' x (Hbok & Hinc & Htf) (_ & Hnb & Hnf) Hv [Hx He] Ho Hvar.
  apply all_Forall in Htf, Hnf. destruct Hvar as [->|[b Hx']]; [|discriminate Hx'].
  destruct Hv as (Hc & Hv & Hl). pose proof (hierarchy_fits _ _ Hc Hv Hl) as Hfit.
  destruct v as [|bv vfs| |]; try done. destruct Hc as [Hcb Hcf], Hv as (Hvb & Hvf), Hl as (Hlb & Hlf).
  cbn [offers type_fields value_fields] in Ho, Hfit.
  pose proof (own_fields_fit fs vfs Hcf Hvf Hlf) as Hown.
  apply Forall2_app_inv_r in Hfit as (l1 & l2 & Hfit1 & Hfit2 & E).
  apply app_inj_2 in E as [<- <-];
    [|apply Forall2_length in Hown, Hfit2; lia]. apply Forall2_length in Hfit1.
  apply Forall2_app_inv in Ho as [Ho1 Ho2]; [|done].
  destruct (dom_members x fs vfs Hf Htf Hnf Hown Ho2) as [Hm Hz].
  cbn [DOMParse default_object]. rewrite (bind_ok _ _ _ _ _ He).
  rewrite (bind_ok _ _ _ bv r').
  2: { destruct bt as [bt|], bv as [bv|]; try done.
    destruct Hbok as [Hbs Hbok], Hvb as [_ Hvb].
    rewrite (bind_ok _ _ _ (bv, false) r'); [done|].
    apply (Hb bt eq_refl true bv _ _ r' x); [done..| | |by left].
    - split; [done|]. by destruct bt as [[|[]|[]| | | |]| |[]|].
    - by destruct bt as [[|[]|[]| | | |]| |[]|]. }
  cbv zeta. rewrite <-dom_bounds_fields, <-list_fmap_compose.
  pose proof (DOMReadFields_reads r' x [] (dom_bounds fs) []
    ((fun f => default_member (snd (fst f)) (snd f)) <$> fs) vfs Hx) as Hr.
  cbn [app length] in Hr. rewrite dom_bounds_ids in Hr. specialize (Hr Hinc eq_refl Hm).
  erewrite bind_ok; [|erewrite <-Hr; do 2 f_equal].
  cbn [fst snd level_of to_vars]. unfold To_End, level_of. cbn [to_required fmap list_fmap
      next_required_field]. rewrite Z.eqb_refl. cbn [negb]. rewrite andb_false_r, bind_ret.
    by rewrite Hz.
Qed.

Lemma items_fine e items t : all (conforms F e <$> items) ->
  all ((fun x => type_of x = t /\ value_ok x) <$> items) ->
  all (legible exact all_fields <$> items) -> Forall (fine e) items.
Proof.
  intros Hc%all_Forall Hv%all_Forall Hl%all_Forall. rewrite Forall_forall in *.
  intros x Hx. split_and!; [by apply Hc|by apply Hv|by apply Hl].
Qed.

Lemma pairs_fine kt vt items t t' :
  all ((fun kv => match fst kv with VBasic s => btype_of s = kt | _ => False end /\
    conforms F vt (snd kv)) <$> items) ->
  all ((fun kv => (type_of (fst kv) = t /\ value_ok (fst kv)) /\
    (type_of (snd kv) = t' /\ value_ok (snd kv))) <$> items) ->
  all ((fun kv => legible exact all_fields (fst kv) /\ legible exact all_fields (snd kv)) <$> items) ->
  Forall (pair_fine kt vt) items.
Proof.
  intros Hc%all_Forall Hv%all_Forall Hl%all_Forall. rewrite Forall_forall in *.
  intros kv Hkv. destruct (Hc kv Hkv) as [? ?], (Hv kv Hkv) as [[_ ?] [_ ?]], (Hl kv Hkv) as [? ?].
  split; by split_and!.
Qed.

Lemma list_parses e k items r x : dom_parses e -> type_ok (FList k e) -> names_okv e ->
  fine (FList k e) (VList k (field_type_id e) items) -> at_value r x ->
  nodev (JArray (tree <$> items)) x ->
  parse false (FList k e) (VList k (field_type_id e) []) r =
    (Ok (VList k (field_type_id e) items, false), r).
Proof.
  intros Hp [Hset Ht] Hn (Hc & Hv & Hl) Hx Hnode. destruct Hc as (_ & _ & Hall & Hd).
  destruct Hv as (_ & _ & Hvs). pose proof (items_fine e items _ Hall Hvs Hl) as Hf.
  cbn [DOMParse]. rewrite (bind_ok _ _ _ items r); [done|].
  destruct k.
  - destruct (Hset eq_refl) as [b ->]. destruct (elements_at r x _ Hx Hnode) as (ys & Hys & E).
    unfold DeserializeSet. rewrite (bind_ok _ _ _ _ _ E).
    by rewrite (read_set_ok b [] items ys r (Hd eq_refl) Hf Hys).
  - destruct (vector_bool && _) eqn:Eb.
    + apply andb_true_iff in Eb as [_ Eb%Z.eqb_eq].
      assert (e = FBasic TBool) as -> by by destruct e as [[|[]|[]| | | |]| |[]|].
      by apply (vector_bool_read items r x).
    + apply (list_read e _ items r x); [|done..]. intros v y s Hv Hy.
      by apply parses_element; [..|left|].
Qed.

Lemma map_parses kt vt items r x : dom_parses vt -> type_ok vt -> names_okv vt ->
  fine (FMap kt vt) (VMap (get_type_id kt) (field_type_id vt) items) -> at_value r x ->
  nodev (tree (VMap (get_type_id kt) (field_type_id vt) items)) x ->
  parse false (FMap kt vt) (VMap (get_type_id kt) (field_type_id vt) []) r =
    (Ok (VMap (get_type_id kt) (field_type_id vt) items, false), r).
Proof.
  intros Hp Ht Hn (Hc & Hv & Hl) Hx Hnode. destruct Hc as (_ & _ & Hd & Hall).
  destruct Hv as (_ & _ & _ & Hvs). pose proof (pairs_fine kt vt items _ _ Hall Hvs Hl) as Hf.
  cbn [DOMParse]. rewrite (bind_ok _ _ _ items r); [done|].
  destruct (elements_at r x _ Hx Hnode) as (ys & Hys & E). unfold DeserializeMap.
  rewrite (bind_ok _ _ _ _ _ E). apply (read_map_ok kt vt _ [] items ys r); [|done..].
  intros v y s Hv Hy. by apply parses_element; [..|left|].
Qed.

Lemma DOMParse_reads t : dom_parses t.
Proof.
  induction t as [b|bt fs Hb Hf|k e IH|kt vt IH] using ftype_ind_nested.
  - intros base v var r r' x _ _ Hv [Hx ->] Ho _. destruct (basic_fine b v Hv) as (s & -> & <- & Hs & Hl).
    cbn [DOMParse]. destruct (scalar_read s x Hs Hl Ho) as [E _].
    rewrite (bind_ok _ _ _ s r'); [done|]. unfold sj_Read.
    by rewrite (bind_ok _ _ _ _ _ (at_value_get r' x Hx)).
  - by apply dom_struct.
  - intros base v var r r' x Ht Hn Hv [Hx ->] Ho [->|[b Hb]]; [|discriminate Hb].
    destruct v as [| |k' et items|]; try (by destruct Hv). destruct (proj1 Hv) as (-> & -> & _).
    cbn [default_object offers json_of] in *. rewrite item_trees in Ho.
    by apply (list_parses e k items r' x).
  - intros base v var r r' x Ht Hn Hv [Hx ->] Ho [->|[b Hb]]; [|discriminate Hb].
    destruct v as [| | |k' v' items]; try (by destruct Hv). destruct (proj1 Hv) as (-> & -> & _).
    by apply (map_parses kt vt items r' x).
Qed.
End Correct.
