(* ===== verification/StaticRoundTrip.v ===== *)
(** Deserialization with the untagged protocol.

    A Simple Binary payload holds the values of all fields in schema order and
    nothing else.  [StaticParser] reads it with the schema it was written with; the
    object read is the object written. *)

From S2P Require Import Prelude Streams Encoding InputBuffer DataType Metadata Protocol.
From S2P Require Import Serializer SimpleBinary Schema Parser ParserCorrect Deserialization.

(** [SimpleBinaryReader]: the container headers hold no types, those of the caller are
    left as they are; structs have no headers, and fields have none the static parser
    could ask for. *)
Definition SimpleBinaryReader {R} `{InputStream R} (version : Z) : ProtocolReader R := {|
  uses_static_parser := true;
  ReadStructBegin _ := ret tt;
  ReadStructEnd _ := ret tt;
  ReadFieldBegin := fail Undefined;
  ReadFieldEnd := ret tt;
  ReadContainerBegin t := let! n := sb_ReadContainerBegin version in ret (n, t);
  ReadMapBegin t := let! n := sb_ReadContainerBegin version in ret (n, t);
  ReadContainerEnd := sb_ReadContainerEnd;
  Read := sb_Read version;
  Skip := sb_Skip version
|}.

Record static_laws {R} `{Readable R} (P : ProtocolReader R) (F : wire_format) : Prop := mkSL {
  sl_static : uses_static_parser P = true;
  sl_begin base : reads (ReadStructBegin P base) [] tt;
  sl_end base : reads (ReadStructEnd P base) [] tt;
  sl_bare : (forall t id, wf_field F t id = []) /\ (forall b, wf_stop F b = []) /\
    (forall n, wf_prefix F n = []) /\ wf_may_omit F = false;
  sl_list n t : fits 32 n -> reads (ReadContainerBegin P t) (wf_list F n t) (n, t);
  sl_map n t : fits 32 n -> reads (ReadMapBegin P t) (wf_map F n t) (n, t);
  sl_container_end : reads (ReadContainerEnd P) [] tt;
  sl_read s : scalar_ok s -> reads (Read P (btype_of s)) (wf_scalar F s) s
}.

Section Static.
Context {R : Type} `{Readable R} (P : ProtocolReader R) (F : wire_format).
Context (laws : static_laws P F).

Lemma never_omitted f : omitted F f = false.
Proof. unfold omitted. by destruct (sl_bare _ _ laws) as (_ & _ & _ & ->). Qed.

Lemma bare_fields vfs : fields_bytes F vfs = concat ((fun f => encode F false (snd f)) <$> vfs).
Proof.
  unfold fields_bytes. f_equal. apply list_fmap_ext. intros _ f _. unfold field_bytes.
  rewrite never_omitted. by destruct (sl_bare _ _ laws) as (-> & _).
Qed.

Lemma bare_struct base b vfs : encode F base (VStruct b vfs) =
  match b with None => [] | Some bv => encode F true bv end ++
  concat ((fun f => encode F false (snd f)) <$> vfs).
Proof.
  rewrite encode_struct. unfold body_of. rewrite bare_fields.
  destruct (sl_bare _ _ laws) as (_ & Hs & Hp & _). rewrite !Hs, Hp, !app_nil_r. by destruct base.
Qed.

(** ** Values *)

Lemma basic_reads s : scalar_ok s ->
  reads (DeserializeBasic P (btype_of s) (btype_of s)) (wf_scalar F s) (VBasic s).
Proof.
  intros Hs. pose proof (reads_map _ (fun d => VBasic (set_as (btype_of s) d)) _ _
    (sl_read _ _ laws s Hs)) as Hr. cbv beta in Hr.
  by rewrite set_as_self in Hr.
Qed.

Lemma key_reads b : exists key, key_reader P b (get_type_id b) = Some key /\
  forall s, scalar_ok s -> btype_of s = b -> reads key (wf_scalar F s) s.
Proof.
  unfold key_reader. rewrite type_id_roundtrip, is_matching_basic_refl.
  eexists. split; [done|]. intros s Hs <-.
  pose proof (reads_map _ (set_as (btype_of s)) _ _ (sl_read _ _ laws s Hs)) as Hr.
  cbv beta in Hr. by rewrite set_as_self in Hr.
Qed.

(** [read] reads any object of type [t] into a new variable. *)
Definition reads_new (t : ftype) (read : value -> M R value) : Prop := forall v,
  conforms F t v -> value_ok v -> zlen (encode F false v) < 2 ^ 32 ->
  reads (read (default_object t)) (encode F false v) v.

Lemma static_element t exact : reads_new t exact ->
  exists read, element_reader P t (field_type_id t) exact = Some read /\ reads_new t read.
Proof.
  intros Hex. destruct t as [b| | |]; cbn [element_reader]; [|by rewrite Z.eqb_refl; eexists..].
  cbn [field_type_id]. rewrite type_id_roundtrip, is_matching_basic_refl. eexists. split; [done|].
  intros v Hc Hv Hl. destruct v as [s| | |]; try done. cbn [conforms] in Hc. subst b.
  by apply basic_reads.
Qed.

(** ** Containers *)

Definition all_fit (e : ftype) (items : list value) : Prop := Forall (fun x =>
  conforms F e x /\ value_ok x /\ zlen (encode F false x) < 2 ^ 32) items.

Lemma new_elements e read items : reads_new e read -> all_fit e items ->
  reads (deserialize_each read (replicate (length items) (default_object e)))
    (concat (encode F false <$> items)) items.
Proof.
  intros Hread. induction 1 as [|x items (Hc & Hv & Hl) _ IH]; [apply reads_ret|].
  rewrite fmap_cons. cbn [length replicate concat deserialize_each].
  eapply reads_bind; [by apply Hread|]. by apply (reads_map _ (cons x)).
Qed.

Lemma new_set b key acc items : distinct acc items -> all_fit (FBasic b) items ->
  (forall s, scalar_ok s -> btype_of s = b -> reads key (wf_scalar F s) s) ->
  reads (insert_each (R := R) key acc (length items)) (concat (encode F false <$> items))
    (acc ++ items).
Proof.
  intros Hd Hf Hkey. revert acc Hd. induction Hf as [|x items (Hc & Hv & _) _ IH]; intros acc Hd.
  - rewrite app_nil_r. apply reads_ret.
  - destruct Hd as [Hx Hd]. destruct x as [s| | |]; try done.
    rewrite fmap_cons. cbn [length concat insert_each encode].
    eapply reads_bind; [by apply Hkey|]. unfold set_insert. rewrite Hx.
    replace (acc ++ VBasic s :: items) with ((acc ++ [VBasic s]) ++ items)
      by by rewrite <-app_assoc.
    by apply IH.
Qed.

Definition pairs_fit (kt : btype) (vt : ftype) (items : list (value * value)) : Prop :=
  Forall (fun kv =>
    (match fst kv with VBasic s => btype_of s = kt /\ scalar_ok s | _ => False end) /\
    conforms F vt (snd kv) /\ value_ok (snd kv) /\ zlen (encode F false (snd kv)) < 2 ^ 32) items.

Lemma new_map kt vt key read acc items :
  distinct (fst <$> acc) (fst <$> items) -> pairs_fit kt vt items -> reads_new vt read ->
  (forall s, scalar_ok s -> btype_of s = kt -> reads key (wf_scalar F s) s) ->
  reads (map_each (R := R) key read (default_object vt) acc (length items))
    (concat ((fun kv => encode F false (fst kv) ++ encode F false (snd kv)) <$> items))
    (acc ++ items).
Proof.
  intros Hd Hf Hread Hkey. revert acc Hd.
  induction Hf as [|[k x] items (Hk & Hc & Hv & Hl) _ IH]; intros acc Hd.
  - rewrite app_nil_r. apply reads_ret.
  - rewrite fmap_cons in Hd. destruct Hd as [Hx Hd]. cbn [fst snd] in *.
    destruct k as [s| | |]; try done. destruct Hk as [Hty Hs].
    rewrite fmap_cons. cbn [length concat map_each fst snd encode]. rewrite <-app_assoc.
    eapply reads_bind; [by apply Hkey|].
    destruct (fresh_key acc s (default_object vt) Hx) as [-> Hset].
    eapply reads_bind; [by apply Hread|]. rewrite Hset.
    replace (acc ++ (VBasic s, x) :: items) with ((acc ++ [(VBasic s, x)]) ++ items)
      by by rewrite <-app_assoc.
    apply IH. by rewrite fmap_app.
Qed.

Lemma new_container is_set e exact k items : reads_new e exact ->
  (is_set = true -> exists b, e = FBasic b) ->
  all_fit e items -> (is_set = true -> distinct [] items) -> zlen items < 2 ^ 32 ->
  reads (DeserializeContainer P is_set e exact [])
    (encode F false (VList k (field_type_id e) items)) items.
Proof.
  intros Hex Hset Hf Hd Hn. unfold DeserializeContainer. cbn [encode].
  eapply reads_bind; [by apply (sl_list _ _ laws), zlen_fits|]. cbn [fst snd].
  rewrite <-(app_nil_r (concat _)). eapply (reads_bind _ _ _ _ items);
    [|by eapply reads_bind_nil; [apply (sl_container_end _ _ laws)|apply reads_ret]].
  destruct is_set.
  - destruct (Hset eq_refl) as [b ->]. unfold DeserializeSet. rewrite Nat2Z.id.
    destruct (key_reads b) as (key & E & Hk). cbn [field_type_id]. rewrite E.
    by apply (new_set b); [apply Hd|..].
  - destruct (static_element e exact Hex) as (read & -> & Hread). unfold DeserializeList.
    rewrite Nat2Z.id. unfold resize_list. rewrite take_nil, Nat.sub_0_r. by apply new_elements.
Qed.

Lemma new_map_object kt vt exact items : reads_new vt exact -> pairs_fit kt vt items ->
  distinct [] (fst <$> items) -> zlen items < 2 ^ 32 ->
  reads (DeserializeMap P kt vt exact [])
    (encode F false (VMap (get_type_id kt) (field_type_id vt) items)) items.
Proof.
  intros Hex Hf Hd Hn. unfold DeserializeMap. cbn [encode].
  eapply reads_bind; [by apply (sl_map _ _ laws), zlen_fits|]. cbn [fst snd].
  rewrite <-(app_nil_r (concat _)). eapply (reads_bind _ _ _ _ items);
    [|by eapply reads_bind_nil; [apply (sl_container_end _ _ laws)|apply reads_ret]].
  destruct (static_element vt exact Hex) as (read & -> & Hread).
  destruct (key_reads kt) as (key & -> & Hk). unfold DeserializeMapElements.
  rewrite Nat2Z.id. by apply (new_map kt vt _ _ []).
Qed.

(** ** Structs *)

Definition static_field (b : bound_field (R := R) * (value -> value -> option value)) (cur : value)
    (vf : Z * Metadata * value) : Prop :=
  reads (bf_read (fst b) cur) (encode F false (snd vf)) (snd vf).

Lemma StaticReadFields_reads pre rest done curs vfs :
  increasing (-1) (ids_of (pre ++ rest)) -> length done = length pre ->
  Forall3 static_field rest curs vfs ->
  reads (StaticReadFields (fst <$> (pre ++ rest)) (length pre) (fst <$> rest)
           (level_of rest (done ++ curs)))
    (concat ((fun f => encode F false (snd f)) <$> vfs))
    (level_of (R := R) [] (done ++ (snd <$> vfs)), false).
Proof.
  intros Hi Hd Hf. revert pre done Hi Hd.
  induction Hf as [|b cur vf rest curs vfs Hb _ IH]; intros pre done Hi Hd; [apply reads_ret|].
  rewrite !fmap_cons. cbn [StaticReadFields concat].
  eapply reads_bind; [by apply (To_Field_reads _ _ _ (-1))|]. cbv beta.
  specialize (IH (pre ++ [b]) (done ++ [snd vf])).
  rewrite <-!app_assoc, !length_app in IH. cbn [app length] in IH. rewrite !Nat.add_1_r in IH.
  apply IH; [done|lia].
Qed.

Definition static_parses (t : ftype) : Prop := forall base v var,
  type_ok t -> conforms F t v -> value_ok v -> zlen (encode F base v) < 2 ^ 32 ->
  (var = default_object t \/ exists b, t = FBasic b) ->
  reads (Parse P base t var) (encode F base v) (v, false).

Lemma parses_new t : static_parses t -> type_ok t ->
  reads_new t (fun x => let! r := Parse P false t x in ret (fst r)).
Proof.
  intros Hp Ht v Hc Hv Hl. apply (reads_map _ fst _ (v, false)). apply Hp; [done..|by left].
Qed.

(** The members of a new object, read one after the other. *)
Lemma new_members fs vfs : Forall (fun f => static_parses (snd f)) fs ->
  Forall (fun f => type_ok (snd f)) fs -> fields_conform F (conform_spec F <$> fs) vfs ->
  Forall (fun f => value_ok (snd f)) vfs ->
  zlen (concat ((fun f => encode F false (snd f)) <$> vfs)) < 2 ^ 32 ->
  Forall3 static_field (bounds P F fs) ((fun f => default_member (snd (fst f)) (snd f)) <$> fs) vfs /\
  zip (fst <$> fs) (snd <$> vfs) = vfs.
Proof.
  intros Hp. revert vfs. induction Hp as [|f fs Hf _ IH]; intros [|vf vfs] Ht Hc Hv Hl; try done.
  { split; [constructor|done]. }
  apply Forall_cons_1 in Ht as [Ht Hts]. apply Forall_cons_1 in Hv as [Hv Hvs].
  rewrite fmap_cons in Hc. destruct Hc as (Hid & Hc & _ & Hcs).
  rewrite fmap_cons in Hl. cbn [concat] in Hl. rewrite length_app in Hl.
  destruct (IH vfs Hts Hcs Hvs) as [IH1 IH2]; [lia|]. split.
  - unfold bounds. rewrite !fmap_cons. constructor; [|exact IH1].
    unfold static_field. cbn [fst snd bf_read]. destruct f as [[id m] t]. cbn [fst snd] in *.
    apply (reads_map _ fst _ (snd vf, false)). apply Hf; [done..|lia|].
    destruct t; [right; by eexists|by left..].
  - rewrite !fmap_cons. cbn [zip zip_with] in *. unfold zip in *. rewrite IH2.
    cbn [fst conform_spec] in Hid. by rewrite <-Hid, <-surjective_pairing.
Qed.

Lemma static_struct bt fs : (forall b, bt = Some b -> static_parses b) ->
  Forall (fun f => static_parses (snd f)) fs -> static_parses (FStruct bt fs).
Proof.
  intros Hb Hf base v var (Hbok & Hinc & Htf) Hc Hv Hl Hvar. apply all_Forall in Htf.
  destruct Hvar as [->|[b Hx]]; [|discriminate Hx]. destruct v as [|bv vfs| |]; try done.
  destruct Hc as [Hcb Hcf]. change (fields_conform F (conform_spec F <$> fs) vfs) in Hcf.
  destruct Hv as (Hvb & Hvf). apply all_Forall in Hvf.
  rewrite bare_struct in *. rewrite length_app in Hl.
  destruct (new_members fs vfs Hf Htf Hcf) as [Hm Hz];
    [eapply Forall_impl; [|exact Hvf]; intros f Hx; apply Hx|lia|].
  cbn [Parse default_object]. eapply reads_bind_nil; [apply (sl_begin _ _ laws)|].
  apply (reads_bind _ _ _ _ bv).
  { destruct bt as [bt|], bv as [bv|]; try done; [|apply reads_ret].
    rewrite <-(app_nil_r (encode _ _ _)).
    eapply reads_bind; [apply (Hb bt eq_refl); [apply Hbok|done|apply Hvb|lia|by left]|].
    cbn [snd fst]. apply reads_ret. }
  cbv zeta. rewrite (sl_static _ _ laws), <-(bounds_fields P F).
  rewrite <-list_fmap_compose. rewrite <-(app_nil_r (concat _)).
  eapply (reads_bind _ _ _ _ (level_of (R := R) [] (snd <$> vfs), false)).
  - pose proof (StaticReadFields_reads [] (bounds P F fs) []
      ((fun f => default_member (snd (fst f)) (snd f)) <$> fs) vfs) as Hs.
    cbn [app length] in Hs. rewrite bounds_ids in Hs.
    replace (_ <$> fs) with ((fun f => default_member (snd (fst f)) (snd f)) <$> fs) at 1;
      [by apply Hs|]. apply list_fmap_ext. intros _ [[id m] t] _. by destruct t.
  - cbn [fst snd level_of to_vars]. eapply (reads_bind_nil _ _ _ tt).
    + unfold To_End, level_of. cbn [to_required fmap list_fmap next_required_field].
      rewrite Z.eqb_refl. cbn [negb]. rewrite andb_false_r. apply reads_ret.
    + rewrite Hz. eapply reads_bind_nil; [apply (sl_end _ _ laws)|apply reads_ret].
Qed.

(** The parts of a container are shorter than the whole. *)
Lemma elements_fit e items n t : all (conforms F e <$> items) ->
  all ((fun x => type_of x = t /\ value_ok x) <$> items) ->
  zlen (concat (encode F false <$> items)) < n -> n <= 2 ^ 32 -> all_fit e items.
Proof.
  intros Hc%all_Forall Hv%all_Forall Hl Hn. unfold all_fit. rewrite Forall_forall in *.
  intros x Hx. pose proof (fields_fit (encode F false) items n x) as Hx'.
  split_and!; [by apply Hc|by apply Hv|]. enough (zlen (encode F false x) < n) by lia.
  apply Hx'; [lia|by apply list_elem_of_In].
Qed.

Lemma Parse_reads_static t : static_parses t.
Proof.
  induction t as [b|bt fs Hb Hf|k e IH|kt vt IH] using ftype_ind_nested.
  - intros base v var _ Hc Hv _ _. destruct v as [s| | |]; try done. cbn [conforms] in Hc. subst b.
    cbn [Parse]. by apply (reads_map _ (fun v => (v, false))), basic_reads.
  - by apply static_struct.
  - intros base v var [Hs Ht] Hc Hv Hl Hvar.
    destruct Hvar as [->|[b Hx]]; [|discriminate Hx]. destruct v as [| |k' et items|]; try done.
    destruct Hc as (-> & -> & Hall & Hd). destruct Hv as (_ & Hn & Hvs).
    cbn [encode] in Hl. rewrite length_app in Hl. cbn [Parse default_object].
    apply (reads_map _ (fun x => (VList k (field_type_id e) x, false))).
    apply (new_container k e _ k); [by apply parses_new|done| |done|done].
    apply (elements_fit e items (2 ^ 32) (field_type_id e)); [done|done|lia|done].
  - intros base v var Ht Hc Hv Hl Hvar.
    destruct Hvar as [->|[b Hx]]; [|discriminate Hx]. destruct v as [| | |k' v' items]; try done.
    destruct Hc as (-> & -> & Hd & Hall). destruct Hv as (_ & _ & Hn & Hvs).
    cbn [encode] in Hl. rewrite length_app in Hl. cbn [Parse default_object].
    apply (reads_map _ (fun x => (VMap (get_type_id kt) (field_type_id vt) x, false))).
    apply new_map_object; [by apply parses_new| |done|done].
    apply all_Forall in Hall, Hvs. unfold pairs_fit. rewrite Forall_forall in *.
    intros kv Hkv. destruct (Hall kv Hkv) as [Hk Hc], (Hvs kv Hkv) as [[_ Hkok] [_ Hvok]].
    split_and!; [by destruct (fst kv)|done|done|].
    apply list_elem_of_In in Hkv.
    pose proof (fields_fit (fun kv => encode F false (fst kv) ++ encode F false (snd kv)) items
      (2 ^ 32) kv ltac:(lia) Hkv) as Hx. cbv beta in Hx. rewrite length_app in Hx. lia.
Qed.

Lemma Deserialize_static t v : type_ok t -> conforms F t v -> value_ok v ->
  zlen (encode F false v) < 2 ^ 32 -> reads (Deserialize P t) (encode F false v) v.
Proof.
  intros Ht Hc Hv Hl. apply (reads_map _ fst _ (v, false)).
  apply Parse_reads_static; [done..|by left].
Qed.
End Static.

(** * The Simple Binary reader *)

Section SimpleBinary.
Context {R : Type} `{InputStreamLaws R} (version : Z).

Lemma sb_static_laws : static_laws (SimpleBinaryReader (R := R) version) (sb_format version).
Proof.
  split; cbn [SimpleBinaryReader uses_static_parser ReadStructBegin ReadStructEnd ReadFieldBegin
    ReadFieldEnd ReadContainerBegin ReadMapBegin ReadContainerEnd Read Skip];
    intros; try apply reads_ret; try done.
  - apply (reads_map _ (fun n => (n, t))). by apply sb_ReadSize_reads.
  - apply (reads_map _ (fun n => (n, t))). by apply sb_ReadSize_reads.
  - by apply sb_Read_reads.
Qed.
End SimpleBinary.

(** * Properties *)

(** The round trip through Simple Binary, versions 1 and 2.  A payload read with
    the schema it was written with gives back the object, though it holds no field
    tag and no type: the parser finds every field by its place. *)
Lemma simple_binary_round_trip {R} `{InputStreamLaws R} version t v (s : R) rest :
  type_ok t -> value_ok v -> conforms (sb_format version) t v ->
  zlen (encode (sb_format version) false v) < 2 ^ 32 ->
  readable s -> view s = encode (sb_format version) false v ++ rest ->
  exists s', Deserialize (SimpleBinaryReader version) t s = (Ok v, s') /\
    view s' = rest /\ readable s'.
Proof.
  intros Ht Hv Hc Hl Hs Hw.
  by apply (Deserialize_static _ _ (sb_static_laws version) t v Ht Hc Hv Hl).
Qed.

