(* ===== verification/SimpleJsonRoundTrip.v ===== *)
(** From an object to JSON text and back.

    The characters a document parser takes from a buffer through
    [RapidJsonInputStream]; what is asked of the parser; the round trip; and a small document
    library that keeps every promise the round trip is proved from. *)

From S2P Require Import Prelude Streams Encoding DataType Metadata Protocol Json.
From S2P Require Import SimpleJson SimpleJsonCorrect Schema Parser SimpleJsonReader.
From S2P Require Import Deserialization SimpleJsonReaderCorrect OutputCounter InputBuffer.
From Stdlib Require Import Strings.Byte.

(** * The stream of characters *)

Section Stream.
Context {R : Type} `{InputStreamLaws R}.

(** The characters not taken yet: one that was looked at, and those of the buffer. *)
#[export] Instance characters : Readable (RapidJsonInputStream R) := {|
  view s := (if rs_current s =? 0 then [] else [z2b (rs_current s)]) ++ view (rs_input s);
  readable s := readable (rs_input s) /\ fits 8 (rs_current s)
|}.

Lemma read_char (input : R) b rest : readable input -> view input = b :: rest ->
  exists input', is_Read 1 input = (Ok (b2z b), input') /\ view input' = rest /\ readable input'.
Proof.
  intros Hr Hv. destruct (is_Read_reads 1 [b] eq_refl ltac:(lia) input rest Hr Hv) as (i & E & Hi).
  exists i. split; [|done]. by rewrite E, <-(Z.add_0_r (b2z b)).
Qed.

Lemma nonzero_char b : b <> x00 -> (b2z b =? 0) = false.
Proof. intros Hb. apply Z.eqb_neq. intros Hz. by destruct b. Qed.

Lemma RapidJsonInputStream_new_ok (input : R) b rest : readable input -> view input = b :: rest ->
  b <> x00 -> exists s, RapidJsonInputStream_new input = Ok s /\ view s = b :: rest /\ readable s.
Proof.
  intros Hr Hv Hb. destruct (read_char input b rest Hr Hv) as (i & E & Hi & Hr').
  exists (mkRJIS i (b2z b) 0). unfold RapidJsonInputStream_new. rewrite E. cbn.
  rewrite nonzero_char by done. rewrite z2b_b2z, Hi. split_and!; [done..|]. apply b2z_range.
Qed.

(** [Take] takes the next character; [Peek] looks at it, when it is not a NUL. *)
Lemma Take_reads b : reads (S := RapidJsonInputStream R) Take [b] (b2z b).
Proof.
  intros [i c n] rest [Hr Hc] Hv. cbn in Hr, Hc, Hv. unfold Take. rewrite bind_gets.
  cbn [rs_current]. unfold set_current. rewrite bind_modify. cbn [rs_input rs_count].
  destruct (c =? 0) eqn:E.
  - destruct (read_char i b rest Hr Hv) as (i' & Ei & Hi & Hr'). unfold on_input.
    erewrite bind_ok by (apply zoom_ok; exact Ei). rewrite bind_modify.
    eexists. split; [done|]. cbn. done.
  - injection Hv as Hb Hv. rewrite bind_ret, bind_modify. subst b.
    eexists. split; [rewrite b2z_z2b_small by exact Hc; done|]. cbn. done.
Qed.

Lemma Peek_reads (s : RapidJsonInputStream R) b rest : readable s -> view s = b :: rest -> b <> x00 ->
  exists s', Peek s = (Ok (b2z b), s') /\ view s' = b :: rest /\ readable s'.
Proof.
  destruct s as [i c n]. intros [Hr Hc] Hv Hb. cbn in Hr, Hc, Hv. unfold Peek. rewrite bind_get.
  cbn [rs_current]. destruct (c =? 0) eqn:E.
  - destruct (read_char i b rest Hr Hv) as (i' & Ei & Hi & Hr'). unfold on_input.
    rewrite bind_assoc. erewrite bind_ok by (apply zoom_ok; exact Ei). unfold set_current.
    rewrite bind_modify. eexists. split; [done|]. cbn. rewrite nonzero_char by done.
    rewrite z2b_b2z, Hi. split_and!; [done..|]. apply b2z_range.
  - injection Hv as Hb' Hv. rewrite bind_ret. subst b. eexists.
    split; [unfold gets; cbn; rewrite b2z_z2b_small by exact Hc; done|].
    cbn. rewrite E. cbn. by rewrite Hv.
Qed.

(** * The round trip *)

Context {V : Type} (D : dom_library R V) (rj : rapidjson) (exact : Z -> Prop).

(** The parser reads the text of an array or object, whatever is after it, to a value of
    its tree; strings may be any that convert to UTF-8. *)
Definition parses_documents : Prop := forall j bs (s : RapidJsonInputStream R) rest,
  bracketed j -> renders j bs -> all_convertible j = true -> readable s -> view s = bs ++ rest ->
  exists x s', ParseStream D s = (Ok x, s') /\ node D rj exact j x.

Lemma Deserialize_text vector_bool all_fields t v bs (input : R) rest : parses_documents ->
  type_ok t -> field_type_id t = BT_STRUCT -> names_ok (lexical_uint16 D) t ->
  fine exact all_fields t v -> renders (json_of rj all_fields v) bs ->
  all_convertible (json_of rj all_fields v) = true ->
  readable input -> view input = bs ++ rest ->
  Deserialize D vector_bool t input = Ok v.
Proof.
  intros Hp Ht Hs Hn Hf Hb Hc Hr Hv. pose proof (conforms_type _ _ _ (proj1 Hf)) as Hty.
  destruct t as [[|[]|[]| | | |]|bt fs|[]|]; try done.
  destruct v as [|bv vfs| |]; try (by destruct Hf). cbn [json_of] in Hb.
  inversion Hb as [| | | | | |ms ts body Hm Hj Em Ebs]. subst bs.
  destruct (RapidJsonInputStream_new_ok input "{"%byte _ Hr Hv ltac:(done)) as (s & Es & Hvs & Hrs).
  destruct (Hp (json_of rj all_fields (VStruct bv vfs)) _ s rest I Hb Hc Hrs Hvs) as (x & s' & Ep & Hx).
  unfold Deserialize, SimpleJsonReader_new. rewrite Es. cbn [obind].
  rewrite (bind_ok _ _ _ (VStruct bv vfs, false) (mkSJR (Document x) s')); [done|].
  eapply (DOMParse_reads D vector_bool rj exact all_fields _ false); [done|done|exact Hf| | |by left].
  - split; [by left|]. unfold ParseDocument. rewrite bind_get. cbn [sj_value].
    erewrite bind_ok by (apply zoom_ok; exact Ep). done.
  - destruct Hf as (? & ? & ?). by apply node_offers.
Qed.
End Stream.

(** C22: JSON both ways.  An object of a class is written as JSON by [SimpleJsonWriter], with or
    without line breaks and defaults, and what was written is read by [SimpleJsonReader]
    from any input that begins with it: the object comes back, every member found by its
    name, and a field that was left out because it is [==] to its default with the value it
    had.  The conditions.  Of the library: the document parser reads a JSON text to the tree
    that it spells ([parses_documents]), the printer spells the numbers of the object in
    the grammar of JSON, which leaves out infinities and NaN, and escapes its strings and
    names ([spelled]).  Of the class: no name of a field, nor a name that reads as a number, stands
    for two fields of a hierarchy, and names have 8-bit units ([names_ok]).  Of the object:
    its floating point values are among those the parser reads back exactly
    ([legible]), all its strings convert to UTF-8, so that the wide ones are well-formed UTF-16
    ([all_convertible]), its hierarchies have fewer than 2^32 levels; and where
    defaults are left out, no optional [float] or [double] field is a zero whose sign is not
    that of a default that is zero too.  Of the text: it is shorter than 2^31 bytes, the indentation is
    not negative and the stream has room. *)
Theorem json_round_trip {W R V} `{OutputStreamLaws W} `{InputStreamLaws R} rj (D : dom_library R V)
    exact vector_bool pretty indent all_fields t v (w : W) n :
  parses_documents D rj exact -> 0 <= indent ->
  type_ok t -> field_type_id t = BT_STRUCT -> names_ok (lexical_uint16 D) t ->
  typed t v -> (all_fields = false -> exact_zeros v) -> value_ok v ->
  legible exact all_fields v -> spelled rj all_fields v ->
  all_convertible (json_of rj all_fields v) = true ->
  room w n -> zlen (fst (text rj pretty indent all_fields v 0 0)) <= n ->
  zlen (fst (text rj pretty indent all_fields v 0 0)) < 2 ^ 31 ->
  exists bs w' writer, Serialize rj pretty indent all_fields v (SimpleJsonWriter_new w) = (Ok tt, writer) /\
    sj_output writer = w' /\ appends w bs w' /\
    forall (input : R) rest, readable input -> view input = bs ++ rest ->
      Deserialize D vector_bool t input = Ok v.
Proof.
  intros Hp Hi Ht Hs Hn Hty Hz Hv Hl Hsp Hcv Hr Hle Hlt.
  assert (Hc : conforms (json_rules all_fields) t v).
  { apply typed_conforms; [done..|]. intros Hmay. apply Hz. by destruct all_fields. }
  destruct (Serialize_text rj pretty indent all_fields v w n Hi Hsp Hlt Hr Hle)
    as (w' & E & Ha & Hrn & _).
  eexists _, w', _. split_and!; [exact E|done|exact Ha|]. intros input rest Hri Hvi.
  by eapply (Deserialize_text D rj exact).
Qed.

(** * A document library *)

(** ** Decimal numbers *)

Definition digits_value (ds : list byte) : Z := foldl (fun a d => a * 10 + (b2z d - 48)) 0 ds.

Lemma digit_byte d : 0 <= d < 10 -> is_digit (z2b (48 + d)) = true /\ b2z (z2b (48 + d)) = 48 + d.
Proof.
  intros Hd. assert (E : b2z (z2b (48 + d)) = 48 + d) by (apply b2z_z2b_small; lia).
  split; [|done]. unfold is_digit. rewrite E. apply andb_true_iff. split; apply Z.leb_le; lia.
Qed.

Lemma decimal_value fuel z : 0 <= z < 10 ^ Z.of_nat fuel -> (0 < fuel)%nat ->
  forallb is_digit (decimal fuel z) = true /\ digits_value (decimal fuel z) = z /\
  decimal fuel z <> [].
Proof.
  revert z. induction fuel as [|fuel IH]; intros z Hz Hf; [lia|]. cbn [decimal].
  destruct (digit_byte (z mod 10)) as [Hd Ed]; [apply Z.mod_pos_bound; lia|].
  rewrite forallb_app. cbn [forallb]. rewrite Hd, andb_true_r.
  unfold digits_value. rewrite foldl_app. cbn [foldl]. rewrite Ed.
  rewrite Nat2Z.inj_succ, Z.pow_succ_r in Hz by lia.
  destruct (z <? 10) eqn:E.
  - apply Z.ltb_lt in E. split_and!; [done| |done]. cbn [foldl]. rewrite Z.mod_small by lia. lia.
  - apply Z.ltb_ge in E.
    assert (0 <= z / 10 < 10 ^ Z.of_nat fuel).
    { split; [apply Z.div_pos; lia|]. apply Z.div_lt_upper_bound; lia. }
    assert (0 < fuel)%nat by (destruct fuel; [cbn in *; lia|lia]).
    destruct (IH (z / 10)) as (H1 & H2 & H3); [done..|]. unfold digits_value in H2. rewrite H2.
    split_and!; [done| |by destruct (decimal fuel (z / 10))].
    pose proof (Z.div_mod z 10). lia.
Qed.

Definition integer_of (t : list byte) : option Z :=
  match t with
  | [] => None
  | b :: ds =>
      if Byte.eqb b "-"%byte then if forallb is_digit ds then Some (- digits_value ds) else None
      else if forallb is_digit t then Some (digits_value t) else None
  end.
(** A double is spelled as its bit pattern with a fraction of zero. *)
Definition double_of (t : list byte) : Z := digits_value (take_while_ is_digit t).

Definition small_rapidjson : rapidjson := {|
  rj_int64 := fun z => if z <? 0 then "-"%byte :: decimal 20 (- z) else decimal 20 z;
  rj_uint64 := decimal 20;
  rj_double := fun d => decimal 20 d ++ ["."; "0"]%byte;
  rj_chars := wide_chars
|}.

Lemma integer_of_uint z : fits 64 z -> integer_of (rj_uint64 small_rapidjson z) = Some z.
Proof.
  intros [H0 H64]. destruct (decimal_value 20 z) as (Hd & Hv & Hne); [lia|lia|].
  cbn [rj_uint64 small_rapidjson]. destruct (decimal 20 z) as [|b ds] eqn:E; [done|].
  unfold integer_of. destruct (Byte.eqb b "-"%byte) eqn:Eb.
  - apply eqb_spec_true in Eb. subst b. done.
  - by rewrite Hd, Hv.
Qed.

Lemma integer_of_int z : sfits 64 z -> integer_of (rj_int64 small_rapidjson z) = Some z.
Proof.
  intros Hz. unfold sfits in Hz. cbn [rj_int64 small_rapidjson]. destruct (z <? 0) eqn:E.
  - apply Z.ltb_lt in E. destruct (decimal_value 20 (- z)) as (Hd & Hv & _); [lia|lia|].
    cbn [integer_of]. rewrite eqb_refl, Hd, Hv. f_equal. lia.
  - apply Z.ltb_ge in E. apply integer_of_uint. split; lia.
Qed.

Lemma double_of_double d : fits 64 d -> double_of (rj_double small_rapidjson d) = d.
Proof.
  intros [H0 H64]. destruct (decimal_value 20 d) as (Hd & Hv & _); [lia|lia|].
  unfold double_of. cbn [rj_double small_rapidjson].
  replace (take_while_ _ _) with (decimal 20 d); [done|]. revert Hd. generalize (decimal 20 d).
  clear. intros l. induction l as [|b l IH]; intros Hl; [done|]. cbn in Hl |- *.
  apply andb_true_iff in Hl as [-> Hl]. by rewrite <-IH.
Qed.

(** ** Values are trees *)

Definition is_int_in (lo hi : Z) (j : json) : bool :=
  match j with
  | JNumber t => match integer_of t with Some z => (lo <=? z) && (z <? hi) | None => false end
  | _ => false
  end.
Definition int_in (lo hi : Z) (j : json) : option Z :=
  match j with
  | JNumber t => z ← integer_of t; if (lo <=? z) && (z <? hi) then Some z else None
  | _ => None
  end.
Definition kind_of (j : json) : nat :=
  match j with
  | JNull => 0 | JBool _ => 1 | JNumber _ => 2 | JString _ => 3 | JArray _ => 4 | JObject _ => 5
  end.

(** The whole text is looked at, then what was understood is taken. *)
Definition small_parse {R} `{InputStreamLaws R} : M (RapidJsonInputStream R) json := fun s =>
  match parse_value (S (length (view s))) (skip_ws (view s)) with
  | Some (j, rest) =>
      (let! _ := collectM (length (view s) - length rest) Take in ret j) s
  | None => (Err (Thrown CoreException), s)
  end.

Definition small_dom {R} `{InputStreamLaws R} : dom_library R json := {|
  IsNull j := (kind_of j =? 0)%nat;
  IsBool j := (kind_of j =? 1)%nat;
  IsTrue j := match j with JBool b => b | _ => false end;
  IsInt := is_int_in (- 2 ^ 31) (2 ^ 31);
  IsUint := is_int_in 0 (2 ^ 32);
  IsInt64 := is_int_in (- 2 ^ 63) (2 ^ 63);
  IsUint64 := is_int_in 0 (2 ^ 64);
  IsNumber j := (kind_of j =? 2)%nat;
  IsString j := (kind_of j =? 3)%nat;
  IsArray j := (kind_of j =? 4)%nat;
  IsObject j := (kind_of j =? 5)%nat;
  GetBool j := match j with JBool b => Some b | _ => None end;
  GetInt := int_in (- 2 ^ 31) (2 ^ 31);
  GetInt64 := int_in (- 2 ^ 63) (2 ^ 63);
  GetUint64 := int_in 0 (2 ^ 64);
  GetDouble j := match j with JNumber t => Some (double_of t) | _ => None end;
  GetString j := match j with JString t => string_value t | _ => None end;
  Elements j := match j with JArray js => js | _ => [] end;
  Members j := match j with
               | JObject ms => (fun m => (default [] (string_value (fst m)), snd m)) <$> ms
               | _ => []
               end;
  ParseStream := small_parse;
  locale_utf_to_utf := Some;
  lexical_uint16 := fun chars =>
    let t := z2b <$> chars in
    if forallb is_digit t && (0 <? zlen t) && (digits_value t <? 2 ^ 16)
    then Some (digits_value t) else None
|}.

Section Small.
Context {R : Type} `{InputStreamLaws R}.
#[local] Abbreviation dom := (small_dom (R := R)).
#[local] Abbreviation nodes := (node dom small_rapidjson (fits 64)).

Lemma small_integer t z : integer_of t = Some z -> integer_node dom (JNumber t) z.
Proof.
  intros E. unfold integer_node, small_dom, is_int_in, int_in. cbn. rewrite E. cbn.
  unfold sfits, fits. split_and!; intros Hz; try split; 
    try rewrite (proj2 (Z.leb_le _ _)) by lia; try rewrite (proj2 (Z.ltb_lt _ _)) by lia; done.
Qed.

Lemma small_chars t units : Forall (fits 8) units -> wide_chars units = t ->
  default [] (string_value t) = units /\ string_value t = Some units.
Proof.
  intros Hu <-. destruct (wide_chars_value units) as [_ E]; [|by rewrite E].
  eapply Forall_impl; [|exact Hu]. intros c [? ?]. split; lia.
Qed.

Lemma small_name t : name_node small_rapidjson t (default [] (string_value t)).
Proof. intros units Hu E. by apply small_chars. Qed.

Lemma small_string t : convertible t = true -> string_node dom small_rapidjson t (JString t).
Proof.
  unfold convertible. intros Hc. split; [done|].
  destruct (string_value t) as [chars|] eqn:E; [|done]. exists chars. split; [exact E|]. split.
  - pose proof (small_name t) as Hn. by rewrite E in Hn.
  - intros units _ [= ->] _. done.
Qed.

Fixpoint small_node (j : json) : all_convertible j = true -> nodes j j.
Proof.
  destruct j as [|b|t|t|js|ms]; intros Hc; cbn [node all_convertible] in *; try done.
  - split_and!; [done| | |].
    + intros z Hz <-. by apply small_integer, integer_of_int.
    + intros z Hz <-. by apply small_integer, integer_of_uint.
    + intros d Hd <-. exact (f_equal Some (double_of_double d Hd)).
  - by apply small_string.
  - split; [done|]. cbn. induction js as [|j js IH]; [constructor|]. cbn in Hc.
    apply andb_true_iff in Hc as [Hj Hjs]. constructor; [by apply small_node|by apply IH].
  - split; [done|]. cbn. induction ms as [|[name j] ms IH]; [constructor|]. cbn in Hc.
    apply andb_true_iff in Hc as [[_ Hj]%andb_true_iff Hjs].
    constructor; [split; [apply small_name|by apply small_node]|by apply IH].
Qed.

Lemma takes_reads bs : reads (S := RapidJsonInputStream R) (collectM (length bs) Take) bs (b2z <$> bs).
Proof.
  induction bs as [|b bs IH]; [apply reads_ret|].
  change (b :: bs) with ([b] ++ bs) at 2. eapply reads_bind; [apply Take_reads|].
  by apply (reads_map _ (cons (b2z b))).
Qed.

Lemma small_parses : parses_documents dom small_rapidjson (fits 64).
Proof.
  intros j bs s rest Hj Hb Hc Hs Hv. exists j.
  assert (E : parse_value (S (length (view s))) (skip_ws (view s)) = Some (j, rest)).
  { rewrite Hv, start_skip by by eapply renders_starts.
    apply bracketed_read; [|done|done|rewrite length_app; lia].
    intros m _ j' t. apply parse_value_ok. }
  cbn [ParseStream small_dom]. unfold small_parse. rewrite E, Hv, length_app, Nat.add_sub.
  destruct (takes_reads bs s rest Hs Hv) as (s' & Es & _). exists s'.
  rewrite (bind_ok _ _ _ _ _ Es). split; [done|by apply small_node].
Qed.
End Small.

(** ** A sample *)

Definition optional_field (name : list Z) : Metadata :=
  mkMetadata Optional (VariantSet (VariantSet Variant_new (SUInt W8 0)) (SInt W8 0)) name [].
Definition json_type : ftype :=
  FStruct (Some (FStruct None [(0, named_field [97] [], FBasic (TInt W32));
                               (1, optional_field [99], FBasic (TUInt W16))]))
    [(0, named_field [98] [(JsonName, [100; 34])], FList false (FBasic TDouble));
     (1, named_field [101] [], FMap TString (FList true (FBasic (TUInt W64))));
     (2, named_field [102] [], FList false (FBasic TBool));
     (3, named_field [103] [], FStruct None [(0, named_field [97] [], FBasic TWString)]);
     (4, named_field [104] [], FBasic TFloat)].
Definition json_object : value :=
  VStruct (Some (VStruct None [(0, named_field [97] [], VBasic (SInt W32 (-50)));
                               (1, optional_field [99], VBasic (SUInt W16 0))]))
    [(0, named_field [98] [(JsonName, [100; 34])],
        VList false BT_DOUBLE [VBasic (SDouble 0x3ff8000000000000); VBasic (SDouble 0)]);
     (1, named_field [101] [], VMap BT_STRING BT_SET
        [(VBasic (SString [107]), VList true BT_UINT64 [VBasic (SUInt W64 (2 ^ 64 - 1))]);
         (VBasic (SString [0; 200]), VList true BT_UINT64 [])]);
     (2, named_field [102] [], VList false BT_BOOL [VBasic (SBool true); VBasic (SBool false)]);
     (3, named_field [103] [], VStruct None
        [(0, named_field [97] [], VBasic (SWString [10; 34; 0xd83d; 0xde00; 7; 65]))]);
     (4, named_field [104] [], VBasic (SFloat 0x3fc00000))].

Lemma json_object_spelled : spelled small_rapidjson false json_object.
Proof.
  assert (Hp : forall units, Forall (fits 16) units -> string_ok (rj_chars small_rapidjson units))
    by apply wide_chars_ok.
  repeat first [apply conj | by vm_compute | intros _ | apply Hp; repeat constructor; by vm_compute |
    apply Forall_cons_2 | apply Forall_nil_2].
Qed.
Lemma json_object_fine : type_ok json_type /\ typed json_type json_object /\
  exact_zeros json_object /\ value_ok json_object /\ legible (fits 64) false json_object.
Proof.
  repeat first [apply conj | by vm_compute | intros _ | by intros ? | by eexists |
    apply Forall_cons_2 | apply Forall_nil_2].
Qed.
Lemma json_object_names : names_ok (lexical_uint16 (small_dom (R := InputBuffer))) json_type.
Proof.
  repeat first [exact I | apply conj | apply Forall_cons_2 | apply Forall_nil_2 |
    intros [E|E]; vm_compute in E; discriminate E | by vm_compute].
Qed.

Lemma json_round_trip_witness : exists bs w' writer,
  Serialize small_rapidjson true 2 false json_object (SimpleJsonWriter_new (mkOC 0)) =
    (Ok tt, writer) /\ sj_output writer = w' /\
  forall (input : InputBuffer) rest, readable input -> view input = bs ++ rest ->
    Deserialize small_dom false json_type input = Ok json_object.
Proof.
  destruct json_object_fine as (Ht & Hty & Hz & Hv & Hl).
  assert (Hcv : all_convertible (json_of small_rapidjson false json_object) = true) by by vm_compute.
  assert (Hlen : zlen (fst (text small_rapidjson true 2 false json_object 0 0)) <= 1000) by by vm_compute.
  assert (Hr : room (mkOC 0) 1000) by by vm_compute.
  destruct (json_round_trip small_rapidjson small_dom (fits 64) false true 2 false json_type json_object
    (mkOC 0) 1000 small_parses ltac:(lia) Ht eq_refl json_object_names Hty (fun _ => Hz) Hv Hl
    json_object_spelled Hcv Hr Hlen ltac:(lia)) as (bs & w' & writer & E & Ew & _ & Hd).
  exists bs, w', writer. exact (conj E (conj Ew Hd)).
Defined.
