(* ===== verification/ParserSafety.v ===== *)
(** Deserialization of arbitrary bytes.

    Whatever the bytes are, a parser leaves a suffix of them and returns or throws:
    no undefined step, no loop that does not end, no index outside the members of
    the object.  A member of type [bool] is excluded, since reading a byte other than 0
    and 1 into it is undefined. *)

From S2P Require Import Prelude Streams Encoding InputBuffer DataType Metadata Protocol.
From S2P Require Import Serializer Skipping FastBinary CompactBinary CompactBinaryReader.
From S2P Require Import SimpleBinary Schema Parser Deserialization StaticRoundTrip.

(** * Safety with a postcondition *)

Section Ensures.
Context {R : Type} `{Readable R}.

(** [ensures_at Q k m s]: from [s] the command leaves a suffix of the unread bytes; it
    returns a result in [Q], having consumed at least [k] bytes, or throws. *)
Definition ensures_at {A} (Q : A -> Prop) (k : nat) (m : M R A) (s : R) : Prop :=
  exists j, readable (snd (m s)) /\ view (snd (m s)) = drop j (view s) /\
    match fst (m s) with
    | Ok a => (k <= j <= length (view s))%nat /\ Q a
    | Err e => exists x, e = Thrown x
    end.

Definition ensures {A} (Q : A -> Prop) (k : nat) (m : M R A) : Prop :=
  forall s, readable s -> ensures_at Q k m s.

Definition any {A} (_ : A) : Prop := True.

Lemma safely_ensures {A} (m : M R A) k k' : Z.of_nat k' <= k ->
  (forall n, safely n k m) -> ensures any k' m.
Proof.
  intros Hk Hs s Hr. destruct (Hs (zlen (view s)) s Hr (Z.le_refl _)) as (j & O & V & P).
  exists j. split_and!; [done..|]. revert P. destruct (fst (m s)); [intros P|done]. split; [lia|done].
Qed.

Lemma ensures_ret {A} (Q : A -> Prop) a : Q a -> ensures Q 0 (ret a).
Proof. intros Ha s Hr. exists 0%nat. simpl. split_and!; [done|done|lia|lia|done]. Qed.

Lemma ensures_throw {A} (Q : A -> Prop) k e : ensures Q k (throw e).
Proof. intros s Hr. exists 0%nat. simpl. split_and!; [done|done|by eexists]. Qed.

Lemma ensures_at_bind {A B} (Q : A -> Prop) (Q' : B -> Prop) k1 k2 k (m : M R A) f s :
  ensures_at Q k1 m s -> (k <= k1 + k2)%nat ->
  (forall a s', readable s' -> Q a -> (length (view s') + k1 <= length (view s))%nat ->
     ensures_at Q' k2 (f a) s') ->
  ensures_at Q' k (bind m f) s.
Proof.
  intros (j1 & O1 & V1 & P1) Hk Hf. unfold ensures_at, bind.
  destruct (m s) as [[a|e] s1]; simpl in *; [|by exists j1].
  destruct P1 as [Hj Ha].
  destruct (Hf a s1 O1 Ha) as (j2 & O2 & V2 & P2); [rewrite V1, length_drop; lia|].
  exists (j1 + j2)%nat. split_and!; [done|by rewrite V2, V1, drop_drop|].
  revert P2. destruct (fst (f a s1)); [intros P2|done]. destruct P2 as [Hj2 Hb]. rewrite V1, length_drop in Hj2.
  split; [lia|done].
Qed.

Lemma ensures_bind {A B} (Q : A -> Prop) (Q' : B -> Prop) k (m : M R A) f :
  ensures Q k m -> (forall a, Q a -> ensures Q' 0 (f a)) -> ensures Q' k (bind m f).
Proof.
  intros Hm Hf s Hr. eapply (ensures_at_bind Q Q' k 0); [by apply Hm|lia|].
  intros a s' Hr' Ha _. by apply Hf.
Qed.

Lemma ensures_weaken {A} (Q Q' : A -> Prop) k k' (m : M R A) : (k' <= k)%nat ->
  (forall a, Q a -> Q' a) -> ensures Q k m -> ensures Q' k' m.
Proof.
  intros Hk HQ Hm s Hr. destruct (Hm s Hr) as (j & O & V & P). exists j.
  split_and!; [done..|]. revert P. destruct (fst (m s)); [intros P|done]. destruct P.
  split; [lia|by apply HQ].
Qed.

(** A result that is only looked at. *)
Lemma ensures_map {A B} (Q : A -> Prop) (Q' : B -> Prop) k (m : M R A) f :
  ensures Q k m -> (forall a, Q a -> Q' (f a)) -> ensures Q' k (let! a := m in ret (f a)).
Proof. intros Hm Hf. eapply ensures_bind; [done|]. intros. by apply ensures_ret, Hf. Qed.

Lemma ensures_repeatM (m : M R unit) n : ensures any 0 m -> ensures any 0 (repeatM n m).
Proof.
  intros Hm. induction n as [|n IH]; [by apply ensures_ret|]. cbn [repeatM].
  eapply ensures_bind; [done|by intros].
Qed.

(** A budget that is enough wherever the command starts. *)
Lemma with_fuel_ensures {A} (Q : A -> Prop) extra (m : nat -> M R A) :
  (forall fuel s, readable s -> (extra + length (view s) < fuel)%nat ->
     ensures_at Q 0 (m fuel) s) ->
  ensures Q 0 (with_fuel extra m).
Proof. intros Hm s Hr. apply Hm; [done|lia]. Qed.
End Ensures.

(** Types with no [bool], which is read without a check. *)
Fixpoint bool_free (t : ftype) : Prop :=
  match t with
  | FBasic b => b <> TBool
  | FStruct base fields =>
      match base with None => True | Some b => bool_free b end /\
      all ((fun f => bool_free (snd f)) <$> fields)
  | FList _ e => bool_free e
  | FMap kt vt => kt <> TBool /\ bool_free vt
  end.

(** * The parsers *)

Record reader_safe {R} `{Readable R} (P : ProtocolReader R) : Prop := mkRS {
  rs_begin base : ensures any 0 (ReadStructBegin P base);
  rs_end base : ensures any 0 (ReadStructEnd P base);
  rs_field : uses_static_parser P = false -> ensures any 1 (ReadFieldBegin P);
  rs_field_end : ensures any 0 (ReadFieldEnd P);
  rs_list t : ensures any 0 (ReadContainerBegin P t);
  rs_map t : ensures any 0 (ReadMapBegin P t);
  rs_container_end : ensures any 0 (ReadContainerEnd P);
  rs_read t : t <> TBool -> ensures (fun s => btype_of s = t) 0 (Read P t);
  rs_skip t : ensures any 0 (Skip P t)
}.

Section Safety.
Context {R : Type} `{Readable R} (P : ProtocolReader R) (safe : reader_safe P).

Lemma match_not_bool u x : x <> TBool -> is_matching_basic u x = true -> u <> TBool.
Proof. intros Hx Hm ->. destruct x; by try (apply bool_decide_eq_true in Hm). Qed.

Lemma read_basic_ensures u x : u <> TBool -> is_matching_basic u x = true ->
  ensures (fun k => btype_of k = x) 0 (read_basic P u x).
Proof.
  intros Hu Hm. eapply ensures_map; [by apply (rs_read _ safe)|]. intros s <-. by apply set_as_ok.
Qed.

Lemma DeserializeBasic_ensures u x : u <> TBool -> is_matching_basic u x = true ->
  ensures (typed (FBasic x)) 0 (DeserializeBasic P u x).
Proof.
  intros Hu Hm. eapply ensures_map; [by apply (rs_read _ safe)|]. intros s <-. by apply set_as_ok.
Qed.

Lemma Skip_nothrow_ensures t : ensures any 0 (Skip_nothrow P t).
Proof.
  intros s Hr. destruct (rs_skip _ safe t s Hr) as (j & O & V & E).
  exists (Nat.min j (length (view s))). unfold Skip_nothrow.
  assert (Hd : view (snd (Skip P t s)) = drop (Nat.min j (length (view s))) (view s)).
  { rewrite V. destruct (decide (j <= length (view s))%nat); [by rewrite Nat.min_l|].
    rewrite Nat.min_r by lia. by rewrite !drop_ge by lia. }
  destruct (Skip P t s) as [[a|e] s']; simpl in *.
  - split_and!; [done..|lia|lia|done].
  - destruct E as [x ->]. simpl. split_and!; [done..|lia|lia|done].
Qed.

Lemma SkipElements_ensures t n : ensures any 0 (SkipElements P t n).
Proof. apply ensures_repeatM, (rs_skip _ safe). Qed.

Lemma SkipMapElements_ensures t n : ensures any 0 (SkipMapElements P t n).
Proof.
  apply ensures_repeatM. eapply ensures_bind; [apply (rs_skip _ safe)|].
  intros _ _. apply (rs_skip _ safe).
Qed.

(** ** Containers *)

Definition good_read (t : ftype) (read : value -> M R value) : Prop :=
  forall x, typed t x -> ensures (typed t) 0 (read x).

Lemma deserialize_each_ensures t read items : good_read t read -> Forall (typed t) items ->
  ensures (Forall (typed t)) 0 (deserialize_each read items).
Proof.
  intros Hread. induction 1 as [|x items Hx _ IH]; [by apply ensures_ret|].
  cbn [deserialize_each]. eapply ensures_bind; [by apply Hread|]. intros y Hy.
  eapply ensures_map; [exact IH|]. intros ys Hys. by constructor.
Qed.

(** The elements of a list or set, the pairs of a map. *)
Definition typed_items (is_set : bool) (e : ftype) (items : list value) : Prop :=
  Forall (typed e) items /\ (is_set = true -> distinct [] items).
Definition typed_pairs (kt : btype) (vt : ftype) (items : list (value * value)) : Prop :=
  Forall (typed_pair kt vt) items /\ distinct [] (fst <$> items).

Lemma insert_each_ensures x read items n : ensures (fun k => btype_of k = x) 0 read ->
  typed_items true (FBasic x) items ->
  ensures (typed_items true (FBasic x)) 0 (insert_each read items n).
Proof.
  intros Hread. revert items. induction n as [|n IH]; intros items [Hi Hd]; [by apply ensures_ret|].
  cbn [insert_each]. eapply ensures_bind; [exact Hread|]. intros e He. apply IH. split.
  - unfold set_insert. case_match; [done|]. apply Forall_app. split; [done|by constructor].
  - intros _. by apply set_insert_distinct, Hd.
Qed.

Lemma key_reader_ensures x type key : x <> TBool -> key_reader P x type = Some key ->
  ensures (fun k => btype_of k = x) 0 key.
Proof.
  intros Hx Hk. unfold key_reader in Hk. case_match; [|done].
  destruct (is_matching_basic _ x) eqn:Hm; [|done]. injection Hk as <-.
  apply read_basic_ensures; [by eapply match_not_bool|done].
Qed.

Lemma element_reader_good t type exact read : bool_free t -> good_read t exact ->
  element_reader P t type exact = Some read -> good_read t read.
Proof.
  intros Ht Hex Hr. destruct t as [x| | |]; cbn [element_reader] in Hr;
    [|by case_match; simplify_eq..].
  case_match; [|done]. destruct (is_matching_basic _ x) eqn:Hm; [|done]. injection Hr as <-. intros y _.
  apply DeserializeBasic_ensures; [by eapply match_not_bool|done].
Qed.

Lemma DeserializeContainer_ensures is_set e exact items : bool_free e -> good_read e exact ->
  typed_items is_set e items ->
  ensures (typed_items is_set e) 0 (DeserializeContainer P is_set e exact items).
Proof.
  intros He Hex Hi. unfold DeserializeContainer.
  assert (Hskip : forall t n, ensures (typed_items is_set e) 0 (SkipElements P t n ;;; ret items)).
  { intros t n. eapply ensures_map; [apply SkipElements_ensures|done]. }
  eapply ensures_bind; [apply (rs_list _ safe)|]. intros [n type] _.
  eapply ensures_bind with (Q := typed_items is_set e).
  - destruct is_set.
    + destruct e; [|apply Hskip..]. destruct (key_reader P t _) eqn:E; [|apply Hskip].
      apply insert_each_ensures; [by eapply key_reader_ensures|by split; [constructor|]].
    + destruct (element_reader P e _ exact) eqn:E; [|apply Hskip].
      apply (ensures_weaken (Forall (typed e)) _ 0); [done|by intros; split|].
      apply deserialize_each_ensures; [by eapply element_reader_good|].
      apply resize_Forall; [apply default_typed|apply Hi].
  - intros items' Hi'. eapply ensures_map; [apply (rs_container_end _ safe)|done].
Qed.

Lemma map_each_ensures kt vt key read fresh items n : ensures (fun k => btype_of k = kt) 0 key ->
  good_read vt read -> typed vt fresh -> typed_pairs kt vt items ->
  ensures (typed_pairs kt vt) 0 (map_each key read fresh items n).
Proof.
  intros Hk Hr Hf. revert items. induction n as [|n IH]; intros items Hi; [by apply ensures_ret|].
  cbn [map_each]. eapply ensures_bind; [exact Hk|]. intros k Hkt. destruct Hi as [Hi Hd].
  eapply ensures_bind; [by eapply Hr, mapped_at_typed|]. intros x Hx.
  apply IH. split; [by apply mapped_set_typed|by apply mapped_set_distinct].
Qed.

Lemma DeserializeMap_ensures kt vt exact items : kt <> TBool -> bool_free vt ->
  good_read vt exact -> typed_pairs kt vt items ->
  ensures (typed_pairs kt vt) 0 (DeserializeMap P kt vt exact items).
Proof.
  intros Hk Hv Hex Hi. unfold DeserializeMap.
  assert (Hskip : forall t n, ensures (typed_pairs kt vt) 0 (SkipMapElements P t n ;;; ret items)).
  { intros t n. eapply ensures_map; [apply SkipMapElements_ensures|done]. }
  eapply ensures_bind; [apply (rs_map _ safe)|]. intros [n types] _.
  eapply ensures_bind with (Q := typed_pairs kt vt).
  - destruct (element_reader P vt _ exact) eqn:E; [|apply Hskip].
    destruct (key_reader P kt _) eqn:Ek; [|apply Hskip].
    apply map_each_ensures; [by eapply key_reader_ensures|by eapply element_reader_good|
      apply default_typed|by split; [constructor|]].
  - intros items' Hi'. eapply ensures_map; [apply (rs_container_end _ safe)|done].
Qed.

(** ** The fields of a struct *)

(** Each member has the type of its field. *)
Definition level_ok (fields : list (bound_field (R := R))) (l : to_level) : Prop :=
  Forall2 (fun f x => typed (bf_type f) x) fields (to_vars l).

Definition good_field (f : bound_field (R := R)) : Prop :=
  bool_free (bf_type f) /\ good_read (bf_type f) (bf_read f).

Lemma Validate_ensures fields f l : level_ok fields l ->
  ensures (level_ok fields) 0 (Validate (R := R) fields f l).
Proof.
  intros Hl. unfold Validate. case_match; [|by apply ensures_ret].
  case_match; [by apply ensures_ret|apply ensures_throw].
Qed.

Lemma To_End_ensures fields l : ensures any 0 (To_End (R := R) fields l).
Proof. unfold To_End. destruct (_ && _); [apply ensures_throw|by apply ensures_ret]. Qed.

Lemma To_Field_ensures fields i f read l : level_ok fields l -> fields !! i = Some f ->
  good_read (bf_type f) read -> ensures (level_ok fields) 0 (To_Field fields i f read l).
Proof.
  intros Hl Hi Hread. unfold To_Field.
  eapply ensures_bind; [by apply Validate_ensures|]. intros l' Hl'.
  destruct (Forall2_lookup_l _ _ _ _ _ Hl' Hi) as (x & -> & Hx). cbn [of_option].
  eapply ensures_bind; [by apply (ensures_ret (typed (bf_type f)))|]. intros x' Hx'.
  eapply ensures_bind; [by apply Hread|]. intros y Hy.
  apply ensures_ret. unfold level_ok. cbn [to_vars].
  rewrite <-(list_insert_id fields i f) by done. by apply Forall2_insert.
Qed.

Lemma Unknown_ensures fields i f type id l : level_ok fields l -> fields !! i = Some f ->
  good_field f -> ensures (level_ok fields) 0 (UnknownFieldOrTypeMismatch P fields i f type id l).
Proof.
  intros Hl Hi [Hb Hread]. unfold UnknownFieldOrTypeMismatch.
  assert (Hskip : ensures (level_ok fields) 0 (Skip P type ;;; ret l)).
  { eapply ensures_map; [apply (rs_skip _ safe)|done]. }
  destruct (bf_type f) as [x| | |] eqn:E; [|apply Hskip..].
  case_match; [|apply Hskip]. destruct (basic_type_of_id type) as [u|]; [|by apply ensures_ret].
  destruct (is_matching_basic u x) eqn:Hm.
  - apply To_Field_ensures; [done..|]. rewrite E. intros y _.
    apply DeserializeBasic_ensures; [by eapply match_not_bool|done].
  - eapply ensures_map; [apply Skip_nothrow_ensures|done].
Qed.

Lemma Subsequent_ensures : uses_static_parser P = false ->
  ensures any 1 (ReadSubsequentField P).
Proof.
  intros Hd s Hr. eapply (ensures_at_bind any any 0 1); [by apply (rs_field_end _ safe)|lia|].
  intros _ s' Hr' _ _. by apply (rs_field _ safe).
Qed.

(** Every turn drops a field of the schema or consumes a byte. *)
Lemma ReadFields_ensures fields fuel pre rest tag l s : uses_static_parser P = false ->
  fields = pre ++ rest -> Forall good_field rest -> level_ok fields l -> readable s ->
  (length rest + length (view s) < fuel)%nat ->
  ensures_at (fun r => level_ok fields (snd r)) 0
    (ReadFields P fields fuel (length pre) rest tag l) s.
Proof.
  intros Hd. revert pre rest tag l s. induction fuel as [|fuel IH];
    intros pre rest [type id] l s Hf Hg Hl Hr Hfuel; [lia|].
  destruct rest as [|head rest].
  - cbn [ReadFields]. case_match; [by apply ensures_ret|].
    eapply (ensures_at_bind any _ 0 0); [by apply (rs_skip _ safe)|lia|].
    intros _ s1 Hr1 _ Hs1.
    eapply (ensures_at_bind any _ 1 0); [by apply Subsequent_ensures|lia|].
    intros tag s2 Hr2 _ Hs2. apply IH; [done..|simpl in *; lia].
  - apply Forall_cons_1 in Hg as [Hh Hg].
    assert (Hi : fields !! length pre = Some head) by (subst fields; by apply list_lookup_middle).
    assert (Hdrop : forall tag l' s', level_ok fields l' -> readable s' ->
      (length (view s') <= length (view s))%nat ->
      ensures_at (fun r => level_ok fields (snd r)) 0
        (ReadFields P fields fuel (S (length pre)) rest tag l') s').
    { intros tag l' s' Hl' Hr' Hs'.
      replace (S (length pre)) with (length (pre ++ [head])) by (rewrite length_app; simpl; lia).
      apply IH; [by rewrite <-app_assoc|done..|simpl in Hfuel; lia]. }
    assert (Hafter : forall l' s', level_ok fields l' -> readable s' ->
      (length (view s') <= length (view s))%nat ->
      ensures_at (fun r => level_ok fields (snd r)) 0
        (let! tag' := ReadSubsequentField P in
         if (bf_id head <? snd tag') || is_stop (fst tag')
         then ReadFields P fields fuel (S (length pre)) rest tag' l'
         else ReadFields P fields fuel (length pre) (head :: rest) tag' l') s').
    { intros l' s' Hl' Hr' Hs'.
      eapply (ensures_at_bind any _ 1 0); [by apply Subsequent_ensures|lia|].
      intros tag s2 Hr2 _ Hs2. case_match; [apply Hdrop; [done..|lia]|].
      apply IH; [done|by constructor|done..|simpl in *; lia]. }
    cbn [ReadFields]. case_match; [|case_match; [|by apply Hdrop]].
    + eapply (ensures_at_bind (level_ok fields) _ 0 0);
        [exact (To_Field_ensures fields _ head _ l Hl Hi (proj2 Hh) s Hr)|lia|].
      intros l' s1 Hr1 Hl1 Hs1. apply Hafter; [done..|lia].
    + eapply (ensures_at_bind (level_ok fields) _ 0 0);
        [exact (Unknown_ensures fields _ head type id l Hl Hi Hh s Hr)|lia|].
      intros l' s1 Hr1 Hl1 Hs1. apply Hafter; [done..|lia].
Qed.

Lemma ReadUnknownFields_ensures fuel type s : uses_static_parser P = false -> readable s ->
  (length (view s) < fuel)%nat -> ensures_at any 0 (ReadUnknownFields P fuel type) s.
Proof.
  intros Hd. revert type s. induction fuel as [|fuel IH]; intros type s Hr Hfuel; [lia|].
  cbn [ReadUnknownFields]. case_match; [by apply ensures_ret|].
  eapply (ensures_at_bind any _ 0 0); [|lia|].
  - case_match; [by apply ensures_ret|by apply (rs_skip _ safe)].
  - intros _ s1 Hr1 _ Hs1.
    eapply (ensures_at_bind any _ 1 0); [by apply Subsequent_ensures|lia|].
    intros tag s2 Hr2 _ Hs2. apply IH; [done|lia].
Qed.

Lemma DynamicReadFields_ensures base fields l : uses_static_parser P = false ->
  Forall good_field fields -> level_ok fields l ->
  ensures (fun r => level_ok fields (fst r)) 0 (DynamicReadFields P base fields l).
Proof.
  intros Hd Hg Hl. unfold DynamicReadFields.
  apply (ensures_weaken (fun r => level_ok fields (fst r)) _ 1); [lia|done|].
  eapply ensures_bind; [by apply (rs_field _ safe)|]. intros tag _.
  eapply ensures_bind with (Q := fun r => level_ok fields (snd r)).
  { apply with_fuel_ensures. intros fuel s Hr Hfuel.
    by apply (ReadFields_ensures fields fuel [] fields). }
  intros r Hr. eapply ensures_bind with (Q := any).
  - destruct base; simpl; [by apply ensures_ret|]. eapply ensures_map; [|done].
    apply with_fuel_ensures. intros fuel s Hs Hfuel. by apply ReadUnknownFields_ensures.
  - intros done _. by eapply ensures_map; [apply (rs_field_end _ safe)|].
Qed.

Lemma StaticReadFields_ensures fields pre rest l : fields = pre ++ rest ->
  Forall good_field rest -> level_ok fields l ->
  ensures (fun r => level_ok fields (fst r)) 0 (StaticReadFields fields (length pre) rest l).
Proof.
  revert pre l. induction rest as [|head rest IH]; intros pre l Hf Hg Hl; [by apply ensures_ret|].
  apply Forall_cons_1 in Hg as [Hh Hg]. cbn [StaticReadFields].
  eapply ensures_bind with (Q := level_ok fields).
  - apply To_Field_ensures; [done| |apply Hh]. subst fields. by apply list_lookup_middle.
  - intros l' Hl'.
    replace (S (length pre)) with (length (pre ++ [head])) by (rewrite length_app; simpl; lia).
    by apply IH; [rewrite <-app_assoc|..].
Qed.

(** ** Objects *)

Definition parses_safely (t : ftype) : Prop := forall base var,
  bool_free t -> typed t var -> ensures (fun r => typed t (fst r)) 0 (Parse P base t var).

Lemma parses_good t : parses_safely t -> bool_free t ->
  good_read t (fun x => let! r := Parse P false t x in ret (fst r)).
Proof. intros Hp Hb x Hx. eapply ensures_map; [by apply Hp|done]. Qed.

Definition fields_of (fs : list (Z * Metadata * ftype)) : list (bound_field (R := R)) :=
  (fun f => mkBF (fst (fst f)) (snd (fst f)) (snd f)
     (fun x => let! r := Parse P false (snd f) x in ret (fst r))) <$> fs.

Lemma fields_of_good fs : Forall (fun f => parses_safely (snd f)) fs ->
  Forall (fun f => bool_free (snd f)) fs -> Forall good_field (fields_of fs).
Proof.
  intros Hp Hb. apply Forall_fmap. induction Hp as [|f fs Hf _ IH]; [done|].
  apply Forall_cons_1 in Hb as [Hb Hbs]. constructor; [|by apply IH].
  split; [exact Hb|]. by apply parses_good.
Qed.

Lemma level_of_members fs vars : level_ok (fields_of fs) vars <->
  Forall2 (fun f x => typed (snd f) x) fs (to_vars vars).
Proof. unfold level_ok, fields_of. by rewrite !Forall2_fmap_l. Qed.

Lemma struct_parses_safely bt fs : (forall b, bt = Some b -> parses_safely b) ->
  Forall (fun f => parses_safely (snd f)) fs -> parses_safely (FStruct bt fs).
Proof.
  intros Hb Hf base var [Hbb Hbf] Hs. apply all_Forall in Hbf.
  destruct var as [|bvar vars| |]; try done. destruct Hs as [Hsb Hsm].
  apply (typed_fields_values fs typed) in Hsm as [Hsm _]. cbn [Parse].
  eapply ensures_bind; [apply (rs_begin _ safe)|]. intros _ _.
  eapply ensures_bind with (Q := fun bv => match bt, bv with
      | None, None => True | Some bt', Some bv' => typed bt' bv' | _, _ => False end).
  { destruct bt as [bt|], bvar as [bvar|]; try done; [|by apply ensures_ret].
    eapply ensures_bind; [by apply (Hb bt)|]. intros [v' stopped] Hv'. cbn [fst snd] in *.
    destruct stopped; [apply ensures_throw|by apply ensures_ret]. }
  intros bvar' Hbv. cbv zeta. change (_ <$> fs) with (fields_of fs) at 1 2 3 4 5.
  eapply ensures_bind with (Q := fun r => level_ok (fields_of fs) (fst r)).
  { destruct (uses_static_parser P) eqn:E.
    - apply (StaticReadFields_ensures (fields_of fs) []); [done|by apply fields_of_good|].
      by apply level_of_members.
    - apply DynamicReadFields_ensures; [done|by apply fields_of_good|].
      by apply level_of_members. }
  intros [l ended] Hl. cbn [fst snd] in *. apply level_of_members in Hl.
  eapply ensures_bind with (Q := any).
  { apply To_End_ensures. }
  intros _ _. eapply ensures_bind; [apply (rs_end _ safe)|]. intros _ _.
  apply ensures_ret. cbn [fst typed]. split; [exact Hbv|].
  by apply (typed_fields_zip fs typed) in Hl as [Hl _].
Qed.

Lemma Parse_ensures t : parses_safely t.
Proof.
  induction t as [b|bt fs Hb Hf|k e IH|kt vt IH] using ftype_ind_nested.
  - intros base var Hb _. cbn [Parse].
    eapply ensures_map; [apply DeserializeBasic_ensures; [done|apply is_matching_basic_refl]|done].
  - by apply struct_parses_safely.
  - intros base var He Hs. destruct var as [| |k' et items|]; try done. cbn [Parse].
    destruct Hs as (-> & -> & Hs%all_Forall & Hd). eapply ensures_map.
    + apply (DeserializeContainer_ensures k e); [done|by apply parses_good|done].
    + intros items' [Hi Hd']. split_and!; [done..|by apply all_Forall|done].
  - intros base var [Hk Hv] Hs. destruct var as [| | |k' v' items]; try done. cbn [Parse].
    destruct Hs as (-> & -> & Hd & Hs%all_Forall). eapply ensures_map.
    + apply (DeserializeMap_ensures kt vt); [done..|by apply parses_good|done].
    + intros items' [Hi Hd']. split_and!; [done..|]. by apply (all_Forall (typed_pair kt vt)).
Qed.

Lemma Deserialize_ensures t : bool_free t -> ensures (typed t) 0 (Deserialize P t).
Proof.
  intros Hb. eapply ensures_map; [apply Parse_ensures; [done|apply default_typed]|done].
Qed.
End Safety.

(** * The readers *)

Section Readers.
Context {R : Type} `{InputStreamLaws R}.

Lemma Read_1_ensures : ensures (R := R) any 1 (is_Read 1).
Proof. by apply (safely_ensures _ 1); [lia|]; intros; apply (is_Read_safely 1); lia. Qed.
Lemma Read_n_ensures n : (0 < n <= 8)%nat -> ensures (R := R) any 0 (is_Read n).
Proof. intros Hn. apply (safely_ensures _ (Z.of_nat n)); [lia|]. intros. by apply is_Read_safely. Qed.
Lemma Var_ensures w : var_width w -> ensures (R := R) any 0 (is_ReadVariableUnsigned w).
Proof. intros Hw. apply (safely_ensures _ 1); [lia|]. intros. by apply is_Var_safely. Qed.

Lemma Read_raw_ensures t : t <> TBool -> is_string_type t = false ->
  ensures (R := R) (fun s => btype_of s = t) 0 (Read_raw t).
Proof.
  intros Ht Hs. unfold Read_raw. eapply ensures_bind.
  - apply Read_n_ensures. by apply raw_size_pos.
  - intros z _. by destruct t as [|w|w| | | |]; first [apply ensures_ret|done].
Qed.

Lemma collect_ensures {A} n (m : M R A) : ensures any 0 m -> ensures any 0 (collectM n m).
Proof.
  intros Hm. induction n as [|n IH]; [by apply ensures_ret|]. cbn [collectM].
  eapply ensures_bind; [done|]. intros a _. by eapply ensures_map.
Qed.

Lemma ReadStringData_ensures t length : is_string_type t = true ->
  ensures (R := R) (fun s => btype_of s = t) 0 (ReadStringData t length).
Proof.
  intros Hs. destruct t; try done; cbn [ReadStringData].
  - apply (ensures_map any); [|done]. unfold ReadStringData_same. apply (ensures_map any any); [|done].
    apply (safely_ensures _ (wrap 32 (length * Z.of_nat 1))); [by apply wrap_fits|].
    intros n. by apply is_Read_bytes_safely, wrap_fits.
  - apply (ensures_map any); [|done]. apply collect_ensures, Read_n_ensures. lia.
Qed.

(** A string or a raw value, with the size before it. *)
Lemma sized_read_ensures (size : M R Z) t : ensures any 0 size -> t <> TBool ->
  ensures (R := R) (fun s => btype_of s = t) 0
    (if is_string_type t then let! length := size in ReadStringData t length else Read_raw t).
Proof.
  intros Hsize Ht. destruct (is_string_type t) eqn:E; [|by apply Read_raw_ensures].
  eapply ensures_bind; [exact Hsize|]. intros length _. by apply ReadStringData_ensures.
Qed.

Lemma Var_32_ensures : ensures (R := R) any 0 (is_ReadVariableUnsigned 32).
Proof. apply Var_ensures. by right; left. Qed.

Lemma fb_Skip_ensures t : ensures (R := R) any 0 (fb_Skip t).
Proof.
  intros s Hr. assert (Hs : safely (zlen (view s)) 0 (fb_SkipType (R := R) (3 + length (view s)) t None))
    by (apply fb_SkipType_safely; lia).
  destruct (Hs s Hr (Z.le_refl _)) as (j & O & V & E). exists j. unfold fb_Skip.
  split_and!; [done..|]. revert E. case_match; [intros E; split; [lia|done]|done].
Qed.

Lemma cb_Skip_ensures version t : ensures (R := R) any 0 (cb_Skip version t).
Proof.
  intros s Hr. assert (Hs : safely (zlen (view s)) 0
    (cb_SkipType (R := R) version (3 + length (view s)) t None))
    by (apply cb_SkipType_safely; lia).
  destruct (Hs s Hr (Z.le_refl _)) as (j & O & V & E). exists j. unfold cb_Skip.
  split_and!; [done..|]. revert E. case_match; [intros E; split; [lia|done]|done].
Qed.

Lemma fb_reader_safe : reader_safe (FastBinaryReader (R := R)).
Proof.
  split; cbn [FastBinaryReader uses_static_parser ReadStructBegin ReadStructEnd ReadFieldBegin
    ReadFieldEnd ReadContainerBegin ReadMapBegin ReadContainerEnd Read Skip];
    intros; try by apply ensures_ret.
  - apply (safely_ensures _ 1); [lia|apply fb_ReadFieldBegin_safely].
  - eapply ensures_bind; [by apply Read_n_ensures; lia|]. intros ty _.
    eapply ensures_map; [apply Var_32_ensures|done].
  - do 2 (eapply ensures_bind; [by apply Read_n_ensures; lia|]; intros ? _).
    eapply ensures_map; [apply Var_32_ensures|done].
  - by apply sized_read_ensures; [apply Var_32_ensures|].
  - apply fb_Skip_ensures.
Qed.

Lemma cb_Read_ensures t : t <> TBool -> ensures (R := R) (fun s => btype_of s = t) 0 (cb_Read t).
Proof.
  intros Ht.
  assert (Hv : forall w, var_width (bits_of w) -> ensures (R := R) any 0
    (is_ReadVariableUnsigned (bits_of w))) by (intros; by apply Var_ensures).
  destruct t as [|[]|[]| | | |]; try done; cbn [cb_Read]; try by apply Read_raw_ensures.
  all: try by (eapply ensures_map; [apply Hv; unfold var_width; simpl; auto|done]).
  all: eapply ensures_bind; [apply Var_32_ensures|]; intros; by apply ReadStringData_ensures.
Qed.

Lemma cb_reader_safe version : reader_safe (CompactBinaryReader (R := R) version).
Proof.
  split; cbn [CompactBinaryReader uses_static_parser ReadStructBegin ReadStructEnd ReadFieldBegin
    ReadFieldEnd ReadContainerBegin ReadMapBegin ReadContainerEnd Read Skip];
    intros; try by apply ensures_ret.
  - apply (safely_ensures _ 0); [lia|]. intros. apply cb_ReadStructBegin_safely.
  - apply (safely_ensures _ 1); [lia|apply cb_ReadFieldBegin_safely].
  - apply (safely_ensures _ 1); [lia|apply cb_ReadContainerBegin_safely].
  - apply (safely_ensures _ 1); [lia|apply cb_ReadMapBegin_safely].
  - by apply cb_Read_ensures.
  - apply cb_Skip_ensures.
Qed.

Lemma sb_ReadSize_ensures version : ensures (R := R) any 0 (sb_ReadSize version).
Proof. unfold sb_ReadSize. case_match; [apply Read_n_ensures; lia|apply Var_32_ensures]. Qed.

Lemma is_Skip_ensures n : fits 32 n -> ensures (R := R) any 0 (is_Skip n).
Proof. intros Hn. apply (safely_ensures _ 0); [lia|]. intros. by apply is_Skip_safely. Qed.

Lemma sb_Skip_ensures version t : ensures (R := R) any 0 (sb_Skip version t).
Proof.
  unfold sb_Skip. destruct (basic_type_of_id t) as [b|]; [|by apply ensures_ret].
  assert (Hs : forall k, ensures (R := R) any 0
    (let! length := sb_ReadSize version in is_Skip (wrap 32 (length * k)))).
  { intros k. eapply ensures_bind; [apply sb_ReadSize_ensures|]. intros length _.
    apply is_Skip_ensures. by apply wrap_fits. }
  destruct b as [|[]|[]| | | |]; cbn [sb_Skip_basic]; try apply Hs; by apply is_Skip_ensures.
Qed.

Lemma sb_reader_safe version : reader_safe (SimpleBinaryReader (R := R) version).
Proof.
  split; cbn [SimpleBinaryReader uses_static_parser ReadStructBegin ReadStructEnd ReadFieldBegin
    ReadFieldEnd ReadContainerBegin ReadMapBegin ReadContainerEnd Read Skip];
    intros; try by apply ensures_ret.
  - done.
  - eapply ensures_map; [apply sb_ReadSize_ensures|done].
  - eapply ensures_map; [apply sb_ReadSize_ensures|done].
  - by apply sized_read_ensures; [apply sb_ReadSize_ensures|].
  - apply sb_Skip_ensures.
Qed.
End Readers.

(** * Properties *)

(** What deserialization promises on an input: it stops at a suffix of the bytes, with
    an object of the type or a C++ exception. *)
Definition deserializes_safely {R} `{Readable R} (P : ProtocolReader R) (t : ftype) (s : R) :
    Prop :=
  exists j, readable (snd (Deserialize P t s)) /\
    view (snd (Deserialize P t s)) = drop j (view s) /\
    match fst (Deserialize P t s) with
    | Ok v => (j <= length (view s))%nat /\ typed t v
    | Err e => exists x, e = Thrown x
    end.

(** C15: untrusted payloads.  For any schema without [bool], any bytes and any of the
    protocols, deserialization ends, makes no access outside the buffer and no
    other undefined step, and gives an object of the schema's type or throws: every basic
    member, element, key and value has the type the schema gives it whatever the types in the
    payload were, members have their ids and metadata, sets and maps hold no key twice.
    The budgets of the parser's loops never run out. *)
Theorem deserialize_untrusted {R} `{InputStreamLaws R} t version (s : R) :
  bool_free t -> readable s ->
  deserializes_safely FastBinaryReader t s /\
  deserializes_safely (CompactBinaryReader version) t s /\
  deserializes_safely (SimpleBinaryReader version) t s.
Proof.
  intros Ht Hr.
  assert (Hany : forall P, reader_safe P -> deserializes_safely P t s).
  { intros P HP. destruct (Deserialize_ensures P HP t Ht s Hr) as (j & O & V & E).
    exists j. split_and!; [done..|]. revert E. case_match; [|done]. intros [[_ Hj] Hv]. done. }
  split_and!; apply Hany; [apply fb_reader_safe|apply cb_reader_safe|apply sb_reader_safe].
Qed.

(** A list of strings whose header promises 2^32 - 1 of them. *)
Definition strings_type : ftype := FStruct None [(0, no_default, FList false (FBasic TString))].
Definition lying_list : list byte :=
  [z2b BT_LIST; Byte.x00; Byte.x00; z2b BT_STRING; Byte.xff; Byte.xff; Byte.xff; Byte.xff; Byte.x0f].

Lemma deserialize_untrusted_witness :
  deserializes_safely FastBinaryReader strings_type (buffer_of lying_list).
Proof.
  destruct (buffer_reads lying_list) as [H1 _]; [by vm_compute|].
  assert (Ht : bool_free strings_type) by (repeat split; discriminate).
  exact (proj1 (deserialize_untrusted strings_type 1 (buffer_of lying_list) Ht H1)).
Defined.

(** Why [bool] is excluded: the readers copy the byte of a [bool] into the variable
    without looking at it, so for a byte other than 0 and 1 the variable has no
    value, and what follows is undefined. *)
Lemma bool_byte_unchecked {R} `{InputStreamLaws R} version (s : R) b rest :
  readable s -> view s = b :: rest -> 1 < b2z b ->
  fst (fb_Read TBool s) = Err Undefined /\ fst (cb_Read TBool s) = Err Undefined /\
  fst (sb_Read version TBool s) = Err Undefined.
Proof.
  intros Hr Hv Hb.
  assert (Hraw : fst (Read_raw (S := R) TBool s) = Err Undefined).
  { destruct (is_Read_reads 1 [b] eq_refl ltac:(lia) s rest Hr Hv) as (s' & E & _).
    unfold Read_raw. cbn [raw_size]. rewrite (bind_ok _ _ _ _ _ E).
    assert (Hz : of_le [b] = b2z b) by apply Z.lor_0_r. rewrite Hz. unfold raw_decode.
    by zbool. }
  done.
Qed.

Lemma bool_byte_unchecked_witness :
  fst (fb_Read TBool (buffer_of [Byte.x02])) = Err Undefined.
Proof.
  destruct (buffer_reads [Byte.x02]) as [H1 H2]; [by vm_compute|].
  exact (proj1 (bool_byte_unchecked 1 (buffer_of [Byte.x02]) Byte.x02 [] H1 H2 eq_refl)).
Defined.
