(* ===== verification/ParserErrors.v ===== *)
(** Required fields.

    [To<T>] counts required fields with a single number, the id of the next one.  This
    file shows that the count is complete: when a payload that would otherwise be
    read has no usable value for a required field, parsing throws [CoreException],
    wherever the field is in the schema and whatever comes after it. *)

From S2P Require Import Prelude Streams Encoding InputBuffer DataType Metadata Protocol.
From S2P Require Import Serializer FastBinary CompactBinary Schema Parser ParserCorrect Deserialization.

(** The schema of a struct with its own fields made optional. *)
Definition relax (m : Metadata) : Metadata := 
  mkMetadata Optional (default_value m) (md_name m) (md_attributes m).
Definition relax_fields (fs : list (Z * Metadata * ftype)) : list (Z * Metadata * ftype) :=
  (fun f => (fst (fst f), relax (snd (fst f)), snd f)) <$> fs.

(** The fields of the level of the payload that is read as a struct of type [t]. *)
Definition own_fields (t : ftype) (v : value) : list (Z * Metadata * value) :=
  match at_levels (type_levels t) v with VStruct _ fields => fields | _ => [] end.

(** The payload has no value for the field that its type accepts. *)
Definition lacks (id : Z) (t : ftype) (p : list (Z * value)) : Prop :=
  forall v, lookup_field id p = Some v -> accepts t (type_of v) = false.

Section Misses.
Context {R : Type} `{Readable R} (P : ProtocolReader R) (F : wire_format).
Context (laws : reader_laws P F).

Abbreviation bound := (bound_field (R := R) * (value -> value -> option value))%type.

(** [throws m bs]: on any input that starts with [bs], [m] throws [CoreException].
    [ends Q m bs]: it throws, or consumes [bs] with a result in [Q]. *)
Definition throws {A} (m : M R A) (bs : list byte) : Prop := forall s rest,
  readable s -> view s = bs ++ rest -> exists s', m s = (Err (Thrown CoreException), s').

Definition ends {A} (Q : A -> Prop) (m : M R A) (bs : list byte) : Prop := forall s rest,
  readable s -> view s = bs ++ rest ->
  (exists s', m s = (Err (Thrown CoreException), s')) \/
  (exists a s', m s = (Ok a, s') /\ view s' = rest /\ readable s' /\ Q a).

(** The loop over the fields ends at a stop, with a required field open. *)
Definition misses (t : BondDataType) : M R (BondDataType * to_level) -> list byte -> Prop :=
  ends (fun r => fst r = t /\ to_required (snd r) <> invalid_field_id).

Lemma throws_ends {A} (Q : A -> Prop) m bs : throws m bs -> ends Q m bs.
Proof. intros Hm s rest Hr Hv. left. by eapply Hm. Qed.

Lemma reads_ends {A} (Q : A -> Prop) m bs a : reads m bs a -> Q a -> ends Q m bs.
Proof.
  intros Hm Ha s rest Hr Hv. right. destruct (Hm s rest Hr Hv) as (s' & E & V & O).
  by exists a, s'.
Qed.

Lemma throws_left {A B} (m : M R A) (k : A -> M R B) bs : throws m bs -> throws (bind m k) bs.
Proof.
  intros Hm s rest Hr Hv. destruct (Hm s rest Hr Hv) as (s' & E). exists s'.
  unfold bind. by rewrite E.
Qed.

Lemma throws_bind {A B} (m : M R A) (k : A -> M R B) bs1 bs2 a :
  reads m bs1 a -> throws (k a) bs2 -> throws (bind m k) (bs1 ++ bs2).
Proof.
  intros Hm Hk s rest Hr Hv. rewrite <-app_assoc in Hv.
  destruct (Hm s _ Hr Hv) as (s1 & E & V & O). destruct (Hk s1 rest O V) as (s2 & E2).
  exists s2. by rewrite (bind_ok _ _ _ _ _ E).
Qed.

Lemma throws_nil {A B} (m : M R A) (k : A -> M R B) bs a :
  reads m [] a -> throws (k a) bs -> throws (bind m k) bs.
Proof. apply (throws_bind m k []). Qed.

Lemma ends_bind {A B} (Q : A -> Prop) (Q' : B -> Prop) m k bs1 bs2 :
  ends Q m bs1 -> (forall a, Q a -> ends Q' (k a) bs2) -> ends Q' (bind m k) (bs1 ++ bs2).
Proof.
  intros Hm Hk s rest Hr Hv. rewrite <-app_assoc in Hv.
  destruct (Hm s _ Hr Hv) as [(s1 & E)|(a & s1 & E & V & O & Ha)].
  - left. exists s1. unfold bind. by rewrite E.
  - rewrite (bind_ok _ _ _ _ _ E). by apply (Hk a Ha).
Qed.

Lemma ends_throws {A B} (Q : A -> Prop) (m : M R A) (k : A -> M R B) bs1 bs2 :
  ends Q m bs1 -> (forall a, Q a -> throws (k a) bs2) -> throws (bind m k) (bs1 ++ bs2).
Proof.
  intros Hm Hk s rest Hr Hv.
  destruct (ends_bind Q (fun _ => False) m k bs1 bs2 Hm
    (fun a Ha => throws_ends _ _ _ (Hk a Ha)) s rest Hr Hv) as [Ht|(? & ? & _ & _ & _ & [])].
  exact Ht.
Qed.

Lemma misses_bind {A} t (m : M R A) k bs1 bs2 a :
  reads m bs1 a -> misses t (k a) bs2 -> misses t (bind m k) (bs1 ++ bs2).
Proof.
  intros Hm Hk. apply (ends_bind (eq a)); [by eapply reads_ends|]. by intros ? <-.
Qed.

(** A budget that is enough at the call. *)
Lemma with_fuel_ends {A} (Q : A -> Prop) extra (m : nat -> M R A) bs :
  (forall fuel, (2 + extra + length bs <= fuel)%nat -> ends Q (m fuel) bs) ->
  ends Q (with_fuel extra m) bs.
Proof.
  intros Hm s rest Hr Hv. unfold with_fuel. apply (Hm _); [|done|done].
  rewrite Hv, length_app. lia.
Qed.

Lemma throw_throws {A} bs : throws (A := A) (throw CoreException) bs.
Proof. intros s rest _ _. by exists s. Qed.

(** ** The count of required fields *)

(** The number in the transform is right, with a field still to come that the payload
    lacks; or it is stuck at a field that has been passed. *)
Definition missing (q : Z) (rest : list bound) (p : list (Z * value)) : Prop :=
  (q = next_required_field (fst <$> rest) 0 /\
   Exists (fun b => is_required (bf_metadata (fst b)) = true /\
                    lacks (bf_id (fst b)) (bf_type (fst b)) p) rest) \/
  (q <> invalid_field_id /\ Forall (fun b => q < bf_id (fst b)) rest).

(** The bound fields of the relaxed schema. *)
Definition relaxed (b : bound) : bound :=
  (mkBF (bf_id (fst b)) (relax (bf_metadata (fst b))) (bf_type (fst b)) (bf_read (fst b)), snd b).

Lemma lacks_tail i t id v p : increasing (-1) (fst <$> ((id, v) :: p)) ->
  lacks i t ((id, v) :: p) -> lacks i t p.
Proof.
  intros [_ Hp] Hl w Hw. apply Hl. rewrite <-Hw. apply lookup_below.
  destruct (Z.lt_ge_cases id i); [done|]. by rewrite (lookup_above i id p Hp) in Hw.
Qed.

Lemma missing_tail q rest id v p : increasing (-1) (fst <$> ((id, v) :: p)) ->
  missing q rest ((id, v) :: p) -> missing q rest p.
Proof.
  intros Hp [[Hq He]|Hs]; [left|by right]. split; [done|]. eapply Exists_impl; [|exact He].
  intros b [Hb Hl]. split; [done|]. by eapply lacks_tail.
Qed.

Lemma ids_from pre h rest lo : increasing lo (ids_of (pre ++ h :: rest)) ->
  increasing lo (ids_of (R := R) (h :: rest)).
Proof.
  revert lo. induction pre as [|g pre IH]; intros lo Hi; [exact Hi|]. cbn [app] in Hi.
  unfold ids_of in Hi. rewrite fmap_cons in Hi. destruct Hi as [Hg Hi].
  eapply increasing_weaken; [|by apply IH]. lia.
Qed.

(** Dropping the head without a value for it. *)
Lemma missing_drop q h rest p lo : increasing lo (ids_of (h :: rest)) -> -1 <= lo ->
  missing q (h :: rest) p -> missing q rest p.
Proof.
  intros Hi Hlo. unfold ids_of in Hi. rewrite fmap_cons in Hi. destruct Hi as [Hh Hi].
  intros [[Hq He]|[Hq Hs]].
  - destruct (is_required (bf_metadata (fst h))) eqn:E.
    + right. rewrite next_required_here in Hq by (done || lia). subst q.
      split; [lia|]. apply increasing_forall in Hi. rewrite Forall_fmap in Hi.
      eapply Forall_impl; [|exact Hi]. cbv beta. cbn. lia.
    + left. rewrite next_required_optional in Hq by done. split; [done|].
      apply Exists_cons in He as [[He _]|He]; [by rewrite E in He|done].
  - right. apply Forall_cons_1 in Hs as [_ Hs]. done.
Qed.

(** Reading the head, for which the payload has a value. *)
Lemma To_Field_missing pre h rest lo done cur curs read bs r q id v p :
  increasing lo (ids_of (pre ++ h :: rest)) -> -1 <= lo -> length done = length pre ->
  increasing (-1) (fst <$> ((id, v) :: p)) -> id = bf_id (fst h) ->
  accepts (bf_type (fst h)) (type_of v) = true -> missing q (h :: rest) ((id, v) :: p) ->
  reads (read cur) bs r ->
  let m := To_Field (fst <$> (pre ++ h :: rest)) (length pre) (fst h) read
             (mkTo q (done ++ cur :: curs)) in
  throws m bs \/
  exists q', reads m bs (mkTo q' (done ++ r :: curs)) /\ missing q' rest p.
Proof.
  intros Hi Hlo Hd Hp -> Ha Hm Hr m. subst m.
  destruct Hm as [[-> He]|[Hq Hs]].
  - right. exists (next_required_field (fst <$> rest) 0). split.
    + by apply (To_Field_reads pre h rest lo).
    + apply Exists_cons in He as [[_ He]|He].
      { specialize (He v). rewrite lookup_here, Ha in He. by discriminate (He eq_refl). }
      eapply missing_tail; [exact Hp|]. by left.
  - apply Forall_cons_1 in Hs as [Hh Hs].
    unfold To_Field, Validate. cbn [to_required to_vars].
    destruct (is_required (bf_metadata (fst h))).
    + left. apply throws_left. replace (q =? bf_id (fst h)) with false by by zbool.
      apply throw_throws.
    + right. exists q. split; [|by right].
      eapply reads_bind_nil; [apply reads_ret|]. cbn [to_required to_vars].
      eapply (reads_bind_nil _ _ _ cur).
      { rewrite <-Hd, list_lookup_middle by done. apply reads_ret. }
      apply (reads_map _ (fun v => mkTo q (<[length pre:=v]> (done ++ cur :: curs)))) in Hr.
      rewrite <-Hd, (insert_app_r_alt done) in Hr by done. rewrite Nat.sub_diag in Hr.
      rewrite <-Hd. exact Hr.
Qed.

(** ** The loop over the fields *)

Section Level.
Context (base : bool) (sid : Z).
Context (stop_reads : reads (ReadFieldBegin P) (wf_stop F base) (stop_type base, sid)).

Definition loop_misses (fuel : nat) : Prop := forall pre rest lo p done curs news q,
  increasing lo (ids_of (pre ++ rest)) -> -1 <= lo -> increasing (-1) (fst <$> p) ->
  Forall (field_fine F) p -> Forall (bound_ok F) rest -> length done = length pre ->
  read_fields (spec_of <$> (relaxed <$> rest)) curs p = Some news -> missing q rest p ->
  (length rest + length p < fuel)%nat ->
  misses (stop_type base) (ReadFields P (fst <$> (pre ++ rest)) fuel (length pre) (fst <$> rest)
    (tag_of base sid p) (mkTo q (done ++ curs))) (tail_bytes F base p).

Lemma misses_next fuel pre h rest lo p done y curs news q : loop_misses fuel ->
  increasing lo (ids_of (pre ++ h :: rest)) -> -1 <= lo -> increasing (-1) (fst <$> p) ->
  Forall (field_fine F) p -> Forall (bound_ok F) rest -> length done = length pre ->
  read_fields (spec_of <$> (relaxed <$> rest)) curs p = Some news -> missing q rest p ->
  (length rest + length p < fuel)%nat ->
  misses (stop_type base) (ReadFields P (fst <$> (pre ++ h :: rest)) fuel (S (length pre))
    (fst <$> rest) (tag_of base sid p) (mkTo q (done ++ y :: curs))) (tail_bytes F base p).
Proof.
  intros IH Hi Hlo Hp Hf Hb Hd Hn Hm Hl.
  replace (pre ++ h :: rest) with ((pre ++ [h]) ++ rest) in * by by rewrite <-app_assoc.
  replace (done ++ y :: curs) with ((done ++ [y]) ++ curs) by by rewrite <-app_assoc.
  replace (S (length pre)) with (length (pre ++ [h])) by (rewrite length_app; simpl; lia).
  apply (IH _ _ lo p _ curs news); try done. rewrite !length_app, Hd. done.
Qed.

Lemma misses_drop fuel pre h rest lo p done curs news q : loop_misses fuel ->
  increasing lo (ids_of (pre ++ h :: rest)) -> -1 <= lo -> increasing (-1) (fst <$> p) ->
  Forall (field_fine F) p -> Forall (bound_ok F) rest -> length done = length pre ->
  read_fields (spec_of <$> (relaxed <$> (h :: rest))) curs p = Some news ->
  missing q (h :: rest) p -> lookup_field (bf_id (fst h)) p = None ->
  (length rest + length p < fuel)%nat ->
  misses (stop_type base) (ReadFields P (fst <$> (pre ++ h :: rest)) fuel (S (length pre))
    (fst <$> rest) (tag_of base sid p) (mkTo q (done ++ curs))) (tail_bytes F base p).
Proof.
  intros IH Hi Hlo Hp Hf Hb Hd Hn Hm Hno Hl. rewrite fmap_cons in Hn.
  destruct (read_fields_cons _ _ _ _ _ Hn) as (x & xs & _ & _ & -> & _).
  destruct (drop_head (relaxed h) _ _ _ _ _ Hn Hno) as (_ & news' & -> & Hn').
  eapply misses_next; try done.
  apply (missing_drop q h rest p lo); [by eapply ids_from|done|done].
Qed.

(** The end of the schema. *)
Lemma misses_rest fuel fields i p q vars : increasing (-1) (fst <$> p) ->
  Forall (field_fine F) p -> q <> invalid_field_id -> (length p < fuel)%nat ->
  misses (stop_type base) (ReadFields P fields fuel i [] (tag_of base sid p) (mkTo q vars))
    (tail_bytes F base p).
Proof.
  intros Hp Hf Hq Hl. eapply reads_ends; [by apply (loop_rest P F laws)|done].
Qed.

Lemma misses_after fuel pre h rest lo p done curs news q : loop_misses fuel ->
  increasing lo (ids_of (pre ++ h :: rest)) -> -1 <= lo -> increasing (-1) (fst <$> p) ->
  Forall (field_fine F) p -> Forall (bound_ok F) (h :: rest) -> length done = length pre ->
  read_fields (spec_of <$> (relaxed <$> (h :: rest))) curs p = Some news ->
  missing q (h :: rest) p -> (length (h :: rest) + length p < fuel)%nat ->
  misses (stop_type base) (let tag' := tag_of base sid p in
         if (bf_id (fst h) <? snd tag') || is_stop (fst tag')
         then ReadFields P (fst <$> (pre ++ h :: rest)) fuel (S (length pre)) (fst <$> rest) tag'
                (mkTo q (done ++ curs))
         else ReadFields P (fst <$> (pre ++ h :: rest)) fuel (length pre) (fst <$> (h :: rest))
                tag' (mkTo q (done ++ curs))) (tail_bytes F base p).
Proof.
  intros IH Hi Hlo Hp Hf Hb Hd Hn Hm Hl. cbv zeta.
  destruct ((bf_id (fst h) <? snd (tag_of base sid p)) || is_stop (fst (tag_of base sid p))) eqn:E.
  - eapply misses_drop; try done; [by apply Forall_cons_1 in Hb as [_ Hb]| |simpl in Hl; lia].
    destruct p as [|[id v] p]; [done|]. cbn [tag_of fst snd] in E.
    rewrite not_stop, orb_false_r in E by apply type_of_range. apply Z.ltb_lt in E.
    apply (lookup_above _ (bf_id (fst h))); [|lia].
    destruct Hp as [[_ Hlt] Hp]. cbn [fst] in *. split; [cbn [fst]; lia|exact Hp].
  - by apply (IH _ _ lo p _ curs news).
Qed.

(** The turn of the loop after a field was handled by [step]. *)
Definition turn (fuel : nat) (pre : list bound) (h : bound) (rest : list bound)
    (step : M R to_level) : M R (BondDataType * to_level) :=
  let! l' := step in
  let! tag' := ReadSubsequentField P in
  if (bf_id (fst h) <? snd tag') || is_stop (fst tag')
  then ReadFields P (fst <$> (pre ++ h :: rest)) fuel (S (length pre)) (fst <$> rest) tag' l'
  else ReadFields P (fst <$> (pre ++ h :: rest)) fuel (length pre) (fst <$> (h :: rest)) tag' l'.

Lemma misses_taken fuel pre h rest lo id v p done cur curs news q read r : loop_misses fuel ->
  increasing lo (ids_of (pre ++ h :: rest)) -> -1 <= lo ->
  increasing (-1) (fst <$> ((id, v) :: p)) -> Forall (field_fine F) p ->
  Forall (bound_ok F) rest -> length done = length pre -> id = bf_id (fst h) ->
  read_fields (spec_of <$> (relaxed <$> rest)) curs p = Some news ->
  accepts (bf_type (fst h)) (type_of v) = true -> missing q (h :: rest) ((id, v) :: p) ->
  reads (read cur) (encode F false v) r -> (length rest + length p < fuel)%nat ->
  misses (stop_type base)
    (turn fuel pre h rest (To_Field (fst <$> (pre ++ h :: rest)) (length pre) (fst h) read
       (mkTo q (done ++ cur :: curs))))
    (encode F false v ++ all_bytes F base p).
Proof.
  intros IH Hi Hlo Hp Hf Hb Hd Hid Hn Ha Hm Hr Hl. unfold turn.
  destruct (To_Field_missing pre h rest lo done cur curs read _ r q id v p Hi Hlo Hd Hp Hid Ha
    Hm Hr) as [Ht|(q' & Ht & Hm')].
  { apply throws_ends. intros s rest' Hs Hv. rewrite <-app_assoc in Hv.
    by eapply (throws_left _ _ _ Ht). }
  eapply misses_bind; [exact Ht|]. rewrite all_bytes_split.
  eapply misses_bind; [apply (next_tag P F laws); [done|by eapply fine_ids]|].
  assert (E : (bf_id (fst h) <? snd (tag_of base sid p)) || is_stop (fst (tag_of base sid p))
    = true).
  { destruct p as [|[i w] p]; [by cbn [tag_of fst]; rewrite is_stop_type, orb_true_r|].
    rewrite !fmap_cons in Hp. destruct Hp as [_ [Hlt _]]. cbn [fst snd tag_of] in *. by zbool. }
  rewrite E. destruct Hp as [[Hid' _] Hp]. cbn [fst] in *.
  eapply misses_next; try done. eapply increasing_weaken; [|exact Hp]. lia.
Qed.

Lemma misses_skipped fuel pre h rest lo id v p done curs news q : loop_misses fuel ->
  increasing lo (ids_of (pre ++ h :: rest)) -> -1 <= lo ->
  increasing (-1) (fst <$> ((id, v) :: p)) -> Forall (field_fine F) ((id, v) :: p) ->
  Forall (bound_ok F) (h :: rest) -> length done = length pre ->
  id <> bf_id (fst h) \/ accepts (bf_type (fst h)) (type_of v) = false ->
  read_fields (spec_of <$> (relaxed <$> (h :: rest))) curs p = Some news ->
  missing q (h :: rest) ((id, v) :: p) -> (length (h :: rest) + length p < fuel)%nat ->
  misses (stop_type base)
    (turn fuel pre h rest (UnknownFieldOrTypeMismatch P (fst <$> (pre ++ h :: rest)) (length pre)
       (fst h) (type_of v) id (mkTo q (done ++ curs))))
    (encode F false v ++ all_bytes F base p).
Proof.
  intros IH Hi Hlo Hp Hf Hb Hd Hno Hn Hm Hl. unfold turn.
  apply Forall_cons_1 in Hf as [(Hid & Hv & Ho & Hz) Hf]. cbn [fst snd] in *.
  eapply misses_bind; [by apply (mismatch_skips P F laws)|]. rewrite all_bytes_split.
  eapply misses_bind; [apply (next_tag P F laws); [done|by eapply fine_ids]|].
  pose proof (missing_tail _ _ _ _ _ Hp Hm) as Hm'. destruct Hp as [[Hlt _] Hp]. cbn [fst] in *.
  eapply misses_after; try done. eapply increasing_weaken; [|exact Hp]. lia.
Qed.

(** The head of the schema and the head of the payload have the same id. *)
Lemma misses_here fuel pre h rest lo v p done curs news q : loop_misses fuel ->
  let id := bf_id (fst h) in
  increasing lo (ids_of (pre ++ h :: rest)) -> -1 <= lo ->
  increasing (-1) (fst <$> ((id, v) :: p)) -> Forall (field_fine F) ((id, v) :: p) ->
  Forall (bound_ok F) (h :: rest) -> length done = length pre ->
  read_fields (spec_of <$> (relaxed <$> (h :: rest))) curs ((id, v) :: p) = Some news ->
  missing q (h :: rest) ((id, v) :: p) -> (length (h :: rest) + length p < fuel)%nat ->
  misses (stop_type base)
    (turn fuel pre h rest
       (if field_type_id (bf_type (fst h)) =? type_of v
        then To_Field (fst <$> (pre ++ h :: rest)) (length pre) (fst h) (bf_read (fst h))
               (mkTo q (done ++ curs))
        else UnknownFieldOrTypeMismatch P (fst <$> (pre ++ h :: rest)) (length pre) (fst h)
               (type_of v) id (mkTo q (done ++ curs))))
    (encode F false v ++ all_bytes F base p).
Proof.
  intros IH id Hi Hlo Hp Hf Hb Hd Hn Hm Hl. destruct (ids_after _ _ _ _ Hi) as [Hh Hrest].
  pose proof (Forall_cons_1 _ _ _ Hb) as [Hok Hbr].
  pose proof (Forall_cons_1 _ _ _ Hf) as [(Hid & Hv & Ho & Hz) Hfp]. cbn [fst snd] in *.
  destruct curs as [|cur curs]; [by rewrite !fmap_cons in Hn|]. rewrite fmap_cons in Hn.
  assert (Hri : increasing id (ids_of (relaxed <$> rest))).
  { unfold ids_of. rewrite <-list_fmap_compose. exact Hrest. }
  destruct (read_here (relaxed h) _ _ _ _ _ _ _ eq_refl Hn Hri) as (y & ys & -> & Hys & Hy).
  cbn [relaxed fst snd bf_type bf_metadata] in Hy.
  destruct (accepts (bf_type (fst h)) (type_of v)) eqn:Ha.
  - destruct (field_type_id (bf_type (fst h)) =? type_of v) eqn:Ht.
    { apply Z.eqb_eq in Ht. eapply misses_taken; try done; [|simpl in *; lia]. by apply Hok. }
    pose proof Ha as Hacc. unfold accepts in Ha. rewrite Ht in Ha. cbn [orb] in Ha.
    destruct (bf_type (fst h)) as [x| | |] eqn:Hx; try discriminate Ha. cbn [accepts_basic] in Ha.
    destruct (basic_type_of_id (type_of v)) as [u|] eqn:Hu; [|discriminate Ha].
    subst id. erewrite mismatch_promotes by done.
    eapply misses_taken; try done; [by rewrite Hx| |simpl in *; lia].
    destruct (proj2 Hok x cur v y Hx Hy) as (s & -> & Hm' & ->).
    cbn [type_of] in Hu. rewrite type_id_roundtrip in Hu. injection Hu as <-.
    by apply (DeserializeBasic_reads P F laws).
  - assert (Ht : (field_type_id (bf_type (fst h)) =? type_of v) = false)
      by (unfold accepts in Ha; by apply orb_false_iff in Ha as [-> _]).
    rewrite Ht. cbn [is_required] in Hy. assert (y = cur) as -> by by injection Hy.
    eapply misses_skipped; try done; [by right|]. rewrite fmap_cons.
    eapply (read_absent (relaxed h)); [|done|done]. cbn [relaxed fst bf_id].
    destruct Hp as [_ Hp]. apply (lookup_above _ id); [exact Hp|lia].
Qed.

Lemma loop_misses_ok fuel : loop_misses fuel.
Proof.
  induction fuel as [|fuel IH]; intros pre rest lo p done curs news q Hi Hlo Hp Hf Hb Hd Hn Hm Hl;
    [lia|].
  destruct rest as [|h rest].
  { destruct Hm as [[_ He]|[Hq _]]; [by apply Exists_nil in He|].
    apply misses_rest; [done..|simpl in Hl; lia]. }
  destruct (ids_after _ _ _ _ Hi) as [Hh Hrest].
  pose proof (Forall_cons_1 _ _ _ Hb) as [Hok Hbr].
  rewrite fmap_cons. cbn [ReadFields]. rewrite <-fmap_cons.
  destruct p as [|[id v] p]; cbn [tag_of tail_bytes].
  - assert (E : (field_type_id (bf_type (fst h)) =? stop_type base) = false).
    { pose proof (field_type_id_range (bf_type (fst h))). destruct base; simpl;
        unfold BT_STOP, BT_STOP_BASE; by zbool. }
    rewrite E, andb_false_r, is_stop_type. cbn [negb]. rewrite andb_false_r.
    eapply (misses_drop _ _ _ _ lo []); try done. simpl in *. lia.
  - pose proof (Forall_cons_1 _ _ _ Hf) as [(Hid & Hv & Ho & Hz) Hfp]. cbn [fst snd] in *.
    rewrite not_stop by apply type_of_range. cbn [negb]. rewrite andb_true_r.
    destruct (Z.lt_trichotomy id (bf_id (fst h))) as [Hlt|[Heq|Hgt]].
    + replace (bf_id (fst h) =? id) with false by by zbool.
      replace (id <=? bf_id (fst h)) with true by by zbool. cbn [andb].
      eapply misses_skipped; try done; [left; lia| |simpl in *; lia].
      rewrite <-(read_fields_below id v p (relaxed <$> (h :: rest)) curs id); [exact Hn| |lia].
      rewrite fmap_cons. unfold ids_of. rewrite fmap_cons. split.
      * pose proof (ids_from _ _ _ _ Hi) as Ha. unfold ids_of in Ha. rewrite fmap_cons in Ha.
        destruct Ha as [Ha _]. cbn [fst relaxed bf_id]. lia.
      * rewrite <-list_fmap_compose. exact Hrest.
    + subst id. rewrite Z.eqb_refl, Z.leb_refl. cbn [andb].
      pose proof (misses_here fuel pre h rest lo v p done curs news q IH Hi Hlo Hp Hf Hb Hd Hn Hm
        ltac:(simpl in *; lia)) as Hx. unfold turn in Hx.
      by destruct (field_type_id (bf_type (fst h)) =? type_of v).
    + replace (bf_id (fst h) =? id) with false by by zbool.
      replace (id <=? bf_id (fst h)) with false by by zbool. cbn [andb].
      eapply (misses_drop _ _ _ _ lo ((id, v) :: p)); try done; [|simpl in *; lia].
      apply (lookup_above _ (bf_id (fst h))); [|lia].
      destruct Hp as [[_ Hlt] Hp]. cbn [fst] in *. split; [cbn [fst]; lia|exact Hp].
Qed.
End Level.

(** ** The end of the struct *)

Lemma next_required_exists (fields : list (bound_field (R := R))) :
  Forall (fun f => 0 <= bf_id f < invalid_field_id) fields ->
  Exists (fun f => is_required (bf_metadata f) = true) fields ->
  next_required_field fields 0 <> invalid_field_id.
Proof.
  induction 1 as [|f fields Hf _ IH]; intros He; [by apply Exists_nil in He|].
  cbn [next_required_field]. replace (0 <=? bf_id f) with true by by zbool. cbn [andb].
  destruct (is_required (bf_metadata f)) eqn:E; [lia|].
  apply Exists_cons in He as [He|He]; [by rewrite E in He|by apply IH].
Qed.

Lemma DynamicReadFields_misses base outer bs p vars news :
  increasing (-1) (ids_of bs) -> increasing (-1) (fst <$> p) -> Forall (field_fine F) p ->
  Forall (bound_ok F) bs -> read_fields (spec_of <$> (relaxed <$> bs)) vars p = Some news ->
  Forall (Forall (field_fine F)) outer -> (base = true -> outer = []) ->
  Exists (fun b => is_required (bf_metadata (fst b)) = true /\
                   lacks (bf_id (fst b)) (bf_type (fst b)) p) bs ->
  ends (fun r => to_required (fst r) <> invalid_field_id)
    (DynamicReadFields P base (fst <$> bs) (level_of bs vars))
    (all_bytes F (stops_base base outer) p ++ levels_bytes F false outer).
Proof.
  intros Hi Hp Hf Hok Hn Ho Hbo He. set (pbase := stops_base base outer).
  destruct (rl_stop _ _ laws pbase) as [sid Hs].
  unfold DynamicReadFields. rewrite all_bytes_split, <-app_assoc.
  eapply (ends_bind (eq (tag_of pbase sid p))).
  { eapply reads_ends; [|done]. destruct p as [|[id v] p]; [exact Hs|].
    apply Forall_cons_1 in Hf as [[Hid _] _].
    apply (rl_field _ _ laws); [apply type_of_range|exact Hid]. }
  intros ? <-. eapply ends_bind.
  { apply with_fuel_ends. intros fuel Hfuel.
    apply (loop_misses_ok pbase sid Hs fuel [] bs (-1) p [] vars news); try done; [by left|].
    rewrite length_fmap in Hfuel. pose proof (tail_bytes_length P F laws pbase p). lia. }
  intros [t l] [-> Hq]. cbn [fst snd] in *.
  eapply reads_ends; [by apply (after_loop P F laws)|exact Hq].
Qed.

(** [To::End] notices. *)
Lemma level_throws {A} base outer bs p vars news (k : to_level * bool -> M R A) :
  increasing (-1) (ids_of bs) -> increasing (-1) (fst <$> p) -> Forall (field_fine F) p ->
  Forall (bound_ok F) bs -> read_fields (spec_of <$> (relaxed <$> bs)) vars p = Some news ->
  Forall (Forall (field_fine F)) outer -> (base = true -> outer = []) ->
  Exists (fun b => is_required (bf_metadata (fst b)) = true /\
                   lacks (bf_id (fst b)) (bf_type (fst b)) p) bs ->
  throws (let! r := DynamicReadFields P base (fst <$> bs) (level_of bs vars) in
          To_End (fst <$> bs) (fst r) ;;; k r)
    (all_bytes F (stops_base base outer) p ++ levels_bytes F false outer).
Proof.
  intros Hi Hp Hf Hok Hn Ho Hbo He. rewrite <-(app_nil_r (_ ++ levels_bytes _ _ _)).
  eapply ends_throws; [by eapply DynamicReadFields_misses|]. intros [l stopped] Hq.
  apply throws_left. unfold To_End. cbn [fst] in *.
  assert (Hex : next_required_field (fst <$> bs) 0 <> invalid_field_id).
  { apply next_required_exists.
    - apply increasing_forall in Hi. unfold ids_of in Hi. rewrite Forall_fmap in Hi.
      rewrite Forall_fmap. eapply Forall_impl; [|exact Hi]. cbv beta. cbn. lia.
    - apply Exists_fmap. eapply Exists_impl; [|exact He]. cbn. by intros b [Hb _]. }
  apply Z.eqb_neq in Hq, Hex. rewrite Hq, Hex. apply throw_throws.
Qed.

(** ** Objects *)

Lemma relaxed_specs fs : spec_of <$> (relaxed <$> bounds P F fs) =
  (fun f => (f, read_as F (snd f))) <$> relax_fields fs.
Proof.
  unfold bounds, relax_fields. rewrite <-!list_fmap_compose. apply list_fmap_ext.
  by intros _ [[id m] t] _.
Qed.

Lemma relaxed_members fs :
  snd <$> ((fun f => (fst f, match snd f with
      | FBasic b => VBasic (VariantGet (default_value (snd (fst f))) b)
      | _ => default_object (snd f) end)) <$> relax_fields fs) =
  (fun f => default_member (snd (fst f)) (snd f)) <$> fs.
Proof.
  unfold relax_fields. rewrite <-!list_fmap_compose. apply list_fmap_ext.
  intros _ [[id m] t] _. by destruct t.
Qed.

Lemma own_members (fs : list (Z * Metadata * ftype)) :
  snd <$> ((fun f => (fst f, match snd f with
      | FBasic b => VBasic (VariantGet (default_value (snd (fst f))) b)
      | _ => default_object (snd f) end)) <$> fs) =
  (fun f : Z * Metadata * ftype => default_member (snd (fst f)) (snd f)) <$> fs.
Proof.
  rewrite <-list_fmap_compose. apply list_fmap_ext. intros _ [[id m] t] _. by destruct t.
Qed.

(** The reading of the payload succeeds but for the required fields of the class. *)
Definition reads_relaxed (bt : option ftype) (fs : list (Z * Metadata * ftype)) (v : value) : Prop :=
  exists r, read_as F (FStruct bt (relax_fields fs))
    (default_object (FStruct bt (relax_fields fs))) v = Some r.

Lemma relax_levels bt fs : type_levels (FStruct bt (relax_fields fs)) = type_levels (FStruct bt fs).
Proof. done. Qed.

Lemma struct_throws bt fs b0 fs0 : type_ok (FStruct bt fs) ->
  value_ok (VStruct b0 fs0) -> ordered (VStruct b0 fs0) ->
  zlen (encode F false (VStruct b0 fs0)) < 2 ^ 32 -> reads_relaxed bt fs (VStruct b0 fs0) ->
  Exists (fun f => is_required (snd (fst f)) = true /\
    lacks (fst (fst f)) (snd f)
      (present_fields F (own_fields (FStruct bt fs) (VStruct b0 fs0)))) fs ->
  throws (Parse P false (FStruct bt fs) (default_object (FStruct bt fs)))
    (encode F false (VStruct b0 fs0)).
Proof.
  intros (Hbok & Hinc & Htok) Hv Ho Hl [r Hr] He. apply all_Forall in Htok.
  pose proof (sub_fits F false b0 fs0 Hl) as Hbody.
  destruct (body_at_levels F false (type_levels (FStruct bt fs)) b0 fs0) as
    (bv & vfs & outer & Ecore & Ebody & Hf & Hout & Hbo); [apply type_levels_pos|done..|].
  pose proof (at_levels_bound (type_levels (FStruct bt fs)) (VStruct b0 fs0)
    (type_levels_pos bt fs)) as Hcore.
  unfold own_fields in He. rewrite Ecore in Hcore, He.
  cbn [default_object read_as] in Hr. rewrite relax_levels, Ecore, relaxed_members in Hr.
  rewrite encode_struct. cbn [Parse default_object].
  set (dbase := match bt with None => None | Some b => Some (default_object b) end) in *.
  pose proof (rl_begin _ _ laws false (zlen (body_of F false b0 fs0))) as Hbegin.
  cbv iota in Hbegin. eapply throws_bind; [by apply Hbegin, zlen_fits|].
  rewrite Ebody. unfold body_of. rewrite <-app_assoc.
  destruct (match bt, dbase, bv with
            | None, None, None => Some None
            | Some bt', Some bvar', Some bv' => Some <$> read_as F bt' bvar' bv'
            | _, _, _ => None end) as [b|] eqn:Hb; [|done].
  eapply throws_bind.
  { eapply (base_reads P F bt fs dbase bv vfs b); try done.
    - intros t _. apply (Parse_reads P F laws).
    - intros t ->. exact Hbok. }
  cbv zeta. rewrite (rl_dynamic _ _ laws).
  destruct (read_fields _ _ _) as [news|] eqn:Hn; [|done].
  rewrite present_bytes, <-(bounds_fields P F), own_members.
  destruct (level_fine_parts _ _ _ Hf) as [_ Hfine]. destruct Hf as (_ & (_ & Hoi & _) & _).
  eapply level_throws; [by rewrite bounds_ids|by apply present_increasing|done| | |done|done|].
  - apply bounds_ok; [|done]. apply Forall_true. intros f. apply (Parse_reads P F laws).
  - rewrite relaxed_specs. exact Hn.
  - unfold bounds. apply Exists_fmap. exact He.
Qed.
End Misses.

(** * Properties *)

(** C28: a missing required field.  When the payload of an object has no value for some
    required field of the reader's class (the field is absent, or its type does not
    match), and could be read otherwise, deserialization throws [CoreException]:
    the object is never returned, whichever required field it is and whatever
    fields precede and follow it. *)
Theorem missing_required_throws {R} `{InputStreamLaws R} version (P : ProtocolReader R) F
    bt fs b0 fs0 (s : R) rest :
  (P = FastBinaryReader /\ F = fb_format) \/
  (P = CompactBinaryReader version /\ F = cb_format version) ->
  type_ok (FStruct bt fs) -> value_ok (VStruct b0 fs0) -> ordered (VStruct b0 fs0) ->
  zlen (encode F false (VStruct b0 fs0)) < 2 ^ 32 ->
  reads_relaxed F bt fs (VStruct b0 fs0) ->
  Exists (fun f => is_required (snd (fst f)) = true /\
    lacks (fst (fst f)) (snd f)
      (present_fields F (own_fields (FStruct bt fs) (VStruct b0 fs0)))) fs ->
  readable s -> view s = encode F false (VStruct b0 fs0) ++ rest ->
  exists s', Deserialize P (FStruct bt fs) s = (Err (Thrown CoreException), s').
Proof.
  intros HP Ht Hv Ho Hl Hr He Hs Hw. unfold Deserialize.
  refine (throws_left _ _ _ _ s rest Hs Hw).
  destruct HP as [[-> ->]|[-> ->]].
  - by apply (struct_throws _ _ fb_reader_laws).
  - by apply (struct_throws _ _ (cb_reader_laws version)).
Qed.

(** [sample] read by a schema that requires a field 100 between those it has. *)
Definition stricter_fields : list (Z * Metadata * ftype) :=
  [(1, optional_zero, FBasic (TUInt W16));
   (100, no_default, FBasic (TUInt W64));
   (300, no_default, FMap (TUInt W8) (FStruct None [(3, no_default, FBasic TWString)]))].
Definition stricter_base : ftype :=
  FStruct None [(0, no_default, FBasic (TInt W32)); (7, no_default, FBasic TBool)].

Lemma missing_required_throws_witness :
  exists s', Deserialize (CompactBinaryReader v2) (FStruct (Some stricter_base) stricter_fields)
    (buffer_of (encode (cb_format v2) false sample)) = (Err (Thrown CoreException), s').
Proof.
  destruct (buffer_reads (encode (cb_format v2) false sample)) as [H1 H2]; [by vm_compute|].
  refine (missing_required_throws v2 (CompactBinaryReader v2) (cb_format v2) (Some stricter_base)
    stricter_fields _ _ (buffer_of (encode (cb_format v2) false sample)) []
    (or_intror (conj eq_refl eq_refl)) _ sample_ok sample_ordered eq_refl _ _ H1
    (eq_trans H2 (eq_sym (app_nil_r _)))).
  - by_parts.
  - eexists. by vm_compute.
  - right. left. split; [done|]. intros v Hv. discriminate Hv.
Defined.
