(* ===== verification/SimpleJsonErrors.v ===== *)
(** What [SimpleJsonReader] does with documents that are not what its class expects. *)

From S2P Require Import Prelude Streams DataType Metadata Protocol Json.
From S2P Require Import SimpleJson SimpleJsonCorrect Schema Parser SimpleJsonReader.
From S2P Require Import ParserCorrect Deserialization ParserErrors SimpleJsonReaderCorrect.
From S2P Require Import SimpleJsonRoundTrip InputBuffer.

Section Errors.
Context {R V : Type} `{InputStream R} (D : dom_library R V) (vector_bool : bool).
#[local] Abbreviation J := (SimpleJsonReader (R := R) (V := V)).
#[local] Abbreviation parse := (DOMParse D vector_bool).
#[local] Abbreviation bound_fields := (list (bound_field (R := J))).

(** ** Reading moves the reader to no other value *)

Definition stays {A} (m : M J A) : Prop := forall r, sj_value (snd (m r)) = sj_value r.

Lemma stays_bind {A B} (m : M J A) (k : A -> M J B) : stays m -> (forall a, stays (k a)) ->
  stays (bind m k).
Proof.
  intros Hm Hk r. unfold bind. specialize (Hm r). destruct (m r) as [[a|e] r1]; [|done].
  cbn in *. by rewrite Hk.
Qed.
Lemma stays_child {A} y (m : M J A) : stays (with_child y m).
Proof. intros r. unfold with_child. by destruct (m _). Qed.
Lemma stays_same {A} (m : M J A) : (forall r, snd (m r) = r) -> stays m.
Proof. intros Hm r. by rewrite Hm. Qed.

Lemma same_option {A} (o : option A) : stays (of_option o).
Proof. by destruct o. Qed.
Lemma same_GetValue : stays (GetValue (R := R) (V := V)).
Proof. intros [[| |] ?]; done. Qed.

Lemma same_Read t x : stays (detail_Read D x t).
Proof.
  destruct t; cbn [detail_Read]; apply stays_bind; try apply same_option; try done.
  intros chars. apply stays_bind; [|done]. unfold utf_to_utf. by case_match.
Qed.
Lemma same_elements : stays (ArrayElements D).
Proof. apply stays_bind; [apply same_GetValue|done]. Qed.

Lemma stays_To_Field fields i (f : bound_field (R := J)) read l : (forall x, stays (read x)) ->
  stays (To_Field fields i f read l).
Proof.
  intros Hr. apply stays_bind; [unfold Validate; by repeat case_match|]. intros l'.
  apply stays_bind; [apply same_option|]. intros var. by apply stays_bind.
Qed.

Lemma stays_fields fields i rest l : stays (DOMReadFields D fields i rest l).
Proof.
  revert i l. induction rest as [|f rest IH]; intros i l; [done|]. cbn [DOMReadFields].
  apply stays_bind.
  { apply stays_bind; [|done]. apply stays_bind; [apply same_GetValue|done]. }
  intros [x|]; apply stays_bind; [apply stays_child|done|done|done].
Qed.

Lemma stays_list m read items xs : stays (read_list D m read items xs).
Proof.
  revert xs. induction items as [|item items IH]; intros [|x xs]; try done. cbn [read_list].
  apply stays_bind; [|intros; by apply stays_bind].
  repeat case_match; try done; apply stays_child.
Qed.
Lemma stays_set m b items xs : stays (read_set D m b items xs).
Proof.
  revert items. induction xs as [|x xs IH]; intros items; [done|]. cbn [read_set].
  case_match; [|done]. apply stays_bind; [apply same_Read|done].
Qed.
Lemma stays_map n xs : (length xs <= n)%nat -> forall mk mv kt read fresh items,
  stays (read_map D mk mv kt read fresh items xs).
Proof.
  revert xs. induction n as [|n IH]; intros [|x xs] Hl mk mv kt read fresh items; try done;
    cbn in Hl; [lia|]. cbn [read_map].
  apply stays_bind; [case_match; [apply same_Read|done]|]. intros key. destruct xs as [|y xs]; [done|].
  apply stays_bind; [case_match; apply stays_child|]. intros v. apply IH. cbn in Hl. lia.
Qed.

Lemma base_stays t var : stays (parse true t var).
Proof.
  revert var. induction t as [b|bt fs Hb _|k e _|kt vt _] using ftype_ind_nested; intros var; cbn [DOMParse].
  - apply stays_bind; [|done]. apply stays_bind; [apply same_GetValue|intros; apply same_Read].
  - destruct var as [|bvar vars| |]; try done. apply stays_bind; [done|]. intros _.
    apply stays_bind.
    { destruct bt as [bt|], bvar as [bvar|]; try done. apply stays_bind; [by apply Hb|].
      intros [? []]; done. }
    intros bvar'. apply stays_bind; [apply stays_fields|]. intros l. apply stays_bind; [|done].
    unfold To_End. by case_match.
  - destruct var as [| |k' et items|]; try done. apply stays_bind; [|done]. destruct k.
    + destruct e; try done. apply stays_bind; [apply same_elements|intros; apply stays_set].
    + case_match; apply stays_bind; try apply same_elements; [done|intros; apply stays_list].
  - destruct var as [| | |k' v' items]; try done. apply stays_bind; [|done].
    apply stays_bind; [apply same_elements|]. intros xs. by apply (stays_map (length xs)).
Qed.

(** ** Required fields *)

(** The object has a member for the field. *)
Definition has_member (x : V) (f : bound_field (R := J)) : Prop :=
  find_member D (bf_id f) (FieldName (bf_metadata f))
    (JsonTypeMatching_new (field_type_id (bf_type f)) (field_type_id (bf_type f)) false)
    (if IsObject D x then Members D x else []) <> None.

Lemma at_value_stays (r r' : J) x : sj_value r' = sj_value r -> at_value r x -> at_value r' x.
Proof. unfold at_value. by intros ->. Qed.

(** One turn of the loop over the fields. *)
Lemma turn_inv fields i f rest l (r r' : J) x res : at_value r x ->
  DOMReadFields D fields i (f :: rest) l r = (Ok res, r') ->
  exists l1 r1, DOMReadFields D fields (S i) rest l1 r1 = (Ok res, r') /\ at_value r1 x /\
    ((~ has_member x f /\ to_required l1 = to_required l) \/
     (has_member x f /\ is_required (bf_metadata f) = false /\ to_required l1 = to_required l) \/
     (has_member x f /\ is_required (bf_metadata f) = true /\ to_required l = bf_id f /\
      to_required l1 = next_required_field fields (bf_id f + 1))).
Proof.
  intros Hx. cbn [DOMReadFields]. unfold FindField, ObjectMembers. rewrite !bind_assoc.
  rewrite (bind_ok _ _ _ _ _ (at_value_get r x Hx)), !bind_ret. unfold has_member.
  destruct (find_member _ _ _ _ _) as [y|].
  - intros (l1 & r1 & E1 & E2)%bind_inv_ok. exists l1, r1. split; [exact E2|].
    pose proof (stays_child y (To_Field fields i f (bf_read f) l) r) as Hst.
    rewrite E1 in Hst. cbn in Hst. split; [by eapply at_value_stays|]. right.
    unfold with_child in E1. destruct (To_Field _ _ _ _ _ _) as [[l1'|e] r1'] eqn:E; [|done].
    injection E1 as -> <-. unfold To_Field in E.
    apply bind_inv_ok in E as (l0 & r0 & Ev & E). apply bind_inv_ok in E as (var & r3 & _ & E).
    apply bind_inv_ok in E as (var' & r4 & _ & E). injection E as <- _. cbn [to_required].
    unfold Validate in Ev. destruct (is_required _) eqn:Hq.
    + right. destruct (to_required l =? bf_id f) eqn:Ei; [|done]. injection Ev as <- _.
      apply Z.eqb_eq in Ei. by split_and!.
    + left. injection Ev as <- _. by split_and!.
  - rewrite bind_ret. intros E. exists l, r. split_and!; [exact E|exact Hx|]. left.
    split; [by intros []|done].
Qed.

Lemma stuck_required fields i rest l (r r' : J) x l' d m : at_value r x ->
  DOMReadFields D fields i rest l r = (Ok (l', d), r') -> to_required l = m ->
  Forall (fun f => m < bf_id f) rest -> to_required l' = m.
Proof.
  revert i l r. induction rest as [|f rest IH]; intros i l r Hx E Hm Hr.
  - injection E as <- _ _. done.
  - apply Forall_cons_1 in Hr as [Hf Hr].
    destruct (turn_inv _ _ _ _ _ _ _ _ _ Hx E) as (l1 & r1 & E1 & Hx1 &
      [(_ & Hl)|[(_ & _ & Hl)|(_ & _ & Hl & _)]]); [..|lia];
      (eapply IH; [exact Hx1|exact E1|by rewrite Hl|done]).
Qed.

#[local] Abbreviation bound := (bound_field (R := J) * (value -> value -> option value))%type.

Lemma all_required (pre rest : list bound) l (r r' : J) x l' d : at_value r x ->
  increasing (-1) (ids_of (pre ++ rest)) ->
  DOMReadFields D (fst <$> (pre ++ rest)) (length pre) (fst <$> rest) l r = (Ok (l', d), r') ->
  to_required l = next_required_field (fst <$> rest) 0 ->
  Forall (fun b => is_required (bf_metadata (fst b)) = true -> has_member x (fst b)) rest \/
  to_required l' <> invalid_field_id /\
  Exists (fun b => is_required (bf_metadata (fst b)) = true) rest.
Proof.
  revert pre l r. induction rest as [|b rest IH]; intros pre l r Hx Hi E Hl; [by left|].
  specialize (IH (pre ++ [b])). rewrite <-!app_assoc, length_app in IH. cbn [app length] in IH.
  rewrite Nat.add_1_r in IH. rewrite fmap_cons in E.
  pose proof Hi as Hids. unfold ids_of in Hids. rewrite fmap_app, fmap_cons in Hids.
  assert (Hb : 0 <= bf_id (fst b) < invalid_field_id).
  { apply increasing_forall, Forall_app in Hids as [_ Hids].
    apply Forall_cons_1 in Hids as [Hids _]. cbn in Hids. lia. }
  destruct (turn_inv _ _ _ _ _ _ _ _ _ Hx E) as (l1 & r1 & E1 & Hx1 & Hc).
  destruct (is_required (bf_metadata (fst b))) eqn:Hq.
  - assert (Hnext : to_required l = bf_id (fst b)) by (rewrite Hl; apply next_required_here; [lia|done]).
    destruct Hc as [(Hno & Hl1)|[(_ & ? & _)|(Hm & _ & _ & Hl1)]]; [|congruence|].
    + right. split; [|by left]. erewrite (stuck_required _ _ _ _ _ _ _ _ _ _ Hx1 E1 eq_refl).
      { rewrite Hl1, Hnext. lia. }
      rewrite Hl1, Hnext. apply ids_from in Hi as [_ Hi]. apply increasing_forall in Hi.
      unfold ids_of in Hi. rewrite Forall_fmap in Hi. rewrite Forall_fmap. eapply Forall_impl; [|exact Hi]. cbn. lia.
    + destruct (IH l1 r1 Hx1 Hi E1) as [Hall|[Hs He]].
      * rewrite Hl1. by apply (next_required_after _ _ _ (-1)).
      * left. by constructor.
      * right. split; [done|by right].
  - destruct (IH l1 r1 Hx1 Hi E1) as [Hall|[Hs He]].
    + rewrite next_required_optional in Hl by done.
      destruct Hc as [(_ & ->)|[(_ & _ & ->)|(_ & ? & _)]]; congruence.
    + left. constructor; [by rewrite Hq|done].
    + right. split; [done|by right].
Qed.

Lemma next_required_some (bs : list bound) : increasing (-1) (ids_of bs) ->
  Exists (fun b => is_required (bf_metadata (fst b)) = true) bs ->
  next_required_field (fst <$> bs) 0 <> invalid_field_id.
Proof.
  intros Hi He. assert (Hr : Forall (fun b : bound => 0 <= bf_id (fst b) < invalid_field_id) bs).
  { apply increasing_forall in Hi. unfold ids_of in Hi. rewrite Forall_fmap in Hi.
    eapply Forall_impl; [|exact Hi]. cbn. lia. }
  clear Hi. induction He as [b bs Hb|b bs _ IH]; apply Forall_cons_1 in Hr as [Hb' Hr].
  - rewrite next_required_here; [lia..|done].
  - rewrite fmap_cons. cbn [next_required_field]. case_match; [lia|by apply IH].
Qed.

(** The own fields of a level, and what they were read from. *)
Lemma level_has_required fs l (r r' : J) l' d u x : increasing (-1) ((fun f => fst (fst f)) <$> fs) ->
  DOMReadFields D (dom_bounds D vector_bool fs).*1 0 (dom_bounds D vector_bool fs).*1 l r = (Ok (l', d), r') ->
  to_required l = next_required_field (dom_bounds D vector_bool fs).*1 0 ->
  To_End (dom_bounds D vector_bool fs).*1 l' r' = (Ok u, r') -> at_value r x ->
  Forall (fun f => is_required (snd (fst f)) = true ->
    has_member x (mkBF (fst (fst f)) (snd (fst f)) (snd f) ret)) fs.
Proof.
  intros Hi E Hl Ee Hx.
  destruct (all_required [] (dom_bounds D vector_bool fs) l r r' x l' d) as [Hall|[Hs He]];
    [done|by cbn [app]; rewrite dom_bounds_ids|exact E|done| |].
  - unfold dom_bounds in Hall. rewrite Forall_fmap in Hall. exact Hall.
  - apply next_required_some in He; [|by rewrite dom_bounds_ids]. unfold To_End in Ee.
    rewrite !(proj2 (Z.eqb_neq _ _)) in Ee by done. done.
Qed.

(** An object is read only from a document with a member for every required field, those
    of its bases included. *)
Lemma parsed_has_required t base var (r r' : J) res x : type_ok t -> field_type_id t = BT_STRUCT ->
  shaped t var -> (base = true -> at_value r x) -> parse base t var r = (Ok res, r') ->
  exists y, at_value r' y /\ (base = true -> y = x) /\
    (base = false -> sj_value r = Unparsed -> exists s', ParseStream D (sj_stream r) = (Ok y, s')) /\
    Forall (fun f => is_required (snd (fst f)) = true ->
      has_member y (mkBF (fst (fst f)) (snd (fst f)) (snd f) ret)) (type_fields t).
Proof.
  revert base var r r' res x. induction t as [[|[]|[]| | | |]|bt fs Hb _|[] e _|kt vt _] using ftype_ind_nested;
    intros base var r r' res x Ht Hty Hsh Hx E; try done.
  destruct Ht as (Hbok & Hi & _). destruct var as [|bvar vars| |]; try done. destruct Hsh as [Hsh _].
  cbn [DOMParse] in E. apply bind_inv_ok in E as (u0 & r1 & E0 & E). apply bind_inv_ok in E as (bvar' & r2 & Eb & E).
  cbv zeta in E. apply bind_inv_ok in E as ([l' d] & r3 & E & E'). cbn [fst snd] in E'.
  apply bind_inv_ok in E' as (u & r4 & Ee & E'). injection E' as _ Er4.
  assert (E4 : r4 = r3) by (unfold To_End in Ee; case_match; [done|by injection Ee]). subst r' r4.
  assert (Hy : exists y, at_value r1 y /\ (base = true -> y = x) /\
    (base = false -> sj_value r = Unparsed -> exists s', ParseStream D (sj_stream r) = (Ok y, s'))).
  { destruct base; [injection E0 as _ <-; exists x; split_and!; [by apply Hx|done|done]|]. unfold ParseDocument in E0.
    rewrite bind_get in E0. unfold at_value. destruct (sj_value r) as [|y|y] eqn:Ev.
    - apply bind_inv_ok in E0 as (y & r0 & Ep & E0). injection E0 as _ <-. exists y.
      split_and!; [by left|done|]. intros _ _. unfold zoom in Ep.
      destruct (ParseStream D (sj_stream r)) as [o s'] eqn:Es. injection Ep as -> _. by exists s'.
    - apply bind_inv_ok in E0 as (z & r0 & _ & E0). injection E0 as _ <-. exists z. by split_and!; [left|..].
    - injection E0 as _ <-. exists y. by split_and!; [right|..]. }
  destruct Hy as (y & Hy1 & Hyx & Hyp). rewrite <-dom_bounds_fields in E, Ee.
  pose proof (stays_fields (dom_bounds D vector_bool fs).*1 0 (dom_bounds D vector_bool fs).*1
    (mkTo (next_required_field (dom_bounds D vector_bool fs).*1 0) (snd <$> vars)) r2) as Hst.
  rewrite E in Hst. cbn in Hst.
  assert (Hbase : at_value r2 y /\ Forall (fun f => is_required (snd (fst f)) = true ->
    has_member y (mkBF (fst (fst f)) (snd (fst f)) (snd f) ret))
    match bt with Some b => type_fields b | None => [] end).
  { destruct bt as [bt|], bvar as [bvar|]; try done; [|by injection Eb as _ <-].
    apply bind_inv_ok in Eb as ([bv []] & r5 & Eb & E5); [done|]. injection E5 as _ <-.
    destruct Hbok as [Hbs Hbok].
    destruct (Hb bt eq_refl true bvar r1 r5 (bv, false) y Hbok Hbs Hsh (fun _ => Hy1) Eb)
      as (z & Hz & Ez & _ & Hall). by rewrite Ez in * by done. }
  destruct Hbase as [Hy2 Hbase]. exists y. split_and!; [by eapply at_value_stays|done|done|].
  cbn [type_fields]. apply Forall_app. split; [done|]. by eapply level_has_required.
Qed.
End Errors.

(** C26: required fields in JSON.  Whatever the text, when [Deserialize] returns an object the
    document has a member, of a type the field can be read from and by the field's name or
    number, for every required field of the class and its bases. *)
Theorem json_required_present {R V} `{InputStream R} (D : dom_library R V) vector_bool t
    (input : R) v : type_ok t -> field_type_id t = BT_STRUCT ->
  Deserialize D vector_bool t input = Ok v ->
  exists s x s', RapidJsonInputStream_new input = Ok s /\ ParseStream D s = (Ok x, s') /\
    Forall (fun f => is_required (snd (fst f)) = true ->
      has_member D x (mkBF (fst (fst f)) (snd (fst f)) (snd f) ret)) (type_fields t).
Proof.
  intros Ht Hs E. unfold Deserialize, SimpleJsonReader_new in E.
  destruct (RapidJsonInputStream_new input) as [s|] eqn:En; [|done]. cbn [obind] in E.
  remember (mkSJR Unparsed s) as r eqn:Er. unfold bind in E.
  destruct (DOMParse D vector_bool false t (default_object t) r) as [[res|e] r1] eqn:Ep; [|done].
  destruct (ParseDocument D r) as [[u|e] r0] eqn:Ed.
  2: { exfalso. destruct t as [[|[]|[]| | | |]|bt fs|[]|]; try done. cbn [DOMParse default_object] in Ep.
       unfold bind in Ep. by rewrite Ed in Ep. }
  assert (Hx : exists x, sj_value r0 = Document x).
  { rewrite Er in Ed. apply bind_inv_ok in Ed as (r' & r2 & Eg & Ed). injection Eg as <- <-.
    apply bind_inv_ok in Ed as (y & r3 & _ & Ed). injection Ed as _ <-. by exists y. }
  destruct Hx as [x _].
  destruct (parsed_has_required D vector_bool t false (default_object t) r r1 res x) as
    (y & _ & _ & Hy & Hall); [done|done|apply default_shaped|done|exact Ep|].
  destruct (Hy eq_refl) as [s' Es]; [by rewrite Er|]. exists s, y, s'. rewrite Er in Es. done.
Qed.

(** A mapped value of the wrong type.  A value that is not a string is left out of a list
    of strings and is refused as the key of a map; as the value of a map it is read as a
    string without a check, which the library gives no meaning. *)
Lemma json_mapped_value_unchecked {R V} `{InputStream R} (D : dom_library R V) vector_bool
    kt (r : SimpleJsonReader (R := R)) x y z k : at_value r x ->
  IsString D y = false -> GetString D y = None -> IsArray D x = true ->
  (Elements D x = [y] ->
    DeserializeList D (FBasic TString) (fun c => let! v := DOMParse D vector_bool false (FBasic TString) c in
      ret (fst v)) [] r = (Ok [VBasic (SString [])], r) /\
    fst (DeserializeMap D TString (FBasic kt) ret r) = Err (Thrown CoreException)) /\
  (Elements D x = [z; y] -> BasicTypeMatch D (JsonTypeMatching_new (get_type_id kt) (get_type_id kt) false) z = true ->
    detail_Read D z kt r = (Ok k, r) ->
    fst (DeserializeMap D kt (FBasic TString) (fun c =>
      let! v := DOMParse D vector_bool false (FBasic TString) c in ret (fst v)) r) = Err Undefined).
Proof.
  intros Hx Hy Hg Ha. assert (Hel : ArrayElements D r = (Ok (Elements D x), r)).
  { unfold ArrayElements. rewrite (bind_ok _ _ _ _ _ (at_value_get r x Hx)). by rewrite Ha. }
  split; [intros E; split|intros E Hz Hk]; unfold DeserializeList, DeserializeMap;
    rewrite (bind_ok _ _ _ _ _ Hel), E.
  - cbn [length resize_list take Nat.sub replicate app read_list]. unfold ComplexTypeMatch, BasicTypeMatch.
    rewrite Hy. cbn. by rewrite !andb_false_r.
  - cbn [read_map]. unfold BasicTypeMatch. rewrite Hy. cbn. by rewrite !andb_false_r.
  - cbn [read_map]. rewrite Hz, (bind_ok _ _ _ _ _ Hk).
    assert (Hr : forall c, with_child y (let! v := DOMParse D vector_bool false (FBasic TString) c in
      ret (fst v)) r = (Err Undefined, r)).
    { intros c. unfold with_child, bind. cbn. unfold sj_Read, bind. cbn. rewrite Hg. by destruct r. }
    erewrite bind_err; [|by case_match]. done.
Qed.

(** * Samples *)

Definition one_field (id : Z) (name : list Z) (t : ftype) : Z * Metadata * ftype :=
  (id, named_field name [], t).
Definition text_of (units : list Z) : list byte := z2b <$> units.

(** [{"a":7}] and [{"b":7}], for a class with a required field "a". *)
Lemma json_required_present_witness :
  (exists s x s', RapidJsonInputStream_new (buffer_of (text_of [123; 34; 97; 34; 58; 55; 125])) = Ok s /\
    ParseStream small_dom s = (Ok x, s') /\
    has_member (R := InputBuffer) small_dom x (mkBF 0 (named_field [97] []) (FBasic (TInt W8)) ret)) /\
  Deserialize small_dom false (FStruct None [one_field 0 [97] (FBasic (TInt W8))])
    (buffer_of (text_of [123; 34; 98; 34; 58; 55; 125])) = Err (Thrown CoreException).
Proof.
  split; [|by vm_compute].
  assert (Ht : type_ok (FStruct None [one_field 0 [97] (FBasic (TInt W8))]))
    by (repeat apply conj; by vm_compute).
  assert (E : Deserialize small_dom false (FStruct None [one_field 0 [97] (FBasic (TInt W8))])
    (buffer_of (text_of [123; 34; 97; 34; 58; 55; 125])) =
    Ok (VStruct None [(0, named_field [97] [], VBasic (SInt W8 7))])) by by vm_compute.
  destruct (json_required_present small_dom false _ _ _ Ht eq_refl E) as (s & x & s' & E1 & E2 & Hall).
  exists s, x, s'. apply Forall_cons_1 in Hall as [Hall _]. exact (conj E1 (conj E2 (Hall eq_refl))).
Defined.

Lemma json_mapped_value_unchecked_witness :
  let five := JNumber (text_of [53]) in let six := JNumber (text_of [54]) in
  fst (DeserializeMap (R := InputBuffer) small_dom (TInt W32) (FBasic TString) (fun c =>
    let! v := DOMParse small_dom false false (FBasic TString) c in ret (fst v))
    (mkSJR (Document (JArray [five; six])) (mkRJIS (buffer_of []) 0 0))) = Err Undefined.
Proof.
  intros five six.
  assert (Hm : BasicTypeMatch (R := InputBuffer) small_dom
    (JsonTypeMatching_new (get_type_id (TInt W32)) (get_type_id (TInt W32)) false) five = true)
    by by vm_compute.
  destruct (json_mapped_value_unchecked small_dom false (TInt W32)
    (mkSJR (Document (JArray [five; six])) (mkRJIS (buffer_of []) 0 0)) (JArray [five; six]) six five
    (SInt W32 5) (or_introl eq_refl) eq_refl eq_refl eq_refl) as [_ Hu].
  apply (Hu eq_refl Hm). by vm_compute.
Defined.

(** A derived field with the name of a base's field is written after it under the same name,
    and both are read from the first member. *)
Lemma shared_name_reads_first :
  let t := FStruct (Some (FStruct None [one_field 0 [97] (FBasic (TInt W32))]))
             [one_field 0 [97] (FBasic (TInt W32))] in
  let object x y := VStruct (Some (VStruct None [(0, named_field [97] [], VBasic (SInt W32 x))]))
             [(0, named_field [97] [], VBasic (SInt W32 y))] in
  fst (DOMParse (R := InputBuffer) small_dom false true t (default_object t)
    (mkSJR (Document (json_of small_rapidjson true (object 1 2))) (mkRJIS (buffer_of []) 0 0))) =
  Ok (object 1 1, false).
Proof. by vm_compute. Qed.
