(* ===== verification/EndToEnd.v ===== *)
(** From an object to memory and back.

    The documented use of the library: serialize into an [OutputBuffer], take its
    [GetBuffer()], hand the blob to an [InputBuffer] and deserialize.  The theorem
    joins the contracts of the memory streams and of the two directions of the
    protocol; the payload passes through the store, where the output buffer may
    have grown, moved and chained its ranges. *)

From S2P Require Import Prelude Memory Blob Streams Encoding InputBuffer OutputBuffer.
From S2P Require Import OutputCounter DataType Metadata Protocol Serializer FastBinary.
From S2P Require Import CompactBinary CompactBinaryReader SimpleBinary Schema Parser.
From S2P Require Import ParserCorrect Deserialization StaticRoundTrip.

(** An input buffer on a blob has the blob's bytes unread. *)
Lemma InputBuffer_of_blob_reads m b bs : blob_ok m b bs ->
  readable (InputBuffer_of_blob m b) /\ view (InputBuffer_of_blob m b) = bs.
Proof.
  intros Hb. split.
  - exists bs. split; [exact Hb|]. simpl. lia.
  - simpl. unfold ib_view. cbn [InputBuffer_of_blob ib_mem ib_blob ib_pointer].
    destruct Hb as [_ ->]. done.
Qed.

Section EndToEnd.
Context `{Allocator}.

(** An empty output buffer has room for 2^31 - 1 bytes. *)
Lemma fresh_room m (bs : list byte) : mem_wf m -> zlen bs < 2 ^ 31 ->
  room (OutputBuffer_default m) (zlen bs).
Proof. intros Hm Hl. exists []. split; [by apply OutputBuffer_default_ok|exact Hl]. Qed.

(** What was appended to an empty output buffer comes out of an input buffer on its
    [GetBuffer()]. *)
Lemma through_memory m (s' : OutputBuffer) (bs : list byte) : mem_wf m -> zlen bs < 2 ^ 31 ->
  appends (OutputBuffer_default m) bs s' ->
  exists b m', GetBuffer s' = (Ok b, m') /\
    readable (InputBuffer_of_blob m' b) /\ view (InputBuffer_of_blob m' b) = bs.
Proof.
  intros Hm Hl Ha. destruct (Ha [] (OutputBuffer_default_ok m Hm)) as [Hok _].
  destruct (GetBuffer_spec s' bs Hok) as (b & m' & E & Hb);
    [change (2 ^ 32) with (2 * 2 ^ 31); lia|].
  exists b, m'. split; [done|]. by apply InputBuffer_of_blob_reads.
Qed.

(** End to end with Compact Binary, versions 1 and 2.  For every object of a type,
    of up to 2^31 - 1 bytes, serializing it into an output buffer succeeds, and
    the buffer's contents, as one blob, deserialize to the same object. *)
Lemma compact_binary_end_to_end version t v m :
  version = v1 \/ version = v2 -> mem_wf m ->
  type_ok t -> value_ok v -> ordered v -> conforms (cb_format version) t v ->
  zlen (encode (cb_format version) false v) < 2 ^ 31 ->
  exists w b m' s',
    cb_Serialize version v (CompactBinaryWriter_new (OutputBuffer_default m)) = (Ok tt, w) /\
    GetBuffer (cb_output w) = (Ok b, m') /\
    Deserialize (CompactBinaryReader version) t (InputBuffer_of_blob m' b) = (Ok v, s') /\
    view s' = [].
Proof.
  intros Hver Hm Ht Hv Ho Hc Hl.
  assert (Hl' : zlen (encode (cb_format version) false v) < 2 ^ 32)
    by (change (2 ^ 32) with (2 * 2 ^ 31); lia).
  destruct (cb_Serialize_run version v (CompactBinaryWriter_new (OutputBuffer_default m))
    _ Hver Hv Hl' eq_refl (fresh_room m _ Hm Hl) ltac:(lia)) as (w & Es & Ha & _).
  destruct (through_memory m _ _ Hm Hl Ha) as (b & m' & Eg & Hr & Hw).
  destruct (Deserialize_itself _ _ t v (cb_reader_laws version) Ht Hv Ho Hc Hl'
    (InputBuffer_of_blob m' b) [] Hr) as (s' & Ed & Hs & _); [by rewrite app_nil_r|].
  by exists w, b, m', s'.
Qed.

(** End to end with Fast Binary. *)
Lemma fast_binary_end_to_end t v m : mem_wf m ->
  type_ok t -> value_ok v -> ordered v -> conforms fb_format t v ->
  zlen (encode fb_format false v) < 2 ^ 31 ->
  exists w b m' s',
    Apply FastBinaryWriter false v (OutputBuffer_default m) = (Ok tt, w) /\
    GetBuffer w = (Ok b, m') /\
    Deserialize FastBinaryReader t (InputBuffer_of_blob m' b) = (Ok v, s') /\ view s' = [].
Proof.
  intros Hm Ht Hv Ho Hc Hl.
  assert (Hl' : zlen (encode fb_format false v) < 2 ^ 32)
    by (change (2 ^ 32) with (2 * 2 ^ 31); lia).
  destruct (proj2 (Apply_written FastBinaryWriter stream_logic fb_format fb_writer_laws v Hv
    false Hl') (OutputBuffer_default m) _ (fresh_room m _ Hm Hl) ltac:(lia))
    as (w & Es & Ha & _).
  destruct (through_memory m _ _ Hm Hl Ha) as (b & m' & Eg & Hr & Hw).
  destruct (Deserialize_itself _ _ t v fb_reader_laws Ht Hv Ho Hc Hl'
    (InputBuffer_of_blob m' b) [] Hr) as (s' & Ed & Hs & _); [by rewrite app_nil_r|].
  by exists w, b, m', s'.
Qed.

(** End to end with Simple Binary, versions 1 and 2. *)
Lemma simple_binary_end_to_end version t v m : mem_wf m ->
  type_ok t -> value_ok v -> conforms (sb_format version) t v ->
  zlen (encode (sb_format version) false v) < 2 ^ 31 ->
  exists w b m' s',
    Apply (SimpleBinaryWriter version) false v (OutputBuffer_default m) = (Ok tt, w) /\
    GetBuffer w = (Ok b, m') /\
    Deserialize (SimpleBinaryReader version) t (InputBuffer_of_blob m' b) = (Ok v, s') /\
    view s' = [].
Proof.
  intros Hm Ht Hv Hc Hl.
  assert (Hl' : zlen (encode (sb_format version) false v) < 2 ^ 32)
    by (change (2 ^ 32) with (2 * 2 ^ 31); lia).
  destruct (proj2 (Apply_written (SimpleBinaryWriter version) stream_logic (sb_format version)
    (sb_writer_laws version) v Hv false Hl') (OutputBuffer_default m) _ (fresh_room m _ Hm Hl)
    ltac:(lia)) as (w & Es & Ha & _).
  destruct (through_memory m _ _ Hm Hl Ha) as (b & m' & Eg & Hr & Hw).
  destruct (Deserialize_static _ _ (sb_static_laws version) t v Ht Hc Hv Hl'
    (InputBuffer_of_blob m' b) [] Hr) as (s' & Ed & Hs & _); [by rewrite app_nil_r|].
  by exists w, b, m', s'.
Qed.
End EndToEnd.

