(* ===== verification/MergeObject.v ===== *)
(** Merging an object into a payload, end to end (cpp/inc/bond/core/bond.h [Merge],
    apply.h, detail/protocol_visitors.h [InsituMerge], detail/inheritance.h).

    [bond::Merge] drives the passes of the writer with [Merger];
    [bonded<T>::Merge] puts the result in the place of the payload. *)

From stdpp Require Import strings.
From S2P Require Import Prelude Memory Blob Streams Encoding InputBuffer OutputBuffer.
From S2P Require Import OutputCounter DataType Metadata Protocol Serializer FastBinary.
From S2P Require Import CompactBinary CompactBinaryReader Schema Parser ParserCorrect.
From S2P Require Import Deserialization StaticRoundTrip EndToEnd RuntimeSchema Transcode.
From S2P Require Import TranscodeCorrect BondedVoid Merge MergeSpec MergeCorrect.

Section Merge.
Context {R B : Type} `{InputStream R} `{OutputStream B}.

(** [Merge(obj, input, output)]. *)
Definition MergeTo (p q : tagged) (t : ftype) (obj : value) (input : R) : M B unit :=
  ApplyTo q (fun W Q blob => on_copy input
    (let! _ := Merge (reader_of p) Q blob (is_protocol_version_same p q) false t (Some obj) in
     ret tt)).
End Merge.

(** [get_protocol_writer<Reader, Buffer>] with its default version. *)
Definition default_tagged (p : tagged) : tagged :=
  match p with Compact _ => Compact v1 | Fast => Fast end.

(** [InsituMerge]: the payload [reader] of a [bonded<T>] is replaced by the merged one;
    the new reader has the default version too. *)
Definition InsituMerge `{Allocator} {R} `{InputStream R} (p : tagged) (t : ftype) (obj : value)
    (reader : R) (m : mem) : outcome (tagged * InputBuffer) :=
  let '(o, merged) := MergeTo p (default_tagged p) t obj reader (OutputBuffer_default m) in
  olet _ := o in
  let '(b, m') := GetBuffer merged in
  olet b' := b in
  Ok (default_tagged p, InputBuffer_of_blob m' b').

(** * Properties *)

Lemma format_counted q : writable_version q -> counted_format (format_of q).
Proof.
  intros Hq. split; [intros; by apply lens_within|].
  destruct q as [version|]; [|done]. cbn [writable_version format_of cb_format wf_counted wf_prefix] in *.
  intros Hc n. rewrite Hc. pose proof (varint_pos n). lia.
Qed.

Section Merges.
Context {R B : Type} `{InputStreamLaws R} `{OutputStreamLaws B}.

Lemma MergeTo_run p q t x v w (r : R) rest (out : B) n :
  writable_version q -> type_ok t -> value_ok x -> shaped t x ->
  value_ok v -> types_ok v -> ordered v -> zlen (encode (format_of p) false v) < 2 ^ 32 ->
  merged (format_of p) t (Some x) v = Some w -> zlen (encode (format_of q) false w) < 2 ^ 32 ->
  readable r -> view r = encode (format_of p) false v ++ rest ->
  room out n -> zlen (encode (format_of q) false w) <= n ->
  exists out', MergeTo p q t x r out = (Ok tt, out') /\
    appends out (encode (format_of q) false w) out'.
Proof.
  intros Hq Ht Hx Hs Hv Hty Ho HF Hm HG Hr Hview Hroom Hn.
  set (same := is_protocol_version_same p q).
  destruct (Merge_writes (reader_of p) (format_of p) (format_of q) (reader_of_laws p)
    (format_tagged p) (format_tagged q) (format_counted q Hq) same (same_format p q) t Ht false
    (Some x) v w) as [_ Ha];
    [by split_and!|done|by intros y [= <-]|done..|].
  destruct (Ha HG) as (ls & Hu & Hl & Hmv). unfold MergeTo.
  apply (ApplyTo_run q _ ls (encode (format_of q) false w) out n); try done.
  - intros Hc. apply Hu. by rewrite Hc.
  - intros W T Q blob HQ Hb. eapply on_copy_does; [|exact Hr|exact Hview].
    eapply moves_then; [|apply moves_ret]. by apply Hmv.
Qed.
End Merges.

(** ** Objects and payloads of one schema *)

(** [alike F t x v]: the lists of structs of [x] and of [v] are of the same sizes and the
    keys of the maps of structs are found in the order of the payload, where the payload has them at all. *)
Fixpoint alike (F : wire_format) (t : ftype) (x v : value) : Prop :=
  match t, x, v with
  | FStruct bt fs, VStruct bx xs, VStruct bv vs =>
      match bt, bx, bv with
      | Some b, Some x', Some v' => alike F b x' v'
      | _, _, _ => True
      end /\
      Forall3 (fun (c : value -> value -> Prop) (y : value) (f : Z * Metadata * value) =>
                 omitted F f = true \/ c y (snd f))
        ((fun f => alike F (snd f)) <$> fs) (snd <$> xs) vs
  | FList _ e, VList _ _ xs, VList _ _ vs =>
      struct_like t = true -> Forall2 (alike F e) xs vs
  | FMap _ vt, VMap _ _ xs, VMap _ _ vs =>
      struct_like t = true ->
      Forall2 (fun a b =>
                 match fst b with
                 | VBasic s => fst a = fst b /\ find (fun kv => is_key s (fst kv)) xs = Some a
                 | _ => False
                 end /\ alike F vt (snd a) (snd b)) xs vs
  | _, _, _ => True
  end.

(** A level of the payload with the fields of the schema and no others. *)
Lemma level_overwrites F hs xs vs :
  Forall3 (fun h x v => fs_id h = fst (fst v) /\ own_field h = [x] /\
                        (omitted F v = true \/ same_field h v = Some [x])) hs xs vs ->
  forall lo, increasing lo ((fun f => fst (fst f)) <$> vs) ->
  merge_level hs (present F vs) = Some xs.
Proof.
  induction 1 as [|h x v hs xs vs (Hid & Hown & Hv) Hrest IH]; intros lo Hi; [done|].
  rewrite fmap_cons in Hi. destruct Hi as [Hlo Hi]. unfold present in *. rewrite filter_cons.
  assert (Habove : omitted F v = true -> merge_level (h :: hs) (present F vs) = Some (x :: xs)).
  { intros Ho. rewrite merge_level_cons, Hown. pose proof (present_sorted F _ _ Hi) as Ha. unfold present in Ha.
    unfold present. destruct (filter _ vs) as [|f p].
    - by rewrite (IH _ Hi).
    - rewrite fmap_cons in Ha. destruct Ha as [Ha _].
      replace (fs_id h <? fst (fst f)) with true by (symmetry; apply Z.ltb_lt; lia).
      by rewrite (IH _ Hi). }
  destruct (decide (omitted F v = false)) as [Ho|Ho].
  - destruct Hv as [Hv|Hv]; [congruence|]. rewrite merge_level_cons, Hid, Z.ltb_irrefl, Z.eqb_refl.
    by rewrite Hv, (IH _ Hi).
  - apply Habove. by apply not_false_iff_true.
Qed.

Definition overwrites (F : wire_format) (t : ftype) : Prop := forall x v,
  type_ok t -> typed t x -> typed t v -> alike F t x v -> struct_like t = true ->
  merged F t (Some x) v = Some x.

Lemma fields_overwrite F fs xs vs : Forall (fun f => overwrites F (snd f)) fs ->
  Forall (fun f => type_ok (snd f)) fs ->
  typed_fields ((fun f => (fst f, typed (snd f))) <$> fs) xs ->
  typed_fields ((fun f => (fst f, typed (snd f))) <$> fs) vs ->
  Forall3 (fun (c : value -> value -> Prop) (y : value) (f : Z * Metadata * value) =>
             omitted F f = true \/ c y (snd f))
    ((fun f => alike F (snd f)) <$> fs) (snd <$> xs) vs ->
  Forall3 (fun h x v => fs_id h = fst (fst v) /\ own_field h = [x] /\
                        (omitted F v = true \/ same_field h v = Some [x]))
    (specs_of F fs ((fun f => Some (snd f)) <$> xs)) xs vs.
Proof.
  unfold specs_of. revert xs vs. induction fs as [|f fs IH]; intros xs vs Ho Ht Hx Hv Ha.
  { destruct xs, vs; try done. constructor. }
  destruct xs as [|x xs]; [done|]. destruct vs as [|v vs]; [done|].
  rewrite fmap_cons in Hx, Hv.
  destruct Hx as (Hfx & Hcx & Hx), Hv as (Hfv & Hcv & Hv). cbn [fst] in Hfx, Hfv.
  inversion Ha as [|? ? ? ? ? ? Hone Hrest]; subst. apply Forall_cons_iff in Ho as [Hof Ho], Ht as [Htf Ht].
  rewrite fmap_cons. cbn [zip_with]. constructor; [|by apply IH]. cbn [fs_id own_field fs_var fs_metadata].
  destruct x as [fx x], v as [fv v], f as [fi ft]. cbn [fst snd] in *. subst fx fv.
  split_and!; [done|by destruct fi|]. destruct Hone as [Hone|Hone]; [by left|right].
  unfold same_field. cbn [fs_type fs_var fs_merge fst snd].
  rewrite (typed_type _ _ Hcv), Z.eqb_refl, bool_decide_eq_false_2, orb_false_r by done.
  destruct (struct_like ft) eqn:El; [by rewrite Hof|].
  unfold own_field. cbn [fs_var fs_id fs_metadata]. by destruct fi.
Qed.

Lemma mapM_option_pairs {X Y Z} (f : X -> Y -> option Z) xs ys zs :
  Forall3 (fun x y z => f x y = Some z) xs ys zs ->
  mapM_option (fun '(x, y) => f x y) (zip xs ys) = Some zs.
Proof.
  induction 1 as [|x y z xs ys zs Hx _ IH]; [done|]. unfold zip in *. cbn [zip_with mapM_option].
  fold (mapM_option (fun '(x, y) => f x y)). by rewrite Hx, IH.
Qed.

Lemma mapM_option_all {X Y} (f : X -> option Y) xs ys : Forall2 (fun x y => f x = Some y) xs ys ->
  mapM_option f xs = Some ys.
Proof.
  induction 1 as [|x y xs ys Hx _ IH]; [done|]. cbn [mapM_option]. fold (mapM_option f).
  by rewrite Hx, IH.
Qed.

Lemma Forall2_with {X Y} (P : X -> Prop) (Q : Y -> Prop) (S : X -> Y -> Prop) xs ys :
  Forall P xs -> Forall Q ys -> Forall2 S xs ys -> Forall2 (fun x y => P x /\ Q y /\ S x y) xs ys.
Proof.
  intros Hx Hy Hs. induction Hs as [|x y xs ys Hxy _ IH]; [constructor|].
  apply Forall_cons_iff in Hx as [? Hx], Hy as [? Hy]. constructor; [done|by apply IH].
Qed.

Lemma struct_like_container t : struct_like t = true ->
  is_container_or_struct (field_type_id t) = true /\ is_basic_type t = false.
Proof. by destruct t as [|?|[|]|]. Qed.

Lemma list_overwrites F e : overwrites F e -> overwrites F (FList false e).
Proof.
  intros He x v [_ Ht] Hx Hv Ha Hs. destruct x as [| |k et xs|], v as [| |k' et' vs|]; try done.
  destruct Hx as (-> & -> & Hx & _), Hv as (-> & -> & Hv & _). apply all_Forall in Hx, Hv.
  specialize (Ha Hs). change (struct_like e = true) in Hs.
  destruct (struct_like_container e Hs) as [Hc Hb]. cbn [merged].
  rewrite Hc, Hb, Z.eqb_refl, (list.Forall2_length _ _ _ Ha), Nat.eqb_refl. cbn [andb].
  rewrite (mapM_option_pairs (fun y z => merged F e (Some y) z) xs vs xs); [done|].
  induction Ha as [|x v xs vs Hxv _ IH]; [constructor|].
  apply Forall_cons_iff in Hx as [Hxo Hx], Hv as [Hvo Hv]. constructor; [by apply He|by apply IH].
Qed.

Lemma map_overwrites F kt vt : overwrites F vt -> overwrites F (FMap kt vt).
Proof.
  intros He x v Ht Hx Hv Ha Hs. destruct x as [| | |k et xs], v as [| | |k' et' vs]; try done.
  destruct Hx as (-> & -> & _ & Hx), Hv as (-> & -> & _ & Hv).
  apply (all_Forall (fun kv => match fst kv with VBasic s => btype_of s = kt | _ => False end /\
    typed vt (snd kv))) in Hx.
  apply (all_Forall (fun kv => match fst kv with VBasic s => btype_of s = kt | _ => False end /\
    typed vt (snd kv))) in Hv.
  specialize (Ha Hs). change (struct_like vt = true) in Hs.
  destruct (struct_like_container vt Hs) as [Hc Hb]. cbn [merged].
  rewrite Hc, Hb, accepts_self, Z.eqb_refl, (list.Forall2_length _ _ _ Ha), Nat.eqb_refl. cbn [andb].
  rewrite (mapM_option_all _ _ xs); [done|].
  apply (Forall2_with _ _ _ _ _ Hx Hv), Forall2_flip in Ha. eapply Forall2_impl; [|exact Ha].
  intros v x ([_ Hxo] & [Hkt Hvo] & Hk & Hxv). destruct (fst v) as [s| | |] eqn:Ev; try done.
  destruct Hk as [Hk Hf]. subst kt. rewrite set_as_self, Hf, He by done.
  destruct x as [k x]. cbn [fst snd] in *. by rewrite Hk.
Qed.

Lemma struct_overwrites F bt fs : (forall b, bt = Some b -> overwrites F b) ->
  Forall (fun f => overwrites F (snd f)) fs -> overwrites F (FStruct bt fs).
Proof.
  intros Hb Hf x v Ht Hx Hv Ha _. destruct x as [|bx xs| |], v as [|bv vs| |]; try done.
  pose proof (typed_levels _ _ Hv) as Hlev. destruct Hx as [Hbx Hx], Hv as [Hbv Hv].
  destruct Ht as (Hbt & Hi & Ht), Ha as [Hba Ha]. apply all_Forall in Ht.
  rewrite merged_struct. cbv zeta. rewrite Hlev, Nat.sub_diag. cbn [strip graft members base_member].
  assert (Hvi : increasing (-1) ((fun f => fst (fst f)) <$> vs)).
  { by rewrite (typed_ids typed fs vs Hv). }
  rewrite (level_overwrites F _ xs vs (fields_overwrite F fs xs vs Hf Ht Hx Hv Ha) (-1) Hvi).
  destruct bt as [bt|], bx as [bx|], bv as [bv|]; try done.
  destruct Hbt as [Htb Hbt]. rewrite (Hb bt eq_refl bx bv); try done.
  by destruct bt as [[|[]|[]| | | |]| |[]|].
Qed.

(** An object merged into a payload written with its own schema replaces it. *)
Lemma object_overwrites F t : overwrites F t.
Proof.
  induction t as [b|bt fs Hb Hf|is_set e He|kt vt Hvt] using ftype_ind_nested.
  - by intros x v _ _ _ _ Hs.
  - by apply struct_overwrites.
  - destruct is_set; [by intros x v _ _ _ _ Hs|by apply list_overwrites].
  - by apply map_overwrites.
Qed.

(** ** What is kept *)

(** [keeps F t v w]: what the schema [t] does not know of the payload [v] is in [w].  Levels
    that are more derived are the same; on every level of the schema the fields outside it
    are the same, in the same order; and so within the base, within the structs and
    containers of structs that are fields of the schema in the payload with their own type, and
    within the elements of containers. *)
Fixpoint keeps (F : wire_format) (t : ftype) (v w : value) : Prop :=
  match t, v, w with
  | FBasic _, _, _ => w = v
  | FStruct bt fs, VStruct _ _, _ =>
      let k := (value_levels v - type_levels t)%nat in
      let ids := (fun f : Z * Metadata * ftype => fst (fst f)) <$> fs in
      exists bv vfs bw l, strip k v = VStruct bv vfs /\ w = graft k v (VStruct bw l) /\
        match bt, bv, bw with
        | None, None, None => True
        | Some bt', Some bv', Some bw' => keeps F bt' bv' bw'
        | _, _, _ => False
        end /\
        filter (fun f => fst (fst f) ∉ ids) l = filter (fun f => fst (fst f) ∉ ids) (present F vfs) /\
        all ((fun f => struct_like (snd f) = true -> forall vf, vf ∈ present F vfs ->
                fst (fst vf) = fst (fst f) -> type_of (snd vf) = field_type_id (snd f) ->
                exists y, (fst vf, y) ∈ l /\ keeps F (snd f) (snd vf) y) <$> fs)
  | FList _ e, VList pk pt ps, VList pk' pt' qs =>
      pk' = pk /\ pt' = pt /\ if pt =? field_type_id e then Forall2 (keeps F e) ps qs else qs = ps
  | FMap _ vt, VMap _ pv ps, VMap _ pv' qs =>
      pv' = pv /\
      if pv =? field_type_id vt then Forall2 (fun a b => keeps F vt (snd a) (snd b)) ps qs
      else qs = ps
  | _, _, _ => False
  end.

(** The fields the schema does not have are kept, in their order. *)
Lemma level_keeps (ids : list Z) hs : Forall (fun h => fs_id h ∈ ids) hs -> forall p l,
  merge_level hs p = Some l ->
  filter (fun f => fst (fst f) ∉ ids) l = filter (fun f => fst (fst f) ∉ ids) p.
Proof.
  assert (Hown : forall h, fs_id h ∈ ids -> filter (fun f => fst (fst f) ∉ ids) (own_field h) = []).
  { intros h Hh. unfold own_field. destruct (fs_var h); [|done]. rewrite filter_cons, decide_False; [done|].
    intros Hn. by apply Hn. }
  assert (Hsame : forall h (f : Z * Metadata * value) x, fs_id h ∈ ids -> fst (fst f) = fs_id h ->
    same_field h f = Some x -> filter (fun f => fst (fst f) ∉ ids) x = []).
  { intros h f x Hh Hf Hx. unfold same_field in Hx. destruct (_ =? _).
    - destruct (struct_like _ || _); [|injection Hx as <-; by apply Hown].
      destruct (fs_merge h (snd f)); [|done]. injection Hx as <-.
      rewrite filter_cons, decide_False; [done|]. cbn [fst]. rewrite Hf. intros Hn. by apply Hn.
    - injection Hx as <-. rewrite filter_cons, decide_False; [done|]. rewrite Hf. intros Hn. by apply Hn. }
  induction 1 as [|h hs Hh _ IH]; intros p l Hm; [by injection Hm as <-|].
  revert l Hm. induction p as [|f p IHp]; intros l Hm; rewrite merge_level_cons in Hm.
  - apply append_some in Hm as (x & y & [= <-] & Hy & ->). rewrite list.filter_app, Hown by done. by apply IH.
  - destruct (fs_id h <? fst (fst f)).
    { apply append_some in Hm as (x & y & [= <-] & Hy & ->). rewrite list.filter_app, Hown by done. by apply IH. }
    destruct (fst (fst f) =? fs_id h) eqn:Ef; apply append_some in Hm as (x & y & Hx & Hy & ->);
      rewrite list.filter_app, (filter_cons _ f).
    + apply Z.eqb_eq in Ef. rewrite (Hsame h f x Hh Ef Hx), (IH _ _ Hy), decide_False; [done|].
      rewrite Ef. intros Hn. by apply Hn.
    + injection Hx as <-. assert (Hp : filter (fun f => fst (fst f) ∉ ids) y =
        filter (fun f => fst (fst f) ∉ ids) p).
      { destruct p as [|f' p]; [by apply IH|]. destruct (_ <=? _); [by apply IHp|by apply IH]. }
      rewrite Hp, filter_cons. by destruct (decide _).
Qed.

Lemma increasing_above {A} (g : A -> Z) lo l x : increasing lo (g <$> l) -> x ∈ l -> lo < g x.
Proof.
  intros Hi Hx. pose proof (increasing_forall _ _ Hi) as Ha. rewrite Forall_fmap in Ha.
  rewrite Forall_forall in Ha. by apply Ha, list_elem_of_In.
Qed.

(** A field of the payload meets the field of the schema with its id. *)
Lemma level_meets hs : forall lo, increasing lo (fs_id <$> hs) -> forall p lo' l,
  increasing lo' ((fun f => fst (fst f)) <$> p) -> merge_level hs p = Some l ->
  forall h f, h ∈ hs -> f ∈ p -> fst (fst f) = fs_id h ->
  exists x, same_field h f = Some x /\ x ⊆ l.
Proof.
  induction hs as [|h hs IH]; intros lo Hi; [by intros ??????? ?%not_elem_of_nil|].
  rewrite fmap_cons in Hi. destruct Hi as [_ Hi].
  induction p as [|f p IHp]; intros lo' l Hp Hm h' f' Hh Hf He; [by apply not_elem_of_nil in Hf|].
  pose proof Hp as Hp'. rewrite fmap_cons in Hp'. destruct Hp' as [_ Hp'].
  rewrite merge_level_cons in Hm.
  assert (Hlow : forall g, g ∈ f :: p -> fst (fst f) <= fst (fst g)).
  { intros g [->|Hg]%elem_of_cons; [lia|].
    pose proof (increasing_above (fun f => fst (fst f)) _ _ _ Hp' Hg). cbv beta in *. lia. }
  assert (Hhigh : forall g, g ∈ h :: hs -> fs_id h <= fs_id g).
  { intros g [->|Hg]%elem_of_cons; [lia|]. pose proof (increasing_above _ _ _ _ Hi Hg). lia. }
  assert (Hrest : forall y, merge_level hs (f :: p) = Some y -> h' ∈ hs ->
    exists x, same_field h' f' = Some x /\ x ⊆ y) 
    by (intros y Hy Hh'; exact (IH _ Hi (f :: p) lo' y Hp Hy h' f' Hh' Hf He)).
  assert (Hafter : forall y, merge_level hs p = Some y -> h' ∈ hs -> f' ∈ p ->
    exists x, same_field h' f' = Some x /\ x ⊆ y) 
    by (intros y Hy Hh' Hf'; exact (IH _ Hi p _ y Hp' Hy h' f' Hh' Hf' He)).
  destruct (fs_id h <? fst (fst f)) eqn:E1.
  - apply Z.ltb_lt in E1. apply append_some in Hm as (x & y & [= <-] & Hy & ->).
    apply elem_of_cons in Hh as [->|Hh]; [specialize (Hlow f' Hf); lia|].
    destruct (Hrest y Hy Hh) as (z & Hz & Hs). exists z. split; [done|by apply list_subseteq_app_r].
  - apply Z.ltb_ge in E1. destruct (fst (fst f) =? fs_id h) eqn:E2.
    + apply Z.eqb_eq in E2. apply append_some in Hm as (x & y & Hx & Hy & ->).
      apply elem_of_cons in Hf as [->|Hf].
      * apply elem_of_cons in Hh as [->|Hh]; [exists x; split; [done|by apply list_subseteq_app_l]|].
        pose proof (increasing_above _ _ _ _ Hi Hh). lia.
      * pose proof (increasing_above (fun f => fst (fst f)) _ _ _ Hp' Hf). cbv beta in *.
        apply elem_of_cons in Hh as [->|Hh]; [lia|].
        destruct (Hafter y Hy Hh Hf) as (z & Hz & Hs). exists z. split; [done|by apply list_subseteq_app_r].
    + apply Z.eqb_neq in E2. apply append_some in Hm as (x & y & [= <-] & Hy & ->).
      specialize (Hhigh h' Hh). apply elem_of_cons in Hf as [->|Hf]; [lia|].
      enough (exists z, same_field h' f' = Some z /\ z ⊆ y) as (z & Hz & Hs)
        by (exists z; split; [done|by apply list_subseteq_app_r]).
      destruct p as [|f2 p]; [by apply not_elem_of_nil in Hf|].
      destruct (fst (fst f2) <=? fs_id h) eqn:E3; [exact (IHp _ y Hp' Hy h' f' Hh Hf He)|].
      apply Z.leb_gt in E3. apply elem_of_cons in Hh as [->|Hh]; [|by apply Hafter].
      apply elem_of_cons in Hf as [->|Hf]; [lia|]. destruct Hp' as [_ Hp'].
      pose proof (increasing_above (fun f => fst (fst f)) _ _ _ Hp' Hf). cbv beta in *. lia.
Qed.

Lemma specs_ids F fs xs :
  Forall (fun h => fs_id h ∈ (fun f : Z * Metadata * ftype => fst (fst f)) <$> fs) (specs_of F fs xs).
Proof.
  unfold specs_of. revert xs. induction fs as [|f fs IH]; intros [|x xs]; try constructor.
  - cbn [fs_id]. rewrite fmap_cons. left.
  - eapply Forall_impl; [|apply IH]. intros h Hh. rewrite fmap_cons. by right.
Qed.

(** The tags of an object are those of its type. *)
Lemma typed_types t : forall v, typed t v -> types_ok v.
Proof.
  assert (Hid : forall e, known_type (field_type_id e)) by apply field_type_id_range.
  induction t as [b|bt fs Hb Hf|k e IH|kt vt IH] using ftype_ind_nested;
    intros [s|bv vfs|k' et items|k' v' items] Ht; try done; cbn [typed types_ok] in *.
  - destruct Ht as [Htb Htf]. split.
    + destruct bt as [bt|], bv as [bv|]; try done. by apply (Hb bt eq_refl).
    + clear Hb Htb. revert vfs Htf. induction Hf as [|f fs Hf _ IH]; intros [|vf vfs] Htf; try done.
      rewrite !fmap_cons in *. destruct Htf as (_ & Hx & Htf). split; [by apply Hf|by apply IH].
  - destruct Ht as (_ & -> & Hi%all_Forall & _). split; [done|]. apply all_Forall.
    eapply Forall_impl; [|exact Hi]. done.
  - destruct Ht as (-> & -> & _ & Hi%all_Forall). split_and!; [by rewrite type_id_roundtrip; eexists|done|].
    apply (all_Forall (fun kv => types_ok (snd kv))).
    eapply Forall_impl; [|exact Hi]. intros kv [_ Hkv]. by apply IH.
Qed.

Definition merge_keeps (F : wire_format) (t : ftype) : Prop := forall x v w,
  type_ok t -> object_ok t x -> ordered v -> merged F t x v = Some w -> keeps F t v w.

Lemma keeps_itself F e pt ps : pt = field_type_id e -> is_container_or_struct pt = false ->
  Forall2 (keeps F e) ps ps.
Proof.
  intros -> Hc. destruct e as [b|?|[|]|]; try discriminate Hc. induction ps; by constructor.
Qed.

Lemma strip_ordered k : forall v, ordered v -> ordered (strip k v).
Proof.
  induction k as [|k IH]; intros v Ho; [done|]. destruct v as [s|[b|] fs| |]; try done.
  apply IH, Ho.
Qed.

(** A field of the schema that is a struct or a container of structs is merged. *)
Lemma field_kept F fs xs vfs l f : Forall (fun f => merge_keeps F (snd f)) fs ->
  Forall (fun f => type_ok (snd f)) fs -> increasing (-1) ((fun f => fst (fst f)) <$> fs) ->
  Forall2 (fun f y => object_ok (snd f) y) fs xs ->
  increasing (-1) ((fun f => fst (fst f)) <$> vfs) -> Forall (fun f => ordered (snd f)) vfs ->
  merge_level (specs_of F fs xs) (present F vfs) = Some l ->
  f ∈ fs -> struct_like (snd f) = true -> forall vf, vf ∈ present F vfs ->
  fst (fst vf) = fst (fst f) -> type_of (snd vf) = field_type_id (snd f) ->
  exists y, (fst vf, y) ∈ l /\ keeps F (snd f) (snd vf) y.
Proof.
  intros Hk Ht Hi Hx Hp Ho Hm Hf Hs vf Hvf Hid Hty.
  apply list_elem_of_lookup in Hf as [i Hf]. destruct (Forall2_lookup_l _ _ _ _ _ Hx Hf) as (y & Hy & Hoy).
  assert (Hids : fs_id <$> specs_of F fs xs = (fun f => fst (fst f)) <$> fs).
  { clear -Hx. induction Hx as [|g y gs ys _ _ IH]; [done|]. rewrite fmap_cons, <-IH. done. }
  destruct (level_meets (specs_of F fs xs) (-1) ltac:(by rewrite Hids) (present F vfs) (-1) l
    (present_sorted F _ _ Hp) Hm
    (mkFS (fst (fst f)) (snd (fst f)) (snd f) y (merged F (snd f) y)) vf) as (z & Hz & Hl); [|done..|].
  { apply list_elem_of_lookup. exists i. unfold specs_of. by rewrite lookup_zip_with, Hf, Hy. }
  unfold same_field in Hz. cbn [fs_type fs_var fs_merge] in Hz.
  rewrite Hty, Z.eqb_refl, Hs in Hz. cbn [orb] in Hz.
  destruct (merged F (snd f) y (snd vf)) as [u|] eqn:Eu; [|done]. injection Hz as <-.
  exists u. split; [apply Hl; left|]. rewrite Forall_lookup in Hk, Ht.
  apply (Hk i f Hf y); [by apply (Ht i)|done| |done].
  apply list_elem_of_filter in Hvf as [_ Hvf]. rewrite list.Forall_forall in Ho. by apply Ho.
Qed.

Lemma struct_kept F bt fs : (forall b, bt = Some b -> merge_keeps F b) ->
  Forall (fun f => merge_keeps F (snd f)) fs -> merge_keeps F (FStruct bt fs).
Proof.
  intros Hb Hf x v w (Hbt & Hi & Ht) Hx Ho Hm. apply all_Forall in Ht.
  destruct v as [|b0 fs0| |]; try done.
  destruct (merged_parts F _ _ _ _ _ _ Hm) as (k & bv & vfs & b & l & Hk & Es & Eb & El & Ew).
  pose proof (strip_ordered k _ Ho) as Hos. rewrite Es in Hos. destruct Hos as (Hob & Hov & Hofs).
  apply all_Forall in Hofs. cbn [keeps]. exists bv, vfs, b, l. rewrite <-Hk. split_and!; [done..| | |].
  - destruct bt as [bt|], bv as [bv|]; try done; [|by injection Eb as <-].
    destruct (merged F bt _ bv) as [b'|] eqn:Eb'; [|done]. injection Eb as <-.
    apply (Hb bt eq_refl (base_member x)); [apply Hbt|by eapply base_ok|done|done].
  - eapply level_keeps; [apply specs_ids|exact El].
  - apply all_Forall. apply Forall_forall. intros f Hin Hs vf Hvf Hid Hty.
    apply list_elem_of_In in Hin. pose proof (members_ok _ _ _ Hx) as Hmx. by eapply (field_kept F fs).
Qed.

Lemma list_kept F k e : merge_keeps F e -> merge_keeps F (FList k e).
Proof.
  intros He x v w [_ Ht] Hx Ho Hm. destruct v as [| |pk pt ps|]; try done.
  apply all_Forall in Ho. cbn [merged] in Hm.
  assert (Hcopy : (if pt =? field_type_id e then VList pk pt <$> mapM_option (merged F e None) ps
    else if pt =? BT_STRUCT then None else Some (VList pk pt ps)) = Some w ->
    keeps F (FList k e) (VList pk pt ps) w).
  { intros Hw. destruct (pt =? field_type_id e) eqn:E.
    - destruct (mapM_option _ ps) as [qs|] eqn:Eq; [|done]. injection Hw as <-.
      split_and!; [done..|]. rewrite E. apply mapM_option_Forall2 in Eq. clear Hm Hx.
      induction Eq as [|a b ps qs Hab _ IH]; [constructor|]. apply Forall_cons_iff in Ho as [Ha Ho].
      constructor; [by apply (He None); [..|apply absent_ok| |]|by apply IH].
    - destruct (pt =? BT_STRUCT); [done|]. injection Hw as <-. split_and!; [done..|]. by rewrite E. }
  destruct (is_container_or_struct pt) eqn:Ec.
  - destruct x as [[| |xk xt items|]|]; try by apply Hcopy. destruct (is_basic_type e); [by apply Hcopy|].
    destruct (pt =? field_type_id e) eqn:E; [|done]. destruct (length items =? length ps)%nat eqn:El; [|done].
    apply Nat.eqb_eq in El. cbn [andb] in Hm.
    destruct (mapM_option _ _) as [qs|] eqn:Eq; [|done]. injection Hm as <-.
    split_and!; [done..|]. rewrite E. apply (Forall2_triples (fun y => merged F e (Some y))) in Eq; [|done].
    destruct (list_items _ _ _ Hx _ _ _ eq_refl) as [_ Hit]. clear Hcopy Hx El.
    induction Eq as [|y a b ys ps qs Hab _ IH]; [constructor|].
    apply Forall_cons_iff in Ho as [Ha Ho], Hit as [Hy Hit].
    constructor; [by apply (He (Some y))|by apply IH].
  - injection Hm as <-. split_and!; [done..|]. destruct (pt =? field_type_id e) eqn:E; [|done].
    apply (keeps_itself F e pt); [by apply Z.eqb_eq|done].
Qed.

Lemma map_kept F kt vt : merge_keeps F vt -> merge_keeps F (FMap kt vt).
Proof.
  intros He x v w Ht Hx Ho Hm. destruct v as [| | |pk pv ps]; try done.
  apply (all_Forall (fun kv => ordered (fst kv) /\ ordered (snd kv))) in Ho. cbn [merged] in Hm.
  assert (Hcopy : (if pv =? field_type_id vt
    then VMap pk pv <$> mapM_option (fun kv => pair (fst kv) <$> merged F vt None (snd kv)) ps
    else if pv =? BT_STRUCT then None else Some (VMap pk pv ps)) = Some w ->
    keeps F (FMap kt vt) (VMap pk pv ps) w).
  { intros Hw. destruct (pv =? field_type_id vt) eqn:E.
    - destruct (mapM_option _ ps) as [qs|] eqn:Eq; [|done]. injection Hw as <-.
      split; [done|]. rewrite E. apply mapM_option_Forall2 in Eq. clear Hm Hx.
      induction Eq as [|a b ps qs Hab _ IH]; [constructor|]. apply Forall_cons_iff in Ho as [[_ Ha] Ho].
      destruct (merged F vt None (snd a)) as [u|] eqn:Eu; [|done]. injection Hab as <-.
      constructor; [by apply (He None); [..|apply absent_ok| |]|by apply IH].
    - destruct (pv =? BT_STRUCT); [done|]. injection Hw as <-. split; [done|]. by rewrite E. }
  destruct (is_container_or_struct pv) eqn:Ec.
  - destruct x as [[| | |xk xt items]|]; try by apply Hcopy. destruct (is_basic_type vt); [by apply Hcopy|].
    destruct (accepts _ pk); [|by apply Hcopy].
    destruct (pv =? field_type_id vt) eqn:E; [|done]. destruct (length items =? length ps)%nat; [|done].
    cbn [andb] in Hm. destruct (mapM_option _ _) as [qs|] eqn:Eq; [|done]. injection Hm as <-.
    split; [done|]. rewrite E. apply mapM_option_Forall2 in Eq.
    destruct (map_items _ _ _ Hx _ _ _ eq_refl) as [_ Hit]. clear Hcopy Hx.
    induction Eq as [|a b ps qs Hab _ IH]; [constructor|]. apply Forall_cons_iff in Ho as [[_ Ha] Ho].
    constructor; [|by apply IH]. destruct (fst a) as [s| | |]; try done.
    destruct (find _ items) as [kx|] eqn:Ef; [|done]. apply find_some in Ef as [Hin _].
    destruct (merged F vt (Some (snd kx)) (snd a)) as [u|] eqn:Eu; [|done]. injection Hab as <-.
    rewrite Forall_forall in Hit. apply (He (Some (snd kx))); [done|by apply Hit|done|done].
  - injection Hm as <-. split; [done|]. destruct (pv =? field_type_id vt) eqn:E; [|done].
    apply Z.eqb_eq in E. assert (Hall : Forall2 (keeps F vt) (snd <$> ps) (snd <$> ps))
      by by apply (keeps_itself F vt pv).
    by rewrite Forall2_fmap in Hall.
Qed.

(** What the schema does not know survives the merge, at every level of nesting. *)
Lemma merged_keeps F t : merge_keeps F t.
Proof.
  induction t as [b|bt fs Hb Hf|k e He|kt vt Hvt] using ftype_ind_nested.
  - intros x v w _ _ _ Hm. destruct v as [s| | |]; try done. cbn [merged keeps] in *.
    case_match; [by injection Hm|done].
  - by apply struct_kept.
  - by apply list_kept.
  - by apply map_kept.
Qed.

(** ** Results *)

Section Results.
Context {R B : Type} `{InputStreamLaws R} `{OutputStreamLaws B} `{Allocator}.

Lemma InsituMerge_run p t x v w (r : R) rest m : let q := default_tagged p in
  mem_wf m -> type_ok t -> value_ok x -> shaped t x ->
  value_ok v -> types_ok v -> ordered v -> zlen (encode (format_of p) false v) < 2 ^ 32 ->
  merged (format_of p) t (Some x) v = Some w -> zlen (encode (format_of q) false w) < 2 ^ 31 ->
  readable r -> view r = encode (format_of p) false v ++ rest ->
  exists r', InsituMerge p t x r m = Ok (q, r') /\
    readable r' /\ view r' = encode (format_of q) false w.
Proof.
  intros q Hm Ht Hx Hs Hv Hty Ho HF Hmg HG Hr Hview.
  destruct (MergeTo_run p q t x v w r rest (OutputBuffer_default m)
    (zlen (encode (format_of q) false w))) as (out' & E & A); try done.
  - unfold q. destruct p; [by left|done].
  - change (2 ^ 32) with (2 * 2 ^ 31). lia.
  - by apply fresh_room.
  - destruct (through_memory m out' _ Hm HG A) as (b & m' & Eg & Hb & Hvb).
    exists (InputBuffer_of_blob m' b). split; [|done].
    unfold InsituMerge. fold q. by rewrite E, Eg.
Qed.
End Results.

Section Theorems.
Context {R B : Type} `{InputStreamLaws R} `{OutputStreamLaws B}.

(** C7: merging.  [Merge(obj, reader, writer)] over a payload of Fast or Compact Binary,
    with a writer of either protocol and version, writes the payload of [merged], if that
    exists: it does not where the payload has fewer levels than the class, where a list or
    map of structs or of lists of them has another size or other keys than the object's, or
    where elements are structs or containers of another type than the schema's.  Field by
    field, in the order of the ids: a field of the schema that the payload has with exactly the
    type of the schema is written with the object's value, or merged in turn if it is a
    struct or a list, vector or map of them; a field the payload has with any other type, a
    narrower integer for instance, stays as it is in the payload; a field the payload does
    not have is written with the object's value, unless a field that is not in the schema
    comes right before it in the payload: then it is lost, as are the fields of the schema that
    the payload lacks up to its next field.  This is what the code does; the documentation
    promises the object's value for every field of the schema.  Fields that the schema does
    not have and more derived levels are copied, and sets and containers of basic
    elements come from the object.  In Compact Binary version 2 the lengths of the merged structs
    are found in a first pass over the same payload. *)
Theorem merge_writes p q t x v w (r : R) rest (out : B) n :
  writable_version q -> type_ok t -> value_ok x -> typed t x ->
  value_ok v -> types_ok v -> ordered v -> zlen (encode (format_of p) false v) < 2 ^ 32 ->
  merged (format_of p) t (Some x) v = Some w -> zlen (encode (format_of q) false w) < 2 ^ 32 ->
  readable r -> view r = encode (format_of p) false v ++ rest ->
  room out n -> zlen (encode (format_of q) false w) <= n ->
  exists out', MergeTo p q t x r out = (Ok tt, out') /\
    appends out (encode (format_of q) false w) out'.
Proof. intros Hq Ht Hx Hs. by apply MergeTo_run, typed_shaped. Qed.

(** C25: what the schema does not know survives a merge.  Whatever the class, with bases and
    nested structs, wherever the merge of the object into the payload has a result (see
    [merged]), a payload is written in which, on each level of the class, the fields
    outside it are those of the payload, in the same order and with the same values, and the
    levels more derived than the class are the payload's; the same holds in turn for the
    base, for every struct or container of structs that is a field of the class and that the
    payload has with its type, and for every element of a container. *)
Theorem merge_keeps_unknown_fields p q t x v w (r : R) rest (out : B) n :
  writable_version q -> type_ok t -> value_ok x -> typed t x ->
  value_ok v -> types_ok v -> ordered v -> zlen (encode (format_of p) false v) < 2 ^ 32 ->
  merged (format_of p) t (Some x) v = Some w -> zlen (encode (format_of q) false w) < 2 ^ 32 ->
  readable r -> view r = encode (format_of p) false v ++ rest ->
  room out n -> zlen (encode (format_of q) false w) <= n ->
  exists out', MergeTo p q t x r out = (Ok tt, out') /\
    appends out (encode (format_of q) false w) out' /\ keeps (format_of p) t v w.
Proof.
  intros Hq Ht Hx Hs Hv Hty Ho HF Hm HG Hr Hview Hroom Hn.
  pose proof (typed_shaped t x Hs) as Hsh.
  destruct (MergeTo_run p q t x v w r rest out n Hq Ht Hx Hsh Hv Hty Ho HF Hm HG Hr Hview Hroom Hn)
    as (out' & E & A).
  exists out'. split_and!; [done..|]. apply (merged_keeps (format_of p) t (Some x)); [done| |done|done].
  by intros y [= <-].
Qed.
End Theorems.

Section Places.
Context {R : Type} `{InputStreamLaws R} `{Allocator}.

(** C24: [bonded<T>::Merge(obj)], then [Deserialize].  Where the payload is an object of the
    same class, whose lists and maps of structs have the sizes and keys of the
    object's, the merged payload in the output buffer's memory is read back as the object.
    The reader of the new payload has the default version, as the writer had.  No optional
    [float] or [double] field of the object may be a zero whose sign is not that of a
    default that is zero too: the writer leaves it out, and it is read back as the
    default. *)
Theorem merge_in_place p t x v (r : R) rest m : let q := default_tagged p in
  mem_wf m -> type_ok t -> (exists b fs, t = FStruct b fs) ->
  value_ok x -> typed t x -> exact_zeros x -> value_ok v -> typed t v ->
  alike (format_of p) t x v ->
  zlen (encode (format_of p) false v) < 2 ^ 32 -> zlen (encode (format_of q) false x) < 2 ^ 31 ->
  readable r -> view r = encode (format_of p) false v ++ rest ->
  exists r' s', InsituMerge p t x r m = Ok (q, r') /\
    Deserialize (reader_of q) t r' = (Ok x, s') /\ view s' = [].
Proof.
  intros q Hm Ht Hstruct Hx Htx Hz Hv Htv Ha HF HG Hr Hview.
  assert (Hmg : merged (format_of p) t (Some x) v = Some x).
  { apply object_overwrites; try done. by destruct Hstruct as (b & fs & ->). }
  destruct (InsituMerge_run p t x v x r rest m Hm Ht Hx (typed_shaped t x Htx) Hv (typed_types t v Htv)
    (typed_ordered t v Ht Htv) HF Hmg HG Hr Hview) as (r' & E & Hr' & Hv'). fold q in E, Hv'.
  destruct (Deserialize_itself (reader_of q) (format_of q) t x (reader_of_laws q) Ht Hx
    (typed_ordered t x Ht Htx) (typed_conforms _ t x Htx Hx (fun _ => Hz))
    ltac:(change (2 ^ 32) with (2 * 2 ^ 31); lia) r' [] Hr') as (s' & Ed & Hs' & _).
  { by rewrite app_nil_r. }
  by exists r', s'.
Qed.
End Places.

(** ** Fields of the object that are not written *)

Section Lost.
Context {R B : Type} `{InputStreamLaws R} `{OutputStreamLaws B}.

(** C35: an object's field can be lost.  The object has one field; the payload has one field,
    either with a smaller id, or with the same id and another type, for instance a
    narrower integer that would be promoted.  The result is the payload: the value of the
    object is in neither case written. *)
Theorem merge_loses_field p q id m t x i m' v (r : R) rest (out : B) n :
  let T := FStruct None [(id, m, t)] in let payload := VStruct None [(i, m', v)] in
  writable_version q -> type_ok T -> value_ok x -> shaped t x ->
  i < id \/ i = id /\ type_of v <> field_type_id t -> omitted (format_of p) (i, m', v) = false ->
  value_ok payload -> types_ok payload -> ordered payload ->
  zlen (encode (format_of p) false payload) < 2 ^ 32 ->
  zlen (encode (format_of q) false payload) < 2 ^ 32 ->
  readable r -> view r = encode (format_of p) false payload ++ rest ->
  room out n -> zlen (encode (format_of q) false payload) <= n ->
  exists out', MergeTo p q T (VStruct None [(id, m, x)]) r out = (Ok tt, out') /\
    appends out (encode (format_of q) false payload) out'.
Proof.
  intros T payload Hq Ht Hx Hs Hi Ho. intros.
  apply (MergeTo_run p q T (VStruct None [(id, m, x)]) payload payload r rest out n); try done.
  - destruct Ht as (_ & [Hid _] & _). cbn [fst] in Hid. unfold invalid_field_id in Hid.
    by repeat split; cbn [fst snd]; [lia..|].
  - by repeat constructor.
  - unfold T, payload. rewrite merged_struct. cbv zeta. cbn [value_levels type_levels Nat.sub strip graft].
    unfold present. rewrite filter_cons, decide_True by done. cbn [filter list_filter].
    cbn [members length fmap list_fmap fst snd]. unfold specs_of. cbn [zip_with].
    rewrite merge_level_cons. cbn [fs_id fst snd]. destruct Hi as [Hi|[-> Hty]].
    + assert ((id <? i) = false) as -> by (apply Z.ltb_ge; lia).
      assert ((i =? id) = false) as -> by (apply Z.eqb_neq; lia). done.
    + rewrite Z.ltb_irrefl, Z.eqb_refl. unfold same_field. cbn [fs_type fst snd].
      by apply not_eq_sym, Z.eqb_neq in Hty as ->.
Qed.

(** Containers of structs whose sizes differ.  A list of structs, or of lists of
    structs, that has another number of elements in the payload than in the object: the
    merge throws before anything of the list is written. *)
Lemma merge_size_mismatch {W} (P : ProtocolReader R) F (Q : ProtocolWriter W) blob same base is_set e k t
    items k' pt ps (r : R) rest (w : W) :
  reader_laws P F -> is_basic_type e = false -> is_container_or_struct pt = true ->
  fits 5 pt -> zlen ps < 2 ^ 32 -> zlen items < 2 ^ 32 -> length ps <> length items ->
  readable r -> view r = encode F base (VList k' pt ps) ++ rest ->
  exists r', Merge P Q blob same base (FList is_set e) (Some (VList k t items)) (r, w) =
    (Err (Thrown CoreException), (r', w)).
Proof.
  intros HP He Hc Hpt Hn Hni Hne Hr Hview. cbn [encode] in Hview. rewrite <-app_assoc in Hview.
  destruct (rl_list _ _ HP (zlen ps) pt (field_type_id e) ltac:(by apply zlen_fits) Hpt r _ Hr Hview)
    as (r' & E & _). exists r'.
  cbn [Merge]. unfold ReadContainer, input.
  unfold bind at 1 2. erewrite zoom_ok by exact E. cbn [fst snd]. rewrite Hc, He.
  unfold MergeElements, container_size. rewrite wrap_id by (by apply zlen_fits).
  assert ((zlen ps =? zlen items) = false) as -> by (apply Z.eqb_neq; lia). done.
Qed.
End Lost.

(** ** Witnesses *)

(** An object of the later schema, merged into [sample], which was written with the
    earlier one. *)
Definition newer : value :=
  VStruct (Some (VStruct None [(0, no_default, VBasic (SInt W64 77));
                               (5, optional_zero, VBasic (SUInt W16 8));
                               (7, no_default, VBasic (SBool false))]))
    [(1, optional_zero, VBasic (SUInt W16 4));
     (2, optional_zero, VBasic (SUInt W32 70000));
     (250, optional_zero, VBasic (SUInt W16 9));
     (300, no_default, VMap BT_UINT16 BT_STRUCT
        [(VBasic (SUInt W16 9), VStruct None [(3, no_default, VBasic (SWString [955]))])])].

(** The integers 0 and 2 are narrower in the payload and stay; 250 follows 200, which is
    not in the schema, and is lost; the map has keys of the object's type. *)
Definition merged_sample : value :=
  VStruct (Some (VStruct None [(0, no_default, VBasic (SInt W32 (-5)));
                               (5, optional_zero, VBasic (SUInt W16 8));
                               (7, no_default, VBasic (SBool false))]))
    [(1, optional_zero, VBasic (SUInt W16 4));
     (2, optional_zero, VBasic (SUInt W16 300));
     (200, no_default, VList false BT_STRING [VBasic (SString [104; 105]); VBasic (SString [])]);
     (300, no_default, VMap BT_UINT16 BT_STRUCT
        [(VBasic (SUInt W16 9), VStruct None [(3, no_default, VBasic (SWString [955]))])])].

Example merged_sample_is : merged fb_format later_type (Some newer) sample = Some merged_sample.
Proof. by vm_compute. Qed.

Lemma newer_ok : value_ok newer /\ typed later_type newer.
Proof.
  split; repeat first [done | apply conj | apply Forall_cons_2 | apply Forall_nil_2 | by vm_compute | constructor].
Qed.

Lemma sample_types : types_ok sample.
Proof. repeat first [apply conj | by vm_compute | by eexists | done]. Qed.

Lemma merge_writes_witness :
  exists out, MergeTo Fast (Compact v2) later_type newer (buffer_of (encode fb_format false sample))
      (mkOC 0) = (Ok tt, out) /\
    appends (mkOC 0) (encode (cb_format v2) false merged_sample) out.
Proof.
  destruct (buffer_reads (encode fb_format false sample)) as [H1 H2]; [by vm_compute|].
  assert (Hl : zlen (encode (format_of Fast) false sample) < 2 ^ 32) by by vm_compute.
  assert (Hl' : zlen (encode (format_of (Compact v2)) false merged_sample) < 2 ^ 32) by by vm_compute.
  assert (Hn : zlen (encode (format_of (Compact v2)) false merged_sample) <= 1000) by by vm_compute.
  assert (Hroom : room (mkOC 0) 1000) by by vm_compute.
  exact (merge_writes Fast (Compact v2) later_type newer sample merged_sample _ [] (mkOC 0) 1000
    (or_intror eq_refl) (proj2 sample_types_ok) (proj1 newer_ok) (proj2 newer_ok) sample_ok sample_types
    sample_ordered Hl merged_sample_is Hl' H1 (eq_trans H2 (eq_sym (app_nil_r _))) Hroom Hn).
Defined.

(** A class with one field. *)
Definition one_field : ftype := FStruct None [(5, no_default, FBasic (TInt W32))].
Definition five (z : Z) : value := VStruct None [(5, no_default, VBasic (SInt W32 z))].

Lemma merge_keeps_unknown_fields_witness :
  exists out, MergeTo Fast (Compact v2) later_type newer (buffer_of (encode fb_format false sample))
      (mkOC 0) = (Ok tt, out) /\
    appends (mkOC 0) (encode (cb_format v2) false merged_sample) out /\
    keeps fb_format later_type sample merged_sample.
Proof.
  destruct (buffer_reads (encode fb_format false sample)) as [H1 H2]; [by vm_compute|].
  assert (Hl : zlen (encode (format_of Fast) false sample) < 2 ^ 32) by by vm_compute.
  assert (Hl' : zlen (encode (format_of (Compact v2)) false merged_sample) < 2 ^ 32) by by vm_compute.
  assert (Hn : zlen (encode (format_of (Compact v2)) false merged_sample) <= 1000) by by vm_compute.
  assert (Hroom : room (mkOC 0) 1000) by by vm_compute.
  exact (merge_keeps_unknown_fields Fast (Compact v2) later_type newer sample merged_sample _ []
    (mkOC 0) 1000 (or_intror eq_refl) (proj2 sample_types_ok) (proj1 newer_ok) (proj2 newer_ok)
    sample_ok sample_types sample_ordered Hl merged_sample_is Hl' H1
    (eq_trans H2 (eq_sym (app_nil_r _))) Hroom Hn).
Defined.

(** [sample] with other values and another list of strings. *)
Definition sample_again : value :=
  VStruct (Some (VStruct None [(0, no_default, VBasic (SInt W32 6));
                               (7, no_default, VBasic (SBool false))]))
    [(1, optional_zero, VBasic (SUInt W16 1));
     (2, optional_zero, VBasic (SUInt W16 0));
     (200, no_default, VList false BT_STRING []);
     (300, no_default, VMap BT_UINT8 BT_STRUCT
        [(VBasic (SUInt W8 9), VStruct None [(3, no_default, VBasic (SWString []))])])].

Lemma sample_again_ok : value_ok sample_again /\ typed sample_type sample_again /\
  exact_zeros sample_again /\ alike (cb_format v2) sample_type sample_again sample.
Proof.
  split_and!.
  - repeat first [apply conj | apply Forall_cons_2 | apply Forall_nil_2 | by vm_compute].
  - by_parts.
  - repeat first [apply conj | by vm_compute | by intros ?].
  - split; cbn [fmap list_fmap fst snd].
    + split; [done|]. do 2 (constructor; [by right|]). constructor.
    + do 2 (constructor; [by right|]). constructor; [right; by intros ?|].
      constructor; [right; intros _|constructor]. constructor; [|constructor].
      split; [by split|]. split; [done|]. constructor; [by right|constructor].
Qed.

Lemma merge_in_place_witness :
  exists r' s', @InsituMerge flat_allocator _ _ _ (Compact v2) sample_type sample_again
      (buffer_of (encode (cb_format v2) false sample)) [] = Ok (Compact v1, r') /\
    Deserialize (CompactBinaryReader v1) sample_type r' = (Ok sample_again, s') /\ view s' = [].
Proof.
  destruct (buffer_reads (encode (cb_format v2) false sample)) as [H1 H2]; [by vm_compute|].
  destruct sample_again_ok as (Hx & Hs & Hz & Ha).
  assert (Hm : mem_wf []) by constructor.
  assert (Hl : zlen (encode (format_of (Compact v2)) false sample) < 2 ^ 32) by by vm_compute.
  assert (Hl' : zlen (encode (format_of (Compact v1)) false sample_again) < 2 ^ 31) by by vm_compute.
  exact (@merge_in_place _ _ _ _ flat_allocator (Compact v2) sample_type sample_again sample _ [] []
    Hm (proj1 sample_types_ok) (ex_intro _ _ (ex_intro _ _ eq_refl)) Hx Hs Hz sample_ok sample_typed
    Ha Hl Hl' H1 (eq_trans H2 (eq_sym (app_nil_r _)))).
Defined.

(** The field 5 of the object after a field 3, and next to a narrower one. *)
Definition lone (i : Z) (s : scalar) : value := VStruct None [(i, no_default, VBasic s)].

Lemma merge_loses_field_witness :
  exists out out',
    MergeTo Fast Fast one_field (five 2) (buffer_of (encode fb_format false (lone 3 (SBool true))))
      (mkOC 0) = (Ok tt, out) /\
    appends (mkOC 0) (encode fb_format false (lone 3 (SBool true))) out /\
    MergeTo Fast Fast one_field (five 2) (buffer_of (encode fb_format false (lone 5 (SInt W16 1))))
      (mkOC 0) = (Ok tt, out') /\
    appends (mkOC 0) (encode fb_format false (lone 5 (SInt W16 1))) out'.
Proof.
  destruct (buffer_reads (encode fb_format false (lone 3 (SBool true)))) as [H1 H2]; [by vm_compute|].
  destruct (buffer_reads (encode fb_format false (lone 5 (SInt W16 1)))) as [H3 H4]; [by vm_compute|].
  assert (Hroom : room (mkOC 0) 1000) by by vm_compute.
  assert (Hx : value_ok (VBasic (SInt W32 2))) by by vm_compute.
  destruct (merge_loses_field Fast Fast 5 no_default (FBasic (TInt W32)) (VBasic (SInt W32 2)) 3
    no_default (VBasic (SBool true)) (buffer_of (encode fb_format false (lone 3 (SBool true)))) [] (mkOC 0) 1000)
    as (out & E & A);
    [done|by by_parts|exact Hx|done|left; lia|by vm_compute|by by_parts|by by_parts|by by_parts|
     by vm_compute|by vm_compute|exact H1|exact (eq_trans H2 (eq_sym (app_nil_r _)))|exact Hroom|
     by vm_compute|].
  destruct (merge_loses_field Fast Fast 5 no_default (FBasic (TInt W32)) (VBasic (SInt W32 2)) 5
    no_default (VBasic (SInt W16 1)) (buffer_of (encode fb_format false (lone 5 (SInt W16 1)))) [] (mkOC 0) 1000)
    as (out' & E' & A');
    [done|by by_parts|exact Hx|done|right; by split|by vm_compute|by by_parts|by by_parts|by by_parts|
     by vm_compute|by vm_compute|exact H3|exact (eq_trans H4 (eq_sym (app_nil_r _)))|exact Hroom|
     by vm_compute|].
  exists out, out'. exact (conj E (conj A (conj E' A'))).
Defined.

Definition struct_list (n : nat) : value := VList false BT_STRUCT (replicate n (VStruct None [])).

Lemma merge_size_mismatch_witness :
  exists r', Merge FastBinaryReader FastBinaryWriter os_Write_bytes true false
      (FList false (FStruct None [])) (Some (struct_list 1))
      (buffer_of (encode fb_format false (struct_list 2)), mkOC 0) =
    (Err (Thrown CoreException), (r', mkOC 0)).
Proof.
  destruct (buffer_reads (encode fb_format false (struct_list 2))) as [H1 H2]; [by vm_compute|].
  apply (merge_size_mismatch FastBinaryReader fb_format FastBinaryWriter os_Write_bytes true false
    false (FStruct None []) false BT_STRUCT (replicate 1 (VStruct None [])) false BT_STRUCT
    (replicate 2 (VStruct None [])) _ [] (mkOC 0) fb_reader_laws); try done.
Defined.
