(* ===== verification/RuntimeParse.v ===== *)
(** Deserialization with the schema of the payload (cpp/inc/bond/core/parser.h,
    detail/inheritance.h, detail/parser_utils.h with a [RuntimeSchema], value.h
    [value<void>], bonded_void.h, transforms.h [To]).

    [DynamicParser] with a runtime schema hands the fields to a deserializing transform by
    id, structs as [bonded<void>] and containers as [value<void>], each with the part of
    the schema that describes it.  The transform is a record of operations; [To<T>] is
    one, which finds its fields by their ids. *)

From S2P Require Import Prelude Streams DataType Metadata Protocol Schema Parser.
From S2P Require Import RuntimeSchema Validate.

(** * The parser *)

(** A transform with its state [X]: what [Base] is given, the overloads of [Field] and
    [UnknownField].  A value that the transform does not read is skipped by its
    destructor, which is part of the operation. *)
Record Transform (R X : Type) : Type := mkTransform {
  expected_depth : Z;
  tr_Base : RuntimeSchema -> X -> M R (X * bool);
  tr_Bonded : Z -> RuntimeSchema -> X -> M R X;
  tr_Value : Z -> RuntimeSchema -> X -> M R X;
  tr_Basic : Z -> btype -> X -> M R X;
  tr_Unknown : BondDataType -> M R unit;
  tr_End : X -> M R unit
}.
Arguments mkTransform {R X}.
Arguments expected_depth {R X}.
Arguments tr_Base {R X}.
Arguments tr_Bonded {R X}.
Arguments tr_Value {R X}.
Arguments tr_Basic {R X}.
Arguments tr_Unknown {R X}.
Arguments tr_End {R X}.

(** The fields of the schema that are passed over. *)
Fixpoint after_omitted (type : BondDataType) (id : Z) (rest : list FieldDef) : list FieldDef :=
  match rest with
  | f :: rest' => if (fd_id f <? id) || is_stop type then after_omitted type id rest' else rest
  | [] => []
  end.

(** A hierarchy has no more levels than the schema has structs. *)
Definition hierarchy_of (r : RuntimeSchema) : nat := S (length (structs (rs_schema r))).

Section Drive.
Context {R X : Type} `{Readable R} (P : ProtocolReader R) (T : Transform R X).

(** [NonBasicTypeField(field, schema, transform, input)]. *)
Definition NonBasicTypeField (schema : RuntimeSchema) (f : FieldDef) (x : X) : M R X :=
  if td_id (fd_type f) =? BT_STRUCT
  then tr_Bonded T (fd_id f) (with_field schema f) x
  else tr_Value T (fd_id f) (with_field schema f) x.

(** [DynamicParser::ReadFields(schema, id, type, transform)].  [OmittedField] has no
    effect. *)
Fixpoint DriveFields (schema : RuntimeSchema) (fuel : nat) (rest : list FieldDef)
    (tag : BondDataType * Z) (x : X) : M R (BondDataType * X) :=
  match fuel with
  | O => fail OutOfFuel
  | S fuel' =>
      let '(type, id) := tag in
      let rest := after_omitted type id rest in
      if is_stop type then ret (type, x)
      else
        let next (rest : list FieldDef) (x : X) :=
          let! tag' := ReadSubsequentField P in DriveFields schema fuel' rest tag' x in
        match rest with
        | f :: rest' =>
            if fd_id f =? id then
              if is_container_or_struct type then
                if td_id (fd_type f) =? type
                then let! x' := NonBasicTypeField schema f x in next rest' x'
                else tr_Unknown T type ;;; next rest' x
              else
                match basic_type_of_id type with
                | Some u => let! x' := tr_Basic T id u x in next rest' x'
                | None => next rest' x
                end
            else tr_Unknown T type ;;; next rest x
        | [] => tr_Unknown T type ;;; next [] x
        end
  end.

(** [ReadUnknownFields]: [UnknownEnd] has no effect. *)
Fixpoint DriveUnknown (fuel : nat) (type : BondDataType) : M R unit :=
  match fuel with
  | O => fail OutOfFuel
  | S fuel' =>
      if type =? BT_STOP then ret tt
      else
        (if type =? BT_STOP_BASE then ret tt else tr_Unknown T type) ;;;
        let! tag := ReadSubsequentField P in DriveUnknown fuel' (fst tag)
  end.

(** [DynamicParser::ReadFields(schema, transform)]. *)
Definition DriveLevel (base : bool) (schema : RuntimeSchema) (fields : list FieldDef) (x : X) :
    M R (X * bool) :=
  let! tag := ReadFieldBegin P in
  let! r := with_fuel (length fields) (fun fuel => DriveFields schema fuel fields tag x) in
  let! done :=
    if negb base then with_fuel 0 (fun fuel => DriveUnknown fuel (fst r)) ;;; ret false
    else ret (fst r =? BT_STOP) in
  ReadFieldEnd P ;;; ret (snd r, done).

(** [ParserInheritance::Read(schema, transform)]: levels of the schema that the transform
    does not expect are left to [ReadUnknownFields], after the ones below them. *)
Fixpoint DriveStruct (levels : nat) (base : bool) (schema : RuntimeSchema) (x : X) :
    M R (X * bool) :=
  match levels with
  | O => fail OutOfFuel
  | S levels' =>
      let! depth := of_outcome (depth_of schema) in
      if expected_depth T <? depth then
        ReadStructBegin P true ;;;
        let! b := of_outcome (GetBaseSchema schema) in
        let! r := DriveStruct levels' base b x in
        ReadStructEnd P true ;;;
        ret r
      else
        let! d := of_outcome (GetStruct schema) in
        let! has_base := of_outcome (HasBase schema) in
        let! r :=
          if (has_base : bool) then
            let! b := of_outcome (GetBaseSchema schema) in tr_Base T b x
          else ret (x, false) in
        let! r :=
          if (snd r : bool) then ret r else DriveLevel base schema (fields d) (fst r) in
        tr_End T (fst r) ;;;
        ret r
  end.

(** [Apply(transform, bonded<void>(input, schema, base))]. *)
Definition DriveApply (base : bool) (schema : RuntimeSchema) (x : X) : M R (X * bool) :=
  ReadStructBegin P base ;;;
  let! r := DriveStruct (hierarchy_of schema) base schema x in
  ReadStructEnd P base ;;;
  ret r.
End Drive.

(** * Values of a schema *)

Section Values.
Context {R : Type} `{Readable R} (P : ProtocolReader R).

(** The switch on the element type of the payload: nested elements are read when it is
    the one of the element's schema, basic ones when it matches the variable's. *)
Definition void_reader (e : ftype) (expected type : BondDataType) (exact : value -> M R value) :
    option (value -> M R value) :=
  match e with
  | FBasic _ => element_reader P e type exact
  | _ => if type =? expected then Some exact else None
  end.

(** [DeserializeContainer(var, value<void>(input, element), input)]. *)
Definition VoidContainer (is_set : bool) (e : ftype) (expected : BondDataType)
    (exact : value -> M R value) (items : list value) : M R (list value) :=
  let! h := ReadContainerBegin P expected in
  let! items' :=
    (if is_set then
       match e with
       | FBasic x =>
           match key_reader P x (snd h) with
           | Some read => DeserializeSet read (fst h)
           | None => SkipElements P (snd h) (fst h) ;;; ret items
           end
       | _ => SkipElements P (snd h) (fst h) ;;; ret items
       end
     else
       match void_reader e expected (snd h) exact with
       | Some read => DeserializeList read (default_object e) items (fst h)
       | None => SkipElements P (snd h) (fst h) ;;; ret items
       end) in
  ReadContainerEnd P ;;; ret items'.

(** [DeserializeMap(var, keyType, value<void>(input, element), input)]. *)
Definition VoidMap (kt : btype) (vt : ftype) (expected : BondDataType * BondDataType)
    (exact : value -> M R value) (items : list (value * value)) : M R (list (value * value)) :=
  let! h := ReadMapBegin P expected in
  let! items' :=
    match void_reader vt (snd expected) (snd (snd h)) exact with
    | Some read =>
        match key_reader P kt (fst (snd h)) with
        | Some key => DeserializeMapElements key read (default_object vt) (fst h)
        | None => SkipMapElements P (snd h) (fst h) ;;; ret items
        end
    | None => SkipMapElements P (snd h) (fst h) ;;; ret items
    end in
  ReadContainerEnd P ;;; ret items'.

(** [value<void>::Deserialize(var)]: a struct or container of the variable's type is read
    by [exact], anything else is skipped. *)
Definition VoidDeserialize (t : ftype) (exact : RuntimeSchema -> value -> M R value)
    (schema : RuntimeSchema) (var : value) : M R value :=
  if is_container_or_struct (field_type_id t) && (GetTypeId schema =? field_type_id t)
  then exact schema var
  else Skip P (GetTypeId schema) ;;; ret var.

(** * [To<T>] *)

(** A member of the object with how it is read from a [bonded<void>] or [value<void>]. *)
Record void_field : Type := mkVF {
  vf_field : bound_field (R := R);
  vf_read : RuntimeSchema -> value -> M R value
}.
Definition vf_id (f : void_field) : Z := bf_id (vf_field f).
Definition vf_type (f : void_field) : ftype := bf_type (vf_field f).

(** The field with the id among those an overload looks at. *)
Definition member_with (fields : list void_field) (id : Z) (among : ftype -> bool) :
    option (nat * void_field) :=
  list_find (fun f => (vf_id f =? id) && among (vf_type f) = true) fields.

(** The members of the object and the required field that is due, and the base. *)
Definition to_state : Type := to_level * option value.

Definition on_level (m : to_level -> M R to_level) (x : to_state) : M R to_state :=
  let! l := m (fst x) in ret (l, snd x).

Definition is_struct (t : ftype) : bool := field_type_id t =? BT_STRUCT.
Definition is_container (t : ftype) : bool :=
  is_container_or_struct (field_type_id t) && negb (is_struct t).

(** A value as a transform is given it: its type, the members its overload of [Field] looks
    at, and [value.Deserialize(var)] for a member of a type, [exact] being how the member
    is read from a [bonded<void>] or [value<void>]. *)
Record source : Type := mkSource {
  src_type : BondDataType;
  src_among : ftype -> bool;
  src_read : ftype -> (RuntimeSchema -> value -> M R value) -> value -> M R value
}.

(** [bonded<void>] with [nested_fields], [value<void>] with [container_fields], [value<X>]
    with [matching_fields]. *)
Definition bonded_source (schema : RuntimeSchema) : source :=
  mkSource BT_STRUCT is_struct (fun _ exact => exact schema).
Definition void_source (schema : RuntimeSchema) : source :=
  mkSource (GetTypeId schema) is_container (fun _ exact => exact schema).
Definition matches (u : btype) (t : ftype) : bool :=
  match t with FBasic x => is_matching_basic u x | _ => false end.
Definition basic_source (u : btype) : source :=
  mkSource (get_type_id u) (matches u)
    (fun t _ var => match t with FBasic b => DeserializeBasic P u b | _ => ret var end).

(** [To::Field(id, metadata, value)] and [AssignToField]. *)
Definition To_value (fields : list void_field) (id : Z) (src : source) (x : to_state) :
    M R to_state :=
  match member_with fields id (src_among src) with
  | Some (i, f) =>
      on_level (To_Field (vf_field <$> fields) i (vf_field f)
                  (src_read src (vf_type f) (vf_read f))) x
  | None => Skip_nothrow P (src_type src) ;;; ret x
  end.

(** [To::Base]: without a base in the class the [bonded<void>] is not read. *)
Definition To_Base (read : option (RuntimeSchema -> value -> M R (value * bool)))
    (schema : RuntimeSchema) (x : to_state) : M R (to_state * bool) :=
  match read, snd x with
  | Some read', Some var =>
      let! r := read' schema var in
      if (snd r : bool) then throw CoreException else ret ((fst x, Some (fst r)), false)
  | _, _ => Skip_nothrow P BT_STRUCT ;;; ret (x, false)
  end.

Definition To_transform (depth : Z) (fields : list void_field)
    (base : option (RuntimeSchema -> value -> M R (value * bool))) : Transform R to_state :=
  mkTransform depth (To_Base base)
    (fun id schema => To_value fields id (bonded_source schema))
    (fun id schema => To_value fields id (void_source schema))
    (fun id u => To_value fields id (basic_source u))
    (Skip P) (fun x => To_End (vf_field <$> fields) (fst x)).

(** [Apply(To<T>(var), bonded<void>(input, schema, base))], and
    [value<void>(input, schema).Deserialize(var)] for the other types. *)
Fixpoint ParseWith (base : bool) (t : ftype) (schema : RuntimeSchema) (var : value) :
    M R (value * bool) :=
  match t, var with
  | FStruct bt fs, VStruct bvar vars =>
      let fields := (fun f =>
        mkVF (mkBF (fst (fst f)) (snd (fst f)) (snd f) ret)
          (VoidDeserialize (snd f) (fun schema x =>
             let! r := ParseWith false (snd f) schema x in ret (fst r)))) <$> fs in
      let read := match bt with
                  | Some bt' => Some (fun schema x => ParseWith true bt' schema x)
                  | None => None
                  end in
      let l := mkTo (next_required_field (vf_field <$> fields) 0) (snd <$> vars) in
      let! r := DriveApply P (To_transform (Z.of_nat (type_levels t)) fields read) base schema
                  (l, bvar) in
      ret (VStruct (snd (fst r)) (zip (fst <$> fs) (to_vars (fst (fst r)))), snd r)
  | FList is_set e, VList k et items =>
      let es := element_schema schema in
      let! items' := VoidContainer is_set e (GetTypeId es)
        (VoidDeserialize e (fun schema x => let! r := ParseWith false e schema x in ret (fst r)) es)
        items in
      ret (VList k et items', false)
  | FMap kt vt, VMap kt' vt' items =>
      let es := element_schema schema in
      let! items' := VoidMap kt vt (GetTypeId (key_schema schema), GetTypeId es)
        (VoidDeserialize vt (fun schema x => let! r := ParseWith false vt schema x in ret (fst r)) es)
        items in
      ret (VMap kt' vt' items', false)
  | _, _ => fail Undefined
  end.

(** [value.Deserialize<Protocols>(var)] for a [bonded<void>] or [value<void>]. *)
Definition void_exact (t : ftype) : RuntimeSchema -> value -> M R value :=
  VoidDeserialize t (fun schema x => let! r := ParseWith false t schema x in ret (fst r)).

(** [bonded<void>(reader, schema).Deserialize<T>()], and [Unmarshal<T>(input, schema)]
    once the protocol is known. *)
Definition DeserializeWith (t : ftype) (schema : RuntimeSchema) : M R value :=
  let! r := ParseWith false t schema (default_object t) in ret (fst r).
End Values.
