(* ===== verification/RuntimeParseCorrect.v ===== *)
(** Deserialization with the schema of the payload gives what the compile-time schema
    gives.

    The payload of an object that is an instance of a runtime schema is handed to the
    transform field by field; the first part holds for any transform whose operations
    consume what they are given, the second is [To<T>]. *)

From stdpp Require Import strings.
From S2P Require Import Prelude Streams Encoding InputBuffer DataType Metadata Protocol.
From S2P Require Import Serializer FastBinary CompactBinary.
From S2P Require Import Schema Parser ParserCorrect Deserialization RuntimeSchema Validate.
From S2P Require Import ValidateSound RuntimeParse.

(** * The parser with any transform *)

Section Driven.
Context {R X : Type} `{Readable R} (P : ProtocolReader R) (F : wire_format).
Context (laws : reader_laws P F) (T : Transform R X).
Context (unknown_reads : forall v, value_ok v -> zlen (encode F false v) < 2 ^ 32 ->
  reads (tr_Unknown T (type_of v)) (encode F false v) tt).

(** What the parser does with a payload field of the type its schema says. *)
Definition drive_op (schema : RuntimeSchema) (f : FieldDef) : X -> M R X :=
  match basic_type_of_id (td_id (fd_type f)) with
  | Some u => tr_Basic T (fd_id f) u
  | None => NonBasicTypeField T schema f
  end.

(** The fields [p] of the payload, each of them in the schema, take [x] to [x']. *)
Inductive drives (schema : RuntimeSchema) :
    list FieldDef -> list (Z * value) -> X -> X -> Prop :=
| drives_nil rest x : drives schema rest [] x x
| drives_omitted f rest p x x' : drives schema rest p x x' -> drives schema (f :: rest) p x x'
| drives_field f rest v p x x1 x' : td_id (fd_type f) = type_of v ->
    reads (drive_op schema f x) (encode F false v) x1 -> drives schema rest p x1 x' ->
    drives schema (f :: rest) ((fd_id f, v) :: p) x x'.

Lemma drives_next schema rest id v p x x' lo : increasing lo (fd_id <$> rest) ->
  drives schema rest ((id, v) :: p) x x' ->
  exists f rest' x1, after_omitted (type_of v) id rest = f :: rest' /\ fd_id f = id /\
    increasing id (fd_id <$> rest') /\ lo < id /\ td_id (fd_type f) = type_of v /\
    reads (drive_op schema f x) (encode F false v) x1 /\ drives schema rest' p x1 x'.
Proof.
  intros Hi Hd. remember ((id, v) :: p) as p0 eqn:Hp. revert lo Hi Hp.
  induction Hd as [|f rest p0 x x' Hd IH|f rest v0 p0 x x1 x' Ht Hr Hd _]; intros lo Hi Hp; [done| |].
  - rewrite fmap_cons in Hi. destruct Hi as [Hf Hi].
    destruct (IH _ Hi Hp) as (g & rest' & x1 & E & Hg & Hi' & Hlt & Hrest).
    exists g, rest', x1. cbn [after_omitted]. zbool. cbn [orb]. split_and!; first [done|lia|apply Hrest].
  - injection Hp as <- <- <-. rewrite fmap_cons in Hi. destruct Hi as [Hf Hi].
    exists f, rest, x1. cbn [after_omitted]. rewrite Z.ltb_irrefl.
    rewrite not_stop by apply type_of_range. split_and!; first [done|lia].
Qed.

Lemma drives_end schema rest x x' : drives schema rest [] x x' -> x' = x.
Proof.
  intros Hd. remember ([] : list (Z * value)) as p eqn:Hp. by induction Hd; [|auto|].
Qed.

(** A field of the expected type goes to [drive_op]. *)
Lemma drive_field schema f v x (k : X -> M R (BondDataType * X)) :
  td_id (fd_type f) = type_of v ->
  (if is_container_or_struct (type_of v) then
     if td_id (fd_type f) =? type_of v
     then let! x' := NonBasicTypeField T schema f x in k x'
     else tr_Unknown T (type_of v) ;;; k x
   else match basic_type_of_id (type_of v) with
        | Some u => let! x' := tr_Basic T (fd_id f) u x in k x'
        | None => k x
        end) = (let! x' := drive_op schema f x in k x').
Proof.
  intros Ht. unfold drive_op. rewrite Ht, Z.eqb_refl.
  destruct (basic_type_of_id (type_of v)) as [u|] eqn:Hu.
  - destruct (basic_of_type _ _ Hu) as (s & -> & <-). by destruct s as [|[]|[]| | | |].
  - by rewrite basic_or_container.
Qed.

Lemma DriveFields_reads base sid schema :
  reads (ReadFieldBegin P) (wf_stop F base) (stop_type base, sid) ->
  forall fuel rest p lo x x', increasing lo (fd_id <$> rest) ->
    Forall (field_fine F) p -> drives schema rest p x x' -> (length p < fuel)%nat ->
    reads (DriveFields P T schema fuel rest (tag_of base sid p) x) (tail_bytes F base p)
      (stop_type base, x').
Proof.
  intros Hs fuel. induction fuel as [|fuel IH]; intros rest p lo x x' Hi Hf Hd Hl; [lia|].
  cbn [DriveFields]. destruct p as [|[id v] p]; cbn [tag_of tail_bytes].
  - rewrite is_stop_type, (drives_end _ _ _ _ Hd). apply reads_ret.
  - destruct (drives_next _ _ _ _ _ _ _ _ Hi Hd) as
      (f & rest' & x1 & -> & <- & Hi' & _ & Ht & Hr & Hd').
    apply Forall_cons_1 in Hf as [(Hid & Hv & Ho & Hz) Hf]. cbn [fst snd] in *.
    rewrite not_stop by apply type_of_range. rewrite Z.eqb_refl.
    rewrite (drive_field schema f v x (fun x' => let! tag' := ReadSubsequentField P in
      DriveFields P T schema fuel rest' tag' x')) by done.
    eapply reads_bind; [exact Hr|]. rewrite all_bytes_split.
    eapply reads_bind; [by apply (next_tag P F laws); [|apply (fine_ids F)]|].
    eapply IH; try done. simpl in Hl. lia.
Qed.

(** ** Levels the transform does not expect *)

Lemma drive_unknown_fields base sid p rest n :
  reads (ReadFieldBegin P) (wf_stop F base) (stop_type base, sid) -> Forall (field_fine F) p ->
  (forall fuel, (n <= fuel)%nat -> reads (DriveUnknown P T fuel (stop_type base)) rest tt) ->
  forall fuel, (n + length p <= fuel)%nat ->
  reads (DriveUnknown P T fuel (fst (tag_of base sid p))) (tail_bytes F base p ++ rest) tt.
Proof.
  intros Hs Hf Hrest. induction Hf as [|[id v] p (Hid & Hv & Ho & Hl) Hf IH]; intros fuel Hn.
  - apply Hrest. simpl in Hn. lia.
  - destruct fuel as [|fuel]; [simpl in Hn; lia|].
    cbn [tag_of fst snd tail_bytes DriveUnknown] in *. pose proof (type_of_range v).
    replace (type_of v =? BT_STOP) with false by (unfold BT_STOP; by zbool).
    replace (type_of v =? BT_STOP_BASE) with false by (unfold BT_STOP_BASE; by zbool).
    rewrite <-app_assoc. eapply reads_bind; [by apply unknown_reads|].
    rewrite all_bytes_split, <-app_assoc.
    eapply reads_bind; [by apply (next_tag P F laws); [|apply (fine_ids F)]|].
    apply IH. simpl in Hn. lia.
Qed.

Lemma drive_unknown_levels outer : Forall (Forall (field_fine F)) outer ->
  forall fuel, (length (levels_bytes F false outer) < fuel)%nat ->
  reads (DriveUnknown P T fuel (stop_type (stops_base false outer))) (levels_bytes F false outer) tt.
Proof.
  induction 1 as [|p outer Hp Hf IH]; intros fuel Hl; (destruct fuel as [|fuel]; [lia|]).
  - apply reads_ret.
  - cbn [levels_bytes stops_base orb stop_type] in *. set (base := if outer then false else true) in *.
    cbn [DriveUnknown]. change (BT_STOP_BASE =? BT_STOP) with false.
    change (BT_STOP_BASE =? BT_STOP_BASE) with true. cbv iota.
    eapply reads_bind_nil; [apply reads_ret|]. destruct (rl_stop _ _ laws base) as [sid Hs].
    rewrite length_app in Hl. pose proof (all_bytes_pos P F laws base p).
    rewrite all_bytes_split, <-app_assoc.
    eapply reads_bind; [by apply (next_tag P F laws); [|apply (fine_ids F)]|].
    apply (drive_unknown_fields base sid p _ (S (length (levels_bytes F false outer)))); [done..| |lia].
    intros fuel' Hfuel'. by apply IH.
Qed.

(** One level of the schema, and what follows it. *)
Lemma DriveLevel_reads base outer schema ds p x x' :
  increasing (-1) (fd_id <$> ds) -> Forall (field_fine F) p -> drives schema ds p x x' ->
  Forall (Forall (field_fine F)) outer -> (base = true -> outer = []) ->
  reads (DriveLevel P T base schema ds x)
    (all_bytes F (stops_base base outer) p ++ levels_bytes F false outer) (x', false).
Proof.
  intros Hi Hf Hd Ho Hb. set (pbase := stops_base base outer).
  destruct (rl_stop _ _ laws pbase) as [sid Hs].
  unfold DriveLevel. rewrite all_bytes_split, <-app_assoc.
  eapply reads_bind; [by apply (first_tag P F laws); [|apply (fine_ids F)]|].
  eapply (reads_bind _ _ _ _ (stop_type pbase, x')).
  { apply with_fuel_reads. intros fuel Hfuel. eapply DriveFields_reads; try done.
    pose proof (tail_bytes_length P F laws pbase p). lia. }
  cbn [fst snd]. rewrite <-(app_nil_r (levels_bytes F false outer)).
  eapply (reads_bind _ _ _ _ false).
  - destruct base; cbn [negb].
    + rewrite (Hb eq_refl). apply reads_ret.
    + apply (reads_map _ (fun _ => false) _ tt), with_fuel_reads. intros fuel Hfuel.
      apply drive_unknown_levels; [done|lia].
  - eapply reads_bind_nil; [apply (rl_field_end _ _ laws)|apply reads_ret].
Qed.

(** ** The levels of a struct *)

Context (s : SchemaDef) (ok : schema_ok s).

(** The level the transform expects: its base, its fields, what follows. *)
Lemma DriveStruct_expected fuel base outer t d bv vfs (x x1 x2 : X) n :
  levels s (Z.to_nat (struct_def t)) n -> Z.of_nat n <= expected_depth T ->
  structs s !! Z.to_nat (struct_def t) = Some d ->
  match bv, base_def d with
  | None, None => x1 = x
  | Some v, Some tb =>
      reads (tr_Base T (mkRuntimeSchema s tb) x) (encode F true v) (x1, false)
  | _, _ => False
  end ->
  drives (mkRuntimeSchema s t) (fields d) (present_fields F vfs) x1 x2 ->
  Forall (field_fine F) (present_fields F vfs) -> reads (tr_End T x2) [] tt ->
  Forall (Forall (field_fine F)) outer -> (base = true -> outer = []) ->
  reads (DriveStruct P T (S fuel) base (mkRuntimeSchema s t) x)
    (body_of F (stops_base base outer) bv vfs ++ levels_bytes F false outer) (x2, false).
Proof.
  intros Hl Hn Hd Hbase Hdr Hf Hend Ho Hb. destruct ok as (Hs & Hok & _).
  pose proof (struct_ok_at s ok _ _ Hd) as Hdok.
  cbn [DriveStruct]. unfold depth_of. cbn [rs_schema].
  rewrite (schema_depth_levels s _ t n Hs Hl) by (apply levels_bound in Hl; lia).
  eapply reads_bind_nil; [apply reads_ret|].
  replace (expected_depth T <? Z.of_nat n) with false by (symmetry; apply Z.ltb_ge; lia).
  unfold HasBase, GetBaseSchema, GetStruct, vector_at. cbn [rs_schema rs_type]. rewrite Hd.
  cbn [obind]. do 2 (eapply reads_bind_nil; [apply reads_ret|]).
  unfold body_of. rewrite <-!app_assoc. eapply (reads_bind _ _ _ _ (x1, false)).
  - destruct bv as [v|], (base_def d) as [tb|] eqn:Eb; try done.
    subst x1. apply reads_ret.
  - cbn [fst snd]. rewrite app_assoc, present_bytes, <-(app_nil_r (_ ++ levels_bytes F false outer)).
    eapply (reads_bind _ _ _ _ (x2, false)).
    + apply DriveLevel_reads; try done. by destruct Hdok as (_ & ? & _).
    + eapply reads_bind_nil; [exact Hend|apply reads_ret].
Qed.

(** The levels above it are left to the parser of the expected one. *)
Lemma DriveStruct_deeper base x bs r v : forall fuel t,
  instance_of s v t -> td_id t = BT_STRUCT -> 1 <= expected_depth T ->
  (value_levels v <= fuel)%nat ->
  (forall fuel' t', instance_of s (at_levels (Z.to_nat (expected_depth T)) v) t' ->
    td_id t' = BT_STRUCT ->
    reads (DriveStruct P T (S fuel') base (mkRuntimeSchema s t') x) bs r) ->
  reads (DriveStruct P T fuel base (mkRuntimeSchema s t) x) bs r.
Proof.
  destruct ok as (Hs & Hok & _).
  assert (Hall : forall v fuel t, instance_of s v t -> td_id t = BT_STRUCT ->
    1 <= expected_depth T -> (value_levels v <= fuel)%nat ->
    (forall fuel' t', instance_of s (at_levels (Z.to_nat (expected_depth T)) v) t' ->
      td_id t' = BT_STRUCT ->
      reads (DriveStruct P T (S fuel') base (mkRuntimeSchema s t') x) bs r) ->
    reads (DriveStruct P T fuel base (mkRuntimeSchema s t) x) bs r); [|by apply Hall].
  clear v. intros v. induction v as [y|b fs Hb _|kt et items _|kt vt items _] using value_ind_nested;
    intros fuel t Hi Ht He Hfuel Hcore; pose proof (instance_levels _ _ _ Hok Hi Ht) as Hl;
    pose proof (levels_bound _ _ _ Hl) as Hlb; try (cbn [value_levels] in Hlb; lia).
  destruct fuel as [|fuel]; [lia|].
  destruct (le_lt_dec (value_levels (VStruct b fs)) (Z.to_nat (expected_depth T))) as [Hle|Hlt].
  { apply Hcore; [by rewrite at_levels_id|done]. }
  destruct b as [bv|]; [|cbn in Hlt; lia].
  pose proof Hi as (_ & _ & d & Hd & Hbase & _).
  destruct (base_def d) as [tb|] eqn:Eb; [|done].
  cbn [DriveStruct]. unfold depth_of. cbn [rs_schema].
  rewrite (schema_depth_levels s _ t _ Hs Hl) by lia.
  eapply reads_bind_nil; [apply reads_ret|]. zbool.
  eapply reads_bind_nil; [apply (rl_begin _ _ laws true 0); unfold fits; lia|].
  unfold GetBaseSchema, GetStruct, vector_at. cbn [rs_schema rs_type]. rewrite Hd. cbn [obind]. rewrite Eb.
  eapply reads_bind_nil; [apply reads_ret|]. rewrite <-(app_nil_r bs).
  eapply reads_bind.
  - apply (Hb bv eq_refl); [done| |done|cbn [value_levels] in Hfuel; lia|].
    + by destruct (struct_ok_base _ _ _ (struct_ok_at s ok _ _ Hd) Eb).
    + intros fuel' t' Hi' Ht'. apply Hcore; [|done].
      unfold at_levels in *. cbn [value_levels] in *.
      replace (S (value_levels bv) - Z.to_nat (expected_depth T))%nat
        with (S (value_levels bv - Z.to_nat (expected_depth T))) by lia. exact Hi'.
  - eapply reads_bind_nil; [apply (rl_end _ _ laws)|apply reads_ret].
Qed.

(** A whole struct: at the level that is expected, the base [bv] and the fields [vfs]. *)
Lemma DriveApply_reads base b0 fs0 t x x2 : instance_of s (VStruct b0 fs0) t ->
  1 <= expected_depth T -> value_ok (VStruct b0 fs0) -> ordered (VStruct b0 fs0) ->
  zlen (encode F base (VStruct b0 fs0)) < 2 ^ 32 ->
  (base = true -> (value_levels (VStruct b0 fs0) <= Z.to_nat (expected_depth T))%nat) ->
  (forall bv vfs td d,
     at_levels (Z.to_nat (expected_depth T)) (VStruct b0 fs0) = VStruct bv vfs ->
     instance_of s (VStruct bv vfs) td -> structs s !! Z.to_nat (struct_def td) = Some d ->
     level_fine F bv vfs ->
     (value_levels (VStruct bv vfs) <= Z.to_nat (expected_depth T))%nat ->
     exists x1,
       match bv, base_def d with
       | None, None => x1 = x
       | Some v, Some tb =>
           reads (tr_Base T (mkRuntimeSchema s tb) x) (encode F true v) (x1, false)
       | _, _ => False
       end /\
       drives (mkRuntimeSchema s td) (fields d) (present_fields F vfs) x1 x2 /\
       reads (tr_End T x2) [] tt) ->
  reads (DriveApply P T base (mkRuntimeSchema s t) x) (encode F base (VStruct b0 fs0)) (x2, false).
Proof.
  intros Hi He Hv Ho Hl Hbase Hlevel. pose proof (sub_fits F base b0 fs0 Hl) as Hbody.
  assert (Hpos : (0 < Z.to_nat (expected_depth T))%nat) by lia.
  destruct (body_at_levels F base _ b0 fs0 Hpos Hv Ho Hbody Hbase) as
    (bv & vfs & outer & Ecore & Ebody & Hf & Hout & Hbo).
  pose proof (at_levels_bound _ (VStruct b0 fs0) Hpos) as Hcore. rewrite Ecore in Hcore.
  rewrite encode_struct. unfold DriveApply. apply (struct_begins P F laws); [by apply zlen_fits|].
  rewrite Ebody, <-(app_nil_r (_ ++ levels_bytes F false outer)).
  eapply (reads_bind _ _ _ _ (x2, false));
    [|eapply reads_bind_nil; [apply (rl_end _ _ laws)|apply reads_ret]].
  pose proof Hi as (Hid & _). destruct ok as (_ & Hok & _).
  pose proof (levels_bound _ _ _ (instance_levels _ _ _ Hok Hi Hid)) as Hlb.
  apply (DriveStruct_deeper base x _ (x2, false) (VStruct b0 fs0)); try done.
  { unfold hierarchy_of. cbn [rs_schema]. lia. }
  intros fuel td Htd Hstruct. rewrite Ecore in Htd.
  pose proof Htd as (_ & _ & d & Hd & _).
  destruct (Hlevel bv vfs td d Ecore Htd Hd Hf Hcore) as (x1 & Hb & Hdr & Hend).
  destruct (level_fine_parts _ _ _ Hf) as [_ Hfine].
  eapply DriveStruct_expected; try done; [by eapply instance_levels|lia].
Qed.
End Driven.

(** * [To<T>] *)

(** A container of basic types takes any elements or none; otherwise its elements are read one by one,
    which needs the payload's to be of the same kind. *)
Definition elements_agree (e : ftype) (type : BondDataType) : bool :=
  match e with FBasic _ => true | _ => type =? field_type_id e end.

(** Every container that [read_as F t] reads in [v] has elements of the kind the member
    has. *)
Fixpoint takes (F : wire_format) (t : ftype) (v : value) : bool :=
  match t, v with
  | FStruct bt fs, VStruct _ _ =>
      match at_levels (type_levels t) v with
      | VStruct bv vfs =>
          match bt, bv with Some bt', Some bv' => takes F bt' bv' | _, _ => true end &&
          forallb (fun f => match lookup_field (fst (fst f)) (present_fields F vfs) with
                            | Some x => negb (accepts (snd f) (type_of x)) || takes F (snd f) x
                            | None => true
                            end) fs
      | _ => true
      end
  | FList _ e, VList _ type items => elements_agree e type && forallb (takes F e) items
  | FMap _ e, VMap _ type items =>
      elements_agree e type && forallb (fun kv => takes F e (snd kv)) items
  | _, _ => true
  end.

Section To.
Context {R : Type} `{Readable R} (P : ProtocolReader R) (F : wire_format).
Context (laws : reader_laws P F) (s : SchemaDef).

(** A member with the specification of its reading. *)
Abbreviation member := (void_field (R := R) * (value -> value -> option value))%type.
Definition bound_of (h : member) : bound_field (R := R) * (value -> value -> option value) :=
  (vf_field (fst h), snd h).
Definition member_type (h : member) : ftype := vf_type (fst h).
Definition member_fields (l : list member) : list (void_field (R := R)) := fst <$> l.

(** What is assumed of a field of the payload. *)
Definition field_of_payload (f : FieldDef) (v : value) : Prop :=
  instance_of s v (fd_type f) /\ typedef_ok (zlen (structs s)) (fd_type f) /\ fine F v.

Record member_ok (h : member) : Prop := mkMO {
  mo_exact schema f var v r : rs_schema schema = s -> field_of_payload f v ->
    is_container_or_struct (type_of v) = true ->
    type_of v = field_type_id (member_type h) -> takes F (member_type h) v = true ->
    snd h var v = Some r -> reads (vf_read (fst h) (with_field schema f) var) (encode F false v) r;
  mo_other schema f var v : rs_schema schema = s -> field_of_payload f v ->
    type_of v <> field_type_id (member_type h) ->
    reads (vf_read (fst h) (with_field schema f) var) (encode F false v) var;
  mo_basic x var v r : member_type h = FBasic x -> snd h var v = Some r ->
    exists sc, v = VBasic sc /\ is_matching_basic (btype_of sc) x = true /\
      r = VBasic (set_as x sc)
}.

Lemma member_fields_bounds l : vf_field <$> member_fields l = fst <$> (bound_of <$> l).
Proof. unfold member_fields. by rewrite <-!list_fmap_compose. Qed.

Lemma member_here pre h rest lo among : increasing lo (ids_of (bound_of <$> (pre ++ h :: rest))) ->
  among (member_type h) = true ->
  member_with (member_fields (pre ++ h :: rest)) (vf_id (fst h)) among = Some (length pre, fst h).
Proof.
  intros Hi Ha. revert lo Hi. unfold member_with, member_fields.
  induction pre as [|g pre IH]; intros lo Hi; cbn [app] in *; rewrite fmap_cons; cbn [list_find].
  - rewrite decide_True by (by rewrite Z.eqb_refl). done.
  - unfold ids_of in Hi. rewrite !fmap_cons in Hi. destruct Hi as [Hg Hi].
    assert (Hlt : vf_id (fst g) < vf_id (fst h)).
    { apply increasing_forall in Hi. rewrite !fmap_app, !fmap_cons in Hi.
      apply Forall_app in Hi as [_ Hi]. by apply Forall_cons_1 in Hi as [[? _] _]. }
    rewrite decide_False by (by zbool). by rewrite (IH _ Hi).
Qed.

Lemma member_none fields id among :
  Forall (fun f => vf_id (R := R) f = id -> among (vf_type f) = false) fields ->
  member_with fields id among = None.
Proof.
  intros Hf. unfold member_with. apply list_find_None. eapply Forall_impl; [|exact Hf].
  intros f Hn [Hid Ha]%andb_true_iff. apply Z.eqb_eq in Hid. by rewrite Hn in Ha.
Qed.

(** ** One field *)

(** The state after the members before [rest]. *)
Definition to_at (rest : list member) (vars : list value) (b : option value) : to_state :=
  (level_of (bound_of <$> rest) vars, b).

Lemma assign_here pre h rest lo done cur curs b src bs y :
  increasing lo (ids_of (bound_of <$> (pre ++ h :: rest))) -> -1 <= lo ->
  length done = length pre -> src_among src (member_type h) = true ->
  reads (src_read src (member_type h) (vf_read (fst h)) cur) bs y ->
  reads (To_value P (member_fields (pre ++ h :: rest)) (vf_id (fst h)) src
    (to_at (h :: rest) (done ++ cur :: curs) b)) bs (to_at rest (done ++ y :: curs) b).
Proof.
  intros Hi Hlo Hd Ha Hr. unfold To_value.
  rewrite (member_here pre h rest lo _ Hi Ha), member_fields_bounds.
  apply (reads_map _ (fun l => (l, b))). cbn [to_at fst snd].
  rewrite fmap_app, fmap_cons in Hi. rewrite fmap_app, fmap_cons, <-(length_fmap bound_of pre).
  eapply (To_Field_reads _ (bound_of h)); [exact Hi|done|by rewrite length_fmap|done].
Qed.

Lemma to_at_optional h rest vars b : is_required (bf_metadata (vf_field (fst h))) = false ->
  to_at (h :: rest) vars b = to_at rest vars b.
Proof.
  intros Hq. unfold to_at, level_of. rewrite fmap_cons. by rewrite next_required_optional.
Qed.

Lemma assign_skips fields id src v x : fine F v -> src_type src = type_of v ->
  Forall (fun f => vf_id (R := R) f = id -> src_among src (vf_type f) = false) fields ->
  reads (To_value P fields id src x) (encode F false v) x.
Proof.
  intros (Hv & _ & Hl) Hty Hf. unfold To_value. rewrite member_none, Hty by done.
  by apply (reads_map _ (fun _ => x) _ tt), (Skip_nothrow_reads P F laws).
Qed.

(** What a payload field is handed to the transform as. *)
Definition source_of (schema : RuntimeSchema) (f : FieldDef) : source (R := R) :=
  match basic_type_of_id (td_id (fd_type f)) with
  | Some u => basic_source P u
  | None => if td_id (fd_type f) =? BT_STRUCT then bonded_source (with_field schema f)
            else void_source (with_field schema f)
  end.

(** It can be read into the members of the types that take it, and leaves the others. *)
Record source_ok (src : source (R := R)) (v : value) : Prop := mkSO {
  so_type : src_type src = type_of v;
  so_taken h : member_ok h -> accepts (member_type h) (type_of v) = true ->
    takes F (member_type h) v = true ->
    src_among src (member_type h) = true /\
    forall var r, snd h var v = Some r ->
      reads (src_read src (member_type h) (vf_read (fst h)) var) (encode F false v) r;
  so_left h : member_ok h -> accepts (member_type h) (type_of v) = false ->
    src_among src (member_type h) = true ->
    forall var, reads (src_read src (member_type h) (vf_read (fst h)) var) (encode F false v) var
}.

Lemma basic_source_ok sc : scalar_ok sc -> source_ok (basic_source P (btype_of sc)) (VBasic sc).
Proof.
  intros Hsc. split; [done|..].
  - intros h Hh Ha _. cbn [src_among src_read basic_source].
    destruct (member_type h) as [x| |[]|] eqn:Hm.
    2-5: by destruct sc as [|[]|[]| | | |].
    cbn [type_of] in Ha. rewrite accepts_basic_iff, type_id_roundtrip in Ha.
    split; [done|]. intros var r Hr.
    destruct (mo_basic h Hh x _ _ _ Hm Hr) as (sc' & [= <-] & Hmt & ->).
    by apply (DeserializeBasic_reads P F laws).
  - intros h Hh Ha Ham. cbn [src_among basic_source type_of] in *.
    destruct (member_type h) as [x| | |]; try done.
    rewrite accepts_basic_iff, type_id_roundtrip in Ha. cbn [matches] in Ham. congruence.
Qed.

(** [bonded<void>] and [value<void>]: all the members that take the value are of its type. *)
Lemma void_source_ok schema f v among : rs_schema schema = s -> field_of_payload f v ->
  (forall x, among (FBasic x) = false) ->
  (forall t, field_type_id t = type_of v -> among t = true) ->
  is_container_or_struct (type_of v) = true ->
  source_ok (mkSource (type_of v) among (fun _ exact => exact (with_field schema f))) v.
Proof.
  intros Hsch Hf Hnb Hin Hc. split; [done|..]; cbn [src_among src_read].
  - intros h Hh Ha Htk.
    assert (Hty : type_of v = field_type_id (member_type h)).
    { unfold accepts in Ha. apply orb_true_iff in Ha as [Ha|Ha]; [by apply Z.eqb_eq in Ha|].
      unfold accepts_basic in Ha. destruct (member_type h); try done.
      destruct v as [sc| |[]|]; try done. by destruct sc as [|[]|[]| | | |]. }
    split; [by apply Hin|]. intros var r Hr. by apply (mo_exact h Hh).
  - intros h Hh Ha Ham var. apply (mo_other h Hh); [done|done|]. intros Heq.
    unfold accepts in Ha. by rewrite Heq, Z.eqb_refl in Ha.
Qed.

Lemma source_of_ok schema f v : rs_schema schema = s -> field_of_payload f v ->
  source_ok (source_of schema f) v.
Proof.
  intros Hsch Hf. pose proof Hf as (Hi & _ & (Hv & _)).
  pose proof (instance_type _ _ _ Hi) as Ht. unfold source_of. rewrite <-Ht.
  destruct (basic_type_of_id (type_of v)) as [u|] eqn:Hu.
  { destruct (basic_of_type _ _ Hu) as (sc & -> & <-). by apply basic_source_ok. }
  pose proof (basic_or_container v Hu) as Hc.
  destruct (type_of v =? BT_STRUCT) eqn:E.
  - apply Z.eqb_eq in E. unfold bonded_source. rewrite <-E.
    apply void_source_ok; try done; [by intros [|[]|[]| | | |]|].
    intros t Hty. unfold is_struct. by rewrite Hty, E.
  - unfold void_source, GetTypeId. cbn [with_field rs_type]. rewrite <-Ht.
    apply void_source_ok; try done; [by intros [|[]|[]| | | |]|].
    intros t Hty. unfold is_container, is_struct. by rewrite Hty, Hc, E.
Qed.

Lemma drive_op_To depth read fields schema f x :
  drive_op (To_transform P depth fields read) schema f x =
  To_value P fields (fd_id f) (source_of schema f) x.
Proof.
  unfold drive_op, source_of, NonBasicTypeField. destruct (basic_type_of_id _); [done|].
  by destruct (_ =? _).
Qed.

(** ** All the fields of a level *)

Abbreviation specs l := (spec_of <$> (bound_of <$> l)).

(** Members below the next field of the payload are left as they are. *)
Lemma next_member id p rest : forall curs news lo,
  increasing lo (ids_of (bound_of <$> rest)) ->
  read_fields (specs rest) curs p = Some news ->
  (forall i, i < id -> lookup_field i p = None) ->
  exists skipped rest' old curs' news', rest = skipped ++ rest' /\ curs = old ++ curs' /\
    news = old ++ news' /\ length old = length skipped /\
    (forall vars b, to_at rest vars b = to_at rest' vars b) /\
    read_fields (specs rest') curs' p = Some news' /\
    Forall (fun h => vf_id (fst h) < id) skipped /\
    match rest' with h :: _ => id <= vf_id (fst h) | [] => True end.
Proof.
  induction rest as [|h rest IH]; intros curs news lo Hi Hr Hp.
  { destruct (read_fields_nil _ _ _ Hr) as [-> ->]. by exists [], [], [], [], []. }
  destruct (Z.lt_ge_cases (vf_id (fst h)) id) as [Hlt|Hge].
  2:{ exists [], (h :: rest), [], curs, news. by split_and!. }
  rewrite !fmap_cons in Hr. destruct curs as [|cur curs]; [by cbn in Hr|].
  destruct (drop_head (bound_of h) (bound_of <$> rest) cur curs p news Hr (Hp _ Hlt))
    as (Hq & news' & -> & Hr').
  unfold ids_of in Hi. rewrite !fmap_cons in Hi. destruct Hi as [_ Hi].
  destruct (IH curs news' _ Hi Hr' Hp) as
    (sk & rest' & old & curs' & n' & -> & -> & -> & Hl & Hst & Hr2 & Hs & Hn).
  exists (h :: sk), rest', (cur :: old), curs', n'. split_and!; try done.
  - simpl. lia.
  - intros vars b. by rewrite to_at_optional, Hst.
  - by constructor.
Qed.

Lemma members_above h rest lo : increasing lo (ids_of (bound_of <$> (h :: rest))) ->
  Forall (fun g : member => vf_id (fst h) < vf_id (fst g)) rest.
Proof.
  unfold ids_of. rewrite !fmap_cons. intros [_ Hi]. apply increasing_forall in Hi.
  rewrite !Forall_fmap in Hi. eapply Forall_impl; [|exact Hi]. by intros g [Hg _].
Qed.

(** No member has the id, or none of the right kind. *)
Lemma no_member pre rest id among : Forall (fun g : member => vf_id (fst g) < id) pre ->
  match rest with
  | [] => True
  | h :: rest' => (vf_id (fst h) = id -> among (member_type h) = false) /\
      id <= vf_id (fst h) /\ Forall (fun g : member => vf_id (fst h) < vf_id (fst g)) rest'
  end ->
  Forall (fun f => vf_id f = id -> among (vf_type f) = false) (member_fields (pre ++ rest)).
Proof.
  intros Hp Hr. unfold member_fields. rewrite Forall_fmap. apply Forall_app. split.
  - eapply Forall_impl; [|exact Hp]. cbn. lia.
  - destruct rest as [|h rest]; [constructor|]. destruct Hr as (Hh & Hle & Hr).
    constructor; [exact Hh|]. eapply Forall_impl; [|exact Hr]. cbn. lia.
Qed.

Lemma increasing_app_r lo l1 l2 : increasing lo (l1 ++ l2) ->
  exists lo', lo <= lo' /\ increasing lo' l2.
Proof.
  revert lo. induction l1 as [|i l1 IH]; intros lo Hi; [by exists lo|].
  destruct Hi as [Hlt Hi]. destruct (IH i Hi) as (lo' & Hle & Hi'). exists lo'. split; [lia|done].
Qed.

Lemma members_suffix lo pre rest : increasing lo (ids_of (bound_of <$> (pre ++ rest))) ->
  exists lo', lo <= lo' /\ increasing lo' (ids_of (bound_of <$> rest)).
Proof. unfold ids_of. rewrite !fmap_app. apply increasing_app_r. Qed.

(** A field of the payload that no member before [rest] has. *)
Lemma To_field_reads depth read schema f v p pre rest lo old curs news b :
  rs_schema schema = s -> field_of_payload f v ->
  increasing lo (ids_of (bound_of <$> (pre ++ rest))) -> -1 <= lo ->
  Forall member_ok rest -> length old = length pre ->
  Forall (fun g : member => vf_id (fst g) < fd_id f) pre ->
  match rest with h :: _ => fd_id f <= vf_id (fst h) | [] => True end ->
  increasing (fd_id f) (fst <$> p) ->
  (forall h, h ∈ rest -> vf_id (fst h) = fd_id f -> accepts (member_type h) (type_of v) = true ->
     takes F (member_type h) v = true) ->
  read_fields (specs rest) curs ((fd_id f, v) :: p) = Some news ->
  exists mid rest' new curs' news', rest = mid ++ rest' /\ news = new ++ news' /\
    length new = length mid /\ Forall (fun g : member => vf_id (fst g) <= fd_id f) mid /\
    read_fields (specs rest') curs' p = Some news' /\
    reads (drive_op (To_transform P depth (member_fields (pre ++ rest)) read) schema f
             (to_at rest (old ++ curs) b)) (encode F false v)
      (to_at rest' ((old ++ new) ++ curs') b).
Proof.
  intros Hsch Hf Hi Hlo Hok Hold Hpre Hhd Hp Htk Hr. pose proof Hf as (_ & _ & Hfine).
  rewrite drive_op_To. pose proof (source_of_ok schema f v Hsch Hf) as Hsrc.
  pose proof (so_type _ _ Hsrc) as Hsty. set (src := source_of schema f) in *.
  destruct rest as [|h rest].
  { destruct (read_fields_nil _ _ _ Hr) as [-> ->]. exists [], [], [], [], [].
    rewrite !app_nil_r. split_and!; try done. apply assign_skips; [done|done|].
    rewrite <-(app_nil_r pre). by apply no_member. }
  destruct (members_suffix _ _ _ Hi) as (lo' & _ & Hir).
  pose proof (members_above _ _ _ Hir) as Habove.
  pose proof (Forall_cons_1 _ _ _ Hok) as [Hh _].
  destruct (decide (vf_id (fst h) = fd_id f)) as [Heq|Hne].
  2:{ exists [], (h :: rest), [], curs, news. rewrite app_nil_r. split_and!; try done.
      - rewrite (read_fields_below (fd_id f) v p (bound_of <$> (h :: rest)) curs (fd_id f)) in Hr;
          [done| |lia].
        unfold ids_of in *. rewrite !fmap_cons in *. destruct Hir as [Hlt Hir].
        split; [|exact Hir]. cbn in *. unfold vf_id in *. lia.
      - apply assign_skips; [done|done|]. apply (no_member pre (h :: rest)); [done|by split_and!]. }
  destruct curs as [|cur curs]; [by rewrite !fmap_cons in Hr|]. rewrite !fmap_cons in Hr.
  destruct (read_here (bound_of h) (bound_of <$> rest) cur curs (fd_id f) v p news Heq Hr)
    as (y & ys & -> & Hys & Hy).
  { unfold ids_of in *. rewrite !fmap_cons in Hir. destruct Hir as [_ Hir]. by rewrite <-Heq. }
  cbn [bound_of fst snd] in Hy. change (bf_type (vf_field h.1)) with (member_type h) in Hy.
  destruct (accepts (member_type h) (type_of v)) eqn:Ha.
  - assert (Ht : takes F (member_type h) v = true) by (apply Htk; [left|done..]).
    destruct (so_taken _ _ Hsrc h Hh Ha Ht) as [Ham Hread].
    exists [h], rest, [y], curs, ys. split_and!; try done.
    + constructor; [lia|constructor].
    + rewrite <-app_assoc. cbn [app]. rewrite <-Heq. eapply assign_here; try done. by apply Hread.
  - assert (y = cur) as -> by (destruct (is_required _); by simplify_eq).
    assert (Hq : is_required (bf_metadata (vf_field (fst h))) = false)
      by (destruct (is_required _); [done|done]).
    exists [], (h :: rest), [], (cur :: curs), (cur :: ys). rewrite app_nil_r.
    split_and!; try done.
    + rewrite !fmap_cons. apply read_absent; [|by cbn [bound_of fst]; rewrite Hq|done].
      apply (lookup_above _ (fd_id f)); [done|]. cbn [bound_of fst]. unfold vf_id in Heq. lia.
    + destruct (src_among src (member_type h)) eqn:Ham.
      * rewrite (to_at_optional h rest (old ++ cur :: curs)) at 2 by done.
        rewrite <-Heq. eapply assign_here; try done. by apply (so_left _ _ Hsrc).
      * apply assign_skips; [done|done|]. apply (no_member pre (h :: rest)); [done|by split_and!].
Qed.

Lemma members_all_below rest lo id curs p news :
  increasing lo (ids_of (bound_of <$> rest)) -> read_fields (specs rest) curs p = Some news ->
  (forall i, i < id -> lookup_field i p = None) -> invalid_field_id <= id ->
  curs = news /\ forall vars b, to_at rest vars b = to_at [] vars b.
Proof.
  intros Hi Hr Hp Hid.
  destruct (next_member id p rest curs news lo Hi Hr Hp) as
    (sk & rest' & old & curs' & news' & -> & -> & -> & _ & Hst & Hr' & _ & Hhd).
  destruct rest' as [|h rest'].
  { by destruct (read_fields_nil _ _ _ Hr') as [-> ->]. }
  destruct (members_suffix _ _ _ Hi) as (lo' & _ & Hir). apply increasing_forall in Hir.
  rewrite !fmap_cons in Hir. apply Forall_cons_1 in Hir as [Hh _]. cbn in Hh.
  unfold vf_id in Hhd. lia.
Qed.

Lemma To_drives depth read schema b : rs_schema schema = s -> forall vfs ds dlo,
  fields_match ((fun f => (fst (fst f), snd (fst f), instance_of s (snd f))) <$> vfs) ds ->
  Forall (fun f => typedef_ok (zlen (structs s)) (fd_type f)) ds ->
  increasing dlo (fd_id <$> ds) -> Forall (field_fine F) (present_fields F vfs) ->
  forall pre rest lo old curs news,
  increasing lo (ids_of (bound_of <$> (pre ++ rest))) -> -1 <= lo -> Forall member_ok rest ->
  length old = length pre -> Forall (fun g : member => vf_id (fst g) <= dlo) pre ->
  (forall h v, h ∈ rest -> (vf_id (fst h), v) ∈ present_fields F vfs ->
     accepts (member_type h) (type_of v) = true -> takes F (member_type h) v = true) ->
  read_fields (specs rest) curs (present_fields F vfs) = Some news ->
  drives F (To_transform P depth (member_fields (pre ++ rest)) read) schema ds
    (present_fields F vfs) (to_at rest (old ++ curs) b) (to_at [] (old ++ news) b).
Proof.
  intros Hsch vfs. induction vfs as [|[[id m] v] vfs IH]; intros ds dlo Hm Hds Hdi Hfine pre rest lo
    old curs news Hi Hlo Hok Hold Hpre Htk Hr.
  - destruct (members_suffix _ _ _ Hi) as (lo' & _ & Hir).
    destruct (members_all_below rest lo' invalid_field_id curs [] news Hir Hr) as [<- ->]; [done..|].
    constructor.
  - destruct ds as [|d ds]; [done|]. rewrite fmap_cons in Hm. rewrite fmap_cons in Hdi. cbn [fields_match fst snd] in Hm.
    destruct Hm as (-> & _ & Hin & Hm). destruct Hdi as [Hdlo Hdi].
    apply Forall_cons_1 in Hds as [Hd Hds].
    assert (Hpre' : Forall (fun g : member => vf_id (fst g) <= fd_id d) pre)
      by (eapply Forall_impl; [|exact Hpre]; cbn; lia).
    pose proof (present_increasing F (fd_id d) vfs) as Hpi.
    rewrite (fields_match_ids s vfs ds Hm) in Hpi. specialize (Hpi Hdi).
    unfold present_fields in *. rewrite filter_cons in *.
    destruct (decide (omitted F (fd_id d, m, v) = false)) as [Ho|Ho].
    2:{ apply drives_omitted. fold (present_fields F vfs) in *. by eapply IH. }
    rewrite fmap_cons in *. cbn [fst snd] in *. fold (present_fields F vfs) in *.
    apply Forall_cons_1 in Hfine as [(Hid & Hv & Hor & Hl) Hfine]. cbn [fst snd] in *.
    destruct (members_suffix _ _ _ Hi) as (lo' & _ & Hir).
    destruct (next_member (fd_id d) _ rest curs news lo' Hir Hr) as
      (sk & rest1 & oo & curs1 & news1 & -> & -> & -> & Hoo & Hst & Hr1 & Hsk & Hhd).
    { intros i Hlt. apply (lookup_above _ (fd_id d - 1)); [|lia]. rewrite fmap_cons.
      split; [cbn; lia|done]. }
    rewrite Hst. rewrite !app_assoc in *. apply Forall_app in Hok as [_ Hok].
    destruct (To_field_reads depth read schema d v (present_fields F vfs) (pre ++ sk) rest1 lo (old ++ oo) curs1 news1 b)
      as (mid & rest2 & new & curs2 & news2 & -> & -> & Hnew & Hmid & Hr2 & Hop); try done.
    + rewrite !length_app. lia.
    + apply Forall_app; split; [|done]. eapply Forall_impl; [|exact Hpre]. cbn. lia.
    + intros h Hh Heq. apply (Htk h v); [by apply elem_of_app; right|rewrite Heq; left].
    + eapply drives_field; [by rewrite (instance_type _ _ _ Hin)|exact Hop|].
      rewrite !app_assoc in *. apply Forall_app in Hok as [_ Hok].
      apply (IH ds (fd_id d)) with (lo := lo); try done.
      * rewrite !length_app in *. lia.
      * apply Forall_app; split; [|done]. apply Forall_app; split; [done|].
        eapply Forall_impl; [|exact Hsk]. cbn. lia.
      * intros h x Hh Hx. apply Htk; [|by right]. apply elem_of_app; by right.
Qed.

(** ** Containers *)

(** The elements of a payload container. *)
Definition of_element (e : TypeDef) (t : ftype) (x : value) : Prop :=
  instance_of s x e /\ takes F t x = true.

Lemma void_reader_agrees t type exact : elements_agree t type = true ->
  void_reader P t type type exact = element_reader P t type exact.
Proof.
  destruct t; [done|..]; cbn [elements_agree void_reader element_reader]; intros ->;
    by rewrite Z.eqb_refl.
Qed.

Lemma VoidContainer_reads Q is_set e exact k et pk pt items pitems r :
  exact_on F Q e exact -> (is_set = true -> exists b, e = FBasic b) ->
  fits 5 pt -> zlen pitems < 2 ^ 32 -> all_fine F pt pitems -> (forall x, x ∈ pitems -> Q x) ->
  elements_agree e pt = true ->
  read_as F (FList is_set e) (VList k et items) (VList pk pt pitems) = Some r ->
  exists items', r = VList k et items' /\
    reads (VoidContainer P is_set e pt exact items)
      (wf_list F (zlen pitems) pt ++ concat (encode F false <$> pitems)) items'.
Proof.
  intros Hex Hs Hpt Hn Hall HQ Hag Hr.
  destruct (container_body_reads P F laws _ _ _ _ _ _ _ _ _ _ _ Hex Hs Hn Hall HQ Hr)
    as (items' & -> & Hi).
  exists items'. split; [done|]. unfold VoidContainer.
  apply (list_reads P F laws _ (fun h => _)); [done|lia|done|]. cbn [fst snd].
  by rewrite void_reader_agrees.
Qed.

Lemma VoidMap_reads Q kt vt exact k v items pk pv pitems r :
  exact_on F Q vt exact -> fits 5 pk -> fits 5 pv -> zlen pitems < 2 ^ 32 ->
  pairs_fine F pk pv pitems -> (forall x, x ∈ pitems -> Q (snd x)) ->
  elements_agree vt pv = true ->
  read_as F (FMap kt vt) (VMap k v items) (VMap pk pv pitems) = Some r ->
  exists items', r = VMap k v items' /\
    reads (VoidMap P kt vt (pk, pv) exact items)
      (wf_map F (zlen pitems) (pk, pv) ++ concat (pair_bytes F <$> pitems)) items'.
Proof.
  intros Hex Hpk Hpv Hn Hall HQ Hag Hr.
  destruct (map_body_reads P F laws _ _ _ _ _ _ _ _ _ _ _ Hex Hn Hall HQ Hr) as (items' & -> & Hi).
  exists items'. split; [done|]. unfold VoidMap.
  apply (map_reads P F laws _ (fun h => _)); [done|lia|done..|]. cbn [fst snd].
  by rewrite void_reader_agrees.
Qed.

(** ** Objects *)

Definition parses_with (t : ftype) : Prop := forall base sch var v r,
  rs_schema sch = s -> typedef_ok (zlen (structs s)) (rs_type sch) -> type_ok t ->
  is_container_or_struct (field_type_id t) = true ->
  instance_of s v (rs_type sch) -> type_of v = field_type_id t -> takes F t v = true ->
  (base = true -> (value_levels v <= type_levels t)%nat) -> read_as F t var v = Some r ->
  value_ok v -> ordered v -> zlen (encode F base v) < 2 ^ 32 ->
  reads (ParseWith P base t sch var) (encode F base v) (r, false).

Lemma void_exact_reads t sch var v r : parses_with t -> type_ok t ->
  rs_schema sch = s -> typedef_ok (zlen (structs s)) (rs_type sch) ->
  is_container_or_struct (field_type_id t) = true -> type_of v = field_type_id t ->
  of_element (rs_type sch) t v -> fine F v -> read_as F t var v = Some r ->
  reads (void_exact P t sch var) (encode F false v) r.
Proof.
  intros Hp Ht Hs Htd Hc Hty (Hi & Htk) (Hv & Ho & Hl) Hr.
  unfold void_exact, VoidDeserialize. rewrite Hc. unfold GetTypeId.
  rewrite <-(instance_type _ _ _ Hi), Hty, Z.eqb_refl. cbn [andb].
  apply (reads_map _ fst _ (r, false)). by apply Hp.
Qed.

Lemma void_exact_skips t sch var v : instance_of s v (rs_type sch) -> fine F v ->
  type_of v <> field_type_id t -> reads (void_exact P t sch var) (encode F false v) var.
Proof.
  intros Hi (Hv & _ & Hl) Hne. unfold void_exact, VoidDeserialize, GetTypeId.
  rewrite <-(instance_type _ _ _ Hi). replace (type_of v =? field_type_id t) with false by by zbool.
  rewrite andb_false_r. by apply (reads_map _ (fun _ => var) _ tt), (rl_skip _ _ laws).
Qed.

(** The elements of a container are read by [void_exact], or as basic values. *)
Lemma element_exact e sch : parses_with e -> type_ok e -> rs_schema sch = s ->
  typedef_ok (zlen (structs s)) (rs_type sch) ->
  exists exact, exact_on F (of_element (rs_type sch) e) e exact /\
    (exact = void_exact P e sch \/ exists b, e = FBasic b).
Proof.
  intros Hp Ht Hs Htd. destruct (is_container_or_struct (field_type_id e)) eqn:Hc.
  - exists (void_exact P e sch). split; [|by left]. intros c x y Hr Hty Hf HQ.
    by apply void_exact_reads.
  - destruct e as [b| |[]|]; try done. eexists. split; [|right; by exists b].
    intros c x y Hr Hty Hf _.
    by apply (parses_exact P F (FBasic b) (Parse_reads P F laws _)).
Qed.

Lemma list_parses_with is_set e : parses_with e -> parses_with (FList is_set e).
Proof.
  intros IH base sch var v r Hs Htd [Hset Hte] _ Hi Hty Htk _ Hr Hv Ho Hl.
  destruct var as [| |k et items|]; try done. destruct v as [| |pk pt pitems|]; try done.
  destruct Hi as (Hid & es & Hes & -> & Hall). apply all_Forall in Hall.
  destruct (container_element _ _ pk Htd Hid) as (_ & es' & Hes' & Htes & _).
  assert (es' = es) as -> by congruence.
  cbn [takes] in Htk. apply andb_true_iff in Htk as [Hag Htk].
  destruct Hv as (Hpt & Hn & Hvs). apply all_Forall in Hvs. apply all_Forall in Ho.
  cbn [encode] in *. rewrite length_app in Hl.
  assert (E : element_schema sch = mkRuntimeSchema s es)
    by (unfold element_schema; by rewrite Hes, <-Hs).
  destruct (element_exact e (mkRuntimeSchema s es) IH Hte eq_refl Htes) as (exact & Hex & Hwhich).
  destruct (VoidContainer_reads _ is_set e exact k et pk (td_id es) items pitems r Hex Hset Hpt Hn)
    as (items' & -> & Hi).
  { by apply (elements_fine F _ (2 ^ 32)); [lia|..]. }
  { intros x Hx. split.
    - rewrite Forall_forall in Hall. by apply Hall, list_elem_of_In.
    - rewrite forallb_forall in Htk. by apply Htk, list_elem_of_In. }
  { done. } { exact Hr. }
  cbn [ParseWith]. apply (reads_map _ (fun x => (VList k et x, false))). rewrite E.
  destruct Hwhich as [->|[b ->]]; exact Hi.
Qed.

Lemma map_parses_with kt vt : parses_with vt -> parses_with (FMap kt vt).
Proof.
  intros IH base sch var v r Hs Htd Hte _ Hi Hty Htk _ Hr Hv Ho Hl.
  destruct var as [| | |k' v' items]; try done. destruct v as [| | |pk pv pitems]; try done.
  destruct Hi as (Hid & ks & es & Hks & Hes & -> & -> & Hall).
  apply (all_Forall (fun kv => instance_of s (fst kv) ks /\ instance_of s (snd kv) es)) in Hall.
  destruct (map_parts _ _ Htd Hid) as (ks' & es' & b & Hks' & Hes' & _ & Htes & _).
  assert (ks' = ks) as -> by congruence. assert (es' = es) as -> by congruence.
  cbn [takes] in Htk. apply andb_true_iff in Htk as [Hag Htk].
  destruct Hv as (Hpk & Hpv & Hn & Hvs). apply all_Forall in Hvs. apply all_Forall in Ho.
  cbn [encode] in *. rewrite length_app in Hl.
  assert (E : element_schema sch = mkRuntimeSchema s es)
    by (unfold element_schema; by rewrite Hes, <-Hs).
  assert (Ek : key_schema sch = mkRuntimeSchema s ks)
    by (unfold key_schema; by rewrite Hks, <-Hs).
  destruct (element_exact vt (mkRuntimeSchema s es) IH Hte eq_refl Htes) as (exact & Hex & Hwhich).
  destruct (VoidMap_reads _ kt vt exact k' v' items (td_id ks) (td_id es) pitems r Hex Hpk Hpv Hn)
    as (items' & -> & Hi).
  { by apply (pairs_are_fine F _ (2 ^ 32)); [unfold pair_bytes; lia|..]. }
  { intros x Hx. apply list_elem_of_In in Hx. split.
    - rewrite Forall_forall in Hall. by apply Hall.
    - rewrite forallb_forall in Htk. by apply (Htk x). }
  { done. } { exact Hr. }
  cbn [ParseWith]. apply (reads_map _ (fun x => (VMap k' v' x, false))). rewrite E, Ek.
  destruct Hwhich as [->|[b' ->]]; exact Hi.
Qed.

(** ** Structs *)

Definition class_members (fs : list (Z * Metadata * ftype)) : list member :=
  (fun f => (mkVF (mkBF (fst (fst f)) (snd (fst f)) (snd f) ret) (void_exact P (snd f)),
             read_as F (snd f))) <$> fs.

Lemma members_fields fs : member_fields (class_members fs) =
  (fun f => mkVF (mkBF (fst (fst f)) (snd (fst f)) (snd f) ret) (void_exact P (snd f))) <$> fs.
Proof. unfold member_fields, class_members. by rewrite <-list_fmap_compose. Qed.

Lemma members_specs fs : specs (class_members fs) = (fun f => (f, read_as F (snd f))) <$> fs.
Proof.
  unfold class_members. rewrite <-!list_fmap_compose. by apply list_fmap_ext; intros _ [[id m] t] _.
Qed.

Lemma members_ids fs : ids_of (bound_of <$> class_members fs) = (fun f => fst (fst f)) <$> fs.
Proof. unfold ids_of, class_members. by rewrite <-!list_fmap_compose. Qed.

Lemma members_are_ok fs : Forall (fun f => parses_with (snd f)) fs ->
  Forall (fun f => type_ok (snd f)) fs -> Forall member_ok (class_members fs).
Proof.
  intros Hp Ht. unfold class_members. rewrite Forall_fmap. rewrite Forall_forall in *. intros f Hf.
  split; unfold member_type, vf_type; cbn [fst snd vf_field bf_type vf_read].
  - intros sch d var v r Hs (Hi & Htd & Hfn) Hc Hty Htk Hr.
    apply void_exact_reads; try done; [by apply Hp|by apply Ht|congruence].
  - intros sch d var v Hs (Hi & Htd & Hfn) Hne. by apply void_exact_skips.
  - intros x var v r -> Hr. destruct v as [sc| | |]; try discriminate Hr. cbn [read_as] in Hr.
    destruct (is_matching_basic _ x) eqn:E; [|done]. injection Hr as <-. by exists sc.
Qed.

Lemma lookup_in id v p : increasing (-1) (fst <$> p) -> (id, v) ∈ p -> lookup_field id p = Some v.
Proof.
  generalize (-1). induction p as [|[i w] p IH]; intros lo Hi Hin; [by apply not_elem_of_nil in Hin|].
  rewrite fmap_cons in Hi. destruct Hi as [Hlo Hi]. cbn [fst] in *.
  apply elem_of_cons in Hin as [[= -> ->]|Hin]; [apply lookup_here|].
  unfold lookup_field. cbn [find fst]. destruct (i =? id) eqn:E; [|by apply (IH i)].
  apply Z.eqb_eq in E. subst i. apply increasing_forall in Hi. rewrite Forall_forall in Hi.
  assert (Hid : In id (fst <$> p)) by (apply list_elem_of_In, list_elem_of_fmap; by exists (id, v)).
  specialize (Hi id Hid). lia.
Qed.

Context (ok : schema_ok s).

(** The base of the level. *)
Lemma To_Base_reads bt fs bvar bv vfs b x tb : (forall b, bt = Some b -> parses_with b) ->
  (forall t, bt = Some t -> field_type_id t = BT_STRUCT /\ type_ok t) -> level_fine F bv vfs ->
  (value_levels (VStruct bv vfs) <= type_levels (FStruct bt fs))%nat ->
  match bv, tb with
  | None, None => True
  | Some v, Some t => instance_of s v t /\ typedef_ok (zlen (structs s)) t
  | _, _ => False
  end ->
  match bt, bv with Some bt', Some bv' => takes F bt' bv' | _, _ => true end = true ->
  (match bt, bvar, bv with
   | None, None, None => Some None
   | Some bt', Some bvar', Some bv' => Some <$> read_as F bt' bvar' bv'
   | _, _, _ => None
   end) = Some b ->
  match bv, tb with
  | None, None => (x, b) = (x, bvar)
  | Some v, Some t =>
      reads (To_Base P (match bt with Some bt' => Some (fun schema x => ParseWith P true bt' schema x)
                        | None => None end) (mkRuntimeSchema s t) (x, bvar))
        (encode F true v) ((x, b), false)
  | _, _ => False
  end.
Proof.
  intros Hbt Hok Hf Hlv Htb Htk Hb.
  destruct bt as [bt|], bvar as [bvar|], bv as [bv|], tb as [t|]; try done.
  2:{ by injection Hb as <-. }
  destruct (read_as F bt bvar bv) as [b'|] eqn:Hb'; [|done]. injection Hb as <-.
  destruct (Hok bt eq_refl) as [Ht1 Ht2]. destruct Htb as [Hi Htd].
  destruct (level_fine_parts _ _ _ Hf) as [Hfb _]. destruct (Hfb bv eq_refl) as (Hv & Ho & Hl).
  unfold To_Base. cbn [snd fst]. rewrite <-(app_nil_r (encode F true bv)).
  eapply (reads_bind _ _ _ _ (b', false)); [|apply reads_ret].
  apply (Hbt bt eq_refl true _ bvar bv b'); try done.
  - by rewrite Ht1.
  - rewrite Ht1. destruct Hf as ((Hty & _) & _). apply Hty.
  - intros _. cbn [value_levels type_levels] in Hlv. lia.
Qed.

Lemma struct_parses_with bt fs : (forall b, bt = Some b -> parses_with b) ->
  Forall (fun f => parses_with (snd f)) fs -> parses_with (FStruct bt fs).
Proof.
  intros Hbt Hfs base sch var v r Hs Htd (Hbok & Hinc & Htok) _ Hi Hty Htk Hlv Hr Hv Ho Hl.
  apply all_Forall in Htok. cbn [read_as takes] in Hr, Htk.
  destruct var as [|bvar vars| |]; try done. destruct v as [|b0 fs0| |]; try done.
  destruct (at_levels (type_levels (FStruct bt fs)) (VStruct b0 fs0)) as [|bv vfs| |] eqn:Ecore;
    try done.
  destruct (match bt, bvar, bv with
            | None, None, None => Some None
            | Some bt', Some bvar', Some bv' => Some <$> read_as F bt' bvar' bv'
            | _, _, _ => None end) as [b|] eqn:Hb; [|done].
  destruct (read_fields _ _ _) as [news|] eqn:Hn; [|done]. injection Hr as <-.
  apply andb_true_iff in Htk as [Htkb Htkf]. rewrite forallb_forall in Htkf.
  destruct sch as [s' t]. cbn [rs_schema rs_type] in *. subst s'.
  cbn [ParseWith]. apply (reads_map _ (fun r => (VStruct (snd (fst r)) (zip (fst <$> fs)
    (to_vars (fst (fst r)))), snd r)) _ (to_at [] news b, false)).
  change (fun f => mkVF (mkBF f.1.1 f.1.2 f.2 ret) _) with
    (fun f : Z * Metadata * ftype => mkVF (mkBF (fst (fst f)) (snd (fst f)) (snd f) ret)
      (void_exact P (snd f))).
  rewrite <-members_fields, member_fields_bounds.
  change (mkTo _ (snd <$> vars), bvar) with (to_at (class_members fs) (snd <$> vars) bvar).
  apply (DriveApply_reads P F laws); [exact (rl_skip _ _ laws)|exact ok|..]; try done;
    cbn [expected_depth To_transform]; rewrite ?Nat2Z.id; try done.
  { pose proof (type_levels_pos bt fs). lia. }
  intros bv' vfs' td d E Htdi Hd Hf Hle. rewrite Ecore in E. injection E as <- <-.
  exists (to_at (class_members fs) (snd <$> vars) b).
  pose proof Htdi as (_ & _ & d' & Hd' & Hbase & Hm). assert (d' = d) as -> by congruence.
  pose proof (struct_ok_at s ok _ _ Hd) as Hdok. pose proof Hdok as (_ & Hdinc & Hdf).
  destruct (level_fine_parts _ _ _ Hf) as [_ Hfine]. split_and!.
  - assert (Htb : match bv, base_def d with
      | None, None => True
      | Some v, Some t => instance_of s v t /\ typedef_ok (zlen (structs s)) t
      | _, _ => False end).
    { destruct bv as [bvv|], (base_def d) as [tb|] eqn:Etb; try done. split; [done|].
      by destruct (struct_ok_base _ _ _ Hdok Etb). }
    pose proof (To_Base_reads bt fs bvar bv vfs b (level_of (bound_of <$> class_members fs) (snd <$> vars))
      (base_def d) Hbt) as Hx.
    cbn [tr_Base To_transform]. unfold to_at. apply Hx; try done. by intros t' ->.
  - apply (To_drives _ _ (mkRuntimeSchema s td) _ eq_refl vfs (fields d) (-1) Hm Hdf Hdinc Hfine [] (class_members fs) (-1) []);
      try done.
    + by rewrite app_nil_l, members_ids.
    + by apply members_are_ok.
    + intros h v Hh Hin Ha. apply list_elem_of_fmap in Hh as (f & -> & Hfin).
      cbn [fst vf_id vf_field bf_id] in Hin. unfold vf_id in Hin. cbn in Hin.
      apply list_elem_of_In in Hfin. specialize (Htkf f Hfin).
      destruct Hf as (_ & (_ & Hvinc & _) & _).
      rewrite (lookup_in _ _ _ (present_increasing F _ _ Hvinc) Hin) in Htkf.
      unfold member_type, vf_type in *. cbn in *. by rewrite Ha in Htkf.
    + by rewrite members_specs.
  - unfold to_at, level_of. cbn [tr_End To_transform fst]. unfold To_End.
    cbn [to_required fmap list_fmap next_required_field].
    rewrite Z.eqb_refl. cbn [negb]. rewrite andb_false_r. apply reads_ret.
Qed.

Lemma ParseWith_reads t : parses_with t.
Proof.
  induction t as [b|bt fs Hb Hf|k e IH|kt vt IH] using ftype_ind_nested.
  - intros base sch var v r _ _ _ Hc. by destruct b as [|[]|[]| | | |].
  - by apply struct_parses_with.
  - by apply list_parses_with.
  - by apply map_parses_with.
Qed.
End To.

(** ** Elements of another kind *)

Section Elements.
Context {R : Type} `{Readable R} (P : ProtocolReader R) (F : wire_format).
Context (laws : reader_laws P F).

(** Elements that are each read over a variable and leave it. *)
Lemma deserialize_each_same (read : value -> M R value) (g : value -> list byte) cs xs :
  length cs = length xs -> (forall c x, x ∈ xs -> reads (read c) (g x) c) ->
  reads (deserialize_each read cs) (concat (g <$> xs)) cs.
Proof.
  revert cs. induction xs as [|x xs IH]; intros [|c cs] Hl Hx; try done; [apply reads_ret|].
  rewrite fmap_cons. cbn [concat deserialize_each].
  eapply reads_bind; [apply Hx; left|]. apply (reads_map _ (cons c)), IH.
  - simpl in Hl. lia.
  - intros c' x' Hin. apply Hx. by right.
Qed.

Lemma VoidContainer_other_reads (s : SchemaDef) e es items pitems :
  (forall b, e <> FBasic b) -> td_id es <> field_type_id e -> fits 5 (td_id es) ->
  zlen pitems < 2 ^ 32 -> all_fine F (td_id es) pitems ->
  reads (VoidContainer P false e (td_id es) (void_exact P e (mkRuntimeSchema s es)) items)
    (wf_list F (zlen pitems) (td_id es) ++ concat (encode F false <$> pitems))
    (resize_list items (length pitems) (default_object e)).
Proof.
  intros Hb Hne Hpt Hn Hall. unfold VoidContainer.
  apply (list_reads P F laws _ (fun h => _)); [done|lia|done|]. cbn [fst snd].
  assert (E : void_reader P e (td_id es) (td_id es) (void_exact P e (mkRuntimeSchema s es)) =
    Some (void_exact P e (mkRuntimeSchema s es))).
  { unfold void_reader. rewrite Z.eqb_refl. destruct e; [by destruct (Hb t)|done..]. }
  rewrite E. unfold DeserializeList. rewrite Nat2Z.id.
  apply deserialize_each_same; [apply length_resize|]. intros c x Hx.
  destruct (Hall x Hx) as [Ht (Hv & _ & Hl)]. unfold void_exact, VoidDeserialize, GetTypeId.
  cbn [rs_type]. replace (td_id es =? field_type_id e) with false by (symmetry; by apply Z.eqb_neq).
  rewrite andb_false_r, <-Ht. by apply (reads_map _ (fun _ => c) _ tt), (rl_skip _ _ laws).
Qed.
End Elements.

Lemma tagged_reader_laws {R} `{InputStreamLaws R} version (P : ProtocolReader R) F :
  (P = FastBinaryReader /\ F = fb_format) \/
  (P = CompactBinaryReader version /\ F = cb_format version) -> reader_laws P F.
Proof. intros [[-> ->]|[-> ->]]; [apply fb_reader_laws|apply cb_reader_laws]. Qed.

(** C37: with a runtime schema, a list whose elements are of another kind than the class's
    becomes a list of as many default elements: each element is skipped, the list having
    been resized.  With the compile-time schema the list is skipped and left as it is. *)
Theorem runtime_elements_defaulted {R} `{InputStreamLaws R} version (P : ProtocolReader R) F
    (sch : SchemaDef) e es exact items pitems :
  (P = FastBinaryReader /\ F = fb_format) \/
  (P = CompactBinaryReader version /\ F = cb_format version) ->
  (forall b, e <> FBasic b) -> td_id es <> field_type_id e ->
  fits 5 (td_id es) -> zlen pitems < 2 ^ 32 ->
  all_fine F (td_id es) pitems ->
  let payload := wf_list F (zlen pitems) (td_id es) ++ concat (encode F false <$> pitems) in
  reads (VoidContainer P false e (td_id es) (void_exact P e (mkRuntimeSchema sch es)) items)
    payload (resize_list items (length pitems) (default_object e)) /\
  reads (DeserializeContainer P false e exact items) payload items.
Proof.
  intros HP Hb Hne Hpt Hn Hall payload. pose proof (tagged_reader_laws version P F HP) as Hlaws.
  split; [by apply VoidContainer_other_reads|]. unfold DeserializeContainer.
  apply (list_reads P F Hlaws _ (fun h => _)); [done|lia|done|]. cbn [fst snd].
  rewrite element_reader_none.
  - apply (reads_map _ (fun _ : unit => items) _ tt), (SkipElements_reads P F Hlaws); [done|].
    intros x Hx. by destruct (Hall x Hx) as [Ht (Hv & _ & Hl)].
  - unfold accepts. replace (field_type_id e =? td_id es) with false by (symmetry; by apply Z.eqb_neq).
    by destruct e as [b| | |]; [destruct (Hb b)|..].
Qed.

Lemma runtime_elements_defaulted_witness :
  exists s', VoidContainer (CompactBinaryReader v2) false (FStruct None [])
      BT_INT32 (void_exact (CompactBinaryReader v2) (FStruct None [])
        (mkRuntimeSchema tree_schema (mkTypeDef BT_INT32 0 None None false))) []
      (buffer_of (encode (cb_format v2) false
        (VList false BT_INT32 [VBasic (SInt W32 5); VBasic (SInt W32 6)])))
    = (Ok [VStruct None []; VStruct None []], s') /\ view s' = [].
Proof.
  set (items := [VBasic (SInt W32 5); VBasic (SInt W32 6)]).
  assert (Hall : all_fine (cb_format v2) BT_INT32 items).
  { apply (elements_fine (cb_format v2) items 10 BT_INT32); [by vm_compute|done|..];
      repeat constructor; done. }
  destruct (buffer_reads (encode (cb_format v2) false (VList false BT_INT32 items))) as [H1 H2];
    [by vm_compute|].
  destruct (runtime_elements_defaulted v2 (CompactBinaryReader v2) (cb_format v2) tree_schema
    (FStruct None []) (mkTypeDef BT_INT32 0 None None false) (fun x => ret x) [] items
    (or_intror (conj eq_refl eq_refl)) ltac:(done) ltac:(done) ltac:(by vm_compute) eq_refl Hall)
    as [Hx _].
  destruct (Hx _ [] H1 (eq_trans H2 (eq_sym (app_nil_r _)))) as (s' & E & V & _).
  exists s'. split; [exact E|exact V].
Defined.
