(* ===== verification/RuntimeParseErrors.v ===== *)
(** Deserialization with the schema of the payload against the compile-time one, errors
    included.

    The reading of an object whose payload has what the class requires is in
    RuntimeParseCorrect; this file follows the number of the next required field through
    the parser when the payload lacks one, by a simulation of the class with its own fields
    made optional, and compares the two ways of reading. *)

From stdpp Require Import strings.
From S2P Require Import Prelude Streams Encoding InputBuffer DataType Metadata Protocol.
From S2P Require Import Serializer FastBinary CompactBinary.
From S2P Require Import Schema Parser ParserCorrect Deserialization RuntimeSchema Validate.
From S2P Require Import ValidateSound RuntimeParse RuntimeParseCorrect ParserErrors.

(** * The parser with a transform that may throw *)

Section Driven.
Context {R X : Type} `{Readable R} (P : ProtocolReader R) (F : wire_format).
Context (laws : reader_laws P F) (T Tr : Transform R X).
Context (unknown_reads : forall v, value_ok v -> zlen (encode F false v) < 2 ^ 32 ->
  reads (tr_Unknown T (type_of v)) (encode F false v) tt).

(** [T] follows [Tr], which reads the payload, on the fields that satisfy [Q]. *)
Context (Rel : X -> X -> Prop) (Q : Z -> value -> Prop) (schema : RuntimeSchema).
Context (step : forall f v x y y1, td_id (fd_type f) = type_of v -> Q (fd_id f) v -> Rel x y ->
  reads (drive_op Tr schema f y) (encode F false v) y1 ->
  ends (fun x1 => Rel x1 y1) (drive_op T schema f x) (encode F false v)).

Lemma DriveFields_ends base sid :
  reads (ReadFieldBegin P) (wf_stop F base) (stop_type base, sid) ->
  forall fuel rest p lo x y y', increasing lo (fd_id <$> rest) ->
    Forall (field_fine F) p -> Forall (fun f => Q (fst f) (snd f)) p ->
    drives F Tr schema rest p y y' -> Rel x y -> (length p < fuel)%nat ->
    ends (fun r => fst r = stop_type base /\ Rel (snd r) y')
      (DriveFields P T schema fuel rest (tag_of base sid p) x) (tail_bytes F base p).
Proof.
  intros Hs fuel. induction fuel as [|fuel IH]; intros rest p lo x y y' Hi Hf HQ Hd Hxy Hl; [lia|].
  cbn [DriveFields]. destruct p as [|[id v] p]; cbn [tag_of tail_bytes].
  - rewrite is_stop_type. rewrite (drives_end F Tr _ _ _ _ Hd).
    eapply reads_ends; [apply reads_ret|done].
  - destruct (drives_next F Tr _ _ _ _ _ _ _ _ Hi Hd) as
      (f & rest' & y1 & -> & <- & Hi' & _ & Ht & Hr & Hd').
    apply Forall_cons_1 in Hf as [(Hid & Hv & Ho & Hz) Hf], HQ as [HQ1 HQ]. cbn [fst snd] in *.
    rewrite not_stop by apply type_of_range. rewrite Z.eqb_refl.
    rewrite (drive_field T schema f v x (fun x' => let! tag' := ReadSubsequentField P in
      DriveFields P T schema fuel rest' tag' x')) by done.
    eapply ends_bind; [by apply (step f v x y y1)|]. intros x1 Hx1. cbv beta. rewrite all_bytes_split.
    eapply (ends_bind (eq (tag_of base sid p)));
      [eapply reads_ends; [by apply (next_tag P F laws); [|apply (fine_ids F)]|done]|].
    intros ? <-. eapply IH; try done. simpl in Hl. lia.
Qed.

Lemma DriveLevel_ends outer ds p x y y' :
  increasing (-1) (fd_id <$> ds) -> Forall (field_fine F) p ->
  Forall (fun f => Q (fst f) (snd f)) p -> drives F Tr schema ds p y y' -> Rel x y ->
  Forall (Forall (field_fine F)) outer ->
  ends (fun r => Rel (fst r) y') (DriveLevel P T false schema ds x)
    (all_bytes F (stops_base false outer) p ++ levels_bytes F false outer).
Proof.
  intros Hi Hf HQ Hd Hxy Ho. set (pbase := stops_base false outer).
  destruct (rl_stop _ _ laws pbase) as [sid Hs].
  unfold DriveLevel. rewrite all_bytes_split, <-app_assoc.
  eapply (ends_bind (eq (tag_of pbase sid p)));
    [eapply reads_ends; [by apply (first_tag P F laws); [|apply (fine_ids F)]|done]|]. intros ? <-.
  eapply ends_bind.
  { apply with_fuel_ends. intros fuel Hfuel. eapply (DriveFields_ends pbase sid Hs); try done.
    pose proof (tail_bytes_length P F laws pbase p). lia. }
  intros [ty x'] [-> Hx']. cbn [fst snd negb]. rewrite <-(app_nil_r (levels_bytes F false outer)).
  eapply (reads_ends _ _ _ (x', false)); [|done]. eapply (reads_bind _ _ _ _ false).
  - apply (reads_map _ (fun _ => false) _ tt), with_fuel_reads. intros fuel Hfuel.
    apply (drive_unknown_levels P F laws T unknown_reads); [done|lia].
  - eapply reads_bind_nil; [apply (rl_field_end _ _ laws)|apply reads_ret].
Qed.
End Driven.

Section Deep.
Context {R X : Type} `{Readable R} (P : ProtocolReader R) (F : wire_format).
Context (laws : reader_laws P F) (T : Transform R X) (s : SchemaDef) (ok : schema_ok s).

(** The level the transform expects: [End] throws. *)
Lemma DriveStruct_expected_throws fuel outer t d bv vfs (x x1 : X) n :
  levels s (Z.to_nat (struct_def t)) n -> Z.of_nat n <= expected_depth T ->
  structs s !! Z.to_nat (struct_def t) = Some d ->
  match bv, base_def d with
  | None, None => x1 = x
  | Some v, Some tb => reads (tr_Base T (mkRuntimeSchema s tb) x) (encode F true v) (x1, false)
  | _, _ => False
  end ->
  ends (fun r => throws (tr_End T (fst r)) [])
    (DriveLevel P T false (mkRuntimeSchema s t) (fields d) x1)
    (all_bytes F (stops_base false outer) (present_fields F vfs) ++ levels_bytes F false outer) ->
  throws (DriveStruct P T (S fuel) false (mkRuntimeSchema s t) x)
    (body_of F (stops_base false outer) bv vfs ++ levels_bytes F false outer).
Proof.
  intros Hl Hn Hd Hbase Hlevel. destruct ok as (Hs & _).
  cbn [DriveStruct]. unfold depth_of. cbn [rs_schema].
  rewrite (schema_depth_levels s _ t n Hs Hl) by (apply levels_bound in Hl; lia).
  eapply throws_nil; [apply reads_ret|].
  replace (expected_depth T <? Z.of_nat n) with false by (symmetry; apply Z.ltb_ge; lia).
  unfold HasBase, GetBaseSchema, GetStruct, vector_at. cbn [rs_schema rs_type]. rewrite Hd.
  cbn [obind]. do 2 (eapply throws_nil; [apply reads_ret|]).
  unfold body_of. rewrite <-!app_assoc. eapply (throws_bind _ _ _ _ (x1, false)).
  - destruct bv as [v|], (base_def d) as [tb|] eqn:Eb; try done. subst x1. apply reads_ret.
  - cbn [fst snd]. rewrite app_assoc, present_bytes, <-(app_nil_r (_ ++ levels_bytes F false outer)).
    eapply ends_throws; [exact Hlevel|]. intros r Hr. by apply throws_left.
Qed.

(** The levels above it. *)
Lemma DriveStruct_deeper_throws x bs v : forall fuel t,
  instance_of s v t -> td_id t = BT_STRUCT -> 1 <= expected_depth T ->
  (value_levels v <= fuel)%nat ->
  (forall fuel' t', instance_of s (at_levels (Z.to_nat (expected_depth T)) v) t' ->
    td_id t' = BT_STRUCT ->
    throws (DriveStruct P T (S fuel') false (mkRuntimeSchema s t') x) bs) ->
  throws (DriveStruct P T fuel false (mkRuntimeSchema s t) x) bs.
Proof.
  destruct ok as (Hs & Hok & _).
  induction v as [y|b fs Hb _|kt et items _|kt vt items _] using value_ind_nested;
    intros fuel t Hi Ht He Hfuel Hcore; pose proof (instance_levels _ _ _ Hok Hi Ht) as Hl;
    pose proof (levels_bound _ _ _ Hl) as Hlb; try (cbn [value_levels] in Hlb; lia).
  destruct fuel as [|fuel]; [lia|].
  destruct (le_lt_dec (value_levels (VStruct b fs)) (Z.to_nat (expected_depth T))) as [Hle|Hlt].
  { apply Hcore; [by rewrite at_levels_id|done]. }
  destruct b as [bv|]; [|cbn in Hlt; lia].
  pose proof Hi as (_ & _ & d & Hd & Hbase & _). destruct (base_def d) as [tb|] eqn:Eb; [|done].
  cbn [DriveStruct]. unfold depth_of. cbn [rs_schema].
  rewrite (schema_depth_levels s _ t _ Hs Hl) by lia.
  eapply throws_nil; [apply reads_ret|]. zbool.
  eapply throws_nil; [apply (rl_begin _ _ laws true 0); unfold fits; lia|].
  unfold GetBaseSchema, GetStruct, vector_at. cbn [rs_schema rs_type]. rewrite Hd. cbn [obind]. rewrite Eb.
  eapply throws_nil; [apply reads_ret|]. apply throws_left.
  apply (Hb bv eq_refl); [done| |done|cbn [value_levels] in Hfuel; lia|].
  - by destruct (struct_ok_base _ _ _ (struct_ok_at s ok _ _ Hd) Eb).
  - intros fuel' t' Hi' Ht'. apply Hcore; [|done].
    unfold at_levels in *. cbn [value_levels] in *.
    replace (S (value_levels bv) - Z.to_nat (expected_depth T))%nat
      with (S (value_levels bv - Z.to_nat (expected_depth T))) by lia. exact Hi'.
Qed.

Lemma DriveApply_throws b0 fs0 t x : instance_of s (VStruct b0 fs0) t ->
  1 <= expected_depth T -> value_ok (VStruct b0 fs0) -> ordered (VStruct b0 fs0) ->
  zlen (encode F false (VStruct b0 fs0)) < 2 ^ 32 ->
  (forall bv vfs td d outer,
     at_levels (Z.to_nat (expected_depth T)) (VStruct b0 fs0) = VStruct bv vfs ->
     instance_of s (VStruct bv vfs) td -> structs s !! Z.to_nat (struct_def td) = Some d ->
     level_fine F bv vfs -> Forall (Forall (field_fine F)) outer ->
     (value_levels (VStruct bv vfs) <= Z.to_nat (expected_depth T))%nat ->
     exists x1,
       match bv, base_def d with
       | None, None => x1 = x
       | Some v, Some tb => reads (tr_Base T (mkRuntimeSchema s tb) x) (encode F true v) (x1, false)
       | _, _ => False
       end /\
       ends (fun r => throws (tr_End T (fst r)) [])
         (DriveLevel P T false (mkRuntimeSchema s td) (fields d) x1)
         (all_bytes F (stops_base false outer) (present_fields F vfs) ++ levels_bytes F false outer)) ->
  throws (DriveApply P T false (mkRuntimeSchema s t) x) (encode F false (VStruct b0 fs0)).
Proof.
  intros Hi He Hv Ho Hl Hlevel. pose proof (sub_fits F false b0 fs0 Hl) as Hbody.
  assert (Hpos : (0 < Z.to_nat (expected_depth T))%nat) by lia.
  destruct (body_at_levels F false _ b0 fs0 Hpos Hv Ho Hbody ltac:(done)) as
    (bv & vfs & outer & Ecore & Ebody & Hf & Hout & _).
  pose proof (at_levels_bound _ (VStruct b0 fs0) Hpos) as Hcore. rewrite Ecore in Hcore.
  rewrite encode_struct. unfold DriveApply.
  pose proof (rl_begin _ _ laws false (zlen (body_of F false b0 fs0))) as Hbegin.
  cbv iota in Hbegin. eapply throws_bind; [by apply Hbegin, zlen_fits|].
  rewrite Ebody. apply throws_left.
  pose proof Hi as (Hid & _). destruct ok as (_ & Hok & _).
  pose proof (levels_bound _ _ _ (instance_levels _ _ _ Hok Hi Hid)) as Hlb.
  apply (DriveStruct_deeper_throws x _ (VStruct b0 fs0)); try done.
  { unfold hierarchy_of. cbn [rs_schema]. lia. }
  intros fuel td Htd Hstruct. rewrite Ecore in Htd. pose proof Htd as (_ & _ & d & Hd & _).
  destruct (Hlevel bv vfs td d outer Ecore Htd Hd Hf Hout Hcore) as (x1 & Hb & Hend).
  eapply DriveStruct_expected_throws; try done; [by eapply instance_levels|lia].
Qed.
End Deep.

(** * [To<T>] *)

(** The payload has no value for the field that would count as one: none of a type the
    field accepts, and, if the field is a container, no container.  (A container of
    another kind is skipped, but only after the field has been counted.) *)
Definition counts (t : ftype) (type : BondDataType) : bool :=
  accepts t type || (is_container t && is_container_or_struct type && negb (type =? BT_STRUCT)).
Definition uncounted (id : Z) (t : ftype) (p : list (Z * value)) : Prop :=
  forall v, lookup_field id p = Some v -> counts t (type_of v) = false.

Lemma uncounted_lacks id t p : uncounted id t p -> lacks id t p.
Proof. intros H v Hv. specialize (H v Hv). unfold counts in H. by apply orb_false_iff in H as [H _]. Qed.

Section To.
Context {R : Type} `{Readable R} (P : ProtocolReader R) (F : wire_format).
Context (laws : reader_laws P F) (s : SchemaDef).

Lemma counts_among schema f v : td_id (fd_type f) = type_of v -> forall t,
  counts t (type_of v) = false -> src_among (source_of P schema f) t = false.
Proof.
  intros Ht t Hc. unfold counts in Hc. apply orb_false_iff in Hc as [Ha Hc]. unfold source_of. rewrite Ht.
  destruct (basic_type_of_id (type_of v)) as [u|] eqn:Hu.
  { destruct (basic_of_type _ _ Hu) as (sc & -> & <-). cbn [src_among basic_source].
    destruct t as [x| | |]; try done. cbn [type_of] in Ha.
    by rewrite accepts_basic_iff, type_id_roundtrip in Ha. }
  pose proof (basic_or_container v Hu) as Hcs. rewrite Hcs, andb_true_r in Hc.
  destruct (type_of v =? BT_STRUCT) eqn:E; cbn [src_among bonded_source void_source].
  - apply Z.eqb_eq in E. unfold is_struct. rewrite <- E.
    unfold accepts in Ha. by apply orb_false_iff in Ha as [Ha _].
  - by rewrite andb_true_r in Hc.
Qed.

(** A member of the class, and its optional version. *)
Definition member_of (f : Z * Metadata * ftype) : void_field (R := R) :=
  mkVF (mkBF (fst (fst f)) (snd (fst f)) (snd f) ret) (void_exact P (snd f)).
Definition relax_one (f : Z * Metadata * ftype) : Z * Metadata * ftype :=
  (fst (fst f), relax (snd (fst f)), snd f).

(** The state of the class and of its relaxed version: the number is that of a required
    field no later than the one with the id [i]. *)
Definition due (i : Z) (x y : to_state) : Prop :=
  to_vars (fst x) = to_vars (fst y) /\ snd x = snd y /\
  to_required (fst x) <> invalid_field_id /\ to_required (fst x) <= i.

Lemma id_above (fs : list (Z * Metadata * ftype)) lo f :
  increasing lo ((fun f => fst (fst f)) <$> fs) -> f ∈ fs -> lo < fst (fst f).
Proof.
  intros Hi Hf. apply increasing_forall in Hi. rewrite list.Forall_forall in Hi.
  apply Hi, list_elem_of_fmap. by exists f.
Qed.

Lemma next_required_due (fs : list (Z * Metadata * ftype)) lo minId i m t :
  increasing lo ((fun f => fst (fst f)) <$> fs) -> (i, m, t) ∈ fs -> is_required m = true ->
  minId <= i ->
  next_required_field (vf_field <$> (member_of <$> fs)) minId <> invalid_field_id /\
  next_required_field (vf_field <$> (member_of <$> fs)) minId <= i.
Proof.
  revert lo. induction fs as [|f fs IH]; intros lo Hi Hin Hm Hle; [by apply elem_of_nil in Hin|].
  rewrite !fmap_cons. rewrite fmap_cons in Hi. destruct Hi as [Hf Hi].
  cbn [next_required_field member_of vf_field bf_id bf_metadata].
  apply elem_of_cons in Hin as [<-|Hin].
  - cbn [fst snd] in *. rewrite Hm, (proj2 (Z.leb_le _ _) Hle). cbn [andb]. lia.
  - destruct ((minId <=? fst (fst f)) && is_required (snd (fst f))); [|by eapply IH].
    pose proof (id_above fs _ (i, m, t) Hi Hin) as Hlt. cbn in Hlt. lia.
Qed.

Lemma find_member fs id among :
  member_with (member_of <$> fs) id among =
    (fun r => (fst r, member_of (snd r))) <$>
      list_find (fun f => (fst (fst f) =? id) && among (snd f) = true) fs.
Proof. unfold member_with. rewrite list_find_fmap. by destruct (list_find _ _) as [[]|]. Qed.

Lemma find_relaxed fs id among :
  list_find (fun f : Z * Metadata * ftype => (fst (fst f) =? id) && among (snd f) = true) (relax_one <$> fs) =
    (fun r => (fst r, relax_one (snd r))) <$>
      list_find (fun f => (fst (fst f) =? id) && among (snd f) = true) fs.
Proof. rewrite list_find_fmap. by destruct (list_find _ _) as [[]|]. Qed.

Lemma one_field (fs : list (Z * Metadata * ftype)) lo f g :
  increasing lo ((fun f => fst (fst f)) <$> fs) -> f ∈ fs -> g ∈ fs ->
  fst (fst f) = fst (fst g) -> f = g.
Proof.
  revert lo. induction fs as [|h fs IH]; intros lo Hi Hf Hg E; [by apply elem_of_nil in Hf|].
  rewrite fmap_cons in Hi. destruct Hi as [_ Hi].
  pose proof (fun x => id_above fs _ x Hi) as Hab.
  apply elem_of_cons in Hf as [->|Hf], Hg as [->|Hg]; [done| | |by eapply IH].
  - specialize (Hab _ Hg). lia.
  - specialize (Hab _ Hf). lia.
Qed.

(** A member that is found is assigned, once the number is right. *)
Lemma assign_follows i q k f fields src (x y y' : to_state) st st' :
  to_vars (fst x) = to_vars (fst y) -> snd x = snd y -> q <> invalid_field_id -> q <= i ->
  on_level (To_Field fields k (vf_field (member_of (relax_one f)))
    (src_read src (snd f) (void_exact P (snd f)))) y st = (Ok y', st') ->
  exists x', (let! l := (let! var := of_option (to_vars (fst x) !! k) in
      let! var' := src_read src (snd f) (void_exact P (snd f)) var in
      ret (mkTo q (<[k:=var']> (to_vars (fst x))))) in ret (l, snd x)) st = (Ok x', st') /\ due i x' y'.
Proof.
  intros Hv Hb Hq Hle Hy. unfold on_level in Hy.
  apply bind_inv_ok in Hy as (l & st1 & Hy & [= <- <-]). unfold To_Field in Hy.
  apply bind_inv_ok in Hy as (l0 & st2 & Hval & Hy). injection Hval as <- <-.
  apply bind_inv_ok in Hy as (var & st3 & Hvar & Hy). rewrite <-Hv in *.
  apply bind_inv_ok in Hy as (var' & st4 & Hread & [= <- <-]).
  exists (mkTo q (<[k:=var']> (to_vars (fst x))), snd x). split; [|by unfold due].
  erewrite bind_ok; [reflexivity|]. rewrite (bind_ok _ _ _ _ _ Hvar). by rewrite (bind_ok _ _ _ _ _ Hread).
Qed.

(** One value: the class does what the relaxed one does, or throws at a field that comes
    before the one that is due. *)
Lemma To_value_follows fs lo i m t id src x y y' st st' :
  increasing lo ((fun f => fst (fst f)) <$> fs) -> (i, m, t) ∈ fs -> is_required m = true ->
  (id = i -> src_among src t = false) -> due i x y ->
  To_value P (member_of <$> (relax_one <$> fs)) id src y st = (Ok y', st') ->
  (exists st2, To_value P (member_of <$> fs) id src x st = (Err (Thrown CoreException), st2)) \/
  exists x', To_value P (member_of <$> fs) id src x st = (Ok x', st') /\ due i x' y'.
Proof.
  intros Hi Hin Hm Hno (Hv & Hb & Hq & Hle). unfold To_value. rewrite !find_member, find_relaxed.
  destruct (list_find _ fs) as [[k f]|] eqn:E; cbn [fmap option_fmap option_map fst snd].
  2:{ unfold bind. destruct (Skip_nothrow P (src_type src) st) as [[[]|e] st1]; [|done].
      intros [= <- <-]. right. by exists x. }
  apply list_find_Some in E as (Hk & Hf & _). apply andb_true_iff in Hf as [Hf Ha].
  apply Z.eqb_eq in Hf. intros Hy.
  pose proof (fun q Hq Hle => assign_follows i q k f _ src x y y' st st' Hv Hb Hq Hle Hy) as Hrun.
  unfold on_level, To_Field, Parser.Validate. cbn [member_of vf_field bf_metadata bf_id vf_type bf_type vf_read].
  destruct (is_required (snd (fst f))) eqn:Er; [destruct (to_required (fst x) =? fst (fst f)) eqn:Eq|].
  - right. apply Z.eqb_eq in Eq. assert (Hne : fst (fst f) <> i).
    { intros Hfi. assert (f = (i, m, t)) as ->; [|cbn in *; by rewrite Hno in Ha].
      apply (one_field fs lo); [done| |done|done]. by eapply list_elem_of_lookup_2. }
    destruct (next_required_due fs lo (fst (fst f) + 1) i m t Hi Hin Hm ltac:(lia)) as [H1 H2].
    exact (Hrun _ H1 H2).
  - left. by eexists.
  - right. exact (Hrun _ Hq Hle).
Qed.

(** ** Objects *)

Lemma takes_relaxed bt fs v : takes F (FStruct bt (relax_fields fs)) v = takes F (FStruct bt fs) v.
Proof.
  destruct v as [|b vs| |]; try done. cbn [takes]. rewrite relax_levels.
  destruct (at_levels _ _) as [|bv vfs| |]; try done. f_equal. unfold relax_fields.
  induction fs as [|f fs IH]; [done|]. rewrite fmap_cons. cbn [forallb fst snd]. by rewrite IH.
Qed.

Lemma relax_ids fs : (fun f => fst (fst f)) <$> relax_fields fs = (fun f => fst (fst f)) <$> fs.
Proof. unfold relax_fields. by rewrite <-list_fmap_compose. Qed.

Lemma relax_types (Q : ftype -> Prop) fs :
  Forall (fun f => Q (snd f)) fs -> Forall (fun f => Q (snd f)) (relax_fields fs).
Proof. intros H0. unfold relax_fields. rewrite Forall_fmap. by eapply Forall_impl. Qed.

Lemma relax_type_ok bt fs : type_ok (FStruct bt fs) -> type_ok (FStruct bt (relax_fields fs)).
Proof.
  intros (Hb & Hi & Ht). split; [done|]. split.
  - change (increasing (-1) ((fun f => fst (fst f)) <$> relax_fields fs)). by rewrite relax_ids.
  - apply all_Forall. apply all_Forall in Ht. by apply relax_types.
Qed.

(** One field: the class follows its relaxed version. *)
Lemma drive_op_follows depth read depth' read' fs lo i m t schema f v x y y1 :
  increasing lo ((fun f => fst (fst f)) <$> fs) -> (i, m, t) ∈ fs -> is_required m = true ->
  td_id (fd_type f) = type_of v -> (fd_id f = i -> counts t (type_of v) = false) -> due i x y ->
  reads (drive_op (To_transform P depth' (member_fields (class_members P F (relax_fields fs))) read')
    schema f y) (encode F false v) y1 ->
  ends (fun x1 => due i x1 y1) (drive_op (To_transform P depth (member_of <$> fs) read) schema f x)
    (encode F false v).
Proof.
  intros Hi Hin Hm Ht Hno Hd Hr st rest Hs Hv. destruct (Hr st rest Hs Hv) as (st' & E & V & O).
  rewrite drive_op_To in E |- *. rewrite members_fields in E.
  destruct (To_value_follows fs lo i m t (fd_id f) (source_of P schema f) x y y1 st st') as
    [Hthrow|(x' & Hx & Hd')]; try done; [|by left|].
  - intros Hf. apply (counts_among schema f v Ht), Hno, Hf.
  - right. by exists x', st'.
Qed.

Lemma ends_weaken {A} (Q Q' : A -> Prop) (m : M R A) bs :
  ends Q m bs -> (forall a, Q a -> Q' a) -> ends Q' m bs.
Proof.
  intros Hm HQ st rest Hs Hv. destruct (Hm st rest Hs Hv) as [?|(a & st' & E & V & O & Ha)];
    [by left|right; exists a, st'; auto].
Qed.

Lemma first_required_due fs i m t :
  increasing (-1) ((fun f => fst (fst f)) <$> fs) -> (i, m, t) ∈ fs -> is_required m = true ->
  next_required_field (vf_field <$> (member_of <$> fs)) 0 <> invalid_field_id /\
  next_required_field (vf_field <$> (member_of <$> fs)) 0 <= i.
Proof.
  intros Hi Hin Hm. apply (next_required_due fs (-1) 0 i m t); try done.
  pose proof (id_above fs _ _ Hi Hin) as Hlt. cbn in Hlt. lia.
Qed.

(** At the end a field is due, which the class requires. *)
Lemma due_end fs i m t x y : increasing (-1) ((fun f => fst (fst f)) <$> fs) -> (i, m, t) ∈ fs ->
  is_required m = true -> due i x y ->
  throws (To_End (vf_field <$> (member_of <$> fs)) (fst x)) [].
Proof.
  intros Hi Hin Hm (_ & _ & Hq & _). destruct (first_required_due fs i m t Hi Hin Hm) as [H1 _].
  unfold To_End. rewrite !(proj2 (Z.eqb_neq _ _)) by done. cbn [negb andb]. apply throw_throws.
Qed.

(** A level: the class follows to the end, or throws. *)
Lemma level_follows depth read depth' read' fs i m t schema outer ds p x y y' :
  increasing (-1) ((fun f => fst (fst f)) <$> fs) -> (i, m, t) ∈ fs -> is_required m = true ->
  uncounted i t p -> increasing (-1) (fst <$> p) -> increasing (-1) (fd_id <$> ds) ->
  Forall (field_fine F) p ->
  drives F (To_transform P depth' (member_fields (class_members P F (relax_fields fs))) read')
    schema ds p y y' -> due i x y -> Forall (Forall (field_fine F)) outer ->
  ends (fun r => due i (fst r) y')
    (DriveLevel P (To_transform P depth (member_of <$> fs) read) false schema ds x)
    (all_bytes F (stops_base false outer) p ++ levels_bytes F false outer).
Proof.
  intros Hinc Hin Hm Hun Hpi Hdi Hf Hd Hxy Ho.
  apply (DriveLevel_ends P F laws (To_transform P depth (member_of <$> fs) read)
    (To_transform P depth' (member_fields (class_members P F (relax_fields fs))) read')
    (rl_skip _ _ laws) (due i) (fun id v => id = i -> counts t (type_of v) = false) schema) with (y := y);
    try done.
  - intros f v x0 y0 y1 H1 H2 H3 H4. by eapply (drive_op_follows _ _ _ _ fs (-1)).
  - rewrite list.Forall_forall. intros [id v] Hx Hid. cbn [fst snd] in *. subst id. by apply Hun, lookup_in.
Qed.

Context (ok : schema_ok s).

Lemma struct_throws_with bt fs b0 fs0 t0 : type_ok (FStruct bt fs) ->
  instance_of s (VStruct b0 fs0) t0 -> typedef_ok (zlen (structs s)) t0 ->
  value_ok (VStruct b0 fs0) -> ordered (VStruct b0 fs0) ->
  zlen (encode F false (VStruct b0 fs0)) < 2 ^ 32 -> takes F (FStruct bt fs) (VStruct b0 fs0) = true ->
  reads_relaxed F bt fs (VStruct b0 fs0) ->
  Exists (fun f => is_required (snd (fst f)) = true /\
    uncounted (fst (fst f)) (snd f)
      (present_fields F (own_fields (FStruct bt fs) (VStruct b0 fs0)))) fs ->
  throws (ParseWith P false (FStruct bt fs) (mkRuntimeSchema s t0) (default_object (FStruct bt fs)))
    (encode F false (VStruct b0 fs0)).
Proof.
  intros Hok Hi Htd Hv Ho Hl Htk [r Hr] He. pose proof Hok as (Hbok & Hinc & Htok).
  apply all_Forall in Htok. rewrite Exists_exists in He. destruct He as ([[i m] t] & Hin & Hm & Hun).
  apply list_elem_of_In in Hin. cbn [fst snd] in *.
  cbn [default_object read_as] in Hr. cbn [takes] in Htk. rewrite relax_levels in Hr. unfold own_fields in Hun.
  destruct (at_levels (type_levels (FStruct bt fs)) (VStruct b0 fs0)) as [|bv vfs| |] eqn:Ecore;
    try done.
  rewrite relaxed_members in Hr. apply andb_true_iff in Htk as [Htkb Htkf].
  rewrite forallb_forall in Htkf. cbn [default_object ParseWith].
  set (dbase := match bt with None => None | Some b => Some (default_object b) end) in *.
  destruct (match bt, dbase, bv with
            | None, None, None => Some None
            | Some bt', Some bvar', Some bv' => Some <$> read_as F bt' bvar' bv'
            | _, _, _ => None end) as [b|] eqn:Hb; [|done].
  destruct (read_fields _ _ _) as [news|] eqn:Hn; [|done].
  apply throws_left. rewrite own_members. cbv zeta.
  change (_ <$> fs) with (member_of <$> fs) at 1 2.
  set (vars := (fun f => _) <$> fs) in *.
  apply (DriveApply_throws P F laws _ s ok); try done;
    cbn [expected_depth To_transform]; rewrite ?Nat2Z.id; try done.
  { pose proof (type_levels_pos bt fs). lia. }
  intros bv' vfs' td d outer E Htdi Hd Hf Hout Hle. rewrite Ecore in E. injection E as <- <-.
  pose proof Htdi as (_ & _ & d' & Hd' & Hbase & Hmt). assert (d' = d) as -> by congruence.
  pose proof (struct_ok_at s ok _ _ Hd) as Hdok. pose proof Hdok as (_ & Hdinc & Hdf).
  destruct (level_fine_parts _ _ _ Hf) as [_ Hfine]. pose proof Hf as (_ & (_ & Hvinc & _) & _).
  eexists (mkTo (next_required_field (vf_field <$> (member_of <$> fs)) 0) vars, b). split.
  { assert (Htb : match bv, base_def d with
      | None, None => True
      | Some v, Some t => instance_of s v t /\ typedef_ok (zlen (structs s)) t
      | _, _ => False end).
    { destruct bv as [bvv|], (base_def d) as [tb|] eqn:Etb; try done. split; [done|].
      by destruct (struct_ok_base _ _ _ Hdok Etb). }
    pose proof (To_Base_reads P F s bt fs dbase bv vfs b
      (mkTo (next_required_field (vf_field <$> (member_of <$> fs)) 0) vars) (base_def d)
      (fun b _ => ParseWith_reads P F laws s ok b)) as Hx.
    cbn [tr_Base To_transform]. apply Hx; try done. by intros t' ->. }
  eapply ends_weaken.
  { apply (level_follows (Z.of_nat (type_levels (FStruct bt fs))) _ 0 None fs i m t (mkRuntimeSchema s td)
      outer (fields d) (present_fields F vfs) _ (to_at (class_members P F (relax_fields fs)) vars b)
      (to_at (R := R) [] news b)); try done.
    - by apply present_increasing.
    - apply (To_drives P F laws s _ _ (mkRuntimeSchema s td) _ eq_refl vfs (fields d) (-1) Hmt Hdf Hdinc
        Hfine [] (class_members P F (relax_fields fs)) (-1) []); try done.
      + by rewrite app_nil_l, members_ids, relax_ids.
      + apply members_are_ok; [..|by apply (relax_types type_ok)]; [exact laws|].
        rewrite list.Forall_forall. intros f _. apply (ParseWith_reads P F laws s ok).
      + intros h v Hh Hx Ha. apply list_elem_of_fmap in Hh as (f & -> & Hfin).
        apply list_elem_of_fmap in Hfin as (g & -> & Hg). unfold vf_id, member_type, vf_type in *.
        cbn in Hx, Ha |- *. apply list_elem_of_In in Hg. specialize (Htkf g Hg).
        rewrite (lookup_in _ _ _ (present_increasing F _ _ Hvinc) Hx) in Htkf.
        by rewrite Ha in Htkf.
      + by rewrite members_specs.
    - destruct (first_required_due fs i m t Hinc Hin Hm) as [H1 H2]. by split_and!. }
  intros [x1 dn] Hx1. cbn [fst] in *. by apply (due_end fs i m t _ _ Hinc Hin Hm Hx1).
Qed.
End To.

(** * Properties *)

(** C6: deserialization with the runtime schema of the payload is deserialization with the
    compile-time schema of the class, missing required fields included.  The payload is that
    of an instance of the schema, whose containers have elements of the kinds of the class's
    wherever the class has a container ([takes]).  When it has as many levels of inheritance
    as the class or more and a value for every required field, at any depth ([read_as] has a
    result), both ways read it to its end and give that result.  When it could be read but
    for the required fields of the class's own level, and some of them are missing (absent,
    or of a type the field does not accept), both throw [CoreException], whichever fields these
    are and whatever precedes and follows them.  Nothing is said where the ways differ: for
    payloads of fewer levels than the class and for required containers that are containers
    of another kind in the payload. *)
Theorem runtime_schema_deserializes {R} `{InputStreamLaws R} version (P : ProtocolReader R) F
    (sch : SchemaDef) bt fs v (s : R) rest : let t := FStruct bt fs in
  (P = FastBinaryReader /\ F = fb_format) \/
  (P = CompactBinaryReader version /\ F = cb_format version) ->
  schema_ok sch -> type_ok t -> instance_of sch v (root sch) -> takes F t v = true ->
  value_ok v -> zlen (encode F false v) < 2 ^ 32 ->
  readable s -> view s = encode F false v ++ rest ->
  (forall r, read_as F t (default_object t) v = Some r ->
     exists s1 s2, DeserializeWith P t (schema_of sch) s = (Ok r, s1) /\ view s1 = rest /\
       Deserialize P t s = (Ok r, s2) /\ view s2 = rest) /\
  (reads_relaxed F bt fs v ->
   Exists (fun f => is_required (snd (fst f)) = true /\
     uncounted (fst (fst f)) (snd f) (present_fields F (own_fields t v))) fs ->
   exists s1 s2, DeserializeWith P t (schema_of sch) s = (Err (Thrown CoreException), s1) /\
     Deserialize P t s = (Err (Thrown CoreException), s2)).
Proof.
  intros t HP Hsch Ht Hi Htk Hv Hl Hs Hw. pose proof (tagged_reader_laws version P F HP) as Hlaws.
  pose proof Hsch as (_ & _ & _ & Hr1 & Hr2).
  assert (Hty : type_of v = field_type_id t) by (by rewrite (instance_type _ _ _ Hi), Hr1).
  pose proof (instance_ordered sch Hsch v _ Hr2 Hi) as Ho. split.
  - intros r Hr. assert (Hread : reads (DeserializeWith P t (schema_of sch)) (encode F false v) r).
    { apply (reads_map _ fst _ (r, false)). by apply (ParseWith_reads P F Hlaws sch Hsch t). }
    destruct (Hread s rest Hs Hw) as (s1 & E1 & V1 & _).
    destruct (Deserialize_reads P F t v r Hlaws Ht Hv Ho Hty Hl Hr s rest Hs Hw) as (s2 & E2 & V2 & _).
    by exists s1, s2.
  - intros Hr He. destruct v as [sc|b0 fs0| |]; [by destruct Hr|..|by destruct Hr|by destruct Hr].
    destruct (throws_left _ (fun r => ret (fst r)) _
      (struct_throws_with P F Hlaws sch Hsch bt fs b0 fs0 (root sch) Ht Hi Hr2 Hv Ho Hl Htk Hr He)
      s rest Hs Hw) as [s1 E1].
    destruct (throws_left _ (fun r => ret (fst r)) _
      (struct_throws P F Hlaws bt fs b0 fs0 Ht Hv Ho Hl Hr
         ltac:(eapply list.Exists_impl; [exact He|intros f [Hf1 Hf2]; by apply uncounted_lacks in Hf2]))
      s rest Hs Hw) as [s2 E2].
    by exists s1, s2.
Qed.

(** The later class, and one that requires a field the payload does not have before one it has. *)
Definition later_base : ftype := FStruct None [(0, Metadata_new, FBasic (TInt W64))].
Definition later_fields : list (Z * Metadata * ftype) :=
  [(0, Metadata_new, FList false (FStruct (Some later_base) []));
   (7, Metadata_new, FBasic TDouble)].
Definition demanding_fields : list (Z * Metadata * ftype) :=
  [(0, Metadata_new, FList false (FStruct (Some later_base) []));
   (3, no_default, FBasic TBool); (5, no_default, FMap TString (FStruct None []))].

Lemma runtime_schema_deserializes_witness :
  let s := buffer_of (encode (cb_format v2) false tree_value) in
  (exists r s1 s2,
    DeserializeWith (CompactBinaryReader v2) (FStruct (Some later_base) later_fields)
      (schema_of tree_schema) s = (Ok r, s1) /\ view s1 = [] /\
    Deserialize (CompactBinaryReader v2) (FStruct (Some later_base) later_fields) s = (Ok r, s2) /\
    view s2 = []) /\
  exists s1 s2,
    DeserializeWith (CompactBinaryReader v2) (FStruct (Some later_base) demanding_fields)
      (schema_of tree_schema) s = (Err (Thrown CoreException), s1) /\
    Deserialize (CompactBinaryReader v2) (FStruct (Some later_base) demanding_fields) s =
      (Err (Thrown CoreException), s2).
Proof.
  destruct (buffer_reads (encode (cb_format v2) false tree_value)) as [H1 H2]; [by vm_compute|].
  assert (Hv : value_ok tree_value) by by_parts.
  pose proof (fun fs Ht Htk => runtime_schema_deserializes v2 (CompactBinaryReader v2) (cb_format v2)
    tree_schema (Some later_base) fs tree_value _ [] (or_intror (conj eq_refl eq_refl))
    tree_schema_ok Ht tree_value_instance Htk Hv eq_refl H1 (eq_trans H2 (eq_sym (app_nil_r _)))) as Hx.
  intros s. split.
  - destruct (Hx later_fields) as [H3 _]; [by_parts|by vm_compute|].
    assert (Hr : exists r, read_as (cb_format v2) (FStruct (Some later_base) later_fields)
      (default_object (FStruct (Some later_base) later_fields)) tree_value = Some r)
      by (eexists; vm_compute; reflexivity).
    destruct Hr as [r Hr]. exists r. exact (H3 r Hr).
  - destruct (Hx demanding_fields) as [_ H3]; [by_parts|by vm_compute|]. apply H3.
    + eexists. vm_compute. reflexivity.
    + right. left. split; [done|]. intros v Hvv. discriminate Hvv.
Defined.

(** Where the two ways differ.  A payload with one level for a class with two: without a
    base in the schema the class's base is left as it is, its required field included. *)
Definition shallow_schema : SchemaDef := mkSchemaDef
  [mkStructDef "Tree" Metadata_new None [mkFieldDef Metadata_new 7 (mkTypeDef BT_DOUBLE 0 None None false)]]
  TypeDef_new.
Definition shallow_value : value := VStruct None [(7, Metadata_new, VBasic (SDouble 1))].
Definition deeper_type : ftype :=
  FStruct (Some (FStruct None [(0, no_default, FBasic (TInt W32))])) [(7, Metadata_new, FBasic TDouble)].

Lemma shallow_payload_differs :
  let s := buffer_of (encode (cb_format v2) false shallow_value) in
  fst (DeserializeWith (CompactBinaryReader v2) deeper_type (schema_of shallow_schema) s) =
    Ok (VStruct (Some (VStruct None [(0, no_default, VBasic (SInt W32 0))]))
          [(7, Metadata_new, VBasic (SDouble 1))]) /\
  fst (Deserialize (CompactBinaryReader v2) deeper_type s) = Err (Thrown CoreException).
Proof. by vm_compute. Qed.

(** A required list for which the payload has a set: with the runtime schema it is counted
    before its value is skipped. *)
Definition set_schema : SchemaDef := mkSchemaDef
  [mkStructDef "Tree" Metadata_new None [mkFieldDef Metadata_new 7
     (mkTypeDef BT_SET 0 (Some (mkTypeDef BT_INT32 0 None None false)) None false)]] TypeDef_new.
Definition set_value : value :=
  VStruct None [(7, Metadata_new, VList true BT_INT32 [VBasic (SInt W32 1)])].
Definition list_type : ftype := FStruct None [(7, no_default, FList false (FBasic (TInt W32)))].

Lemma other_container_counted :
  let s := buffer_of (encode (cb_format v2) false set_value) in
  fst (DeserializeWith (CompactBinaryReader v2) list_type (schema_of set_schema) s) =
    Ok (VStruct None [(7, no_default, VList false BT_INT32 [])]) /\
  fst (Deserialize (CompactBinaryReader v2) list_type s) = Err (Thrown CoreException).
Proof. by vm_compute. Qed.
