(* ===== verification/MapTo.v ===== *)
(** Mapping a payload onto an object (cpp/inc/bond/core/transforms.h [MapTo]).

    A payload with a runtime schema is read into the members of an object of type [T]
    that a mapping names: from paths of field ids in the payload to paths of field ids in
    the object.  Fields without a mapping are skipped. *)

From S2P Require Import Prelude Streams DataType Metadata Protocol Schema Parser.
From S2P Require Import RuntimeSchema RuntimeParse.

(** * Mappings *)

(** [Mapping], with [Mappings], a map from ids, as a list. *)
#[local] Unset Elimination Schemes.
Inductive Mapping : Type := mkMapping {
  path : list Z;
  mfields : list (Z * Mapping)
}.
#[local] Set Elimination Schemes.

Section MappingInd.
Context (Q : Mapping -> Prop).
Context (Hnode : forall p ms, Forall (fun km => Q (snd km)) ms -> Q (mkMapping p ms)).

Fixpoint Mapping_ind_nested (m : Mapping) : Q m.
Proof.
  destruct m as [p ms]. apply Hnode.
  induction ms as [|[k m] ms IH]; constructor; [apply Mapping_ind_nested|exact IH].
Qed.
End MappingInd.

Definition mapping_base : Z := invalid_field_id.

(** [mappings.find(id)]. *)
Definition find_mapping {A} (ms : list (Z * A)) (id : Z) : option A :=
  snd <$> find (fun km => fst km =? id) ms.

Section MapTo.
Context {R : Type} `{Readable R} (P : ProtocolReader R).

(** * Assignment to a path *)

(** The field of the object with the id among those of a kind. *)
Definition field_with (fs : list (Z * Metadata * ftype)) (id : Z) (among : ftype -> bool) :
    option (nat * (Z * Metadata * ftype)) :=
  list_find (fun f => (fst (fst f) =? id) && among (snd f) = true) fs.

(** The member of the object at an index, read by [m]. *)
Definition set_member (vars : list (Z * Metadata * value)) (i : nat) (m : value -> M R value) :
    M R (list (Z * Metadata * value)) :=
  let! f := of_option (vars !! i) in
  let! x := m (snd f) in
  ret (<[i := (fst f, x)]> vars).

(** A value that is not assigned is skipped by its destructor. *)
Definition unassigned (src : source (R := R)) (var : value) : M R value :=
  Skip_nothrow P (src_type src) ;;; ret var.

(** [AssignToField(var, id, value)]. *)
Definition AssignToField (fs : list (Z * Metadata * ftype)) (bvar : option value)
    (vars : list (Z * Metadata * value)) (id : Z) (src : source (R := R)) : M R value :=
  match field_with fs id (src_among src) with
  | Some (i, f) =>
      let! vars' := set_member vars i (src_read src (snd f) (void_exact P (snd f))) in ret (VStruct bvar vars')
  | None => unassigned src (VStruct bvar vars)
  end.

(** [Assign(var, ids, value)]: with [AssignToBase] and [AssignToNested].  After a
    [mapping_base] the path must not be at its end: the iterator is dereferenced. *)
Fixpoint Assign (ids : list Z) (t : ftype) (var : value) (src : source (R := R)) : M R value :=
  match ids, t, var with
  | id :: ids', FStruct bt fs, VStruct bvar vars =>
      if id =? mapping_base then
        match bt, bvar with
        | Some bt', Some bvar' =>
            let! b := Assign ids' bt' bvar' src in ret (VStruct (Some b) vars)
        | _, _ => unassigned src var
        end
      else
        match ids' with
        | [] => AssignToField fs bvar vars id src
        | _ :: _ =>
            match field_with fs id is_struct with
            | Some (i, f) =>
                let! vars' := set_member vars i (fun x => Assign ids' (snd f) x src) in
                ret (VStruct bvar vars')
            | None => unassigned src var
            end
        end
  | _, _, _ => fail Undefined
  end.

(** * The transform *)

(** A mapping with the transform [MapTo(var, mapping.fields)]. *)
Definition submapping : Type := Mapping * Transform R value.

(** [MapTo::Base]. *)
Definition MapTo_Base (ms : list (Z * submapping)) (schema : RuntimeSchema) (var : value) :
    M R (value * bool) :=
  match find_mapping ms mapping_base with
  | Some (_, transform) => DriveApply P transform true schema var
  | None => Skip_nothrow P BT_STRUCT ;;; ret (var, false)
  end.

(** [MapTo::Field] for values. *)
Definition MapTo_Field (t : ftype) (ms : list (Z * submapping)) (id : Z) (src : source (R := R))
    (var : value) : M R value :=
  match find_mapping ms id with
  | Some (m, _) => match path m with
                   | [] => unassigned src var
                   | ids => Assign ids t var src
                   end
  | None => unassigned src var
  end.

(** [MapTo::Field] for structs. *)
Definition MapTo_Bonded (t : ftype) (ms : list (Z * submapping)) (id : Z)
    (schema : RuntimeSchema) (var : value) : M R value :=
  match find_mapping ms id with
  | Some (m, transform) =>
      match mfields m with
      | _ :: _ => let! r := DriveApply P transform false schema var in ret (fst r)
      | [] => MapTo_Field t ms id (bonded_source schema) var
      end
  | None => unassigned (bonded_source schema) var
  end.

(** [UnknownField]: the value is not read.  Other types are not read either. *)
Definition MapTo_Unknown (type : BondDataType) : M R unit :=
  if is_container_or_struct type || bool_decide (is_Some (basic_type_of_id type))
  then Skip_nothrow P type else ret tt.

(** [MapTo<T>(var, mapping.fields)]; [expected_depth] has its default, 0xffff. *)
Fixpoint MapTo (t : ftype) (m : Mapping) : Transform R value :=
  let ms := (fun km => (fst km, (snd km, MapTo t (snd km)))) <$> mfields m in
  mkTransform 0xffff (MapTo_Base ms) (MapTo_Bonded t ms)
    (fun id schema => MapTo_Field t ms id (void_source schema))
    (fun id u => MapTo_Field t ms id (basic_source P u)) MapTo_Unknown (fun _ => ret tt).

(** [Apply(MapTo<T>(var, mappings), bonded<void>(reader, schema))]. *)
Definition ApplyMapTo (t : ftype) (mappings : list (Z * Mapping)) (schema : RuntimeSchema)
    (var : value) : M R value :=
  let! r := DriveApply P (MapTo t (mkMapping [] mappings)) false schema var in ret (fst r).
End MapTo.
