(* ===== verification/MapToCorrect.v ===== *)
(** [MapTo] implements the mapping of values.

    The specification follows the mapping through the value the payload encodes; the
    theorem says that the transform, driven by the payload, does the same.  The mapping
    of a base is needed: the last part says what happens without one. *)

From stdpp Require Import strings.
From S2P Require Import Prelude Streams Encoding InputBuffer DataType Metadata Protocol.
From S2P Require Import Serializer FastBinary CompactBinary.
From S2P Require Import Schema Parser ParserCorrect Deserialization RuntimeSchema Validate.
From S2P Require Import ValidateSound RuntimeParse RuntimeParseCorrect MapTo.

(** * Specification *)

Section Spec.
Context (F : wire_format).

(** A value read into the member at the end of a path. *)
Definition read_member (t : ftype) (c x : value) : option value :=
  if accepts t (type_of x) then if takes F t x then read_as F t c x else None else Some c.

(** The member with an id, replaced by [f] of its type and value; objects without such a
    member stay as they are. *)
Definition alter_member (fs : list (Z * Metadata * ftype)) (vars : list (Z * Metadata * value))
    (id : Z) (f : ftype -> value -> option value) : option (list (Z * Metadata * value)) :=
  match list_find (fun f => fst (fst f) = id) fs with
  | Some (i, (_, t)) =>
      match vars !! i with
      | Some (k, c) => (fun y => <[i := (k, y)]> vars) <$> f t c
      | None => None
      end
  | None => Some vars
  end.

(** [x] assigned to the member that a path leads to, in the base for [mapping_base]. *)
Fixpoint assign_as (ids : list Z) (t : ftype) (var x : value) : option value :=
  match ids, t, var with
  | id :: ids', FStruct bt fs, VStruct bvar vars =>
      if id =? mapping_base then
        match bt, bvar with
        | Some bt', Some bvar' => (fun b => VStruct (Some b) vars) <$> assign_as ids' bt' bvar' x
        | _, _ => Some var
        end
      else
        VStruct bvar <$>
          match ids' with
          | [] => alter_member fs vars id (fun t c => read_member t c x)
          | _ :: _ => alter_member fs vars id (fun t c =>
              if is_struct t then assign_as ids' t c x else Some c)
          end
  | _, _, _ => None
  end.

(** A field of the payload: followed into a struct whose mapping has fields, assigned to
    the path of the mapping, or ignored. *)
Definition map_field (t : ftype) (ms : list (Z * (Mapping * (value -> value -> option value))))
    (id : Z) (x var : value) : option value :=
  match find_mapping ms id with
  | None => Some var
  | Some (m, f) =>
      match x, mfields m, path m with
      | VStruct _ _, _ :: _, _ => f var x
      | _, _, [] => Some var
      | _, _, ids => assign_as ids t var x
      end
  end.

Fixpoint map_fields (step : Z -> value -> value -> option value) (p : list (Z * value))
    (var : value) : option value :=
  match p with
  | [] => Some var
  | (id, x) :: p' =>
      match step id x var with Some var' => map_fields step p' var' | None => None end
  end.

(** The base, with its mapping, then the fields that are present. *)
Fixpoint map_as (t : ftype) (m : Mapping) (var v : value) : option value :=
  let ms := (fun km => (fst km, (snd km, map_as t (snd km)))) <$> mfields m in
  match v with
  | VStruct b fs =>
      match
        match b with
        | None => Some var
        | Some bv => match find_mapping ms mapping_base with
                     | Some (_, f) => f var bv
                     | None => None
                     end
        end
      with
      | Some var' => map_fields (map_field t ms) (present_fields F fs) var'
      | None => None
      end
  | _ => None
  end.
End Spec.

(** * The payload's fields in a transform *)

Section Fold.
Context {R : Type} `{Readable R} (P : ProtocolReader R) (F : wire_format) (s : SchemaDef).
Context (T : Transform R value) (schema : RuntimeSchema).

Lemma drives_fields (step : Z -> value -> value -> option value) :
  (forall d v x y, field_of_payload F s d v -> step (fd_id d) v x = Some y ->
     reads (drive_op T schema d x) (encode F false v) y) ->
  forall vfs ds x y,
  fields_match ((fun f => (fst (fst f), snd (fst f), instance_of s (snd f))) <$> vfs) ds ->
  Forall (fun f => typedef_ok (zlen (structs s)) (fd_type f)) ds ->
  Forall (field_fine F) (present_fields F vfs) ->
  map_fields step (present_fields F vfs) x = Some y ->
  drives F T schema ds (present_fields F vfs) x y.
Proof.
  intros Hstep vfs. induction vfs as [|[[id m] v] vfs IH]; intros ds x y Hm Hds Hf Hy.
  - injection Hy as <-. constructor.
  - destruct ds as [|d ds]; [done|]. rewrite fmap_cons in Hm. cbn [fields_match fst snd] in Hm.
    destruct Hm as (-> & _ & Hin & Hm). apply Forall_cons_1 in Hds as [Hd Hds].
    unfold present_fields in *. rewrite filter_cons in *.
    destruct (decide (omitted F (fd_id d, m, v) = false)) as [Ho|Ho];
      fold (present_fields F vfs) in *; [|by apply drives_omitted, IH].
    rewrite fmap_cons in *. cbn [fst snd map_fields] in *. fold (present_fields F vfs) in *.
    apply Forall_cons_1 in Hf as [(Hid & Hv & Hor & Hl) Hf]. cbn [fst snd] in *.
    destruct (step (fd_id d) v x) as [x1|] eqn:E; [|done].
    eapply drives_field; [by rewrite (instance_type _ _ _ Hin)|by apply Hstep|by apply IH].
Qed.
End Fold.

Section MapToCorrect.
Context {R : Type} `{Readable R} (P : ProtocolReader R) (F : wire_format).
Context (laws : reader_laws P F) (s : SchemaDef) (ok : schema_ok s).

(** * Assignment *)

Lemma field_with_id fs id among lo : increasing lo ((fun f => fst (fst f)) <$> fs) ->
  field_with fs id among =
    match list_find (fun f => fst (fst f) = id) fs with
    | Some (i, f) => if among (snd f) then Some (i, f) else None
    | None => None
    end.
Proof.
  unfold field_with. revert lo. induction fs as [|[[i m] t] fs IH]; intros lo Hi; [done|].
  rewrite fmap_cons in Hi. destruct Hi as [Hlo Hi]. cbn [list_find fst snd] in *.
  destruct (decide (i = id)) as [->|Hne].
  - rewrite Z.eqb_refl. cbn [andb snd].
    destruct (among t); [by rewrite decide_True|]. rewrite decide_False by done.
    replace (list_find _ fs) with (@None (nat * (Z * Metadata * ftype))); [done|].
    symmetry. apply list_find_None. apply increasing_forall in Hi. rewrite Forall_fmap in Hi.
    eapply Forall_impl; [|exact Hi]. cbn. intros f Hf. by zbool.
  - rewrite decide_False by by zbool.
    rewrite (IH _ Hi). destruct (list_find (fun f => fst (fst f) = id) fs) as [[j f]|]; [|done].
    cbn. by destruct (among (snd f)).
Qed.

Lemma alter_member_reads fs bvar vars vars' id (src : source (R := R)) among
    (m : ftype -> value -> M R value) (f : ftype -> value -> option value) bs lo :
  increasing lo ((fun f => fst (fst f)) <$> fs) -> Forall (fun f => type_ok (snd f)) fs ->
  (forall t c y, type_ok t -> f t c = Some y ->
     if among t : bool then reads (m t c) bs y else y = c) ->
  (forall var, reads (unassigned P src var) bs var) ->
  alter_member fs vars id f = Some vars' ->
  reads (match field_with fs id among with
         | Some (i, g) => let! vars' := set_member vars i (m (snd g)) in ret (VStruct bvar vars')
         | None => unassigned P src (VStruct bvar vars)
         end) bs (VStruct bvar vars').
Proof.
  intros Hi Ht Hm Hskip Ha. rewrite (field_with_id _ _ _ _ Hi). unfold alter_member in Ha.
  destruct (list_find _ fs) as [[i [[k0 m0] t]]|] eqn:Hfind; [|injection Ha as <-; apply Hskip].
  assert (Htt : type_ok t).
  { apply list_find_Some in Hfind as (Hl & _ & _). rewrite Forall_forall in Ht.
    apply (Ht (k0, m0, t)), list_elem_of_In. by eapply list_elem_of_lookup_2. }
  destruct (vars !! i) as [[k c]|] eqn:Hv; [|done].
  destruct (f t c) as [y|] eqn:Hy; [|done]. injection Ha as <-. cbn [snd].
  specialize (Hm t c y Htt Hy). destruct (among t).
  - apply (reads_map _ (fun vars' => VStruct bvar vars')). unfold set_member. rewrite Hv.
    eapply reads_bind_nil; [apply reads_ret|]. cbn [fst snd].
    by apply (reads_map _ (fun x => <[i:=(k, x)]> vars)).
  - subst y. rewrite list_insert_id by done. apply Hskip.
Qed.

Definition lone_member (t : ftype) : void_field (R := R) * (value -> value -> option value) :=
  (mkVF (mkBF 0 Metadata_new t ret) (void_exact P t), read_as F t).

Lemma lone_member_ok t : type_ok t -> member_ok F s (lone_member t).
Proof.
  intros Ht. pose proof (members_are_ok P F laws s [(0, Metadata_new, t)]) as Hm.
  apply Forall_cons_1 in Hm as [Hm _]; [exact Hm|..]; repeat constructor; [|done].
  by apply ParseWith_reads.
Qed.

Lemma unassigned_reads src x var : source_ok F s src x -> fine F x ->
  reads (unassigned P src var) (encode F false x) var.
Proof.
  intros Hsrc (Hv & _ & Hl). unfold unassigned. rewrite (so_type _ _ _ _ Hsrc).
  by apply (reads_map _ (fun _ => var) _ tt), (Skip_nothrow_reads P F laws).
Qed.

Lemma Assign_reads src x : source_ok F s src x -> fine F x -> forall ids t var r,
  type_ok t -> assign_as F ids t var x = Some r ->
  reads (Assign P ids t var src) (encode F false x) r.
Proof.
  intros Hsrc Hx. pose proof (fun var => unassigned_reads src x var Hsrc Hx) as Hskip.
  induction ids as [|id ids IH]; intros t var r Ht Hr; [done|].
  destruct t as [|bt fs| |]; try done. destruct var as [|bvar vars| |]; try done.
  destruct Ht as (Hbt & Hinc & Hfs). apply all_Forall in Hfs. cbn [Assign assign_as] in *.
  destruct (id =? mapping_base).
  { destruct bt as [bt|], bvar as [bvar|]; try (injection Hr as <-; apply Hskip).
    destruct (assign_as F ids bt bvar x) as [b|] eqn:Hb; [|done]. injection Hr as <-.
    apply (reads_map _ (fun b => VStruct (Some b) vars)), IH; [apply Hbt|done]. }
  destruct ids as [|id' ids'].
  - destruct (alter_member _ _ _ _) as [vars'|] eqn:Ha; [|done]. injection Hr as <-.
    apply (alter_member_reads fs bvar vars vars' id src (src_among src)
      (fun t => src_read src t (void_exact P t)) (fun t c => read_member F t c x) _ _ Hinc Hfs); [|exact Hskip|exact Ha].
    intros t c y Ht Hy. unfold read_member in Hy. pose proof (lone_member_ok t Ht) as Hok.
    destruct (accepts t (type_of x)) eqn:Hacc.
    + destruct (takes F t x) eqn:Htk; [|done].
      destruct (so_taken _ _ _ _ Hsrc _ Hok Hacc Htk) as [Ham Hread].
      change (member_type (lone_member t)) with t in Ham. rewrite Ham. by apply Hread.
    + injection Hy as <-. destruct (src_among src t) eqn:Ham; [|done].
      by apply (so_left _ _ _ _ Hsrc _ Hok).
  - destruct (alter_member _ _ _ _) as [vars'|] eqn:Ha; [|done]. injection Hr as <-.
    apply (alter_member_reads fs bvar vars vars' id src is_struct
      (fun t c => Assign P (id' :: ids') t c src)
      (fun t c => if is_struct t then assign_as F (id' :: ids') t c x else Some c) _ _ Hinc Hfs);
      [|exact Hskip|exact Ha].
    intros t c y Ht Hy. destruct (is_struct t); [by apply IH|by injection Hy as <-].
Qed.

(** * The transform *)

Lemma find_mapping_fmap {A B} (g : A -> B) (ms : list (Z * A)) id :
  find_mapping ((fun km => (fst km, g (snd km))) <$> ms) id = g <$> find_mapping ms id.
Proof.
  unfold find_mapping. induction ms as [|[k a] ms IH]; [done|]. rewrite fmap_cons.
  cbn [find fst snd]. by destruct (k =? id).
Qed.

Lemma find_mapping_in {A} (ms : list (Z * A)) id a : find_mapping ms id = Some a ->
  exists k, (k, a) ∈ ms.
Proof.
  unfold find_mapping. destruct (find _ ms) as [[k b]|] eqn:E; [|done]. intros [= <-].
  apply find_some in E as [E _]. exists k. by apply list_elem_of_In.
Qed.

Lemma Unknown_reads v : value_ok v -> zlen (encode F false v) < 2 ^ 32 ->
  reads (MapTo_Unknown P (type_of v)) (encode F false v) tt.
Proof.
  intros Hv Hl. unfold MapTo_Unknown.
  replace (is_container_or_struct (type_of v) || _) with true; [by apply (Skip_nothrow_reads P F laws)|].
  symmetry. destruct (basic_type_of_id (type_of v)) eqn:E; [apply orb_true_r|].
  by rewrite basic_or_container.
Qed.

(** A mapping does what it specifies for every payload and object. *)
Definition maps (t : ftype) (m : Mapping) : Prop := forall base v td var r,
  typedef_ok (zlen (structs s)) td -> instance_of s v td -> value_ok v -> ordered v ->
  zlen (encode F base v) < 2 ^ 32 -> map_as F t m var v = Some r ->
  reads (DriveApply P (MapTo P t m) base (mkRuntimeSchema s td) var) (encode F base v) (r, false).

Lemma MapTo_Field_reads t (ms : list (Z * Mapping)) id src x var r :
  type_ok t -> source_ok F s src x -> fine F x ->
  match find_mapping ms id with
  | Some m => match path m with [] => Some var | ids => assign_as F ids t var x end
  | None => Some var
  end = Some r ->
  reads (MapTo_Field P t ((fun km => (fst km, (snd km, MapTo P t (snd km)))) <$> ms) id src var)
    (encode F false x) r.
Proof.
  intros Ht Hsrc Hx Hr. unfold MapTo_Field.
  rewrite (find_mapping_fmap (fun m => (m, MapTo P t m))).
  destruct (find_mapping ms id) as [m|]; cbn [fmap option_fmap option_map].
  - destruct (path m); [injection Hr as <-; by apply unassigned_reads|by eapply Assign_reads].
  - injection Hr as <-. by apply unassigned_reads.
Qed.

Lemma MapTo_op_reads t p ms d x var r : type_ok t -> Forall (fun km => maps t (snd km)) ms ->
  field_of_payload F s d x ->
  map_field F t ((fun km => (fst km, (snd km, map_as F t (snd km)))) <$> ms) (fd_id d) x var = Some r ->
  forall schema, rs_schema schema = s ->
  reads (drive_op (MapTo P t (mkMapping p ms)) schema d var) (encode F false x) r.
Proof.
  intros Ht Hms Hd Hr schema Hs. pose proof (source_of_ok P F laws s schema d x Hs Hd) as Hsrc.
  pose proof Hd as (Hi & Htd & Hx). pose proof (instance_type _ _ _ Hi) as Hty.
  unfold map_field in Hr. rewrite (find_mapping_fmap (fun m => (m, map_as F t m))) in Hr.
  assert (Hplain : forall src, source_ok F s src x ->
    (match find_mapping ms (fd_id d) with
     | Some m => match path m with [] => Some var | ids => assign_as F ids t var x end
     | None => Some var end) = Some r ->
    reads (MapTo_Field P t ((fun km => (fst km, (snd km, MapTo P t (snd km)))) <$> ms)
      (fd_id d) src var) (encode F false x) r) by (intros; by apply MapTo_Field_reads).
  unfold drive_op, NonBasicTypeField. unfold source_of in Hsrc. rewrite <-Hty in *.
  destruct (basic_type_of_id (type_of x)) as [u|] eqn:Hu.
  { apply (Hplain _ Hsrc). destruct (basic_of_type _ _ Hu) as (sc & -> & _).
    destruct (find_mapping ms (fd_id d)) as [m|]; cbn in Hr; [|done]. by destruct (path m), (mfields m). }
  destruct (type_of x =? BT_STRUCT) eqn:E.
  2:{ apply (Hplain _ Hsrc). destruct x as [sc|b fs| |]; [by cbn [type_of] in Hu; rewrite type_id_roundtrip in Hu|done|..];
      (destruct (find_mapping ms (fd_id d)) as [m|]; cbn in Hr; [|done]);
      by destruct (path m), (mfields m). }
  destruct x as [sc|b fs|[]|]; [by cbn [type_of] in Hu; rewrite type_id_roundtrip in Hu| |done..].
  cbn [tr_Bonded MapTo mfields]. unfold MapTo_Bonded.
  rewrite (find_mapping_fmap (fun m => (m, MapTo P t m))).
  destruct (find_mapping ms (fd_id d)) as [m|] eqn:Hfind; cbn [fmap option_fmap option_map] in *.
  2:{ injection Hr as <-. by apply unassigned_reads. }
  destruct (mfields m) as [|km kms] eqn:Hmf.
  - apply (Hplain _ Hsrc). by destruct (path m).
  - apply (reads_map _ fst _ (r, false)).
    destruct (find_mapping_in _ _ _ Hfind) as [k Hk]. rewrite Forall_forall in Hms.
    apply list_elem_of_In in Hk. destruct Hx as (Hv & Ho & Hl).
    destruct schema as [s' td]. cbn [rs_schema] in Hs. subst s'.
    by apply (Hms (k, m) Hk false).
Qed.

Lemma MapTo_reads t m : type_ok t -> maps t m.
Proof.
  intros Ht. induction m as [p ms IH] using Mapping_ind_nested.
  intros base v td var r Htd Hi Hv Ho Hl Hr.
  destruct v as [|b0 fs0| |]; try done. cbn [map_as mfields] in Hr.
  destruct (match b0 with None => Some var | Some _ => _ end) as [var1|] eqn:Hb; [|done].
  pose proof Hi as (Hid & _). destruct ok as (Hsz & Hok & _).
  pose proof (instance_levels _ _ _ Hok Hi Hid) as Hlv. apply levels_bound in Hlv.
  assert (Hle : (value_levels (VStruct b0 fs0) <= Z.to_nat 0xffff)%nat) by lia.
  apply (DriveApply_reads P F laws); [exact Unknown_reads|exact ok|done|done|done|done|done|done|].
  intros bv vfs td' d E Hi' Hd Hf _. cbn [expected_depth MapTo] in E.
  rewrite at_levels_id in E by done. injection E as <- <-.
  exists var1. destruct (level_fine_parts _ _ _ Hf) as [Hbf Hfine].
  pose proof (struct_ok_at s ok _ _ Hd) as Hdok. pose proof Hdok as (_ & _ & Hdf).
  pose proof Hi' as (_ & _ & d' & Hd' & Hbase & Hm). assert (d' = d) as -> by congruence.
  split_and!; [| |apply reads_ret].
  - destruct b0 as [bv|], (base_def d) as [tb|] eqn:Etb; try done; [|by injection Hb].
    rewrite (find_mapping_fmap (fun m => (m, map_as F t m))) in Hb.
    cbn [tr_Base MapTo mfields]. unfold MapTo_Base.
    rewrite (find_mapping_fmap (fun m => (m, MapTo P t m))).
    destruct (find_mapping ms mapping_base) as [m|] eqn:Hfind;
      cbn [fmap option_fmap option_map] in *; [|done].
    destruct (find_mapping_in _ _ _ Hfind) as [k Hk]. rewrite Forall_forall in IH.
    apply list_elem_of_In in Hk. destruct (Hbf bv eq_refl) as (Hv' & Ho' & Hl').
    destruct (struct_ok_base _ _ _ Hdok Etb) as [_ Htb].
    by apply (IH (k, m) Hk true).
  - eapply (drives_fields F s); [|exact Hm|exact Hdf|exact Hfine|exact Hr].
    intros d2 v2 x y Hd2 Hy. by apply MapTo_op_reads.
Qed.
End MapToCorrect.

(** * Properties *)

(** C8: [MapTo] puts the fields of a payload where the mapping says.  Where [map_as] specifies
    a result for the object, the transform reads the payload of an instance of the runtime schema to its
    end and leaves the object the specification gives: fields followed through nested structs
    and bases of the payload, values assigned through nested members and bases of the object
    with type promotion, fields without a mapping, paths that lead nowhere and values of
    another type skipped.  There is a result unless: a struct of the payload that the mapping goes into has
    a base for which the mapping has no entry; a path that is followed ends with the id that
    stands for a base; the object has not the structs and members of its class along a path; or
    a value that is assigned cannot be read into the member: a struct with fewer levels than
    the member's class or without one of its required fields, at any depth, or a container that the
    member accepts whose elements are of another kind than the member's. *)
Theorem map_to_maps {R} `{InputStreamLaws R} version (P : ProtocolReader R) F
    (sch : SchemaDef) t mappings var v r (s : R) rest :
  (P = FastBinaryReader /\ F = fb_format) \/
  (P = CompactBinaryReader version /\ F = cb_format version) ->
  schema_ok sch -> type_ok t -> instance_of sch v (root sch) ->
  map_as F t (mkMapping [] mappings) var v = Some r ->
  value_ok v -> zlen (encode F false v) < 2 ^ 32 ->
  readable s -> view s = encode F false v ++ rest ->
  exists s', ApplyMapTo P t mappings (schema_of sch) var s = (Ok r, s') /\ view s' = rest.
Proof.
  intros HP Hsch Ht Hi Hr Hv Hl Hs Hw.
  pose proof (tagged_reader_laws version P F HP) as Hlaws.
  pose proof Hsch as (_ & _ & _ & _ & Hr2).
  pose proof (instance_ordered sch Hsch v _ Hr2 Hi) as Ho.
  pose proof (MapTo_reads P F Hlaws sch Hsch t (mkMapping [] mappings) Ht false v (root sch) var r
    Hr2 Hi Hv Ho Hl Hr) as Hread.
  apply (reads_map _ fst) in Hread.
  destruct (Hread s rest Hs Hw) as (s' & E & V & _). by exists s'.
Qed.

(** A class with one integer, to which the number in the base of a tree is mapped, and a
    field for what a tree has not. *)
Definition view_type : ftype :=
  FStruct None [(3, Metadata_new, FBasic (TInt W64)); (4, Metadata_new, FBasic TString)].
Definition view_mappings : list (Z * Mapping) :=
  [(mapping_base, mkMapping [] [(0, mkMapping [3] [])]); (9, mkMapping [4] [])].

Lemma map_to_maps_witness :
  exists s', ApplyMapTo (CompactBinaryReader v2) view_type view_mappings (schema_of tree_schema)
    (default_object view_type) (buffer_of (encode (cb_format v2) false tree_value)) =
    (Ok (VStruct None [(3, Metadata_new, VBasic (SInt W64 7));
                       (4, Metadata_new, VBasic (SString []))]), s') /\ view s' = [].
Proof.
  destruct (buffer_reads (encode (cb_format v2) false tree_value)) as [H1 H2]; [by vm_compute|].
  assert (Hv : value_ok tree_value) by by_parts.
  assert (Ht : type_ok view_type) by by_parts.
  assert (Hr : map_as (cb_format v2) view_type (mkMapping [] view_mappings)
    (default_object view_type) tree_value =
    Some (VStruct None [(3, Metadata_new, VBasic (SInt W64 7));
                        (4, Metadata_new, VBasic (SString []))])) by by vm_compute.
  apply (map_to_maps v2 (CompactBinaryReader v2) (cb_format v2) tree_schema view_type view_mappings
    (default_object view_type) tree_value _ _ [] (or_intror (conj eq_refl eq_refl))
    tree_schema_ok Ht tree_value_instance Hr Hv eq_refl H1 (eq_trans H2 (eq_sym (app_nil_r _)))).
Defined.

(** C36: without a mapping for the base, [MapTo] cannot read a Fast Binary payload of a
    derived struct.  [MapTo::Base] leaves the [bonded<void>] of the base unread, and its
    destructor skips a whole struct, the fields of the derived levels included; the parser
    then looks for these fields behind the payload, where there is nothing. *)
Theorem map_to_unmapped_base {R} `{InputStreamLaws R} (sch : SchemaDef) t mappings var bv fs (s : R) :
  schema_ok sch -> instance_of sch (VStruct (Some bv) fs) (root sch) ->
  find_mapping mappings mapping_base = None ->
  value_ok (VStruct (Some bv) fs) -> zlen (encode fb_format false (VStruct (Some bv) fs)) < 2 ^ 32 ->
  readable s -> view s = encode fb_format false (VStruct (Some bv) fs) ->
  exists s', ApplyMapTo FastBinaryReader t mappings (schema_of sch) var s =
    (Err (Thrown StreamException), s') /\ view s' = [].
Proof.
  intros Hsch Hi Hnone Hv Hl Hs Hw.
  pose proof Hsch as (Hsz & Hok & _ & Hid & _).
  pose proof (instance_levels _ _ _ Hok Hi Hid) as Hlv. pose proof (levels_bound _ _ _ Hlv) as Hb.
  pose proof Hi as (_ & _ & d & Hd & Hbase & _). destruct (base_def d) as [tb|] eqn:Etb; [|done].
  destruct (Skip_nothrow_reads FastBinaryReader fb_format fb_reader_laws _ Hv Hl s []) as
    (s1 & E1 & V1 & R1); [done|by rewrite app_nil_r|].
  pose proof (schema_depth_levels sch (S (length (structs sch))) (root sch) _ Hsz Hlv ltac:(lia))
    as Hdepth.
  exists s1. split; [|done]. unfold ApplyMapTo. apply bind_err. unfold DriveApply.
  cbn [ReadStructBegin FastBinaryReader]. unfold fb_ReadStructBegin. rewrite bind_ret.
  apply bind_err. cbn [DriveStruct hierarchy_of]. unfold depth_of. cbn [rs_schema schema_of].
  rewrite (bind_of_outcome_ok _ _ _ _ Hdepth).
  cbn [expected_depth MapTo]. zbool. unfold HasBase, GetBaseSchema, GetStruct, vector_at.
  cbn [rs_schema rs_type schema_of]. rewrite Hd. cbn [obind].
  rewrite (bind_of_outcome_ok _ d) by done. rewrite Etb. cbn [obind nullable_value].
  rewrite (bind_of_outcome_ok _ true) by done.
  erewrite bind_ok.
  2:{ rewrite (bind_of_outcome_ok _ (mkRuntimeSchema sch tb)) by done.
      cbn [tr_Base MapTo mfields]. unfold MapTo_Base.
      match goal with |- context [@find_mapping ?A ?ms ?id] =>
        replace (@find_mapping A ms id) with (@None A) end.
      - cbv iota. erewrite bind_ok by exact E1. reflexivity.
      - symmetry. eapply eq_trans; [apply (find_mapping_fmap (fun m => (m, MapTo FastBinaryReader t m)))|by rewrite Hnone]. }
  cbn [fst snd]. apply bind_err. unfold DriveLevel. apply bind_err.
  cbn [ReadFieldBegin FastBinaryReader]. unfold fb_ReadFieldBegin. apply bind_err.
  unfold fb_ReadType. apply is_Read_eof; [lia|done|]. by rewrite V1.
Qed.

Lemma map_to_unmapped_base_witness :
  exists s', ApplyMapTo FastBinaryReader view_type [(5, mkMapping [3] [])] (schema_of tree_schema)
    (default_object view_type) (buffer_of (encode fb_format false tree_value)) =
    (Err (Thrown StreamException), s') /\ view s' = [].
Proof.
  destruct (buffer_reads (encode fb_format false tree_value)) as [H1 H2]; [by vm_compute|].
  assert (Hv : value_ok tree_value) by by_parts.
  apply (map_to_unmapped_base tree_schema view_type [(5, mkMapping [3] [])] (default_object view_type)
    (VStruct None [(0, Metadata_new, VBasic (SInt W32 7))]) _ _ tree_schema_ok tree_value_instance
    eq_refl Hv eq_refl H1 H2).
Defined.
