(* ===== verification/Maybe.v ===== *)
(** [maybe<T>] (cpp/inc/bond/core/maybe.h): a value or nothing, for members whose default is
    [nothing].

    A [maybe] wraps a [boost::optional], which is an argument here with the behaviour its
    documentation gives; the model has the maybes that are alive, by identity, since a
    reference to a value may lead into the maybe it is assigned to. *)

From S2P Require Import Prelude.
From stdpp Require Import gmap.

(** * What the code relies on *)

(** The class [T] and its allocator [A]: constructors may throw, the plain move does not and
    leaves a value behind, an assignment that throws may have changed its target;
    [P_self_move] is what a value that is move-assigned to itself becomes. *)
Class Payload (T A : Type) := {
  P_new_with : A -> outcome T;
  P_copy : T -> outcome T;
  P_copy_with : T -> A -> outcome T;
  P_move : T -> T * T;
  P_move_with : T -> A -> outcome T * T;
  P_assign : T -> T -> outcome unit * T;
  P_move_assign : T -> T -> T * T;
  P_self_move : T -> T;
  P_equal : T -> T -> bool
}.

(** [boost::optional<T>]; [content] is what it holds, [o_write] an assignment through a
    reference to it. *)
Class BoostOptional (T O : Type) := {
  o_none : O;
  content : O -> option T;
  o_copy : O -> outcome O;
  o_move : O -> O * O;
  o_reset : O -> O;
  o_emplace : (O -> outcome T) -> M O unit;
  o_assign : O -> M O unit;
  o_move_assign : O -> O -> O * O;
  o_self_move : O -> O;
  o_write : T -> O -> O;
  o_swap : O -> O -> O * O;
  o_equal : O -> O -> bool;
  o_equal_value : O -> T -> bool
}.

(** Its documentation.  A moved-from optional still holds a value; [emplace] destroys the
    value it holds before it makes the new one, and holds nothing when that throws. *)
Class BoostOptionalLaws (T A O : Type) `{Payload T A} `{BoostOptional T O} := {
  none_law : content (T := T) o_none = None;
  copy_law o : match content o with
    | None => exists o', o_copy o = Ok o' /\ content o' = None
    | Some x =>
        match P_copy x with
        | Ok y => exists o', o_copy o = Ok o' /\ content o' = Some y
        | Err e => o_copy o = Err e
        end
    end;
  move_law o : content (fst (o_move o)) = (fun x => fst (P_move x)) <$> content o /\
    content (snd (o_move o)) = (fun x => snd (P_move x)) <$> content o;
  reset_law o : content (o_reset o) = None;
  emplace_law make o : exists o',
    match make (o_reset o) with
    | Ok x => o_emplace make o = (Ok tt, o') /\ content o' = Some x
    | Err e => o_emplace make o = (Err e, o') /\ content o' = None
    end;
  assign_law rhs lhs : exists o',
    match content rhs, content lhs with
    | None, _ => o_assign rhs lhs = (Ok tt, o') /\ content o' = None
    | Some x, None =>
        match P_copy x with
        | Ok y => o_assign rhs lhs = (Ok tt, o') /\ content o' = Some y
        | Err e => o_assign rhs lhs = (Err e, o') /\ content o' = None
        end
    | Some x, Some y => o_assign rhs lhs = (fst (P_assign y x), o') /\ content o' = Some (snd (P_assign y x))
    end;
  move_assign_law lhs rhs :
    let '(lhs', rhs') := o_move_assign lhs rhs in
    match content rhs, content lhs with
    | None, _ => content lhs' = None /\ content rhs' = None
    | Some x, None => content lhs' = Some (fst (P_move x)) /\ content rhs' = Some (snd (P_move x))
    | Some x, Some y => content lhs' = Some (fst (P_move_assign y x)) /\ content rhs' = Some (snd (P_move_assign y x))
    end;
  self_move_law o : content (o_self_move o) = P_self_move <$> content o;
  write_law x o : is_Some (content o) -> content (o_write x o) = Some x;
  swap_law o1 o2 : content (fst (o_swap o1 o2)) = content o2 /\ content (snd (o_swap o1 o2)) = content o1;
  equal_law o1 o2 : o_equal o1 o2 =
    match content o1, content o2 with
    | None, None => true
    | Some x, Some y => P_equal x y
    | _, _ => false
    end;
  equal_value_law o x : o_equal_value o x = match content o with Some y => P_equal y x | None => false end
}.

Section Maybe.
Context {T A O : Type} `{Payload T A} `{BoostOptional T O}.

(** * [maybe_common] and [maybe] *)

(** [_value] and the allocator of [allocator_holder]; a [T] without an allocator has [unit]
    for [A] and ignores it. *)
Record maybe : Type := mkMaybe { _value : O; _alloc : A }.

Definition is_nothing (m : maybe) : bool := match content (T := T) (_value m) with Some _ => false | None => true end.

(** [set_nothing]. *)
Definition set_nothing (m : maybe) : maybe := mkMaybe (o_reset (_value m)) (_alloc m).

(** [emplace]: the arguments are references, which are read when the value is made. *)
Definition emplace (make : O -> outcome T) : M maybe unit :=
  zoom _value (fun o m => mkMaybe o (_alloc m)) (o_emplace make).

(** [value()] and [value(std::nothrow)]. *)
Definition value (m : maybe) : outcome T :=
  if is_nothing m then Err (Thrown CoreException)
  else match content (_value m) with Some x => Ok x | None => Err Undefined end.
Definition value_nothrow (m : maybe) : outcome T :=
  match content (_value m) with Some x => Ok x | None => Err Undefined end.

(** [operator==] with a maybe and with a value. *)
Definition equal (lhs rhs : maybe) : bool := o_equal (T := T) (_value lhs) (_value rhs).
Definition equal_value (lhs : maybe) (rhs : T) : bool := o_equal_value (_value lhs) rhs.

(** [set_value()]. *)
Definition set_value : M maybe unit :=
  let! m := get in
  if is_nothing m then emplace (fun _ => P_new_with (_alloc m)) else ret tt.

(** The constructors: copy and move, with an allocator, from a value. *)
Definition maybe_copy (that : maybe) : outcome maybe :=
  olet o := o_copy (T := T) (_value that) in Ok (mkMaybe o (_alloc that)).
Definition maybe_move (that : maybe) : maybe * maybe :=
  let '(o, rest) := o_move (T := T) (_value that) in
  (mkMaybe o (_alloc that), mkMaybe (o_reset rest) (_alloc that)).
Definition maybe_new_with (alloc : A) : maybe := mkMaybe (o_none (T := T)) alloc.
Definition maybe_copy_with (that : maybe) (alloc : A) : outcome maybe :=
  let m := maybe_new_with alloc in
  match content (_value that) with
  | None => Ok m
  | Some x =>
      match emplace (fun _ => P_copy_with x alloc) m with
      | (Ok _, m') => Ok m'
      | (Err e, _) => Err e
      end
  end.
Definition maybe_move_with (that : maybe) (alloc : A) : outcome maybe * maybe :=
  let m := maybe_new_with alloc in
  match content (_value that) with
  | None => (Ok m, that)
  | Some x =>
      let that' := mkMaybe (o_write (snd (P_move_with x alloc)) (_value that)) (_alloc that) in
      match emplace (fun _ => fst (P_move_with x alloc)) m with
      | (Ok _, m') => (Ok m', set_nothing that')
      | (Err e, _) => (Err e, that')
      end
  end.
Definition maybe_of (default_alloc : A) (make : outcome T) : outcome maybe :=
  match emplace (fun _ => make) (maybe_new_with default_alloc) with
  | (Ok _, m') => Ok m'
  | (Err e, _) => Err e
  end.

(** The assignments from a maybe: the base, then the allocator. *)
Definition maybe_assign (that : maybe) : M maybe unit := fun m =>
  match o_assign (T := T) (_value that) (_value m) with
  | (Ok _, o) => (Ok tt, mkMaybe o (_alloc that))
  | (Err e, o) => (Err e, mkMaybe o (_alloc m))
  end.
Definition maybe_move_assign (m that : maybe) : maybe * maybe :=
  let '(o, rest) := o_move_assign (T := T) (_value m) (_value that) in
  (mkMaybe o (_alloc that), mkMaybe rest (_alloc that)).
Definition maybe_self_move (m : maybe) : maybe :=
  mkMaybe (o_self_move (T := T) (_value m)) (_alloc m).

(** [swap]. *)
Definition maybe_swap (m that : maybe) : maybe * maybe :=
  let '(o1, o2) := o_swap (T := T) (_value m) (_value that) in
  (mkMaybe o1 (_alloc that), mkMaybe o2 (_alloc m)).

(** * Programs *)

(** A reference to a value: to some other object, or into a maybe that is alive. *)
Inductive reference : Type := Outside (x : T) | Inside (i : nat).

(** What a program does with the maybes it names. *)
Inductive op : Type :=
| New (i : nat) (alloc : A)
| NewFrom (i : nat) (alloc : A) (r : reference)
| NewMoved (i : nat) (alloc : A) (r : reference)
| Copy (i j : nat)
| Move (i j : nat)
| CopyWith (i j : nat) (alloc : A)
| MoveWith (i j : nat) (alloc : A)
| Assign (i j : nat)
| MoveAssign (i j : nat)
| AssignValue (i : nat) (r : reference)
| AssignMoved (i : nat) (r : reference)
| SetNothing (i : nat)
| SetValue (i : nat)
| Swap (i j : nat)
| Value (i : nat)
| Equal (i j : nat)
| EqualValue (i : nat) (r : reference).

Inductive result : Type := Unit | IsValue (x : T) | IsBool (b : bool).

Definition object (i : nat) : M (gmap nat (maybe)) maybe :=
  let! m := gets (fun s => s !! i) in of_option m.
Definition set_object (i : nat) (m : maybe) : M (gmap nat maybe) unit := modify <[i := m]>.

(** A method on the object [i]. *)
Definition on {B} (i : nat) (f : M maybe B) : M (gmap nat maybe) B :=
  let! m := object i in
  let '(r, m') := f m in
  set_object i m' ;;; of_outcome r.

(** What a reference denotes, seen from an operation on the optional [o] of [i]. *)
Definition deref (s : gmap nat maybe) (i : nat) (r : reference) (o : O) : outcome T :=
  let read o := match content o with Some x => Ok x | None => Err Undefined end in
  match r with
  | Outside x => Ok x
  | Inside j =>
      if decide (j = i) then read o
      else match s !! j with Some m => read (_value m) | None => Err Undefined end
  end.

(** [operator=(const T&)] and [operator=(T&&)]. *)
Definition assign_value (s : gmap nat maybe) (i : nat) (r : reference) : M maybe unit :=
  emplace (fun o => olet x := deref s i r o in P_copy x).
Definition assign_moved (s : gmap nat maybe) (i : nat) (r : reference) : M maybe unit :=
  emplace (fun o => olet x := deref s i r o in Ok (fst (P_move x))).

(** A move through the reference leaves this there. *)
Definition write_back (i : nat) (r : reference) (x : T) : M (gmap nat maybe) unit :=
  match r with
  | Inside j => if decide (j = i) then ret tt
                else modify (alter (fun m => mkMaybe (o_write x (_value m)) (_alloc m)) j)
  | Outside _ => ret tt
  end.

Definition exec (c : op) : M (gmap nat maybe) result :=
  match c with
  | New i alloc => set_object i (maybe_new_with alloc) ;;; ret Unit
  | NewFrom i alloc r =>
      let! s := get in
      let! m := of_outcome (maybe_of alloc (olet x := deref s i r (o_none (T := T)) in P_copy x)) in
      set_object i m ;;; ret Unit
  | NewMoved i alloc r =>
      let! s := get in
      let! x := of_outcome (deref s i r (o_none (T := T))) in
      let! m := of_outcome (maybe_of alloc (Ok (fst (P_move x)))) in
      set_object i m ;;; write_back i r (snd (P_move x)) ;;; ret Unit
  | Copy i j =>
      let! that := object j in let! m := of_outcome (maybe_copy that) in set_object i m ;;; ret Unit
  | Move i j =>
      let! that := object j in
      set_object j (snd (maybe_move that)) ;;; set_object i (fst (maybe_move that)) ;;; ret Unit
  | CopyWith i j alloc =>
      let! that := object j in let! m := of_outcome (maybe_copy_with that alloc) in
      set_object i m ;;; ret Unit
  | MoveWith i j alloc =>
      let! that := object j in
      set_object j (snd (maybe_move_with that alloc)) ;;;
      let! m := of_outcome (fst (maybe_move_with that alloc)) in set_object i m ;;; ret Unit
  | Assign i j => let! that := object j in on i (maybe_assign that) ;;; ret Unit
  | MoveAssign i j =>
      let! m := object i in let! that := object j in
      if decide (i = j) then set_object i (maybe_self_move m) ;;; ret Unit else
      set_object i (fst (maybe_move_assign m that)) ;;; set_object j (snd (maybe_move_assign m that)) ;;; ret Unit
  | AssignValue i r =>
      let! s := get in
      on i (assign_value s i r) ;;; ret Unit
  | AssignMoved i r =>
      let! s := get in
      on i (assign_moved s i r) ;;;
      let! x := of_outcome (deref s i r (o_none (T := T))) in
      write_back i r (snd (P_move x)) ;;; ret Unit
  | SetNothing i => let! m := object i in set_object i (set_nothing m) ;;; ret Unit
  | SetValue i => on i set_value ;;; ret Unit
  | Swap i j =>
      let! m := object i in let! that := object j in
      set_object i (fst (maybe_swap m that)) ;;; set_object j (snd (maybe_swap m that)) ;;; ret Unit
  | Value i => let! m := object i in let! x := of_outcome (value m) in ret (IsValue x)
  | Equal i j => let! m := object i in let! that := object j in ret (IsBool (equal m that))
  | EqualValue i r =>
      let! m := object i in let! s := get in
      let! x := of_outcome (deref s i r (_value m)) in ret (IsBool (equal_value m x))
  end.

(** * The specification: an optional value and an allocator *)

Definition sobject (i : nat) : M (gmap nat (option T * A)) (option T * A) :=
  let! m := gets (fun s => s !! i) in of_option m.
Definition sset (i : nat) (x : option T) (alloc : A) : M (gmap nat (option T * A)) unit :=
  modify <[i := (x, alloc)]>.

Definition copy_option (copy : T -> outcome T) (x : option T) : outcome (option T) :=
  match x with Some x => olet y := copy x in Ok (Some y) | None => Ok None end.

(** The value a reference denotes. *)
Definition denotes (s : gmap nat (option T * A)) (r : reference) : outcome T :=
  match r with
  | Outside x => Ok x
  | Inside j => match s !! j with Some (Some x, _) => Ok x | _ => Err Undefined end
  end.

Definition leads_to (r : reference) (i : nat) : bool :=
  match r with Inside j => bool_decide (j = i) | Outside _ => false end.

(** What a move through a reference leaves there. *)
Definition swrite_back (r : reference) (x : T) : M (gmap nat (option T * A)) unit :=
  match r with
  | Inside j => let! that := sobject j in sset j (Some x) (snd that)
  | Outside _ => ret tt
  end.

(** A value is assigned: one that lives in the object itself is gone before it is read;
    when it cannot be made, nothing is left. *)
Definition sassign (i : nat) (r : reference) (make : T -> outcome T) : M (gmap nat (option T * A)) unit :=
  let! s := get in
  let! m := sobject i in
  match (if leads_to r i then Err Undefined else olet x := denotes s r in make x) with
  | Ok y => sset i (Some y) (snd m)
  | Err e => sset i None (snd m) ;;; fail e
  end.

(** The assignments between optionals: what the target holds, and what the source does. *)
Definition assign_option (y x : option T) : outcome unit * option T :=
  match x, y with
  | None, _ => (Ok tt, None)
  | Some x, None => match P_copy x with Ok z => (Ok tt, Some z) | Err e => (Err e, None) end
  | Some x, Some y => (fst (P_assign y x), Some (snd (P_assign y x)))
  end.
Definition move_assign_option (y x : option T) : option T * option T :=
  match x, y with
  | None, _ => (None, None)
  | Some x, None => (Some (fst (P_move x)), Some (snd (P_move x)))
  | Some x, Some y => (Some (fst (P_move_assign y x)), Some (snd (P_move_assign y x)))
  end.

Definition spec (c : op) : M (gmap nat (option T * A)) result :=
  match c with
  | New i alloc => sset i None alloc ;;; ret Unit
  | NewFrom i alloc r =>
      let! s := get in
      let! y := of_outcome (if leads_to r i then Err Undefined else olet x := denotes s r in P_copy x) in
      sset i (Some y) alloc ;;; ret Unit
  | NewMoved i alloc r =>
      let! s := get in
      let! x := of_outcome (if leads_to r i then Err Undefined else denotes s r) in
      sset i (Some (fst (P_move x))) alloc ;;; swrite_back r (snd (P_move x)) ;;; ret Unit
  | Copy i j =>
      let! that := sobject j in let! y := of_outcome (copy_option P_copy (fst that)) in
      sset i y (snd that) ;;; ret Unit
  | Move i j =>
      let! that := sobject j in
      sset j None (snd that) ;;; sset i ((fun x => fst (P_move x)) <$> fst that) (snd that) ;;; ret Unit
  | CopyWith i j alloc =>
      let! that := sobject j in
      let! y := of_outcome (copy_option (fun x => P_copy_with x alloc) (fst that)) in
      sset i y alloc ;;; ret Unit
  | MoveWith i j alloc =>
      let! that := sobject j in
      match fst that with
      | None => sset i None alloc ;;; ret Unit
      | Some x =>
          match P_move_with x alloc with
          | (Ok y, _) => sset j None (snd that) ;;; sset i (Some y) alloc ;;; ret Unit
          | (Err e, rest) => sset j (Some rest) (snd that) ;;; fail e
          end
      end
  | Assign i j =>
      let! that := sobject j in let! m := sobject i in
      match assign_option (fst m) (fst that) with
      | (Ok _, y) => sset i y (snd that) ;;; ret Unit
      | (Err e, y) => sset i y (snd m) ;;; fail e
      end
  | MoveAssign i j =>
      let! m := sobject i in let! that := sobject j in
      if decide (i = j) then sset i (P_self_move <$> fst m) (snd m) ;;; ret Unit else
      sset i (fst (move_assign_option (fst m) (fst that))) (snd that) ;;;
      sset j (snd (move_assign_option (fst m) (fst that))) (snd that) ;;; ret Unit
  | AssignValue i r => sassign i r P_copy ;;; ret Unit
  | AssignMoved i r =>
      let! s := get in
      sassign i r (fun x => Ok (fst (P_move x))) ;;;
      let! x := of_outcome (denotes s r) in
      swrite_back r (snd (P_move x)) ;;; ret Unit
  | SetNothing i => let! m := sobject i in sset i None (snd m) ;;; ret Unit
  | SetValue i =>
      let! m := sobject i in
      match fst m with
      | Some _ => ret Unit
      | None => let! y := of_outcome (P_new_with (snd m)) in sset i (Some y) (snd m) ;;; ret Unit
      end
  | Swap i j =>
      let! m := sobject i in let! that := sobject j in
      sset i (fst that) (snd that) ;;; sset j (fst m) (snd m) ;;; ret Unit
  | Value i =>
      let! m := sobject i in
      match fst m with Some x => ret (IsValue x) | None => throw CoreException end
  | Equal i j =>
      let! m := sobject i in let! that := sobject j in
      ret (IsBool (match fst m, fst that with
                   | None, None => true
                   | Some x, Some y => P_equal x y
                   | _, _ => false
                   end))
  | EqualValue i r =>
      let! m := sobject i in let! s := get in let! x := of_outcome (denotes s r) in
      ret (IsBool (match fst m with Some y => P_equal y x | None => false end))
  end.

(** A program: it goes on after an exception, and has no meaning after an undefined step. *)
Fixpoint run {S} (step : op -> M S result) (cs : list op) (s : S) : list (outcome result) * S :=
  match cs with
  | [] => ([], s)
  | c :: cs' =>
      let '(r, s') := step c s in
      match r with
      | Ok _ | Err (Thrown _) => let '(rs, s'') := run step cs' s' in (r :: rs, s'')
      | Err _ => ([r], s')
      end
  end.

(** A constructor is not given the object it makes. *)
Definition op_ok (c : op) : Prop :=
  match c with
  | Move i j | MoveWith i j _ | Copy i j | CopyWith i j _ => i <> j
  | NewFrom i _ r | NewMoved i _ r => r <> Inside i
  | _ => True
  end.
End Maybe.
Arguments maybe : clear implicits.
Arguments op : clear implicits.
Arguments result : clear implicits.
Arguments reference : clear implicits.

(** * Correctness *)

Section Correct.
Context {T A O : Type} `{BoostOptionalLaws T A O}.

Definition abs (s : gmap nat (maybe A O)) : gmap nat (option T * A) :=
  (fun m => (content (_value m), _alloc m)) <$> s.

Definition abs_m (m : maybe A O) : option T * A := (content (_value m), _alloc m).

Lemma abs_object_lookup s i : abs s !! i = abs_m <$> s !! i.
Proof. unfold abs. by rewrite lookup_fmap. Qed.

Lemma abs_object_insert s i m : abs (<[i := m]> s) = <[i := abs_m m]> (abs s).
Proof. unfold abs. by rewrite fmap_insert. Qed.

(** An operation and its specification from a state. *)
Definition agree {B} (p : M (gmap nat (maybe A O)) B) (q : M (gmap nat (option T * A)) B)
    (s : gmap nat (maybe A O)) : Prop := q (abs s) = (fst (p s), abs (snd (p s))).

Lemma agree_object {B} i (k : maybe A O -> M _ B) k' s :
  (forall m, s !! i = Some m -> agree (k m) (k' (abs_m m)) s) -> agree (bind (object i) k) (bind (sobject i) k') s.
Proof.
  intros Hk. unfold agree, object, sobject in *. rewrite !bind_assoc, !bind_gets, abs_object_lookup.
  destruct (s !! i) as [m|]; [by apply Hk|done].
Qed.

Lemma agree_ret {B} (b : B) s : agree (ret b) (ret b) s.
Proof. done. Qed.

Lemma agree_fail {B} e s : agree (@fail _ B e) (fail e) s.
Proof. done. Qed.

Lemma agree_set {B} i m x a (k : M _ B) k' s : content (_value m) = x -> _alloc m = a ->
  agree k k' (<[i := m]> s) -> agree (set_object i m ;;; k) (sset i x a ;;; k') s.
Proof.
  intros <- <- Hk. unfold agree, set_object, sset in *. rewrite !bind_modify.
  change (content (_value m), _alloc m) with (abs_m m). by rewrite <- abs_object_insert.
Qed.

Lemma agree_set_same {B} i m (k : M _ B) k' s : s !! i = Some m -> agree k k' s -> agree (set_object i m ;;; k) k' s.
Proof. intros Hm Hk. unfold agree, set_object in *. rewrite !bind_modify, insert_id by done. exact Hk. Qed.

Lemma emplace_spec make (m : maybe A O) : exists m' : maybe A O, _alloc m' = _alloc m /\
  match make (o_reset (_value m)) with
  | Ok x => emplace make m = (Ok tt, m') /\ content (_value m') = Some x
  | Err e => emplace make m = (Err e, m') /\ content (_value m') = None
  end.
Proof.
  destruct (emplace_law make (_value m)) as [o' E]. exists (mkMaybe o' (_alloc m)). split; [done|].
  unfold emplace, zoom. destruct (make (o_reset (_value m))) as [x|e]; destruct E as [-> E]; done.
Qed.

Lemma deref_denotes (s : gmap nat (maybe A O)) i r o : leads_to r i = false -> deref s i r o = denotes (abs s) r.
Proof.
  destruct r as [x|j]; [done|]. cbn. intros Hj%bool_decide_eq_false. rewrite decide_False by done.
  rewrite abs_object_lookup. by destruct (s !! j) as [m|]; cbn; [destruct (content (_value m))|].
Qed.

Lemma deref_own (s : gmap nat (maybe A O)) i r o : leads_to r i = true -> content o = None -> deref s i r o = Err Undefined.
Proof.
  destruct r as [x|j]; [done|]. cbn. intros ->%bool_decide_eq_true E. rewrite decide_True by done. by rewrite E.
Qed.

(** The value that is made, in both. *)
Lemma made {B} (s : gmap nat (maybe A O)) i r (make : T -> outcome B) o : content o = None ->
  (olet x := deref s i r o in make x) = if leads_to r i then Err Undefined else olet x := denotes (abs s) r in make x.
Proof.
  intros E. destruct (leads_to r i) eqn:El; [by rewrite deref_own|by rewrite deref_denotes].
Qed.

(** ** Each operation *)

Lemma is_nothing_content (m : maybe A O) : is_nothing m = match fst (abs_m m) with Some _ => false | None => true end.
Proof. done. Qed.

(** The write through the reference of a move. *)
Lemma write_back_agrees i r x s m' : leads_to r i = false -> denotes (abs s) r = Ok x ->
  agree (write_back i r (snd (P_move x)) ;;; ret (@Unit T))
    (swrite_back r (snd (P_move x)) ;;; ret Unit) (<[i := m']> s).
Proof.
  destruct r as [y|j]; [done|]. intros Hl%bool_decide_eq_false Ed. cbn [write_back]. rewrite decide_False by done.
  cbn [denotes] in Ed. rewrite abs_object_lookup in Ed. destruct (s !! j) as [n|] eqn:Hn; cbn in Ed; [|done].
  destruct (content (_value n)) as [x'|] eqn:Ex; [|done]. injection Ed as ->. set (s1 := <[i := m']> s).
  assert (s1 !! j = Some n) as Hj by (unfold s1; by rewrite lookup_insert_ne).
  assert (alter (fun m => mkMaybe (o_write (snd (P_move x)) (_value m)) (_alloc m)) j s1 =
    <[j := mkMaybe (o_write (snd (P_move x)) (_value n)) (_alloc n)]> s1) as Es.
  { apply map_eq. intros l. destruct (decide (l = j)) as [->|Hlj].
    - by rewrite lookup_alter_eq, lookup_insert_eq, Hj.
    - by rewrite lookup_alter_ne, lookup_insert_ne by done. }
  unfold agree. rewrite bind_modify, Es. unfold swrite_back, sobject. rewrite !bind_assoc, bind_gets, abs_object_lookup, Hj.
  refine (agree_set j (mkMaybe (o_write (snd (P_move x)) (_value n)) (_alloc n)) (Some (snd (P_move x))) (_alloc n)
    (ret Unit) (ret Unit) s1 _ eq_refl (agree_ret _ _)).
  apply write_law. by rewrite Ex.
Qed.

Lemma exec_constructor c s : op_ok c ->
  match c with New _ _ | NewFrom _ _ _ | NewMoved _ _ _ | Copy _ _ | CopyWith _ _ _ => True | _ => False end ->
  agree (exec c) (spec c) s.
Proof.
  intros Hok Hc. destruct c as [i a|i a r|i a r|i j|i j|i j a|i j a|i j|i j|i r|i r|i|i|i j|i|i j|i r]; try done; cbn [exec spec].
  - apply agree_set; [apply none_law|done|]. apply agree_ret.
  - unfold agree. rewrite !bind_get.
    pose proof (made s i r P_copy o_none none_law) as Em.
    destruct (emplace_spec (fun _ => olet x := deref s i r o_none in P_copy x) (maybe_new_with a)) as (m & Ea & E).
    unfold maybe_of. rewrite <- Em. destruct (olet x := deref s i r o_none in P_copy x) as [y|e]; destruct E as [-> E].
    + exact (agree_set i m (Some y) a (ret Unit) (ret Unit) s E Ea (agree_ret _ _)).
    + done.
  - unfold agree. rewrite !bind_get.
    assert (Hl : leads_to r i = false).
    { destruct r as [x|j]; [done|]. cbn. apply bool_decide_eq_false. intros ->. by apply Hok. }
    rewrite Hl, (deref_denotes s i r _ Hl). destruct (denotes (abs s) r) as [x|e] eqn:Ed; [|done].
    rewrite !bind_of_outcome_ok with (a := x) by done. unfold maybe_of.
    destruct (emplace_spec (fun _ => Ok (fst (P_move x))) (maybe_new_with a)) as (m & Ea & -> & E).
    rewrite bind_of_outcome_ok with (a := m) by done.
    eapply (agree_set i m); [exact E|exact Ea|]. by apply write_back_agrees.
  - apply agree_object. intros m Hm. unfold maybe_copy. pose proof (copy_law (_value m)) as E. cbn [abs_m fst snd].
    destruct (content (_value m)) as [x|]; cbn [copy_option].
    + destruct (P_copy x) as [y|e].
      * destruct E as (o' & -> & E). cbn. by apply agree_set.
      * rewrite E. apply agree_fail.
    + destruct E as (o' & -> & E). cbn. by apply agree_set.
  - apply agree_object. intros m Hm. unfold maybe_copy_with. cbn [abs_m fst snd].
    destruct (content (_value m)) as [x|]; cbn [copy_option].
    + destruct (emplace_spec (fun _ => P_copy_with x a) (maybe_new_with a)) as (m' & Ea & E).
      destruct (P_copy_with x a) as [y|e]; destruct E as [-> E]; cbn; [by apply agree_set|apply agree_fail].
    + cbn. apply agree_set; [apply none_law|done|apply agree_ret].
Qed.

Lemma exec_move c s : op_ok c ->
  match c with Move _ _ | MoveWith _ _ _ | MoveAssign _ _ | Swap _ _ | SetNothing _ => True | _ => False end ->
  agree (exec c) (spec c) s.
Proof.
  intros Hok Hc. destruct c as [i a|i a r|i a r|i j|i j|i j a|i j a|i j|i j|i r|i r|i|i|i j|i|i j|i r]; try done; cbn [exec spec].
  - apply agree_object. intros m Hm. unfold maybe_move. pose proof (move_law (_value m)) as [E1 E2].
    destruct (o_move (_value m)) as [o rest]. cbn [fst snd abs_m] in *.
    apply agree_set; [apply reset_law|done|]. by apply agree_set.
  - apply agree_object. intros m Hm. unfold maybe_move_with. cbn [abs_m fst snd].
    destruct (content (_value m)) as [x|] eqn:Ex.
    + destruct (emplace_spec (fun _ => fst (P_move_with x a)) (maybe_new_with a)) as (m' & Ea & E).
      destruct (P_move_with x a) as [[y|e] rest]; cbn [fst snd] in *; destruct E as [-> E]; cbn [fst snd].
      * apply agree_set; [apply reset_law|done|]. by apply agree_set.
      * apply agree_set; [apply write_law; by rewrite Ex|done|apply agree_fail].
    + apply agree_set_same; [exact Hm|].
      change (agree (set_object i (maybe_new_with a) ;;; ret (@Unit T)) (sset i None a ;;; ret (@Unit T)) s).
      apply agree_set; [apply none_law|done|apply agree_ret].
  - apply agree_object. intros m Hm. apply agree_object. intros that Ht. case_decide as Hij.
    { apply agree_set; [apply self_move_law|done|apply agree_ret]. }
    unfold maybe_move_assign.
    pose proof (move_assign_law (_value m) (_value that)) as E.
    destruct (o_move_assign (_value m) (_value that)) as [o rest]. cbn [fst snd abs_m].
    destruct (content (_value that)), (content (_value m)); destruct E as [E1 E2];
      by (apply agree_set; [exact E1|done|]; apply agree_set; [exact E2|done|]; apply agree_ret).
  - apply agree_object. intros m Hm. apply agree_set; [apply reset_law|done|apply agree_ret].
  - apply agree_object. intros m Hm. apply agree_object. intros that Ht. unfold maybe_swap.
    pose proof (swap_law (_value m) (_value that)) as [E1 E2].
    destruct (o_swap (_value m) (_value that)) as [o1 o2]. cbn [fst snd abs_m] in *.
    apply agree_set; [exact E1|done|]. apply agree_set; [exact E2|done|]. apply agree_ret.
Qed.

(** A method, once its effect on the object is known. *)
Lemma agree_on {B} i f (k : unit -> M _ B) k' s :
  (forall m, s !! i = Some m ->
    agree (set_object i (snd (f m)) ;;; bind (of_outcome (fst (f m))) k) (k' (abs_m m)) s) ->
  agree (bind (on i f) k) (bind (sobject i) k') s.
Proof.
  intros Hk. unfold agree, on, object, sobject in *. rewrite !bind_assoc, !bind_gets, abs_object_lookup.
  destruct (s !! i) as [m|]; [|done]. specialize (Hk m eq_refl). cbn [fmap option_fmap option_map of_option].
  rewrite !bind_ret. destruct (f m) as [r m']. cbn [fst snd] in Hk. rewrite Hk.
  by rewrite !bind_assoc.
Qed.

(** An assignment through a reference; [k] goes on from the object that was assigned. *)
Lemma exec_assign {B} i r (make : T -> outcome T) (k : unit -> M _ B) k' s :
  (forall m', leads_to r i = false -> agree (k tt) (k' tt) (<[i := m']> s)) ->
  agree (bind (on i (emplace (fun o => olet x := deref s i r o in make x))) k) (bind (sassign i r make) k') s.
Proof.
  intros Hk. unfold sassign.
  enough (agree (bind (on i (emplace (fun o => olet x := deref s i r o in make x))) k)
    (let! m := sobject i in
     bind (match (if leads_to r i then Err Undefined else olet x := denotes (abs s) r in make x) with
           | Ok y => sset i (Some y) (snd m)
           | Err e => sset i None (snd m) ;;; fail e
           end) k') s) as Ha by (unfold agree in *; by rewrite bind_assoc, bind_get, bind_assoc).
  apply agree_on. intros m Hm.
  destruct (emplace_spec (fun o => olet x := deref s i r o in make x) m) as (m' & Ea & E).
  rewrite (made s i r make (o_reset (_value m)) (reset_law _)) in E.
  assert (forall e, content (_value m') = None -> agree (set_object i m' ;;; bind (of_outcome (Err e)) k)
    (bind (sset i None (snd (abs_m m)) ;;; fail e) k') s) as Herr.
  { intros e En. unfold agree. rewrite bind_assoc. by apply (agree_set i m' None (_alloc m) (fail e) (fail e)). }
  specialize (Hk m'). destruct (leads_to r i); [destruct E as [-> E]; by apply Herr|].
  destruct (olet x := denotes (abs s) r in make x) as [y|e]; destruct E as [-> E]; [|by apply Herr].
  apply agree_set; [exact E|exact Ea|]. exact (Hk eq_refl).
Qed.

Lemma exec_assign_maybe i j s : agree (exec (Assign i j)) (spec (Assign i j)) s.
Proof.
  cbn [exec spec]. apply agree_object. intros that _. apply agree_on. intros m _. unfold maybe_assign.
  destruct (assign_law (_value that) (_value m)) as [o E]. cbn [abs_m fst snd]. unfold assign_option.
  destruct (content (_value that)) as [x|]; [destruct (content (_value m)) as [y|]; [|destruct (P_copy x)]|].
  1: destruct (P_assign y x) as [[[]|e] y']; cbn [fst snd] in *.
  all: destruct E as [-> E]; cbn [fst snd]; (apply agree_set; [exact E|done|]); done.
Qed.

Lemma exec_set_value i s : agree (exec (SetValue i)) (spec (SetValue i)) s.
Proof.
  cbn [exec spec]. apply agree_on. intros m Hm. unfold set_value. rewrite bind_get. unfold is_nothing.
  cbn [abs_m fst snd]. destruct (content (_value m)) as [x|] eqn:Ex; [by apply agree_set_same|].
  destruct (emplace_spec (fun _ => P_new_with (_alloc m)) m) as (m' & Ea & E).
  destruct (P_new_with (_alloc m)) as [y|e]; destruct E as [-> E]; cbn [fst snd].
  - apply agree_set; [exact E|exact Ea|done].
  - assert (abs (<[i := m']> s) = abs s) as Es.
    { rewrite abs_object_insert. apply insert_id. rewrite abs_object_lookup, Hm. cbn. unfold abs_m. by rewrite E, Ea, Ex. }
    change ((@Err (result T) e, abs s) = (Err e, abs (<[i := m']> s))). by rewrite Es.
Qed.

Lemma exec_assign_value c s : match c with AssignValue _ _ | AssignMoved _ _ => True | _ => False end ->
  agree (exec c) (spec c) s.
Proof.
  intros Hc. destruct c as [i a|i a r|i a r|i j|i j|i j a|i j a|i j|i j|i r|i r|i|i|i j|i|i j|i r]; try done; cbn [exec spec];
    unfold agree; rewrite !bind_get; apply exec_assign; intros m' Hl; [apply agree_ret|].
  unfold agree. rewrite (deref_denotes s i r _ Hl). destruct (denotes (abs s) r) as [x|e] eqn:Ed; [|done].
  rewrite !bind_of_outcome_ok with (a := x) by done. by apply write_back_agrees.
Qed.

Lemma exec_agrees c s : op_ok c -> agree (exec c) (spec c) s.
Proof.
  intros Hok. destruct c as [i a|i a r|i a r|i j|i j|i j a|i j a|i j|i j|i r|i r|i|i|i j|i|i j|i r];
    first [by apply exec_constructor|by apply exec_move|apply exec_assign_maybe|apply exec_set_value|
      by apply exec_assign_value|idtac]; cbn [exec spec].
  - apply agree_object. intros m Hm. unfold value, is_nothing. cbn [abs_m fst].
    by destruct (content (_value m)).
  - apply agree_object. intros m Hm. apply agree_object. intros that Ht. unfold equal. rewrite equal_law. done.
  - apply agree_object. intros m Hm. unfold agree. rewrite !bind_get.
    assert (Ed : deref s i r (_value m) = denotes (abs s) r).
    { destruct (leads_to r i) eqn:El; [|by apply deref_denotes].
      destruct r as [x|j]; [done|]. apply bool_decide_eq_true in El as ->. cbn.
      rewrite decide_True, abs_object_lookup, Hm by done. cbn. by destruct (content (_value m)). }
    rewrite Ed. destruct (denotes (abs s) r) as [x|e]; [|done].
    rewrite !bind_of_outcome_ok with (a := x) by done. unfold equal_value. by rewrite equal_value_law.
Qed.


Lemma run_agrees cs s : Forall op_ok cs ->
  run spec cs (abs s) = (fst (run exec cs s), abs (snd (run exec cs s))).
Proof.
  revert s. induction cs as [|c cs IH]; intros s Hok; [done|]. apply list.Forall_cons_1 in Hok as [Hc Hok].
  pose proof (exec_agrees c s Hc) as E. unfold agree in E. cbn [run]. rewrite E.
  destruct (exec c s) as [r s']. cbn [fst snd].
  assert (forall rs : list (outcome (result T)) * gmap nat (option T * A),
    rs = (fst (run exec cs s'), abs (snd (run exec cs s'))) ->
    (let '(rs, s'') := rs in (r :: rs, s'')) =
      (fst (let '(rs, s'') := run exec cs s' in (r :: rs, s'')),
       abs (snd (let '(rs, s'') := run exec cs s' in (r :: rs, s''))))) as Hcons
    by (intros rs ->; by destruct (run exec cs s')).
  destruct r as [v|[e| |]]; [by apply Hcons, IH|by apply Hcons, IH|done|done].
Qed.

Lemma assign_own i (m : maybe A O) s : s !! i = Some m -> fst (exec (AssignValue i (Inside i)) s) = Err Undefined.
Proof.
  intros Hm. pose proof (exec_agrees (AssignValue i (Inside i)) s I) as E. unfold agree in E.
  destruct (exec (AssignValue i (Inside i)) s) as [r s']. cbn [spec fst] in *. unfold sassign, sobject in E.
  rewrite !bind_assoc, bind_get, !bind_assoc, bind_gets, abs_object_lookup, Hm in E. cbn [leads_to] in E.
  rewrite bool_decide_true in E by done. cbn in E. injection E as E _. congruence.
Qed.

(** The source of a move assignment holds a value if it held one. *)
Lemma move_assign_keeps i j (m that : maybe A O) x s : i <> j -> s !! i = Some m -> s !! j = Some that ->
  content (_value that) = Some x ->
  exists that', snd (exec (MoveAssign i j) s) !! j = Some that' /\ is_nothing that' = false.
Proof.
  intros Hij Hm Ht Hx. cbn [exec]. unfold object. rewrite !bind_assoc, bind_gets, Hm. cbn [of_option].
  rewrite !bind_ret, !bind_assoc, bind_gets, Ht. cbn [of_option]. rewrite !bind_ret. rewrite decide_False by done. unfold set_object.
  rewrite !bind_modify. cbn [ret snd]. rewrite lookup_insert_eq. eexists. split; [done|].
  unfold maybe_move_assign. pose proof (move_assign_law (_value m) (_value that)) as E.
  destruct (o_move_assign (_value m) (_value that)) as [o rest]. rewrite Hx in E. unfold is_nothing. cbn [snd _value].
  by destruct (content (_value m)); destruct E as [_ ->].
Qed.

(** C18: A [maybe] is an optional value and an allocator.  From any objects, a program of
    constructions, copies, moves, assignments (of an object to itself too), swaps, reads and
    comparisons has on every [maybe] exactly the effect and the results [spec] gives it,
    whatever its copies and constructors throw: after an exception the object assigned to
    holds what [T] left there, or nothing when the value could not be made; [set_value]
    makes a value with the object's allocator.  The one condition on a program is that a
    constructor is not given the object it makes.  [spec] is what the code does, and departs
    from what maybe.h says in one place, the last part: a comment of the class guarantees
    that a moved-from [maybe] is nothing, which holds of the move constructors, but the move
    assignment is the default one where the compiler can make it, and leaves its source with
    a value if it had one.  The second part: the assignment of a maybe's own value to it has
    no meaning. *)
Theorem maybe_refines cs s : Forall op_ok cs ->
  run spec cs (abs s) = (fst (run exec cs s), abs (snd (run exec cs s))) /\
  (forall i m, s !! i = Some m -> fst (exec (AssignValue i (Inside i)) s) = Err Undefined) /\
  (forall i j m that x, i <> j -> s !! i = Some m -> s !! j = Some that -> content (_value that) = Some x ->
    exists that', snd (exec (MoveAssign i j) s) !! j = Some that' /\ is_nothing that' = false).
Proof.
  intros Hok. split; [by apply run_agrees|]. split; [intros i m; apply assign_own|].
  intros i j m that x. apply move_assign_keeps.
Qed.
End Correct.

(** ** An instance *)

#[local] Open Scope Z_scope.

(** Numbers, whose copies throw above ten and whose moves leave zero; [option] as the library. *)
#[local] Instance number_payload : Payload Z nat := {
  P_new_with a := Ok (Z.of_nat a);
  P_copy x := if 10 <? x then Err (Thrown BadAlloc) else Ok x;
  P_copy_with x a := if 10 <? x then Err (Thrown BadAlloc) else Ok x;
  P_move x := (x, 0);
  P_move_with x a := (Ok x, 0);
  P_assign y x := if 10 <? x then (Err (Thrown BadAlloc), y) else (Ok tt, x);
  P_move_assign y x := (x, y);
  P_self_move x := 0;
  P_equal := Z.eqb
}.

Definition option_of (r : outcome Z) : option Z := match r with Ok x => Some x | Err _ => None end.
Definition status_of (r : outcome Z) : outcome unit := match r with Ok _ => Ok tt | Err e => Err e end.

#[local] Instance option_library : BoostOptional Z (option Z) := {
  o_none := None;
  content o := o;
  o_copy o := match o with None => Ok None | Some x => olet y := P_copy x in Ok (Some y) end;
  o_move o := (o, (fun _ => 0) <$> o);
  o_reset _ := None;
  o_emplace make := fun _ => (status_of (make None), option_of (make None));
  o_assign rhs := fun lhs =>
    match rhs, lhs with
    | None, _ => (Ok tt, None)
    | Some x, None => (status_of (P_copy x), option_of (P_copy x))
    | Some x, Some y => (fst (P_assign y x), Some (snd (P_assign y x)))
    end;
  o_move_assign lhs rhs :=
    match rhs, lhs with
    | None, _ => (None, None)
    | Some x, None => (Some x, Some 0)
    | Some x, Some y => (Some x, Some y)
    end;
  o_self_move o := (fun _ => 0) <$> o;
  o_write x _ := Some x;
  o_swap o1 o2 := (o2, o1);
  o_equal o1 o2 := bool_decide (o1 = o2);
  o_equal_value o x := bool_decide (o = Some x)
}.

#[local] Instance option_laws : BoostOptionalLaws Z nat (option Z).
Proof.
  split; try done.
  - intros [x|]; cbn; [destruct (10 <? x); [done|by eexists]|by eexists].
  - by intros [x|].
  - intros make o. cbn. exists (option_of (make None)). by destruct (make None).
  - intros rhs lhs. cbn. destruct rhs as [x|], lhs as [y|]; cbn; try destruct (10 <? x); by eexists.
  - by intros [x|] [y|].
  - intros [x|] [y|]; cbn; try done. destruct (Z.eqb_spec x y) as [->|Hne]; [by rewrite bool_decide_true|].
    rewrite bool_decide_false; congruence.
  - intros [y|] x; cbn; [|done]. destruct (Z.eqb_spec y x) as [->|Hne]; [by rewrite bool_decide_true|].
    rewrite bool_decide_false; congruence.
Qed.

Definition sample_program : list (op Z nat) :=
  [New 0 7; SetValue 0; NewFrom 1 0 (Outside 20%Z); NewFrom 1 0 (Outside 3%Z); MoveAssign 0 1; Value 0; Value 1;
   Swap 1 1; NewMoved 2 5 (Inside 1); EqualValue 2 (Outside 7%Z); MoveAssign 2 2; Value 2;
   AssignValue 0 (Outside 30%Z); Value 0; AssignValue 1 (Inside 1)]%nat.

Lemma maybe_refines_witness :
  run exec sample_program (∅ : gmap nat (maybe nat (option Z))) =
    ([Ok Unit; Ok Unit; Err (Thrown BadAlloc); Ok Unit; Ok Unit; Ok (IsValue 3); Ok (IsValue 7);
      Ok Unit; Ok Unit; Ok (IsBool true); Ok Unit; Ok (IsValue 0);
      Err (Thrown BadAlloc); Err (Thrown CoreException); Err Undefined],
     <[0%nat := mkMaybe None 0%nat]> (<[1%nat := mkMaybe None 0%nat]>
       (<[2%nat := mkMaybe (Some 0) 5%nat]> ∅))) /\
  fst (run spec sample_program (abs (∅ : gmap nat (maybe nat (option Z))))) =
    fst (run exec sample_program (∅ : gmap nat (maybe nat (option Z)))).
Proof.
  split; [by vm_compute|].
  destruct (maybe_refines (A := nat) sample_program (∅ : gmap nat (maybe nat (option Z)))) as [E _].
  - repeat constructor; done.
  - by rewrite E.
Defined.
