(* ===== verification/CmdArgs.v ===== *)
(** Command line arguments (cpp/inc/bond/core/detail/cmdargs.h, the classes [Metadata],
    [Options] and [CmdArg], and [GetArgs] of cpp/inc/bond/core/cmdargs.h).

    [GetArgs] reads the command line into an object whose schema names the options: it cuts
    every argument into a name and a value, then each field of the object takes the first
    unused parameter that bears its name, and what is left over is an error. *)

From stdpp Require Import strings.
From S2P Require Import Prelude DataType Metadata.

Abbreviation text := (list Z) (only parsing).

(** The code units of a literal. *)
Definition lit (s : string) : text := (fun c => Z.of_nat (Ascii.nat_of_ascii c)) <$> String.list_ascii_of_string s.

Definition dash : Z := 45.
Definition underscore : Z := 95.
Definition equals : Z := 61.
Definition colon : Z := 58.

Definition empty (s : text) : bool := match s with [] => true | _ => false end.

(** [boost::to_upper_copy] and [std::toupper], in the classic locale. *)
Definition to_upper (c : Z) : Z := if (97 <=? c) && (c <=? 122) then c - 32 else c.

(** * [detail::Metadata]: what the metadata of a field says of its option *)

(** [Attribute] of [HasAttribute]: [std::map::find]. *)
Definition find_attribute (metadata : Metadata) (attr : text) : option text :=
  match list_find (fun a => fst a = attr) (md_attributes metadata) with
  | Some (_, a) => Some (snd a)
  | None => None
  end.
Definition HasAttribute (metadata : Metadata) (attr : text) : bool :=
  bool_decide (is_Some (find_attribute metadata attr)).
Definition Attribute (metadata : Metadata) (attr : text) : text := default [] (find_attribute metadata attr).

Definition Flag (metadata : Metadata) : text :=
  let flag := (fun c => if c =? underscore then dash else c) <$> md_name metadata in
  [dash; dash] ++ flag.

Definition IsNaked (metadata : Metadata) : bool := HasAttribute metadata (lit "naked").
Definition IsOptional (metadata : Metadata) : bool := bool_decide (modifier metadata = Optional).

Definition Param_text (metadata : Metadata) : text :=
  if IsNaked metadata then to_upper <$> md_name metadata
  else Flag metadata ++ [equals] ++ (to_upper <$> md_name metadata).

Definition Abbr (metadata : Metadata) : text :=
  if HasAttribute metadata (lit "abbr") then [dash] ++ Attribute metadata (lit "abbr") else [].

(** * [Options]: the parameters of the command line *)

Record Param : Type := mkParam { name : text; param_value : text; used : bool }.

#[export] Instance param_eq_dec : EqDecision Param.
Proof. solve_decision. Defined.

(** [value.find_first_of("=:")]; the text before it, and the text from it on. *)
Fixpoint cut (value : text) : text * text :=
  match value with
  | [] => ([], [])
  | c :: rest =>
      if (c =? equals) || (c =? colon) then ([], value)
      else let '(before, from) := cut rest in (c :: before, from)
  end.

(** [while(name.length() > 2) { params.push_back(Param(name.substr(0, 2), "")); name.erase(1, 1); }]
    on the name made of the dash and [letters]: the parameters pushed, and the name left. *)
Fixpoint unpack (letters : text) : list Param * text :=
  match letters with
  | a :: (_ :: _) as rest =>
      let '(ps, name) := unpack rest in (mkParam [dash; a] [] false :: ps, name)
  | _ => ([], dash :: letters)
  end.

(** [value[0] == '-' && value != "-" && value != "--"]. *)
Definition is_named (value : text) : bool :=
  bool_decide (head value = Some dash) && bool_decide (value <> [dash]) &&
  bool_decide (value <> [dash; dash]).

(** One iteration of [Options::Options]. *)
Definition parse_arg (value : text) : list Param :=
  if is_named value then
    let '(name, from) := cut value in
    let '(ps, name') :=
      if bool_decide (name !! 1%nat = Some dash) then ([], name) else unpack (tail name) in
    ps ++ [mkParam name' (tail from) false]
  else [mkParam [] value false].

(** [Options::Options(argc, argv)]; the first argument is the program. *)
Definition Options (argv : list text) : list Param := tail argv ≫= parse_arg.

(** [Options::FindParam]: the position of the first unused parameter of that name, which
    becomes used; [None] is [params.end()]. *)
Definition matches_param (flag abbr : text) (it : Param) : bool :=
  negb (used it) && (bool_decide (name it = flag) || (bool_decide (name it = abbr) && negb (empty abbr))).

Definition use (it : Param) : Param := mkParam (name it) (param_value it) true.

Definition FindParam (flag abbr : text) : M (list Param) (option nat) := fun params =>
  match list_find (fun it => matches_param flag abbr it) params with
  | Some (it, _) => (Ok (Some it), alter use it params)
  | None => (Ok None, params)
  end.

Definition at_ (it : nat) : M (list Param) Param :=
  let! p := gets (fun params => params !! it) in of_option p.

(** [Options::GetFlag]. *)
Definition GetFlag (flag abbr : text) : M (list Param) bool :=
  let! it := FindParam flag abbr in
  match it with
  | Some it =>
      let! p := at_ it in
      if negb (empty (param_value p)) then throw RuntimeError else ret true
  | None => ret false
  end.

(** [Options::GetParam(flag, abbr, value)]: what [value] holds after it, from [""]. *)
Definition GetParam_text (flag abbr : text) : M (list Param) text :=
  let! it := FindParam flag abbr in
  match it with
  | Some it =>
      let! p := at_ it in
      let! next := gets (fun params => params !! S it) in
      match next with
      | Some q =>
          if empty (param_value p) && (negb (used q) && empty (name q)) then
            modify (alter use (S it)) ;;; ret (param_value q)
          else ret (param_value p)
      | None => ret (param_value p)
      end
  | None => ret []
  end.

(** [Options::Leftovers]. *)
Definition Leftovers (params : list Param) : text :=
  params ≫= fun it =>
    if negb (used it) then
      lit "    " ++ name it ++
      (if negb (empty (name it)) && negb (empty (param_value it)) then [equals] else []) ++
      param_value it ++ [10]
    else [].

(** * [CmdArg]: the transform that reads the parameters into an object *)

(** The types of the fields: enums, numbers and [bool], strings, lists and vectors,
    [maybe].  Fields of other types do not compile. *)
Inductive opt_type : Type :=
| OEnum (enum : nat)
| ONumber (t : btype)
| OString
| OList (element : opt_type)
| OMaybe (element : opt_type).

Inductive opt_value : Type :=
| VEnum (z : Z)
| VNumber (s : scalar)
| VString (s : text)
| VList (items : list opt_value)
| VMaybe (v : option opt_value).

(** [T()]. *)
Definition default_opt (t : opt_type) : opt_value :=
  match t with
  | OEnum _ => VEnum 0
  | ONumber b => VNumber (VariantGet Variant_new b)
  | OString => VString []
  | OList _ => VList []
  | OMaybe _ => VMaybe None
  end.

(** A field of the object with its reflection, and the levels of an object, the most
    derived first. *)
Definition field : Type := Metadata * opt_type * opt_value.
Definition object : Type := list (list field).

Section CmdArg.
(** Code outside src/: the generated [ToEnum]; [boost::lexical_cast] ([None] when it
    throws); [boost::tokenizer] with an [escaped_list_separator]: the tokens, and whether the
    iterator throws after them. *)
Context (ToEnum : nat -> text -> option Z).
Context (lexical_cast : btype -> text -> option scalar).
Context (tokenizer : text -> list text * bool).

(** The overloads of [CmdArg::Parse]. *)
Fixpoint Parse (t : opt_type) (value : text) (var : opt_value) : outcome opt_value :=
  match t with
  | OEnum e =>
      match ToEnum e value with Some z => Ok (VEnum z) | None => Err (Thrown RuntimeError) end
  | ONumber b =>
      match lexical_cast b value with Some s => Ok (VNumber s) | None => Err (Thrown RuntimeError) end
  | OString => Ok (VString value)
  | OList t' =>
      let fix push (tok : list text) (items : list opt_value) : outcome (list opt_value) :=
        match tok with
        | [] => Ok items
        | it :: tok' => olet tmp := Parse t' it (default_opt t') in push tok' (items ++ [tmp])
        end in
      let '(tok, throws) := tokenizer value in
      olet items := push tok (match var with VList items => items | _ => [] end) in
      if throws then Err (Thrown RuntimeError) else Ok (VList items)
  | OMaybe t' =>
      let set_value := match var with VMaybe (Some v) => v | _ => default_opt t' end in
      olet v := Parse t' value set_value in Ok (VMaybe (Some v))
  end.

(** [CmdArg::GetParam] but for [bool]; [None] is [false]. *)
Definition GetParam (metadata : Metadata) (t : opt_type) (var : opt_value) : M (list Param) (option opt_value) :=
  let! value := (if IsNaked metadata then GetParam_text [] []
                 else GetParam_text (Flag metadata) (Abbr metadata)) in
  if empty value then
    if negb (IsOptional metadata) then throw RuntimeError else ret None
  else let! v := of_outcome (Parse t value var) in ret (Some v).

(** [while(GetParam(metadata, var));] *)
Fixpoint GetParams (fuel : nat) (metadata : Metadata) (t : opt_type) (var : opt_value)
    : M (list Param) opt_value :=
  match fuel with
  | O => fail OutOfFuel
  | S fuel =>
      let! r := GetParam metadata t var in
      match r with Some v => GetParams fuel metadata t v | None => ret var end
  end.

(** The overloads of [CmdArg::Field], with the [GetParam] of [bool], whose assertions on the
    metadata are compiled out. *)
Definition Field (f : field) : M (list Param) field :=
  let '(metadata, t, var) := f in
  match t with
  | OList _ =>
      let! fuel := gets (fun params => S (length params)) in
      let! v := GetParams fuel metadata t var in ret (metadata, t, v)
  | ONumber TBool =>
      let! b := GetFlag (Flag metadata) (Abbr metadata) in ret (metadata, t, VNumber (SBool b))
  | _ =>
      let! r := GetParam metadata t var in ret (metadata, t, default var r)
  end.

(** [CmdArg::End]. *)
Definition End (partial : bool) : M (list Param) unit :=
  if negb partial then
    let! leftovers := gets Leftovers in
    if negb (empty leftovers) then throw RuntimeError else ret tt
  else ret tt.

(** [StaticParser::ReadFields] on an object. *)
Fixpoint ReadFields (fields : list field) : M (list Param) (list field) :=
  match fields with
  | [] => ret []
  | f :: fields' => let! f' := Field f in let! r := ReadFields fields' in ret (f' :: r)
  end.

(** [Apply(CmdArg(options, partial), value)]: [StaticParser::Apply] with [Base], which
    applies the transform to the base with [partial] set. *)
Fixpoint Apply (partial : bool) (value : object) : M (list Param) object :=
  match value with
  | [] => ret []
  | fields :: base =>
      let! base' := (match base with [] => ret [] | _ => Apply true base end) in
      let! fields' := ReadFields fields in
      End partial ;;;
      ret (fields' :: base')
  end.

(** [GetArgs<Options>(argc, argv, partial)]; [options] is the object its default constructor
    makes. *)
Definition GetArgs (options : object) (argv : list text) (partial : bool) : outcome object :=
  fst (Apply partial options (Options argv)).

End CmdArg.
