(* ===== verification/CmdArgsCorrect.v ===== *)
(** Correctness of the command line arguments: what [GetArgs] reads from a command line that
    gives the options of an object in any order and any of their forms is what a reading of
    the options by name, field after field, gives; and what it never accepts. *)

From stdpp Require Import strings.
From S2P Require Import Prelude DataType Metadata CmdArgs.

(** * Command lines *)

(** How an option is given: a bare flag, its value attached after [=] or [:], or in the
    next argument. *)
Inductive given : Type :=
| Bare
| Attached (sep : Z) (v : text)
| Next (v : text).

(** One option by its flag or its abbreviation, or an argument without a name. *)
Inductive setting : Type :=
| Named (m : Metadata) (short : bool) (g : given)
| Positional (v : text).

(** An argument, with the abbreviated flags packed in front of its option. *)
Record argument : Type := mkArgument { packed : list Metadata; last_option : setting }.

Definition letter (m : Metadata) : text := Attribute m (lit "abbr").
Definition shown (m : Metadata) (short : bool) : text := if short then Abbr m else Flag m.

(** The text of an argument on the command line. *)
Definition render (a : argument) : list text :=
  match last_option a with
  | Positional v => [v]
  | Named m short g =>
      let option := if short then [dash] ++ concat (letter <$> packed a) ++ letter m else Flag m in
      match g with
      | Bare => [option]
      | Attached sep v => [option ++ sep :: v]
      | Next v => [option; v]
      end
  end.

Definition settings_of (a : argument) : list setting :=
  ((fun m => Named m true Bare) <$> packed a) ++ [last_option a].

(** * What is well formed *)

Definition no_separator (s : text) : Prop := Forall (fun c => c <> equals /\ c <> colon) s.

(** A name that an option can bear; an abbreviation is one letter. *)
Record option_ok (m : Metadata) : Prop := {
  ok_name : md_name m <> [] /\ no_separator (md_name m);
  ok_abbr : HasAttribute m (lit "abbr") = true ->
    exists c, letter m = [c] /\ c <> dash /\ c <> equals /\ c <> colon
}.

(** A value that the command line does not take for an option. *)
Definition plain (v : text) : Prop := v <> [] /\ is_named v = false.

Definition has_abbr (m : Metadata) (short : bool) : Prop :=
  short = true -> HasAttribute m (lit "abbr") = true.

Definition setting_ok (s : setting) : Prop :=
  match s with
  | Positional v => plain v
  | Named m short g =>
      option_ok m /\ has_abbr m short /\
      match g with
      | Bare => True
      | Attached sep v => (sep = equals \/ sep = colon) /\ v <> []
      | Next v => plain v
      end
  end.

Definition is_short (s : setting) : bool := match s with Named _ short _ => short | _ => false end.

Record argument_ok (a : argument) : Prop := {
  ok_packed : Forall (fun m => option_ok m /\ has_abbr m true) (packed a);
  ok_short : packed a <> [] -> is_short (last_option a) = true;
  ok_option : setting_ok (last_option a)
}.

(** * The parameters of a command line *)

Definition params_of (s : setting) (u : bool) : list Param :=
  match s with
  | Positional v => [mkParam [] v u]
  | Named m short g =>
      match g with
      | Bare => [mkParam (shown m short) [] u]
      | Attached _ v => [mkParam (shown m short) v u]
      | Next v => [mkParam (shown m short) [] u; mkParam [] v u]
      end
  end.

(** The parameters of settings, with those already used. *)
Definition command (ms : list (setting * bool)) : list Param := ms ≫= fun su => params_of (fst su) (snd su).
Definition unread (ss : list setting) : list (setting * bool) := (fun s => (s, false)) <$> ss.

Lemma command_cons su ms : command (su :: ms) = params_of (fst su) (snd su) ++ command ms.
Proof. done. Qed.

Lemma command_app ms1 ms2 : command (ms1 ++ ms2) = command ms1 ++ command ms2.
Proof. apply bind_app. Qed.

Lemma unread_app ss1 ss2 : unread (ss1 ++ ss2) = unread ss1 ++ unread ss2.
Proof. apply fmap_app. Qed.

(** ** The constructor of [Options] *)

Lemma cut_clean s rest : no_separator s -> cut (s ++ rest) = (s ++ fst (cut rest), snd (cut rest)).
Proof.
  induction s as [|c s IH]; [intros _; cbn; by destruct (cut rest)|]. intros [[H1 H2] Hs]%list.Forall_cons_1.
  cbn [app cut]. rewrite (proj2 (Z.eqb_neq _ _) H1), (proj2 (Z.eqb_neq _ _) H2).
  cbn [orb]. by rewrite (IH Hs).
Qed.

Lemma cut_separator sep v : sep = equals \/ sep = colon -> cut (sep :: v) = ([], sep :: v).
Proof. by intros [-> | ->]. Qed.

Lemma Flag_clean m : no_separator (md_name m) -> no_separator (Flag m).
Proof.
  intros H. unfold Flag, no_separator. cbn [app]. constructor; [done|]. constructor; [done|].
  apply Forall_fmap. eapply list.Forall_impl; [exact H|]. cbn. intros c [H1 H2].
  destruct (c =? underscore); done.
Qed.

Lemma letters_clean ps : Forall (fun m => option_ok m /\ has_abbr m true) ps -> no_separator (concat (letter <$> ps)).
Proof.
  induction 1 as [|m ps [Hm Ha] _ IH]; [constructor|].
  destruct (ok_abbr m Hm (Ha eq_refl)) as (c & E & _ & H1 & H2).
  rewrite fmap_cons. cbn [concat]. rewrite E. by constructor.
Qed.

Lemma Abbr_letter m : HasAttribute m (lit "abbr") = true -> Abbr m = dash :: letter m.
Proof. unfold Abbr. by intros ->. Qed.

(** Packed abbreviations are unpacked. *)
Lemma unpack_letters ps m : Forall (fun m => option_ok m /\ has_abbr m true) (ps ++ [m]) ->
  unpack (concat (letter <$> ps) ++ letter m) =
    (command (unread ((fun m => Named m true Bare) <$> ps)), Abbr m).
Proof.
  induction ps as [|p ps IH]; intros H.
  - apply list.Forall_cons_1 in H as [[Hm Ha] _]. cbn [app concat fmap list_fmap].
    rewrite (Abbr_letter m (Ha eq_refl)).
    by destruct (ok_abbr m Hm (Ha eq_refl)) as (c & -> & _).
  - cbn [app] in H. apply list.Forall_cons_1 in H as [[Hp Ha] H].
    rewrite fmap_cons. cbn [concat]. specialize (IH H). unfold unread in *. rewrite !fmap_cons, command_cons.
    cbn [fst snd params_of app shown].
    rewrite (Abbr_letter p (Ha eq_refl)).
    destruct (ok_abbr p Hp (Ha eq_refl)) as (c & -> & _). cbn [app].
    assert (concat (letter <$> ps) ++ letter m <> []) as Hne.
    { apply Forall_app in H as [_ [[Hm Ham] _]%list.Forall_cons_1].
      destruct (ok_abbr m Hm (Ham eq_refl)) as (c' & -> & _). by destruct (concat _). }
    destruct (concat (letter <$> ps) ++ letter m) as [|b bs] eqn:E; [done|].
    cbn [unpack]. change (unpack (b :: bs)) with (unpack (b :: bs)) in IH. cbn [unpack] in IH.
    by rewrite IH.
Qed.

Lemma parse_plain v : is_named v = false -> parse_arg v = [mkParam [] v false].
Proof. unfold parse_arg. by intros ->. Qed.

(** What may follow the name. *)
Definition ending (rest : text) : Prop := rest = [] \/ exists sep v, rest = sep :: v /\ (sep = equals \/ sep = colon).

Lemma cut_ending rest : ending rest -> cut rest = ([], rest).
Proof. by intros [-> | (sep & v & -> & H)]; [|apply cut_separator]. Qed.

Lemma parse_long m rest : option_ok m -> ending rest ->
  parse_arg (Flag m ++ rest) = [mkParam (Flag m) (tail rest) false].
Proof.
  intros [[Hn Hc] _] He. unfold parse_arg.
  rewrite (cut_clean _ _ (Flag_clean m Hc)), (cut_ending rest He), app_nil_r. cbn [fst snd].
  unfold Flag at 1 2. destruct (md_name m) as [|c cs]; [done|]. done.
Qed.

Lemma parse_short ps m rest : Forall (fun m => option_ok m /\ has_abbr m true) (ps ++ [m]) -> ending rest ->
  parse_arg ([dash] ++ concat (letter <$> ps) ++ letter m ++ rest) =
    command (unread ((fun m => Named m true Bare) <$> ps)) ++ [mkParam (Abbr m) (tail rest) false].
Proof.
  intros Hps He. unfold parse_arg.
  assert (no_separator (dash :: concat (letter <$> ps) ++ letter m)) as Hc.
  { constructor; [done|]. pose proof (letters_clean _ Hps) as H.
    rewrite fmap_app, concat_app in H. cbn [fmap list_fmap concat] in H. by rewrite app_nil_r in H. }
  pose proof (cut_clean _ rest Hc) as E. rewrite (cut_ending rest He), app_nil_r in E. cbn [fst snd] in E.
  rewrite (app_assoc (concat _)). cbn [app] in *. rewrite E.
  assert (exists c cs, concat (letter <$> ps) ++ letter m = c :: cs /\ c <> dash) as (c & cs & El & Hd).
  { destruct ps as [|p ps]; apply list.Forall_cons_1 in Hps as [[Hp Ha] _];
      destruct (ok_abbr _ Hp (Ha eq_refl)) as (c & El & Hd & _);
      [|rewrite fmap_cons; cbn [concat]]; rewrite El; by eexists _, _. }
  pose proof (unpack_letters ps m Hps) as Hu. rewrite El in *. cbn [tail].
  replace (is_named _) with true
    by (unfold is_named; cbn; rewrite !bool_decide_true by congruence; done).
  cbn [lookup list_lookup]. rewrite bool_decide_false by congruence. by rewrite Hu.
Qed.

(** The parameters of an argument are those of its settings. *)
Lemma render_params a : argument_ok a -> render a ≫= parse_arg = command (unread (settings_of a)).
Proof.
  intros [Hp Hs Ho]. unfold render, settings_of. rewrite unread_app, command_app.
  destruct (last_option a) as [m short g|v].
  2:{ destruct (packed a) as [|p ps]; [|discriminate Hs; done].
      cbn. by rewrite (parse_plain v (proj2 Ho)). }
  destruct Ho as (Hm & Ha & Hg). destruct short.
  - assert (Forall (fun m => option_ok m /\ has_abbr m true) (packed a ++ [m])) as Hps
      by (apply Forall_app; split; [exact Hp|by constructor]).
    assert (forall rest, ending rest -> parse_arg (([dash] ++ concat (letter <$> packed a) ++ letter m) ++ rest) =
      command (unread ((fun m => Named m true Bare) <$> packed a)) ++ [mkParam (Abbr m) (tail rest) false]) as E
      by (intros rest He; rewrite <- (parse_short _ _ rest Hps He); by rewrite <- !app_assoc).
    destruct g as [|sep v|v].
    + specialize (E [] (or_introl eq_refl)). rewrite app_nil_r in E. cbn [mbind list_bind]. rewrite E. by rewrite app_nil_r.
    + cbn [mbind list_bind]. rewrite (E (sep :: v)) by (right; naive_solver). by rewrite app_nil_r.
    + specialize (E [] (or_introl eq_refl)). rewrite app_nil_r in E. cbn [mbind list_bind].
      rewrite E, (parse_plain v (proj2 Hg)), <- app_assoc. done.
  - destruct (packed a) as [|p ps]; [|discriminate Hs; done].
    destruct g as [|sep v|v]; cbn [fmap list_fmap mbind list_bind app].
    + pose proof (parse_long m [] Hm (or_introl eq_refl)) as E. rewrite app_nil_r in E. by rewrite E.
    + by rewrite (parse_long m (sep :: v) Hm) by (right; naive_solver).
    + pose proof (parse_long m [] Hm (or_introl eq_refl)) as E. rewrite app_nil_r in E.
      by rewrite E, (parse_plain v (proj2 Hg)).
Qed.

Lemma Options_render program args : Forall argument_ok args ->
  Options (program :: concat (render <$> args)) = command (unread (args ≫= settings_of)).
Proof.
  unfold Options. cbn [tail]. induction 1 as [|a args Ha _ IH]; [done|].
  rewrite fmap_cons. cbn [concat]. rewrite bind_app, bind_cons, unread_app, command_app.
  by rewrite IH, (render_params a Ha).
Qed.

(** * Taking a parameter *)

Definition owned (m : Metadata) (s : setting) : bool :=
  match s with Named m' _ _ => bool_decide (Flag m' = Flag m) | Positional _ => false end.
Definition positional (s : setting) : bool := match s with Positional _ => true | Named _ _ _ => false end.
Definition value_of (s : setting) : text :=
  match s with Named _ _ Bare => [] | Named _ _ (Attached _ v) | Named _ _ (Next v) | Positional v => v end.
Definition is_bare (s : setting) : bool := match s with Named _ _ Bare => true | _ => false end.

(** The first unused setting of a kind, and the settings with it used. *)
Fixpoint take_first (P : setting -> bool) (ms : list (setting * bool)) : option (setting * list (setting * bool)) :=
  match ms with
  | [] => None
  | (s, u) :: ms' =>
      if negb u && P s then Some (s, (s, true) :: ms')
      else '(s', r) ← take_first P ms'; Some (s', (s, u) :: r)
  end.

Lemma FindParam_none flag abbr params : Forall (fun p => matches_param flag abbr p = false) params ->
  FindParam flag abbr params = (Ok None, params).
Proof.
  intros H. unfold FindParam. rewrite (proj2 (list_find_None _ _)); [done|].
  eapply list.Forall_impl; [exact H|]. intros p E Hp. by rewrite E in Hp.
Qed.

Lemma FindParam_here flag abbr pre p post : Forall (fun p => matches_param flag abbr p = false) pre ->
  matches_param flag abbr p = true ->
  FindParam flag abbr (pre ++ p :: post) = (Ok (Some (length pre)), pre ++ use p :: post).
Proof.
  intros Hpre Hp. unfold FindParam. rewrite list_find_app_r.
  2:{ apply list_find_None. eapply list.Forall_impl; [exact Hpre|]. intros q E Hq. by rewrite E in Hq. }
  cbn [list_find]. rewrite decide_True by (by rewrite Hp). cbn.
  f_equal. clear Hpre. induction pre as [|q pre IH]; [done|]. cbn. by rewrite IH.
Qed.

Lemma at_length (pre : list Param) p post : at_ (length pre) (pre ++ p :: post) = (Ok p, pre ++ p :: post).
Proof. unfold at_. rewrite bind_gets. by rewrite list_lookup_middle. Qed.

Lemma used_never flag abbr s : Forall (fun p => matches_param flag abbr p = false) (params_of s true).
Proof. destruct s as [m short [|sep v|v]|v]; repeat constructor. Qed.

(** [P] is the settings whose first parameter bears one of the names. *)
Definition named_by (P : setting -> bool) (flag abbr : text) (s : setting) : Prop :=
  if P s then exists p ps, params_of s false = p :: ps /\ matches_param flag abbr p = true
  else Forall (fun p => matches_param flag abbr p = false) (params_of s false).
Definition separates (P : setting -> bool) (flag abbr : text) (ms : list (setting * bool)) : Prop :=
  Forall (fun su => snd su = false -> named_by P flag abbr (fst su)) ms.

Lemma take_first_split P ms :
  match take_first P ms with
  | Some (s, ms') => exists pre post, ms = pre ++ (s, false) :: post /\ ms' = pre ++ (s, true) :: post /\
      P s = true /\ Forall (fun su => snd su = true \/ P (fst su) = false) pre
  | None => Forall (fun su => snd su = true \/ P (fst su) = false) ms
  end.
Proof.
  induction ms as [|[s u] ms IH]; [constructor|]. cbn [take_first].
  destruct (negb u && P s) eqn:E.
  - apply andb_true_iff in E as [E1 E2]. destruct u; [done|]. by exists [], ms.
  - assert (u = true \/ P s = false) by (destruct u, (P s); auto; done).
    destruct (take_first P ms) as [[s' r]|]; cbn.
    + destruct IH as (pre & post & -> & -> & HP & Hpre). exists ((s, u) :: pre), post.
      repeat split; [done|]. by constructor.
    + by constructor.
Qed.

Lemma not_taken P flag abbr ms : separates P flag abbr ms ->
  Forall (fun su => snd su = true \/ P (fst su) = false) ms ->
  Forall (fun p => matches_param flag abbr p = false) (command ms).
Proof.
  induction ms as [|[s u] ms IH]; intros Hs Hn; [constructor|].
  apply list.Forall_cons_1 in Hs as [Hs1 Hs2], Hn as [Hn1 Hn2]. rewrite command_cons.
  apply Forall_app. split; [|by apply IH]. cbn [fst snd] in *. destruct u; [apply used_never|].
  specialize (Hs1 eq_refl). unfold named_by in Hs1. destruct Hn1 as [|E]; [done|]. by rewrite E in Hs1.
Qed.

(** The settings up to the one that is taken. *)
Fixpoint upto (P : setting -> bool) (ms : list (setting * bool)) : list (setting * bool) :=
  match ms with
  | [] => []
  | (s, u) :: ms' => (s, u) :: (if negb u && P s then [] else upto P ms')
  end.

Lemma upto_app P pre rest : Forall (fun su => snd su = true \/ P (fst su) = false) pre ->
  upto P (pre ++ rest) = pre ++ upto P rest.
Proof.
  induction 1 as [|[s u] pre Hs _ IH]; [done|]. cbn. rewrite IH.
  assert (negb u && P s = false) as -> by (cbn in Hs; destruct u, (P s); naive_solver). done.
Qed.

Lemma upto_In P ms su : In su (upto P ms) -> In su ms.
Proof.
  induction ms as [|[s u] ms IH]; [done|]. cbn. intros [H|H]; [by left|].
  destruct (negb u && P s); [done|]. right. by apply IH.
Qed.

Lemma separates_upto P flag abbr ms : separates P flag abbr ms -> separates P flag abbr (upto P ms).
Proof.
  intros H. apply Forall_forall. intros su Hsu%upto_In.
  exact (proj1 (Forall_forall _ _) H su Hsu).
Qed.

(** A flag. *)
Lemma GetFlag_takes P flag abbr ms : separates P flag abbr ms ->
  (forall s, In (s, false) ms -> P s = true -> is_bare s = true) ->
  GetFlag flag abbr (command ms) =
    match take_first P ms with
    | Some (_, ms') => (Ok true, command ms')
    | None => (Ok false, command ms)
    end.
Proof.
  intros Hs Hb. pose proof (take_first_split P ms) as H. unfold GetFlag.
  destruct (take_first P ms) as [[s ms']|].
  2:{ erewrite bind_ok; [|apply FindParam_none; by eapply not_taken]. done. }
  destruct H as (pre & post & -> & -> & HP & Hpre).
  specialize (Hb s ltac:(apply in_or_app; right; by left) HP).
  apply Forall_app in Hs as [Hs1 [Hs2 _]%list.Forall_cons_1]. specialize (Hs2 eq_refl).
  cbn [fst] in Hs2. unfold named_by in Hs2. rewrite HP in Hs2. destruct Hs2 as (p & ps & Ep & Hm).
  destruct s as [m short [|sep v|v]|v]; try done. cbn in Ep. injection Ep as <- <-.
  rewrite !command_app, !command_cons. cbn [fst snd params_of app].
  erewrite bind_ok; [|apply FindParam_here; [by eapply not_taken|exact Hm]].
  cbn iota beta. erewrite bind_ok; [|apply at_length]. done.
Qed.

Lemma alter_S_length {A} f (pre : list A) p q post :
  alter f (S (length pre)) (pre ++ p :: q :: post) = pre ++ p :: f q :: post.
Proof. induction pre as [|x pre IH]; [done|]. cbn. f_equal. apply IH. Qed.

Lemma lookup_S_length {A} (pre : list A) p post : (pre ++ p :: post) !! S (length pre) = post !! 0%nat.
Proof. induction pre as [|x pre IH]; [done|]. apply IH. Qed.

(** A value. *)
Lemma GetParam_takes P flag abbr ms : separates P flag abbr (upto P ms) ->
  (forall s, In (s, false) ms -> P s = true -> setting_ok s /\ is_bare s = false) ->
  GetParam_text flag abbr (command ms) =
    match take_first P ms with
    | Some (s, ms') => (Ok (value_of s), command ms')
    | None => (Ok [], command ms)
    end.
Proof.
  intros Hs Hb. pose proof (take_first_split P ms) as H. unfold GetParam_text.
  destruct (take_first P ms) as [[s ms']|].
  2:{ rewrite <- (app_nil_r ms), upto_app, app_nil_r in Hs by done.
      erewrite bind_ok; [|apply FindParam_none; by eapply not_taken]. done. }
  destruct H as (pre & post & -> & -> & HP & Hpre).
  destruct (Hb s ltac:(apply in_or_app; right; by left) HP) as [Hok Hnb].
  rewrite upto_app in Hs by done. apply Forall_app in Hs as [Hs1 [Hs2 _]%list.Forall_cons_1]. specialize (Hs2 eq_refl).
  cbn [fst] in Hs2. unfold named_by in Hs2. rewrite HP in Hs2. destruct Hs2 as (p & ps & Ep & Hm).
  assert (Forall (fun p => matches_param flag abbr p = false) (command pre)) as Hn by (by eapply not_taken).
  rewrite !command_app, !command_cons. cbn [fst snd]. rewrite Ep. cbn [app].
  erewrite bind_ok; [|apply FindParam_here; [exact Hn|exact Hm]].
  cbn iota beta. erewrite bind_ok; [|apply at_length]. rewrite bind_gets, lookup_S_length.
  destruct s as [m short [|sep v|v]|v]; try done; cbn in Ep; injection Ep as <- <-; cbn [app].
  - destruct Hok as (_ & _ & _ & Hv). destruct v as [|c v]; [done|]. cbn. by destruct (command post).
  - cbn [lookup list_lookup param_value use empty used name negb andb]. rewrite bind_modify. by rewrite alter_S_length.
  - destruct Hok as [Hv _]. destruct v as [|c v]; [done|]. cbn. by destruct (command post).
Qed.

(** * Unused settings *)

Definition unused (P : setting -> bool) (ms : list (setting * bool)) : list setting :=
  fst <$> List.filter (fun su => negb (snd su) && P (fst su)) ms.
Definition mark_all (P : setting -> bool) (ms : list (setting * bool)) : list (setting * bool) :=
  (fun su => (fst su, snd su || P (fst su))) <$> ms.

Lemma unused_cons P s u ms :
  unused P ((s, u) :: ms) = if negb u && P s then s :: unused P ms else unused P ms.
Proof. unfold unused. cbn. by destruct (negb u && P s). Qed.

Lemma take_first_none P ms : take_first P ms = None -> unused P ms = [] /\ mark_all P ms = ms.
Proof.
  induction ms as [|[s u] ms IH]; [done|]. cbn [take_first]. rewrite unused_cons.
  destruct (negb u && P s) eqn:E; [done|]. destruct (take_first P ms) as [[s' r]|]; [done|].
  intros _. destruct (IH eq_refl) as [H1 H2]. split; [exact H1|].
  unfold mark_all in *. rewrite fmap_cons. rewrite H2. cbn. f_equal. f_equal. by destruct u, (P s).
Qed.

Lemma take_first_some P ms s ms' : take_first P ms = Some (s, ms') ->
  unused P ms = s :: unused P ms' /\ mark_all P ms' = mark_all P ms /\ P s = true /\ In (s, false) ms.
Proof.
  revert ms'. induction ms as [|[s0 u] ms IH]; intros ms'; [done|]. cbn [take_first]. rewrite unused_cons.
  destruct (negb u && P s0) eqn:E.
  - intros [= <- <-]. apply andb_true_iff in E as [Eu EP]. destruct u; [done|].
    rewrite unused_cons. cbn [negb andb]. unfold mark_all. rewrite !fmap_cons. cbn. rewrite EP.
    repeat split. by left.
  - destruct (take_first P ms) as [[s1 r]|]; [|done]. intros [= -> <-].
    destruct (IH r eq_refl) as (H1 & H2 & H3 & H4). rewrite unused_cons, E.
    unfold mark_all in *. rewrite !fmap_cons, H2. repeat split; [done..|by right].
Qed.

Lemma take_first_unused P ms s ms' x : take_first P ms = Some (s, ms') -> In (x, false) ms' -> In (x, false) ms.
Proof.
  intros E. pose proof (take_first_split P ms) as H. rewrite E in H.
  destruct H as (pre & post & -> & -> & _). rewrite !in_app_iff. intros [H|[[= ]|H]]; [by left|by right; right].
Qed.

Lemma unused_length P ms : (length (unused P ms) <= length (command ms))%nat.
Proof.
  induction ms as [|[s u] ms IH]; [done|]. rewrite unused_cons, command_cons, length_app.
  assert (1 <= length (params_of s u))%nat by (destruct s as [m short [|sep v|v]|v]; cbn; lia).
  cbn [fst snd]. destruct (negb u && P s); cbn [length]; lia.
Qed.

(** * What a reading of the options gives *)

Definition is_flag (t : opt_type) : bool := match t with ONumber TBool => true | _ => false end.
Definition is_list (t : opt_type) : bool := match t with OList _ => true | _ => false end.

Section Reading.
Context (ToEnum : nat -> text -> option Z).
Context (lexical_cast : btype -> text -> option scalar).
Context (tokenizer : text -> list text * bool).

Local Abbreviation Parse := (Parse ToEnum lexical_cast tokenizer).
Local Abbreviation GetParam := (GetParam ToEnum lexical_cast tokenizer).
Local Abbreviation GetParams := (GetParams ToEnum lexical_cast tokenizer).
Local Abbreviation Field := (Field ToEnum lexical_cast tokenizer).
Local Abbreviation ReadFields := (ReadFields ToEnum lexical_cast tokenizer).
Local Abbreviation Apply := (Apply ToEnum lexical_cast tokenizer).
Local Abbreviation GetArgs := (GetArgs ToEnum lexical_cast tokenizer).

Fixpoint parse_all (t : opt_type) (vs : list text) (var : opt_value) : outcome opt_value :=
  match vs with
  | [] => Ok var
  | v :: vs' => olet x := Parse t v var in parse_all t vs' x
  end.

(** What a field becomes when these values are given for it: a flag tells whether it was
    given; a list takes them all, and cannot be required; another field takes one, and keeps
    what it holds when it is optional and there is none. *)
Definition assign (f : field) (vs : list text) : outcome field :=
  let '(m, t, var) := f in
  match t with
  | ONumber TBool => Ok (m, t, VNumber (SBool (match vs with [] => false | _ => true end)))
  | OList _ =>
      olet v := parse_all t vs var in
      if IsOptional m then Ok (m, t, v) else Err (Thrown RuntimeError)
  | _ =>
      match vs with
      | [] => if IsOptional m then Ok f else Err (Thrown RuntimeError)
      | v :: _ => olet x := Parse t v var in Ok (m, t, x)
      end
  end.

(** The values for a field, and the arguments without a name that remain: a naked list takes
    them all, another naked field the first. *)
Definition values_for (f : field) (ss : list setting) (pos : list text) : list text * list text :=
  let '(m, t, _) := f in
  if IsNaked m then if is_list t then (pos, []) else (take 1 pos, drop 1 pos)
  else (value_of <$> List.filter (owned m) ss, pos).

Fixpoint read_fields (fs : list field) (ss : list setting) (pos : list text)
    : outcome (list field * list text) :=
  match fs with
  | [] => Ok ([], pos)
  | f :: fs' =>
      let '(vs, pos') := values_for f ss pos in
      olet f' := assign f vs in
      olet r := read_fields fs' ss pos' in
      Ok (f' :: fst r, snd r)
  end.

(** The base of an object is read before its own fields. *)
Fixpoint read_object (o : object) (ss : list setting) (pos : list text) : outcome (object * list text) :=
  match o with
  | [] => Ok ([], pos)
  | fs :: base =>
      olet b := read_object base ss pos in
      olet r := read_fields fs ss (snd b) in
      Ok (fst r :: fst b, snd r)
  end.

(** The whole: every argument has to be for some field, unless the reading is partial. *)
Definition read_command (partial : bool) (o : object) (ss : list setting) : outcome object :=
  olet r := read_object o ss (value_of <$> List.filter positional ss) in
  if partial then Ok (fst r)
  else match snd r with [] => Ok (fst r) | _ => Err (Thrown RuntimeError) end.

(** ** Computations on the parameters of settings *)

Definition takes {A} (m : M (list Param) A) (ms : list (setting * bool)) (o : outcome A)
    (ms' : list (setting * bool)) : Prop :=
  match o with
  | Ok a => m (command ms) = (Ok a, command ms')
  | Err e => fst (m (command ms)) = Err e
  end.

Lemma fst_bind_err {A B} (m : M (list Param) A) (k : A -> M (list Param) B) s e :
  fst (m s) = Err e -> fst (bind m k s) = Err e.
Proof. unfold bind. by destruct (m s) as [[a|e'] s']; intros [=->]. Qed.

(** The names of a field, and the settings ready to be taken for it. *)
Definition names (m : Metadata) : text * text := if IsNaked m then ([], []) else (Flag m, Abbr m).
Definition for_field (m : Metadata) : setting -> bool := if IsNaked m then positional else owned m.
Definition ready (m : Metadata) (bare : bool) (ms : list (setting * bool)) : Prop :=
  separates (for_field m) (fst (names m)) (snd (names m)) ms /\
  forall s, In (s, false) ms -> for_field m s = true -> setting_ok s /\ is_bare s = bare.

(** For one that takes a single value. *)
Definition ready_once (m : Metadata) (bare : bool) (ms : list (setting * bool)) : Prop :=
  separates (for_field m) (fst (names m)) (snd (names m)) (upto (for_field m) ms) /\
  forall s, In (s, false) ms -> for_field m s = true -> setting_ok s /\ is_bare s = bare.

Lemma ready_ready_once m bare ms : ready m bare ms -> ready_once m bare ms.
Proof. intros [H1 H2]. split; [by apply separates_upto|done]. Qed.

Lemma ready_take m bare ms s ms' : ready m bare ms -> take_first (for_field m) ms = Some (s, ms') -> ready m bare ms'.
Proof.
  intros [H1 H2] E. split.
  - apply Forall_forall. intros [x u] Hx Hu. cbn in Hu. subst u. unfold separates in H1.
    rewrite Forall_forall in H1. apply (H1 (x, false)); [|done].
    by eapply take_first_unused.
  - intros x Hx. apply H2. by eapply take_first_unused.
Qed.

Lemma value_nonempty s : setting_ok s -> is_bare s = false -> empty (value_of s) = false.
Proof. destruct s as [m short [|sep v|v]|v]; cbn; [done|intros (_&_&_&H)|intros (_&_&H&_)|intros [H _]]; by destruct v. Qed.

Lemma GetParam_ready m t var ms : ready_once m false ms ->
  GetParam m t var (command ms) =
    match take_first (for_field m) ms with
    | Some (s, ms') => (match Parse t (value_of s) var with Ok v => Ok (Some v) | Err e => Err e end, command ms')
    | None => (if IsOptional m then Ok None else Err (Thrown RuntimeError), command ms)
    end.
Proof.
  intros [H1 H2]. pose proof (GetParam_takes _ _ _ _ H1 H2) as E. unfold CmdArgs.GetParam.
  replace (if IsNaked m then GetParam_text [] [] else GetParam_text (Flag m) (Abbr m))
    with (GetParam_text (fst (names m)) (snd (names m))) by (unfold names; by destruct (IsNaked m)).
  destruct (take_first (for_field m) ms) as [[s ms']|] eqn:Et; erewrite bind_ok by exact E.
  - apply take_first_some in Et as (_ & _ & HP & Hin). destruct (H2 s Hin HP) as [Hs Hb].
    rewrite (value_nonempty s Hs Hb). by destruct (Parse t (value_of s) var).
  - cbn [empty]. by destruct (IsOptional m).
Qed.

Lemma GetParams_ready m t fuel var ms : ready m false ms -> (length (unused (for_field m) ms) < fuel)%nat ->
  takes (GetParams fuel m t var) ms
    (olet v := parse_all t (value_of <$> unused (for_field m) ms) var in
     if IsOptional m then Ok v else Err (Thrown RuntimeError)) (mark_all (for_field m) ms).
Proof.
  revert var ms. induction fuel as [|fuel IH]; intros var ms Hr Hf; [lia|].
  pose proof (GetParam_ready m t var ms (ready_ready_once _ _ _ Hr)) as E. cbn [CmdArgs.GetParams].
  destruct (take_first (for_field m) ms) as [[s ms']|] eqn:Et.
  - pose proof (ready_take _ _ _ _ _ Hr Et) as Hr'.
    apply take_first_some in Et as (Eu & Em & _ & _). rewrite Eu in *. cbn [length] in Hf.
    rewrite fmap_cons. cbn [parse_all]. specialize (fun v => IH v ms' Hr' ltac:(lia)). rewrite Em in IH.
    destruct (Parse t (value_of s) var) as [v|e]; cbn [obind].
    + specialize (IH v). unfold takes in *. destruct (obind _ _); by erewrite bind_ok by exact E.
    + cbn [takes]. by erewrite bind_err by exact E.
  - destruct (take_first_none _ _ Et) as [Eu Em]. rewrite Eu, Em. cbn [fmap list_fmap parse_all obind].
    unfold takes. destruct (IsOptional m); [by erewrite bind_ok by exact E|by erewrite bind_err by exact E].
Qed.

End Reading.

(** * Well-formed schemas and settings *)

Definition metas (fs : list field) : list Metadata := (fun f => fst (fst f)) <$> fs.

(** The options of a schema have different names, and a flag is not naked. *)
Record schema_ok (fs : list field) : Prop := {
  ok_names : forall m, In m (metas fs) -> option_ok m;
  ok_flags : NoDup (Flag <$> metas fs);
  ok_abbrs : forall m m', In m (metas fs) -> In m' (metas fs) ->
    HasAttribute m (lit "abbr") = true -> HasAttribute m' (lit "abbr") = true -> letter m = letter m' -> m = m';
  ok_bools : forall m t v, In (m, t, v) fs -> is_flag t = true -> IsNaked m = false
}.

(** The naked fields take the arguments without a name, and such an argument can also be
    the value of an option in the one before it.  When there is one for an option that is
    read after a naked field, the naked field is not a list, and finds an argument in
    front of it: the naked fields read before it take one each. *)
Definition naked_count (fs : list field) : nat := length (List.filter (fun f => IsNaked (fst (fst f))) fs).
Definition greedy (fs : list field) (ms : list (setting * bool)) : Prop :=
  forall pre m t v post before m' short w u after,
    fs = pre ++ (m, t, v) :: post -> IsNaked m = true ->
    ms = before ++ (Named m' short (Next w), u) :: after -> In m' (metas post) ->
    is_list t = false /\ (naked_count pre < length (unused positional before))%nat.

(** Settings of the fields of a schema: every name is an option's, a flag is given alone and
    another option with a value, and no option but a list is given twice. *)
Record settings_ok (fs : list field) (ss : list setting) : Prop := {
  ok_settings : forall s, In s ss -> setting_ok s;
  ok_owner : forall m short g, In (Named m short g) ss ->
    exists t v, In (m, t, v) fs /\ IsNaked m = false /\ is_bare (Named m short g) = is_flag t;
  ok_once : forall m t v, In (m, t, v) fs -> is_list t = false -> IsNaked m = false ->
    (length (List.filter (owned m) ss) <= 1)%nat;
  ok_greedy : greedy fs (unread ss)
}.

(** Between two fields: exactly the settings of the fields to come are unused. *)
Record state_ok (rs : list field) (ss : list setting) (ms : list (setting * bool)) (pos : list text) : Prop := {
  st_settings : fst <$> ms = ss;
  st_used : forall m short g u, In (Named m short g, u) ms -> (u = false <-> In m (metas rs));
  st_pos : value_of <$> unused positional ms = pos;
  st_greedy : greedy rs ms
}.

Lemma unused_all P ms : (forall s u, In (s, u) ms -> P s = true -> u = false) ->
  unused P ms = List.filter P (fst <$> ms).
Proof.
  induction ms as [|[s u] ms IH]; intros H; [done|]. rewrite unused_cons, fmap_cons. cbn [fst List.filter].
  rewrite IH by (intros s' u' Hin; apply H; by right).
  destruct (P s) eqn:E; [|by rewrite andb_false_r]. by rewrite (H s u (or_introl eq_refl) E).
Qed.

Lemma unused_mark_other P Q ms : (forall s, P s = true -> Q s = false) ->
  unused P (mark_all Q ms) = unused P ms.
Proof.
  intros H. induction ms as [|[s u] ms IH]; [done|]. unfold mark_all in *. rewrite fmap_cons, !unused_cons.
  cbn [fst snd]. rewrite IH. destruct (P s) eqn:E; [|by rewrite !andb_false_r].
  by rewrite (H s E), orb_false_r.
Qed.

Lemma unused_mark_same P ms : unused P (mark_all P ms) = [].
Proof.
  induction ms as [|[s u] ms IH]; [done|]. unfold mark_all in *. rewrite fmap_cons, unused_cons.
  cbn [fst snd]. rewrite IH. by destruct u, (P s).
Qed.

Lemma mark_all_fst P ms : fst <$> mark_all P ms = fst <$> ms.
Proof. unfold mark_all. rewrite <- list_fmap_compose. done. Qed.

Lemma in_mark_all P ms s u : In (s, u) (mark_all P ms) -> exists u0, In (s, u0) ms /\ u = u0 || P s.
Proof.
  unfold mark_all. intros ([s0 u0] & [= <- <-] & Hin)%in_map_iff. by exists u0.
Qed.

Lemma in_take_first P ms s ms' x u : take_first P ms = Some (s, ms') -> P x = false ->
  In (x, u) ms' -> In (x, u) ms.
Proof.
  intros E Hx. pose proof (take_first_split P ms) as H. rewrite E in H.
  destruct H as (pre & post & -> & -> & HP & _). rewrite !in_app_iff.
  intros [H|[[= -> ]|H]]; [by left|congruence|by right; right].
Qed.

Lemma take_first_fst P ms s ms' : take_first P ms = Some (s, ms') -> fst <$> ms' = fst <$> ms.
Proof.
  intros E. pose proof (take_first_split P ms) as H. rewrite E in H.
  destruct H as (pre & post & -> & -> & _). by rewrite !fmap_app.
Qed.

(** ** The arguments in front of a value *)

Lemma unused_app P ms1 ms2 : unused P (ms1 ++ ms2) = unused P ms1 ++ unused P ms2.
Proof. unfold unused. by rewrite List.filter_app, fmap_app. Qed.

Lemma upto_split P ms s : P s = false -> In (s, false) (upto P ms) ->
  exists before after, ms = before ++ (s, false) :: after /\ unused P before = [].
Proof.
  intros Hs. induction ms as [|[s0 u0] ms IH]; [done|]. cbn [upto]. intros [[= -> ->]|H].
  - by exists [], ms.
  - destruct (negb u0 && P s0) eqn:E; [done|]. destruct (IH H) as (before & after & -> & Eb).
    exists ((s0, u0) :: before), after. split; [done|]. by rewrite unused_cons, E.
Qed.

(** The same settings, with no more than [n] of a kind used in between. *)
Definition fewer (n : nat) (P : setting -> bool) (ms ms' : list (setting * bool)) : Prop :=
  forall before' x u' after', ms' = before' ++ (x, u') :: after' ->
    exists before u after, ms = before ++ (x, u) :: after /\
      (length (unused P before) <= n + length (unused P before'))%nat.

Lemma fewer_mark P Q ms : (forall s, P s = true -> Q s = false) -> fewer 0 P ms (mark_all Q ms).
Proof.
  intros HQ before' x u' after' E. unfold mark_all in E.
  apply fmap_app_inv in E as (before & rest & -> & Er & ->).
  destruct rest as [|[y u] after]; [done|]. rewrite fmap_cons in Er. injection Er as -> _ _.
  exists before, u, after. split; [done|]. change (_ <$> before) with (mark_all Q before).
  by rewrite unused_mark_other.
Qed.

Lemma fewer_take P ms s ms' : take_first P ms = Some (s, ms') -> fewer 1 P ms ms'.
Proof.
  intros E. pose proof (take_first_split P ms) as H. rewrite E in H.
  destruct H as (pre & post & -> & -> & HP & _). clear E.
  intros before' x u' after'. revert before'.
  induction pre as [|[y v] pre IH]; intros [|[z w] before'] E; cbn in E; simplify_eq.
  - by exists [], false, after'; cbn; split; [|lia].
  - exists ((z, false) :: before'), u', after'. split; [done|].
    rewrite !unused_cons, HP. cbn. lia.
  - exists [], u', (pre ++ (s, false) :: post). split; [done|]. cbn. lia.
  - rename select (_ ++ _ = _ ++ _) into E. destruct (IH _ E) as (before & u & after & E2 & Hl).
    exists ((z, w) :: before), u, after. split; [exact (f_equal (cons (z, w)) E2)|]. rewrite !unused_cons.
    destruct (negb w && P z); cbn [length]; lia.
Qed.

Lemma greedy_step f rs ms ms' n : greedy (f :: rs) ms -> fewer n positional ms ms' ->
  (n <= naked_count [f])%nat -> greedy rs ms'.
Proof.
  intros Hg Hf Hn pre m t v post before' m' short w u' after' -> Hm E Hin.
  destruct (Hf _ _ _ _ E) as (before & u & after & -> & Hl).
  destruct (Hg (f :: pre) m t v post _ _ _ _ _ _ eq_refl Hm eq_refl Hin) as [Ht Hc]. split; [exact Ht|].
  unfold naked_count in *. cbn [List.filter] in *.
  destruct (IsNaked (fst (fst f))); cbn [length] in *; lia.
Qed.

(** After a naked list there is no such value. *)
Lemma greedy_after_list m t v rs ms ms' : greedy ((m, t, v) :: rs) ms -> IsNaked m = true ->
  is_list t = true -> fst <$> ms' = fst <$> ms -> greedy rs ms'.
Proof.
  intros Hg Hm Hl Ef pre m1 t1 v1 post before' m' short w u' after' -> _ -> Hin. exfalso.
  rewrite fmap_app, fmap_cons in Ef. cbn [fst] in Ef. symmetry in Ef.
  apply fmap_app_inv in Ef as (before & rest & _ & Er & ->).
  destruct rest as [|[y u] after]; [done|]. rewrite fmap_cons in Er. injection Er as <- _.
  destruct (Hg [] m t v _ before m' short w u after eq_refl Hm eq_refl) as [Ht _]; [|congruence].
  unfold metas in *. rewrite fmap_app, fmap_cons. apply in_or_app. right. by right.
Qed.

Section State.
Context (fs : list field) (ss : list setting).
Hypothesis Hfs : schema_ok fs.
Hypothesis Hss : settings_ok fs ss.

Lemma flag_unique m m' : In m (metas fs) -> In m' (metas fs) -> Flag m = Flag m' -> m = m'.
Proof.
  intros H1 H2 E. apply list_elem_of_In, list_elem_of_lookup in H1 as [i Hi], H2 as [j Hj].
  assert (i = j) as ->; [|congruence].
  eapply (proj1 (NoDup_alt _) (ok_flags _ Hfs)); rewrite list_lookup_fmap; [by rewrite Hi|rewrite Hj; symmetry; exact (f_equal Some E)].
Qed.

Lemma type_unique m t v t' v' : In (m, t, v) fs -> In (m, t', v') fs -> t = t'.
Proof.
  intros H1 H2. apply list_elem_of_In, list_elem_of_lookup in H1 as [i Hi], H2 as [j Hj].
  assert (i = j) as ->; [|congruence].
  eapply (proj1 (NoDup_alt _) (ok_flags _ Hfs)); unfold metas; rewrite !list_lookup_fmap; [by rewrite Hi|by rewrite Hj].
Qed.

Lemma Abbr_unique m m' : In m (metas fs) -> In m' (metas fs) -> HasAttribute m (lit "abbr") = true ->
  Abbr m = Abbr m' -> m = m'.
Proof.
  intros H1 H2 Ha E. destruct (HasAttribute m' (lit "abbr")) eqn:Ha'.
  - apply (ok_abbrs _ Hfs); [done..|]. rewrite !Abbr_letter in E by done. congruence.
  - unfold Abbr in E. by rewrite Ha, Ha' in E.
Qed.

Lemma Flag_not_Abbr m m' : In m (metas fs) -> Abbr m = Flag m' -> False.
Proof.
  intros H E. destruct (HasAttribute m (lit "abbr")) eqn:Ha.
  - rewrite Abbr_letter in E by done. destruct (ok_abbr _ (ok_names _ Hfs m H) Ha) as (c & El & Hd & _).
    rewrite El in E. unfold Flag in E. by injection E as ->.
  - unfold Abbr in E. rewrite Ha in E. done.
Qed.

Lemma shown_nonempty m short : has_abbr m short -> shown m short <> [].
Proof. destruct short; cbn; [|done]. intros Ha. by rewrite (Abbr_letter m (Ha eq_refl)). Qed.

(** The names of a field are borne by its settings only. *)
Lemma matches_shown m m' short v : In m (metas fs) -> In m' (metas fs) -> has_abbr m' short ->
  matches_param (Flag m) (Abbr m) (mkParam (shown m' short) v false) = bool_decide (Flag m' = Flag m).
Proof.
  intros Hm Hm' Ha. unfold matches_param. cbn [used name negb andb].
  destruct (decide (Flag m' = Flag m)) as [E|Hne].
  - rewrite (bool_decide_true (Flag m' = Flag m)) by done. apply flag_unique in E as ->; [|done..].
    destruct short; cbn [shown]; [|by rewrite bool_decide_true].
    rewrite (bool_decide_true (Abbr m = Abbr m)) by done. rewrite (Abbr_letter m (Ha eq_refl)). apply orb_true_r.
  - rewrite (bool_decide_false (Flag m' = Flag m)) by done. destruct short; cbn [shown].
    + rewrite bool_decide_false by (intros E; exact (Flag_not_Abbr m' m Hm' E)).
      rewrite bool_decide_false; [done|]. intros E.
      apply (Abbr_unique m' m) in E; [congruence|done..|by apply Ha].
    + rewrite bool_decide_false by done.
      rewrite bool_decide_false; [done|]. intros E. exact (Flag_not_Abbr m m' Hm (eq_sym E)).
Qed.

Lemma matches_unnamed m v u : In m (metas fs) -> matches_param (Flag m) (Abbr m) (mkParam [] v u) = false.
Proof.
  intros Hm. unfold matches_param. cbn [used name]. destruct u; [done|]. cbn [negb andb].
  rewrite bool_decide_false by done. destruct (Abbr m); by rewrite ?andb_false_r.
Qed.

Lemma owner_in m short g : In (Named m short g) ss -> In m (metas fs).
Proof.
  intros H. destruct (ok_owner _ _ Hss _ _ _ H) as (t & v & Hin & _).
  apply in_map_iff. by exists (m, t, v).
Qed.

Lemma setting_of_state rs ms pos s u : state_ok rs ss ms pos -> In (s, u) ms -> In s ss.
Proof. intros [<- _ _] H. apply in_map_iff. by exists (s, u). Qed.

(** A field that is not naked. *)
Lemma ready_named m t v rs ms pos : In (m, t, v) fs -> IsNaked m = false -> state_ok rs ss ms pos ->
  ready m (is_flag t) ms.
Proof.
  intros Hin Hn Hst. assert (In m (metas fs)) as Hm by (apply in_map_iff; by exists (m, t, v)).
  unfold ready, names, for_field. rewrite Hn. split.
  - apply Forall_forall. intros [s u] Hs Hu. cbn in Hu. subst u. cbn [fst snd].
    apply (setting_of_state _ _ _ _ _ Hst) in Hs. unfold named_by. destruct s as [m' short g|w].
    + pose proof (ok_settings _ _ Hss _ Hs) as (_ & Ha & _). pose proof (owner_in _ _ _ Hs) as Hm'.
      cbn [owned]. pose proof (fun w => matches_shown m m' short w Hm Hm' Ha) as E.
      destruct (bool_decide (Flag m' = Flag m)).
      * destruct g as [|sep w|w]; eexists _, _; (split; [reflexivity|apply E]).
      * destruct g as [|sep w|w]; repeat constructor; first [apply E|by apply matches_unnamed].
    + constructor; [by apply matches_unnamed|constructor].
  - intros s Hs Ho. apply (setting_of_state _ _ _ _ _ Hst) in Hs.
    split; [by apply (ok_settings _ _ Hss)|]. destruct s as [m' short g|w]; [|done].
    destruct (ok_owner _ _ Hss _ _ _ Hs) as (t' & v' & Hin' & _ & ->).
    cbn in Ho. apply bool_decide_eq_true in Ho. apply flag_unique in Ho as ->; [|by eapply owner_in|done].
    by rewrite (type_unique _ _ _ _ _ Hin' Hin).
Qed.

(** A naked field. *)
Lemma naked_names pre m t v rs ms pos su : fs = pre ++ (m, t, v) :: rs -> IsNaked m = true ->
  state_ok ((m, t, v) :: rs) ss ms pos -> In su ms -> snd su = false ->
  (forall m' short w, su = (Named m' short (Next w), false) -> ~ In m' (metas rs)) ->
  named_by positional [] [] (fst su).
Proof.
  intros Efs Hn Hst Hs Hu Hx. destruct su as [s u]. cbn in Hu. subst u. cbn [fst snd].
  pose proof (setting_of_state _ _ _ _ _ Hst Hs) as Hs'. unfold named_by.
  destruct s as [m' short g|w]; [|by eexists _, _].
  pose proof (ok_settings _ _ Hss _ Hs') as (_ & Ha & _). cbn [positional].
  assert (forall w, matches_param [] [] (mkParam (shown m' short) w false) = false) as E.
  { intros w. unfold matches_param. cbn. rewrite bool_decide_false by (by apply shown_nonempty). by rewrite andb_false_r. }
  destruct g as [|sep w|w]; cbn [params_of]; repeat constructor; try apply E. exfalso.
  apply (Hx m' short w eq_refl).
  pose proof (proj1 (st_used _ _ _ _ Hst _ _ _ _ Hs) eq_refl) as H.
  destruct H as [<-|H]; [|exact H]. cbn in Hn.
  destruct (ok_owner _ _ Hss _ _ _ Hs') as (_ & _ & _ & Hn' & _). cbn in Hn'. congruence.
Qed.

Lemma naked_settings m rs ms pos : IsNaked m = true -> state_ok rs ss ms pos ->
  forall s, In (s, false) ms -> for_field m s = true -> setting_ok s /\ is_bare s = false.
Proof.
  intros Hn Hst s Hs Ho. apply (setting_of_state _ _ _ _ _ Hst) in Hs. unfold for_field in Ho. rewrite Hn in Ho.
  split; [by apply (ok_settings _ _ Hss)|]. by destruct s.
Qed.

Lemma ready_naked pre m t v rs ms pos : fs = pre ++ (m, t, v) :: rs -> IsNaked m = true ->
  state_ok ((m, t, v) :: rs) ss ms pos ->
  if is_list t then ready m false ms else ready_once m false ms.
Proof.
  intros Efs Hn Hst. pose proof (st_greedy _ _ _ _ Hst) as Hg.
  unfold ready, ready_once, separates. unfold names. rewrite Hn. cbn [fst snd].
  replace (for_field m) with positional by (unfold for_field; by rewrite Hn).
  assert (Hset := naked_settings m _ _ _ Hn Hst). unfold for_field in Hset. rewrite Hn in Hset.
  destruct (is_list t) eqn:Hl; (split; [|exact Hset]); apply Forall_forall; intros su Hs Hu.
  - eapply naked_names; [done..|]. intros m' short w -> Hin.
    apply list_elem_of_In, list_elem_of_split in Hs as (before & after & E).
    destruct (Hg [] _ _ _ _ _ _ _ _ _ _ eq_refl Hn E Hin) as [Hf _]. congruence.
  - eapply naked_names; [done..|by eapply upto_In|done|]. intros m' short w -> Hin.
    destruct (upto_split _ _ _ (eq_refl : positional (Named m' short (Next w)) = false) Hs)
      as (before & after & E & Eb).
    destruct (Hg [] _ _ _ _ _ _ _ _ _ _ eq_refl Hn E Hin) as [_ Hc]. rewrite Eb in Hc. cbn in Hc. lia.
Qed.

(** The settings of a field to come are unused. *)
Lemma unused_owned m t v rs ms pos : In (m, t, v) fs -> state_ok ((m, t, v) :: rs) ss ms pos ->
  unused (owned m) ms = List.filter (owned m) ss.
Proof.
  intros Hin Hst. rewrite <- (st_settings _ _ _ _ Hst). apply unused_all.
  intros s u Hs Ho. destruct s as [m' short g|w]; [|done]. cbn in Ho. apply bool_decide_eq_true in Ho.
  pose proof (setting_of_state _ _ _ _ _ Hst Hs) as Hs'. apply owner_in in Hs'.
  apply flag_unique in Ho as ->; [|done|apply in_map_iff; by exists (m, t, v)].
  apply (st_used _ _ _ _ Hst _ _ _ _ Hs). by left.
Qed.

Lemma state_named pre m t v rs ms pos : fs = pre ++ (m, t, v) :: rs ->
  state_ok ((m, t, v) :: rs) ss ms pos -> state_ok rs ss (mark_all (owned m) ms) pos.
Proof.
  intros Efs Hst. constructor.
  - rewrite mark_all_fst. apply (st_settings _ _ _ _ Hst).
  - intros m' short g u (u0 & Hin & ->)%in_mark_all.
    pose proof (st_used _ _ _ _ Hst _ _ _ _ Hin) as H. cbn [owned].
    assert (In m (metas fs)) as Hm by (rewrite Efs; unfold metas; rewrite fmap_app; apply in_or_app; right; by left).
    assert (In m' (metas rs) -> Flag m' <> Flag m) as Hd.
    { intros Hr E. pose proof (ok_flags _ Hfs) as Hnd. rewrite Efs in Hnd. unfold metas in Hnd.
      rewrite !fmap_app, !fmap_cons in Hnd. apply list.NoDup_app in Hnd as (_ & _ & [Hnd _]%list.NoDup_cons).
      apply Hnd. cbn [fst]. rewrite <- E. by apply list_elem_of_fmap_2, list_elem_of_In. }
    destruct (decide (Flag m' = Flag m)) as [E|E].
    + rewrite bool_decide_true by done. rewrite orb_true_r. split; [done|]. intros Hr. by apply Hd in Hr.
    + rewrite bool_decide_false, orb_false_r by done. rewrite H. cbn. split; [|by right].
      intros [<-|Hr]; done.
  - rewrite unused_mark_other by (by intros []). apply (st_pos _ _ _ _ Hst).
  - eapply greedy_step; [exact (st_greedy _ _ _ _ Hst)|apply fewer_mark; by intros []|lia].
Qed.

Lemma state_naked pre m t v rs ms ms' pos pos' : fs = pre ++ (m, t, v) :: rs -> IsNaked m = true ->
  state_ok ((m, t, v) :: rs) ss ms pos -> fst <$> ms' = fst <$> ms ->
  (forall s u, positional s = false -> In (s, u) ms' -> In (s, u) ms) ->
  value_of <$> unused positional ms' = pos' -> greedy rs ms' -> state_ok rs ss ms' pos'.
Proof.
  intros Efs Hn Hst E1 E2 E3 E4. constructor.
  - rewrite E1. apply (st_settings _ _ _ _ Hst).
  - intros m' short g u Hin. apply E2 in Hin; [|done]. rewrite (st_used _ _ _ _ Hst _ _ _ _ Hin). cbn.
    split; [|by right]. intros [<-|Hr]; [|done]. cbn in Hn.
    apply (setting_of_state _ _ _ _ _ Hst) in Hin.
    destruct (ok_owner _ _ Hss _ _ _ Hin) as (_ & _ & _ & Hn' & _). cbn in Hn'. congruence.
  - exact E3.
  - exact E4.
Qed.

(** A naked field that is not a list takes one argument at most. *)
Lemma greedy_taken m t v rs ms pos : IsNaked m = true -> state_ok ((m, t, v) :: rs) ss ms pos ->
  greedy rs (match take_first positional ms with Some (_, ms') => ms' | None => ms end).
Proof.
  intros Hn Hst. eapply greedy_step; [exact (st_greedy _ _ _ _ Hst)| |].
  - destruct (take_first positional ms) as [[s ms']|] eqn:Et; [by eapply fewer_take|].
    intros before x u after ->. exists before, u, after. split; [done|]. lia.
  - unfold naked_count. cbn [List.filter fst]. by rewrite Hn.
Qed.

Lemma take_named m t v rs ms pos : In (m, t, v) fs -> is_list t = false -> IsNaked m = false ->
  state_ok ((m, t, v) :: rs) ss ms pos ->
  match take_first (owned m) ms with Some (_, ms') => ms' | None => ms end = mark_all (owned m) ms /\
  head (value_of <$> List.filter (owned m) ss) = (fun r => value_of (fst r)) <$> take_first (owned m) ms.
Proof.
  intros Hin Hl Hn Hst. pose proof (ok_once _ _ Hss m t v Hin Hl Hn) as Hone.
  rewrite <- (unused_owned _ _ _ _ _ _ Hin Hst) in *.
  destruct (take_first (owned m) ms) as [[s ms']|] eqn:Et.
  - destruct (take_first_some _ _ _ _ Et) as (Eu & Em & _ & _). rewrite Eu in *. split; [|done].
    cbn [length] in Hone. destruct (take_first (owned m) ms') as [[s' ms'']|] eqn:Et'.
    + apply take_first_some in Et' as (Eu' & _). rewrite Eu' in Hone. cbn [length] in Hone. lia.
    + by apply take_first_none in Et' as [_ <-].
  - by destruct (take_first_none _ _ Et) as [-> ->].
Qed.
End State.

(** * The fields of an object *)

Section Objects.
Context (ToEnum : nat -> text -> option Z).
Context (lexical_cast : btype -> text -> option scalar).
Context (tokenizer : text -> list text * bool).
Context (fs : list field) (ss : list setting).
Hypothesis Hfs : schema_ok fs.
Hypothesis Hss : settings_ok fs ss.

Local Abbreviation Parse := (Parse ToEnum lexical_cast tokenizer).
Local Abbreviation GetParam := (GetParam ToEnum lexical_cast tokenizer).
Local Abbreviation Field := (Field ToEnum lexical_cast tokenizer).
Local Abbreviation ReadFields := (ReadFields ToEnum lexical_cast tokenizer).
Local Abbreviation Apply := (Apply ToEnum lexical_cast tokenizer).
Local Abbreviation assign := (assign ToEnum lexical_cast tokenizer).
Local Abbreviation read_fields := (read_fields ToEnum lexical_cast tokenizer).
Local Abbreviation read_object := (read_object ToEnum lexical_cast tokenizer).

Definition assign_one (m : Metadata) (t : opt_type) (var : opt_value) (vs : list text) : outcome field :=
  match vs with
  | [] => if IsOptional m then Ok (m, t, var) else Err (Thrown RuntimeError)
  | v :: _ => olet x := Parse t v var in Ok (m, t, x)
  end.

Lemma assign_other m t var vs : is_flag t = false -> is_list t = false ->
  assign (m, t, var) vs = assign_one m t var vs /\
  Field (m, t, var) = let! r := GetParam m t var in ret (m, t, default var r).
Proof. destruct t as [| [] | | |]; done. Qed.

Lemma one_value m t var ms vs : ready_once m false ms ->
  head vs = (fun r => value_of (fst r)) <$> take_first (for_field m) ms ->
  takes (let! r := GetParam m t var in ret (m, t, default var r)) ms (assign_one m t var vs)
    (match take_first (for_field m) ms with Some (_, ms') => ms' | None => ms end).
Proof.
  intros Hr Eh. pose proof (GetParam_ready ToEnum lexical_cast tokenizer m t var ms Hr) as E.
  destruct (take_first (for_field m) ms) as [[s ms']|]; destruct vs as [|v vs]; try done; cbn in Eh.
  - injection Eh as ->. cbn [assign_one]. unfold takes.
    destruct (Parse t (value_of s) var); cbn [obind]; [by erewrite bind_ok by exact E|by erewrite bind_err by exact E].
  - cbn [assign_one]. unfold takes.
    destruct (IsOptional m); [by erewrite bind_ok by exact E|by erewrite bind_err by exact E].
Qed.

Lemma list_option_value m t var ms : is_list t = true -> ready m false ms ->
  takes (Field (m, t, var)) ms (assign (m, t, var) (value_of <$> unused (for_field m) ms))
    (mark_all (for_field m) ms).
Proof.
  intros Hl Hr. destruct t as [| | |t'|]; try done. cbn [CmdArgs.Field CmdArgsCorrect.assign].
  pose proof (GetParams_ready ToEnum lexical_cast tokenizer m (OList t') (S (length (command ms))) var ms Hr) as H.
  specialize (H ltac:(pose proof (unused_length (for_field m) ms); lia)).
  unfold takes in *. rewrite bind_gets. cbv beta.
  destruct (parse_all _ _ _ _ _ _) as [v|e]; cbn [obind] in *; [destruct (IsOptional m)|].
  - by erewrite bind_ok by exact H.
  - by apply fst_bind_err.
  - by apply fst_bind_err.
Qed.

Lemma flag_value m t var rs ms pos : In (m, t, var) fs -> is_flag t = true -> IsNaked m = false ->
  state_ok ((m, t, var) :: rs) ss ms pos ->
  takes (Field (m, t, var)) ms (assign (m, t, var) (value_of <$> List.filter (owned m) ss))
    (mark_all (owned m) ms).
Proof.
  intros Hin Ht Hn Hst. pose proof (ready_named fs ss Hfs Hss _ _ _ _ _ _ Hin Hn Hst) as [H1 H2].
  unfold for_field, names in H1, H2. rewrite Hn in H1, H2.
  destruct (take_named fs ss Hfs Hss _ _ _ _ _ _ Hin ltac:(by destruct t as [|[]| | |]) Hn Hst) as [<- Eh].
  destruct t as [|[]| | |]; try done. cbn [CmdArgs.Field CmdArgsCorrect.assign].
  pose proof (GetFlag_takes _ _ _ _ H1 (fun s Hs HP => proj2 (H2 s Hs HP))) as E.
  destruct (take_first (owned m) ms) as [[s ms']|]; destruct (value_of <$> _); try done; cbn [takes];
    by erewrite bind_ok by exact E.
Qed.

Lemma Field_step pre f rs ms pos : fs = pre ++ f :: rs -> state_ok (f :: rs) ss ms pos ->
  exists ms', takes (Field f) ms (assign f (fst (values_for f ss pos))) ms' /\
    state_ok rs ss ms' (snd (values_for f ss pos)).
Proof.
  destruct f as [[m t] var]. intros Efs Hst.
  assert (In (m, t, var) fs) as Hin by (rewrite Efs; apply in_or_app; right; by left).
  unfold values_for. destruct (IsNaked m) eqn:Hn.
  - pose proof (ready_naked fs ss Hss _ _ _ _ _ _ _ Efs Hn Hst) as Hr.
    assert (is_flag t = false) as Hf
      by (destruct (is_flag t) eqn:Hf; [|done]; rewrite (ok_bools _ Hfs _ _ _ Hin Hf) in Hn; done).
    assert (for_field m = positional) as Ef by (unfold for_field; by rewrite Hn).
    pose proof (st_pos _ _ _ _ Hst) as Ep. destruct (is_list t) eqn:Hl; cbn [fst snd]; cbv iota in Hr.
    + pose proof (list_option_value m t var ms Hl Hr) as H. rewrite Ef, Ep in H. exists (mark_all positional ms).
      split; [exact H|]. eapply state_naked; [exact Hss|exact Efs|exact Hn|exact Hst|apply mark_all_fst| |by rewrite unused_mark_same|].
      2:{ eapply greedy_after_list; [exact (st_greedy _ _ _ _ Hst)|done|done|apply mark_all_fst]. }
      intros s u Hp (u0 & H0 & ->)%in_mark_all. by rewrite Hp, orb_false_r.
    + destruct (assign_other m t var (take 1 pos) Hf Hl) as [-> ->].
      exists (match take_first (for_field m) ms with Some (_, ms') => ms' | None => ms end).
      rewrite Ef. split.
      * rewrite <- Ef. apply one_value; [exact Hr|]. rewrite Ef, <- Ep.
        destruct (take_first positional ms) as [[s ms']|] eqn:Et.
        { by apply take_first_some in Et as [-> _]. } by apply take_first_none in Et as [-> _].
      * pose proof (greedy_taken _ _ _ _ _ _ _ Hn Hst) as Hg.
        destruct (take_first positional ms) as [[s ms']|] eqn:Et.
        { eapply state_naked; [exact Hss|exact Efs|exact Hn|exact Hst|by eapply take_first_fst| | |exact Hg].
          - intros x u Hx. by eapply in_take_first.
          - rewrite <- Ep. by apply take_first_some in Et as [-> _]. }
        eapply state_naked; [exact Hss|exact Efs|exact Hn|exact Hst|done|done| |exact Hg].
        rewrite <- Ep. by apply take_first_none in Et as [-> _].
  - assert (for_field m = owned m) as Ef by (unfold for_field; by rewrite Hn).
    exists (mark_all (owned m) ms). cbn [fst snd]. split; [|by eapply state_named].
    destruct (is_flag t) eqn:Hf; [by eapply flag_value|].
    pose proof (ready_named fs ss Hfs Hss _ _ _ _ _ _ Hin Hn Hst) as Hr. rewrite Hf in Hr.
    destruct (is_list t) eqn:Hl.
    + pose proof (list_option_value m t var ms Hl Hr) as H. rewrite Ef in H.
      by rewrite (unused_owned fs ss Hfs Hss _ _ _ _ _ _ Hin Hst) in H.
    + destruct (assign_other m t var (value_of <$> List.filter (owned m) ss) Hf Hl) as [-> ->].
      destruct (take_named fs ss Hfs Hss _ _ _ _ _ _ Hin Hl Hn Hst) as [<- Eh].
      rewrite <- Ef in *. apply one_value; [by apply ready_ready_once|done].
Qed.

Lemma ReadFields_steps fs1 pre post ms pos : fs = pre ++ fs1 ++ post -> state_ok (fs1 ++ post) ss ms pos ->
  exists ms' pos', takes (ReadFields fs1) ms (olet r := read_fields fs1 ss pos in Ok (fst r)) ms' /\
    (forall r, read_fields fs1 ss pos = Ok r -> snd r = pos') /\ state_ok post ss ms' pos'.
Proof.
  revert pre ms pos. induction fs1 as [|f fs1 IH]; intros pre ms pos Efs Hst.
  - exists ms, pos. by split; [|split; [intros r [= <-]|]].
  - cbn [app] in Efs, Hst. destruct (Field_step _ _ _ _ _ Efs Hst) as (ms1 & Hy & Hst1).
    cbn [CmdArgsCorrect.read_fields CmdArgs.ReadFields].
    destruct (values_for f ss pos) as [vs pos1]. cbn [fst snd] in *.
    destruct (IH (pre ++ [f]) ms1 pos1 ltac:(by rewrite <- app_assoc) Hst1) as (ms' & pos' & Hy' & Hp & Hst').
    exists ms', pos'. split; [|split; [|exact Hst']].
    + destruct (assign f vs) as [f'|e]; cbn [obind takes] in *; [|by apply fst_bind_err].
      destruct (read_fields fs1 ss pos1) as [r|e]; cbn [obind takes fst] in *;
        erewrite bind_ok by exact Hy; [by erewrite bind_ok by exact Hy'|by apply fst_bind_err].
    + intros r. destruct (assign f vs); cbn [obind]; [|done].
      destruct (read_fields fs1 ss pos1) as [r'|]; cbn [obind]; [|done]. intros [= <-]. exact (Hp _ eq_refl).
Qed.

(** The fields of an object, from the most basic level. *)
Fixpoint flat (o : object) : list field := match o with [] => [] | fs :: base => flat base ++ fs end.

Lemma Apply_base partial fields base :
  Apply partial (fields :: base) =
    let! base' := Apply true base in let! fields' := ReadFields fields in
    End partial ;;; ret (fields' :: base').
Proof. by destruct base. Qed.

Lemma Apply_steps o pre post ms pos : fs = pre ++ flat o ++ post -> state_ok (flat o ++ post) ss ms pos ->
  exists ms' pos', takes (Apply true o) ms (olet r := read_object o ss pos in Ok (fst r)) ms' /\
    (forall r, read_object o ss pos = Ok r -> snd r = pos') /\ state_ok post ss ms' pos'.
Proof.
  revert pre post ms pos. induction o as [|fields base IH]; intros pre post ms pos Efs Hst.
  - exists ms, pos. by split; [|split; [intros r [= <-]|]].
  - cbn [flat] in Efs, Hst. rewrite <- app_assoc in Efs, Hst.
    destruct (IH _ _ _ _ Efs Hst) as (ms1 & pos1 & Hy & Hp1 & Hst1).
    destruct (ReadFields_steps fields (pre ++ flat base) post ms1 pos1) as (ms' & pos' & Hy' & Hp & Hst');
      [by rewrite Efs, <- app_assoc|done|]. exists ms', pos'.
    rewrite Apply_base. cbn [CmdArgsCorrect.read_object]. split; [|split; [|exact Hst']].
    + destruct (read_object base ss pos) as [b|e]; cbn [obind takes] in *; [|by apply fst_bind_err].
      rewrite (Hp1 _ eq_refl).
      destruct (read_fields fields ss pos1) as [r|e]; cbn [obind takes fst] in *;
        erewrite bind_ok by exact Hy; [by erewrite bind_ok by exact Hy'|by apply fst_bind_err].
    + intros r. destruct (read_object base ss pos) as [b|]; cbn [obind]; [|done]. rewrite (Hp1 _ eq_refl).
      destruct (read_fields fields ss pos1) as [r'|]; cbn [obind]; [|done]. intros [= <-]. exact (Hp _ eq_refl).
Qed.
End Objects.

(** ** What is left over *)

Lemma Leftovers_empty params : Leftovers params = [] <-> Forall (fun p => used p = true) params.
Proof.
  induction params as [|p params IH]; [done|]. unfold Leftovers in *. rewrite bind_cons.
  destruct (used p) eqn:E; cbn [negb].
  - cbn [app]. rewrite IH. split; [by constructor|by intros [_ H]%list.Forall_cons_1].
  - split; [done|]. intros [H _]%list.Forall_cons_1. congruence.
Qed.

Lemma Leftovers_app ps1 ps2 : Leftovers (ps1 ++ ps2) = Leftovers ps1 ++ Leftovers ps2.
Proof. apply bind_app. Qed.

Lemma leftovers_state ss ms pos : state_ok [] ss ms pos ->
  empty (Leftovers (command ms)) = match pos with [] => true | _ => false end.
Proof.
  intros [_ Hu <- _]. assert (forall s u, In (s, u) ms -> u = true \/ positional s = true) as Hall.
  { intros [m short g|v] u Hin; [|by right]. left. specialize (Hu _ _ _ _ Hin). cbn in Hu. destruct u; [done|].
    by destruct (proj1 Hu eq_refl). }
  clear Hu. induction ms as [|[s u] ms IH]; [done|].
  rewrite command_cons, Leftovers_app, unused_cons. cbn [fst snd].
  destruct (Hall s u (or_introl eq_refl)) as [-> |Hp].
  - cbn [negb andb]. rewrite (proj2 (Leftovers_empty (params_of s true))).
    + cbn [app]. apply IH. intros s' u' Hin. apply Hall. by right.
    + destruct s as [m short [|sep w|w]|w]; repeat constructor.
  - destruct s as [|w]; [done|]. destruct u; [|done]. cbn [negb andb params_of].
    apply IH. intros s' u' Hin. apply Hall. by right.
Qed.

Lemma state_start ss fs : settings_ok fs ss ->
  state_ok fs ss (unread ss) (value_of <$> List.filter positional ss).
Proof.
  intros Hss. constructor.
  - unfold unread. rewrite <- list_fmap_compose. by rewrite list_fmap_id.
  - intros m short g u (s & [= -> <-] & Hin)%in_map_iff. split; [|done]. intros _. by eapply owner_in.
  - f_equal. rewrite unused_all.
    + f_equal. unfold unread. rewrite <- list_fmap_compose. by rewrite list_fmap_id.
    + intros s u (s' & [= -> <-] & _)%in_map_iff. done.
  - exact (ok_greedy _ _ Hss).
Qed.

(** * The command line as a whole *)

(** A command line for an object: its schema, its arguments, the settings in them. *)
Record command_ok (options : object) (args : list argument) : Prop := {
  ok_levels : options <> [];
  ok_schema : schema_ok (flat options);
  ok_arguments : Forall argument_ok args;
  ok_given : settings_ok (flat options) (args ≫= settings_of)
}.

(** C19: [GetArgs], partial or not, refines a reading of the options by name.  The command
    line gives each option by its flag or its letter, its value attached with [=] or [:] or in
    the next argument, flags packed in front of another option's letter, in any order; the
    object read is the one that takes, field after field from the most basic level, the values
    given for the field's name in their order (a naked field those without a name), with every
    error of the code: a value that does not parse, a required field without a value, and, if
    the reading is not partial, an argument without a name for no field.  The command lines
    are those of [command_ok]: the options of the schema have different flags and
    abbreviations, of one letter, and no separator in a name, and a [bool] is not naked; every
    named argument is for one of them, alone for a [bool] and with a value that is not empty
    otherwise; no option but a list is given twice; a value in an argument of its own, and an
    argument without a name, is not empty and does not begin with a dash unless it is [-] or [--].  Such values
    and the arguments without a name can be mixed as [greedy] says: the code gives a naked
    field the first of them it finds unused, so a value of an option that is read after a
    naked field has enough arguments without a name in front of it for the naked fields read
    before the option, none of which is a list. *)
Theorem command_line_read ToEnum lexical_cast tokenizer options program args partial :
  command_ok options args ->
  GetArgs ToEnum lexical_cast tokenizer options (program :: concat (render <$> args)) partial =
    read_command ToEnum lexical_cast tokenizer partial options (args ≫= settings_of).
Proof.
  intros [Hne Hfs Hargs Hss]. unfold GetArgs, read_command. rewrite (Options_render _ _ Hargs).
  pose proof (state_start _ _ Hss) as Hst. set (ss := args ≫= settings_of) in *.
  destruct options as [|fields base]; [done|]. cbn [flat] in *. rewrite Apply_base. cbn [read_object].
  destruct (Apply_steps ToEnum lexical_cast tokenizer _ ss Hfs Hss base [] fields _ _ eq_refl Hst)
    as (ms1 & pos1 & Hy & Hp1 & Hst1).
  destruct (ReadFields_steps ToEnum lexical_cast tokenizer _ ss Hfs Hss fields (flat base) [] ms1 pos1)
    as (ms' & pos' & Hy' & Hp & Hst'); [by rewrite app_nil_r|by rewrite app_nil_r|].
  destruct (read_object _ _ _ base ss _) as [b|e]; cbn [obind takes] in *; [|by apply fst_bind_err].
  rewrite (Hp1 _ eq_refl).
  destruct (read_fields _ _ _ fields ss pos1) as [r|e]; cbn [obind takes fst snd] in *;
    erewrite bind_ok by exact Hy; [|by apply fst_bind_err].
  erewrite bind_ok by exact Hy'. rewrite (Hp _ eq_refl). unfold End. destruct partial; cbn [negb]; [done|].
  rewrite bind_assoc, bind_gets, (leftovers_state _ _ _ Hst'). by destruct pos'.
Qed.

(** ** A command line *)

Definition sample_ToEnum (e : nat) (v : text) : option Z :=
  match v with [c] => if (97 <=? c) && (c <=? 99) then Some (c - 97) else None | _ => None end.
Definition sample_cast (b : btype) (v : text) : option scalar :=
  match v with [c] => if (48 <=? c) && (c <=? 57) then Some (SInt W32 (c - 48)) else None | _ => None end.
Fixpoint sample_split (v : text) : list text :=
  match v with
  | [] => [[]]
  | c :: v' =>
      let r := sample_split v' in
      if c =? 44 then [] :: r else match r with [] => [[c]] | t :: r' => (c :: t) :: r' end
  end.
Definition sample_tokenizer (v : text) : list text * bool := (sample_split v, false).

Definition sample_metadata (modifier : Modifier) (name : string) (attributes : list (string * string)) : Metadata :=
  mkMetadata modifier Variant_new (lit name) ((fun a => (lit (fst a), lit (snd a))) <$> attributes).
Definition md_what := sample_metadata Optional "what" [].
Definition md_flag := sample_metadata Optional "no_color" [("abbr", "f")]%string.
Definition md_number := sample_metadata Optional "number" [("abbr", "n")]%string.
Definition md_items := sample_metadata Optional "items" [].
Definition md_file := sample_metadata Required "file" [("naked", "")]%string.

Definition md_dump := sample_metadata Optional "dump" [("abbr", "d")]%string.

Definition sample_options : object :=
  [[(md_flag, ONumber TBool, VNumber (SBool false)); (md_number, ONumber (TInt W32), VNumber (SInt W32 0));
    (md_items, OList (OEnum 0), VList []); (md_file, OString, VString []);
    (md_dump, OString, VString [])];
   [(md_what, OString, VString [])]].

(** [-fn 7 --items=c,a readme --what:x --items b -d out] *)
Definition sample_args : list argument :=
  [mkArgument [md_flag] (Named md_number true (Next (lit "7")));
   mkArgument [] (Named md_items false (Attached equals (lit "c,a")));
   mkArgument [] (Positional (lit "readme"));
   mkArgument [] (Named md_what false (Attached colon (lit "x")));
   mkArgument [] (Named md_items false (Next (lit "b")));
   mkArgument [] (Named md_dump true (Next (lit "out")))].

Lemma sample_schema : schema_ok (flat sample_options).
Proof.
  split.
  - intros m Hm. cbn [flat sample_options app metas fmap list_fmap fst] in Hm.
    repeat (destruct Hm as [<-|Hm];
      [split; [split; [done|by repeat constructor]|intros Ha; first [by vm_compute in Ha|by eexists]]|]). done.
  - apply (bool_decide_unpack _). by vm_compute.
  - intros m m' Hm Hm' Ha Ha' E. cbn [flat sample_options app metas fmap list_fmap fst] in Hm, Hm'.
    repeat (destruct Hm as [<-|Hm]; [try by vm_compute in Ha|]); try done;
      repeat (destruct Hm' as [<-|Hm']; [first [done|by vm_compute in Ha'|by vm_compute in E]|]); done.
  - intros m t v Hin. repeat (destruct Hin as [[= <- <- <-]|Hin]; [try done; by vm_compute|]). done.
Qed.

Lemma sample_given : settings_ok (flat sample_options) (sample_args ≫= settings_of).
Proof.
  pose proof (ok_names _ sample_schema) as Hn. cbn [flat sample_options app metas fmap list_fmap fst] in Hn.
  split.
  - intros s Hs. cbn [sample_args mbind list_bind settings_of packed last_option fmap list_fmap app] in Hs.
    repeat (destruct Hs as [<-|Hs];
      [first [by split|split; [apply Hn; cbn [In]; tauto|split; [intros Ha; first [done|by vm_compute]|
        first [done|split; [first [by left|by right]|done]|by split]]]]|]). done.
  - intros m short g Hs. cbn [sample_args mbind list_bind settings_of packed last_option fmap list_fmap app] in Hs.
    repeat (destruct Hs as [Hs|Hs]; [first [discriminate Hs|injection Hs as <- <- <-; do 2 eexists;
      (split; [cbn [flat sample_options app In]; tauto|split; [by vm_compute|done]])]|]). done.
  - intros m t v Hin Hl Hnk. repeat (destruct Hin as [[= <- <- <-]|Hin]; [first [discriminate Hl|vm_compute; lia]|]). done.
  - intros pre m t v post before m' short w u after E Hnk Em Hin. cbn [flat sample_options app] in E.
    repeat (destruct pre as [|? pre];
      [injection E as <- <- <- <-; first [by vm_compute in Hnk|idtac]|injection E as <- E]); [|by destruct pre].
    split; [done|]. revert Em Hin. clear.
    cbn [sample_args unread mbind list_bind settings_of packed last_option fmap list_fmap app].
    repeat (destruct before as [|? before]; [intros [=]; subst; intros Hin;
      first [by vm_compute in Hin; destruct Hin as [[=]|[]]|vm_compute; lia]|
      intros [= <- Em]; revert Em]).
Qed.

Lemma command_line_read_witness :
  command_ok sample_options sample_args /\
  GetArgs sample_ToEnum sample_cast sample_tokenizer sample_options
    (lit "prog" :: concat (render <$> sample_args)) false =
  Ok [[(md_flag, ONumber TBool, VNumber (SBool true)); (md_number, ONumber (TInt W32), VNumber (SInt W32 7));
       (md_items, OList (OEnum 0), VList [VEnum 2; VEnum 0; VEnum 1]); (md_file, OString, VString (lit "readme"));
       (md_dump, OString, VString (lit "out"))];
      [(md_what, OString, VString (lit "x"))]].
Proof.
  assert (command_ok sample_options sample_args) as H.
  { split; [done|apply sample_schema| |apply sample_given]. pose proof (ok_settings _ _ sample_given) as Hs.
    pose proof (ok_names _ sample_schema) as Hn.
    repeat constructor; try done; try (intros _; by vm_compute);
      first [apply Hs; cbn [sample_args mbind list_bind settings_of packed last_option fmap list_fmap app In]; tauto|
             apply Hn; cbn [flat sample_options app metas fmap list_fmap fst In]; tauto]. }
  split; [exact H|].
  rewrite (command_line_read sample_ToEnum sample_cast sample_tokenizer sample_options (lit "prog") sample_args false H).
  by vm_compute.
Defined.
