(* ===== verification/CmdArgsSafety.v ===== *)
(** What holds of any command line: reading it ends, with a well-typed object or an
    exception; no argument is passed over; and a required list is never satisfied. *)

From stdpp Require Import strings.
From S2P Require Import Prelude DataType Metadata CmdArgs CmdArgsCorrect.

(** * Typed objects *)

Fixpoint has_type (t : opt_type) (v : opt_value) {struct t} : Prop :=
  match t, v with
  | OEnum _, VEnum _ => True
  | ONumber b, VNumber s => btype_of s = b
  | OString, VString _ => True
  | OList t', VList items => Forall (has_type t') items
  | OMaybe t', VMaybe None => True
  | OMaybe t', VMaybe (Some v') => has_type t' v'
  | _, _ => False
  end.

Definition field_typed (f : field) : Prop := has_type (snd (fst f)) (snd f).
Definition object_typed (o : object) : Prop := Forall (Forall field_typed) o.

(** The schema of an object. *)
Definition fields_of_object (o : object) : list (list (Metadata * opt_type)) :=
  (fun fs : list field => (fun f : field => fst f) <$> fs) <$> o.

Lemma default_opt_typed t : has_type t (default_opt t).
Proof. destruct t as [|b| | |]; try done; [destruct b; reflexivity|constructor]. Qed.

(** The parameters an object can use, and a state in which it has used no other. *)
Definition borne (o : object) (p : Param) : Prop :=
  name p = [] \/ exists m, In m (metas (flat o)) /\ (name p = Flag m \/ name p = Abbr m).

(** What does not change of a parameter. *)
Definition argument_of (p : Param) : text * text := (name p, param_value p).

(** The parameters not used yet. *)
Definition fresh (ps : list Param) : nat := length (List.filter (fun p => negb (used p)) ps).

Section Safety.
Context (ToEnum : nat -> text -> option Z).
Context (lexical_cast : btype -> text -> option scalar).
Context (tokenizer : text -> list text * bool).
Context (Hcast : forall b v s, lexical_cast b v = Some s -> btype_of s = b).

Local Abbreviation Parse := (Parse ToEnum lexical_cast tokenizer).
Local Abbreviation GetParam := (GetParam ToEnum lexical_cast tokenizer).
Local Abbreviation GetParams := (GetParams ToEnum lexical_cast tokenizer).
Local Abbreviation Field := (Field ToEnum lexical_cast tokenizer).
Local Abbreviation ReadFields := (ReadFields ToEnum lexical_cast tokenizer).
Local Abbreviation Apply := (Apply ToEnum lexical_cast tokenizer).
Local Abbreviation GetArgs := (GetArgs ToEnum lexical_cast tokenizer).

Definition parses (t : opt_type) (r : outcome opt_value) : Prop :=
  match r with Ok v => has_type t v | Err e => e = Thrown RuntimeError end.

Lemma Parse_typed t v var : has_type t var -> parses t (Parse t v var).
Proof.
  revert v var. induction t as [e|b| |t IH|t IH]; intros v var Hv; cbn [CmdArgs.Parse].
  - by destruct (ToEnum e v).
  - destruct (lexical_cast b v) as [s|] eqn:E; [|done]. cbn. by eapply Hcast.
  - done.
  - destruct (tokenizer v) as [tok throws]. destruct var as [| | |items|]; try done. cbn in Hv. revert items Hv.
    induction tok as [|it tok IHt]; intros items Hv; cbn [obind]; [by destruct throws|].
    pose proof (IH it (default_opt t) (default_opt_typed t)) as Hp.
    destruct (Parse t it (default_opt t)) as [tmp|e]; cbn [obind]; [|done].
    apply IHt. apply Forall_app. split; [done|by constructor].
  - destruct var as [| | | |ov]; try done.
    assert (has_type t (match ov with Some v => v | None => default_opt t end)) as Hs
      by (destruct ov; [done|apply default_opt_typed]).
    pose proof (IH v _ Hs) as Hp. destruct ov; by destruct (Parse t v _).
Qed.

(** ** Steps that only use parameters of the object *)

Context (o : object).

Definition sound (ps : list Param) : Prop := Forall (fun p => used p = true -> borne o p) ps.

Definition safe {A} (m : M (list Param) A) (Q : list Param -> A -> list Param -> Prop) : Prop :=
  forall ps, sound ps ->
  match m ps with
  | (Ok a, ps') => sound ps' /\ argument_of <$> ps' = argument_of <$> ps /\ (fresh ps' <= fresh ps)%nat /\ Q ps a ps'
  | (Err e, _) => e = Thrown RuntimeError
  end.

Lemma safe_ret {A} (a : A) (Q : list Param -> A -> list Param -> Prop) :
  (forall ps, Q ps a ps) -> safe (ret a) Q.
Proof. intros H ps Hps. by repeat split. Qed.

Lemma safe_throw {A} Q : safe (@throw _ A RuntimeError) Q.
Proof. by intros ps Hps. Qed.

Lemma safe_bind {A B} (m : M (list Param) A) (k : A -> M (list Param) B) Q R :
  safe m (fun _ a _ => Q a) -> (forall a, Q a -> safe (k a) (fun _ b _ => R b)) -> safe (bind m k) (fun _ b _ => R b).
Proof.
  intros Hm Hk ps Hps. specialize (Hm ps Hps). unfold bind. destruct (m ps) as [[a|e] ps1]; [|done].
  destruct Hm as (H1 & En & Hf & Ha). specialize (Hk a Ha ps1 H1).
  destruct (k a ps1) as [[b|e] ps2]; [|done]. destruct Hk as (H2 & En2 & Hf2 & Hb).
  repeat split; [done|congruence|lia|done].
Qed.

Lemma fresh_use (i : nat) p (ps : list Param) : ps !! i = Some p -> used p = false -> S (fresh (alter use i ps)) = fresh ps.
Proof.
  revert i. induction ps as [|q ps IH]; intros [|i]; cbn; try done.
  - intros [= ->] ->. done.
  - intros Hi Hu. specialize (IH i Hi Hu). unfold fresh in *. cbn. by destruct (negb (used q)); cbn; rewrite ?IH.
Qed.

Lemma arguments_use (i : nat) (ps : list Param) :
  argument_of <$> alter use i ps = argument_of <$> ps.
Proof. revert i. induction ps as [|q ps IH]; intros [|i]; cbn; try done. f_equal. apply IH. Qed.

Lemma sound_use (i : nat) p (ps : list Param) : ps !! i = Some p -> borne o p -> sound ps -> sound (alter use i ps).
Proof.
  intros Hi Hb Hs. unfold sound in *. apply Forall_lookup. intros j q Hj.
  rewrite list_lookup_alter in Hj. case_decide as E.
  - subst j. rewrite Hi in Hj. injection Hj as <-. intros _. exact Hb.
  - by eapply (proj1 (Forall_lookup _ _) Hs).
Qed.

(** The names a field looks for. *)
Definition own_names (flag abbr : text) : Prop :=
  (flag = [] /\ abbr = []) \/ exists m, In m (metas (flat o)) /\ flag = Flag m /\ abbr = Abbr m.

Lemma matches_borne flag abbr p : own_names flag abbr -> matches_param flag abbr p = true -> borne o p /\ used p = false.
Proof.
  unfold matches_param, borne. destruct (used p); [done|]. cbn [negb andb]. intros Hn Hm.
  apply orb_true_iff in Hm as [Hm|Hm]; [|apply andb_true_iff in Hm as [Hm _]];
    apply bool_decide_eq_true in Hm; split; [destruct Hn as [[-> ->]|(m & ? & -> & ->)]; eauto..].
Qed.

Lemma FindParam_safe flag abbr : own_names flag abbr ->
  safe (FindParam flag abbr) (fun ps it ps' =>
    match it with Some i => is_Some (ps' !! i) /\ (fresh ps' < fresh ps)%nat | None => True end).
Proof.
  intros Hn ps Hps. unfold FindParam. destruct (list_find _ ps) as [[i p]|] eqn:E; [|done].
  apply list_find_Some in E as (Hi & Hm & _). apply Is_true_true in Hm.
  destruct (matches_borne _ _ _ Hn Hm) as [Hb Hu]. pose proof (fresh_use i p ps Hi Hu) as Hf.
  repeat split; [by eapply sound_use|apply arguments_use|lia| |lia].
  rewrite list_lookup_alter_eq, Hi. by eexists.
Qed.

Lemma at_some i ps (p : Param) : ps !! i = Some p -> at_ i ps = (Ok p, ps).
Proof. intros E. unfold at_. by rewrite bind_gets, E. Qed.

Lemma GetFlag_safe flag abbr : own_names flag abbr -> safe (GetFlag flag abbr) (fun _ _ _ => True).
Proof.
  intros Hn ps Hps. pose proof (FindParam_safe _ _ Hn ps Hps) as H. unfold GetFlag, bind at 1.
  destruct (FindParam flag abbr ps) as [[[i|]|e] ps1]; [|by destruct H|done].
  destruct H as (H1 & En & Hf & [p Hp] & Hd). unfold bind. rewrite (at_some _ _ _ Hp).
  by destruct (negb (empty (param_value p))).
Qed.

Lemma GetParam_text_safe flag abbr : own_names flag abbr ->
  safe (GetParam_text flag abbr) (fun ps v ps' => v <> [] -> (fresh ps' < fresh ps)%nat).
Proof.
  intros Hn ps Hps. pose proof (FindParam_safe _ _ Hn ps Hps) as H. unfold GetParam_text, bind at 1.
  destruct (FindParam flag abbr ps) as [[[i|]|e] ps1]; [|by destruct H as (? & ? & ? & _)|done].
  destruct H as (H1 & En & Hf & [p Hp] & Hd). erewrite bind_ok by exact (at_some _ _ _ Hp). rewrite bind_gets.
  destruct (ps1 !! S i) as [q|] eqn:Hq; [|by repeat split].
  destruct (empty (param_value p) && _) eqn:E; [|by repeat split].
  apply andb_true_iff in E as [_ [Eu En']%andb_true_iff]. rewrite bind_modify. cbn [ret].
  apply negb_true_iff in Eu. pose proof (fresh_use _ _ _ Hq Eu) as Hf'.
  assert (borne o q) as Hb by (left; by destruct (name q)).
  repeat split; [by eapply sound_use|by rewrite arguments_use|lia|intros _; lia].
Qed.

Lemma names_own m : In m (metas (flat o)) -> own_names (fst (names m)) (snd (names m)).
Proof. intros H. unfold names. destruct (IsNaked m); [by left|right; eauto]. Qed.

Lemma GetParam_safe m t var : In m (metas (flat o)) -> has_type t var ->
  safe (GetParam m t var) (fun ps r ps' =>
    match r with Some v => has_type t v /\ (fresh ps' < fresh ps)%nat | None => IsOptional m = true end).
Proof.
  intros Hm Hv ps Hps. pose proof (GetParam_text_safe _ _ (names_own m Hm) ps Hps) as H.
  unfold CmdArgs.GetParam.
  replace (if IsNaked m then GetParam_text [] [] else GetParam_text (Flag m) (Abbr m))
    with (GetParam_text (fst (names m)) (snd (names m))) by (unfold names; by destruct (IsNaked m)).
  unfold bind at 1. destruct (GetParam_text _ _ ps) as [[v|e] ps1]; [|done].
  destruct H as (H1 & En & Hf & Hd). destruct v as [|c v]; cbn [empty].
  - by destruct (IsOptional m) eqn:E.
  - specialize (Hd ltac:(done)). pose proof (Parse_typed t (c :: v) var Hv) as Hp.
    unfold bind, of_outcome. by destruct (Parse t (c :: v) var).
Qed.

Lemma GetParams_safe fuel m t var ps : In m (metas (flat o)) -> has_type t var -> sound ps -> (fresh ps < fuel)%nat ->
  match GetParams fuel m t var ps with
  | (Ok v, ps') => sound ps' /\ argument_of <$> ps' = argument_of <$> ps /\ (fresh ps' <= fresh ps)%nat /\
      has_type t v /\ IsOptional m = true
  | (Err e, _) => e = Thrown RuntimeError
  end.
Proof.
  intros Hm. revert var ps. induction fuel as [|fuel IH]; intros var ps Hv Hps Hf; [lia|].
  pose proof (GetParam_safe m t var Hm Hv ps Hps) as H. cbn [CmdArgs.GetParams]. unfold bind.
  destruct (GetParam m t var ps) as [[[v|]|e] ps1]; [| |done].
  - destruct H as (H1 & En & _ & Hv' & Hd). specialize (IH v ps1 Hv' H1 ltac:(lia)).
    destruct (GetParams fuel m t v ps1) as [[v'|e] ps2]; [|done].
    destruct IH as (H2 & En2 & Hf2 & Hr). repeat split; [done|congruence|lia|apply Hr..].
  - by destruct H as (H1 & En & Hf1 & Ho).
Qed.

(** A field keeps its type; a list that has been read is optional. *)
Definition field_read (f f' : field) : Prop :=
  fst f' = fst f /\ field_typed f' /\ (is_list (snd (fst f)) = true -> IsOptional (fst (fst f)) = true).

Lemma Field_safe f : In f (flat o) -> field_typed f -> safe (Field f) (fun _ f' _ => field_read f f').
Proof.
  destruct f as [[m t] var]. intros Hin Hv. unfold field_typed in Hv. cbn [fst snd] in Hv.
  assert (In m (metas (flat o))) as Hm by (apply in_map_iff; by exists (m, t, var)).
  destruct (is_list t) eqn:Hl; [|destruct (is_flag t) eqn:Ht].
  - destruct t as [| | |t'|]; try done. intros ps Hps. cbn [CmdArgs.Field]. rewrite bind_gets. cbv beta.
    assert (fresh ps < S (length ps))%nat as Hf by (pose proof (List.filter_length_le (fun p => negb (used p)) ps); unfold fresh; lia).
    pose proof (GetParams_safe _ m (OList t') var ps Hm Hv Hps Hf) as H. unfold bind.
    destruct (CmdArgs.GetParams _ _ _ _ _ _ _ _) as [[v|e] ps1]; [|done]. destruct H as (H1 & En & Hf1 & Hv' & Ho).
    by repeat split.
  - destruct t as [|[]| | |]; try done. cbn [CmdArgs.Field].
    eapply safe_bind with (Q := fun _ => True); [apply GetFlag_safe; right; eauto|]. intros b _. by apply safe_ret.
  - replace (Field (m, t, var)) with (let! r := GetParam m t var in ret (m, t, default var r))
      by (by destruct t as [|[]| | |]).
    intros ps Hps. pose proof (GetParam_safe m t var Hm Hv ps Hps) as H. unfold bind.
    destruct (GetParam m t var ps) as [[r|e] ps1]; [|done]. destruct H as (H1 & En & Hf & Hr).
    unfold field_read. cbn [fst snd]. rewrite Hl. repeat split; [done..|destruct r; by try destruct Hr|done].
Qed.

Lemma ReadFields_safe fs : (forall f, In f fs -> In f (flat o)) -> Forall field_typed fs ->
  safe (ReadFields fs) (fun _ fs' _ => Forall2 field_read fs fs').
Proof.
  induction fs as [|f fs IH]; intros Hin Ht; [by apply safe_ret|]. apply list.Forall_cons_1 in Ht as [Hf Ht].
  cbn [CmdArgs.ReadFields]. eapply safe_bind; [apply Field_safe; [apply Hin; by left|done]|].
  intros f' Hf'. eapply safe_bind; [apply IH; [intros g Hg; apply Hin; by right|done]|].
  intros r Hr. apply safe_ret. intros _. by constructor.
Qed.

Lemma End_safe partial : safe (End partial) (fun _ _ _ => True).
Proof.
  intros ps Hps. unfold End. destruct partial; [done|]. cbn [negb]. rewrite bind_gets.
  by destruct (negb (empty (Leftovers ps))).
Qed.

Lemma Apply_safe partial v : (forall f, In f (flat v) -> In f (flat o)) -> object_typed v ->
  safe (Apply partial v) (fun _ v' _ => Forall2 (Forall2 field_read) v v').
Proof.
  revert partial. induction v as [|fields base IH]; intros partial Hin Ht; [by apply safe_ret|].
  apply list.Forall_cons_1 in Ht as [Hf Ht]. rewrite Apply_base. cbn [flat] in Hin.
  eapply safe_bind; [apply IH; [intros g Hg; apply Hin, in_or_app; by left|done]|]. intros b Hb.
  eapply safe_bind; [apply ReadFields_safe; [intros g Hg; apply Hin, in_or_app; by right|done]|]. intros r Hr.
  eapply safe_bind; [apply End_safe|]. intros _ _. apply safe_ret. intros _. by constructor.
Qed.
End Safety.

(** ** Whole command lines *)

Lemma unpack_unused letters : Forall (fun p => used p = false) (fst (unpack letters)).
Proof.
  induction letters as [|a rest IH]; [constructor|]. cbn [unpack]. destruct rest as [|b rest]; [constructor|].
  destruct (unpack (b :: rest)) as [ps n]. by constructor.
Qed.

Lemma Options_unused argv : Forall (fun p => used p = false) (Options argv).
Proof.
  unfold Options. apply Forall_bind. apply Forall_forall. intros v _. cbn [compose]. unfold parse_arg.
  destruct (is_named v); [|by repeat constructor]. destruct (cut v) as [n from].
  destruct (bool_decide _); [by repeat constructor|].
  pose proof (unpack_unused (tail n)) as H. destruct (unpack (tail n)) as [ps n'].
  apply Forall_app. split; [done|by repeat constructor].
Qed.

Lemma Options_sound o argv : sound o (Options argv).
Proof.
  unfold sound. eapply list.Forall_impl; [exact (Options_unused argv)|]. cbn. congruence.
Qed.

Lemma field_read_schema o o' : Forall2 (Forall2 field_read) o o' -> fields_of_object o' = fields_of_object o /\ object_typed o'.
Proof.
  induction 1 as [|fs fs' o o' Hfs _ [IH1 IH2]]; [by split; [|constructor]|]. unfold fields_of_object, object_typed in *.
  rewrite !fmap_cons, IH1. cut (((fun f : field => fst f) <$> fs') = ((fun f : field => fst f) <$> fs) /\ Forall field_typed fs').
  { intros [-> H]. by split; [|constructor]. }
  clear -Hfs. induction Hfs as [|f f' fs fs' (E & Ht & _) _ [IH1 IH2]]; [by split|].
  rewrite !fmap_cons, E, IH1. by split; [|constructor].
Qed.

Lemma field_read_lists o o' : Forall2 (Forall2 field_read) o o' ->
  forall f, In f (flat o) -> is_list (snd (fst f)) = true -> IsOptional (fst (fst f)) = true.
Proof.
  induction 1 as [|fs fs' o o' Hfs _ IH]; [done|]. cbn [flat]. intros f [Hin|Hin]%in_app_or; [by apply IH|].
  clear -Hfs Hin. induction Hfs as [|g g' fs fs' (_ & _ & Hl) _ IH]; [done|]. destruct Hin as [<-|Hin]; [exact Hl|by apply IH].
Qed.

(** A reading that is not partial ends with every parameter used. *)
Lemma Apply_leftovers ToEnum lexical_cast tokenizer options o ps ps' : options <> [] ->
  Apply ToEnum lexical_cast tokenizer false options ps = (Ok o, ps') ->
  Forall (fun p => used p = true) ps'.
Proof.
  destruct options as [|fields base]; [done|]. intros _ E. rewrite Apply_base in E.
  apply bind_inv_ok in E as (b & ps1 & _ & E).
  apply bind_inv_ok in E as (r & ps2 & _ & E). apply bind_inv_ok in E as (? & ps3 & E & [= <- <-]).
  unfold End in E. cbn [negb] in E. rewrite bind_gets in E.
  destruct (negb (empty (Leftovers ps2))) eqn:El; [done|]. injection E as _ ->.
  apply Leftovers_empty. by destruct (Leftovers ps3).
Qed.

(** C20: Where [lexical_cast] gives a value of the type it is asked for, reading any command line, partially or not, ends, with an object of the schema of the
    options whose values have the types of the fields, or with a [std::runtime_error]; it
    never runs out of the parameters, never reads past them.  When it gives an object, the
    parameters [ps] it ends with are those of the arguments, each marked used or not; one that
    is used was for a field: it has no name, or the flag or the abbreviation of an option as
    its name; and one that is not used, with a name or without, is left only by a partial
    reading. *)
Theorem command_line_accounted ToEnum lexical_cast tokenizer options argv partial :
  (forall b v s, lexical_cast b v = Some s -> btype_of s = b) ->
  options <> [] -> object_typed options ->
  match Apply ToEnum lexical_cast tokenizer partial options (Options argv) with
  | (Ok o, ps) =>
      GetArgs ToEnum lexical_cast tokenizer options argv partial = Ok o /\
      fields_of_object o = fields_of_object options /\ object_typed o /\
      argument_of <$> ps = argument_of <$> Options argv /\
      Forall (fun p => if used p then borne options p else partial = true) ps
  | (Err e, _) =>
      GetArgs ToEnum lexical_cast tokenizer options argv partial = Err e /\ e = Thrown RuntimeError
  end.
Proof.
  intros Hcast Hne Ht. unfold GetArgs.
  pose proof (Apply_safe ToEnum lexical_cast tokenizer Hcast options partial options (fun _ H => H) Ht
    (Options argv) (Options_sound options argv)) as H.
  destruct (Apply _ _ _ partial options (Options argv)) as [[o'|e] ps'] eqn:E; [|done].
  destruct H as (Hs & En & _ & Hr). split; [done|].
  destruct (field_read_schema _ _ Hr) as [H1 H2]. split_and!; [done..|].
  assert (Hu : partial = false -> Forall (fun p => used p = true) ps')
    by (intros ->; by eapply Apply_leftovers).
  apply list.Forall_forall. intros p Hp. pose proof (proj1 (list.Forall_forall _ _) Hs p Hp) as Hb.
  destruct (used p) eqn:Eu; [by apply Hb|]. destruct partial; [done|].
  pose proof (proj1 (list.Forall_forall _ _) (Hu eq_refl) p Hp). congruence.
Qed.

(** C39: A required list option is never satisfied: whatever the command line gives for it,
    [GetArgs] throws, since the loop that collects the values ends with the call that finds
    none, and that call throws when the option is not optional. *)
Theorem required_list_rejected ToEnum lexical_cast tokenizer options m t v argv partial :
  (forall b v s, lexical_cast b v = Some s -> btype_of s = b) ->
  object_typed options -> In (m, OList t, v) (flat options) -> modifier m <> Optional ->
  GetArgs ToEnum lexical_cast tokenizer options argv partial = Err (Thrown RuntimeError).
Proof.
  intros Hcast Ht Hin Hm. unfold GetArgs.
  pose proof (Apply_safe ToEnum lexical_cast tokenizer Hcast options partial options (fun _ H => H) Ht
    (Options argv) (Options_sound options argv)) as H.
  destruct (Apply _ _ _ partial options (Options argv)) as [[o'|e] ps']; [|by rewrite H].
  destruct H as (_ & _ & _ & Hr). exfalso. apply Hm.
  pose proof (field_read_lists _ _ Hr _ Hin eq_refl) as Ho. by apply bool_decide_eq_true in Ho.
Qed.

(** ** Instances *)

Definition typed_cast (b : btype) (v : text) : option scalar :=
  if bool_decide (b = TInt W32) then sample_cast b v else None.

Lemma typed_cast_typed b v s : typed_cast b v = Some s -> btype_of s = b.
Proof.
  unfold typed_cast. case_bool_decide as E; [subst b|done]. unfold sample_cast.
  destruct v as [|c [|]]; [done| |done]. by destruct (_ && _); intros [= <-].
Qed.

Lemma sample_options_typed : object_typed sample_options.
Proof. repeat constructor. Qed.

(** [-q]: no field has that name; a second argument without a name is for none either, but
    does not stop a partial reading. *)
Lemma command_line_accounted_witness :
  (forall arg, In arg ["-q"; "more"]%string ->
    GetArgs sample_ToEnum typed_cast sample_tokenizer sample_options
      [lit "prog"; lit "file"; lit arg] false = Err (Thrown RuntimeError)) /\
  (exists o ps, Apply sample_ToEnum typed_cast sample_tokenizer true sample_options
      (Options [lit "prog"; lit "file"; lit "more"]) = (Ok o, ps) /\
    object_typed o /\ used <$> ps = [true; false]).
Proof.
  pose proof (fun argv => command_line_accounted sample_ToEnum typed_cast sample_tokenizer sample_options argv)
    as H.
  split.
  - intros arg Hin. specialize (H [lit "prog"; lit "file"; lit arg] false typed_cast_typed ltac:(done) sample_options_typed).
    destruct (Apply _ _ _ _ _ _) as [[o|e] ps] eqn:E; [|by destruct H as [-> ->]].
    exfalso. repeat (destruct Hin as [<-|Hin]; [by vm_compute in E|]). done.
  - specialize (H [lit "prog"; lit "file"; lit "more"] true typed_cast_typed ltac:(done) sample_options_typed).
    destruct (Apply _ _ _ _ _ _) as [[o|e] ps] eqn:E; [|by vm_compute in E].
    exists o, ps. split; [done|]. split; [apply H|]. vm_compute in E. by injection E as _ <-.
Defined.

Definition md_sources := sample_metadata Required "sources" [].

(** [required list<string> sources] with [--sources=a --sources=b]. *)
Lemma required_list_rejected_witness :
  GetArgs sample_ToEnum typed_cast sample_tokenizer [[(md_sources, OList OString, VList [])]]
    [lit "prog"; lit "--sources=a"; lit "--sources=b"] false = Err (Thrown RuntimeError).
Proof.
  apply (required_list_rejected sample_ToEnum typed_cast sample_tokenizer _ md_sources OString (VList [])).
  - exact typed_cast_typed.
  - repeat constructor.
  - by left.
  - done.
Defined.
