(* ===== verification/CmdUsage.v ===== *)
(** The usage text of a command line (cpp/inc/bond/core/detail/cmdargs.h, [Usage] and the
    help texts of [Metadata]; [ShowUsage] of cpp/inc/bond/core/cmdargs.h).

    [Usage] prints one entry per option, its help text broken into lines of a column that
    [FormatHelp] makes in place, with insertions into the text. *)

From stdpp Require Import strings.
From S2P Require Import Prelude DataType Metadata CmdArgs.

Definition space : Z := 32.
Definition newline : Z := 10.

(** [isspace] in the classic locale; a negative argument (a [char] above 127 where [char] is
    signed) is undefined. *)
Definition isspace (c : Z) : outcome bool :=
  if c <? 128 then Ok ((c =? space) || ((9 <=? c) && (c <=? 13))) else Err Undefined.

(** * Help texts *)

Section Help.
(** Code outside src/: the names of the generated [GetEnumNames], in the order of the map;
    the generated [ToString] of an enum; [boost::lexical_cast<std::string>]. *)
Context (GetEnumNames : nat -> list text).
Context (EnumToString : nat -> Z -> text).
Context (lexical_cast_string : scalar -> text).

(** [Metadata::HelpFromType]. *)
Fixpoint HelpFromType (t : opt_type) : text :=
  match t with
  | OEnum e =>
      foldl (fun enums it => (if negb (empty enums) then enums ++ lit " | " else enums) ++ it) [] (GetEnumNames e)
  | OList t' =>
      let help := HelpFromType t' in
      if negb (empty help) then lit "comma-separated list of: " ++ help else help
  | _ => []
  end.

(** [detail::ToString]; 8-bit integers are numbers. *)
Definition ToString (s : scalar) : text :=
  match s with
  | SUInt W8 z | SInt W8 z => lexical_cast_string (SInt W32 z)
  | _ => lexical_cast_string s
  end.

(** [Metadata::Default]. *)
Definition Default (m : Metadata) (t : opt_type) : text :=
  if IsOptional m && negb (nothing (default_value m)) then
    match t with
    | OEnum e => EnumToString e (to_signed 32 (int_value (default_value m)))
    | ONumber b => ToString (VariantGet (default_value m) b)
    | OString => ToString (VariantGet (default_value m) TString)
    | _ => []
    end
  else [].

(** [Metadata::Help<T>]. *)
Definition Help (m : Metadata) (t : opt_type) : text :=
  let help := if HasAttribute m (lit "help") then Attribute m (lit "help") else HelpFromType t in
  let default_value := Default m t in
  if negb (empty default_value) then
    (if negb (empty help) then help ++ lit ", " else help) ++ lit "default " ++ default_value
  else help.

(** [Metadata::Help]. *)
Definition Help_ (m : Metadata) : text := Attribute m (lit "help").
End Help.

(** * [FormatHelp] *)

(** Arithmetic on [int], and the conversion of a size to it. *)
Definition int_of (z : Z) : outcome Z :=
  if (- 2 ^ 31 <=? z) && (z <? 2 ^ 31) then Ok z else Err Undefined.
Definition size_int (s : text) : Z := to_signed 32 (Z.of_nat (length s)).

(** [formated[i]], an access outside the string being undefined. *)
Definition char_at (s : text) (i : Z) : outcome Z :=
  if i <? 0 then Err Undefined
  else match s !! Z.to_nat i with Some c => Ok c | None => Err Undefined end.
Definition set_char (s : text) (i c : Z) : outcome text :=
  olet _ := char_at s i in Ok (<[Z.to_nat i := c]> s).

(** [formated.insert(i, count, ' ')]: a negative argument becomes a large [size_t].  Memory
    does not run out. *)
Definition insert_spaces (s : text) (i count : Z) : outcome text :=
  if (i <? 0) || (Z.of_nat (length s) <? i) then Err (Thrown OutOfRange)
  else if count <? 0 then Err (Thrown LengthError)
  else Ok (take (Z.to_nat i) s ++ replicate (Z.to_nat count) space ++ drop (Z.to_nat i) s).

(** [while (i >= begin && !isspace(formated[i])) --i;] *)
Fixpoint scan_back (fuel : nat) (s : text) (begin i : Z) : outcome Z :=
  match fuel with
  | O => Err OutOfFuel
  | S fuel =>
      if begin <=? i then
        olet c := char_at s i in
        olet sp := isspace c in
        if negb sp then scan_back fuel s begin (i - 1) else Ok i
      else Ok i
  end.

(** [while (i < static_cast<int>(formated.length()) && isspace(formated[i])) ++i;] *)
Fixpoint scan_forward (fuel : nat) (s : text) (i : Z) : outcome Z :=
  match fuel with
  | O => Err OutOfFuel
  | S fuel =>
      if i <? size_int s then
        olet c := char_at s i in
        olet sp := isspace c in
        if sp then scan_forward fuel s (i + 1) else Ok i
      else Ok i
  end.

(** The [for] loop; [fuel] bounds its iterations. *)
Fixpoint format_lines (fuel : nat) (indent begin i : Z) (formated : text) : outcome text :=
  match fuel with
  | O => Err OutOfFuel
  | S fuel =>
      if i <? size_int formated then
        let scan := S (S (length formated)) in
        olet i := scan_back scan formated begin i in
        olet i := scan_forward scan formated i in
        olet column := int_of (begin + 80) in
        olet formated := insert_spaces formated i (column - i) in
        olet both := int_of (i + begin) in
        olet both := int_of (both + 79) in
        olet formated := set_char formated (both - i - indent) newline in
        olet next := int_of (column + 79) in
        format_lines fuel indent column (next - indent) formated
      else Ok formated
  end.

Definition FormatHelp (fuel : nat) (help : text) (indent : Z) : outcome text :=
  format_lines fuel indent 0 (79 - indent) help.

(** * [Usage] *)

(** The members of [std::ostream] the printing depends on, and the text written. *)
Record ostream : Type := mkOut { written : text; width : Z; left_adjusted : bool }.

Definition spaces (n : Z) : text := replicate (Z.to_nat n) space.

(** [out << s]: padded to the width, which is then reset. *)
Definition padded (left : bool) (n : Z) (s : text) : text :=
  let fill := spaces (n - Z.of_nat (length s)) in if left then s ++ fill else fill ++ s.
Definition put_string (s : text) : M ostream unit :=
  modify (fun out => mkOut (written out ++ padded (left_adjusted out) (width out) s) 0 (left_adjusted out)).
Definition put_endl : M ostream unit :=
  modify (fun out => mkOut (written out ++ [newline]) (width out) (left_adjusted out)).
Definition set_width (n : Z) : M ostream unit :=
  modify (fun out => mkOut (written out) n (left_adjusted out)).
Definition set_left : M ostream unit := modify (fun out => mkOut (written out) (width out) true).

Section Usage.
Context (GetEnumNames : nat -> list text).
Context (EnumToString : nat -> Z -> text).
Context (lexical_cast_string : scalar -> text).
Context (program : text) (fuel : nat).

(** [Usage::Print]. *)
Definition Print (arg abbr help : text) : M ostream unit :=
  let indent := Z.max 30 (size_int arg + 5) in
  let! formated := of_outcome (FormatHelp fuel help indent) in
  put_string (lit " ") ;;;
  set_width 2 ;;;
  put_string abbr ;;; put_string (lit " ") ;;;
  set_left ;;;
  set_width (indent - 4) ;;;
  put_string arg ;;; put_string formated ;;; put_endl.

(** [Usage::Begin]. *)
Definition Usage_Begin (m : Metadata) : M ostream unit :=
  let help := Help_ m in
  if negb (empty help) then
    put_endl ;;; put_string (lit "Usage: ") ;;; put_string program ;;; put_string (lit " ") ;;;
    put_string help ;;; put_endl ;;; put_endl
  else ret tt.

(** The overloads of [Usage::Field]. *)
Definition Usage_Field (m : Metadata) (t : opt_type) : M ostream unit :=
  match t with
  | ONumber TBool => Print (Flag m) (Abbr m) (Help_ m)
  | OMaybe t' => Print (Param_text m) (Abbr m) (Help GetEnumNames EnumToString lexical_cast_string m t')
  | _ => Print (Param_text m) (Abbr m) (Help GetEnumNames EnumToString lexical_cast_string m t)
  end.

(** [Apply(Usage(program), options)] and [ShowUsage]: the metadata of each level with its
    fields, the most derived level first; [Begin] comes before the base. *)
Fixpoint ShowUsage (levels : list (Metadata * list (Metadata * opt_type))) : M ostream unit :=
  match levels with
  | [] => ret tt
  | (metadata, fields) :: base =>
      Usage_Begin metadata ;;;
      (match base with [] => ret tt | _ => ShowUsage base end) ;;;
      forM fields (fun f => Usage_Field (fst f) (snd f))
  end.
End Usage.
