(* ===== verification/CmdUsageCorrect.v ===== *)
(** Correctness of the usage text: for words that fit the column, the insertions of
    [FormatHelp] make the greedy division of the text into lines; a longer word makes them
    go on until an [int] overflows, or reads before the text. *)

From stdpp Require Import strings.
From S2P Require Import Prelude DataType Metadata CmdArgs CmdUsage.

(** * The layout *)

(** Words separated by single spaces. *)
Fixpoint unwords (ws : list text) : text :=
  match ws with
  | [] => []
  | [w] => w
  | w :: ws' => w ++ space :: unwords ws'
  end.

(** [line] and the words, on lines as full as the width [W] allows. *)
Fixpoint fill (W : Z) (line : text) (ws : list text) : list text :=
  match ws with
  | [] => [line]
  | w :: ws' =>
      if Z.of_nat (length line) + 1 + Z.of_nat (length w) <=? W then fill W (line ++ space :: w) ws'
      else line :: fill W w ws'
  end.
Definition lines_of (W : Z) (ws : list text) : list text :=
  match ws with [] => [[]] | w :: ws' => fill W w ws' end.

(** The lines, each but the last padded to the width, the others indented. *)
Fixpoint lay_out (indent W : Z) (lines : list text) : text :=
  match lines with
  | [] => []
  | [line] => line
  | line :: lines' =>
      line ++ spaces (W - Z.of_nat (length line)) ++ newline :: spaces indent ++ lay_out indent W lines'
  end.

(** A word: printable characters other than spaces. *)
Definition word (w : text) : Prop := w <> [] /\ Forall (fun c => isspace c = Ok false) w.

(** * Scans *)

Lemma char_at_ok s i c : 0 <= i -> s !! Z.to_nat i = Some c -> char_at s i = Ok c.
Proof. intros Hi Hc. unfold char_at. rewrite (proj2 (Z.ltb_ge _ _)) by lia. by rewrite Hc. Qed.

Definition spaced (s : text) (i : Z) (sp : bool) : Prop :=
  exists c, s !! Z.to_nat i = Some c /\ isspace c = Ok sp.

Lemma scan_back_to fuel s begin i j : 0 <= begin -> begin - 1 <= j <= i ->
  (forall k, j < k <= i -> spaced s k false) -> j = begin - 1 \/ spaced s j true ->
  (Z.to_nat (i - j) < fuel)%nat -> scan_back fuel s begin i = Ok j.
Proof.
  intros Hb. revert i. induction fuel as [|fuel IH]; intros i Hj Hns Hend Hf; [lia|]. cbn [scan_back].
  destruct (Z.leb_spec begin i) as [Hi|Hi].
  - destruct (decide (j = i)) as [->|Hne].
    + destruct Hend as [Hend|(c & Hc & Hs)]; [lia|]. rewrite (char_at_ok s i c) by (done || lia). cbn [obind].
      by rewrite Hs.
    + destruct (Hns i ltac:(lia)) as (c & Hc & Hs). rewrite (char_at_ok s i c) by (done || lia). cbn [obind].
      rewrite Hs. cbn [obind negb]. apply IH; [lia| |done|lia]. intros k Hk. apply Hns. lia.
  - f_equal. lia.
Qed.

Lemma size_int_small s : Z.of_nat (length s) < 2 ^ 31 -> size_int s = Z.of_nat (length s).
Proof.
  intros H. unfold size_int, to_signed, wrap. rewrite Z.mod_small by lia.
  change (32 - 1) with 31. by rewrite (proj2 (Z.ltb_lt _ _)).
Qed.

Lemma spaced_length s i b : 0 <= i -> spaced s i b -> i < Z.of_nat (length s).
Proof. intros Hi (c & Hc & _). apply lookup_lt_Some in Hc. lia. Qed.

Lemma scan_forward_one fuel s i : 0 <= i -> Z.of_nat (length s) < 2 ^ 31 ->
  spaced s i true -> spaced s (i + 1) false -> scan_forward (S (S fuel)) s i = Ok (i + 1).
Proof.
  intros Hi Hl H1 H2. pose proof (spaced_length _ _ _ Hi H1). pose proof (spaced_length s (i + 1) _ ltac:(lia) H2).
  cbn [scan_forward]. rewrite (size_int_small _ Hl).
  destruct H1 as (c & Hc & Hs), H2 as (d & Hd & Hs2).
  rewrite (proj2 (Z.ltb_lt i _)), (char_at_ok s i c) by (done || lia). cbn [obind]. rewrite Hs. cbn [obind].
  rewrite (proj2 (Z.ltb_lt (i + 1) _)), (char_at_ok s (i + 1) d) by (done || lia). cbn [obind]. by rewrite Hs2.
Qed.

(** Characters of a text in parts. *)
Lemma spaced_word A w B k : Forall (fun c => isspace c = Ok false) w ->
  Z.of_nat (length A) <= k < Z.of_nat (length A) + Z.of_nat (length w) -> spaced (A ++ w ++ B) k false.
Proof.
  intros Hw Hk. destruct (lookup_lt_is_Some_2 w (Z.to_nat k - length A)) as [c Hc]; [lia|].
  exists c. split; [|by apply (proj1 (Forall_lookup _ _) Hw _ _ Hc)].
  rewrite lookup_app_r by lia. by rewrite lookup_app_l by lia.
Qed.

Lemma spaced_space A B k : k = Z.of_nat (length A) -> spaced (A ++ space :: B) k true.
Proof. intros ->. exists space. rewrite Nat2Z.id. by rewrite list_lookup_middle. Qed.

Lemma insert_middle (A : text) c d B : <[length A := c]> (A ++ d :: B) = A ++ c :: B.
Proof. induction A as [|x A IH]; [done|]. cbn. by f_equal. Qed.

Lemma spaces_app a b : 0 <= a -> 0 <= b -> spaces (a + b) = spaces a ++ spaces b.
Proof. intros. unfold spaces. rewrite Z2Nat.inj_add by done. by rewrite replicate_add. Qed.

Lemma spaces_succ a : 0 <= a -> spaces (1 + a) = space :: spaces a.
Proof. intros. by rewrite spaces_app by lia. Qed.

Lemma length_spaces n : length (spaces n) = Z.to_nat n.
Proof. apply length_replicate. Qed.

(** * One line break *)

(** The spaces inserted before position [|A|], where the last space of [A] is at
    [begin + k], and the line feed. *)
Lemma insert_break indent begin k (A B : text) i : -1 <= k <= 79 - indent -> 0 <= indent ->
  Z.of_nat (length A) = begin + k -> i = begin + k + 1 -> 0 <= begin ->
  obind (insert_spaces (A ++ space :: B) i (begin + 80 - i))
    (fun formated => set_char formated (i + begin + 79 - i - indent) newline) =
  Ok (A ++ spaces (79 - indent - k) ++ newline :: spaces indent ++ B).
Proof.
  intros Hk Hin HA -> Hb. unfold insert_spaces. rewrite length_app. cbn [length].
  rewrite (proj2 (Z.ltb_ge _ 0)), (proj2 (Z.ltb_ge _ (begin + k + 1))) by lia. cbn [orb].
  rewrite (proj2 (Z.ltb_ge _ 0)) by lia. cbn [obind].
  replace (Z.to_nat (begin + k + 1)) with (length (A ++ [space])) by (rewrite length_app; cbn; lia).
  replace (A ++ space :: B) with ((A ++ [space]) ++ B) by (by rewrite <- app_assoc).
  rewrite take_app_length, drop_app_length.
  change (replicate (Z.to_nat (begin + 80 - (begin + k + 1))) space) with (spaces (begin + 80 - (begin + k + 1))).
  replace ((A ++ [space]) ++ spaces _ ++ B) with ((A ++ spaces (79 - indent - k)) ++ space :: spaces indent ++ B).
  2:{ rewrite <- !app_assoc. f_equal. change ([space] ++ ?x) with (space :: x).
      change (space :: spaces indent ++ B) with ((space :: spaces indent) ++ B).
      change (space :: spaces ?n ++ B) with ((space :: spaces n) ++ B).
      rewrite app_assoc, <- !spaces_succ, <- spaces_app by lia. f_equal. f_equal. lia. }
  unfold set_char. replace (Z.to_nat (begin + k + 1 + begin + 79 - (begin + k + 1) - indent))
    with (length (A ++ spaces (79 - indent - k))) by (rewrite length_app, length_spaces; lia).
  rewrite (char_at_ok _ _ space); [|lia|].
  - cbn [obind]. rewrite insert_middle, <- app_assoc. done.
  - replace (Z.to_nat _) with (length (A ++ spaces (79 - indent - k))) by (rewrite length_app, length_spaces; lia).
    by rewrite list_lookup_middle.
Qed.

Lemma int_of_small z : 0 <= z < 2 ^ 31 -> int_of z = Ok z.
Proof. intros H. unfold int_of. by rewrite (proj2 (Z.leb_le _ _)), (proj2 (Z.ltb_lt _ _)) by lia. Qed.

Lemma int_of_large z : 2 ^ 31 <= z -> int_of z = Err Undefined.
Proof. intros H. unfold int_of. by rewrite (proj2 (Z.ltb_ge _ _)), andb_false_r by done. Qed.

(** One iteration: the word after the space at [begin + k] does not fit the line, which ends
    at that space.  The sum that gives the position of the line feed must be an [int]. *)
Lemma break_line fuel indent begin k (A w B : text) : -1 <= k <= 79 - indent -> 0 <= indent -> 0 <= begin ->
  Z.of_nat (length A) = begin + k -> word w -> 79 - indent < k + 1 + Z.of_nat (length w) ->
  Z.of_nat (length (A ++ space :: w ++ B)) < 2 ^ 31 -> begin + 159 < 2 ^ 31 ->
  format_lines (S fuel) indent begin (begin + 79 - indent) (A ++ space :: w ++ B) =
  if 2 * begin + k + 80 <? 2 ^ 31 then
    format_lines fuel indent (begin + 80) (begin + 80 + 79 - indent)
      (A ++ spaces (79 - indent - k) ++ newline :: spaces indent ++ w ++ B)
  else Err Undefined.
Proof.
  intros Hk Hin Hb HA [Hne Hw] Hlong Hl Hi. cbn [format_lines].
  assert (0 < Z.of_nat (length w)) as Hw0 by (destruct w; [done|cbn; lia]).
  pose proof (insert_break indent begin k A (w ++ B) (begin + k + 1) Hk Hin HA eq_refl Hb) as Hins.
  set (s := A ++ space :: w ++ B) in *.
  assert (Z.of_nat (length s) = begin + k + 1 + Z.of_nat (length w) + Z.of_nat (length B)) as Els
    by (unfold s; rewrite length_app; cbn [length]; rewrite length_app; lia).
  rewrite (size_int_small s Hl), (proj2 (Z.ltb_lt _ _)) by lia.
  assert (forall j, begin + k < j <= begin + k + Z.of_nat (length w) -> spaced s j false) as Hns.
  { intros j Hj. unfold s. replace (A ++ space :: w ++ B) with ((A ++ [space]) ++ w ++ B) by (by rewrite <- app_assoc).
    apply spaced_word; [done|]. rewrite length_app. cbn [length]. lia. }
  assert (spaced s (begin + k) true) as Hsp by (unfold s; apply spaced_space; lia).
  rewrite (scan_back_to _ s begin _ (begin + k)); [|lia|lia|intros j Hj; apply Hns; lia|by right|lia]. cbn [obind].
  rewrite (scan_forward_one (length s) s (begin + k)); [|lia|done|done|apply Hns; lia]. cbn [obind].
  rewrite (int_of_small (begin + 80)) by lia. cbn [obind].
  destruct (insert_spaces s (begin + k + 1) (begin + 80 - (begin + k + 1))) as [s'|e]; [|done]. cbn [obind] in *.
  destruct (Z.ltb_spec (2 * begin + k + 80) (2 ^ 31)) as [Hs|Hs].
  - rewrite (int_of_small (begin + k + 1 + begin)) by lia. cbn [obind].
    rewrite (int_of_small (begin + k + 1 + begin + 79)) by lia. cbn [obind]. rewrite Hins. cbn [obind].
    by rewrite (int_of_small (begin + 80 + 79)) by lia.
  - destruct (Z.lt_ge_cases (begin + k + 1 + begin) (2 ^ 31)) as [H|H]; [|by rewrite int_of_large].
    rewrite (int_of_small (begin + k + 1 + begin)) by lia. cbn [obind]. by rewrite int_of_large by lia.
Qed.

(** * The greedy division *)

(** Where the first line ends. *)
Lemma fill_cases W line ws : Z.of_nat (length line) <= W ->
  (fill W line ws = [unwords (line :: ws)] /\ Z.of_nat (length (unwords (line :: ws))) <= W) \/
  exists ws1 w ws2, ws = ws1 ++ w :: ws2 /\ fill W line ws = unwords (line :: ws1) :: fill W w ws2 /\
    Z.of_nat (length (unwords (line :: ws1))) <= W < Z.of_nat (length (unwords (line :: ws1))) + 1 + Z.of_nat (length w).
Proof.
  revert line. induction ws as [|w ws IH]; intros line Hl; [by left|]. cbn [fill].
  destruct (Z.leb_spec (Z.of_nat (length line) + 1 + Z.of_nat (length w)) W) as [H|H].
  - assert (forall l, unwords ((line ++ space :: w) :: l) = unwords (line :: w :: l)) as Eu
      by (intros [|x l]; cbn; [done|by rewrite <- app_assoc]).
    destruct (IH (line ++ space :: w)) as [[E1 E2]|(ws1 & x & ws2 & -> & E1 & E2)];
      [rewrite length_app; cbn [length]; lia| |].
    + left. by rewrite Eu in *.
    + right. exists (w :: ws1), x, ws2. by rewrite Eu in *.
  - right. by exists [], w, ws.
Qed.

Lemma unwords_app ws1 w ws2 : ws1 <> [] -> unwords (ws1 ++ w :: ws2) = unwords ws1 ++ space :: unwords (w :: ws2).
Proof.
  induction ws1 as [|x ws1 IH]; [done|]. intros _. destruct ws1 as [|y ws1]; [done|].
  change (unwords ((x :: y :: ws1) ++ w :: ws2)) with (x ++ space :: unwords ((y :: ws1) ++ w :: ws2)).
  rewrite IH by done. cbn [unwords]. by rewrite <- app_assoc.
Qed.

Lemma unwords_word w ws : exists B, unwords (w :: ws) = w ++ B.
Proof. destruct ws as [|x ws]; [by exists []; cbn; rewrite app_nil_r|by eexists]. Qed.

Lemma lay_out_cons indent W line lines : lines <> [] ->
  lay_out indent W (line :: lines) =
    line ++ spaces (W - Z.of_nat (length line)) ++ newline :: spaces indent ++ lay_out indent W lines.
Proof. by destruct lines. Qed.

Lemma fill_nonempty W line ws : fill W line ws <> [].
Proof. revert line. induction ws as [|w ws IH]; intros line; cbn [fill]; [done|]. by destruct (_ <=? _). Qed.

(** Every word after the first comes with a space, and every line has a word. *)
Lemma unwords_length w ws : (length ws <= length (unwords (w :: ws)))%nat.
Proof.
  revert w. induction ws as [|x ws IH]; intros w; [cbn; lia|]. specialize (IH x).
  change (unwords (w :: x :: ws)) with (w ++ space :: unwords (x :: ws)). rewrite length_app. cbn [length] in *. lia.
Qed.

Lemma fill_length W line ws : (length (fill W line ws) <= S (length ws))%nat.
Proof.
  revert line. induction ws as [|w ws IH]; intros line; [done|]. cbn [fill].
  destruct (_ <=? _); cbn [length]; [specialize (IH (line ++ space :: w))|specialize (IH w)]; lia.
Qed.

(** * The loop on words that fit *)

Definition fits_in (W : Z) (w : text) : Prop := word w /\ Z.of_nat (length w) <= W.

Lemma indented_length A indent W : 0 <= Z.of_nat (length A) -> 0 <= indent -> 0 <= W ->
  Z.of_nat (length (A ++ spaces W ++ newline :: spaces indent)) = Z.of_nat (length A) + W + 1 + indent.
Proof. intros. rewrite !length_app. cbn [length]. rewrite !length_spaces. lia. Qed.

Lemma format_lays_out fuel indent w ws P begin : 0 <= indent <= 79 ->
  Z.of_nat (length P) = begin -> Forall (fits_in (79 - indent)) (w :: ws) -> (length ws < fuel)%nat ->
  2 * begin + Z.of_nat (length (unwords (w :: ws))) + 160 * Z.of_nat (length ws) + 400 < 2 ^ 31 ->
  format_lines fuel indent begin (begin + 79 - indent) (P ++ unwords (w :: ws)) =
    Ok (P ++ lay_out indent (79 - indent) (fill (79 - indent) w ws)).
Proof.
  revert w ws P begin. induction fuel as [|fuel IH]; intros w ws P begin Hin HP Hws Hf Hl; [lia|].
  apply list.Forall_cons_1 in Hws as [[Hw Hlw] Hws].
  destruct (fill_cases (79 - indent) w ws Hlw) as [[-> E]|(ws1 & x & ws2 & -> & -> & E)].
  - cbn [format_lines]. rewrite size_int_small by (rewrite length_app; lia).
    rewrite (proj2 (Z.ltb_ge _ _)); [done|]. rewrite length_app. lia.
  - apply Forall_app in Hws as [_ [Hx Hws2]%list.Forall_cons_1].
    change (w :: ws1 ++ x :: ws2) with ((w :: ws1) ++ x :: ws2) in *. rewrite unwords_app in * by done.
    destruct (unwords_word x ws2) as [B EB]. rewrite length_app in Hl. cbn [length] in Hl.
    rewrite length_app in Hf, Hl. cbn [length] in Hf, Hl. set (l1 := unwords (w :: ws1)) in *.
    assert (Z.of_nat (length (P ++ l1)) = begin + Z.of_nat (length l1)) as HA by (rewrite length_app; lia).
    pose proof (break_line fuel indent begin (Z.of_nat (length l1)) (P ++ l1) x B ltac:(lia) ltac:(lia) ltac:(lia)
      HA (proj1 Hx) ltac:(lia)) as H.
    assert (x ++ B = unwords (x :: ws2)) as EB' by done. rewrite !EB' in H.
    rewrite <- (app_assoc P l1) in H. rewrite H; [|clearbody l1|clearbody l1; lia].
    2:{ rewrite length_app. rewrite length_app. cbn [length]. lia. }
    rewrite (proj2 (Z.ltb_lt _ _)) by (clearbody l1; lia).
    rewrite lay_out_cons by apply fill_nonempty.
    replace ((P ++ l1) ++ spaces _ ++ newline :: spaces indent ++ unwords (x :: ws2))
      with (((P ++ l1) ++ spaces (79 - indent - Z.of_nat (length l1)) ++ newline :: spaces indent) ++ unwords (x :: ws2))
      by (rewrite <- !app_assoc; cbn [app]; done).
    rewrite IH; [|lia|rewrite indented_length by lia; lia|by constructor|lia|lia].
    f_equal. rewrite <- !app_assoc. cbn [app]. by rewrite <- ?app_assoc.
Qed.

(** * A word longer than the column *)

(** More fuel does not change a result. *)
Lemma format_fuel fuel d indent begin i s : format_lines (fuel + d) indent begin i s = Err OutOfFuel ->
  format_lines fuel indent begin i s = Err OutOfFuel.
Proof.
  revert begin i s. induction fuel as [|fuel IH]; intros begin i s; [done|]. cbn [Nat.add format_lines].
  destruct (i <? size_int s); [|done].
  repeat (match goal with |- obind ?m _ = _ -> _ => destruct m; cbn [obind]; [|done] end). apply IH.
Qed.

(** A word wider than the column. *)
Definition long (indent : Z) (w : text) : Prop := 79 - indent < Z.of_nat (length w).

(** Lines, each padded to the width and followed by a line feed and the indentation, and
    lines with nothing on them. *)
Definition line_break (indent : Z) (line : text) : text :=
  line ++ spaces (79 - indent - Z.of_nat (length line)) ++ newline :: spaces indent.
Definition broken (indent : Z) (lines : list text) : text := concat (line_break indent <$> lines).
Definition blank_lines (indent : Z) (k : nat) : text := concat (replicate k (line_break indent [])).

Lemma line_break_length indent line : 0 <= indent -> Z.of_nat (length line) <= 79 - indent ->
  length (line_break indent line) = 80%nat.
Proof. intros. unfold line_break. rewrite !length_app. cbn [length]. rewrite !length_spaces. lia. Qed.

Lemma spaces_last n : 1 <= n -> spaces n = spaces (n - 1) ++ [space].
Proof. intros H. replace n with (n - 1 + 1) at 1 by lia. by rewrite spaces_app by lia. Qed.

(** What is in front of the long word ends with a space. *)
Lemma line_break_last indent line : 1 <= indent -> exists A, line_break indent line = A ++ [space].
Proof.
  intros H. exists (line ++ spaces (79 - indent - Z.of_nat (length line)) ++ newline :: spaces (indent - 1)).
  unfold line_break. rewrite (spaces_last indent H), <- !app_assoc. by cbn [app].
Qed.

(** The lines in front of the word are those of the greedy division. *)
Lemma format_until_long fuel indent p pre w B P : 0 <= indent <= 79 -> Forall (fits_in (79 - indent)) (p :: pre) ->
  word w -> long indent w ->
  162 * Z.of_nat (length pre) + 2 * Z.of_nat (length P) + Z.of_nat (length (unwords (p :: pre) ++ space :: w ++ B)) +
    400 < 2 ^ 31 ->
  let lines := fill (79 - indent) p pre in
  let begin := Z.of_nat (length P) in
  format_lines (length lines + fuel) indent begin (begin + 79 - indent)
    (P ++ unwords (p :: pre) ++ space :: w ++ B) =
  format_lines fuel indent (begin + 80 * Z.of_nat (length lines))
    (begin + 80 * Z.of_nat (length lines) + 79 - indent) (P ++ broken indent lines ++ w ++ B).
Proof.
  intros Hin Hws Hw Hlong. remember (length pre) as n eqn:En. revert p pre P Hws En.
  induction (lt_wf n) as [n _ IH]. intros p pre P Hws -> Hl lines begin. unfold lines, begin. clear lines begin.
  pose proof Hws as [[Hp Hlp] Hpre]%list.Forall_cons_1. unfold long in Hlong.
  destruct (fill_cases (79 - indent) p pre Hlp) as [[-> E]|(ws1 & x & ws2 & -> & -> & E)].
  - set (l1 := unwords (p :: pre)) in *. clearbody l1. cbn [length Nat.add].
    replace (P ++ l1 ++ space :: w ++ B) with ((P ++ l1) ++ space :: w ++ B) by by rewrite <- app_assoc.
    rewrite length_app in Hl.
    rewrite (break_line fuel indent (Z.of_nat (length P)) (Z.of_nat (length l1)) (P ++ l1) w B);
      [|lia|lia|lia|rewrite length_app; lia|done|lia|rewrite !length_app in *; lia|lia].
    rewrite (proj2 (Z.ltb_lt _ _)) by lia. rewrite Z.mul_1_r. f_equal.
    unfold broken, line_break. cbn [fmap list_fmap concat]. rewrite app_nil_r, <- !app_assoc. by cbn [app].
  - apply Forall_app in Hpre as [_ Hx]. pose proof Hx as [[Hx' _] _]%list.Forall_cons_1.
    change (p :: ws1 ++ x :: ws2) with ((p :: ws1) ++ x :: ws2) in *. rewrite unwords_app in * by done.
    rewrite (length_app ws1) in Hl, IH. cbn [length Nat.add] in *.
    set (l1 := unwords (p :: ws1)) in *. clearbody l1.
    destruct (unwords_word x ws2) as [C EC].
    assert (EA : (l1 ++ space :: unwords (x :: ws2)) ++ space :: w ++ B =
      l1 ++ space :: x ++ C ++ space :: w ++ B) by (rewrite EC, <- !app_assoc; cbn [app]; by rewrite <- app_assoc).
    rewrite EA in *. rewrite length_app in Hl. cbn [length] in Hl.
    replace (P ++ l1 ++ space :: x ++ C ++ space :: w ++ B) with ((P ++ l1) ++ space :: x ++ C ++ space :: w ++ B)
      by by rewrite <- app_assoc.
    rewrite (break_line _ indent (Z.of_nat (length P)) (Z.of_nat (length l1)) (P ++ l1) x (C ++ space :: w ++ B));
      [|lia|lia|lia|rewrite length_app; lia|done|lia|rewrite <- app_assoc, (length_app P), (length_app l1); cbn [length]; lia|lia].
    rewrite (proj2 (Z.ltb_lt _ _)) by lia.
    set (P1 := P ++ line_break indent l1).
    assert (HP1 : Z.of_nat (length P1) = Z.of_nat (length P) + 80)
      by (unfold P1; rewrite length_app, line_break_length by lia; lia).
    replace ((P ++ l1) ++ _) with (P1 ++ unwords (x :: ws2) ++ space :: w ++ B).
    2:{ unfold P1, line_break. rewrite EC, <- !app_assoc. by cbn [app]. }
    rewrite <- HP1.
    assert (Hl1 : Z.of_nat (length (unwords (x :: ws2) ++ space :: w ++ B)) =
      Z.of_nat (length (x ++ C ++ space :: w ++ B))) by by rewrite EC, <- app_assoc.
    rewrite (IH (length ws2) ltac:(lia) x ws2 P1 Hx eq_refl ltac:(lia)).
    rewrite HP1. f_equal; [lia|lia|]. unfold P1, broken. rewrite fmap_cons. cbn [concat].
    by rewrite <- !app_assoc.
Qed.

(** The word starts the line: an empty line is inserted before it. *)
Lemma format_blank k fuel indent w B P : 1 <= indent <= 79 -> (exists A, P = A ++ [space]) ->
  word w -> long indent w -> 2 * Z.of_nat (length P) + 160 * Z.of_nat k <= 2 ^ 31 + 80 ->
  Z.of_nat (length (w ++ B)) < 2 ^ 29 ->
  let at_ n := Z.of_nat (length P) + 80 * Z.of_nat n in
  format_lines (k + fuel) indent (at_ 0%nat) (at_ 0%nat + 79 - indent) (P ++ w ++ B) =
  format_lines fuel indent (at_ k) (at_ k + 79 - indent) (P ++ blank_lines indent k ++ w ++ B).
Proof.
  intros Hin HP Hw Hlong Hk Hl. cbv zeta. revert P HP Hk. unfold long in Hlong.
  induction k as [|k IH]; intros P [A ->] Hk; [done|]. cbn [Nat.add]. rewrite Z.mul_0_r, Z.add_0_r.
  replace ((A ++ [space]) ++ w ++ B) with (A ++ space :: w ++ B) by by rewrite <- app_assoc.
  rewrite length_app in *. cbn [length] in *.
  rewrite (break_line _ indent (Z.of_nat (length A + 1)) (-1) A w B);
    [|lia|lia|lia|lia|done|lia|rewrite length_app; cbn [length]; rewrite length_app; lia|lia].
  rewrite (proj2 (Z.ltb_lt _ _)) by lia.
  set (P1 := (A ++ [space]) ++ line_break indent []).
  assert (HP1 : length P1 = (length A + 1 + 80)%nat)
    by (unfold P1; rewrite !length_app, line_break_length by (cbn; lia); cbn; lia).
  replace (A ++ spaces (79 - indent - -1) ++ newline :: spaces indent ++ w ++ B) with (P1 ++ w ++ B).
  2:{ unfold P1, line_break. rewrite <- !app_assoc. cbn [length app]. do 2 f_equal.
      replace (79 - indent - -1) with (1 + (79 - indent - Z.of_nat 0)) by lia.
      rewrite spaces_succ by lia. by cbn [app]. }
  destruct (line_break_last indent [] ltac:(lia)) as [A1 EA1].
  rewrite <- (Z.add_0_r (Z.of_nat (length A + 1) + 80)).
  replace (Z.of_nat (length A + 1) + 80) with (Z.of_nat (length P1)) by lia.
  change 0 with (80 * Z.of_nat 0).
  rewrite (IH P1); [|exists ((A ++ [space]) ++ A1); by rewrite <- app_assoc, <- EA1|lia].
  f_equal; [lia|lia|]. unfold P1, blank_lines. cbn [replicate concat]. by rewrite <- !app_assoc.
Qed.

(** * The usage text *)

Lemma fill_sound W line ws : Z.of_nat (length line) <= W -> Forall (fun w => Z.of_nat (length w) <= W) ws ->
  Forall (fun l => Z.of_nat (length l) <= W) (fill W line ws) /\ unwords (fill W line ws) = unwords (line :: ws).
Proof.
  revert line. induction ws as [|w ws IH]; intros line Hl Hws; [by repeat constructor|].
  apply list.Forall_cons_1 in Hws as [Hw Hws]. cbn [fill].
  destruct (Z.leb_spec (Z.of_nat (length line) + 1 + Z.of_nat (length w)) W) as [H|H].
  - destruct (IH (line ++ space :: w)) as [H1 H2]; [rewrite length_app; cbn [length]; lia|done|].
    split; [exact H1|]. rewrite H2. destruct ws; cbn [unwords]; [done|by rewrite <- app_assoc].
  - destruct (IH w Hw Hws) as [H1 H2]. split; [by constructor|].
    change (line :: fill W w ws) with ([line] ++ fill W w ws).
    destruct (fill W w ws) as [|x l] eqn:E; [by destruct (fill_nonempty W w ws)|].
    cbn [app]. change (unwords (line :: x :: l)) with (line ++ space :: unwords (x :: l)). by rewrite H2.
Qed.

Lemma FormatHelp_lays_out fuel indent ws : 0 <= indent <= 79 -> Forall (fits_in (79 - indent)) ws ->
  (length ws < fuel)%nat -> Z.of_nat (length (unwords ws)) < 2 ^ 23 ->
  FormatHelp fuel (unwords ws) indent = Ok (lay_out indent (79 - indent) (lines_of (79 - indent) ws)).
Proof.
  intros Hin Hws Hf Hl. unfold FormatHelp. destruct ws as [|w ws].
  - destruct fuel as [|fuel]; [lia|]. cbn [format_lines unwords]. rewrite size_int_small by done.
    by rewrite (proj2 (Z.ltb_ge _ _)) by (cbn; lia).
  - cbn [lines_of]. pose proof (unwords_length w ws). apply (format_lays_out fuel indent w ws [] 0); cbn [length] in *; try done; lia.
Qed.

(** The text of one option: the abbreviation and the option in the first columns, then the
    lines of its help. *)
Definition entry (out : ostream) (arg abbr : text) (indent : Z) (lines : list text) : text :=
  padded (left_adjusted out) (width out) [space] ++ padded (left_adjusted out) 2 abbr ++ [space] ++
  arg ++ spaces (indent - 4 - Z.of_nat (length arg)) ++ lay_out indent (79 - indent) lines ++ [newline].

(** C21: [Usage::Print] lays the help text out as the greedy division of its words into lines:
    when every word fits the column that starts after the option, the in-place insertions of
    [FormatHelp] end and give the lines of that division, each padded to the width of the
    column and followed by a line feed and the indentation; no line is wider than the column,
    and the lines hold the words of the text in their order. *)
Theorem usage_wrapped fuel out arg abbr ws indent :
  indent = Z.max 30 (Z.of_nat (length arg) + 5) -> indent <= 79 ->
  Forall (fits_in (79 - indent)) ws -> (length ws < fuel)%nat -> Z.of_nat (length (unwords ws)) < 2 ^ 23 ->
  Print fuel arg abbr (unwords ws) out =
    (Ok tt, mkOut (written out ++ entry out arg abbr indent (lines_of (79 - indent) ws)) 0 true) /\
  Forall (fun line => Z.of_nat (length line) <= 79 - indent) (lines_of (79 - indent) ws) /\
  unwords (lines_of (79 - indent) ws) = unwords ws.
Proof.
  intros Ei Hin Hws Hf Hl. split.
  - unfold Print. rewrite size_int_small by lia. rewrite <- Ei.
    rewrite (bind_of_outcome_ok _ _ _ _ (FormatHelp_lays_out fuel indent ws ltac:(lia) Hws Hf Hl)).
    unfold put_string, set_width, set_left, put_endl. rewrite !bind_modify. unfold modify. cbn [written width left_adjusted].
    f_equal. f_equal. unfold entry, padded. cbn [length].
    change (spaces (0 - Z.of_nat 1)) with (@nil Z).
    replace (spaces (0 - Z.of_nat (length (lay_out _ _ _)))) with (@nil Z)
      by (unfold spaces; by rewrite Z2Nat.nonpos by lia).
    rewrite !app_nil_r. change (lit " ") with [space]. destruct (left_adjusted out); by rewrite <- !app_assoc.
  - destruct ws as [|w ws]; [by repeat constructor; cbn; lia|]. cbn [lines_of].
    apply list.Forall_cons_1 in Hws as [[_ Hw] Hws]. apply fill_sound; [exact Hw|].
    eapply list.Forall_impl; [exact Hws|]. by intros x [_ H].
Qed.

(** The line breaks before the position of the next line feed is no [int]. *)
Definition max_breaks : Z := 13421773.

(** The first word is too long: the scan for a space ends before the text. *)
Lemma first_word_long fuel indent w ws : 1 <= indent <= 79 -> word w -> long indent w ->
  Z.of_nat (length (unwords (w :: ws))) < 2 ^ 31 ->
  FormatHelp (S fuel) (unwords (w :: ws)) indent = Err Undefined.
Proof.
  intros Hin [_ Hc] Hw Hl. unfold FormatHelp. cbn [format_lines]. unfold long in Hw.
  destruct (unwords_word w ws) as [B EB]. rewrite EB in *. rewrite length_app in Hl.
  assert (forall k, -1 < k <= 79 - indent -> spaced (w ++ B) k false) as Hns
    by (intros k Hk; apply (spaced_word [] w B k Hc); cbn [length]; lia).
  rewrite size_int_small by (rewrite length_app; lia). rewrite (proj2 (Z.ltb_lt _ _)) by (rewrite length_app; lia).
  rewrite (scan_back_to _ (w ++ B) 0 _ (-1)); [|lia|lia|exact Hns|by left|rewrite length_app; lia]. cbn [obind].
  cbn [scan_forward]. rewrite size_int_small by (rewrite length_app; lia).
  by rewrite (proj2 (Z.ltb_lt _ _)) by lia.
Qed.

Lemma broken_length indent lines : 0 <= indent -> Forall (fun l => Z.of_nat (length l) <= 79 - indent) lines ->
  length (broken indent lines) = (80 * length lines)%nat.
Proof.
  intros Hi. induction 1 as [|l lines Hl _ IH]; [done|]. unfold broken in *. rewrite fmap_cons. cbn [concat length].
  rewrite length_app, IH, line_break_length by done. lia.
Qed.

Lemma broken_last indent lines : 1 <= indent -> lines <> [] -> exists A, broken indent lines = A ++ [space].
Proof.
  intros Hi Hne. destruct (exists_last Hne) as (ls & l & ->). destruct (line_break_last indent l Hi) as [A EA].
  exists (broken indent ls ++ A). unfold broken. rewrite fmap_app, concat_app. cbn [fmap list_fmap concat].
  by rewrite app_nil_r, EA, app_assoc.
Qed.

Lemma broken_blank indent lines k :
  broken indent (lines ++ replicate k []) = broken indent lines ++ blank_lines indent k.
Proof. unfold broken, blank_lines. by rewrite fmap_app, concat_app, fmap_replicate. Qed.

(** The state after the lines in front of the long word and [k] more line breaks. *)
Lemma FormatHelp_long indent p pre w post k fuel : 1 <= indent <= 79 ->
  Forall (fits_in (79 - indent)) (p :: pre) -> word w -> long indent w ->
  Z.of_nat (length (unwords ((p :: pre) ++ w :: post))) < 2 ^ 23 ->
  let lines := fill (79 - indent) p pre in
  let begin := 80 * Z.of_nat (length lines + k) in
  Z.of_nat (length lines + k) <= max_breaks ->
  FormatHelp (length lines + k + fuel) (unwords ((p :: pre) ++ w :: post)) indent =
  format_lines fuel indent begin (begin + 79 - indent)
    (broken indent lines ++ blank_lines indent k ++ unwords (w :: post)).
Proof.
  intros Hin Hpre Hw Hlong Hl lines begin Hk. unfold begin, FormatHelp, max_breaks in *. clear begin.
  rewrite unwords_app in * by done. destruct (unwords_word w post) as [B EB]. rewrite EB in *.
  pose proof (unwords_length p pre) as Hp. pose proof (fill_length (79 - indent) p pre) as Hf. fold lines in Hf.
  rewrite length_app in Hl. cbn [length] in Hl.
  pose proof Hpre as [[_ Hlp] Hpre']%list.Forall_cons_1.
  destruct (fill_sound (79 - indent) p pre Hlp) as [Hls _].
  { eapply list.Forall_impl; [exact Hpre'|]. by intros x [_ H]. }
  rewrite <- Nat.add_assoc.
  pose proof (format_until_long (k + fuel) indent p pre w B [] ltac:(lia) Hpre Hw Hlong) as H1. cbv zeta in H1.
  change (Z.of_nat (length (@nil Z))) with 0 in H1. cbn [app] in H1. rewrite !Z.add_0_l in H1.
  fold lines in H1. rewrite H1.
  2:{ rewrite length_app. cbn [length]. lia. }
  pose proof (broken_length indent lines ltac:(lia) Hls) as Hb.
  pose proof (format_blank k fuel indent w B (broken indent lines) Hin) as H2. cbv beta zeta in H2.
  change (80 * Z.of_nat 0) with 0 in H2. rewrite Z.add_0_r in H2.
  replace (Z.of_nat (length (broken indent lines))) with (80 * Z.of_nat (length lines)) in H2 by lia.
  rewrite H2; [|apply broken_last; [lia|apply fill_nonempty]|done|done|lia|lia].
  f_equal; lia.
Qed.

(** The next line break after those. *)
Lemma format_overflows fuel indent w post lines : 1 <= indent <= 79 ->
  Forall (fun l => Z.of_nat (length l) <= 79 - indent) lines -> Z.of_nat (length lines) = max_breaks ->
  word w -> long indent w -> Z.of_nat (length (unwords (w :: post))) < 2 ^ 23 ->
  format_lines (S fuel) indent (80 * max_breaks) (80 * max_breaks + 79 - indent)
    (broken indent lines ++ unwords (w :: post)) = Err Undefined.
Proof.
  intros Hin Hls Hn Hw Hlong Hl. pose proof (broken_length indent lines ltac:(lia) Hls) as Hb.
  destruct (broken_last indent lines ltac:(lia)) as [A EA]; [by intros ->|]. rewrite EA in *.
  destruct (unwords_word w post) as [B EB]. rewrite EB in *. unfold max_breaks, long in *.
  rewrite length_app in Hb. cbn [length] in Hb.
  replace ((A ++ [space]) ++ w ++ B) with (A ++ space :: w ++ B) by by rewrite <- app_assoc.
  rewrite (break_line fuel indent _ (-1) A w B); [|lia|lia|lia|lia|done|lia| |lia].
  - by rewrite (proj2 (Z.ltb_ge _ _)) by lia.
  - rewrite length_app. cbn [length]. lia.
Qed.

(** C40: A help text with a word wider than its column is never laid out.  Let the text
    have less than 2^23 characters, its column start at 1 to 79, and the words in front of the
    long one fit.  When there are none, the scan for a space leaves the text at its start,
    and the access is undefined.  Otherwise the loop lays out the lines of the greedy division
    of those words, with the long word at the start of the next line, and from then on every
    iteration finds the same word again and inserts a line of 80 columns with nothing on it in
    front of it: after [k] more iterations the text is the lines, [k] empty ones and the rest,
    as long as no [int] overflows.  One does at the latest after [max_breaks] line breaks, in
    the position of the line feed, with the text grown to 2^30 bytes; so the loop never
    returns a text: given less fuel than that it runs out of it, and given more its behaviour
    is undefined. *)
Theorem usage_long_word indent pre w post :
  1 <= indent <= 79 -> Forall (fits_in (79 - indent)) pre -> word w -> long indent w ->
  Z.of_nat (length (unwords (pre ++ w :: post))) < 2 ^ 23 ->
  let help := unwords (pre ++ w :: post) in
  let lines := lines_of (79 - indent) pre in
  if decide (pre = []) then forall fuel, FormatHelp (S fuel) help indent = Err Undefined
  else
    (forall k fuel, Z.of_nat (length lines + k) <= max_breaks ->
      let begin := 80 * Z.of_nat (length lines + k) in
      FormatHelp (length lines + k + fuel) help indent =
      format_lines fuel indent begin (begin + 79 - indent)
        (broken indent lines ++ blank_lines indent k ++ unwords (w :: post))) /\
    (forall fuel, FormatHelp fuel help indent =
      Err (if Z.of_nat fuel <=? max_breaks then OutOfFuel else Undefined)).
Proof.
  intros Hin Hpre Hw Hlong Hl help lines. unfold help, lines. destruct pre as [|p pre].
  { rewrite decide_True by done. intros fuel. apply first_word_long; [done..|]. cbn [app] in Hl. lia. }
  rewrite decide_False by done. cbn [lines_of]. set (ls := fill (79 - indent) p pre).
  assert (HM : forall k fuel, _) by (intros k fuel; exact (FormatHelp_long indent p pre w post k fuel Hin Hpre Hw Hlong Hl)).
  cbv zeta in HM. fold ls in HM. split; [exact HM|]. intros fuel.
  pose proof (unwords_length p pre) as Hp. pose proof (fill_length (79 - indent) p pre) as Hf. fold ls in Hf.
  assert (Hlen : Z.of_nat (length (unwords (p :: pre))) + 1 + Z.of_nat (length (unwords (w :: post))) < 2 ^ 23).
  { rewrite unwords_app in Hl by done. rewrite length_app in Hl. cbn [length] in Hl. lia. }
  assert (Hls : Z.of_nat (length ls) <= max_breaks) by (unfold max_breaks; lia).
  assert (HN : exists M, Z.of_nat M = max_breaks) by (exists (Z.to_nat max_breaks); by apply Z2Nat.id).
  destruct HN as [M HN]. pose proof (HM (M - length ls)%nat) as Hend.
  replace (length ls + (M - length ls))%nat with M in Hend by lia.
  rewrite HN in Hend. destruct (Z.leb_spec (Z.of_nat fuel) max_breaks) as [Hfu|Hfu].
  - apply (format_fuel fuel (M - fuel)). replace (fuel + (M - fuel))%nat with (M + 0)%nat by lia.
    exact (Hend 0%nat ltac:(done)).
  - replace fuel with (M + S (fuel - M - 1))%nat by lia.
    rewrite Hend, app_assoc, <- broken_blank by done. apply format_overflows; try done.
    + apply Forall_app. split; [|by apply Forall_replicate; cbn; lia].
      pose proof Hpre as [[_ Hlp] Hpre']%list.Forall_cons_1. apply fill_sound; [exact Hlp|].
      eapply list.Forall_impl; [exact Hpre'|]. by intros x [_ H].
    + rewrite length_app, length_replicate. lia.
    + lia.
Qed.

(** ** Instances *)

Definition sample_words : list text :=
  lit <$> ["long"; "help"; "string"; "that"; "will"; "need"; "to"; "be"; "wrapped"; "because"; "it"; "won't";
           "fit"; "in"; "one"; "line"]%string.

Lemma usage_wrapped_witness :
  Print 20 (lit "--longish=LONGISH") (lit "-l") (unwords sample_words) (mkOut [] 0 false) =
  (Ok tt, mkOut (lit " -l --longish=LONGISH         long help string that will need to be wrapped    " ++
                 [newline] ++ lit "                              because it won't fit in one line" ++ [newline]) 0 true).
Proof.
  destruct (usage_wrapped 20 (mkOut [] 0 false) (lit "--longish=LONGISH") (lit "-l") sample_words 30) as [-> _].
  - reflexivity.
  - lia.
  - unfold sample_words. repeat constructor; first [by vm_compute|done].
  - cbn. lia.
  - by vm_compute.
  - by vm_compute.
Defined.

(** A word of 50 characters in the column of 49. *)
Definition wide_words : list text := [lit "see"; replicate 50 120; lit "also"].

Lemma usage_long_word_witness :
  (forall fuel, FormatHelp fuel (unwords wide_words) 30 =
    Err (if Z.of_nat fuel <=? max_breaks then OutOfFuel else Undefined)) /\
  (forall fuel, FormatHelp (2 + fuel) (unwords wide_words) 30 =
    format_lines fuel 30 160 209 (lit "see" ++ spaces 46 ++ newline :: spaces 30 ++
      spaces 49 ++ newline :: spaces 30 ++ replicate 50 120 ++ lit " also")) /\
  FormatHelp 1 (unwords [replicate 50 120]) 30 = Err Undefined.
Proof.
  assert (Hw : word (replicate 50 120)) by (split; [done|]; apply Forall_replicate; by vm_compute).
  assert (Hs : Forall (fits_in 49) [lit "see"]) by (repeat constructor; by vm_compute).
  destruct (usage_long_word 30 [lit "see"] (replicate 50 120) [lit "also"] ltac:(lia) Hs Hw
    ltac:(by vm_compute) ltac:(by vm_compute)) as [Hk Hf].
  split; [exact Hf|]. split.
  - intros fuel. exact (Hk 1%nat fuel ltac:(by vm_compute)).
  - exact (usage_long_word 30 [] (replicate 50 120) [] ltac:(lia) ltac:(constructor) Hw
      ltac:(by vm_compute) ltac:(by vm_compute) 0%nat).
Defined.
