(* ===== verification/SelectProtocol.v ===== *)
(** Protocol selection (cpp/inc/bond/core/select_protocol.h, protocol.h
    [BuiltInProtocols], detail/mpl.h [try_apply], bond.h [Marshal] and [Unmarshal],
    transforms.h [Marshaler], bond_version.h).

    A marshaled payload starts with a magic number and a version.  Unmarshalling asks
    the reader of each protocol in turn whether the payload is its own, each on a copy
    of the input.  The other functions here take the protocol by its magic number. *)

From S2P Require Import Prelude Memory Blob Streams Encoding InputBuffer OutputBuffer.
From S2P Require Import OutputCounter DataType Metadata Protocol Serializer FastBinary.
From S2P Require Import CompactBinary CompactBinaryReader SimpleBinary Schema Parser.
From S2P Require Import ParserCorrect Deserialization StaticRoundTrip EndToEnd.

(** The readers of [BuiltInProtocols] that are enabled by default (config.h); the JSON
    reader's [ReadVersion] returns false. *)
Inductive protocol : Set := CompactBinary | SimpleBinary | FastBinary.
Definition BuiltInProtocols : list protocol := [CompactBinary; SimpleBinary; FastBinary].

(** [Reader::magic], [Reader::version] and [default_version<Reader>]. *)
Definition magic (p : protocol) : Z :=
  match p with
  | CompactBinary => COMPACT_PROTOCOL
  | SimpleBinary => SIMPLE_PROTOCOL
  | FastBinary => FAST_PROTOCOL
  end.
Definition latest_version (p : protocol) : Z := match p with FastBinary => v1 | _ => v2 end.
Definition default_version (p : protocol) : Z := v1.

(** [mpl::try_apply]: the result of the first type for which there is one. *)
Fixpoint try_apply {X A} (f : X -> outcome (option A)) (l : list X) : outcome (option A) :=
  match l with
  | [] => Ok None
  | x :: l' =>
      olet result := f x in
      match result with Some a => Ok (Some a) | None => try_apply f l' end
  end.

Definition TryEachProtocol {X A} (f : X -> outcome (option A)) (l : list X) : outcome A :=
  olet result := try_apply f l in
  match result with Some a => Ok a | None => Err (Thrown UnknownProtocolException) end.

Section Readers.
Context {R : Type} `{InputStream R}.

Definition ReadVersion (p : protocol) : M R (bool * Z) :=
  match p with
  | CompactBinary => cb_ReadVersion true
  | SimpleBinary => sb_ReadVersion
  | FastBinary => let! b := fb_ReadVersion in ret (b, v1)
  end.

Definition reader (p : protocol) (version : Z) : ProtocolReader R :=
  match p with
  | CompactBinary => CompactBinaryReader version
  | SimpleBinary => SimpleBinaryReader version
  | FastBinary => FastBinaryReader
  end.

Section Transform.
Context {A : Type} (transform : ProtocolReader R -> M R A).

(** [NextProtocolFunctor]: the protocol's reader is made from the input, which is not
    changed. *)
Definition NextProtocolFunctor (input : R) (p : protocol) : outcome (option (Z * A)) :=
  fst ((let! h := ReadVersion p in
        if fst h then
          let! a := transform (reader p (snd h)) in ret (Some (magic p, a))
        else ret None) input).

(** [SelectProtocolAndApply(input, transform)]. *)
Definition NextProtocol (input : R) : outcome (Z * A) :=
  TryEachProtocol (NextProtocolFunctor input) BuiltInProtocols.

(** [Apply(transform, input, protocol)]: no version is read, the reader has its
    default. *)
Definition magic_functor (input : R) (number : Z) (p : protocol) : outcome (option A) :=
  if magic p =? number
  then olet a := fst (transform (reader p (default_version p)) input) in Ok (Some a)
  else Ok None.
Definition NextProtocolByMagic (input : R) (number : Z) : outcome A :=
  TryEachProtocol (magic_functor input number) BuiltInProtocols.
End Transform.

Definition Unmarshal (t : ftype) (input : R) : outcome (Z * value) :=
  NextProtocol (fun P => Deserialize P t) input.
End Readers.

Section Writers.
Context {W : Type} `{OutputStream W}.

(** A Compact Binary writer made for the occasion. *)
Definition with_compact (m : M (CompactBinaryWriter W) unit) : M W unit :=
  fun output => let '(o, w) := m (CompactBinaryWriter_new output) in (o, cb_output w).

Definition Marshal (p : protocol) (version : Z) (v : value) : M W unit :=
  match p with
  | CompactBinary => with_compact (cb_Marshal version v)
  | SimpleBinary => Serializer.Marshal (SimpleBinaryWriter version) v
  | FastBinary => Serializer.Marshal FastBinaryWriter v
  end.

Definition Serialize (p : protocol) (version : Z) (v : value) : M W unit :=
  match p with
  | CompactBinary => with_compact (cb_Serialize version v)
  | SimpleBinary => Apply (SimpleBinaryWriter version) false v
  | FastBinary => Apply FastBinaryWriter false v
  end.

(** [Apply<Serializer>(value, output, protocol)]. *)
Definition writer_functor (v : value) (number : Z) (output : W) (p : protocol) :
    outcome (option W) :=
  if magic p =? number
  then let '(o, output') := Serialize p (default_version p) v output in
       olet _ := o in Ok (Some output')
  else Ok None.
Definition SerializeByMagic (v : value) (number : Z) (output : W) : outcome W :=
  TryEachProtocol (writer_functor v number output) BuiltInProtocols.
End Writers.

(** * The format of a marshaled payload *)

Definition format (p : protocol) (version : Z) : wire_format :=
  match p with
  | CompactBinary => cb_format version
  | SimpleBinary => sb_format version
  | FastBinary => fb_format
  end.
Definition header (number version : Z) : list byte := le_bytes 2 number ++ le_bytes 2 version.

Definition version_of (p : protocol) (version : Z) : Prop :=
  match p with FastBinary => version = v1 | _ => version = v1 \/ version = v2 end.

(** The protocol that takes a payload with this header. *)
Definition supported (number version : Z) : option protocol :=
  find (fun p => (magic p =? number) && (version <=? latest_version p)) BuiltInProtocols.

(** * Properties *)

Section Select.
Context {R : Type} `{InputStreamLaws R}.

Lemma header_reads p number version : fits 16 number -> fits 16 version ->
  reads (ReadVersion (R := R) p) (header number version)
    ((number =? magic p) && (version <=? latest_version p),
     match p with FastBinary => v1 | _ => version end).
Proof.
  intros Hn Hv.
  assert (Hr : forall z, fits 16 z -> reads (is_Read (S := R) 2) (le_bytes 2 z) z).
  { intros z Hz. replace z with (of_le (le_bytes 2 z)) at 2
      by (rewrite of_le_bytes; by apply wrap_id).
    apply is_Read_reads; [apply length_le_bytes|lia]. }
  unfold header. destruct p; cbn [ReadVersion latest_version magic].
  - eapply reads_bind; [by apply Hr|]. apply (reads_map _ (fun nv =>
      ((number =? COMPACT_PROTOCOL) && (nv <=? v2), nv)) _ version). by apply Hr.
  - eapply reads_bind; [by apply Hr|]. apply (reads_map _ (fun nv =>
      ((number =? SIMPLE_PROTOCOL) && (nv <=? v2), nv)) _ version). by apply Hr.
  - apply (reads_map _ (fun b => (b, v1))). eapply reads_bind; [by apply Hr|].
    apply (reads_map _ (fun nv => (number =? FAST_PROTOCOL) && (nv <=? v1)) _ version). by apply Hr.
Qed.

(** One protocol's turn. *)
Lemma functor_spec {A} (transform : ProtocolReader R -> M R A) p number version (input : R) body :
  fits 16 number -> fits 16 version -> readable input -> view input = header number version ++ body ->
  exists r, readable r /\ view r = body /\
  NextProtocolFunctor transform input p =
    if (magic p =? number) && (version <=? latest_version p) then
      olet a := fst (transform (reader p (match p with FastBinary => v1 | _ => version end)) r) in
      Ok (Some (number, a))
    else Ok None.
Proof.
  intros Hn Hv Hr Hview.
  destruct (header_reads p number version Hn Hv input body Hr Hview) as (r & E & V & Hr').
  exists r. split_and!; [done|done|]. unfold NextProtocolFunctor. rewrite (bind_ok _ _ _ _ _ E).
  cbn [fst snd]. rewrite Z.eqb_sym.
  destruct ((magic p =? number) && (version <=? latest_version p)) eqn:Eb; [|done].
  apply andb_true_iff in Eb as [Eb _]. apply Z.eqb_eq in Eb as <-. unfold bind.
  by destruct (transform _ r) as [[a|e] r'].
Qed.

Lemma NextProtocol_spec {A} (transform : ProtocolReader R -> M R A) number version (input : R) body :
  fits 16 number -> fits 16 version -> readable input -> view input = header number version ++ body ->
  match supported number version with
  | Some p => exists r, readable r /\ view r = body /\
      NextProtocol transform input =
        olet a := fst (transform (reader p (match p with FastBinary => v1 | _ => version end)) r) in
        Ok (number, a)
  | None => NextProtocol transform input = Err (Thrown UnknownProtocolException)
  end.
Proof.
  intros Hn Hv Hr Hview. unfold NextProtocol, TryEachProtocol, supported.
  induction BuiltInProtocols as [|p l IH]; [done|]. cbn [find try_apply].
  destruct (functor_spec transform p number version input body Hn Hv Hr Hview)
    as (r & Hr' & V & ->).
  destruct ((magic p =? number) && (version <=? latest_version p)) eqn:E; [|exact IH].
  exists r. split_and!; [done|done|]. by destruct (fst (transform _ r)).
Qed.
End Select.

(** ** Writing *)

Section Write.
Context {W : Type} `{OutputStreamLaws W}.

Lemma header_emits number version : emits (S := W)
  (os_Write 2 number ;;; os_Write 2 version) (header number version).
Proof. apply emits_bind; apply os_Write_emits; lia. Qed.

Lemma Serialize_emits p version v : version_of p version -> value_ok v ->
  zlen (encode (format p version) false v) < 2 ^ 32 ->
  emits (S := W) (Serialize p version v) (encode (format p version) false v).
Proof.
  intros Hver Hv Hl. destruct p; cbn [format Serialize version_of] in *.
  - intros w n Hr Hn. unfold with_compact.
    destruct (cb_Serialize_run version v (CompactBinaryWriter_new w) n Hver Hv Hl eq_refl Hr Hn)
      as (w' & -> & A & Rm & _). by exists (cb_output w').
  - by apply (Apply_written _ stream_logic _ (sb_writer_laws version) v Hv false).
  - by apply (Apply_written _ stream_logic _ fb_writer_laws v Hv false).
Qed.

Lemma Marshal_emits p version v : version_of p version -> value_ok v ->
  zlen (encode (format p version) false v) < 2 ^ 32 ->
  emits (S := W) (Marshal p version v)
    (header (magic p) version ++ encode (format p version) false v).
Proof.
  intros Hver Hv Hl. pose proof (Serialize_emits p version v Hver Hv Hl) as Hs.
  destruct p; cbn [format Serialize Marshal magic version_of] in *.
  - intros w n Hr Hn. rewrite length_app in *. unfold with_compact, cb_Marshal.
    destruct (header_emits COMPACT_PROTOCOL version w n Hr ltac:(lia)) as (w1 & E1 & A1 & R1).
    assert (E1' : cb_WriteVersion version (CompactBinaryWriter_new w) =
      (Ok tt, CompactBinaryWriter_new w1)).
    { unfold cb_WriteVersion, cb_out, zoom. cbn [CompactBinaryWriter_new cb_output]. by rewrite E1. }
    rewrite (bind_ok _ _ _ _ _ E1').
    destruct (cb_Serialize_run version v (CompactBinaryWriter_new w1) _ Hver Hv Hl eq_refl R1
      ltac:(lia)) as (w2 & -> & A2 & R2 & _).
    exists (cb_output w2). split_and!; [done|by eapply appends_app|].
    by rewrite Nat2Z.inj_add, Z.sub_add_distr.
  - apply emits_bind; [apply header_emits|exact Hs].
  - rewrite Hver. apply emits_bind; [apply header_emits|exact Hs].
Qed.
End Write.

(** ** Reading back *)

Section ReadBack.
Context {R : Type} `{InputStreamLaws R}.

Lemma reader_itself p version t v : type_ok t -> value_ok v -> ordered v ->
  conforms (format p version) t v -> zlen (encode (format p version) false v) < 2 ^ 32 ->
  reads (S := R) (Deserialize (reader p version) t) (encode (format p version) false v) v.
Proof.
  intros Ht Hv Ho Hc Hl. destruct p; cbn [reader format] in *.
  - by apply (Deserialize_itself _ _ t v (cb_reader_laws version)).
  - by apply (Deserialize_static _ _ (sb_static_laws version)).
  - by apply (Deserialize_itself _ _ t v fb_reader_laws).
Qed.

(** The tagged protocols may leave out an optional zero of the other sign, Simple Binary
    leaves nothing out. *)
Lemma object_conforms p version t v : typed t v -> value_ok v ->
  (p <> SimpleBinary -> exact_zeros v) -> conforms (format p version) t v.
Proof. intros Ht Hv Hz. apply typed_conforms; [done..|]. intros Hmay. apply Hz. by intros ->. Qed.

Lemma supported_magic p version : version_of p version -> supported (magic p) version = Some p.
Proof. destruct p; cbn [version_of]; [intros [-> | ->]..|intros ->]; by vm_compute. Qed.

Lemma version_fits p version : version_of p version -> fits 16 version.
Proof. destruct p; cbn [version_of]; [intros [-> | ->]..|intros ->]; by vm_compute. Qed.

Lemma Unmarshal_marshaled p version t v (input : R) rest : version_of p version ->
  type_ok t -> value_ok v -> ordered v ->
  conforms (format p version) t v -> zlen (encode (format p version) false v) < 2 ^ 32 ->
  readable input ->
  view input = header (magic p) version ++ encode (format p version) false v ++ rest ->
  Unmarshal t input = Ok (magic p, v).
Proof.
  intros Hver Ht Hv Ho Hc Hl Hr Hview.
  assert (Hn : fits 16 (magic p)) by (by destruct p).
  pose proof (NextProtocol_spec (fun P => Deserialize P t) (magic p) version input _ Hn
    (version_fits _ _ Hver) Hr Hview) as Hs.
  rewrite (supported_magic _ _ Hver) in Hs. destruct Hs as (r & Hr' & V & E).
  destruct (reader_itself p version t v Ht Hv Ho Hc Hl r rest Hr' V) as (r' & E' & _).
  unfold Unmarshal. rewrite E.
  replace (match p with FastBinary => v1 | _ => version end) with version
    by (by destruct p; cbn [version_of] in Hver).
  by rewrite E'.
Qed.

(** A header that is cut short. *)
Lemma ReadVersion_short p (input : R) : readable input -> zlen (view input) < 4 ->
  exists input', ReadVersion p input = (Err (Thrown StreamException), input').
Proof.
  intros Hr Hl.
  assert (Hread : forall A (k : Z -> Z -> M R A), exists input',
    (let! m := is_Read 2 in let! v := is_Read 2 in k m v) input =
      (Err (Thrown StreamException), input')).
  { intros A k. destruct (decide (zlen (view input) < 2)) as [Hs|Hs].
    - eexists. by rewrite (bind_err _ _ _ _ _ (is_Read_eof 2 input ltac:(lia) Hr Hs)).
    - assert (Hsp : view input = take 2 (view input) ++ drop 2 (view input)) by by rewrite take_drop.
      destruct (is_Read_reads 2 (take 2 (view input)) ltac:(rewrite length_take; lia) ltac:(lia)
        input _ Hr Hsp) as (r & E & V & Hr').
      eexists. rewrite (bind_ok _ _ _ _ _ E). rewrite (bind_err _ _ _ _ _
        (is_Read_eof 2 r ltac:(lia) Hr' ltac:(rewrite V, length_drop; lia))). done. }
  destruct p; cbn [ReadVersion]; [apply Hread|apply Hread|].
  destruct (Hread _ (fun m v => ret ((m =? FAST_PROTOCOL) && (v <=? v1)))) as [r E].
  exists r. exact (bind_err _ _ _ _ _ E).
Qed.

Lemma header_split (input : R) : 4 <= zlen (view input) -> exists number version body,
  fits 16 number /\ fits 16 version /\ view input = header number version ++ body /\
  number = of_le (take 2 (view input)) /\ version = of_le (take 2 (drop 2 (view input))).
Proof.
  intros Hl. set (l := view input) in *.
  assert (Hfit : forall bs, length bs = 2%nat -> fits 16 (of_le bs) /\ le_bytes 2 (of_le bs) = bs).
  { intros bs Hb. pose proof (of_le_fits bs) as Hf. pose proof (le_bytes_of_le bs) as Hx.
    rewrite Hb in *. by split. }
  destruct (Hfit (take 2 l)) as [F1 L1]; [rewrite length_take; lia|].
  destruct (Hfit (take 2 (drop 2 l))) as [F2 L2]; [rewrite length_take, length_drop; lia|].
  exists (of_le (take 2 l)), (of_le (take 2 (drop 2 l))), (drop 2 (drop 2 l)).
  split_and!; [done..| |done|done]. unfold header. rewrite L1, L2, <-app_assoc.
  by rewrite take_drop, take_drop.
Qed.
End ReadBack.

(** * Properties *)

(** C31: what is not a marshaled payload is refused by an exception.  An input with
    fewer than four bytes ends in the middle of its header; one whose magic number is no
    protocol's, or whose version is above the latest the protocol has, is unknown.
    Nothing of it is deserialized, whatever the transform. *)
Theorem unmarshal_rejects {R} `{InputStreamLaws R} {A} (transform : ProtocolReader R -> M R A)
    (input : R) : readable input ->
  (zlen (view input) < 4 -> NextProtocol transform input = Err (Thrown StreamException)) /\
  (4 <= zlen (view input) ->
   supported (of_le (take 2 (view input))) (of_le (take 2 (drop 2 (view input)))) = None ->
   NextProtocol transform input = Err (Thrown UnknownProtocolException)).
Proof.
  intros Hr. split.
  - intros Hl. unfold NextProtocol, TryEachProtocol, BuiltInProtocols, try_apply, NextProtocolFunctor.
    destruct (ReadVersion_short CompactBinary input Hr Hl) as [r E].
    by rewrite (bind_err _ _ _ _ _ E).
  - intros Hl Hs. destruct (header_split input Hl) as (n & v & body & Fn & Fv & Hv & -> & ->).
    pose proof (NextProtocol_spec transform _ _ input body Fn Fv Hr Hv) as Hx.
    by rewrite Hs in Hx.
Qed.

(** A payload of Compact Binary version 3. *)
Lemma unmarshal_rejects_witness :
  Unmarshal sample_type (buffer_of (header COMPACT_PROTOCOL 3 ++ [Byte.x00])) =
    Err (Thrown UnknownProtocolException) /\
  Unmarshal sample_type (buffer_of (le_bytes 2 COMPACT_PROTOCOL)) = Err (Thrown StreamException).
Proof.
  destruct (buffer_reads (header COMPACT_PROTOCOL 3 ++ [Byte.x00])) as [H1 H2]; [by vm_compute|].
  destruct (buffer_reads (le_bytes 2 COMPACT_PROTOCOL)) as [H3 H4]; [by vm_compute|].
  destruct (unmarshal_rejects (fun P => Deserialize P sample_type) _ H1) as [_ U].
  destruct (unmarshal_rejects (fun P => Deserialize P sample_type) _ H3) as [S _].
  split; [apply U|apply S]; rewrite ?H2, ?H4; by vm_compute.
Defined.

(** C12: serializing writes exactly the payload of the wire format, with every protocol
    and version and on any output with room for it: fields in order, defaults left out
    or not as the protocol has it, lengths and counts in front. *)
Theorem serializes {W} `{OutputStreamLaws W} p version v (out : W) n :
  version_of p version -> value_ok v -> zlen (encode (format p version) false v) < 2 ^ 32 ->
  room out n -> zlen (encode (format p version) false v) <= n ->
  exists out', Serialize p version v out = (Ok tt, out') /\
    appends out (encode (format p version) false v) out' /\
    room out' (n - zlen (encode (format p version) false v)).
Proof. intros Hver Hv Hl Hr Hn. by apply (Serialize_emits p version v Hver Hv Hl). Qed.

Lemma serializes_witness :
  exists out, Serialize FastBinary v1 sample (mkOC 0) = (Ok tt, out) /\
    appends (mkOC 0) (encode fb_format false sample) out.
Proof.
  destruct (serializes FastBinary v1 sample (mkOC 0) 1000 eq_refl sample_ok) as (w & E & A & _);
    [by vm_compute|by vm_compute|by vm_compute|].
  exists w. exact (conj E A).
Defined.

(** C13: the round trip.  An object read with the schema it was written with is the
    object itself, with every protocol and whatever follows the payload (of less than 2^32
    bytes): a field that the writer left out because it is [==] to the default comes back
    with the value it had, and Simple Binary, which has no tags and leaves nothing out, finds
    every field by its place.  With Fast and Compact Binary no optional [float] or [double]
    field, at any depth, may hold a zero whose sign is not the one of a default that is
    zero as well: it is left out and would come back as the default. *)
Theorem round_trip {R} `{InputStreamLaws R} p version t v (input : R) rest :
  type_ok t -> typed t v -> value_ok v -> (p <> SimpleBinary -> exact_zeros v) ->
  zlen (encode (format p version) false v) < 2 ^ 32 ->
  readable input -> view input = encode (format p version) false v ++ rest ->
  exists input', Deserialize (reader p version) t input = (Ok v, input') /\
    view input' = rest /\ readable input'.
Proof.
  intros Ht Hty Hv Hz Hl. apply reader_itself; try done; [by apply (typed_ordered t)|].
  by apply object_conforms.
Qed.

Lemma round_trip_witness :
  exists s', Deserialize (reader SimpleBinary v1) sample_type
      (buffer_of (encode (sb_format v1) false sample ++ [Byte.xff])) = (Ok sample, s') /\
    view s' = [Byte.xff].
Proof.
  destruct (buffer_reads (encode (sb_format v1) false sample ++ [Byte.xff])) as [H1 H2];
    [by vm_compute|].
  destruct (round_trip SimpleBinary v1 sample_type sample
    (buffer_of (encode (sb_format v1) false sample ++ [Byte.xff])) [Byte.xff]
    (proj1 sample_types_ok) sample_typed sample_ok (fun _ => sample_zeros) eq_refl H1 H2)
    as (s' & E & V & _).
  exists s'. exact (conj E V).
Defined.

Section EndToEnd.
Context `{Allocator}.

(** C3: marshalling and unmarshalling, end to end and for every protocol and version.
    For every object of a type, of up to 2^31 - 5 bytes, marshalling it into an output
    buffer succeeds, and unmarshalling the buffer's contents, as one blob, finds the
    protocol and the version it was written with and gives the same object.  Excepted
    are, with Fast and Compact Binary, objects with an optional [float] or [double] field
    that is a zero of another sign than its default of zero, which the writers leave out
    though it is not the default. *)
Theorem marshal_unmarshal p version t v m : version_of p version -> mem_wf m ->
  type_ok t -> typed t v -> value_ok v -> (p <> SimpleBinary -> exact_zeros v) ->
  4 + zlen (encode (format p version) false v) < 2 ^ 31 ->
  exists w b m', Marshal p version v (OutputBuffer_default m) = (Ok tt, w) /\
    GetBuffer w = (Ok b, m') /\ Unmarshal t (InputBuffer_of_blob m' b) = Ok (magic p, v).
Proof.
  intros Hver Hm Ht Hty Hv Hz Hl. pose proof (typed_ordered t v Ht Hty) as Ho.
  pose proof (object_conforms p version t v Hty Hv Hz) as Hc.
  assert (Hl' : zlen (encode (format p version) false v) < 2 ^ 32)
    by (change (2 ^ 32) with (2 * 2 ^ 31); lia).
  set (bs := header (magic p) version ++ encode (format p version) false v).
  assert (Hbs : zlen bs < 2 ^ 31).
  { unfold bs, header. rewrite !length_app, !length_le_bytes. lia. }
  destruct (Marshal_emits p version v Hver Hv Hl' (OutputBuffer_default m) _
    (fresh_room m _ Hm Hbs) ltac:(done)) as (w & Es & Ha & _).
  destruct (through_memory m _ _ Hm Hbs Ha) as (b & m' & Eg & Hr & Hw).
  exists w, b, m'. split_and!; [done..|].
  apply (Unmarshal_marshaled p version t v _ []); try done. by rewrite app_nil_r.
Qed.
End EndToEnd.

Lemma marshal_unmarshal_witness :
  exists w b m',
    @Marshal _ _ (OutputBuffer_stream (H := flat_allocator)) CompactBinary v2 sample
      (OutputBuffer_default []) = (Ok tt, w) /\
    @GetBuffer flat_allocator w = (Ok b, m') /\
    Unmarshal sample_type (InputBuffer_of_blob m' b) = Ok (COMPACT_PROTOCOL, sample).
Proof.
  apply (@marshal_unmarshal flat_allocator CompactBinary v2 sample_type sample []);
    [by right|by constructor|exact (proj1 sample_types_ok)|exact sample_typed|
     exact sample_ok|intros _; exact sample_zeros|by vm_compute].
Defined.

Lemma try_magic {A} (f : protocol -> outcome (option A)) (g : protocol -> outcome A) number :
  (forall p, f p = if magic p =? number then olet a := g p in Ok (Some a) else Ok None) ->
  TryEachProtocol f BuiltInProtocols =
    match find (fun p => magic p =? number) BuiltInProtocols with
    | Some p => g p
    | None => Err (Thrown UnknownProtocolException)
    end.
Proof.
  intros Hf. unfold TryEachProtocol. induction BuiltInProtocols as [|p l IH]; [done|].
  cbn [find try_apply]. rewrite Hf. destruct (magic p =? number); [|exact IH].
  by destruct (g p).
Qed.

(** The functions that take the protocol as a number.  The number of a protocol
    makes the serializer write its default version, and the reader of that version gives
    the object back; any other number makes both throw. *)
Lemma serialize_by_magic {W R} `{OutputStreamLaws W} `{InputStreamLaws R} t v number
    (output : W) n :
  type_ok t -> typed t v -> value_ok v -> exact_zeros v ->
  (forall p, zlen (encode (format p v1) false v) < 2 ^ 32 /\
             zlen (encode (format p v1) false v) <= n) -> room output n ->
  match find (fun p => magic p =? number) BuiltInProtocols with
  | Some p => exists output', SerializeByMagic v number output = Ok output' /\
      appends output (encode (format p v1) false v) output' /\
      forall (input : R) rest, readable input -> view input = encode (format p v1) false v ++ rest ->
      NextProtocolByMagic (fun P => Deserialize P t) input number = Ok v
  | None => SerializeByMagic v number output = Err (Thrown UnknownProtocolException) /\
      forall input : R, NextProtocolByMagic (fun P => Deserialize P t) input number =
        Err (Thrown UnknownProtocolException)
  end.
Proof.
  intros Ht Hty Hv Hz Hall Hr. pose proof (typed_ordered t v Ht Hty) as Ho.
  assert (Hw : SerializeByMagic v number output =
    match find (fun p => magic p =? number) BuiltInProtocols with
    | Some p => let '(o, w) := Serialize p (default_version p) v output in olet _ := o in Ok w
    | None => Err (Thrown UnknownProtocolException)
    end).
  { apply try_magic. intros p. unfold writer_functor. destruct (magic p =? number); [|done].
    by destruct (Serialize p (default_version p) v output) as [[?|?] ?]. }
  assert (Hrd : forall input : R, NextProtocolByMagic (fun P => Deserialize P t) input number =
    match find (fun p => magic p =? number) BuiltInProtocols with
    | Some p => fst (Deserialize (reader p (default_version p)) t input)
    | None => Err (Thrown UnknownProtocolException)
    end) by (intros; by apply try_magic).
  rewrite Hw. destruct (find _ _) as [p|]; [|by split].
  destruct (Hall p) as (Hl & Hn).
  pose proof (object_conforms p v1 t v Hty Hv (fun _ => Hz)) as Hc. unfold default_version in *.
  assert (Hver : version_of p v1) by (destruct p; [by left..|done]).
  destruct (Serialize_emits p v1 v Hver Hv Hl output n Hr Hn) as (w & Es & A & _).
  exists w. rewrite Es. split_and!; [done|done|]. intros input rest Hin Hview. rewrite Hrd.
  destruct (reader_itself p v1 t v Ht Hv Ho Hc Hl input rest Hin Hview) as (r & E' & _).
  by rewrite E'.
Qed.

Lemma serialize_by_magic_witness :
  exists output', SerializeByMagic sample SIMPLE_PROTOCOL (mkOC 0) = Ok output' /\
    appends (mkOC 0) (encode (sb_format v1) false sample) output'.
Proof.
  destruct (serialize_by_magic (R := InputBuffer) sample_type sample SIMPLE_PROTOCOL (mkOC 0) 1000
    (proj1 sample_types_ok) sample_typed sample_ok sample_zeros) as (w & E & A & _).
  - intros []; split; by vm_compute.
  - by vm_compute.
  - exists w. exact (conj E A).
Defined.
